(* ===== verification/_CoqProject ===== *)
-Q . S2P
Prelude.v
Ordered.v
Text.v
StrOps.v
Json.v
Lsq.v
LsqSpec.v
Semantic.v
SemanticSpec.v
Compiler.v
CompilerSpec.v
CompilerSql.v
Lsm.v
LsmSpec.v
CompilerComplete.v
Mutation.v
MutationSpec.v
Diff.v
DiffSpec.v
Effects.v
Database.v
Catalog.v
CatalogDiff.v
CatalogDiffSpec.v
RateLimit.v
PublishedModel.v
PublishedModelSpec.v
Executor.v
Sessions.v
ExecutorSpec.v
MutationExecutor.v
Fixtures.v
SnapshotTheorems.v
CompilerTheorems.v
MutationTheorems.v
DiffTheorems.v
CatalogTheorems.v
EdgeCases.v
MutationExecutorSpec.v
ExecutorFixtures.v
PublishedModelTheorems.v
ExecutorTheorems.v
MutationExecutorTheorems.v
Authority.v
Authentication.v
AuthSpec.v
AuthTheorems.v
Mcp.v
Http.v
HttpServer.v
HttpPool.v
Cancellation.v
HttpSpec.v
HttpTheorems.v
McpParams.v
McpPublic.v
McpTools.v
McpStdio.v
McpSpec.v
McpRuns.v
McpFixtures.v
McpTheorems.v
McpSessionTheorems.v
McpResourceTheorems.v
Authoring.v
AuthoringTheorems.v
Osi.v
OsiExport.v
OsiSpec.v
OsiLinks.v
OsiRoundTrip.v
OsiFixtures.v
OsiTheorems.v
Benchmark.v
BenchmarkTheorems.v
Reports.v
CatalogScan.v
CatalogScanTheorems.v
Commands.v
CommandTheorems.v
