(* ===== verification/Prelude.v ===== *)
(** * postgresem: a verified model of the semantic gateway

    postgresem accepts typed requests (logical semantic queries and mutations),
    resolves them against a published semantic snapshot, compiles them to
    parameterised SQL and executes that on PostgreSQL under guard, with audit
    records; requests arrive over HTTP with bearer tokens, or line by line over
    standard input. Models are drafted from a catalog of the database, or imported
    from OSI documents and checked against one. This development models both
    crates: the compiler, and of the gateway the loading of published models, the
    executors of queries and mutations, the protocol server with its tools and
    resources, the HTTP server with its authentication, limits and cancellation,
    the scan of a catalog, catalog snapshots and their differences, authoring, the
    conversion from and to OSI, the benchmarks, the reports and the commands of
    the command line that compose them; it proves what each promises.

    ** The program and the files that model it

    The sources are under [crates/postgresem-compiler/src] and
    [crates/postgresem/src]. A definition has the name of the Rust item it models;
    a type has a module of its own for its fields, constructors and serialised
    form.

    - [hash.rs]: [Json] (JSON trees, the interface [Crates] to sha2 and
      serde_json, the text of digests).
    - [lsq.rs], queries: [Lsq] (data, literals, [validate_query],
      [normalize_lsq]); what validation accepts is characterised in [LsqSpec].
    - [semantic.rs], snapshots: [Semantic] (models, canonical order,
      [calculate_revision_hash]); [SemanticSpec], [SnapshotTheorems].
    - [compiler.rs], the query compiler: [Compiler]. [validate] resolves a request
      to a [ValidatedQuery]; [render] writes it as SQL in a state monad whose
      state is the bound parameters and the columns read; [compile_lsq] composes
      them. [CompilerSpec] inverts resolution and has a program logic for the
      columns that are read, [CompilerComplete] is the converse of resolution,
      [CompilerSql] is a program logic for the text that is written;
      [CompilerTheorems], which also gives a meaning to grouped selections, to say
      what an anchored statement counts.
    - [lsm.rs], mutations: [Lsm] (the duplicate-rejecting JSON visitor,
      [validate_mutation], [normalize_lsm]); [LsmSpec].
    - [mutation.rs], the mutation compiler: [Mutation]; indexing that panics in
      Rust is the outcome [Panicked]. [MutationSpec], [MutationTheorems].
    - [diff.rs], differences of snapshots: [Diff], [DiffSpec], [DiffTheorems].
    - [catalog.rs], catalog snapshots: [Catalog] (data, [normalize],
      [validated_normalized], and what canonical catalogs guarantee) and
      [CatalogScan] (the scan of a database); [CatalogScanTheorems].
    - [catalog_diff.rs], differences of catalogs: [CatalogDiff]; [CatalogDiffSpec]
      states them as a comparison of objects by location, with an injective
      rendering of locations as JSON pointers; [CatalogTheorems].
    - Code that talks to its environment is a tree of calls, the free monad of
      [Effects]: a program makes a call and goes on with whatever is answered, so
      that a theorem about all runs holds for every database, clock and client.
      [Effects] also has the program logic: a monitor is a small machine that
      observes calls and answers and says which calls are allowed, and [monitored]
      checks a program against it.
    - [database.rs]: [Database] (the calls, one constructor per statement with its
      parameters and the type of its rows; connection settings, session timeouts,
      and the shape of a transaction).
    - [published_model.rs], the loader: [PublishedModel]; [PublishedModelSpec]
      says what a row stores, [PublishedModelTheorems] that the loader returns
      exactly what is stored.
    - [executor.rs], the query executor: [Executor]; [Sessions] has the monitors
      of a guarded transaction and of the rows of a result, [ExecutorSpec] that of
      the request with its audit records; [ExecutorTheorems].
    - [mutation_executor.rs], the mutation executor: [MutationExecutor]; the
      monitor of its claim, statement, record and commit is
      [MutationExecutorSpec]; [MutationExecutorTheorems].
    - [mcp_http_auth.rs], authentication: [Authority] (the document, its
      validation, keys, [load]) and [Authentication] (from the header to the
      principal); [AuthSpec] says declaratively what each step accepts and what a
      loaded authority guarantees; [AuthTheorems].
    - [mcp_http_rate.rs], the limiter: [RateLimit], as a step relation over the
      buckets and the outstanding permits.
    - [mcp_http.rs], the HTTP server: [Http] (headers, bodies, responses),
      [HttpServer] (handlers and workers, as programs that own permits, and
      [prepare_server], over files and the database), [Cancellation] (streams and
      cancellers, as a step relation). [HttpSpec] says which requests are
      accepted; [HttpPool] steps any number of handlers and workers over shared
      semaphores and the limiter, with a logic of owned permits; [HttpTheorems].
    - [mcp.rs], the protocol server: [Mcp] has the configuration and the messages,
      [McpParams] the parameters with their decoders and the failures a client
      sees, [McpPublic] what is shown of models, lineage and results and the
      published tool schemas, [McpTools] the tools, the resources and both
      dispatchers, [McpStdio] the bounded reader of lines and the loop that serves
      them. [McpSpec] names the statements and failures a request may lead to,
      [McpRuns] inverts the runs of each tool, [McpTheorems]; [McpSessionTheorems]
      cuts the input into lines, serves them, and relates that to the loop;
      [McpResourceTheorems] is about cursors and resources.
    - [catalog_types.rs]: the end of [Catalog]. [authoring.rs], models drafted
      from a catalog: [Authoring], [AuthoringTheorems]. The end of
      [CompilerTheorems] says which requests are well typed over a model, and that
      on a snapshot that keeps the rules of [serviceable] they compile; both
      sources of models are proved against it.
    - [osi.rs]: [Osi] has the document and the import, [OsiExport] the export.
      [OsiSpec] says when a model is backed by a relation and what the text of a
      metric expression means, [OsiLinks] follows relationships and projected
      fields through the import into the snapshot; [OsiRoundTrip] relates export
      and import; [OsiTheorems].
    - [benchmark.rs]: [Benchmark], [BenchmarkTheorems].
    - [report.rs], [doctor.rs], [contract.rs]: [Reports], which also has the calls
      a command makes (files, programs, streams, the HTTP runtime, and those of
      the database).
    - [main.rs]: [Commands] has the commands with their arguments, one program per
      command, [serve_http] of [mcp_http.rs] which starts and drains the HTTP
      server, the dispatch [run] and the exit status of [main]. [CommandTheorems]
      has logics for the calls a command may make, for how its database calls fall
      into parts, and for what it prints over given files.

    [Prelude] (this file) has the result monad, its loops and the tactic [unbind];
    [Ordered] models stable sorting, [dedup], [BTreeSet] and [BTreeMap]; [Text]
    models strings as bytes and SQL quoting, [StrOps] methods of [str].
    [Fixtures], [ExecutorFixtures], [McpFixtures] and [OsiFixtures], and parts of
    [HttpSpec] and [AuthTheorems], have instances of the interfaces, a snapshot
    with requests, a database that answers every call, a gateway with its tokens,
    requests over HTTP and over standard input, a catalog with documents about it,
    on which the instances of the theorems are computed; [EdgeCases] evaluates
    inputs on which the code behaves unexpectedly.

    ** What the theorems show

    - Requests and snapshots: [LsqSpec], [LsmSpec] and [MutationSpec] characterise
      the literals, the documents, the queries, the mutations and the write
      policies that are accepted; [SnapshotTheorems] shows that canonical JSON
      identifies a query and that the revision hash covers the content.
    - Queries: no text of a request reaches the SQL (C1); only visible objects are
      used (C2), and a request is accepted exactly when the rules allow it (C37);
      over joins that multiply rows the aggregation is anchored, so that its
      statement counts every row of the model once (C32). [CompilerTheorems] also
      has the row limit, the lineage and the joins of a compiled query, and that a
      validated query compiles, with two stated exceptions.
    - Mutations: compiled exactly when authorised (C7) and injection safe (C31);
      [MutationTheorems] also shows that conflict fields are never updated and
      that the compiler never panics.
    - Loading: one revision is read in one read-only transaction, and the snapshot
      holds exactly what its rows store (C12).
    - Scanning: the same of the catalog (C13); of definitions and expressions it
      keeps digests only (C14). [CatalogScanTheorems] also shows that a scan only
      reads, and that it is accepted wherever a catalog is evidence.
    - Executing queries: the statement runs only under guard (C3); every request
      that was recorded as started is settled by one record that tells its outcome
      (C11); the rows returned are the longest prefix that fits (C33).
    - Executing mutations: the statement runs once, under guard and under a claim
      of its idempotency key (C8); a write is committed only with its record (C9);
      every mutation concludes, with its failures recorded once, conflicts and an
      audit connection that cannot be opened apart (C10).
    - Serving requests, the composition of all of the above: what the server
      executes is what the request asks for, under the guards of the executors
      (C4); everything but a mutation is read-only, the two audit records of a
      query apart (C5); no method panics, and failures say nothing private (C26);
      input is served line by line and to its end (C21), every request is answered
      once and in order (C20).
    - Discovery: pages list every model once (C28), with cursors that are bound to
      revision and authority, though longer than the published schema allows
      (C40); exactly the listed resources can be read (C29).
    - Authentication: a loaded authority is consistent and accepts exactly the
      credentials it should, with exactly the scopes and roles they give (C16).
    - HTTP: a server is prepared only with checked roles on a loopback address
      (C35); only authenticated and admitted requests reach a worker, with the
      roles of their principal (C15); executions stay within their bounds in every
      interleaving and permits are never lost (C17); responses are private and
      bounded (C36); cancellations are never lost (C18).
    - Authoring: a scaffold publishes exactly the granted columns, as models that
      can be queried (C27).
    - OSI: an import asserts nothing the catalog does not (C19), yields models
      that can be queried and survives export (C22), metric expressions with one
      stated exception (C39).
    - Differences: the reports are exact, sorted and classified (C38;
      [DiffTheorems] for snapshots).
    - Benchmarks: the compiler benchmark always reports (C34), and one of
      executions reports only stable results ([BenchmarkTheorems]).
    - Commands: a command touches only what its arguments name (C25) and executes
      only guarded statements (C6); exporting and importing through files is a
      round trip (C23); breaking changes close the gate of a comparison (C24); the
      contract manifest is true of the server and the command line (C30).

    ** Conventions and bounds

    A string is its list of UTF-8 bytes. [u32] and [usize] values are [N], [nat]
    or [Z] with the source's own range checks; where the source can overflow or
    saturate ([parse_digits], the counter of the limiter, the byte count of a
    result, the times of a token) the width is written out. [f64] is [SpecFloat]
    binary64. Definitions are total and structurally recursive; the loops with
    fuel are [cancel_loop], whose turns take at least 10 ms each, so that a tenth
    of its deadline in milliseconds is enough, as C18 shows, and [read_line_loop]
    and [serve_io], which consume a byte or a read in each turn, so that the size
    of the input is enough, as C21 shows. The rows a statement returns are a
    finite stream that ends, or fails, at some point.

    Code outside the repository is an interface: [Crates] (digest and JSON text,
    with the laws [CratesOk]: digests have 32 bytes and JSON texts are injective),
    [Driver] (the parser of connection strings), [ModelParsers], [LsqParser] and
    [LsmParser] (typed JSON decoders), [AuthCrates] (signatures, codes, base64,
    URLs and documents), [HttpCrates] (header values), [JsonText] (untyped JSON),
    [Schemas] (the embedded schema files), [AuthoringParser] and [OsiYaml] (with
    the law [OsiYamlOk]: a written document is read back), [Platform] (the name of
    the system) and [CommandCrates] (the JSON of files and documents, the texts of
    errors), each instantiated in the fixtures or where they are used; the SQL
    texts and functions are opaque, and their answers arbitrary. What a worker of
    the HTTP server dispatches to is answered by the environment where the pool is
    studied; in a run of the command line, serving answers with the requests that
    were handled, and [axum_serves] says that their handlers are [handle_mcp] and
    their tasks [dispatch_job]. A panic of the process between two calls of an
    executor is not modelled: dropping a transaction rolls it back.

    ** Not modelled

    What clap makes of the words of a command line: its result is the argument of
    [run]. The accept loop of the HTTP runtime, which is a call that ends with
    what it handled, and the signals that end it. The texts of error messages
    other than those a client of the server sees. Exhaustion of memory. The
    remaining lines of the sources are imports, derived code and unit tests. *)

From Stdlib Require Export Ascii.
From stdpp Require Export base tactics option list strings pretty numbers sorting sets.

(** ** Results of fallible code

    Rust's [Result<A, E>].  The instances let fallible code be written with
    stdpp's [x ← m; k]; an early [return Err(e)] is [fail_if b e;; k]. *)

Inductive result (E A : Type) : Type :=
| Ok (a : A)
| Err (e : E).
Arguments Ok {E A} a.
Arguments Err {E A} e.

#[export] Instance result_ret {E} : MRet (result E) := fun A a => Ok a.
#[export] Instance result_bind {E} : MBind (result E) :=
  fun A B f m => match m with Ok a => f a | Err e => Err e end.
#[export] Instance result_fmap {E} : FMap (result E) :=
  fun A B f m => match m with Ok a => Ok (f a) | Err e => Err e end.

(** [if b { return Err(e) }]. *)
Definition fail_if {E} (b : bool) (e : E) : result E unit :=
  if b then Err e else Ok tt.

(** [Option::ok_or]. *)
Definition ok_or {E A} (o : option A) (e : E) : result E A :=
  match o with Some a => Ok a | None => Err e end.

(** [Result::map_err]. *)
Definition map_err {E F A} (f : E -> F) (m : result E A) : result F A :=
  match m with Ok a => Ok a | Err e => Err (f e) end.

(** [Option<Result<..>>::transpose] after [Option::map]. *)
Definition transpose {E A B} (f : A -> result E B) (o : option A) : result E (option B) :=
  match o with
  | None => Ok None
  | Some a => match f a with Ok b => Ok (Some b) | Err e => Err e end
  end.

(** [iter().map(f).collect::<Result<Vec<_>, _>>()]: the first error wins. *)
Section try_map.
Context {E A B : Type} (f : A -> result E B).

Fixpoint try_map (l : list A) : result E (list B) :=
  match l with
  | [] => Ok []
  | a :: l' => b ← f a; k ← try_map l'; Ok (b :: k)
  end.
End try_map.

(** [for a in l { f(a)? }] with no state. *)
Section try_each.
Context {E A : Type} (f : A -> result E unit).

Fixpoint try_each (l : list A) : result E unit :=
  match l with
  | [] => Ok tt
  | a :: l' => f a;; try_each l'
  end.
End try_each.

(** A loop body that threads a state. *)
Section try_fold.
Context {E S A : Type} (f : S -> A -> result E S).

Fixpoint try_fold (s : S) (l : list A) : result E S :=
  match l with
  | [] => Ok s
  | a :: l' => s' ← f s a; try_fold s' l'
  end.
End try_fold.

(** A mapping closure that also mutates captured state. *)
Section try_map_st.
Context {E S A B : Type} (f : S -> A -> result E (B * S)).

Fixpoint try_map_st (s : S) (l : list A) : result E (list B * S) :=
  match l with
  | [] => Ok ([], s)
  | a :: l' =>
      '(b, s1) ← f s a;
      '(k, s2) ← try_map_st s1 l';
      Ok (b :: k, s2)
  end.
End try_map_st.

Definition is_ok {E A} (m : result E A) : bool :=
  match m with Ok _ => true | Err _ => false end.

Lemma is_ok_true {E A} (m : result E A) : is_ok m = true -> exists a, m = Ok a.
Proof. destruct m; [eauto|done]. Qed.

Section result_lemmas.
Context {E A B : Type}.

Lemma Ok_inj (a b : A) : @Ok E A a = Ok b -> a = b.
Proof. by intros [=]. Qed.

Lemma bind_ok (m : result E A) (f : A -> result E B) b :
  m ≫= f = Ok b <-> exists a, m = Ok a /\ f a = Ok b.
Proof. destruct m; naive_solver. Qed.

Lemma fmap_ok (m : result E A) (f : A -> B) b :
  f <$> m = Ok b <-> exists a, m = Ok a /\ b = f a.
Proof. destruct m; naive_solver. Qed.

Lemma bind_err (m : result E A) (f : A -> result E B) e :
  m ≫= f = Err e <-> m = Err e \/ exists a, m = Ok a /\ f a = Err e.
Proof. destruct m; naive_solver. Qed.

Lemma fail_if_ok (b : bool) (e : E) u : fail_if b e = Ok u <-> b = false.
Proof. destruct b, u; naive_solver. Qed.

Lemma fail_if_err (b : bool) (e e' : E) : fail_if b e = Err e' <-> b = true /\ e = e'.
Proof. destruct b; naive_solver. Qed.

Lemma ok_or_ok (o : option A) (e : E) a : ok_or o e = Ok a <-> o = Some a.
Proof. destruct o; naive_solver. Qed.

Lemma ok_or_err (o : option A) (e e' : E) : ok_or o e = Err e' <-> o = None /\ e = e'.
Proof. destruct o; naive_solver. Qed.

Lemma map_err_ok {F} (f : E -> F) (m : result E A) a : map_err f m = Ok a <-> m = Ok a.
Proof. destruct m; naive_solver. Qed.

Lemma transpose_ok (f : A -> result E B) o ob :
  transpose f o = Ok ob <->
  (o = None /\ ob = None) \/ exists a b, o = Some a /\ ob = Some b /\ f a = Ok b.
Proof.
  destruct o as [a|]; simpl; [destruct (f a) as [b|e] eqn:Hf|]; split; intros H.
  - right. exists a, b. naive_solver.
  - destruct H as [[? _]|(a' & b' & [= <-] & -> & Hb)]; [done|].
    rewrite Hf in Hb. by injection Hb as ->.
  - done.
  - destruct H as [[? _]|(a' & b' & [= <-] & _ & Hb)]; [done|].
    by rewrite Hf in Hb.
  - left. naive_solver.
  - by destruct H as [[_ ->]|(? & ? & ? & _)].
Qed.

End result_lemmas.

Lemma guard_then {E B} (b : bool) (e : E) (k : result E B) x :
  (fail_if b e;; k) = Ok x <-> b = false /\ k = Ok x.
Proof. destruct b; naive_solver. Qed.

Lemma check_then {E A B} (m : result E A) (k : result E B) x :
  (m;; k) = Ok x <-> (exists a, m = Ok a) /\ k = Ok x.
Proof. destruct m; naive_solver. Qed.

Section loop_lemmas.
Context {E A B : Type}.

Lemma try_map_ok (f : A -> result E B) l k :
  try_map f l = Ok k <-> Forall2 (fun a b => f a = Ok b) l k.
Proof.
  revert k. induction l as [|a l IH]; intros k; simpl.
  - split; [by intros [= <-]|]. by intros ->%Forall2_nil_inv_l.
  - rewrite bind_ok. setoid_rewrite bind_ok. setoid_rewrite IH. split.
    + intros (b & Hb & k' & Hk & [= <-]). by constructor.
    + intros H. inversion H; subst. eauto 10.
Qed.

Lemma try_each_ok (f : A -> result E unit) l u :
  try_each f l = Ok u <-> Forall (fun a => f a = Ok tt) l.
Proof.
  destruct u. induction l as [|a l IH]; simpl.
  - split; [by constructor|done].
  - rewrite bind_ok, Forall_cons, <- IH. split.
    + by intros ([] & ? & ?).
    + intros [? ?]. by exists tt.
Qed.
End loop_lemmas.

(** Inversion of successful fallible code: peels binds, guards and lookups off
    every hypothesis of the form [m = Ok _]. *)
Ltac unbind_step :=
  match goal with
  | H : mbind _ _ = Ok _ |- _ => apply bind_ok in H as (? & ? & ?)
  | H : fmap _ _ = Ok _ |- _ => apply fmap_ok in H as (? & ? & ->)
  | H : fail_if _ _ = Ok _ |- _ => apply fail_if_ok in H
  | H : ok_or _ _ = Ok _ |- _ => apply ok_or_ok in H
  | H : map_err _ _ = Ok _ |- _ => apply map_err_ok in H
  | H : Ok _ = Ok _ |- _ => apply Ok_inj in H; try subst
  | H : Err _ = Ok _ |- _ => discriminate H
  | H : (let '(_, _) := ?p in _) = Ok _ |- _ => destruct p; cbn beta iota in H
  | H : (_ || _) = false |- _ => apply orb_false_iff in H as [? ?]
  | H : negb _ = false |- _ => apply negb_false_iff in H
  | H : bool_decide _ = false |- _ => apply bool_decide_eq_false in H
  | H : bool_decide _ = true |- _ => apply bool_decide_eq_true in H
  end.
Ltac unbind := repeat unbind_step.

(** Well-formedness facts of ordered collections. *)
Create HintDb btree.

(** ** Lists *)

Lemma forallb_Forall {A} (f : A -> bool) l :
  forallb f l = true <-> Forall (fun x => f x = true) l.
Proof.
  rewrite forallb_forall, Forall_forall. split; intros H x Hx; apply H; by apply list_elem_of_In.
Qed.

Lemma NoDup_map_inj {A B} (f : A -> B) l x y :
  NoDup (map f l) -> x ∈ l -> y ∈ l -> f x = f y -> x = y.
Proof.
  induction l as [|z l IH]; [by intros _ ?%not_elem_of_nil|].
  simpl. intros [Hz Hnd]%NoDup_cons [->|Hx]%elem_of_cons [->|Hy]%elem_of_cons Hxy; auto.
  - destruct Hz. rewrite Hxy. apply (list_elem_of_fmap_2 f l y). done.
  - destruct Hz. rewrite <- Hxy. apply (list_elem_of_fmap_2 f l x). done.
Qed.

Lemma nodup_bool {A} `{!EqDecision A} (l : list A) : bool_decide (NoDup l) = true -> NoDup l.
Proof. apply bool_decide_eq_true_1. Qed.
