(* ===== verification/Ordered.v ===== *)
(** * Ordered collections of the Rust standard library

    Models of [slice::sort_by] (a stable sort), [BTreeSet] and [BTreeMap].  The
    compiler iterates over these collections while it writes SQL, so their
    order is observable: a set is its ascending list of keys, a map the
    ascending list of its bindings.  Strings compare by their bytes
    ([String.le]), as [str]'s [Ord] does. *)

From S2P Require Import Prelude.

(** ** Keys *)

Class Ordered (K : Type) := {
  kle : relation K;
  kle_dec :: RelDecision kle;
  kle_po :: PartialOrder kle;
  kle_total :: Total kle;
}.

#[export] Instance string_ordered : Ordered string := {| kle := String.le |}.

Lemma string_le_antisym (x y : string) : kle x y -> kle y x -> x = y.
Proof. apply (anti_symm kle). Qed.

(** ** Stable sorting *)

Section sort_by.
Context {A : Type} (R : relation A) `{!RelDecision R}.

Fixpoint insert_by (x : A) (l : list A) : list A :=
  match l with
  | [] => [x]
  | y :: l' => if decide (R x y) then x :: y :: l' else y :: insert_by x l'
  end.

(** [l.sort_by(..)]: an element is placed before the equal ones that follow
    it in [l], hence the sort is stable. *)
Definition sort_by (l : list A) : list A := foldr insert_by [] l.

Lemma insert_by_perm x l : insert_by x l ≡ₚ x :: l.
Proof.
  induction l as [|y l IH]; simpl; [done|].
  case_decide; [done|]. rewrite IH. apply Permutation_swap.
Qed.

Lemma sort_by_perm l : sort_by l ≡ₚ l.
Proof. induction l as [|x l IH]; simpl; [done|]. by rewrite insert_by_perm, IH. Qed.

Lemma elem_of_sort_by x l : x ∈ sort_by l <-> x ∈ l.
Proof. by rewrite sort_by_perm. Qed.

Lemma length_sort_by l : length (sort_by l) = length l.
Proof. by rewrite sort_by_perm. Qed.

Context `{!Transitive R, !Total R}.

Lemma insert_by_sorted x l : StronglySorted R l -> StronglySorted R (insert_by x l).
Proof using Type*.
  induction 1 as [|y l Hl IH Hy]; simpl; [by repeat constructor|].
  case_decide as Hxy.
  - repeat constructor; try done. eapply Forall_impl; [exact Hy|]. intros z; by trans y.
  - constructor; [done|]. rewrite insert_by_perm. constructor; [|done].
    by destruct (total R x y).
Qed.

Lemma sort_by_sorted l : StronglySorted R (sort_by l).
Proof using Type*. induction l; simpl; [constructor|by apply insert_by_sorted]. Qed.

Lemma sort_by_id l : StronglySorted R l -> sort_by l = l.
Proof.
  induction 1 as [|x l _ IH Hx]; simpl; [done|]. rewrite IH.
  destruct Hx as [|y l Hxy _]; simpl; [done|]. by rewrite decide_True.
Qed.

Lemma sort_by_idemp l : sort_by (sort_by l) = sort_by l.
Proof using Type*. apply sort_by_id, sort_by_sorted. Qed.

(** Two sorted lists with the same elements coincide as soon as the order
    separates the elements of the list. *)
Lemma sorted_perm_unique l k :
  (forall x y, x ∈ l -> y ∈ l -> R x y -> R y x -> x = y) ->
  StronglySorted R l -> StronglySorted R k -> l ≡ₚ k -> l = k.
Proof.
  revert k. induction l as [|x l IH]; intros k Hanti Hl Hk Hp.
  - by apply Permutation_nil in Hp.
  - destruct k as [|y k]; [by apply symmetry, Permutation_nil in Hp|].
    apply StronglySorted_inv in Hl as [Hl Hx].
    apply StronglySorted_inv in Hk as [Hk Hy].
    assert (x = y) as ->.
    { assert (Hyx : y ∈ x :: l) by (rewrite Hp; left).
      assert (Hxy : x ∈ y :: k) by (rewrite <- Hp; left).
      apply elem_of_cons in Hyx as [->|Hyx]; [done|].
      apply elem_of_cons in Hxy as [->|Hxy]; [done|].
      rewrite Forall_forall in Hx, Hy.
      apply Hanti; [left|by right|by apply Hx|by apply Hy]. }
    f_equal. apply IH; [|done|done|].
    + intros z z' Hz Hz'. apply Hanti; by right.
    + by apply Permutation_cons_inv in Hp.
Qed.

Lemma sort_by_unique l k :
  (forall x y, x ∈ l -> y ∈ l -> R x y -> R y x -> x = y) ->
  l ≡ₚ k -> sort_by l = sort_by k.
Proof using Type*.
  intros Hanti Hp. apply sorted_perm_unique.
  - intros x y. rewrite !elem_of_sort_by. apply Hanti.
  - apply sort_by_sorted.
  - apply sort_by_sorted.
  - by rewrite !sort_by_perm.
Qed.

(** Stability: the elements of one equivalence class keep their order. *)
Lemma insert_by_filter (P : A -> Prop) `{!forall x, Decision (P x)} x l :
  (forall y z, P y -> P z -> R y z) ->
  filter P (insert_by x l) = filter P (x :: l).
Proof.
  intros HP. induction l as [|y l IH]; simpl; [done|].
  case_decide as Hxy; [done|]. rewrite !filter_cons, IH, filter_cons.
  repeat case_decide; try done. by destruct Hxy; apply HP.
Qed.

Lemma sort_by_stable (P : A -> Prop) `{!forall x, Decision (P x)} l :
  (forall y z, P y -> P z -> R y z) -> filter P (sort_by l) = filter P l.
Proof.
  intros HP. induction l as [|x l IH]; simpl; [done|].
  rewrite insert_by_filter by done. by rewrite !filter_cons, IH.
Qed.
End sort_by.

(** Sorting commutes with a map that preserves and reflects the order. *)
Lemma sort_by_fmap {A B} (R : relation A) (S : relation B)
    `{!RelDecision R, !RelDecision S} (f : A -> B) l :
  (forall x y, R x y <-> S (f x) (f y)) ->
  f <$> sort_by R l = sort_by S (f <$> l).
Proof.
  intros Hf. induction l as [|x l IH]; [done|]. rewrite fmap_cons. simpl.
  rewrite <- IH. clear IH. generalize (sort_by R l) as k. clear l.
  induction k as [|y k IH]; [done|]. rewrite !fmap_cons. simpl.
  destruct (decide (R x y)) as [H|H]; destruct (decide (S (f x) (f y))) as [H'|H'];
    rewrite Hf in H; try done. by rewrite fmap_cons, IH.
Qed.

(** ** [BTreeSet]: ascending, duplicate-free keys *)

Section btree_set.
Context {K : Type} `{!EqDecision K, !Ordered K}.
Implicit Types (k : K) (s : list K).

Definition klt k k' : Prop := kle k k' /\ k <> k'.

Lemma klt_trans k1 k2 k3 : klt k1 k2 -> klt k2 k3 -> klt k1 k3.
Proof.
  intros [H1 N1] [H2 N2]. split; [by trans k2|]. intros ->.
  apply N1. by apply (anti_symm kle).
Qed.

Lemma klt_irrefl k : ~ klt k k.
Proof. by intros [_ []]. Qed.

Lemma kle_or_lt k k' : ~ kle k k' -> klt k' k.
Proof.
  intros Hn. destruct (total kle k k') as [|Hle]; [done|].
  split; [done|]. intros ->. by apply Hn.
Qed.

Fixpoint bs_insert k s : list K :=
  match s with
  | [] => [k]
  | k' :: s' =>
      if decide (k = k') then k :: s'
      else if decide (kle k k') then k :: k' :: s' else k' :: bs_insert k s'
  end.

Definition bs_from_list (l : list K) : list K := foldl (fun s k => bs_insert k s) [] l.

Definition bs_wf s : Prop := StronglySorted klt s.

Lemma elem_of_bs_insert k k' s : k' ∈ bs_insert k s <-> k' = k \/ k' ∈ s.
Proof.
  induction s as [|x s IH]; simpl; [set_solver|].
  repeat case_decide; subst; rewrite ?elem_of_cons, ?IH; set_solver.
Qed.

Lemma bs_insert_wf k s : bs_wf s -> bs_wf (bs_insert k s).
Proof.
  induction 1 as [|x s Hs IH Hx]; simpl; [by repeat constructor|].
  repeat case_decide; subst.
  - by constructor.
  - constructor; [by constructor|]. constructor; [by split|].
    eapply Forall_impl; [exact Hx|]. intros y. by apply klt_trans.
  - constructor; [done|]. rewrite Forall_forall in *.
    intros y [->|Hy]%elem_of_bs_insert; [by apply kle_or_lt|by apply Hx].
Qed.

Lemma elem_of_bs_fold k l s :
  k ∈ foldl (fun s k => bs_insert k s) s l <-> k ∈ s \/ k ∈ l.
Proof.
  revert s. induction l as [|x l IH]; intros s; simpl; [set_solver|].
  rewrite IH, elem_of_bs_insert. set_solver.
Qed.

Lemma bs_fold_wf l s : bs_wf s -> bs_wf (foldl (fun s k => bs_insert k s) s l).
Proof.
  revert s. induction l as [|x l IH]; intros s Hs; simpl; [done|].
  by apply IH, bs_insert_wf.
Qed.

Lemma elem_of_bs_from_list k l : k ∈ bs_from_list l <-> k ∈ l.
Proof. unfold bs_from_list. rewrite elem_of_bs_fold. set_solver. Qed.

Lemma bs_from_list_wf l : bs_wf (bs_from_list l).
Proof. apply bs_fold_wf. constructor. Qed.

Lemma bs_wf_nodup s : bs_wf s -> NoDup s.
Proof.
  induction 1 as [|x s Hs IH Hx]; [constructor|]. constructor; [|done].
  rewrite Forall_forall in Hx. intros Hin. by apply (klt_irrefl x), Hx.
Qed.

(** A well-formed set is determined by its members. *)
Lemma bs_ext s1 s2 : bs_wf s1 -> bs_wf s2 -> (forall k, k ∈ s1 <-> k ∈ s2) -> s1 = s2.
Proof.
  intros H1 H2 Heq. apply (sorted_perm_unique klt); [|done|done|].
  - intros x y _ _ [Hxy _] [Hyx _]. by apply (anti_symm kle).
  - apply NoDup_Permutation; auto using bs_wf_nodup.
Qed.
End btree_set.

(** ** [BTreeMap]: bindings in ascending order of their keys *)

Section btree_map.
Context {K V : Type} `{!EqDecision K, !Ordered K}.
Implicit Types (k : K) (v : V) (m : list (K * V)).

Fixpoint bt_get k m : option V :=
  match m with
  | [] => None
  | (k', v) :: m' => if decide (k = k') then Some v else bt_get k m'
  end.

Fixpoint bt_insert k v m : list (K * V) :=
  match m with
  | [] => [(k, v)]
  | (k', v') :: m' =>
      if decide (k = k') then (k, v) :: m'
      else if decide (kle k k') then (k, v) :: (k', v') :: m'
      else (k', v') :: bt_insert k v m'
  end.

(** [iter.collect::<BTreeMap<_, _>>()]: later bindings replace earlier ones. *)
Definition bt_from_list (l : list (K * V)) : list (K * V) :=
  foldl (fun m '(k, v) => bt_insert k v m) [] l.

Definition bt_contains k m : bool := bool_decide (is_Some (bt_get k m)).

Definition bt_wf m : Prop := bs_wf m.*1.

Lemma bt_get_insert_eq k v m : bt_get k (bt_insert k v m) = Some v.
Proof.
  induction m as [|[k' v'] m IH]; simpl; [by rewrite decide_True|].
  repeat case_decide; subst; simpl; repeat case_decide; done.
Qed.

Lemma bt_get_insert_ne k k' v m : k <> k' -> bt_get k' (bt_insert k v m) = bt_get k' m.
Proof.
  intros Hne. induction m as [|[k2 v2] m IH]; simpl; [by rewrite decide_False|].
  repeat case_decide; subst; simpl; repeat case_decide; subst; done.
Qed.

Lemma bt_insert_keys k v m : (bt_insert k v m).*1 = bs_insert k m.*1.
Proof.
  induction m as [|[k' v'] m IH]; [done|]. rewrite fmap_cons. simpl.
  repeat case_decide; subst; rewrite ?fmap_cons; [done..|]. by rewrite IH.
Qed.

Lemma bt_insert_wf k v m : bt_wf m -> bt_wf (bt_insert k v m).
Proof. unfold bt_wf. rewrite bt_insert_keys. apply bs_insert_wf. Qed.

Lemma bt_get_elem k v m : bt_get k m = Some v -> (k, v) ∈ m.
Proof.
  induction m as [|[k' v'] m IH]; simpl; [done|].
  case_decide; subst; [intros [= ->]; left|right; auto].
Qed.

Lemma bt_get_none k m : bt_get k m = None <-> k ∉ m.*1.
Proof.
  induction m as [|[k' v'] m IH]; simpl; [set_solver|].
  case_decide; subst; [set_solver|]. rewrite IH. set_solver.
Qed.

Lemma bt_get_is_some k m : is_Some (bt_get k m) <-> k ∈ m.*1.
Proof. rewrite <- not_eq_None_Some, bt_get_none. split; [apply dec_stable|naive_solver]. Qed.

Lemma bt_elem_get k v m : bt_wf m -> (k, v) ∈ m -> bt_get k m = Some v.
Proof.
  intros Hwf%bs_wf_nodup. induction m as [|[k' v'] m IH]; [set_solver|].
  simpl in *. apply NoDup_cons in Hwf as [Hk Hwf].
  intros [[= -> ->]|Hin]%elem_of_cons; [by rewrite decide_True|].
  rewrite decide_False; [by apply IH|]. intros ->. apply Hk.
  apply list_elem_of_fmap. by exists (k', v).
Qed.

Lemma bt_fold_wf l m :
  bt_wf m -> bt_wf (foldl (fun m '(k, v) => bt_insert k v m) m l).
Proof.
  revert m. induction l as [|[k v] l IH]; intros m Hm; simpl; [done|].
  by apply IH, bt_insert_wf.
Qed.

Lemma bt_from_list_wf l : bt_wf (bt_from_list l).
Proof. apply bt_fold_wf. constructor. Qed.

Lemma bt_fold_keys l m k :
  k ∈ (foldl (fun m '(k, v) => bt_insert k v m) m l).*1 <-> k ∈ m.*1 \/ k ∈ l.*1.
Proof.
  revert m. induction l as [|[k' v'] l IH]; intros m; simpl; [set_solver|].
  rewrite IH, bt_insert_keys, elem_of_bs_insert. set_solver.
Qed.

Lemma elem_of_bt_from_list_keys l k : k ∈ (bt_from_list l).*1 <-> k ∈ l.*1.
Proof. unfold bt_from_list. rewrite bt_fold_keys. set_solver. Qed.

(** A looked-up binding comes from the list, or was there before. *)
Lemma bt_fold_get_elem l m k v :
  bt_get k (foldl (fun m '(k, v) => bt_insert k v m) m l) = Some v ->
  (k, v) ∈ l \/ bt_get k m = Some v.
Proof.
  revert m. induction l as [|[k' v'] l IH]; intros m; simpl; [auto|].
  intros [Hin|Hget]%IH; [left; by right|].
  destruct (decide (k' = k)) as [->|Hne].
  - rewrite bt_get_insert_eq in Hget. injection Hget as ->. left; left.
  - rewrite bt_get_insert_ne in Hget by done. auto.
Qed.

Lemma bt_from_list_get_elem l k v : bt_get k (bt_from_list l) = Some v -> (k, v) ∈ l.
Proof. intros [?|?]%bt_fold_get_elem; done. Qed.

(** With distinct keys the collected map binds exactly the listed pairs. *)
Lemma bt_from_list_get_nodup l k v :
  NoDup l.*1 -> (k, v) ∈ l -> bt_get k (bt_from_list l) = Some v.
Proof.
  intros Hnd Hin.
  assert (Hk : k ∈ (bt_from_list l).*1).
  { apply elem_of_bt_from_list_keys, list_elem_of_fmap. by exists (k, v). }
  apply bt_get_is_some in Hk as [w Hw]. rewrite Hw. f_equal.
  apply bt_from_list_get_elem in Hw. clear -Hnd Hin Hw.
  induction l as [|[k' v'] l IH]; [by apply not_elem_of_nil in Hin|].
  simpl in Hnd. apply NoDup_cons in Hnd as [Hk Hnd].
  apply elem_of_cons in Hin as [[= -> ->]|Hin], Hw as [[= ?]|Hw]; subst; auto.
  - destruct Hk. apply list_elem_of_fmap. by exists (k', w).
  - destruct Hk. apply list_elem_of_fmap. by exists (k', v).
Qed.
End btree_map.

(** Keys compared componentwise, as tuples derive [Ord]. *)
Section prod_ordered.
Context {A B : Type} `{!EqDecision A, !Ordered A, !Ordered B}.

Definition prod_le (p q : A * B) : Prop := klt p.1 q.1 \/ (p.1 = q.1 /\ kle p.2 q.2).

#[export] Instance prod_le_dec : RelDecision prod_le.
Proof. intros p q. unfold prod_le, klt. apply _. Defined.

#[export] Instance prod_le_po : PartialOrder prod_le.
Proof.
  split; [split|].
  - intros [a b]. right. done.
  - intros [a b] [a' b'] [a'' b''] [H1|[E1 H1]] [H2|[E2 H2]]; unfold prod_le; simpl in *; subst.
    + left. by eapply klt_trans.
    + by left.
    + by left.
    + right. split; [done|]. by trans b'.
  - intros [a b] [a' b'] [H1|[E1 H1]] [H2|[E2 H2]]; simpl in *; subst.
    + destruct (klt_irrefl a). by eapply klt_trans.
    + by apply klt_irrefl in H1.
    + by apply klt_irrefl in H2.
    + f_equal. by apply (anti_symm kle).
Qed.

#[export] Instance prod_le_total : Total prod_le.
Proof.
  intros [a b] [a' b']. unfold prod_le. simpl. destruct (decide (a = a')) as [->|Hne].
  - destruct (total kle b b'); [left|right]; right; done.
  - destruct (total kle a a'); [left|right]; left; (split; [done|congruence]).
Qed.

#[export] Instance prod_ordered : Ordered (A * B) := {| kle := prod_le |}.
End prod_ordered.

#[export] Instance nat_ordered : Ordered nat := {| kle := Nat.le |}.
#[export] Instance N_ordered : Ordered N := {| kle := N.le |}.
#[export] Instance Z_ordered : Ordered Z := {| kle := Z.le |}.

(** [false < true]. *)
#[export] Instance bool_le_dec : RelDecision Bool.le.
Proof. intros [] []; [left|right|left|left]; done. Defined.
#[export] Instance bool_le_po : PartialOrder Bool.le.
Proof. split; [split|]; [by intros []|by intros [] [] []|by intros [] []]. Qed.
#[export] Instance bool_le_total : Total Bool.le.
Proof. intros [] []; [left|right|left|left]; done. Qed.
#[export] Instance bool_ordered : Ordered bool := {| kle := Bool.le |}.

(** [sort_by] with a comparison of keys. *)
Section sort_by_key.
Context {A K : Type} `{!EqDecision K, !Ordered K} (key : A -> K).

Definition key_le (x y : A) : Prop := kle (key x) (key y).

#[export] Instance key_le_dec : RelDecision key_le.
Proof. intros x y. unfold key_le. apply _. Defined.
#[export] Instance key_le_trans : Transitive key_le.
Proof. intros x y z. unfold key_le. by etrans. Qed.
#[export] Instance key_le_total : Total key_le.
Proof. intros x y. apply (total kle). Qed.

Definition sort_by_key (l : list A) : list A := sort_by key_le l.

Definition key_sorted (l : list A) : Prop := StronglySorted key_le l.

Lemma sort_by_key_perm l : sort_by_key l ≡ₚ l.
Proof. apply sort_by_perm. Qed.

Lemma elem_of_sort_by_key x l : x ∈ sort_by_key l <-> x ∈ l.
Proof. apply elem_of_sort_by. Qed.

Lemma sort_by_key_sorted l : key_sorted (sort_by_key l).
Proof. apply sort_by_sorted; apply _. Qed.

Lemma sort_by_key_id l : key_sorted l -> sort_by_key l = l.
Proof. apply sort_by_id. Qed.
End sort_by_key.

(** [Vec::dedup]: drops an element equal to the one before it. *)
Fixpoint dedup {A} `{!EqDecision A} (l : list A) : list A :=
  match l with
  | x :: (y :: _) as l' => if decide (x = y) then dedup l' else x :: dedup l'
  | _ => l
  end.

Section dedup.
Context {A : Type} `{!EqDecision A}.
Implicit Types l : list A.

Lemma elem_of_dedup x l : x ∈ dedup l <-> x ∈ l.
Proof.
  induction l as [|y l IH]; [done|]. destruct l as [|z l]; [done|].
  change (dedup (y :: z :: l)) with (if decide (y = z) then dedup (z :: l) else y :: dedup (z :: l)).
  case_decide; subst; rewrite ?elem_of_cons, IH; set_solver.
Qed.

Lemma dedup_head x l : exists k, dedup (x :: l) = x :: k.
Proof.
  revert x. induction l as [|y l IH]; intros x; [by exists []|].
  change (dedup (x :: y :: l)) with (if decide (x = y) then dedup (y :: l) else x :: dedup (y :: l)).
  case_decide as Heq; [|eauto]. subst. apply IH.
Qed.

(** Where the key of an element identifies it, sorting by key and removing
    repetitions leaves strictly ascending keys. *)
Lemma dedup_sorted {K} `{!EqDecision K, !Ordered K} (key : A -> K) l :
  StronglySorted (key_le key) l ->
  (forall x y, x ∈ l -> y ∈ l -> key x = key y -> x = y) ->
  StronglySorted klt (map key (dedup l)).
Proof.
  induction 1 as [|x l Hl IH Hx]; intros Hinj; [constructor|].
  destruct l as [|y l]; [by repeat constructor|].
  change (dedup (x :: y :: l)) with (if decide (x = y) then dedup (y :: l) else x :: dedup (y :: l)).
  assert (IH' : StronglySorted klt (map key (dedup (y :: l)))).
  { apply IH. intros a b Ha Hb. apply Hinj; by right. }
  case_decide as Hxy; [done|]. cbn [map]. constructor; [done|].
  apply Forall_forall. intros k Hk. apply list_elem_of_fmap in Hk as (z & -> & Hz).
  rewrite elem_of_dedup in Hz. rewrite Forall_forall in Hx. split; [exact (Hx z Hz)|].
  intros Heq. assert (x = z) as <- by (apply Hinj; [left|by right|done]).
  destruct Hxy. apply Hinj; [left|right; left|].
  apply (anti_symm kle); [exact (Hx y ltac:(left))|].
  apply StronglySorted_inv in Hl as [_ Hy]. rewrite Forall_forall in Hy.
  apply elem_of_cons in Hz as [->|Hz]; [reflexivity|]. exact (Hy _ Hz).
Qed.
End dedup.

#[export] Hint Resolve bs_from_list_wf bt_from_list_wf bs_insert_wf bt_insert_wf : btree.
