(* ===== verification/Text.v ===== *)
(** * Strings

    A Rust [String] is its sequence of UTF-8 bytes, one [ascii] per byte.  This
    file models the [str] methods the crates use and the SQL quoting of
    identifiers, with the lexical rule that undoes it. *)

From S2P Require Import Prelude.

(** The code of a byte, and a byte given by its code. *)
Abbreviation code := N_of_ascii.
Abbreviation byte_of := ascii_of_N.

(** Characters that cannot be written inside a string literal here. *)
Definition dquote : ascii := byte_of 34.
Definition newline : ascii := byte_of 10.
Definition nl : string := String newline EmptyString.
Definition dq : string := String dquote EmptyString.

Abbreviation bytes := String.list_ascii_of_string.

(** ** [str::trim().is_empty()]

    A string trims to nothing exactly when it is a sequence of characters with
    the Unicode [White_Space] property: U+0009..U+000D, U+0020, U+0085, U+00A0,
    U+1680, U+2000..U+200A, U+2028, U+2029, U+202F, U+205F and U+3000. *)

Definition is_ascii_ws (c : ascii) : bool :=
  bool_decide (9 ≤ code c ≤ 13)%N || bool_decide (code c = 32%N).

Definition is_ws2 (c1 c2 : ascii) : bool :=
  bool_decide (code c1 = 194%N) &&
  (bool_decide (code c2 = 133%N) || bool_decide (code c2 = 160%N)).

Definition is_ws3 (c1 c2 c3 : ascii) : bool :=
  (bool_decide (code c1 = 225%N) && bool_decide (code c2 = 154%N)
     && bool_decide (code c3 = 128%N))
  || (bool_decide (code c1 = 226%N) && bool_decide (code c2 = 128%N)
     && (bool_decide (128 ≤ code c3 ≤ 138)%N || bool_decide (code c3 = 168%N)
         || bool_decide (code c3 = 169%N) || bool_decide (code c3 = 175%N)))
  || (bool_decide (code c1 = 226%N) && bool_decide (code c2 = 129%N)
     && bool_decide (code c3 = 159%N))
  || (bool_decide (code c1 = 227%N) && bool_decide (code c2 = 128%N)
     && bool_decide (code c3 = 128%N)).

Fixpoint trim_is_empty (s : string) : bool :=
  match s with
  | EmptyString => true
  | String c1 s1 =>
      if is_ascii_ws c1 then trim_is_empty s1 else
      match s1 with
      | EmptyString => false
      | String c2 s2 =>
          if is_ws2 c1 c2 then trim_is_empty s2 else
          match s2 with
          | EmptyString => false
          | String c3 s3 => if is_ws3 c1 c2 c3 then trim_is_empty s3 else false
          end
      end
  end.

(** ** [str::replace] of one ASCII character, [str::starts_with], [[_]::join] *)

Fixpoint replace_char (c : ascii) (by_ : string) (s : string) : string :=
  match s with
  | EmptyString => EmptyString
  | String x s' =>
      if decide (x = c) then by_ +:+ replace_char c by_ s'
      else String x (replace_char c by_ s')
  end.

Definition starts_with (p s : string) : bool := String.prefix p s.

Definition is_ascii_digit (c : ascii) : bool := bool_decide (48 ≤ code c ≤ 57)%N.

Abbreviation join sep l := (String.concat sep l).

(** ** String algebra *)

Lemma sapp_nil_l (s : string) : EmptyString +:+ s = s.
Proof. done. Qed.

Lemma sapp_cons c (s t : string) : String c s +:+ t = String c (s +:+ t).
Proof. done. Qed.

Lemma sapp_nil_r (s : string) : s +:+ EmptyString = s.
Proof. induction s as [|c s IH]; [done|]. by rewrite sapp_cons, IH. Qed.

Lemma sapp_assoc (s t u : string) : (s +:+ t) +:+ u = s +:+ (t +:+ u).
Proof. induction s as [|c s IH]; [done|]. by rewrite !sapp_cons, IH. Qed.

Lemma slength_app (s t : string) :
  String.length (s +:+ t) = String.length s + String.length t.
Proof. induction s as [|c s IH]; [done|]. rewrite sapp_cons. simpl. by rewrite IH. Qed.

Lemma bytes_app (s t : string) : bytes (s +:+ t) = bytes s ++ bytes t.
Proof. induction s as [|c s IH]; [done|]. rewrite sapp_cons. simpl. by rewrite IH. Qed.

Lemma length_bytes (s : string) : length (bytes s) = String.length s.
Proof. induction s; simpl; congruence. Qed.

Lemma replace_char_app c b (s t : string) :
  replace_char c b (s +:+ t) = replace_char c b s +:+ replace_char c b t.
Proof.
  induction s as [|x s IH]; [done|]. rewrite sapp_cons. simpl.
  case_decide; rewrite IH; [by rewrite sapp_assoc|done].
Qed.

Lemma replace_char_id c b (s : string) : c ∉ bytes s -> replace_char c b s = s.
Proof.
  induction s as [|x s IH]; simpl; [done|]. intros [? ?]%not_elem_of_cons.
  rewrite decide_False by done. by rewrite IH.
Qed.

(** ** Quoted SQL identifiers *)

(** The identifier between double quotes, each double quote inside it doubled. *)
Definition quote_identifier (s : string) : string :=
  dq +:+ replace_char dquote (dq +:+ dq) s +:+ dq.

(** PostgreSQL's lexical rule for the rest of a quoted identifier, after the
    opening quote: a doubled quote stands for one, a single quote ends it. *)
Fixpoint scan_quoted (s : string) : option (string * string) :=
  match s with
  | EmptyString => None
  | String c s1 =>
      if decide (c = dquote) then
        match s1 with
        | String c2 s2 =>
            if decide (c2 = dquote)
            then '(i, r) ← scan_quoted s2; Some (String dquote i, r)
            else Some (EmptyString, s1)
        | EmptyString => Some (EmptyString, EmptyString)
        end
      else '(i, r) ← scan_quoted s1; Some (String c i, r)
  end.

Definition scan_identifier (s : string) : option (string * string) :=
  match s with
  | String c s1 => if decide (c = dquote) then scan_quoted s1 else None
  | EmptyString => None
  end.

Definition starts_with_quote (s : string) : Prop :=
  match s with String c _ => c = dquote | EmptyString => False end.

Lemma scan_quoted_replace (s r : string) :
  ~ starts_with_quote r ->
  scan_quoted (replace_char dquote (dq +:+ dq) s +:+ dq +:+ r) = Some (s, r).
Proof.
  intros Hr. induction s as [|c s IH]; simpl.
  - destruct r as [|c r]; simpl in *; [done|]. by case_decide.
  - case_decide as Hc; subst; simpl.
    + rewrite sapp_nil_l. by rewrite IH.
    + case_decide; [done|]. by rewrite IH.
Qed.

(** A quoted identifier followed by anything but a quote is read back as
    itself, so no identifier can end its own quoting. *)
Lemma scan_quote_identifier (s r : string) :
  ~ starts_with_quote r -> scan_identifier (quote_identifier s +:+ r) = Some (s, r).
Proof.
  intros Hr. unfold quote_identifier. rewrite !sapp_assoc. simpl.
  by apply scan_quoted_replace.
Qed.
