(* ===== verification/StrOps.v ===== *)
(** * Methods of [str]

    Comparison without case, splitting, trimming and the character classes the
    HTTP modules use, on strings as sequences of bytes.  A method that works on
    characters is modelled on bytes where only ASCII characters matter to it. *)

From S2P Require Import Prelude Text.

(** ** Characters *)

Definition in_range (lo hi : N) (c : ascii) : bool := bool_decide (lo ≤ code c ≤ hi)%N.

Definition is_ascii_uppercase (c : ascii) : bool := in_range 65 90 c.
Definition is_ascii_alphabetic (c : ascii) : bool := in_range 65 90 c || in_range 97 122 c.
Definition is_ascii_alphanumeric (c : ascii) : bool := is_ascii_alphabetic c || is_ascii_digit c.

(** Space, tab, line feed, form feed and carriage return. *)
Definition is_ascii_whitespace (c : ascii) : bool :=
  bool_decide (code c ∈ [32; 9; 10; 12; 13]%N).

Definition is_char (n : N) (c : ascii) : bool := bool_decide (code c = n).

(** ** Whole strings *)

Definition all_bytes (p : ascii -> bool) (s : string) : bool := forallb p (bytes s).
Definition any_byte (p : ascii -> bool) (s : string) : bool := existsb p (bytes s).

Definition is_ascii (s : string) : bool := all_bytes (fun c => bool_decide (code c < 128)%N) s.

(** [contains(char::is_control)]: U+0000..U+001F, U+007F, and U+0080..U+009F,
    which are two bytes. *)
Fixpoint contains_control (s : string) : bool :=
  match s with
  | EmptyString => false
  | String c rest =>
      bool_decide (code c < 32)%N || is_char 127 c
      || (is_char 194 c
          && match rest with String d _ => in_range 128 159 d | EmptyString => false end)
      || contains_control rest
  end.

Definition lower (c : ascii) : ascii := if is_ascii_uppercase c then byte_of (code c + 32) else c.

Fixpoint to_ascii_lowercase (s : string) : string :=
  match s with
  | EmptyString => EmptyString
  | String c rest => String (lower c) (to_ascii_lowercase rest)
  end.

Definition eq_ignore_ascii_case (s t : string) : bool :=
  bool_decide (to_ascii_lowercase s = to_ascii_lowercase t).

(** ** Parts *)

(** [split_once] at a character. *)
Fixpoint split_once (sep : ascii) (s : string) : option (string * string) :=
  match s with
  | EmptyString => None
  | String c rest =>
      if decide (c = sep) then Some (EmptyString, rest)
      else '(a, b) ← split_once sep rest; Some (String c a, b)
  end.

(** [split] at every character of a class; there is always a first part. *)
Fixpoint split_parts (p : ascii -> bool) (s : string) : string * list string :=
  match s with
  | EmptyString => (EmptyString, [])
  | String c rest =>
      let '(part, parts) := split_parts p rest in
      if p c then (EmptyString, part :: parts) else (String c part, parts)
  end.

Definition split (p : ascii -> bool) (s : string) : list string :=
  let '(part, parts) := split_parts p s in part :: parts.

Fixpoint trim_start (p : ascii -> bool) (s : string) : string :=
  match s with
  | EmptyString => EmptyString
  | String c rest => if p c then trim_start p rest else s
  end.

Fixpoint trim_end (p : ascii -> bool) (s : string) : string :=
  match s with
  | EmptyString => EmptyString
  | String c rest =>
      match trim_end p rest with
      | EmptyString => if p c then EmptyString else String c EmptyString
      | rest' => String c rest'
      end
  end.

(** [trim_matches]. *)
Definition trim_matches (p : ascii -> bool) (s : string) : string := trim_end p (trim_start p s).

Fixpoint strip_prefix (p s : string) : option string :=
  match p, s with
  | EmptyString, _ => Some s
  | String c p', String d s' => if decide (c = d) then strip_prefix p' s' else None
  | String _ _, EmptyString => None
  end.

(** [strip_suffix]: the shortest rest that the suffix completes. *)
Fixpoint strip_suffix (p s : string) : option string :=
  if decide (s = p) then Some EmptyString else
  match s with
  | EmptyString => None
  | String c s' => String c <$> strip_suffix p s'
  end.

Definition ends_with (p s : string) : bool := bool_decide (is_Some (strip_suffix p s)).

(** ** Facts *)

Lemma all_bytes_spec p s : all_bytes p s = true <-> Forall (fun c => p c = true) (bytes s).
Proof. apply forallb_Forall. Qed.

Lemma all_bytes_ext p q s : (forall c, p c = q c) -> all_bytes p s = all_bytes q s.
Proof. intros Hpq. unfold all_bytes. induction (bytes s) as [|c l IH]; simpl; by rewrite ?Hpq, ?IH. Qed.

Lemma any_byte_false p s : any_byte p s = false <-> Forall (fun c => p c = false) (bytes s).
Proof.
  unfold any_byte. induction (bytes s) as [|c l IH]; simpl; [by split|].
  rewrite orb_false_iff, IH, Forall_cons. done.
Qed.

Lemma split_once_some sep s a b :
  split_once sep s = Some (a, b) -> s = a +:+ String sep b /\ sep ∉ bytes a.
Proof.
  revert a. induction s as [|c s IH]; intros a; simpl; [done|].
  case_decide as Hc; [intros [= <- <-]; subst; split; [done|]; apply not_elem_of_nil|].
  intros ([a' b'] & Hs & [= <- <-])%bind_Some. apply IH in Hs as [-> Hn].
  split; [done|]. simpl. rewrite not_elem_of_cons. done.
Qed.

Lemma split_once_none sep s : split_once sep s = None <-> sep ∉ bytes s.
Proof.
  induction s as [|c s IH]; simpl; [split; [intros _; apply not_elem_of_nil|done]|].
  rewrite not_elem_of_cons. case_decide as Hc; [naive_solver|].
  rewrite bind_None, IH. split; [|tauto].
  intros [Hn|([a b] & _ & [=])]. split; [congruence|done].
Qed.

Lemma split_once_app sep a b :
  sep ∉ bytes a -> split_once sep (a +:+ String sep b) = Some (a, b).
Proof.
  induction a as [|c a IH]; simpl; [by rewrite decide_True|].
  intros [? ?]%not_elem_of_cons. rewrite decide_False by congruence. by rewrite IH.
Qed.

Lemma strip_prefix_some p s t : strip_prefix p s = Some t <-> s = p +:+ t.
Proof.
  revert s. induction p as [|c p IH]; intros s; simpl.
  - split; [by intros [= ->]|]. rewrite sapp_nil_l. by intros ->.
  - destruct s as [|d s]; [split; [done|]; rewrite sapp_cons; done|].
    rewrite sapp_cons. case_decide as Hc; [subst; rewrite IH; naive_solver|naive_solver].
Qed.

Lemma strip_suffix_some p s t : strip_suffix p s = Some t -> s = t +:+ p.
Proof.
  revert t. induction s as [|c s IH]; intros t; simpl.
  - case_decide as Hp; [|done]. intros [= <-]. by rewrite sapp_nil_l.
  - case_decide as Hp; [intros [= <-]; by rewrite sapp_nil_l|].
    intros (t' & Ht & ->)%fmap_Some. rewrite sapp_cons. f_equal. by apply IH.
Qed.

Lemma strip_suffix_app p t : strip_suffix p (t +:+ p) = Some t.
Proof.
  induction t as [|c t IH].
  - rewrite sapp_nil_l. destruct p; cbn [strip_suffix]; by rewrite decide_True.
  - rewrite sapp_cons. cbn [strip_suffix]. case_decide as Heq; [|by rewrite IH].
    apply (f_equal String.length) in Heq. simpl in Heq. rewrite slength_app in Heq. lia.
Qed.

(** ** Splitting and joining *)

Definition no_byte (p : ascii -> bool) (s : string) : Prop := Forall (fun c => p c = false) (bytes s).

Lemma split_parts_none p s : no_byte p s -> split_parts p s = (s, []).
Proof.
  unfold no_byte. induction s as [|c s IH]; simpl; [done|]. intros [Hc Hs]%Forall_cons.
  by rewrite IH, Hc.
Qed.

Lemma split_cons p s sep rest :
  no_byte p s -> p sep = true -> split p (s +:+ String sep rest) = s :: split p rest.
Proof.
  unfold split. intros Hs Hsep. enough (split_parts p (s +:+ String sep rest)
    = (s, let '(part, parts) := split_parts p rest in part :: parts)) as -> by done.
  unfold no_byte in Hs. induction s as [|c s IH]; simpl in *.
  - rewrite Hsep. by destruct (split_parts p rest).
  - apply Forall_cons in Hs as [Hc Hs]. by rewrite IH, Hc by done.
Qed.

Lemma split_join p sep l :
  p sep = true -> l <> [] -> Forall (no_byte p) l ->
  split p (join (String sep EmptyString) l) = l.
Proof.
  intros Hsep. induction l as [|s l IH]; [done|]. intros _ [Hs Hl]%Forall_cons.
  destruct l as [|t l]; simpl.
  - unfold split. by rewrite split_parts_none.
  - change (String.append ?a (String.append (String sep EmptyString) ?b)) with (a +:+ String sep b).
    rewrite split_cons by done. f_equal. by apply IH.
Qed.

Lemma join_split p sep s :
  (forall c, p c = true -> c = sep) ->
  s = join (String sep EmptyString) (split p s) /\ Forall (no_byte p) (split p s).
Proof.
  intros Hsep. unfold split. induction s as [|c s IH]; simpl.
  - split; [done|]. repeat constructor.
  - destruct (split_parts p s) as [part parts]. destruct IH as [Hs Hall]. destruct (p c) eqn:Hc.
    + split; [|constructor; [constructor|done]]. rewrite (Hsep c Hc) at 1. simpl in *. by rewrite Hs at 1.
    + apply Forall_cons in Hall as [Hp Hps]. split; [|by constructor; [constructor|]].
      rewrite Hs at 1. by destruct parts.
Qed.

(** ** Trimming *)

Definition starts_without (p : ascii -> bool) (s : string) : Prop :=
  match s with String c _ => p c = false | EmptyString => True end.

Definition all_in (p : ascii -> bool) (s : string) : Prop := Forall (fun c => p c = true) (bytes s).

Lemma trim_start_id p s : starts_without p s -> trim_start p s = s.
Proof. destruct s as [|c s]; simpl; [done|]. by intros ->. Qed.

Lemma trim_start_app p pre s : all_in p pre -> trim_start p (pre +:+ s) = trim_start p s.
Proof.
  unfold all_in. induction pre as [|c pre IH]; simpl; [by rewrite sapp_nil_l|].
  intros [Hc Hp]%Forall_cons. rewrite Hc. by apply IH.
Qed.

Lemma trim_start_split p s :
  exists pre, s = pre +:+ trim_start p s /\ all_in p pre /\ starts_without p (trim_start p s).
Proof.
  unfold all_in. induction s as [|c s (pre & Hs & Hpre & Hst)]; simpl.
  - exists EmptyString. by repeat constructor.
  - destruct (p c) eqn:Hc.
    + exists (String c pre). split_and!; [by rewrite sapp_cons, <- Hs|by constructor|done].
    + exists EmptyString. split_and!; [by rewrite sapp_nil_l|constructor|done].
Qed.

Lemma trim_end_all p s : all_in p s -> trim_end p s = EmptyString.
Proof.
  unfold all_in. induction s as [|c s IH]; simpl; [done|].
  intros [Hc Hs]%Forall_cons. by rewrite IH, Hc.
Qed.

Definition ends_without (p : ascii -> bool) (s : string) : Prop :=
  exists c, last (bytes s) = Some c /\ p c = false.

Lemma trim_end_app p s post : ends_without p s -> all_in p post -> trim_end p (s +:+ post) = s.
Proof.
  intros (d & Hd & Hpd) Hpost. induction s as [|c s IH]; simpl in *; [done|].
  rewrite last_cons in Hd. destruct s as [|e s].
  - simpl in *. injection Hd as ->. by rewrite sapp_nil_l, trim_end_all, Hpd.
  - rewrite IH; [done|]. destruct (last (bytes (String e s))) eqn:Hl; [done|]. by apply last_None in Hl.
Qed.

Lemma trim_end_split p s : exists post, s = trim_end p s +:+ post /\ all_in p post.
Proof.
  unfold all_in. induction s as [|c s (post & Hs & Hpost)]; simpl.
  - exists EmptyString. by repeat constructor.
  - destruct (trim_end p s) as [|d t] eqn:Ht.
    + destruct (p c) eqn:Hc.
      * exists (String c post). split; [by rewrite Hs at 1|by constructor].
      * exists post. split; [by rewrite Hs at 1|done].
    + exists post. split; [by rewrite Hs at 1|done].
Qed.

(** ** Prefixes *)

Lemma starts_with_spec p s : starts_with p s = true <-> exists rest, s = p +:+ rest.
Proof.
  unfold starts_with. revert s. induction p as [|c p IH]; intros [|d s]; simpl.
  - split; [by exists EmptyString|done].
  - split; [by eexists|done].
  - split; [done|]. by intros (rest & [=]).
  - destruct (ascii_dec c d) as [->|Hne].
    + rewrite IH. split; intros (rest & Hr); exists rest; [by rewrite Hr|by injection Hr].
    + split; [done|]. intros (rest & Hr). by injection Hr.
Qed.
