(* ===== verification/Json.v ===== *)
(** * JSON trees, the crates the code calls, and [hash.rs]

    [serde]'s derived serialisers are modelled as functions into a JSON tree
    whose objects keep the order of the struct's fields; the text of a tree
    (serde_json) and the digest (sha2) are parameters. *)

From S2P Require Import Prelude Ordered Text.

(** ** JSON trees *)

Inductive json : Type :=
| JNull
| JBool (b : bool)
| JInt (z : Z)
| JStr (s : string)
| JArr (l : list json)
| JObj (fields : list (string * json)).

#[export] Instance json_eq_dec : EqDecision json.
Proof.
  refine (fix go (x y : json) : Decision (x = y) :=
    let _ : EqDecision json := @go in
    match x, y with
    | JNull, JNull => left eq_refl
    | JBool a, JBool b => cast_if (decide (a = b))
    | JInt a, JInt b => cast_if (decide (a = b))
    | JStr a, JStr b => cast_if (decide (a = b))
    | JArr a, JArr b => cast_if (decide (a = b))
    | JObj a, JObj b => cast_if (decide (a = b))
    | _, _ => right _
    end); abstract congruence.
Defined.

(** [serde_json::to_value]: objects become [Map]s, which are ordered by key. *)
Fixpoint to_value (j : json) : json :=
  match j with
  | JArr l => JArr (map to_value l)
  | JObj kvs => JObj (bt_from_list (map (fun '(k, v) => (k, to_value v)) kvs))
  | _ => j
  end.

(** An object field that [skip_serializing_if = "Option::is_none"] omits. *)
Definition opt_field {A} (name : string) (enc : A -> json) (o : option A)
    : list (string * json) :=
  match o with Some a => [(name, enc a)] | None => [] end.

(** An [Option] serialised as [null] or its content. *)
Definition nullable_json {A} (enc : A -> json) (o : option A) : json :=
  match o with Some a => enc a | None => JNull end.

(** ** The crates the code calls *)

Class Crates := {
  (** [sha2::Sha256::digest]. *)
  sha256_digest : string -> list ascii;
  (** [serde_json::to_string] and [to_vec]: the text of a serialised value, or
      the message of a serialisation failure. *)
  json_to_string : json -> result string string;
}.

(** Documented behaviour of the two crates: a SHA-256 digest has 32 bytes, and
    serde_json's text determines the value it was written from. *)
Class CratesOk `{Crates} : Prop := {
  digest_length (s : string) : length (sha256_digest s) = 32;
  json_to_string_inj (x y : json) (s : string) :
    json_to_string x = Ok s -> json_to_string y = Ok s -> x = y;
}.

(** ** [hash.rs] *)

Definition HEX : list ascii := bytes "0123456789abcdef".

(** [HEX[usize::from(nibble)]]; [hex_at_in_range] shows the index is valid for
    every nibble, so the default is never used. *)
Definition hex_at (nibble : N) : ascii := default "0"%char (HEX !! N.to_nat nibble).

Definition hex_byte (b : ascii) : string :=
  String (hex_at (N.shiftr (code b) 4)) (String (hex_at (N.land (code b) 15)) EmptyString).

Definition encode_hex (digest : list ascii) : string :=
  foldr (fun b s => hex_byte b +:+ s) EmptyString digest.

Definition sha256 `{Crates} (value : string) : string :=
  "sha256:" +:+ encode_hex (sha256_digest value).

(** [is_sha256] of [compiler.rs]. *)
Definition is_hex_lower (c : ascii) : bool :=
  is_ascii_digit c || bool_decide (97 ≤ code c ≤ 102)%N.

Definition is_sha256 (value : string) : bool :=
  bool_decide (String.length value = 71)
  && starts_with "sha256:" value
  && forallb is_hex_lower (drop 7 (bytes value)).

Lemma code_bound (c : ascii) : (code c < 256)%N.
Proof. apply N_ascii_bounded. Qed.

Lemma hex_at_in_range n : (n < 16)%N -> is_Some (HEX !! N.to_nat n).
Proof. intros Hn. apply lookup_lt_is_Some. change (length HEX) with 16. lia. Qed.

Lemma hex_at_lower n : (n < 16)%N -> is_hex_lower (hex_at n) = true.
Proof.
  intros Hn. unfold hex_at. destruct (hex_at_in_range n Hn) as [c Hc]. rewrite Hc. simpl.
  assert (Hall : Forall (fun c => is_hex_lower c = true) HEX) by (repeat constructor).
  rewrite Forall_forall in Hall. apply Hall. by eapply list_elem_of_lookup_2.
Qed.

Lemma nibbles_bound (b : ascii) :
  (N.shiftr (code b) 4 < 16)%N /\ (N.land (code b) 15 < 16)%N.
Proof.
  pose proof (code_bound b). split.
  - rewrite N.shiftr_div_pow2. change (2 ^ 4)%N with 16%N.
    apply N.Div0.div_lt_upper_bound. lia.
  - change 15%N with (N.ones 4). rewrite N.land_ones. by apply N.mod_lt.
Qed.

Lemma encode_hex_spec (d : list ascii) :
  String.length (encode_hex d) = 2 * length d
  /\ forallb is_hex_lower (bytes (encode_hex d)) = true.
Proof.
  induction d as [|b d [IHl IHh]]; [done|]. simpl. rewrite slength_app, bytes_app.
  split; [simpl; lia|]. rewrite forallb_app, IHh. simpl.
  destruct (nibbles_bound b). by rewrite !hex_at_lower.
Qed.

(** The identifier of any content is a well-formed revision or query hash. *)
Lemma is_sha256_sha256 `{CratesOk} (value : string) : is_sha256 (sha256 value) = true.
Proof.
  unfold is_sha256, sha256. destruct (encode_hex_spec (sha256_digest value)) as [Hl Hh].
  rewrite digest_length in Hl. rewrite slength_app, Hl.
  replace (drop 7 _) with (bytes (encode_hex (sha256_digest value))) by done.
  rewrite Hh, andb_true_r. by destruct (encode_hex _).
Qed.

(** ** Induction on JSON trees *)

Section json_induction.
Context (P : json -> Prop) (Hnull : P JNull) (Hbool : forall b, P (JBool b))
  (Hint : forall z, P (JInt z)) (Hstr : forall s, P (JStr s))
  (Harr : forall l, Forall P l -> P (JArr l))
  (Hobj : forall kvs, Forall (fun kv => P (snd kv)) kvs -> P (JObj kvs)).

Fixpoint json_ind' (j : json) : P j :=
  match j with
  | JNull => Hnull
  | JBool b => Hbool b
  | JInt z => Hint z
  | JStr s => Hstr s
  | JArr l => Harr l ((fix all (l : list json) : Forall P l :=
      match l with
      | [] => Forall_nil_2 P
      | x :: l' => Forall_cons_2 P x l' (json_ind' x) (all l')
      end) l)
  | JObj kvs => Hobj kvs
      ((fix all (l : list (string * json)) : Forall (fun kv => P (snd kv)) l :=
      match l with
      | [] => Forall_nil_2 _
      | (k, v) :: l' => Forall_cons_2 _ (k, v) l' (json_ind' v) (all l')
      end) kvs)
  end.
End json_induction.
