(* ===== verification/Lsq.v ===== *)
(** * Logical semantic queries ([lsq.rs])

    The request language, its validation ([normalize_lsq]) and the exact
    grammar of typed literals. *)

From S2P Require Import Prelude Ordered Text Json.

Definition LSQ_SCHEMA_VERSION : string := "1".
Definition MAX_LIMIT : N := 10000.
Definition MAX_FILTER_DEPTH : nat := 16.
Definition MAX_FILTER_NODES : nat := 128.
Definition MAX_IN_VALUES : nat := 100.

(** ** Data *)

Module SortDirection.
Inductive SortDirection : Type := Asc | Desc.
Definition to_json (d : SortDirection) : json :=
  JStr match d with Asc => "asc" | Desc => "desc" end.
#[global] Instance eq_dec : EqDecision SortDirection.
Proof. solve_decision. Defined.
End SortDirection.
Abbreviation SortDirection := SortDirection.SortDirection.

Module TimeGrain.
Inductive TimeGrain : Type := Day | Week | Month | Quarter | Year.
Definition to_json (g : TimeGrain) : json :=
  JStr match g with
       | Day => "day" | Week => "week" | Month => "month"
       | Quarter => "quarter" | Year => "year"
       end.
#[global] Instance eq_dec : EqDecision TimeGrain.
Proof. solve_decision. Defined.
End TimeGrain.
Abbreviation TimeGrain := TimeGrain.TimeGrain.

Module Literal.
Inductive Literal : Type :=
| Text (value : string)
| Boolean (value : bool)
| Integer (value : Z)
| Numeric (value : string)
| Date (value : string)
| Timestamp (value : string).
#[global] Instance eq_dec : EqDecision Literal.
Proof. solve_decision. Defined.

Definition type_name (l : Literal) : string :=
  match l with
  | Text _ => "text"
  | Boolean _ => "boolean"
  | Integer _ => "integer"
  | Numeric _ => "numeric"
  | Date _ => "date"
  | Timestamp _ => "timestamp"
  end.

(** Adjacently tagged: [tag = "type", content = "value"]. *)
Definition to_json (l : Literal) : json :=
  JObj [("type", JStr (type_name l));
        ("value", match l with
                  | Boolean b => JBool b
                  | Integer z => JInt z
                  | Text s | Numeric s | Date s | Timestamp s => JStr s
                  end)].
End Literal.
Abbreviation Literal := Literal.Literal.

Module Filter.
Inductive Filter : Type :=
| And (args : list Filter)
| Or (args : list Filter)
| Not (arg : Filter)
| Eq (field : string) (value : Literal)
| NotEq (field : string) (value : Literal)
| Gt (field : string) (value : Literal)
| Gte (field : string) (value : Literal)
| Lt (field : string) (value : Literal)
| Lte (field : string) (value : Literal)
| In (field : string) (values : list Literal)
| IsNull (field : string)
| IsNotNull (field : string).

(** Internally tagged: [tag = "op"]. *)
Fixpoint to_json (f : Filter) : json :=
  let compare op field value :=
    JObj [("op", JStr op); ("field", JStr field); ("value", Literal.to_json value)] in
  match f with
  | And args => JObj [("op", JStr "and"); ("args", JArr (map to_json args))]
  | Or args => JObj [("op", JStr "or"); ("args", JArr (map to_json args))]
  | Not arg => JObj [("op", JStr "not"); ("arg", to_json arg)]
  | Eq field value => compare "eq" field value
  | NotEq field value => compare "not_eq" field value
  | Gt field value => compare "gt" field value
  | Gte field value => compare "gte" field value
  | Lt field value => compare "lt" field value
  | Lte field value => compare "lte" field value
  | In field values =>
      JObj [("op", JStr "in"); ("field", JStr field);
            ("values", JArr (map Literal.to_json values))]
  | IsNull field => JObj [("op", JStr "is_null"); ("field", JStr field)]
  | IsNotNull field => JObj [("op", JStr "is_not_null"); ("field", JStr field)]
  end.

Section induction.
Context (P : Filter -> Prop)
  (Hand : forall args, Forall P args -> P (And args))
  (Hor : forall args, Forall P args -> P (Or args))
  (Hnot : forall arg, P arg -> P (Not arg))
  (Heq : forall f v, P (Eq f v)) (Hne : forall f v, P (NotEq f v))
  (Hgt : forall f v, P (Gt f v)) (Hgte : forall f v, P (Gte f v))
  (Hlt : forall f v, P (Lt f v)) (Hlte : forall f v, P (Lte f v))
  (Hin : forall f vs, P (In f vs))
  (Hnull : forall f, P (IsNull f)) (Hnotnull : forall f, P (IsNotNull f)).

Fixpoint ind' (f : Filter) : P f :=
  let all := fix all (l : list Filter) : Forall P l :=
    match l with
    | [] => Forall_nil_2 P
    | x :: l' => Forall_cons_2 P x l' (ind' x) (all l')
    end in
  match f with
  | And args => Hand args (all args)
  | Or args => Hor args (all args)
  | Not arg => Hnot arg (ind' arg)
  | Eq f v => Heq f v | NotEq f v => Hne f v
  | Gt f v => Hgt f v | Gte f v => Hgte f v
  | Lt f v => Hlt f v | Lte f v => Hlte f v
  | In f vs => Hin f vs
  | IsNull f => Hnull f | IsNotNull f => Hnotnull f
  end.
End induction.
End Filter.
Abbreviation Filter := Filter.Filter.

Module Dimension.
Record Dimension : Type := mk { field : string; time_grain : option TimeGrain }.
Definition to_json (d : Dimension) : json :=
  JObj [("field", JStr (field d));
        ("time_grain", nullable_json TimeGrain.to_json (time_grain d))].
End Dimension.
Abbreviation Dimension := Dimension.Dimension.

Module MetricReference.
Record MetricReference : Type := mk { metric : string }.
Definition to_json (r : MetricReference) : json := JObj [("metric", JStr (metric r))].
End MetricReference.
Abbreviation MetricReference := MetricReference.MetricReference.

Module OrderBy.
Record OrderBy : Type := mk { output_reference : string; direction : SortDirection }.
(** [output_reference] is renamed to [ref]. *)
Definition to_json (o : OrderBy) : json :=
  JObj [("ref", JStr (output_reference o));
        ("direction", SortDirection.to_json (direction o))].
End OrderBy.
Abbreviation OrderBy := OrderBy.OrderBy.

Module Lsq.
Record LogicalSemanticQuery : Type := mk {
  schema_version : string;
  model : string;
  dimensions : list Dimension;
  metrics : list MetricReference;
  filters : option Filter;
  order_by : list OrderBy;
  limit : option N;
}.
Definition to_json (q : LogicalSemanticQuery) : json :=
  JObj [("schema_version", JStr (schema_version q));
        ("model", JStr (model q));
        ("dimensions", JArr (map Dimension.to_json (dimensions q)));
        ("metrics", JArr (map MetricReference.to_json (metrics q)));
        ("filters", nullable_json Filter.to_json (filters q));
        ("order_by", JArr (map OrderBy.to_json (order_by q)));
        ("limit", nullable_json (fun n => JInt (Z.of_N n)) (limit q))].
End Lsq.
Abbreviation LogicalSemanticQuery := Lsq.LogicalSemanticQuery.

Module NormalizedLsq.
Record NormalizedLsq : Type := mk {
  query : LogicalSemanticQuery;
  canonical_json : string;
  hash : string;
}.
End NormalizedLsq.
Abbreviation NormalizedLsq := NormalizedLsq.NormalizedLsq.

(** ** Errors *)

Module LsqError.
Inductive LsqError : Type :=
| InvalidJson (message : string)
| UnsupportedSchemaVersion (version : string)
| EmptyModel
| EmptyProjection
| EmptyReference
| DuplicateReference (reference : string)
| DuplicateOrderReference (reference : string)
| InvalidLiteralValue (type_name : string)
| InvalidLimit
| FilterTooDeep
| FilterTooLarge
| EmptyLogicalFilter
| InvalidInFilterSize.

Definition code (e : LsqError) : string :=
  match e with
  | InvalidJson _ => "LSQ_INVALID_JSON"
  | UnsupportedSchemaVersion _ => "LSQ_UNSUPPORTED_SCHEMA_VERSION"
  | EmptyModel => "LSQ_EMPTY_MODEL"
  | EmptyProjection => "LSQ_EMPTY_PROJECTION"
  | EmptyReference => "LSQ_EMPTY_REFERENCE"
  | DuplicateReference _ => "LSQ_DUPLICATE_REFERENCE"
  | DuplicateOrderReference _ => "LSQ_DUPLICATE_ORDER_REFERENCE"
  | InvalidLiteralValue _ => "LSQ_INVALID_LITERAL_VALUE"
  | InvalidLimit => "LSQ_INVALID_LIMIT"
  | FilterTooDeep => "LSQ_FILTER_TOO_DEEP"
  | FilterTooLarge => "LSQ_FILTER_TOO_LARGE"
  | EmptyLogicalFilter => "LSQ_EMPTY_LOGICAL_FILTER"
  | InvalidInFilterSize => "LSQ_INVALID_IN_FILTER_SIZE"
  end.
End LsqError.
Abbreviation LsqError := LsqError.LsqError.

(** ** Literal syntax *)

(** [&bytes[i..j]]. *)
Definition slice (i j : nat) (l : list ascii) : list ascii := take (j - i) (drop i l).

(** A byte literal [b'c']. *)
Definition is_byte (c : ascii) (o : option ascii) : bool := bool_decide (o = Some c).

Definition U32_MAX : N := 4294967295.

(** [u32::checked_mul] and [u32::checked_add]. *)
Definition checked_u32 (n : N) : option N := if decide (n ≤ U32_MAX)%N then Some n else None.
Definition checked_mul (a b : N) : option N := checked_u32 (a * b).
Definition checked_add (a b : N) : option N := checked_u32 (a + b).

Definition parse_digits (l : list ascii) : option N :=
  if bool_decide (l = []) || negb (forallb is_ascii_digit l) then None
  else foldl (fun value byte =>
                v ← value; w ← checked_mul v 10; checked_add w (code byte - 48)%N)
             (Some 0%N) l.

Definition divisible_by (value divisor : N) : bool :=
  bool_decide (value / divisor * divisor = value)%N.

Definition is_leap_year (year : N) : bool :=
  divisible_by year 4 && (negb (divisible_by year 100) || divisible_by year 400).

Definition days_of_month (year month : N) : N :=
  match month with
  | 2 => if is_leap_year year then 29 else 28
  | 4 | 6 | 9 | 11 => 30
  | _ => 31
  end%N.

Definition valid_date_bytes (l : list ascii) : bool :=
  if bool_decide (length l <> 10) || negb (is_byte "-" (l !! 4)) || negb (is_byte "-" (l !! 7))
  then false
  else
    match parse_digits (slice 0 4 l) with
    | None => false
    | Some year =>
        match parse_digits (slice 5 7 l) with
        | None => false
        | Some month =>
            match parse_digits (slice 8 10 l) with
            | None => false
            | Some day =>
                if negb (bool_decide (1 ≤ month ≤ 12)%N) then false
                else bool_decide (1 ≤ day ≤ days_of_month year month)%N
            end
        end
    end.

Definition valid_date (value : string) : bool := valid_date_bytes (bytes value).

(** Number of ASCII digits at the front: the [while] loop over fraction digits. *)
Fixpoint digit_run (l : list ascii) : nat :=
  match l with
  | c :: l' => if is_ascii_digit c then S (digit_run l') else 0
  | [] => 0
  end.

(** The part of [valid_timestamp] after the optional fraction. *)
Definition valid_offset (l : list ascii) (position : nat) : bool :=
  if is_byte "Z" (l !! position) then bool_decide (position + 1 = length l)
  else if negb (is_byte "+" (l !! position) || is_byte "-" (l !! position))
          || bool_decide (length l <> position + 6)
          || negb (is_byte ":" (l !! (position + 3)))
  then false
  else
    match parse_digits (slice (position + 1) (position + 3) l),
          parse_digits (slice (position + 4) (position + 6) l) with
    | Some offset_hour, Some offset_minute =>
        bool_decide (offset_hour ≤ 23)%N && bool_decide (offset_minute ≤ 59)%N
    | _, _ => false
    end.

Definition valid_timestamp (value : string) : bool :=
  let l := bytes value in
  if bool_decide (length l < 20) || negb (is_byte "T" (l !! 10))
     || negb (valid_date_bytes (take 10 l))
  then false
  else if negb (is_byte ":" (l !! 13)) || negb (is_byte ":" (l !! 16)) then false
  else
    match parse_digits (slice 11 13 l), parse_digits (slice 14 16 l),
          parse_digits (slice 17 19 l) with
    | Some hour, Some minute, Some second =>
        if bool_decide (23 < hour)%N || bool_decide (59 < minute)%N
           || bool_decide (59 < second)%N
        then false
        else if is_byte "." (l !! 19) then
          let position := 20 + digit_run (drop 20 l) in
          if bool_decide (position = 20) then false else valid_offset l position
        else valid_offset l 19
    | _, _, _ => false
    end.

(** [iter().position(|byte| *byte == b'.').unwrap_or(len)]. *)
Fixpoint dot_position (l : list ascii) : nat :=
  match l with
  | c :: l' => if decide (c = "."%char) then 0 else S (dot_position l')
  | [] => 0
  end.

Definition valid_numeric (value : string) : bool :=
  let l := bytes value in
  match l with
  | [] => false
  | c :: _ =>
      let start := if decide (c = "-"%char) then 1 else 0 in
      if bool_decide (start = length l) then false else
      let unsigned := drop start l in
      let integer_end := dot_position unsigned in
      let integer := take integer_end unsigned in
      if bool_decide (integer = []) || negb (forallb is_ascii_digit integer)
         || (bool_decide (1 < length integer) && is_byte "0" (integer !! 0))
      then false
      else if bool_decide (integer_end = length unsigned) then true
      else
        let fraction := drop (integer_end + 1) unsigned in
        negb (bool_decide (fraction = [])) && forallb is_ascii_digit fraction
  end.

Definition literal_is_well_formed (l : Literal) : bool :=
  match l with
  | Literal.Text _ | Literal.Boolean _ | Literal.Integer _ => true
  | Literal.Numeric value => valid_numeric value
  | Literal.Date value => valid_date value
  | Literal.Timestamp value => valid_timestamp value
  end.

Definition validate_literal_value (l : Literal) : result LsqError unit :=
  if literal_is_well_formed l then Ok tt
  else Err (LsqError.InvalidLiteralValue (Literal.type_name l)).

(** ** Query validation *)

Definition validate_reference (reference : string) : result LsqError unit :=
  fail_if (trim_is_empty reference) LsqError.EmptyReference.

(** [node_count] is the counter the source threads by mutable reference. *)
Fixpoint validate_filter (filter : Filter) (depth node_count : nat)
    : result LsqError nat :=
  fail_if (bool_decide (MAX_FILTER_DEPTH < depth)) LsqError.FilterTooDeep;;
  let node_count := node_count + 1 in
  fail_if (bool_decide (MAX_FILTER_NODES < node_count)) LsqError.FilterTooLarge;;
  match filter with
  | Filter.And args | Filter.Or args =>
      fail_if (bool_decide (args = [])) LsqError.EmptyLogicalFilter;;
      try_fold (fun count arg => validate_filter arg (depth + 1) count) node_count args
  | Filter.Not arg => validate_filter arg (depth + 1) node_count
  | Filter.In field values =>
      validate_reference field;;
      fail_if (bool_decide (values = []) || bool_decide (MAX_IN_VALUES < length values))
        LsqError.InvalidInFilterSize;;
      try_each validate_literal_value values;;
      Ok node_count
  | Filter.Eq field value | Filter.NotEq field value
  | Filter.Gt field value | Filter.Gte field value
  | Filter.Lt field value | Filter.Lte field value =>
      validate_reference field;;
      validate_literal_value value;;
      Ok node_count
  | Filter.IsNull field | Filter.IsNotNull field =>
      validate_reference field;;
      Ok node_count
  end.

(** One loop over references with a [HashSet] of those already seen. *)
Definition check_unique (duplicate : string -> LsqError) (references : list string)
    : result LsqError (list string) :=
  try_fold (fun seen reference =>
              validate_reference reference;;
              fail_if (bool_decide (reference ∈ seen)) (duplicate reference);;
              Ok (reference :: seen)) [] references.

(** The projected names: dimensions, then metrics. *)
Definition projection (q : LogicalSemanticQuery) : list string :=
  map Dimension.field (Lsq.dimensions q) ++ map MetricReference.metric (Lsq.metrics q).

Definition validate_query (q : LogicalSemanticQuery) : result LsqError unit :=
  fail_if (bool_decide (Lsq.schema_version q <> LSQ_SCHEMA_VERSION))
    (LsqError.UnsupportedSchemaVersion (Lsq.schema_version q));;
  fail_if (trim_is_empty (Lsq.model q)) LsqError.EmptyModel;;
  fail_if (bool_decide (Lsq.dimensions q = []) && bool_decide (Lsq.metrics q = []))
    LsqError.EmptyProjection;;
  fail_if (match Lsq.limit q with
           | Some limit => bool_decide (limit = 0%N) || bool_decide (MAX_LIMIT < limit)%N
           | None => false
           end) LsqError.InvalidLimit;;
  check_unique LsqError.DuplicateReference (projection q);;
  check_unique LsqError.DuplicateOrderReference
    (map OrderBy.output_reference (Lsq.order_by q));;
  match Lsq.filters q with
  | Some filter => validate_filter filter 1 0;; Ok tt
  | None => Ok tt
  end.

(** [normalize_lsq]; [from_slice] is serde_json's typed deserialiser. *)
Definition normalize_lsq `{Crates}
    (from_slice : string -> result string LogicalSemanticQuery) (input : string)
    : result LsqError NormalizedLsq :=
  query ← map_err LsqError.InvalidJson (from_slice input);
  validate_query query;;
  canonical_json ← map_err LsqError.InvalidJson (json_to_string (Lsq.to_json query));
  Ok {| NormalizedLsq.query := query;
        NormalizedLsq.canonical_json := canonical_json;
        NormalizedLsq.hash := sha256 canonical_json |}.
