(* ===== verification/LsqSpec.v ===== *)
(** * Properties of query validation

    The exact grammar accepted by the literal checkers, the exact set of
    queries [validate_query] accepts, and that the canonical JSON identifies
    the query. *)

From S2P Require Import Prelude Ordered Text Json Lsq.

(** [lia] with division and remainder. *)
#[local] Ltac Zify.zify_post_hook ::= Z.to_euclidean_division_equations.

(** ** Decimal numbers *)

Definition digit_value (c : ascii) : N := (code c - 48)%N.

(** The number a digit string denotes, without any width. *)
Definition decimal (l : list ascii) : N :=
  foldl (fun v c => 10 * v + digit_value c)%N 0%N l.

(** The [w] decimal digits of [n], zero padded. *)
Fixpoint digits (w : nat) (n : N) : list ascii :=
  match w with
  | 0 => []
  | S w' => digits w' (n / 10) ++ [byte_of (48 + n mod 10)]
  end.

Lemma is_ascii_digit_spec c : is_ascii_digit c = true <-> (48 ≤ code c ≤ 57)%N.
Proof. unfold is_ascii_digit. by rewrite bool_decide_eq_true. Qed.

Lemma decimal_snoc l c : decimal (l ++ [c]) = (10 * decimal l + digit_value c)%N.
Proof. unfold decimal. by rewrite foldl_app. Qed.

Lemma checked_fold_snoc l c :
  foldl (fun value byte => v ← value; w ← checked_mul v 10; checked_add w (code byte - 48)%N)
    (Some 0%N) (l ++ [c]) =
  (v ← foldl (fun value byte => v ← value; w ← checked_mul v 10;
                checked_add w (code byte - 48)%N) (Some 0%N) l;
   w ← checked_mul v 10; checked_add w (code c - 48)%N).
Proof. by rewrite foldl_app. Qed.

(** Checked arithmetic fails exactly when the number does not fit in a [u32]. *)
Lemma checked_fold_decimal l :
  foldl (fun value byte => v ← value; w ← checked_mul v 10; checked_add w (code byte - 48)%N)
    (Some 0%N) l = checked_u32 (decimal l).
Proof.
  induction l as [|c l IH] using rev_ind; [done|].
  rewrite checked_fold_snoc, IH, decimal_snoc. fold (digit_value c).
  unfold checked_mul, checked_add, checked_u32.
  repeat (case_decide; simpl); try done; try lia. f_equal. lia.
Qed.

Lemma parse_digits_spec l n :
  parse_digits l = Some n <->
  l <> [] /\ Forall (fun c => is_ascii_digit c = true) l /\ n = decimal l /\ (n ≤ U32_MAX)%N.
Proof.
  unfold parse_digits. rewrite checked_fold_decimal. split.
  - case_bool_decide as Hl; [done|]. simpl.
    destruct (forallb is_ascii_digit l) eqn:Hd; [|done]. simpl.
    unfold checked_u32. case_decide; [|done]. intros [= <-].
    split_and!; try done. by apply forallb_Forall.
  - intros (Hl & Hd & -> & Hn). rewrite bool_decide_eq_false_2 by done.
    rewrite <- forallb_Forall in Hd. rewrite Hd. simpl.
    unfold checked_u32. by rewrite decide_True.
Qed.

Lemma length_digits w n : length (digits w n) = w.
Proof. revert n. induction w as [|w IH]; intros n; simpl; [done|]. rewrite length_app, IH. simpl. lia. Qed.

Lemma code_byte_of n : (n < 256)%N -> code (byte_of n) = n.
Proof. apply N_ascii_embedding. Qed.

Lemma digit_byte n : (48 ≤ code (byte_of (48 + n mod 10)) ≤ 57)%N.
Proof. pose proof (N.mod_lt n 10 ltac:(done)). rewrite code_byte_of by lia. lia. Qed.

Lemma digits_are_digits w n : Forall (fun c => is_ascii_digit c = true) (digits w n).
Proof.
  revert n. induction w as [|w IH]; intros n; simpl; [constructor|].
  apply Forall_app. split; [done|]. constructor; [|constructor].
  apply is_ascii_digit_spec, digit_byte.
Qed.

Lemma decimal_digits w n : (n < 10 ^ N.of_nat w)%N -> decimal (digits w n) = n.
Proof.
  revert n. induction w as [|w IH]; intros n Hn; simpl digits.
  - simpl in Hn. unfold decimal. simpl. lia.
  - rewrite Nat2N.inj_succ, N.pow_succ_r' in Hn. rewrite decimal_snoc, IH.
    + unfold digit_value. pose proof (N.mod_lt n 10 ltac:(done)). rewrite code_byte_of by lia.
      rewrite (N.div_mod n 10) at 3 by lia. lia.
    + apply N.Div0.div_lt_upper_bound. lia.
Qed.

Lemma digits_decimal l :
  Forall (fun c => is_ascii_digit c = true) l ->
  digits (length l) (decimal l) = l /\ (decimal l < 10 ^ N.of_nat (length l))%N.
Proof.
  induction l as [|c l IH] using rev_ind; intros H.
  - split; [done|]. unfold decimal. simpl. lia.
  - apply Forall_app in H as [Hl Hc]. apply Forall_cons in Hc as [Hc _].
    apply is_ascii_digit_spec in Hc. destruct (IH Hl) as [Hd Hlt].
    rewrite decimal_snoc, length_app. simpl length. rewrite Nat.add_1_r. simpl digits.
    assert (Hv : (digit_value c < 10)%N) by (unfold digit_value; lia).
    replace ((10 * decimal l + digit_value c) / 10)%N with (decimal l)
      by (apply N.div_unique with (digit_value c); lia).
    replace ((10 * decimal l + digit_value c) mod 10)%N with (digit_value c)
      by (apply N.mod_unique with (decimal l); lia).
    rewrite Hd. split.
    + f_equal. f_equal. unfold digit_value. replace (48 + (code c - 48))%N with (code c) by lia.
      apply ascii_N_embedding.
    + rewrite Nat2N.inj_succ, N.pow_succ_r'. lia.
Qed.

(** Reading a field of at most nine digits inverts zero-padded printing. *)
Lemma parse_digits_fixed w l n :
  length l = w -> 0 < w <= 9 ->
  parse_digits l = Some n <-> l = digits w n /\ (n < 10 ^ N.of_nat w)%N.
Proof.
  intros Hlen Hw. rewrite parse_digits_spec. split.
  - intros (_ & Hd & -> & _). destruct (digits_decimal l Hd) as [H1 H2].
    subst w. by split.
  - intros [-> Hn]. split_and!.
    + intros H%(f_equal length). rewrite length_digits in H. simpl in H. lia.
    + apply digits_are_digits.
    + by rewrite decimal_digits.
    + assert (10 ^ N.of_nat w ≤ 10 ^ 9)%N by (apply N.pow_le_mono_r; lia).
      unfold U32_MAX. assert (10 ^ 9 = 1000000000)%N by done. lia.
Qed.

Opaque digits.

Lemma parse_two_digits n : (n < 100)%N -> parse_digits (digits 2 n) = Some n.
Proof. intros Hn. apply (parse_digits_fixed 2); [done|lia|done]. Qed.

(** ** Dates *)

Definition leap (year : N) : Prop :=
  (year mod 4 = 0 /\ (year mod 100 <> 0 \/ year mod 400 = 0))%N.

#[export] Instance leap_dec year : Decision (leap year).
Proof. unfold leap. apply _. Defined.

(** Days of a month of the Gregorian calendar. *)
Definition gregorian_days (year month : N) : N :=
  (if decide (month = 2) then (if decide (leap year) then 29 else 28)
   else if decide (month = 4 \/ month = 6 \/ month = 9 \/ month = 11) then 30 else 31)%N.

Lemma divisible_by_spec a b : (b <> 0)%N -> divisible_by a b = true <-> (a mod b = 0)%N.
Proof.
  intros Hb. unfold divisible_by. rewrite bool_decide_eq_true.
  pose proof (N.div_mod a b Hb). nia.
Qed.

Lemma is_leap_year_spec y : is_leap_year y = bool_decide (leap y).
Proof.
  apply eq_true_iff_eq. unfold is_leap_year, leap.
  rewrite bool_decide_eq_true, andb_true_iff, orb_true_iff, negb_true_iff.
  rewrite <- not_true_iff_false, !divisible_by_spec by done. done.
Qed.

Lemma days_of_month_spec y m : days_of_month y m = gregorian_days y m.
Proof.
  unfold days_of_month, gregorian_days. rewrite is_leap_year_spec.
  case_bool_decide; repeat case_decide; subst; try done;
    repeat (destruct_or?; subst; try done || (destruct m as [|p]; [done|]));
    repeat (destruct p as [p|p|]; try done; try lia).
Qed.

(** The texts [valid_date] accepts, printed from a calendar date. *)
Definition date_text (year month day : N) : list ascii :=
  digits 4 year ++ ["-"%char] ++ digits 2 month ++ ["-"%char] ++ digits 2 day.

Definition calendar_date (year month day : N) : Prop :=
  (year < 10 ^ 4 /\ 1 ≤ month ≤ 12 /\ 1 ≤ day ≤ gregorian_days year month)%N.

Lemma gregorian_days_bound y m : (28 ≤ gregorian_days y m ≤ 31)%N.
Proof. unfold gregorian_days. repeat case_decide; lia. Qed.

Lemma is_byte_spec c o : is_byte c o = true <-> o = Some c.
Proof. unfold is_byte. apply bool_decide_eq_true. Qed.

Lemma valid_date_bytes_spec l :
  valid_date_bytes l = true <->
  exists year month day, l = date_text year month day /\ calendar_date year month day.
Proof.
  unfold valid_date_bytes, calendar_date. split.
  - case_bool_decide as Hlen; [done|].
    do 10 (destruct l as [|? l]; [done|]). destruct l; [|done]. clear Hlen.
    unfold slice; simpl. destruct (is_byte "-" (Some _)) eqn:H4; [|done].
    destruct (is_byte "-" (Some a6)) eqn:H7; [|done]. simpl.
    apply is_byte_spec in H4 as [= ->], H7 as [= ->].
    destruct (parse_digits [a; _; _; _]) as [y|] eqn:Hy; [|done].
    destruct (parse_digits [a4; _]) as [m|] eqn:Hm; [|done].
    destruct (parse_digits [a7; _]) as [d|] eqn:Hd; [|done].
    case_bool_decide as Hmb; [|done]. simpl. intros Hdb%bool_decide_eq_true.
    rewrite days_of_month_spec in Hdb.
    apply (parse_digits_fixed 4) in Hy as [Hy ?]; [|by done|by split; repeat constructor].
    apply (parse_digits_fixed 2) in Hm as [Hm ?]; [|by done|by split; repeat constructor].
    apply (parse_digits_fixed 2) in Hd as [Hd ?]; [|by done|by split; repeat constructor].
    exists y, m, d. split; [|done]. unfold date_text. by rewrite <- Hy, <- Hm, <- Hd.
  - intros (y & m & d & -> & Hy & Hm & Hd). unfold date_text.
    pose proof (gregorian_days_bound y m).
    assert (Py : parse_digits (digits 4 y) = Some y)
      by (apply (parse_digits_fixed 4); [apply length_digits|lia|done]).
    pose proof (parse_two_digits m ltac:(lia)) as Pm.
    pose proof (parse_two_digits d ltac:(lia)) as Pd.
    pose proof (length_digits 4 y) as Ly. pose proof (length_digits 2 m) as Lm.
    pose proof (length_digits 2 d) as Ld.
    destruct (digits 4 y) as [|? [|? [|? [|? []]]]]; try discriminate Ly.
    destruct (digits 2 m) as [|? [|? []]]; try discriminate Lm.
    destruct (digits 2 d) as [|? [|? []]]; try discriminate Ld.
    unfold slice; simpl. rewrite Py, Pm, Pd, days_of_month_spec. simpl.
    rewrite bool_decide_eq_true_2 by done. simpl. by apply bool_decide_eq_true.
Qed.

(** ** Numeric literals *)

Abbreviation all_digits := (Forall (fun c => is_ascii_digit c = true)).

(** An integer part without a superfluous leading zero, optionally followed by
    a point and at least one digit. *)
Definition unsigned_numeral (u : list ascii) : Prop :=
  exists integer fraction,
    u = integer ++ fraction
    /\ integer <> [] /\ all_digits integer
    /\ (length integer <= 1 \/ head integer <> Some "0"%char)
    /\ (fraction = [] \/ exists ds, fraction = "."%char :: ds /\ ds <> [] /\ all_digits ds).

Definition numeral (l : list ascii) : Prop :=
  unsigned_numeral l \/ exists u, l = "-"%char :: u /\ unsigned_numeral u.

Lemma dot_position_split l :
  (dot_position l = length l /\ "."%char ∉ l) \/
  exists a c, l = a ++ "."%char :: c /\ dot_position l = length a /\ "."%char ∉ a.
Proof.
  induction l as [|x l IH]; simpl; [left; set_solver|]. case_decide as Hx.
  - right. exists [], l. subst. set_solver.
  - destruct IH as [[IH Hn]|(a & c & -> & IH & Hn)]; rewrite IH.
    + left. set_solver.
    + right. exists (x :: a), c. split_and!; [done|done|]. apply not_elem_of_cons. naive_solver.
Qed.

Lemma digits_no_dot l : all_digits l -> "."%char ∉ l.
Proof. rewrite Forall_forall. intros H Hin. specialize (H _ Hin). vm_compute in H. done. Qed.

Lemma dot_position_app a b :
  "."%char ∉ a -> dot_position (a ++ b) = length a + dot_position b.
Proof.
  induction a as [|x a IH]; simpl; [done|]. intros [Hx Ha]%not_elem_of_cons.
  rewrite decide_False by done. by rewrite IH.
Qed.

Definition valid_unsigned (unsigned : list ascii) : bool :=
  let integer_end := dot_position unsigned in
  let integer := take integer_end unsigned in
  if bool_decide (integer = []) || negb (forallb is_ascii_digit integer)
     || (bool_decide (1 < length integer) && is_byte "0" (integer !! 0))
  then false
  else if bool_decide (integer_end = length unsigned) then true
  else
    let fraction := drop (integer_end + 1) unsigned in
    negb (bool_decide (fraction = [])) && forallb is_ascii_digit fraction.

Definition integer_part_ok (integer : list ascii) : Prop :=
  integer <> [] /\ all_digits integer
  /\ (length integer <= 1 \/ head integer <> Some "0"%char).

Lemma integer_check_spec integer :
  (bool_decide (integer = []) || negb (forallb is_ascii_digit integer)
     || (bool_decide (1 < length integer) && is_byte "0" (integer !! 0))) = false
  <-> integer_part_ok integer.
Proof.
  unfold integer_part_ok. rewrite !orb_false_iff, andb_false_iff, negb_false_iff, forallb_Forall.
  rewrite !bool_decide_eq_false. replace (integer !! 0) with (head integer) by (by destruct integer).
  unfold is_byte. rewrite bool_decide_eq_false. rewrite Nat.nlt_ge. naive_solver.
Qed.

Lemma valid_unsigned_spec u : valid_unsigned u = true <-> unsigned_numeral u.
Proof.
  unfold valid_unsigned. split.
  - destruct (_ || _) eqn:Hc; [done|]. apply integer_check_spec in Hc as (H1 & H2 & H3).
    destruct (dot_position_split u) as [[Hp Hn]|(a & c & -> & Hp & Hn)]; rewrite Hp in *.
    + intros _. exists u, []. rewrite firstn_all in *. rewrite app_nil_r. by eauto 10.
    + rewrite take_app_length in *. rewrite bool_decide_eq_false_2
        by (rewrite length_app; simpl; lia).
      replace (drop (length a + 1) (a ++ "."%char :: c)) with c
        by (rewrite drop_app_ge, (Nat.add_comm _ 1), Nat.add_sub by lia; done).
      intros [Hf Hd]%andb_true_iff. rewrite negb_true_iff, bool_decide_eq_false in Hf.
      apply forallb_Forall in Hd. exists a, ("."%char :: c). eauto 10.
  - intros (i & f & -> & H1 & H2 & H3 & Hf).
    pose proof (digits_no_dot i H2) as Hn.
    rewrite dot_position_app by done.
    destruct Hf as [->|(ds & -> & Hne & Hds)]; simpl dot_position; rewrite Nat.add_0_r.
    + rewrite app_nil_r, firstn_all. rewrite (proj2 (integer_check_spec i)) by done.
      by rewrite bool_decide_eq_true_2.
    + rewrite take_app_length. rewrite (proj2 (integer_check_spec i)) by done.
      rewrite bool_decide_eq_false_2 by (rewrite length_app; simpl; lia).
      replace (drop (length i + 1) (i ++ "."%char :: ds)) with ds
        by (rewrite drop_app_ge, (Nat.add_comm _ 1), Nat.add_sub by lia; done).
      rewrite bool_decide_eq_false_2 by done. by apply forallb_Forall.
Qed.

Lemma unsigned_numeral_no_dash u : ~ unsigned_numeral ("-"%char :: u).
Proof.
  intros (i & f & Hu & Hne & Hd & _). destruct i as [|c i]; [done|].
  injection Hu as <- _. apply Forall_cons in Hd as [Hd _]. vm_compute in Hd. done.
Qed.

Lemma unsigned_numeral_not_nil : ~ unsigned_numeral [].
Proof. intros (i & f & Hu & Hne & _). by destruct i. Qed.

Lemma valid_numeric_bytes_spec value :
  valid_numeric value = true <-> numeral (bytes value).
Proof.
  unfold valid_numeric, numeral. destruct (bytes value) as [|c l].
  - split; [done|]. intros [H|(u & ? & _)]; [by apply unsigned_numeral_not_nil in H|done].
  - case_decide as Hc; subst; cbv zeta.
    + rewrite drop_cons_succ || change (drop 1 ("-"%char :: l)) with l. fold (valid_unsigned l).
      case_bool_decide as Hl.
      * split; [done|]. destruct l; [|done].
        intros [H|(u & [= <-] & H)]; [by apply unsigned_numeral_no_dash in H|].
        by apply unsigned_numeral_not_nil in H.
      * rewrite valid_unsigned_spec. split; [eauto|].
        intros [H|(u & [= <-] & H)]; [by apply unsigned_numeral_no_dash in H|done].
    + change (drop 0 (c :: l)) with (c :: l). fold (valid_unsigned (c :: l)).
      rewrite bool_decide_eq_false_2 by done. rewrite valid_unsigned_spec.
      split; [eauto|]. intros [H|(u & [= -> ->] & H)]; done.
Qed.

(** ** Timestamps *)

(** [Z] or a signed [hh:mm] offset. *)
Definition zone_text (z : list ascii) : Prop :=
  z = ["Z"%char] \/
  exists sign hour minute,
    (sign = "+"%char \/ sign = "-"%char) /\ (hour ≤ 23)%N /\ (minute ≤ 59)%N
    /\ z = [sign] ++ digits 2 hour ++ [":"%char] ++ digits 2 minute.

(** Nothing, or a point and at least one digit. *)
Definition fraction_text (f : list ascii) : Prop :=
  f = [] \/ exists ds, f = "."%char :: ds /\ ds <> [] /\ all_digits ds.

Definition time_text (hour minute second : N) : list ascii :=
  digits 2 hour ++ [":"%char] ++ digits 2 minute ++ [":"%char] ++ digits 2 second.

(** An RFC 3339 date-time: [date T time fraction? zone]. *)
Definition timestamp_text (l : list ascii) : Prop :=
  exists year month day hour minute second fraction zone,
    calendar_date year month day
    /\ (hour ≤ 23 /\ minute ≤ 59 /\ second ≤ 59)%N
    /\ fraction_text fraction /\ zone_text zone
    /\ l = date_text year month day ++ ["T"%char] ++ time_text hour minute second
           ++ fraction ++ zone.

Lemma valid_offset_app pre z : valid_offset (pre ++ z) (length pre) = valid_offset z 0.
Proof.
  unfold valid_offset, slice. rewrite length_app.
  rewrite !lookup_app_r by lia. rewrite !Nat.sub_diag.
  replace (length pre + 3 - length pre) with 3 by lia.
  rewrite !drop_app_ge by lia.
  replace (length pre + 1 - length pre) with 1 by lia.
  replace (length pre + 4 - length pre) with 4 by lia.
  replace (length pre + 3 - (length pre + 1)) with 2 by lia.
  replace (length pre + 6 - (length pre + 4)) with 2 by lia. simpl.
  destruct (is_byte "Z" (z !! 0)).
  - apply bool_decide_ext. lia.
  - assert (bool_decide (length pre + length z <> length pre + 6)
            = bool_decide (length z <> 6)) as ->; [|done].
    apply bool_decide_ext. lia.
Qed.

Lemma parse_two l n :
  length l = 2 -> parse_digits l = Some n -> l = digits 2 n.
Proof. intros Hl H. apply (parse_digits_fixed 2) in H as [? _]; [done|done|lia]. Qed.

Lemma valid_zone_spec z : valid_offset z 0 = true <-> zone_text z.
Proof.
  unfold valid_offset, zone_text, slice. simpl. split.
  - destruct (is_byte "Z" (z !! 0)) eqn:HZ.
    + apply is_byte_spec in HZ. intros H%bool_decide_eq_true. left.
      destruct z as [|c [|]]; try discriminate H. by injection HZ as ->.
    + destruct (is_byte "+" (z !! 0) || is_byte "-" (z !! 0)) eqn:Hs; [|done]. simpl.
      case_bool_decide as Hlen; [done|]. simpl.
      destruct (is_byte ":" (z !! 3)) eqn:Hc; [|done]. simpl.
      do 6 (destruct z as [|? z]; [done|]). destruct z; [|done]. simpl in *.
      destruct (parse_digits [a0; a1]) as [h|] eqn:Hh; [|done].
      destruct (parse_digits [a3; a4]) as [m|] eqn:Hm; [|done].
      intros [H1%bool_decide_eq_true H2%bool_decide_eq_true]%andb_true_iff.
      apply is_byte_spec in Hc as [= ->]. right. exists a, h, m.
      rewrite orb_true_iff, !is_byte_spec in Hs. split_and!; [naive_solver|done|done|].
      apply parse_two in Hh as <-, Hm as <-; done.
  - intros [->|(s & h & m & Hs & Hh & Hm & ->)]; [done|].
    pose proof (parse_two_digits h ltac:(lia)) as Ph.
    pose proof (parse_two_digits m ltac:(lia)) as Pm.
    pose proof (length_digits 2 h) as Lh. pose proof (length_digits 2 m) as Lm.
    destruct (digits 2 h) as [|? [|? []]]; try discriminate Lh.
    destruct (digits 2 m) as [|? [|? []]]; try discriminate Lm. simpl.
    rewrite Ph, Pm, !bool_decide_eq_true_2 by done. by destruct Hs as [-> | ->].
Qed.

Lemma zone_starts z : zone_text z -> exists c z', z = c :: z' /\ is_ascii_digit c = false
  /\ c <> "."%char.
Proof. intros [->|(s & h & m & [-> | ->] & _ & _ & ->)]; by eexists _, _. Qed.

Lemma digit_run_app ds z :
  all_digits ds -> (forall c z', z = c :: z' -> is_ascii_digit c = false) ->
  digit_run (ds ++ z) = length ds.
Proof.
  intros Hd Hz. induction Hd as [|c ds Hc _ IH]; simpl.
  - destruct z as [|c z]; simpl; [done|]. by rewrite (Hz c z eq_refl).
  - by rewrite Hc, IH.
Qed.

Lemma digit_run_take l : all_digits (take (digit_run l) l) /\ digit_run l <= length l.
Proof.
  induction l as [|c l [IH1 IH2]]; simpl; [split; [constructor|done]|].
  destruct (is_ascii_digit c) eqn:Hc; simpl; [|split; [constructor|lia]].
  split; [by constructor|lia].
Qed.

(** The fraction and zone, from byte 19 on. *)
Lemma timestamp_tail_spec pre r :
  length pre = 19 ->
  (if is_byte "." ((pre ++ r) !! 19) then
     if bool_decide (20 + digit_run (drop 20 (pre ++ r)) = 20) then false
     else valid_offset (pre ++ r) (20 + digit_run (drop 20 (pre ++ r)))
   else valid_offset (pre ++ r) 19) = true
  <-> exists f z, r = f ++ z /\ fraction_text f /\ zone_text z.
Proof.
  intros Hpre. replace ((pre ++ r) !! 19) with (r !! 0)
    by (rewrite lookup_app_r, Hpre by lia; done).
  replace (drop 20 (pre ++ r)) with (drop 1 r) by (rewrite drop_app_ge, Hpre by lia; done).
  destruct (is_byte "." (r !! 0)) eqn:Hdot.
  - apply is_byte_spec in Hdot. destruct r as [|c r]; [done|]. injection Hdot as ->.
    change (drop 1 ("."%char :: r)) with r. split.
    + case_bool_decide as Hrun; [done|].
      destruct (digit_run_take r) as [Hd Hle]. set (n := digit_run r) in *.
      replace (pre ++ "."%char :: r) with ((pre ++ "."%char :: take n r) ++ drop n r)
        by (rewrite <- app_assoc; simpl; by rewrite take_drop).
      replace (20 + n) with (length (pre ++ "."%char :: take n r))
        by (rewrite length_app; simpl; rewrite length_take; lia).
      rewrite valid_offset_app, valid_zone_spec. intros Hz.
      exists ("."%char :: take n r), (drop n r). split_and!; [|right|done].
      * simpl. by rewrite take_drop.
      * exists (take n r). split_and!; [done| |done].
        intros H%(f_equal length). rewrite length_take in H. simpl in H. lia.
    + intros (f & z & Hr & Hf & Hz). destruct (zone_starts z Hz) as (c & z' & -> & Hc & Hnd).
      destruct Hf as [->|(ds & -> & Hne & Hds)]; [by injection Hr|].
      injection Hr as ->. rewrite digit_run_app by naive_solver.
      rewrite bool_decide_eq_false_2 by (destruct ds; simpl; [done|lia]).
      replace (pre ++ "."%char :: ds ++ c :: z') with ((pre ++ "."%char :: ds) ++ c :: z')
        by (by rewrite <- app_assoc).
      replace (20 + length ds) with (length (pre ++ "."%char :: ds))
        by (rewrite length_app; simpl; lia).
      by rewrite valid_offset_app, valid_zone_spec.
  - rewrite <- Hpre, valid_offset_app, valid_zone_spec. split.
    + intros Hz. exists [], r. split_and!; [done|by left|done].
    + intros (f & z & -> & Hf & Hz). destruct Hf as [->|(ds & -> & _)]; done.
Qed.

Lemma valid_timestamp_sound value :
  valid_timestamp value = true -> timestamp_text (bytes value).
Proof.
  unfold valid_timestamp, timestamp_text. generalize (bytes value) as l. intros l. cbv zeta.
  case_bool_decide as Hlen; [done|].
  do 19 (destruct l as [|? l]; [simpl in Hlen; lia|]). clear Hlen.
  set (pre := [a; a0; a1; a2; a3; a4; a5; a6; a7; a8; a9; a10; a11; a12; a13; a14; a15; a16; a17]).
  change (a :: _) with (pre ++ l).
  change ((pre ++ l) !! 10) with (Some a9). change ((pre ++ l) !! 13) with (Some a12).
  change ((pre ++ l) !! 16) with (Some a15).
  change (take 10 (pre ++ l)) with [a; a0; a1; a2; a3; a4; a5; a6; a7; a8].
  change (slice 11 13 (pre ++ l)) with [a10; a11].
  change (slice 14 16 (pre ++ l)) with [a13; a14].
  change (slice 17 19 (pre ++ l)) with [a16; a17].
  destruct (is_byte "T" _) eqn:HT; [|done]. apply is_byte_spec in HT as [= ->].
  destruct (valid_date_bytes _) eqn:HD; [|done]. simpl.
  apply valid_date_bytes_spec in HD as (y & mo & d & HD & Hcal).
  destruct (is_byte ":" (Some a12)) eqn:H1; [|done]. apply is_byte_spec in H1 as [= ->].
  destruct (is_byte ":" (Some a15)) eqn:H2; [|done]. apply is_byte_spec in H2 as [= ->]. simpl.
  destruct (parse_digits [a10; a11]) as [h|] eqn:Ph; [|done].
  destruct (parse_digits [a13; a14]) as [m|] eqn:Pm; [|done].
  destruct (parse_digits [a16; a17]) as [s|] eqn:Ps; [|done].
  repeat (case_bool_decide; [done|]). simpl.
  intros Ht. apply (timestamp_tail_spec pre l eq_refl) in Ht as (f & z & -> & Hf & Hz).
  apply parse_two in Ph, Pm, Ps; try done.
  exists y, mo, d, h, m, s, f, z. split_and!; try done; try lia.
  unfold time_text. rewrite <- HD, <- Ph, <- Pm, <- Ps. done.
Qed.

Lemma valid_timestamp_complete value :
  timestamp_text (bytes value) -> valid_timestamp value = true.
Proof.
  unfold valid_timestamp, timestamp_text. generalize (bytes value) as l. intros l. cbv zeta.
  intros (y & mo & d & h & m & s & f & z & Hcal & (Hh & Hm & Hs) & Hf & Hz & ->).
  assert (HD : valid_date_bytes (date_text y mo d) = true)
    by (apply valid_date_bytes_spec; eauto 10).
  assert (Ld : length (date_text y mo d) = 10)
    by (unfold date_text; repeat rewrite length_app; by rewrite !length_digits).
  pose proof (parse_two_digits h ltac:(lia)) as Ph.
  pose proof (parse_two_digits m ltac:(lia)) as Pm.
  pose proof (parse_two_digits s ltac:(lia)) as Ps.
  unfold time_text.
  pose proof (length_digits 2 h) as Lh. pose proof (length_digits 2 m) as Lm.
  pose proof (length_digits 2 s) as Ls.
  destruct (digits 2 h) as [|h0 [|h1 []]]; try discriminate Lh.
  destruct (digits 2 m) as [|m0 [|m1 []]]; try discriminate Lm.
  destruct (digits 2 s) as [|s0 [|s1 []]]; try discriminate Ls.
  destruct (date_text y mo d) as
    [|d0 [|d1 [|d2 [|d3 [|d4 [|d5 [|d6 [|d7 [|d8 [|d9 []]]]]]]]]]]; try discriminate Ld.
  set (pre := [d0; d1; d2; d3; d4; d5; d6; d7; d8; d9; "T"%char;
               h0; h1; ":"%char; m0; m1; ":"%char; s0; s1]).
  change ([d0; d1; d2; d3; d4; d5; d6; d7; d8; d9] ++ _) with (pre ++ f ++ z).
  change ((pre ++ f ++ z) !! 10) with (Some "T"%char).
  change ((pre ++ f ++ z) !! 13) with (Some ":"%char).
  change ((pre ++ f ++ z) !! 16) with (Some ":"%char).
  change (take 10 (pre ++ f ++ z)) with [d0; d1; d2; d3; d4; d5; d6; d7; d8; d9].
  change (slice 11 13 (pre ++ f ++ z)) with [h0; h1].
  change (slice 14 16 (pre ++ f ++ z)) with [m0; m1].
  change (slice 17 19 (pre ++ f ++ z)) with [s0; s1].
  rewrite HD, Ph, Pm, Ps.
  destruct (zone_starts z Hz) as (c & z' & Hz' & _).
  rewrite !bool_decide_eq_false_2
    by (try lia; rewrite !length_app, Hz'; simpl; lia).
  apply (timestamp_tail_spec pre (f ++ z) eq_refl). eauto.
Qed.

Lemma valid_timestamp_bytes_spec value :
  valid_timestamp value = true <-> timestamp_text (bytes value).
Proof. split; [apply valid_timestamp_sound|apply valid_timestamp_complete]. Qed.

(** ** Filters *)

Definition list_max_with {A} (f : A -> nat) (l : list A) : nat :=
  foldr (fun x n => f x `max` n) 0 l.

(** Height and size of a filter tree. *)
Fixpoint height (f : Filter) : nat :=
  match f with
  | Filter.And args | Filter.Or args => 1 + list_max_with height args
  | Filter.Not arg => 1 + height arg
  | _ => 1
  end.

Fixpoint nodes (f : Filter) : nat :=
  match f with
  | Filter.And args | Filter.Or args => 1 + sum_list_with nodes args
  | Filter.Not arg => 1 + nodes arg
  | _ => 1
  end.

(** Local conditions on every node: no empty conjunction or disjunction, named
    fields, well-formed literals, bounded [IN] lists. *)
Fixpoint filter_ok (f : Filter) : Prop :=
  match f with
  | Filter.And args | Filter.Or args => args <> [] /\ foldr (fun x P => filter_ok x /\ P) True args
  | Filter.Not arg => filter_ok arg
  | Filter.In field values =>
      trim_is_empty field = false /\ values <> [] /\ length values <= MAX_IN_VALUES
      /\ Forall (fun v => literal_is_well_formed v = true) values
  | Filter.Eq field value | Filter.NotEq field value | Filter.Gt field value
  | Filter.Gte field value | Filter.Lt field value | Filter.Lte field value =>
      trim_is_empty field = false /\ literal_is_well_formed value = true
  | Filter.IsNull field | Filter.IsNotNull field => trim_is_empty field = false
  end.

Lemma filter_ok_all args : foldr (fun x P => filter_ok x /\ P) True args <-> Forall filter_ok args.
Proof. induction args; simpl; rewrite ?Forall_cons, ?Forall_nil; naive_solver. Qed.

Lemma height_pos f : 1 <= height f.
Proof. destruct f; simpl; lia. Qed.

Lemma nodes_pos f : 1 <= nodes f.
Proof. destruct f; simpl; lia. Qed.

Lemma validate_literal_value_ok v u :
  validate_literal_value v = Ok u <-> literal_is_well_formed v = true.
Proof. unfold validate_literal_value. destruct u. by destruct (literal_is_well_formed v). Qed.

(** What acceptance of one filter at a depth and a running count means. *)
Definition accepts (f : Filter) (depth count count' : nat) : Prop :=
  count' = count + nodes f /\ filter_ok f
  /\ depth + height f - 1 <= MAX_FILTER_DEPTH /\ count + nodes f <= MAX_FILTER_NODES.

Lemma validate_args_spec depth args :
  Forall (fun f => forall depth count count',
            validate_filter f depth count = Ok count' <-> accepts f depth count count') args ->
  forall count count', count <= MAX_FILTER_NODES ->
    try_fold (fun count arg => validate_filter arg (depth + 1) count) count args = Ok count' <->
    count' = count + sum_list_with nodes args /\ Forall filter_ok args
    /\ (args <> [] -> depth + list_max_with height args <= MAX_FILTER_DEPTH)
    /\ count + sum_list_with nodes args <= MAX_FILTER_NODES.
Proof.
  induction 1 as [|f args Hf _ IH]; intros count count' Hle; simpl.
  - rewrite Forall_nil, Nat.add_0_r. naive_solver.
  - rewrite bind_ok, Forall_cons. setoid_rewrite Hf. unfold accepts.
    pose proof (height_pos f). pose proof (nodes_pos f). split.
    + intros (c & (-> & Hok & Hd & Hn) & Hrest). apply IH in Hrest as (-> & Hall & Hmax & Hsum);
        [|done]. split_and!; try done; try lia. intros _.
      destruct args as [|g args]; simpl in *; [lia|]. specialize (Hmax ltac:(done)). lia.
    + intros (-> & [Hok Hall] & Hmax & Hsum). specialize (Hmax ltac:(done)).
      eexists. split; [split_and!; [done|done|lia|lia]|]. apply IH; [lia|].
      split_and!; try done; try lia.
Qed.

Lemma literal_checks_then vs (k : result LsqError nat) x :
  (try_each validate_literal_value vs;; k) = Ok x <->
  Forall (fun v => literal_is_well_formed v = true) vs /\ k = Ok x.
Proof.
  rewrite check_then. setoid_rewrite try_each_ok. setoid_rewrite validate_literal_value_ok.
  split; [naive_solver|]. intros [? ?]. split; [by exists tt|done].
Qed.

Lemma literal_check_then v (k : result LsqError nat) x :
  (validate_literal_value v;; k) = Ok x <-> literal_is_well_formed v = true /\ k = Ok x.
Proof.
  rewrite check_then. setoid_rewrite validate_literal_value_ok.
  split; [naive_solver|]. intros [? ?]. split; [by exists tt|done].
Qed.

(** Leaves: every condition of the node becomes a guard. *)
Ltac validate_leaf :=
  cbn [validate_filter height nodes filter_ok]; unfold validate_reference;
  rewrite ?guard_then, ?literal_checks_then, ?literal_check_then, ?orb_false_iff,
    ?bool_decide_eq_false, ?Nat.nlt_ge;
  split; [intros; destruct_and?; simplify_eq; split_and!; try done; lia
         |intros; destruct_and?; subst; split_and!; try done; try lia; try (f_equal; lia)].

Lemma validate_filter_spec f :
  forall depth count count',
    validate_filter f depth count = Ok count' <-> accepts f depth count count'.
Proof.
  induction f as [args IH|args IH|f IH| | | | | | | | |] using Filter.ind';
    intros depth count count'; unfold accepts; try validate_leaf.
  1,2: cbn [validate_filter height nodes filter_ok];
    rewrite !guard_then, !bool_decide_eq_false, !Nat.nlt_ge, filter_ok_all;
    split; [intros (Hd & Hn & Hne & H); apply (validate_args_spec depth) in H; [|done|lia];
            destruct H as (-> & Hall & Hmax & Hsum); specialize (Hmax Hne);
            split_and!; try done; lia
           |intros (-> & [Hne Hall] & Hmax & Hsum); split_and!; try done; try lia;
            apply (validate_args_spec depth); [done|lia|];
            split_and!; try done; lia].
  cbn [validate_filter height nodes filter_ok].
  rewrite !guard_then, !bool_decide_eq_false, !Nat.nlt_ge, IH. unfold accepts.
  pose proof (height_pos f). pose proof (nodes_pos f).
  split; intros; destruct_and?; subst; split_and!; try done; lia.
Qed.

(** ** Queries *)

(** The queries the gateway accepts. *)
Record query_ok (q : LogicalSemanticQuery) : Prop := {
  ok_version : Lsq.schema_version q = LSQ_SCHEMA_VERSION;
  ok_model : trim_is_empty (Lsq.model q) = false;
  ok_projection : projection q <> [];
  ok_limit : forall n, Lsq.limit q = Some n -> (1 ≤ n ≤ MAX_LIMIT)%N;
  ok_references : Forall (fun r => trim_is_empty r = false) (projection q);
  ok_distinct : NoDup (projection q);
  ok_orders : Forall (fun o => trim_is_empty (OrderBy.output_reference o) = false) (Lsq.order_by q);
  ok_orders_distinct : NoDup (map OrderBy.output_reference (Lsq.order_by q));
  ok_filter : forall f, Lsq.filters q = Some f ->
    filter_ok f /\ height f <= MAX_FILTER_DEPTH /\ nodes f <= MAX_FILTER_NODES;
}.

Lemma check_unique_fold dup refs seen seen' :
  try_fold (fun seen reference =>
              validate_reference reference;;
              fail_if (bool_decide (reference ∈ seen)) (dup reference);;
              Ok (reference :: seen)) seen refs = Ok seen' <->
  seen' = reverse refs ++ seen /\ Forall (fun r => trim_is_empty r = false) refs
  /\ NoDup refs /\ (forall r, r ∈ refs -> r ∉ seen).
Proof.
  revert seen. induction refs as [|r refs IH]; intros seen; simpl.
  - rewrite Forall_nil, NoDup_nil. set_solver.
  - rewrite bind_ok. unfold validate_reference at 1. setoid_rewrite guard_then.
    setoid_rewrite guard_then. setoid_rewrite bool_decide_eq_false.
    rewrite Forall_cons, NoDup_cons, reverse_cons, <- app_assoc. simpl. split.
    + intros (s & (Ht & Hr & Hs0) & Hrest). injection Hs0 as <-.
      apply IH in Hrest as (-> & Hf & Hnd & Hs). split_and!; try done.
      * intros Hin. apply (Hs r Hin). left.
      * intros r' [->|Hr']%elem_of_cons; [done|]. specialize (Hs _ Hr'). set_solver.
    + intros (-> & [Ht Hf] & [Hr Hnd] & Hs). exists (r :: seen).
      split; [split_and!; [done| |done]; apply Hs; left|]. apply IH.
      split_and!; try done. intros r' Hr' [->|?]%elem_of_cons; [done|].
      eapply Hs; [right; done|done].
Qed.

Lemma check_unique_ok dup refs seen :
  check_unique dup refs = Ok seen <->
  seen = reverse refs /\ Forall (fun r => trim_is_empty r = false) refs /\ NoDup refs.
Proof.
  unfold check_unique. rewrite check_unique_fold, app_nil_r. set_solver.
Qed.

Lemma limit_check_spec o :
  match o with
  | Some limit => bool_decide (limit = 0%N) || bool_decide (MAX_LIMIT < limit)%N
  | None => false
  end = false <-> forall n, o = Some n -> (1 ≤ n ≤ MAX_LIMIT)%N.
Proof.
  destruct o as [n|]; [|naive_solver]. rewrite orb_false_iff, !bool_decide_eq_false.
  split; [intros [? ?] ? [= <-]; lia|]. intros H. specialize (H n eq_refl). lia.
Qed.

Lemma empty_projection_spec q :
  bool_decide (Lsq.dimensions q = []) && bool_decide (Lsq.metrics q = []) = false <->
  projection q <> [].
Proof.
  unfold projection. destruct (Lsq.dimensions q), (Lsq.metrics q); simpl;
    repeat case_bool_decide; naive_solver.
Qed.

Lemma filter_check_spec o :
  match o with Some f => validate_filter f 1 0;; Ok tt | None => Ok tt end = Ok tt <->
  forall f, o = Some f -> filter_ok f /\ height f <= MAX_FILTER_DEPTH /\ nodes f <= MAX_FILTER_NODES.
Proof.
  destruct o as [f|]; [|naive_solver]. rewrite check_then.
  setoid_rewrite validate_filter_spec. unfold accepts. pose proof (height_pos f). split.
  - intros [(c & H1 & H2 & H3 & H4) _] ? [= <-]. split_and!; [done|lia|lia].
  - intros Hf. specialize (Hf f eq_refl) as (? & ? & ?). split; [|done].
    exists (nodes f). split_and!; try done; lia.
Qed.

Lemma validate_query_spec (q : LogicalSemanticQuery) :
  validate_query q = Ok tt <-> query_ok q.
Proof.
  unfold validate_query. rewrite !guard_then, !check_then, filter_check_spec.
  setoid_rewrite check_unique_ok.
  rewrite bool_decide_eq_false, limit_check_spec, empty_projection_spec. split.
  - intros (Hv & Hm & Hp & Hl & (? & _ & Hr & Hd) & (? & _ & Ho & Hod) & Hf).
    constructor; try done; [by apply dec_stable|].
    apply Forall_map in Ho. exact Ho.
  - intros []. split_and!; try done; [naive_solver|by eauto|].
    eexists. split_and!; [done| |done]. by apply Forall_map.
Qed.

(** A decoded query passes validation exactly when it has the supported
    schema version, a named model, a non-empty projection of distinct named
    references, a limit between 1 and 10000, distinct named order references,
    and a filter of at most 16 levels and 128 nodes whose nodes are all
    well-formed.  No other query is accepted and none of these is rejected. *)
Theorem validate_query_accepts_exactly (q : LogicalSemanticQuery) :
  validate_query q = Ok tt <-> query_ok q.
Proof. apply validate_query_spec. Qed.

(** ** Canonical JSON identifies the query *)

Lemma map_inj {A B} (f : A -> B) l k :
  Forall (fun x => forall y, f x = f y -> x = y) l -> map f l = map f k -> l = k.
Proof.
  intros H. revert k. induction H as [|x l Hx _ IH]; intros [|y k] Heq; try done.
  injection Heq as Hxy Hlk. f_equal; auto.
Qed.

Lemma map_inj' {A B} (f : A -> B) l k :
  (forall x y, f x = f y -> x = y) -> map f l = map f k -> l = k.
Proof. intros Hf. apply map_inj, Forall_forall. auto. Qed.

Lemma nullable_json_inj {A} (f : A -> json) o o' :
  (forall x y, f x = f y -> x = y) -> (forall x, f x <> JNull) ->
  nullable_json f o = nullable_json f o' -> o = o'.
Proof.
  intros Hf Hn. destruct o, o'; simpl; intros H; try done.
  - f_equal. auto.
  - by destruct (Hn a).
  - by destruct (Hn a).
Qed.

Lemma literal_json_inj (x y : Literal) : Literal.to_json x = Literal.to_json y -> x = y.
Proof. destruct x, y; intros [=]; congruence. Qed.

Lemma time_grain_json_inj (x y : TimeGrain) : TimeGrain.to_json x = TimeGrain.to_json y -> x = y.
Proof. by destruct x, y. Qed.

Lemma direction_json_inj (x y : SortDirection) :
  SortDirection.to_json x = SortDirection.to_json y -> x = y.
Proof. by destruct x, y. Qed.

Lemma filter_json_inj (x y : Filter) : Filter.to_json x = Filter.to_json y -> x = y.
Proof.
  revert y. induction x as [args IH|args IH|x IH| | | | | | | | |] using Filter.ind';
    intros y; destruct y; intros H; try discriminate H; injection H; intros; subst;
    try done; f_equal; auto;
    try (apply literal_json_inj; unfold Literal.to_json; congruence).
  - by eapply map_inj.
  - by eapply map_inj.
  - by eapply map_inj'; [apply literal_json_inj|].
Qed.

Lemma dimension_json_inj x y : Dimension.to_json x = Dimension.to_json y -> x = y.
Proof.
  destruct x, y. unfold Dimension.to_json. simpl. intros [= -> H]. f_equal.
  eapply nullable_json_inj; [apply time_grain_json_inj|by intros []|done].
Qed.

Lemma order_json_inj x y : OrderBy.to_json x = OrderBy.to_json y -> x = y.
Proof.
  destruct x as [r d], y as [r' d']. unfold OrderBy.to_json. simpl. intros [= -> H].
  f_equal. by destruct d, d'.
Qed.

Lemma lsq_json_inj x y : Lsq.to_json x = Lsq.to_json y -> x = y.
Proof.
  destruct x, y. unfold Lsq.to_json. simpl. intros H. injection H.
  intros Hl Ho Hf Hm Hd -> ->.
  f_equal.
  - by eapply map_inj'; [apply dimension_json_inj|].
  - eapply map_inj'; [|exact Hm]. intros [] [] [= ->]. done.
  - eapply nullable_json_inj; [apply filter_json_inj|intros []; discriminate|done].
  - by eapply map_inj'; [apply order_json_inj|].
  - eapply nullable_json_inj; [| |exact Hl]; [|done].
    intros a b [= Hab]. by apply N2Z.inj.
Qed.

Lemma normalize_lsq_ok `{Crates} decode input n :
  normalize_lsq decode input = Ok n <->
  decode input = Ok (NormalizedLsq.query n)
  /\ query_ok (NormalizedLsq.query n)
  /\ json_to_string (Lsq.to_json (NormalizedLsq.query n)) = Ok (NormalizedLsq.canonical_json n)
  /\ NormalizedLsq.hash n = sha256 (NormalizedLsq.canonical_json n).
Proof.
  unfold normalize_lsq. split.
  - intros Hn. unbind. simpl. split_and!; try done.
    apply validate_query_spec. by match goal with u : unit |- _ => destruct u end.
  - intros (Hd & Hq%validate_query_spec & Hj & Hh). destruct n as [q c h]; simpl in *.
    rewrite Hd. simpl. rewrite Hq. simpl. rewrite Hj. simpl. by rewrite Hh.
Qed.

(** A date literal is accepted exactly when it is the zero-padded
    [YYYY-MM-DD] text of a day of the Gregorian calendar. *)
Theorem valid_date_accepts_exactly (value : string) :
  valid_date value = true <->
  exists year month day,
    bytes value = date_text year month day /\ calendar_date year month day.
Proof. apply valid_date_bytes_spec. Qed.

(** A timestamp literal is accepted exactly when it is an RFC 3339
    date-time: a calendar date, [T], a time of day without leap second, an
    optional non-empty fraction, and [Z] or a signed [hh:mm] offset. *)
Theorem valid_timestamp_accepts_exactly (value : string) :
  valid_timestamp value = true <-> timestamp_text (bytes value).
Proof. apply valid_timestamp_bytes_spec. Qed.

(** A numeric literal is accepted exactly when it is an optional minus, an
    integer part without superfluous leading zero, and an optional fraction. *)
Theorem valid_numeric_accepts_exactly (value : string) :
  valid_numeric value = true <-> numeral (bytes value).
Proof. apply valid_numeric_bytes_spec. Qed.
