(* ===== verification/Semantic.v ===== *)
(** * Semantic snapshots ([semantic.rs])

    The published model of the data: models, fields, metrics, relationships and
    write policies, their canonical order and the revision hash. *)

From S2P Require Import Prelude Ordered Text Json Lsq.

(** ** Enumerations *)

Module DataType.
Inductive DataType : Type :=
| Boolean | Integer | Numeric | Text | Date | Timestamp | TimestampTz.
#[global] Instance eq_dec : EqDecision DataType.
Proof. solve_decision. Defined.
Definition to_json (d : DataType) : json :=
  JStr match d with
       | Boolean => "boolean" | Integer => "integer" | Numeric => "numeric"
       | Text => "text" | Date => "date" | Timestamp => "timestamp"
       | TimestampTz => "timestamp_tz"
       end.
End DataType.
Abbreviation DataType := DataType.DataType.

Module Aggregation.
Inductive Aggregation : Type := Count | CountDistinct | Sum | Min | Max | Avg.
#[global] Instance eq_dec : EqDecision Aggregation.
Proof. solve_decision. Defined.
Definition to_json (a : Aggregation) : json :=
  JStr match a with
       | Count => "count" | CountDistinct => "count_distinct" | Sum => "sum"
       | Min => "min" | Max => "max" | Avg => "avg"
       end.
End Aggregation.
Abbreviation Aggregation := Aggregation.Aggregation.

Module Additivity.
Inductive Additivity : Type := Additive | SemiAdditive | NonAdditive.
#[global] Instance eq_dec : EqDecision Additivity.
Proof. solve_decision. Defined.
Definition to_json (a : Additivity) : json :=
  JStr match a with
       | Additive => "additive" | SemiAdditive => "semi_additive"
       | NonAdditive => "non_additive"
       end.
End Additivity.
Abbreviation Additivity := Additivity.Additivity.

Module Cardinality.
Inductive Cardinality : Type := OneToOne | ManyToOne | OneToMany | ManyToMany.
#[global] Instance eq_dec : EqDecision Cardinality.
Proof. solve_decision. Defined.
Definition to_json (c : Cardinality) : json :=
  JStr match c with
       | OneToOne => "one_to_one" | ManyToOne => "many_to_one"
       | OneToMany => "one_to_many" | ManyToMany => "many_to_many"
       end.
End Cardinality.
Abbreviation Cardinality := Cardinality.Cardinality.

Module JoinType.
Inductive JoinType : Type := Inner | Left.
#[global] Instance eq_dec : EqDecision JoinType.
Proof. solve_decision. Defined.
Definition to_json (j : JoinType) : json :=
  JStr match j with Inner => "inner" | Left => "left" end.
End JoinType.
Abbreviation JoinType := JoinType.JoinType.

(** ** Records *)

Module Relation.
Record Relation : Type := mk { schema : string; relation : string }.
#[global] Instance eq_dec : EqDecision Relation.
Proof. solve_decision. Defined.
Definition to_json (r : Relation) : json :=
  JObj [("schema", JStr (schema r)); ("relation", JStr (relation r))].
End Relation.
Abbreviation Relation := Relation.Relation.

Module Field.
Record Field : Type := mk {
  semantic_name : string;
  data_type : DataType;
  column : string;
  relationship : option string;
  time_dimension : bool;
  entity_key : bool;
  visible : bool;
  nullable : bool;
}.
#[global] Instance eq_dec : EqDecision Field.
Proof. solve_decision. Defined.
(** [nullable] carries [skip_serializing]. *)
Definition to_json (f : Field) : json :=
  JObj [("semantic_name", JStr (semantic_name f));
        ("data_type", DataType.to_json (data_type f));
        ("column", JStr (column f));
        ("relationship", nullable_json JStr (relationship f));
        ("time_dimension", JBool (time_dimension f));
        ("entity_key", JBool (entity_key f));
        ("visible", JBool (visible f))].
End Field.
Abbreviation Field := Field.Field.

Module WritableField.
Record WritableField : Type := mk {
  field : string;
  nullable : bool;
  required_on_insert : bool;
  updatable_on_conflict : bool;
}.
#[global] Instance eq_dec : EqDecision WritableField.
Proof. solve_decision. Defined.
Definition to_json (f : WritableField) : json :=
  JObj [("field", JStr (field f));
        ("nullable", JBool (nullable f));
        ("required_on_insert", JBool (required_on_insert f));
        ("updatable_on_conflict", JBool (updatable_on_conflict f))].
End WritableField.
Abbreviation WritableField := WritableField.WritableField.

Module UpsertPolicy.
Record UpsertPolicy : Type := mk { conflict_fields : list string }.
#[global] Instance eq_dec : EqDecision UpsertPolicy.
Proof. solve_decision. Defined.
Definition to_json (u : UpsertPolicy) : json :=
  JObj [("conflict_fields", JArr (map JStr (conflict_fields u)))].
End UpsertPolicy.
Abbreviation UpsertPolicy := UpsertPolicy.UpsertPolicy.

Module WritableModel.
Record WritableModel : Type := mk {
  insert : bool;
  upsert : option UpsertPolicy;
  max_rows : N;
  max_request_bytes : N;
  fields : list WritableField;
  returning : list string;
}.
#[global] Instance eq_dec : EqDecision WritableModel.
Proof. solve_decision. Defined.
Definition to_json (w : WritableModel) : json :=
  JObj ([("insert", JBool (insert w))]
        ++ opt_field "upsert" UpsertPolicy.to_json (upsert w)
        ++ [("max_rows", JInt (Z.of_N (max_rows w)));
            ("max_request_bytes", JInt (Z.of_N (max_request_bytes w)));
            ("fields", JArr (map WritableField.to_json (fields w)));
            ("returning", JArr (map JStr (returning w)))]).
End WritableModel.
Abbreviation WritableModel := WritableModel.WritableModel.

Module MetricFilter.
Record MetricFilter : Type := mk { field : string; value : Literal }.
#[global] Instance eq_dec : EqDecision MetricFilter.
Proof. solve_decision. Defined.
Definition to_json (f : MetricFilter) : json :=
  JObj [("field", JStr (field f)); ("value", Literal.to_json (value f))].
End MetricFilter.
Abbreviation MetricFilter := MetricFilter.MetricFilter.

Module Metric.
Record Metric : Type := mk {
  semantic_name : string;
  data_type : DataType;
  aggregation : Aggregation;
  field : string;
  filter : option MetricFilter;
  additivity : option Additivity;
  aggregation_anchor : option string;
  visible : bool;
}.
#[global] Instance eq_dec : EqDecision Metric.
Proof. solve_decision. Defined.
Definition to_json (m : Metric) : json :=
  JObj ([("semantic_name", JStr (semantic_name m));
         ("data_type", DataType.to_json (data_type m));
         ("aggregation", Aggregation.to_json (aggregation m));
         ("field", JStr (field m));
         ("filter", nullable_json MetricFilter.to_json (filter m))]
        ++ opt_field "additivity" Additivity.to_json (additivity m)
        ++ opt_field "aggregation_anchor" JStr (aggregation_anchor m)
        ++ [("visible", JBool (visible m))]).
End Metric.
Abbreviation Metric := Metric.Metric.

Module Relationship.
Record Relationship : Type := mk {
  semantic_name : string;
  target_model : string;
  target : Relation;
  cardinality : Cardinality;
  join_type : JoinType;
  from_column : string;
  to_column : string;
}.
#[global] Instance eq_dec : EqDecision Relationship.
Proof. solve_decision. Defined.
Definition to_json (r : Relationship) : json :=
  JObj [("semantic_name", JStr (semantic_name r));
        ("target_model", JStr (target_model r));
        ("target", Relation.to_json (target r));
        ("cardinality", Cardinality.to_json (cardinality r));
        ("join_type", JoinType.to_json (join_type r));
        ("from_column", JStr (from_column r));
        ("to_column", JStr (to_column r))].
End Relationship.
Abbreviation Relationship := Relationship.Relationship.

Module Model.
Record Model : Type := mk {
  semantic_name : string;
  source : Relation;
  timezone : option string;
  queryable : bool;
  writable : option WritableModel;
  fields : list Field;
  metrics : list Metric;
  relationships : list Relationship;
}.
#[global] Instance eq_dec : EqDecision Model.
Proof. solve_decision. Defined.
Definition to_json (m : Model) : json :=
  JObj ([("semantic_name", JStr (semantic_name m));
         ("source", Relation.to_json (source m));
         ("timezone", nullable_json JStr (timezone m));
         ("queryable", JBool (queryable m))]
        ++ opt_field "writable" WritableModel.to_json (writable m)
        ++ [("fields", JArr (map Field.to_json (fields m)));
            ("metrics", JArr (map Metric.to_json (metrics m)));
            ("relationships", JArr (map Relationship.to_json (relationships m)))]).
End Model.
Abbreviation Model := Model.Model.

Module Snapshot.
Record SemanticSnapshot : Type := mk {
  schema_version : string;
  revision_hash : string;
  models : list Model;
}.
#[global] Instance eq_dec : EqDecision SemanticSnapshot.
Proof. solve_decision. Defined.
Definition to_json (s : SemanticSnapshot) : json :=
  JObj [("schema_version", JStr (schema_version s));
        ("revision_hash", JStr (revision_hash s));
        ("models", JArr (map Model.to_json (models s)))].
End Snapshot.
Abbreviation SemanticSnapshot := Snapshot.SemanticSnapshot.

(** ** Canonical form *)

(** [a.cmp(b).then_with(..)] over a list of string keys. *)
Definition lex_le (a b : list string) : Prop :=
  (fix go (a b : list string) : Prop :=
     match a, b with
     | [], _ => True
     | _ :: _, [] => False
     | x :: a', y :: b' => (kle x y /\ x <> y) \/ (x = y /\ go a' b')
     end) a b.

Definition model_keys (m : Model) : list string :=
  [Model.semantic_name m; Relation.schema (Model.source m); Relation.relation (Model.source m)].

Definition relationship_keys (r : Relationship) : list string :=
  [Relationship.semantic_name r; Relationship.target_model r].

Definition model_le (a b : Model) : Prop := lex_le (model_keys a) (model_keys b).
Definition field_le (a b : Field) : Prop :=
  kle (Field.semantic_name a) (Field.semantic_name b).
Definition metric_le (a b : Metric) : Prop :=
  kle (Metric.semantic_name a) (Metric.semantic_name b).
Definition writable_field_le (a b : WritableField) : Prop :=
  kle (WritableField.field a) (WritableField.field b).
Definition relationship_le (a b : Relationship) : Prop :=
  lex_le (relationship_keys a) (relationship_keys b).

#[export] Instance lex_le_dec : RelDecision lex_le.
Proof.
  intros a b. revert b. induction a as [|x a IH]; intros [|y b]; simpl;
    [apply _..|]. specialize (IH b). apply _.
Defined.
#[export] Instance model_le_dec : RelDecision model_le.
Proof. intros a b. apply lex_le_dec. Defined.
#[export] Instance field_le_dec : RelDecision field_le.
Proof. intros a b. apply kle_dec. Defined.
#[export] Instance metric_le_dec : RelDecision metric_le.
Proof. intros a b. apply kle_dec. Defined.
#[export] Instance writable_field_le_dec : RelDecision writable_field_le.
Proof. intros a b. apply kle_dec. Defined.
#[export] Instance relationship_le_dec : RelDecision relationship_le.
Proof. intros a b. apply lex_le_dec. Defined.

(** The loop body of [normalized] for [model.writable]. *)
Definition normalize_writable (w : WritableModel) : WritableModel :=
  {| WritableModel.insert := WritableModel.insert w;
     WritableModel.upsert :=
       (fun u => UpsertPolicy.mk (sort_by kle (UpsertPolicy.conflict_fields u)))
         <$> WritableModel.upsert w;
     WritableModel.max_rows := WritableModel.max_rows w;
     WritableModel.max_request_bytes := WritableModel.max_request_bytes w;
     WritableModel.fields := sort_by writable_field_le (WritableModel.fields w);
     WritableModel.returning := WritableModel.returning w |}.

(** The loop body of [normalized] over the models. *)
Definition normalize_model (m : Model) : Model :=
  {| Model.semantic_name := Model.semantic_name m;
     Model.source := Model.source m;
     Model.timezone := Model.timezone m;
     Model.queryable := Model.queryable m;
     Model.writable := normalize_writable <$> Model.writable m;
     Model.fields := sort_by field_le (Model.fields m);
     Model.metrics := sort_by metric_le (Model.metrics m);
     Model.relationships := sort_by relationship_le (Model.relationships m) |}.

Definition normalized (s : SemanticSnapshot) : SemanticSnapshot :=
  {| Snapshot.schema_version := Snapshot.schema_version s;
     Snapshot.revision_hash := Snapshot.revision_hash s;
     Snapshot.models := map normalize_model (sort_by model_le (Snapshot.models s)) |}.

(** [canonical.revision_hash.clear()]. *)
Definition clear_revision_hash (s : SemanticSnapshot) : SemanticSnapshot :=
  {| Snapshot.schema_version := Snapshot.schema_version s;
     Snapshot.revision_hash := EmptyString;
     Snapshot.models := Snapshot.models s |}.

(** [calculate_revision_hash]; the error is serde_json's. *)
Definition calculate_revision_hash `{Crates} (s : SemanticSnapshot) : result string string :=
  text ← json_to_string (Snapshot.to_json (clear_revision_hash (normalized s)));
  Ok (sha256 text).
