(* ===== verification/SemanticSpec.v ===== *)
(** * Properties of semantic snapshots

    The canonical form is idempotent and forgets the order of collections; the
    revision hash covers everything except [nullable] and itself. *)

From S2P Require Import Prelude Ordered Text Json Lsq LsqSpec Semantic.

(** ** The orders of the canonical form *)

Lemma lex_le_nil b : lex_le [] b.
Proof. by destruct b. Qed.

Lemma lex_le_cons x a y b :
  lex_le (x :: a) (y :: b) <-> klt x y \/ (x = y /\ lex_le a b).
Proof. done. Qed.

Lemma lex_le_cons_nil x a : ~ lex_le (x :: a) [].
Proof. by intros []. Qed.

#[export] Instance lex_le_trans : Transitive lex_le.
Proof.
  intros a. induction a as [|x a IH]; intros [|y b] [|z c] H1 H2;
    try (apply lex_le_nil || by apply lex_le_cons_nil in H1 || by apply lex_le_cons_nil in H2).
  rewrite lex_le_cons in *. destruct H1 as [H1|[-> H1]], H2 as [H2|[-> H2]]; auto.
  - left. by eapply klt_trans.
  - right. split; [done|]. by eapply IH.
Qed.

#[export] Instance lex_le_total : Total lex_le.
Proof.
  intros a. induction a as [|x a IH]; intros [|y b]; [left; done|left; done|right; done|].
  destruct (decide (x = y)) as [->|Hne].
  - destruct (IH b); [left|right]; by right.
  - destruct (total kle x y); [left; left|right; left]; (split; [done|congruence]).
Qed.

Lemma lex_le_antisym a b : lex_le a b -> lex_le b a -> a = b.
Proof.
  revert b. induction a as [|x a IH]; intros [|y b] H1 H2; try done.
  rewrite lex_le_cons in *. destruct H1 as [H1|[E1 H1]], H2 as [H2|[E2 H2]]; subst.
  - destruct (klt_irrefl x). by eapply klt_trans.
  - by apply klt_irrefl in H1.
  - by apply klt_irrefl in H2.
  - f_equal. by apply IH.
Qed.

#[export] Instance model_le_trans : Transitive model_le.
Proof. intros a b c. apply lex_le_trans. Qed.
#[export] Instance model_le_total : Total model_le.
Proof. intros a b. apply lex_le_total. Qed.
#[export] Instance relationship_le_trans : Transitive relationship_le.
Proof. intros a b c. apply lex_le_trans. Qed.
#[export] Instance relationship_le_total : Total relationship_le.
Proof. intros a b. apply lex_le_total. Qed.
#[export] Instance field_le_trans : Transitive field_le.
Proof. unfold field_le. intros a b c. by etrans. Qed.
#[export] Instance field_le_total : Total field_le.
Proof. intros a b. apply (total kle). Qed.
#[export] Instance metric_le_trans : Transitive metric_le.
Proof. unfold metric_le. intros a b c. by etrans. Qed.
#[export] Instance metric_le_total : Total metric_le.
Proof. intros a b. apply (total kle). Qed.
#[export] Instance writable_field_le_trans : Transitive writable_field_le.
Proof. unfold writable_field_le. intros a b c. by etrans. Qed.
#[export] Instance writable_field_le_total : Total writable_field_le.
Proof. intros a b. apply (total kle). Qed.

(** ** Idempotence *)

Lemma normalize_writable_idemp w :
  normalize_writable (normalize_writable w) = normalize_writable w.
Proof.
  unfold normalize_writable. simpl. rewrite sort_by_idemp by apply _. f_equal.
  destruct (WritableModel.upsert w) as [[]|]; simpl; [|done].
  by rewrite sort_by_idemp by apply _.
Qed.

Lemma normalize_model_idemp m : normalize_model (normalize_model m) = normalize_model m.
Proof.
  unfold normalize_model. simpl. rewrite !sort_by_idemp by apply _. f_equal.
  destruct (Model.writable m); simpl; [|done]. by rewrite normalize_writable_idemp.
Qed.

Lemma normalize_model_keys m : model_keys (normalize_model m) = model_keys m.
Proof. done. Qed.

Lemma sort_normalized_models ms :
  sort_by model_le (map normalize_model ms) = map normalize_model (sort_by model_le ms).
Proof. symmetry. by apply (sort_by_fmap model_le model_le normalize_model). Qed.

Lemma normalized_idemp s : normalized (normalized s) = normalized s.
Proof.
  unfold normalized. simpl. f_equal.
  rewrite sort_normalized_models, map_map, sort_by_idemp by apply _.
  apply map_ext. apply normalize_model_idemp.
Qed.

(** ** Order independence *)

(** Names identify the members of every collection. *)
Definition writable_distinct (w : WritableModel) : Prop :=
  NoDup (map WritableField.field (WritableModel.fields w)).

Record model_distinct (m : Model) : Prop := {
  distinct_fields : NoDup (map Field.semantic_name (Model.fields m));
  distinct_metrics : NoDup (map Metric.semantic_name (Model.metrics m));
  distinct_relationships : NoDup (map Relationship.semantic_name (Model.relationships m));
  distinct_writable : forall w, Model.writable m = Some w -> writable_distinct w;
}.

Record snapshot_distinct (s : SemanticSnapshot) : Prop := {
  distinct_models : NoDup (map Model.semantic_name (Snapshot.models s));
  distinct_members : Forall model_distinct (Snapshot.models s);
}.

(** Equal up to the order of collections (returned columns keep theirs). *)
Record writable_equiv (w w' : WritableModel) : Prop := {
  we_insert : WritableModel.insert w = WritableModel.insert w';
  we_upsert : option_Forall2 (fun u u' => UpsertPolicy.conflict_fields u ≡ₚ UpsertPolicy.conflict_fields u')
                (WritableModel.upsert w) (WritableModel.upsert w');
  we_rows : WritableModel.max_rows w = WritableModel.max_rows w';
  we_bytes : WritableModel.max_request_bytes w = WritableModel.max_request_bytes w';
  we_fields : WritableModel.fields w ≡ₚ WritableModel.fields w';
  we_returning : WritableModel.returning w = WritableModel.returning w';
}.

Record model_equiv (m m' : Model) : Prop := {
  me_name : Model.semantic_name m = Model.semantic_name m';
  me_source : Model.source m = Model.source m';
  me_timezone : Model.timezone m = Model.timezone m';
  me_queryable : Model.queryable m = Model.queryable m';
  me_writable : option_Forall2 writable_equiv (Model.writable m) (Model.writable m');
  me_fields : Model.fields m ≡ₚ Model.fields m';
  me_metrics : Model.metrics m ≡ₚ Model.metrics m';
  me_relationships : Model.relationships m ≡ₚ Model.relationships m';
}.

Definition snapshot_equiv (s s' : SemanticSnapshot) : Prop :=
  Snapshot.schema_version s = Snapshot.schema_version s' /\
  exists ms, Snapshot.models s ≡ₚ ms /\ Forall2 model_equiv ms (Snapshot.models s').

(** With distinct keys, sorting is determined by the elements. *)
Lemma sort_by_distinct {A} (R : relation A) `{!RelDecision R, !Transitive R, !Total R}
    {B} (key : A -> B) l l' :
  (forall x y, R x y -> R y x -> key x = key y) ->
  NoDup (map key l) -> l ≡ₚ l' -> sort_by R l = sort_by R l'.
Proof.
  intros Hkey Hnd Hp. apply sort_by_unique; [apply _..| |done].
  intros x y Hx Hy H1 H2. eapply NoDup_map_inj; eauto.
Qed.

Lemma normalize_writable_equiv w w' :
  writable_distinct w -> writable_equiv w w' -> normalize_writable w = normalize_writable w'.
Proof.
  intros Hd []. unfold normalize_writable. rewrite we_insert0, we_rows0, we_bytes0, we_returning0.
  f_equal.
  - destruct we_upsert0 as [u u' Hu|]; simpl; [|done]. do 2 f_equal.
    apply sort_by_unique; [apply _..| |done]. intros x y _ _. apply string_le_antisym.
  - eapply (sort_by_distinct writable_field_le WritableField.field); [|done|done].
    intros x y. apply string_le_antisym.
Qed.

Lemma normalize_model_equiv m m' :
  model_distinct m -> model_equiv m m' -> normalize_model m = normalize_model m'.
Proof.
  intros [] []. unfold normalize_model.
  rewrite me_name0, me_source0, me_timezone0, me_queryable0. f_equal.
  - destruct me_writable0 as [w w' Hw|]; simpl; [|done]. f_equal.
    apply normalize_writable_equiv; auto.
  - eapply (sort_by_distinct field_le Field.semantic_name); [|done|done].
    intros x y. apply string_le_antisym.
  - eapply (sort_by_distinct metric_le Metric.semantic_name); [|done|done].
    intros x y. apply string_le_antisym.
  - eapply (sort_by_distinct relationship_le Relationship.semantic_name); [|done|done].
    intros x y H1 H2. pose proof (lex_le_antisym _ _ H1 H2) as [= ? ?]. done.
Qed.

Lemma sort_models_equiv ms ms' :
  Forall2 model_equiv ms ms' -> Forall model_distinct ms ->
  map normalize_model ms = map normalize_model ms'.
Proof.
  induction 1 as [|m m' ms ms' Hm _ IH]; simpl; [done|]. intros [Hd Hds]%Forall_cons.
  f_equal; auto using normalize_model_equiv.
Qed.

Lemma normalized_equiv s s' :
  snapshot_distinct s -> snapshot_equiv s s' ->
  clear_revision_hash (normalized s) = clear_revision_hash (normalized s').
Proof.
  intros [Hn Hm] [Hv (ms & Hp & Hms)]. unfold clear_revision_hash, normalized. simpl.
  rewrite Hv. f_equal. rewrite <- !sort_normalized_models.
  rewrite <- (sort_models_equiv _ _ Hms) by (by rewrite <- Hp).
  rewrite !sort_normalized_models. f_equal.
  eapply (sort_by_distinct model_le Model.semantic_name); [|done|done].
  intros x y H1 H2. pose proof (lex_le_antisym _ _ H1 H2) as [= ? ? ?]. done.
Qed.

(** ** What the revision hash covers *)

(** A field without its [nullable] flag, which is not serialised. *)
Definition forget_nullable (f : Field) : Field :=
  {| Field.semantic_name := Field.semantic_name f;
     Field.data_type := Field.data_type f;
     Field.column := Field.column f;
     Field.relationship := Field.relationship f;
     Field.time_dimension := Field.time_dimension f;
     Field.entity_key := Field.entity_key f;
     Field.visible := Field.visible f;
     Field.nullable := true |}.

Definition forget_nullable_model (m : Model) : Model :=
  {| Model.semantic_name := Model.semantic_name m;
     Model.source := Model.source m;
     Model.timezone := Model.timezone m;
     Model.queryable := Model.queryable m;
     Model.writable := Model.writable m;
     Model.fields := map forget_nullable (Model.fields m);
     Model.metrics := Model.metrics m;
     Model.relationships := Model.relationships m |}.

(** What is left of a snapshot once [nullable] flags and the recorded hash are
    dropped and the collections are in canonical order. *)
Definition hashed_content (s : SemanticSnapshot) : string * list Model :=
  (Snapshot.schema_version s,
   map forget_nullable_model (Snapshot.models (normalized s))).

Lemma data_type_json_inj x y : DataType.to_json x = DataType.to_json y -> x = y.
Proof. by destruct x, y. Qed.
Lemma aggregation_json_inj x y : Aggregation.to_json x = Aggregation.to_json y -> x = y.
Proof. by destruct x, y. Qed.
Lemma additivity_json_inj x y : Additivity.to_json x = Additivity.to_json y -> x = y.
Proof. by destruct x, y. Qed.
Lemma cardinality_json_inj x y : Cardinality.to_json x = Cardinality.to_json y -> x = y.
Proof. by destruct x, y. Qed.
Lemma join_type_json_inj x y : JoinType.to_json x = JoinType.to_json y -> x = y.
Proof. by destruct x, y. Qed.

Lemma relation_json_inj x y : Relation.to_json x = Relation.to_json y -> x = y.
Proof. destruct x, y. intros [= -> ->]. done. Qed.

Lemma jstr_inj x y : JStr x = JStr y -> x = y.
Proof. by intros [=]. Qed.

Lemma opt_string_json_inj o o' : nullable_json JStr o = nullable_json JStr o' -> o = o'.
Proof. apply nullable_json_inj; [apply jstr_inj|done]. Qed.

Lemma field_json_inj x y : Field.to_json x = Field.to_json y -> forget_nullable x = forget_nullable y.
Proof.
  destruct x as [n d c r t e v u], y as [n' d' c' r' t' e' v' u'].
  unfold Field.to_json, forget_nullable. simpl.
  intros [= -> Hd -> Hr -> -> ->]. f_equal.
  - by apply data_type_json_inj; unfold DataType.to_json; f_equal.
  - by apply opt_string_json_inj.
Qed.

Lemma writable_field_json_inj x y :
  WritableField.to_json x = WritableField.to_json y -> x = y.
Proof. destruct x, y. intros [= -> -> -> ->]. done. Qed.

Lemma upsert_json_inj x y : UpsertPolicy.to_json x = UpsertPolicy.to_json y -> x = y.
Proof. destruct x, y. intros [= H]. f_equal. eapply map_inj'; [apply jstr_inj|done]. Qed.

Lemma writable_json_inj x y : WritableModel.to_json x = WritableModel.to_json y -> x = y.
Proof.
  destruct x as [i u r b f g], y as [i' u' r' b' f' g'].
  unfold WritableModel.to_json, opt_field. simpl.
  destruct u as [u|], u' as [u'|]; simpl; intros H; try discriminate H; injection H;
    intros Hg Hf Hb Hr; intros; subst; apply N2Z.inj in Hb, Hr; subst;
    apply map_inj' in Hf; [|apply writable_field_json_inj| |apply writable_field_json_inj];
    apply map_inj' in Hg; try apply jstr_inj; subst; [|done].
  do 2 f_equal. apply upsert_json_inj. unfold UpsertPolicy.to_json. congruence.
Qed.

Lemma metric_filter_json_inj x y : MetricFilter.to_json x = MetricFilter.to_json y -> x = y.
Proof.
  destruct x, y. unfold MetricFilter.to_json. simpl. intros H. injection H. intros.
  subst. f_equal. apply literal_json_inj. unfold Literal.to_json. congruence.
Qed.

Lemma metric_json_inj x y : Metric.to_json x = Metric.to_json y -> x = y.
Proof.
  destruct x as [n d a f l k o v], y as [n' d' a' f' l' k' o' v'].
  unfold Metric.to_json, opt_field. simpl. intros H.
  assert (Hh : JStr n = JStr n' /\ DataType.to_json d = DataType.to_json d'
    /\ Aggregation.to_json a = Aggregation.to_json a' /\ JStr f = JStr f'
    /\ nullable_json MetricFilter.to_json l = nullable_json MetricFilter.to_json l').
  { split_and!; congruence. }
  destruct Hh as (Hn & Hd%data_type_json_inj & Ha%aggregation_json_inj & Hf & Hl).
  apply nullable_json_inj in Hl; [|apply metric_filter_json_inj|done].
  apply jstr_inj in Hn, Hf. subst.
  destruct k as [k|], k' as [k'|], o as [o|], o' as [o'|]; simpl in H;
    try discriminate H; injection H; intros; subst; f_equal; f_equal;
    apply additivity_json_inj; unfold Additivity.to_json; congruence.
Qed.

Lemma relationship_json_inj x y : Relationship.to_json x = Relationship.to_json y -> x = y.
Proof.
  destruct x as [n m t c j f o], y as [n' m' t' c' j' f' o'].
  unfold Relationship.to_json. simpl. intros H.
  assert (Hh : Relation.to_json t = Relation.to_json t'
    /\ Cardinality.to_json c = Cardinality.to_json c' /\ JoinType.to_json j = JoinType.to_json j').
  { split_and!; congruence. }
  destruct Hh as (->%relation_json_inj & ->%cardinality_json_inj & ->%join_type_json_inj).
  injection H. intros. by subst.
Qed.

Lemma map_json_forget {A} (enc : A -> json) (forget : A -> A) l k :
  (forall x y, enc x = enc y -> forget x = forget y) ->
  map enc l = map enc k -> map forget l = map forget k.
Proof.
  intros Hf. revert k. induction l as [|x l IH]; intros [|y k] H; try done.
  injection H as Hx Hl. simpl. f_equal; auto.
Qed.

Lemma model_json_inj x y :
  Model.to_json x = Model.to_json y -> forget_nullable_model x = forget_nullable_model y.
Proof.
  destruct x as [n s t q w f m r], y as [n' s' t' q' w' f' m' r'].
  unfold Model.to_json, opt_field, forget_nullable_model. simpl. intros H.
  assert (Hh : JStr n = JStr n' /\ Relation.to_json s = Relation.to_json s'
    /\ nullable_json JStr t = nullable_json JStr t' /\ q = q'
    /\ (WritableModel.to_json <$> w) = (WritableModel.to_json <$> w')
    /\ map Field.to_json f = map Field.to_json f'
    /\ map Metric.to_json m = map Metric.to_json m'
    /\ map Relationship.to_json r = map Relationship.to_json r').
  { destruct w, w'; simpl in *; split_and!; congruence. }
  destruct Hh as (Hn & Hs & Ht & -> & Hw & Hf & Hm & Hr).
  apply jstr_inj in Hn as ->. apply relation_json_inj in Hs as ->.
  apply opt_string_json_inj in Ht as ->.
  apply (map_json_forget _ forget_nullable) in Hf as ->; [|apply field_json_inj].
  apply map_inj' in Hm as ->; [|apply metric_json_inj].
  apply map_inj' in Hr as ->; [|apply relationship_json_inj].
  f_equal. destruct w, w'; simpl in *; try done.
  apply (inj Some) in Hw. f_equal. by apply writable_json_inj.
Qed.

Lemma snapshot_json_content s s' :
  Snapshot.to_json (clear_revision_hash (normalized s)) =
  Snapshot.to_json (clear_revision_hash (normalized s')) ->
  hashed_content s = hashed_content s'.
Proof.
  unfold Snapshot.to_json, hashed_content. simpl. intros [= Hv Hm]. rewrite Hv. f_equal.
  by apply (map_json_forget Model.to_json); [apply model_json_inj|].
Qed.

(** Fields that differ in [nullable] alone serialise alike. *)
Lemma model_json_forget m : Model.to_json (forget_nullable_model m) = Model.to_json m.
Proof.
  unfold Model.to_json, forget_nullable_model. simpl. by rewrite map_map.
Qed.

Lemma hashed_content_json s s' :
  hashed_content s = hashed_content s' ->
  Snapshot.to_json (clear_revision_hash (normalized s)) =
  Snapshot.to_json (clear_revision_hash (normalized s')).
Proof.
  unfold Snapshot.to_json, hashed_content, clear_revision_hash. simpl.
  intros [= Hv Hm]. rewrite Hv. do 4 f_equal.
  assert (Hext : forall ms, map Model.to_json ms = map Model.to_json (map forget_nullable_model ms)).
  { intros ms. rewrite map_map. apply map_ext. intros m. by rewrite model_json_forget. }
  rewrite Hext, Hm, <- Hext. done.
Qed.

Lemma revision_hash_content `{Crates} s s' :
  hashed_content s = hashed_content s' -> calculate_revision_hash s = calculate_revision_hash s'.
Proof. intros Hc. unfold calculate_revision_hash. by rewrite (hashed_content_json _ _ Hc). Qed.

(** The text whose digest is the revision hash. *)
Definition canonical_text `{Crates} (s : SemanticSnapshot) : result string string :=
  json_to_string (Snapshot.to_json (clear_revision_hash (normalized s))).

Lemma canonical_text_content `{CratesOk} s s' t t' :
  canonical_text s = Ok t -> canonical_text s' = Ok t' ->
  t = t' <-> hashed_content s = hashed_content s'.
Proof.
  unfold canonical_text. intros Ht Ht'. split.
  - intros <-. eapply snapshot_json_content, json_to_string_inj; eauto.
  - intros Hc. rewrite (hashed_content_json _ _ Hc), Ht' in Ht. by apply Ok_inj in Ht.
Qed.
