(* ===== verification/Compiler.v ===== *)
(** * The query compiler ([compiler.rs])

    [compile_lsq] resolves a normalised query against a snapshot ([validate])
    and writes one parameterised SQL statement ([render]).  The functions of
    the source that take [&mut parameters] and [&mut source_columns] are
    written in the state-and-error monad [R]. *)

From S2P Require Import Prelude Ordered Text Json Lsq Semantic.

Definition COMPILER_SEMANTIC_VERSION : string := "0.2.0".

(** ** Data *)

Record CompilerOptions : Type := {
  default_limit : N;
  hard_limit : N;
}.

Definition default_options : CompilerOptions :=
  {| default_limit := 100; hard_limit := 10000 |}.

Module CompiledParameter.
Record CompiledParameter : Type := mk {
  position : nat;
  data_type : DataType;
  value : Literal;
}.
Definition to_json (p : CompiledParameter) : json :=
  JObj [("position", JInt (Z.of_nat (position p)));
        ("data_type", DataType.to_json (data_type p));
        ("value", Literal.to_json (value p))].
End CompiledParameter.
Abbreviation CompiledParameter := CompiledParameter.CompiledParameter.

Module OutputColumn.
Record OutputColumn : Type := mk { name : string; data_type : DataType }.
End OutputColumn.
Abbreviation OutputColumn := OutputColumn.OutputColumn.

Record AggregationAnchorLineage : Type := {
  anchor_metric : string;
  anchor_field : string;
}.

Module Lineage.
Record Lineage : Type := mk {
  models : list string;
  metrics : list string;
  aggregation_anchors : list AggregationAnchorLineage;
  relationships : list string;
  source_columns : list string;
}.
End Lineage.
Abbreviation Lineage := Lineage.Lineage.

Module CompiledQuery.
Record CompiledQuery : Type := mk {
  sql : string;
  parameters : list CompiledParameter;
  output_schema : list OutputColumn;
  lineage : Lineage;
  query_hash : string;
  sql_hash : string;
}.
End CompiledQuery.
Abbreviation CompiledQuery := CompiledQuery.CompiledQuery.

Module CompileError.
Inductive CompileError : Type :=
| UnsupportedSnapshotVersion (version : string)
| InvalidRevisionHash
| UnknownModel
| UnknownField (name : string)
| UnknownMetric (name : string)
| HiddenField (name : string)
| HiddenMetric (name : string)
| InvalidTimeGrain (name : string)
| LiteralTypeMismatch (name : string)
| UnknownOrderReference (name : string)
| UnknownRelationship (name : string)
| UnsafeRelationship (name : string)
| MissingMetricMetadata (name : string)
| InvalidAggregationAnchor (name : string)
| MissingAggregationAnchor (name : string)
| MixedAggregationAnchors
| JoinedMetricFilter (name : string)
| UnsupportedFanoutAdditivity (name : string)
| InvalidMetricField (name : string)
| JoinedMetricField (name : string)
| CountDistinctRequiresEntityKey (name : string)
| CountRequiresEntityKey (name : string)
| InvalidMetricType (name : string)
| InvalidRelationshipTarget (name : string)
| RelationshipTargetNotEntityKey (name : string)
| MissingTimezone (name : string)
| HashSerialization
| InvalidLimitConfiguration
| LimitExceeded.

Definition code (e : CompileError) : string :=
  match e with
  | UnsupportedSnapshotVersion _ => "SEMANTIC_UNSUPPORTED_SNAPSHOT_VERSION"
  | InvalidRevisionHash => "SEMANTIC_INVALID_REVISION_HASH"
  | UnknownModel => "SEMANTIC_MODEL_NOT_AVAILABLE"
  | UnknownField _ => "SEMANTIC_FIELD_NOT_AVAILABLE"
  | UnknownMetric _ => "SEMANTIC_METRIC_NOT_AVAILABLE"
  | HiddenField _ => "SEMANTIC_FIELD_NOT_AVAILABLE"
  | HiddenMetric _ => "SEMANTIC_METRIC_NOT_AVAILABLE"
  | InvalidTimeGrain _ => "SEMANTIC_INVALID_TIME_GRAIN"
  | LiteralTypeMismatch _ => "SEMANTIC_LITERAL_TYPE_MISMATCH"
  | UnknownOrderReference _ => "SEMANTIC_ORDER_REFERENCE_NOT_PROJECTED"
  | UnknownRelationship _ => "SEMANTIC_RELATIONSHIP_NOT_AVAILABLE"
  | UnsafeRelationship _ => "SEMANTIC_UNSAFE_RELATIONSHIP"
  | MissingMetricMetadata _ => "SEMANTIC_MISSING_METRIC_METADATA"
  | InvalidAggregationAnchor _ => "SEMANTIC_INVALID_AGGREGATION_ANCHOR"
  | MissingAggregationAnchor _ => "SEMANTIC_MISSING_AGGREGATION_ANCHOR"
  | MixedAggregationAnchors => "SEMANTIC_MIXED_AGGREGATION_ANCHORS"
  | JoinedMetricFilter _ => "SEMANTIC_JOINED_METRIC_FILTER"
  | UnsupportedFanoutAdditivity _ => "SEMANTIC_UNSUPPORTED_FANOUT_ADDITIVITY"
  | InvalidMetricField _ => "SEMANTIC_INVALID_METRIC_FIELD"
  | JoinedMetricField _ => "SEMANTIC_JOINED_METRIC_FIELD"
  | CountDistinctRequiresEntityKey _ => "SEMANTIC_COUNT_DISTINCT_REQUIRES_ENTITY_KEY"
  | CountRequiresEntityKey _ => "SEMANTIC_COUNT_REQUIRES_ENTITY_KEY"
  | InvalidMetricType _ => "SEMANTIC_INVALID_METRIC_TYPE"
  | InvalidRelationshipTarget _ => "SEMANTIC_INVALID_RELATIONSHIP_TARGET"
  | RelationshipTargetNotEntityKey _ => "SEMANTIC_RELATIONSHIP_TARGET_NOT_ENTITY_KEY"
  | MissingTimezone _ => "SEMANTIC_MISSING_TIMEZONE"
  | HashSerialization => "COMPILER_HASH_SERIALIZATION_FAILED"
  | InvalidLimitConfiguration => "COMPILER_INVALID_LIMIT_CONFIGURATION"
  | LimitExceeded => "COMPILER_LIMIT_EXCEEDED"
  end.
End CompileError.
Abbreviation CompileError := CompileError.CompileError.

Module ComparisonOperator.
Inductive ComparisonOperator : Type := Eq | NotEq | Gt | Gte | Lt | Lte.
End ComparisonOperator.
Abbreviation ComparisonOperator := ComparisonOperator.ComparisonOperator.

Record ResolvedDimension : Type := {
  rd_field : Field;
  rd_time_grain : option TimeGrain;
}.

Record ResolvedMetric : Type := {
  rm_metric : Metric;
  rm_field : Field;
  rm_filter : option (Field * Literal);
  rm_aggregation_anchor : option Field;
}.

Module ResolvedFilter.
Inductive ResolvedFilter : Type :=
| And (args : list ResolvedFilter)
| Or (args : list ResolvedFilter)
| Not (arg : ResolvedFilter)
| Comparison (operator : ComparisonOperator) (field : Field) (value : Literal)
| In (field : Field) (values : list Literal)
| IsNull (field : Field)
| IsNotNull (field : Field).

Section induction.
Context (P : ResolvedFilter -> Prop)
  (Hand : forall args, Forall P args -> P (And args))
  (Hor : forall args, Forall P args -> P (Or args))
  (Hnot : forall arg, P arg -> P (Not arg))
  (Hcmp : forall o f v, P (Comparison o f v))
  (Hin : forall f vs, P (In f vs))
  (Hnull : forall f, P (IsNull f)) (Hnotnull : forall f, P (IsNotNull f)).

Fixpoint ind' (f : ResolvedFilter) : P f :=
  let all := fix all (l : list ResolvedFilter) : Forall P l :=
    match l with
    | [] => Forall_nil_2 P
    | x :: l' => Forall_cons_2 P x l' (ind' x) (all l')
    end in
  match f with
  | And args => Hand args (all args)
  | Or args => Hor args (all args)
  | Not arg => Hnot arg (ind' arg)
  | Comparison o f v => Hcmp o f v
  | In f vs => Hin f vs
  | IsNull f => Hnull f
  | IsNotNull f => Hnotnull f
  end.
End induction.
End ResolvedFilter.
Abbreviation ResolvedFilter := ResolvedFilter.ResolvedFilter.

Record ValidatedQuery : Type := {
  vq_model : Model;
  vq_dimensions : list ResolvedDimension;
  vq_metrics : list ResolvedMetric;
  vq_filter : option ResolvedFilter;
  vq_order_by : list OrderBy;
  vq_relationships : list (string * Relationship);
  vq_aggregation_anchor : option Field;
  vq_limit : N;
}.

(** ** Validation *)

(** Errors of this section. *)
Abbreviation V A := (result CompileError A).

Definition resolve_field (model : Model) (name : string) : V Field :=
  ok_or (List.find (fun f => bool_decide (Field.semantic_name f = name)) (Model.fields model))
    (CompileError.UnknownField name).

Definition record_relationship (field : Field) (relationships : list string) : list string :=
  match Field.relationship field with
  | Some relationship => bs_insert relationship relationships
  | None => relationships
  end.

Definition visible_field (model : Model) (name : string) : V Field :=
  field ← resolve_field model name;
  fail_if (negb (Field.visible field)) (CompileError.HiddenField name);;
  Ok field.

Definition literal_compatible (data_type : DataType) (literal : Literal) : bool :=
  match data_type, literal with
  | DataType.Boolean, Literal.Boolean _
  | DataType.Integer, Literal.Integer _
  | DataType.Numeric, (Literal.Integer _ | Literal.Numeric _)
  | DataType.Text, Literal.Text _
  | DataType.Date, Literal.Date _
  | DataType.Timestamp, Literal.Timestamp _
  | DataType.TimestampTz, (Literal.Date _ | Literal.Timestamp _) => true
  | _, _ => false
  end.

Definition validate_literal (field : Field) (literal : Literal) : V unit :=
  if literal_compatible (Field.data_type field) literal then Ok tt
  else Err (CompileError.LiteralTypeMismatch (Field.semantic_name field)).

Definition resolve_comparison (model : Model) (field : string) (value : Literal)
    (operator : ComparisonOperator) (relationships : list string)
    : V (ResolvedFilter * list string) :=
  resolved ← visible_field model field;
  validate_literal resolved value;;
  Ok (ResolvedFilter.Comparison operator resolved value,
      record_relationship resolved relationships).

Fixpoint resolve_filter (model : Model) (filter : Filter) (relationships : list string)
    : V (ResolvedFilter * list string) :=
  match filter with
  | Filter.And args =>
      '(resolved, relationships) ←
        try_map_st (fun rels arg => resolve_filter model arg rels) relationships args;
      Ok (ResolvedFilter.And resolved, relationships)
  | Filter.Or args =>
      '(resolved, relationships) ←
        try_map_st (fun rels arg => resolve_filter model arg rels) relationships args;
      Ok (ResolvedFilter.Or resolved, relationships)
  | Filter.Not arg =>
      '(resolved, relationships) ← resolve_filter model arg relationships;
      Ok (ResolvedFilter.Not resolved, relationships)
  | Filter.Eq field value =>
      resolve_comparison model field value ComparisonOperator.Eq relationships
  | Filter.NotEq field value =>
      resolve_comparison model field value ComparisonOperator.NotEq relationships
  | Filter.Gt field value =>
      resolve_comparison model field value ComparisonOperator.Gt relationships
  | Filter.Gte field value =>
      resolve_comparison model field value ComparisonOperator.Gte relationships
  | Filter.Lt field value =>
      resolve_comparison model field value ComparisonOperator.Lt relationships
  | Filter.Lte field value =>
      resolve_comparison model field value ComparisonOperator.Lte relationships
  | Filter.In field values =>
      resolved ← visible_field model field;
      try_each (validate_literal resolved) values;;
      Ok (ResolvedFilter.In resolved values, record_relationship resolved relationships)
  | Filter.IsNull field =>
      resolved ← visible_field model field;
      Ok (ResolvedFilter.IsNull resolved, record_relationship resolved relationships)
  | Filter.IsNotNull field =>
      resolved ← visible_field model field;
      Ok (ResolvedFilter.IsNotNull resolved, record_relationship resolved relationships)
  end.

Definition is_temporal (d : DataType) : bool :=
  match d with
  | DataType.Date | DataType.Timestamp | DataType.TimestampTz => true
  | _ => false
  end.

(** The closure of [validate] over [query.dimensions]. *)
Definition resolve_dimension (model : Model) (required : list string) (dimension : Dimension)
    : V (ResolvedDimension * list string) :=
  field ← resolve_field model (Dimension.field dimension);
  fail_if (negb (Field.visible field)) (CompileError.HiddenField (Dimension.field dimension));;
  fail_if (bool_decide (is_Some (Dimension.time_grain dimension))
           && (negb (Field.time_dimension field) || negb (is_temporal (Field.data_type field))))
    (CompileError.InvalidTimeGrain (Dimension.field dimension));;
  Ok ({| rd_field := field; rd_time_grain := Dimension.time_grain dimension |},
      record_relationship field required).

Definition expected_metric_type (aggregation : Aggregation) (field_type : DataType) : DataType :=
  match aggregation with
  | Aggregation.Count | Aggregation.CountDistinct => DataType.Integer
  | Aggregation.Avg => DataType.Numeric
  | Aggregation.Sum =>
      if decide (field_type = DataType.Integer) then DataType.Numeric else field_type
  | Aggregation.Min | Aggregation.Max => field_type
  end.

(** The closure of [validate] over [query.metrics]. *)
Definition resolve_metric (snapshot : SemanticSnapshot) (model : Model)
    (required : list string) (reference : MetricReference)
    : V (ResolvedMetric * list string) :=
  metric ← ok_or
    (List.find (fun m => bool_decide (Metric.semantic_name m = MetricReference.metric reference))
       (Model.metrics model))
    (CompileError.UnknownMetric (MetricReference.metric reference));
  let name := Metric.semantic_name metric in
  fail_if (negb (Metric.visible metric))
    (CompileError.HiddenMetric (MetricReference.metric reference));;
  field ← map_err (fun _ => CompileError.InvalidMetricField name)
            (resolve_field model (Metric.field metric));
  fail_if (bool_decide (is_Some (Field.relationship field)))
    (CompileError.JoinedMetricField name);;
  fail_if (bool_decide (Metric.aggregation metric = Aggregation.Count)
           && negb (Field.entity_key field))
    (CompileError.CountRequiresEntityKey name);;
  fail_if (bool_decide (Metric.aggregation metric = Aggregation.CountDistinct)
           && negb (Field.entity_key field))
    (CompileError.CountDistinctRequiresEntityKey name);;
  fail_if (bool_decide (Metric.data_type metric
             <> expected_metric_type (Metric.aggregation metric) (Field.data_type field)))
    (CompileError.InvalidMetricType name);;
  let required := record_relationship field required in
  '(filter, required) ←
    match Metric.filter metric with
    | None => Ok (None, required)
    | Some filter =>
        filter_field ← map_err (fun _ => CompileError.InvalidMetricField name)
                         (resolve_field model (MetricFilter.field filter));
        validate_literal filter_field (MetricFilter.value filter);;
        Ok (Some (filter_field, MetricFilter.value filter),
            record_relationship filter_field required)
    end;
  fail_if (bool_decide (Snapshot.schema_version snapshot = "1")
           && (bool_decide (is_Some (Metric.additivity metric))
               || bool_decide (is_Some (Metric.aggregation_anchor metric))))
    (CompileError.InvalidAggregationAnchor name);;
  fail_if (bool_decide (Snapshot.schema_version snapshot = "2")
           && bool_decide (Metric.additivity metric = None))
    (CompileError.MissingMetricMetadata name);;
  aggregation_anchor ← transpose (fun anchor =>
      anchor_field ← map_err (fun _ => CompileError.InvalidAggregationAnchor name)
                       (resolve_field model anchor);
      fail_if (bool_decide (is_Some (Field.relationship anchor_field))
               || negb (Field.entity_key anchor_field))
        (CompileError.InvalidAggregationAnchor name);;
      Ok anchor_field) (Metric.aggregation_anchor metric);
  Ok ({| rm_metric := metric; rm_field := field; rm_filter := filter;
         rm_aggregation_anchor := aggregation_anchor |}, required).

(** A direct entity key of the model, stored in the given column. *)
Definition has_entity_key (column : string) (fields : list Field) : bool :=
  existsb (fun f => bool_decide (Field.column f = column)
                    && bool_decide (Field.relationship f = None)
                    && Field.entity_key f) fields.

(** The closure of [validate] over the required relationship names. *)
Definition resolve_relationship (snapshot : SemanticSnapshot) (model : Model) (name : string)
    : V (string * Relationship) :=
  relationship ← ok_or
    (List.find (fun r => bool_decide (Relationship.semantic_name r = name))
       (Model.relationships model))
    (CompileError.UnknownRelationship name);
  fail_if (bool_decide (Relationship.cardinality relationship = Cardinality.ManyToMany))
    (CompileError.UnsafeRelationship name);;
  target_model ← ok_or
    (List.find (fun m => bool_decide (Model.semantic_name m
                                      = Relationship.target_model relationship))
       (Snapshot.models snapshot))
    (CompileError.InvalidRelationshipTarget (Relationship.semantic_name relationship));
  fail_if (bool_decide (Model.source target_model <> Relationship.target relationship))
    (CompileError.InvalidRelationshipTarget (Relationship.semantic_name relationship));;
  match Relationship.cardinality relationship with
  | Cardinality.ManyToOne | Cardinality.OneToOne =>
      fail_if (negb (has_entity_key (Relationship.to_column relationship)
                       (Model.fields target_model)))
        (CompileError.RelationshipTargetNotEntityKey
           (Relationship.semantic_name relationship))
  | Cardinality.OneToMany =>
      fail_if (negb (has_entity_key (Relationship.from_column relationship)
                       (Model.fields model)))
        (CompileError.InvalidAggregationAnchor (Relationship.semantic_name relationship))
  | Cardinality.ManyToMany => Err (CompileError.UnsafeRelationship name)
  end;;
  Ok (Relationship.semantic_name relationship, relationship).

(** The loop of [validate] that checks that fanned-out metrics share an anchor. *)
Definition check_fanout_metric (anchor : option Field) (metric : ResolvedMetric)
    : V (option Field) :=
  let name := Metric.semantic_name (rm_metric metric) in
  this ← ok_or (rm_aggregation_anchor metric) (CompileError.MissingAggregationAnchor name);
  fail_if (match rm_filter metric with
           | Some (field, _) => bool_decide (is_Some (Field.relationship field))
           | None => false
           end) (CompileError.JoinedMetricFilter name);;
  fail_if (bool_decide (Metric.additivity (rm_metric metric) = Some Additivity.SemiAdditive))
    (CompileError.UnsupportedFanoutAdditivity name);;
  fail_if (match anchor with
           | Some field => bool_decide (Field.semantic_name field <> Field.semantic_name this)
           | None => false
           end) CompileError.MixedAggregationAnchors;;
  Ok (Some this).

Definition is_fanout (r : Relationship) : bool :=
  bool_decide (Relationship.cardinality r = Cardinality.OneToMany).

Definition fanout_anchor (relationships : list (string * Relationship))
    (metrics : list ResolvedMetric) : V (option Field) :=
  match List.find is_fanout (map snd relationships) with
  | Some relationship =>
      fail_if (bool_decide (metrics = []))
        (CompileError.UnsafeRelationship (Relationship.semantic_name relationship));;
      try_fold check_fanout_metric None metrics
  | None => Ok None
  end.

Definition check_snapshot `{Crates} (snapshot : SemanticSnapshot) : V unit :=
  fail_if (negb (bool_decide (Snapshot.schema_version snapshot = "1")
                 || bool_decide (Snapshot.schema_version snapshot = "2")))
    (CompileError.UnsupportedSnapshotVersion (Snapshot.schema_version snapshot));;
  fail_if (negb (is_sha256 (Snapshot.revision_hash snapshot)))
    CompileError.InvalidRevisionHash;;
  calculated ← map_err (fun _ => CompileError.HashSerialization)
                 (calculate_revision_hash snapshot);
  fail_if (bool_decide (calculated <> Snapshot.revision_hash snapshot))
    CompileError.InvalidRevisionHash.

Definition validate `{Crates} (normalized : NormalizedLsq) (snapshot : SemanticSnapshot)
    (options : CompilerOptions) : V ValidatedQuery :=
  check_snapshot snapshot;;
  fail_if (bool_decide (default_limit options = 0%N) || bool_decide (hard_limit options = 0%N)
           || bool_decide (hard_limit options < default_limit options)%N)
    CompileError.InvalidLimitConfiguration;;
  let query := NormalizedLsq.query normalized in
  model ← ok_or
    (List.find (fun m => bool_decide (Model.semantic_name m = Lsq.model query)
                         && Model.queryable m) (Snapshot.models snapshot))
    CompileError.UnknownModel;
  let limit := default (default_limit options) (Lsq.limit query) in
  fail_if (bool_decide (hard_limit options < limit)%N) CompileError.LimitExceeded;;
  '(dimensions, required) ← try_map_st (resolve_dimension model) [] (Lsq.dimensions query);
  '(metrics, required) ←
    try_map_st (resolve_metric snapshot model) required (Lsq.metrics query);
  '(filter, required) ←
    match Lsq.filters query with
    | None => Ok (None, required)
    | Some filter =>
        '(resolved, required) ← resolve_filter model filter required;
        Ok (Some resolved, required)
    end;
  try_each (fun order_by =>
      fail_if (negb (bool_decide
                       (OrderBy.output_reference order_by ∈ bs_from_list (projection query))))
        (CompileError.UnknownOrderReference (OrderBy.output_reference order_by)))
    (Lsq.order_by query);;
  relationships ← bt_from_list <$> try_map (resolve_relationship snapshot model) required;
  aggregation_anchor ← fanout_anchor relationships metrics;
  Ok {| vq_model := model; vq_dimensions := dimensions; vq_metrics := metrics;
        vq_filter := filter; vq_order_by := Lsq.order_by query;
        vq_relationships := relationships; vq_aggregation_anchor := aggregation_anchor;
        vq_limit := limit |}.

(** ** Rendering *)

(** The mutable state of rendering: bound parameters and referenced columns. *)
Record RState : Type := {
  parameters : list CompiledParameter;
  source_columns : list string;
}.

Definition R (A : Type) : Type := RState -> result CompileError (A * RState).

#[export] Instance R_ret : MRet R := fun A a st => Ok (a, st).
#[export] Instance R_bind : MBind R :=
  fun A B f m st => match m st with Ok (a, st') => f a st' | Err e => Err e end.

Definition fail {A} (e : CompileError) : R A := fun _ => Err e.

Definition lift_option {A} (o : option A) (e : CompileError) : R A :=
  match o with Some a => mret a | None => fail e end.

(** [for x in l { .. push(f(x)?) }]. *)
Section map_R.
Context {A B : Type} (f : A -> R B).

Fixpoint map_R (l : list A) : R (list B) :=
  match l with
  | [] => mret []
  | a :: l' => b ← f a; k ← map_R l'; mret (b :: k)
  end.
End map_R.

(** Elements with their position, as [iter().enumerate()]. *)
Definition enumerate {A} (l : list A) : list (nat * A) := imap pair l.

Definition find_parameter (data_type : DataType) (value : Literal)
    (ps : list CompiledParameter) : option CompiledParameter :=
  List.find (fun p => bool_decide (CompiledParameter.data_type p = data_type)
                      && bool_decide (CompiledParameter.value p = value)) ps.

Definition push_parameter (data_type : DataType) (value : Literal) : R nat := fun st =>
  match find_parameter data_type value (parameters st) with
  | Some existing => Ok (CompiledParameter.position existing, st)
  | None =>
      let position := length (parameters st) + 1 in
      Ok (position,
          {| parameters := parameters st
               ++ [CompiledParameter.mk position data_type value];
             source_columns := source_columns st |})
  end.

Definition literal_type (literal : Literal) : DataType :=
  match literal with
  | Literal.Text _ => DataType.Text
  | Literal.Boolean _ => DataType.Boolean
  | Literal.Integer _ => DataType.Integer
  | Literal.Numeric _ => DataType.Numeric
  | Literal.Date _ => DataType.Date
  | Literal.Timestamp _ => DataType.TimestampTz
  end.

Definition push_literal (value : Literal) : R nat := push_parameter (literal_type value) value.

Definition insert_column (column : string) : R unit := fun st =>
  Ok (tt, {| parameters := parameters st;
             source_columns := bs_insert column (source_columns st) |}).

Definition postgres_type (data_type : DataType) : string :=
  match data_type with
  | DataType.Boolean => "boolean"
  | DataType.Integer => "bigint"
  | DataType.Numeric => "numeric"
  | DataType.Text => "text"
  | DataType.Date => "date"
  | DataType.Timestamp => "timestamp"
  | DataType.TimestampTz => "timestamptz"
  end.

Definition render_parameter (position : nat) (data_type : DataType) : string :=
  if decide (data_type = DataType.Text) then "$" +:+ pretty position +:+ "::text"
  else "$" +:+ pretty position +:+ "::text::" +:+ postgres_type data_type.

Definition comparison_operator (operator : ComparisonOperator) : string :=
  match operator with
  | ComparisonOperator.Eq => "="
  | ComparisonOperator.NotEq => "<>"
  | ComparisonOperator.Gt => ">"
  | ComparisonOperator.Gte => ">="
  | ComparisonOperator.Lt => "<"
  | ComparisonOperator.Lte => "<="
  end.

Definition time_grain (grain : TimeGrain) : string :=
  match grain with
  | TimeGrain.Day => "day"
  | TimeGrain.Week => "week"
  | TimeGrain.Month => "month"
  | TimeGrain.Quarter => "quarter"
  | TimeGrain.Year => "year"
  end.

Definition source_column (relation : Relation) (column : string) : string :=
  Relation.schema relation +:+ "." +:+ Relation.relation relation +:+ "." +:+ column.

(** Aliases of the joined relations, [t1], [t2], ... in the order of the map. *)
Abbreviation Aliases := (list (string * string)).

Definition render_field (model : Model) (field : Field) (aliases : Aliases) : R string :=
  '(alias, relation) ←
    match Field.relationship field with
    | Some name =>
        relationship ← lift_option
          (List.find (fun r => bool_decide (Relationship.semantic_name r = name))
             (Model.relationships model))
          (CompileError.UnknownRelationship name);
        alias ← lift_option (bt_get name aliases) (CompileError.UnknownRelationship name);
        mret (alias, Relationship.target relationship)
    | None => mret ("t0", Model.source model)
    end;
  insert_column (source_column relation (Field.column field));;
  mret (alias +:+ "." +:+ quote_identifier (Field.column field)).

Definition is_date (l : Literal) : bool :=
  match l with Literal.Date _ => true | _ => false end.

Definition render_comparison (model : Model) (operator : ComparisonOperator) (field : Field)
    (value : Literal) (aliases : Aliases) : R string :=
  let field_type := Field.data_type field in
  rendered_field ← render_field model field aliases;
  if bool_decide (field_type = DataType.TimestampTz) && is_date value then
    timezone ← lift_option (Model.timezone model)
                 (CompileError.MissingTimezone (Field.semantic_name field));
    timezone_position ← push_parameter DataType.Text (Literal.Text timezone);
    value_position ← push_literal value;
    mret (rendered_field +:+ " " +:+ comparison_operator operator +:+ " timezone($"
          +:+ pretty timezone_position +:+ "::text, $" +:+ pretty value_position
          +:+ "::text::date::timestamp)")
  else
    position ← push_parameter field_type value;
    mret (rendered_field +:+ " " +:+ comparison_operator operator +:+ " "
          +:+ render_parameter position field_type).

Fixpoint render_filter (model : Model) (filter : ResolvedFilter) (aliases : Aliases)
    : R string :=
  let render_logical args operator :=
    rendered ← map_R (fun arg => render_filter model arg aliases) args;
    mret ("(" +:+ join (" " +:+ operator +:+ " ") rendered +:+ ")") in
  match filter with
  | ResolvedFilter.And args => render_logical args "AND"
  | ResolvedFilter.Or args => render_logical args "OR"
  | ResolvedFilter.Not arg =>
      rendered ← render_filter model arg aliases;
      mret ("NOT (" +:+ rendered +:+ ")")
  | ResolvedFilter.Comparison operator field value =>
      render_comparison model operator field value aliases
  | ResolvedFilter.In field values =>
      let field_type := Field.data_type field in
      rendered_field ← render_field model field aliases;
      placeholders ← map_R (fun value =>
          position ← push_parameter field_type value;
          mret (render_parameter position field_type)) values;
      mret (rendered_field +:+ " IN (" +:+ join ", " placeholders +:+ ")")
  | ResolvedFilter.IsNull field =>
      rendered_field ← render_field model field aliases;
      mret (rendered_field +:+ " IS NULL")
  | ResolvedFilter.IsNotNull field =>
      rendered_field ← render_field model field aliases;
      mret (rendered_field +:+ " IS NOT NULL")
  end.

Definition render_dimension (model : Model) (dimension : ResolvedDimension)
    (aliases : Aliases) : R string :=
  let field := rd_field dimension in
  rendered ← render_field model field aliases;
  match rd_time_grain dimension with
  | Some grain =>
      if decide (Field.data_type field = DataType.TimestampTz) then
        timezone ← lift_option (Model.timezone model)
                     (CompileError.MissingTimezone (Field.semantic_name field));
        position ← push_parameter DataType.Text (Literal.Text timezone);
        mret ("date_trunc('" +:+ time_grain grain +:+ "', timezone($" +:+ pretty position
              +:+ "::text, " +:+ rendered +:+ "))::date")
      else mret ("date_trunc('" +:+ time_grain grain +:+ "', " +:+ rendered +:+ ")::date")
  | None => mret rendered
  end.

Definition aggregate_call (aggregation : Aggregation) (field : string) : string :=
  match aggregation with
  | Aggregation.Count => "count(" +:+ field +:+ ")"
  | Aggregation.CountDistinct => "count(DISTINCT " +:+ field +:+ ")"
  | Aggregation.Sum => "sum(" +:+ field +:+ ")"
  | Aggregation.Min => "min(" +:+ field +:+ ")"
  | Aggregation.Max => "max(" +:+ field +:+ ")"
  | Aggregation.Avg => "avg(" +:+ field +:+ ")"
  end.

Definition render_metric (model : Model) (metric : ResolvedMetric) (aliases : Aliases)
    : R string :=
  field ← render_field model (rm_field metric) aliases;
  let aggregate := aggregate_call (Metric.aggregation (rm_metric metric)) field in
  match rm_filter metric with
  | Some (filter_field, value) =>
      filter_expression ← render_field model filter_field aliases;
      position ← push_parameter (Field.data_type filter_field) value;
      mret (aggregate +:+ " FILTER (WHERE " +:+ filter_expression +:+ " = "
            +:+ render_parameter position (Field.data_type filter_field) +:+ ")")
  | None => mret aggregate
  end.

Definition render_anchor_metric_input (model : Model) (metric : ResolvedMetric)
    (aliases : Aliases) : R string :=
  field ← render_field model (rm_field metric) aliases;
  match rm_filter metric with
  | Some (filter_field, value) =>
      filter_expression ← render_field model filter_field aliases;
      position ← push_parameter (Field.data_type filter_field) value;
      mret ("max(CASE WHEN " +:+ filter_expression +:+ " = "
            +:+ render_parameter position (Field.data_type filter_field)
            +:+ " THEN " +:+ field +:+ " END)")
  | None => mret ("max(" +:+ field +:+ ")")
  end.

Definition internal_name (prefix : string) (index : nat) : string :=
  quote_identifier (prefix +:+ pretty index).

Definition render_outer_metric (aggregation : Aggregation) (index : nat) : string :=
  aggregate_call aggregation ("a." +:+ internal_name "__m" index).

Definition positional_group_by (count start : nat) : string :=
  join ", " (map pretty (seq start count)).

Definition join_keyword (j : JoinType) : string :=
  match j with JoinType.Inner => "INNER JOIN" | JoinType.Left => "LEFT JOIN" end.

Definition render_join (source : Relation) (aliases : Aliases)
    (binding : string * Relationship) : R string :=
  let '(name, relationship) := binding in
  alias ← lift_option (bt_get name aliases) (CompileError.UnknownRelationship name);
  insert_column (source_column source (Relationship.from_column relationship));;
  insert_column (source_column (Relationship.target relationship)
                   (Relationship.to_column relationship));;
  mret (nl +:+ join_keyword (Relationship.join_type relationship) +:+ " "
        +:+ quote_identifier (Relation.schema (Relationship.target relationship)) +:+ "."
        +:+ quote_identifier (Relation.relation (Relationship.target relationship))
        +:+ " AS " +:+ alias +:+ " ON t0."
        +:+ quote_identifier (Relationship.from_column relationship) +:+ " = " +:+ alias
        +:+ "." +:+ quote_identifier (Relationship.to_column relationship)).

Definition render_from_joins_and_filter (validated : ValidatedQuery) (aliases : Aliases)
    : R string :=
  let source := Model.source (vq_model validated) in
  let sql := "FROM " +:+ quote_identifier (Relation.schema source) +:+ "."
             +:+ quote_identifier (Relation.relation source) +:+ " AS t0" in
  joins ← map_R (render_join source aliases) (vq_relationships validated);
  let sql := sql +:+ join EmptyString joins in
  match vq_filter validated with
  | Some filter =>
      predicate ← render_filter (vq_model validated) filter aliases;
      mret (sql +:+ nl +:+ "WHERE " +:+ predicate)
  | None => mret sql
  end.

(** [GROUP BY 1, .., n] when there are dimensions. *)
Definition group_by_clause (validated : ValidatedQuery) : string :=
  if decide (vq_dimensions validated = []) then EmptyString
  else nl +:+ "GROUP BY " +:+ positional_group_by (length (vq_dimensions validated)) 1.

Definition render_flat_sql (validated : ValidatedQuery) (aliases : Aliases) : R string :=
  dimensions ← map_R (fun dimension =>
      expression ← render_dimension (vq_model validated) dimension aliases;
      mret (expression +:+ " AS "
            +:+ quote_identifier (Field.semantic_name (rd_field dimension))))
    (vq_dimensions validated);
  metrics ← map_R (fun metric =>
      expression ← render_metric (vq_model validated) metric aliases;
      mret (expression +:+ " AS "
            +:+ quote_identifier (Metric.semantic_name (rm_metric metric))))
    (vq_metrics validated);
  from ← render_from_joins_and_filter validated aliases;
  mret ("SELECT " +:+ join ", " (dimensions ++ metrics) +:+ nl +:+ from
        +:+ group_by_clause validated).

Definition anchor_groups : string := dq +:+ "__postgresem_anchor_groups" +:+ dq.

Definition render_anchored_sql (validated : ValidatedQuery) (anchor : Field)
    (aliases : Aliases) : R string :=
  inner_dimensions ← map_R (fun '(index, dimension) =>
      expression ← render_dimension (vq_model validated) dimension aliases;
      mret (expression +:+ " AS " +:+ internal_name "__d" index))
    (enumerate (vq_dimensions validated));
  rendered_anchor ← render_field (vq_model validated) anchor aliases;
  inner_metrics ← map_R (fun '(index, metric) =>
      expression ← render_anchor_metric_input (vq_model validated) metric aliases;
      mret (expression +:+ " AS " +:+ internal_name "__m" index))
    (enumerate (vq_metrics validated));
  from ← render_from_joins_and_filter validated aliases;
  let inner_select := inner_dimensions
    ++ [rendered_anchor +:+ " AS " +:+ dq +:+ "__anchor" +:+ dq] ++ inner_metrics in
  let inner_group_count := length (vq_dimensions validated) + 1 in
  let outer_select :=
    map (fun '(index, dimension) =>
           "a." +:+ internal_name "__d" index +:+ " AS "
           +:+ quote_identifier (Field.semantic_name (rd_field dimension)))
      (enumerate (vq_dimensions validated))
    ++ map (fun '(index, metric) =>
              render_outer_metric (Metric.aggregation (rm_metric metric)) index +:+ " AS "
              +:+ quote_identifier (Metric.semantic_name (rm_metric metric)))
         (enumerate (vq_metrics validated)) in
  let indented_from := replace_char newline (nl +:+ "  ") from in
  mret ("WITH " +:+ anchor_groups +:+ " AS (" +:+ nl
        +:+ "  SELECT " +:+ join ", " inner_select +:+ nl
        +:+ "  " +:+ indented_from +:+ nl
        +:+ "  GROUP BY " +:+ positional_group_by inner_group_count 1 +:+ nl
        +:+ ")" +:+ nl
        +:+ "SELECT " +:+ join ", " outer_select +:+ nl
        +:+ "FROM " +:+ anchor_groups +:+ " AS a" +:+ group_by_clause validated).

Definition order_keyword (d : SortDirection) : string :=
  match d with SortDirection.Asc => "ASC" | SortDirection.Desc => "DESC" end.

Definition append_order_and_limit (sql : string) (validated : ValidatedQuery) : R string :=
  let sql :=
    if decide (vq_order_by validated = []) then sql
    else sql +:+ nl +:+ "ORDER BY "
         +:+ join ", " (map (fun order => quote_identifier (OrderBy.output_reference order)
                                          +:+ " " +:+ order_keyword (OrderBy.direction order))
                          (vq_order_by validated)) in
  limit_position ← push_parameter DataType.Integer
                     (Literal.Integer (Z.of_N (vq_limit validated)));
  mret (sql +:+ nl +:+ "LIMIT $" +:+ pretty limit_position +:+ "::text::bigint").

Definition relationship_aliases (validated : ValidatedQuery) : Aliases :=
  bt_from_list (map (fun '(index, name) => (name, "t" +:+ pretty (index + 1)))
                  (enumerate (vq_relationships validated).*1)).

Definition render_sql (validated : ValidatedQuery) : R string :=
  let aliases := relationship_aliases validated in
  sql ← match vq_aggregation_anchor validated with
        | Some anchor => render_anchored_sql validated anchor aliases
        | None => render_flat_sql validated aliases
        end;
  append_order_and_limit sql validated.

Definition output_schema (validated : ValidatedQuery) : list OutputColumn :=
  map (fun dimension =>
         OutputColumn.mk (Field.semantic_name (rd_field dimension))
           (if decide (is_Some (rd_time_grain dimension)) then DataType.Date
            else Field.data_type (rd_field dimension))) (vq_dimensions validated)
  ++ map (fun metric =>
            OutputColumn.mk (Metric.semantic_name (rm_metric metric))
              (Metric.data_type (rm_metric metric))) (vq_metrics validated).

Definition lineage_models (validated : ValidatedQuery) : list string :=
  dedup (sort_by kle (Model.semantic_name (vq_model validated)
                      :: map (fun b => Relationship.target_model (snd b))
                           (vq_relationships validated))).

Definition render `{Crates} (normalized : NormalizedLsq) (snapshot : SemanticSnapshot)
    (validated : ValidatedQuery) : V CompiledQuery :=
  '(sql, st) ← render_sql validated {| parameters := []; source_columns := [] |};
  let sql_hash := sha256 sql in
  parameter_hash_input ← map_err (fun _ => CompileError.HashSerialization)
    (json_to_string (JArr (map CompiledParameter.to_json (parameters st))));
  Ok {| CompiledQuery.sql := sql;
        CompiledQuery.parameters := parameters st;
        CompiledQuery.output_schema := output_schema validated;
        CompiledQuery.lineage :=
          {| Lineage.models := lineage_models validated;
             Lineage.metrics := map (fun m => Metric.semantic_name (rm_metric m))
                                  (vq_metrics validated);
             Lineage.aggregation_anchors :=
               omap (fun m => (fun a => {| anchor_metric := Metric.semantic_name (rm_metric m);
                                           anchor_field := Field.semantic_name a |})
                                <$> rm_aggregation_anchor m) (vq_metrics validated);
             Lineage.relationships := (vq_relationships validated).*1;
             Lineage.source_columns := source_columns st |};
        CompiledQuery.query_hash :=
          sha256 (NormalizedLsq.hash normalized +:+ "|" +:+ Snapshot.revision_hash snapshot
                  +:+ "|" +:+ COMPILER_SEMANTIC_VERSION +:+ "|" +:+ sql_hash
                  +:+ "|" +:+ parameter_hash_input);
        CompiledQuery.sql_hash := sql_hash |}.

Definition compile_lsq `{Crates} (normalized : NormalizedLsq) (snapshot : SemanticSnapshot)
    (options : CompilerOptions) : V CompiledQuery :=
  validated ← validate normalized snapshot options;
  render normalized snapshot validated.
