(* ===== verification/CompilerSpec.v ===== *)
(** * What a validated query guarantees

    Every object a validated query mentions exists in the snapshot, is visible
    and well typed, every join it needs is safe, and fan-out aggregation is
    anchored.

    The second part is a logic for the columns that rendering reads. *)

From S2P Require Import Prelude Ordered Text Json Lsq LsqSpec Semantic Compiler.

(** ** Generic inversions *)

Lemma find_elem {A} (p : A -> bool) l x : List.find p l = Some x -> x ∈ l /\ p x = true.
Proof. intros [H1 H2]%List.find_some. split; [by apply list_elem_of_In|done]. Qed.

Lemma existsb_elem {A} (p : A -> bool) l : existsb p l = true <-> exists x, x ∈ l /\ p x = true.
Proof. rewrite existsb_exists. by setoid_rewrite list_elem_of_In. Qed.

Section try_map_st.
Context {E S A B : Type} (f : S -> A -> result E (B * S)).

(** A threaded map succeeds element by element; [P] relates an element to its
    image, [Q] accumulates what the state has recorded. *)
Lemma try_map_st_ind (P : A -> B -> Prop) (Q : S -> list B -> S -> Prop) :
  (forall s, Q s [] s) ->
  (forall s a b s1 bs s2, P a b -> f s a = Ok (b, s1) -> Q s1 bs s2 -> Q s (b :: bs) s2) ->
  forall l s bs s',
    (forall s a b s1, a ∈ l -> f s a = Ok (b, s1) -> P a b) ->
    try_map_st f s l = Ok (bs, s') -> Forall2 P l bs /\ Q s bs s'.
Proof.
  intros Hnil Hcons l. induction l as [|a l IH]; intros s bs s' Hf H; simpl in H.
  - unbind. simplify_eq. split; [constructor|apply Hnil].
  - apply bind_ok in H as ([b s1] & Ha & H). apply bind_ok in H as ([k s2] & Hl & H).
    simplify_eq. assert (P a b) by (eapply Hf; [left|done]).
    destruct (IH s1 k s') as [H1 H2]; [by intros; eapply Hf; [right|]|done|].
    split; [by constructor|]. by eapply Hcons.
Qed.
End try_map_st.

(** ** Recorded relationships *)

(** Relationship [r] is needed to reach one of the fields. *)
Definition needs (fs : list Field) (r : string) : Prop :=
  exists f, f ∈ fs /\ Field.relationship f = Some r.

(** [rels'] is [rels] with the relationships the fields need. *)
Definition recorded (rels : list string) (fs : list Field) (rels' : list string) : Prop :=
  (forall r, r ∈ rels' <-> r ∈ rels \/ needs fs r) /\ (bs_wf rels -> bs_wf rels').

Lemma needs_nil r : ~ needs [] r.
Proof. by intros (f & ?%not_elem_of_nil & _). Qed.

Lemma needs_app fs gs r : needs (fs ++ gs) r <-> needs fs r \/ needs gs r.
Proof. unfold needs. setoid_rewrite elem_of_app. naive_solver. Qed.

Lemma needs_one f r : needs [f] r <-> Field.relationship f = Some r.
Proof. unfold needs. setoid_rewrite list_elem_of_singleton. naive_solver. Qed.

Lemma recorded_nil rels : recorded rels [] rels.
Proof. split; [|done]. intros r. pose proof (needs_nil r). naive_solver. Qed.

Lemma recorded_app rels fs rels1 gs rels2 :
  recorded rels fs rels1 -> recorded rels1 gs rels2 -> recorded rels (fs ++ gs) rels2.
Proof.
  intros [H1 W1] [H2 W2]. split; [|auto]. intros r. rewrite needs_app, H2, H1. tauto.
Qed.

Lemma record_relationship_recorded f rels : recorded rels [f] (record_relationship f rels).
Proof.
  unfold record_relationship. split.
  - intros r. rewrite needs_one. destruct (Field.relationship f) as [r'|].
    + rewrite elem_of_bs_insert. naive_solver.
    + naive_solver.
  - destruct (Field.relationship f); auto using bs_insert_wf.
Qed.

(** ** Fields *)

Lemma resolve_field_ok model name f :
  resolve_field model name = Ok f ->
  f ∈ Model.fields model /\ Field.semantic_name f = name.
Proof. unfold resolve_field. intros H. unbind. apply find_elem in H as [? ?]. by unbind. Qed.

Lemma visible_field_ok model name f :
  visible_field model name = Ok f ->
  f ∈ Model.fields model /\ Field.semantic_name f = name /\ Field.visible f = true.
Proof.
  unfold visible_field. intros H. unbind.
  match goal with H : resolve_field _ _ = Ok _ |- _ => apply resolve_field_ok in H as [? ?] end.
  done.
Qed.

Lemma validate_literal_ok f l u :
  validate_literal f l = Ok u -> literal_compatible (Field.data_type f) l = true.
Proof. unfold validate_literal. by destruct (literal_compatible _ _). Qed.

(** ** Dimensions *)

Record dimension_ok (model : Model) (d : Dimension) (rd : ResolvedDimension) : Prop := {
  do_field : rd_field rd ∈ Model.fields model;
  do_name : Field.semantic_name (rd_field rd) = Dimension.field d;
  do_visible : Field.visible (rd_field rd) = true;
  do_grain : rd_time_grain rd = Dimension.time_grain d;
  do_temporal : is_Some (rd_time_grain rd) ->
    Field.time_dimension (rd_field rd) = true /\ is_temporal (Field.data_type (rd_field rd)) = true;
}.

Lemma resolve_dimension_ok model rels d rd rels' :
  resolve_dimension model rels d = Ok (rd, rels') ->
  dimension_ok model d rd /\ recorded rels [rd_field rd] rels'.
Proof.
  unfold resolve_dimension. intros H. unbind. simplify_eq.
  match goal with H : resolve_field _ _ = Ok _ |- _ => apply resolve_field_ok in H as [? ?] end.
  split; [|apply record_relationship_recorded]. constructor; try done. simpl.
  match goal with H : _ && _ = false |- _ => apply andb_false_iff in H as [Hg|Hg] end.
  - by apply bool_decide_eq_false in Hg.
  - apply orb_false_iff in Hg as [?%negb_false_iff ?%negb_false_iff]. done.
Qed.

(** ** Metrics *)

Definition metric_fields (m : ResolvedMetric) : list Field :=
  rm_field m :: match rm_filter m with Some (f, _) => [f] | None => [] end.

Definition counts (a : Aggregation) : Prop :=
  a = Aggregation.Count \/ a = Aggregation.CountDistinct.

Record metric_ok (snapshot : SemanticSnapshot) (model : Model) (r : MetricReference)
    (m : ResolvedMetric) : Prop := {
  mo_metric : rm_metric m ∈ Model.metrics model;
  mo_name : Metric.semantic_name (rm_metric m) = MetricReference.metric r;
  mo_visible : Metric.visible (rm_metric m) = true;
  mo_field : rm_field m ∈ Model.fields model;
  mo_field_name : Field.semantic_name (rm_field m) = Metric.field (rm_metric m);
  mo_direct : Field.relationship (rm_field m) = None;
  mo_entity_key : counts (Metric.aggregation (rm_metric m)) -> Field.entity_key (rm_field m) = true;
  mo_type : Metric.data_type (rm_metric m) =
    expected_metric_type (Metric.aggregation (rm_metric m)) (Field.data_type (rm_field m));
  mo_filter : match rm_filter m with
    | None => Metric.filter (rm_metric m) = None
    | Some (f, v) => f ∈ Model.fields model
        /\ Metric.filter (rm_metric m) = Some (MetricFilter.mk (Field.semantic_name f) v)
        /\ literal_compatible (Field.data_type f) v = true
    end;
  mo_anchor : match rm_aggregation_anchor m with
    | None => Metric.aggregation_anchor (rm_metric m) = None
    | Some a => a ∈ Model.fields model
        /\ Metric.aggregation_anchor (rm_metric m) = Some (Field.semantic_name a)
        /\ Field.relationship a = None /\ Field.entity_key a = true
    end;
  mo_legacy : Snapshot.schema_version snapshot = "1" ->
    Metric.additivity (rm_metric m) = None /\ Metric.aggregation_anchor (rm_metric m) = None;
  mo_metadata : Snapshot.schema_version snapshot = "2" ->
    is_Some (Metric.additivity (rm_metric m));
}.

(** The metric's own filter, as resolved. *)
Definition metric_filter_ok (model : Model) (mf : option MetricFilter)
    (rf : option (Field * Literal)) : Prop :=
  match rf with
  | None => mf = None
  | Some (f, v) => f ∈ Model.fields model
      /\ mf = Some (MetricFilter.mk (Field.semantic_name f) v)
      /\ literal_compatible (Field.data_type f) v = true
  end.

Lemma resolve_metric_filter_ok model name mf rels rf rels' :
  match mf with
  | None => Ok (None, rels)
  | Some filter =>
      filter_field ← map_err (fun _ => CompileError.InvalidMetricField name)
                       (resolve_field model (MetricFilter.field filter));
      validate_literal filter_field (MetricFilter.value filter);;
      Ok (Some (filter_field, MetricFilter.value filter),
          record_relationship filter_field rels)
  end = Ok (rf, rels') ->
  metric_filter_ok model mf rf
  /\ recorded rels match rf with Some (f, _) => [f] | None => [] end rels'.
Proof.
  destruct mf as [[fname v]|]; intros H; unbind; simplify_eq/=.
  - match goal with H : resolve_field _ _ = Ok _ |- _ => apply resolve_field_ok in H as [? <-] end.
    match goal with H : validate_literal _ _ = Ok _ |- _ => apply validate_literal_ok in H end.
    split; [done|]. apply record_relationship_recorded.
  - split; [done|apply recorded_nil].
Qed.

Lemma resolve_anchor_ok model name oa ra :
  transpose (fun anchor =>
      anchor_field ← map_err (fun _ => CompileError.InvalidAggregationAnchor name)
                       (resolve_field model anchor);
      fail_if (bool_decide (is_Some (Field.relationship anchor_field))
               || negb (Field.entity_key anchor_field))
        (CompileError.InvalidAggregationAnchor name);;
      Ok anchor_field) oa = Ok ra ->
  match ra with
  | None => oa = None
  | Some a => a ∈ Model.fields model /\ oa = Some (Field.semantic_name a)
      /\ Field.relationship a = None /\ Field.entity_key a = true
  end.
Proof.
  intros [[-> ->]|(n & a & -> & -> & H)]%transpose_ok; [done|]. unbind.
  match goal with H : resolve_field _ _ = Ok _ |- _ => apply resolve_field_ok in H as [? <-] end.
  split_and!; try done. by apply eq_None_not_Some.
Qed.

Lemma resolve_metric_ok snapshot model rels r m rels' :
  resolve_metric snapshot model rels r = Ok (m, rels') ->
  metric_ok snapshot model r m /\ recorded rels (metric_fields m) rels'.
Proof.
  unfold resolve_metric. intros H.
  apply bind_ok in H as (metric & Hm & H). apply ok_or_ok, find_elem in Hm as [Hm Hn].
  apply bool_decide_eq_true in Hn.
  apply bind_ok in H as (? & Hvis & H). apply fail_if_ok, negb_false_iff in Hvis.
  apply bind_ok in H as (field & Hf & H). apply map_err_ok, resolve_field_ok in Hf as [Hf Hfn].
  apply bind_ok in H as (? & Hdir & H). apply fail_if_ok, bool_decide_eq_false in Hdir.
  apply eq_None_not_Some in Hdir.
  apply bind_ok in H as (? & Hc & H). apply fail_if_ok, andb_false_iff in Hc.
  apply bind_ok in H as (? & Hcd & H). apply fail_if_ok, andb_false_iff in Hcd.
  apply bind_ok in H as (? & Hty & H). apply fail_if_ok, bool_decide_eq_false, dec_stable in Hty.
  apply bind_ok in H as ([rf rels1] & Hrf & H). apply resolve_metric_filter_ok in Hrf as [Hrf Hrec].
  apply bind_ok in H as (? & Hv1 & H). apply fail_if_ok, andb_false_iff in Hv1.
  apply bind_ok in H as (? & Hv2 & H). apply fail_if_ok, andb_false_iff in Hv2.
  apply bind_ok in H as (ra & Hra & H). apply resolve_anchor_ok in Hra.
  simplify_eq. split.
  - constructor; simpl; try done.
    + intros [He|He]; rewrite He in *.
      * destruct Hc as [Hc|Hc%negb_false_iff]; [by rewrite bool_decide_eq_true_2 in Hc|done].
      * destruct Hcd as [Hc'|Hc'%negb_false_iff]; [by rewrite bool_decide_eq_true_2 in Hc'|done].
    + intros Hs. rewrite orb_false_iff, !bool_decide_eq_false in Hv1.
      rewrite !eq_None_not_Some. naive_solver.
    + intros Hs. destruct Hv2 as [Hv2|Hv2]; apply bool_decide_eq_false in Hv2; [done|].
      by apply not_eq_None_Some.
  - unfold metric_fields. simpl. apply (recorded_app _ [field] (record_relationship field rels)).
    + apply record_relationship_recorded.
    + done.
Qed.

(** ** Filters *)

Fixpoint filter_fields (f : ResolvedFilter) : list Field :=
  match f with
  | ResolvedFilter.And args | ResolvedFilter.Or args => concat (map filter_fields args)
  | ResolvedFilter.Not arg => filter_fields arg
  | ResolvedFilter.Comparison _ field _ | ResolvedFilter.In field _
  | ResolvedFilter.IsNull field | ResolvedFilter.IsNotNull field => [field]
  end.

(** Every field is a visible field of the model and every literal fits it. *)
Inductive filter_resolved (model : Model) : ResolvedFilter -> Prop :=
| FR_And args : Forall (filter_resolved model) args -> filter_resolved model (ResolvedFilter.And args)
| FR_Or args : Forall (filter_resolved model) args -> filter_resolved model (ResolvedFilter.Or args)
| FR_Not arg : filter_resolved model arg -> filter_resolved model (ResolvedFilter.Not arg)
| FR_Comparison o f v :
    f ∈ Model.fields model -> Field.visible f = true ->
    literal_compatible (Field.data_type f) v = true ->
    filter_resolved model (ResolvedFilter.Comparison o f v)
| FR_In f vs :
    f ∈ Model.fields model -> Field.visible f = true ->
    Forall (fun v => literal_compatible (Field.data_type f) v = true) vs ->
    filter_resolved model (ResolvedFilter.In f vs)
| FR_IsNull f : f ∈ Model.fields model -> Field.visible f = true ->
    filter_resolved model (ResolvedFilter.IsNull f)
| FR_IsNotNull f : f ∈ Model.fields model -> Field.visible f = true ->
    filter_resolved model (ResolvedFilter.IsNotNull f).

(** The resolved filter is the requested one, with its fields looked up. *)
Inductive filter_denotes : Filter -> ResolvedFilter -> Prop :=
| FD_And args rs : Forall2 filter_denotes args rs ->
    filter_denotes (Filter.And args) (ResolvedFilter.And rs)
| FD_Or args rs : Forall2 filter_denotes args rs ->
    filter_denotes (Filter.Or args) (ResolvedFilter.Or rs)
| FD_Not f r : filter_denotes f r -> filter_denotes (Filter.Not f) (ResolvedFilter.Not r)
| FD_Eq f v : filter_denotes (Filter.Eq (Field.semantic_name f) v)
    (ResolvedFilter.Comparison ComparisonOperator.Eq f v)
| FD_NotEq f v : filter_denotes (Filter.NotEq (Field.semantic_name f) v)
    (ResolvedFilter.Comparison ComparisonOperator.NotEq f v)
| FD_Gt f v : filter_denotes (Filter.Gt (Field.semantic_name f) v)
    (ResolvedFilter.Comparison ComparisonOperator.Gt f v)
| FD_Gte f v : filter_denotes (Filter.Gte (Field.semantic_name f) v)
    (ResolvedFilter.Comparison ComparisonOperator.Gte f v)
| FD_Lt f v : filter_denotes (Filter.Lt (Field.semantic_name f) v)
    (ResolvedFilter.Comparison ComparisonOperator.Lt f v)
| FD_Lte f v : filter_denotes (Filter.Lte (Field.semantic_name f) v)
    (ResolvedFilter.Comparison ComparisonOperator.Lte f v)
| FD_In f vs : filter_denotes (Filter.In (Field.semantic_name f) vs) (ResolvedFilter.In f vs)
| FD_IsNull f : filter_denotes (Filter.IsNull (Field.semantic_name f)) (ResolvedFilter.IsNull f)
| FD_IsNotNull f :
    filter_denotes (Filter.IsNotNull (Field.semantic_name f)) (ResolvedFilter.IsNotNull f).

Lemma resolve_comparison_denotes model name v o rels rf rels' :
  resolve_comparison model name v o rels = Ok (rf, rels') ->
  exists f, Field.semantic_name f = name /\ rf = ResolvedFilter.Comparison o f v.
Proof.
  unfold resolve_comparison. intros H. unbind. simplify_eq.
  match goal with H : visible_field _ _ = Ok _ |- _ => apply visible_field_ok in H as (? & ? & ?) end.
  eauto.
Qed.

Lemma resolve_args_denotes model args rels rfs rels' :
  Forall (fun f => forall rels rf rels', resolve_filter model f rels = Ok (rf, rels') ->
            filter_denotes f rf) args ->
  try_map_st (fun rels arg => resolve_filter model arg rels) rels args = Ok (rfs, rels') ->
  Forall2 filter_denotes args rfs.
Proof.
  intros IH. revert rels rfs. induction IH as [|f args Hf _ IH]; intros rels rfs H; simpl in H.
  - by simplify_eq.
  - apply bind_ok in H as ([b s1] & Hb & H). apply bind_ok in H as ([k s2] & Hk & H).
    simplify_eq. constructor; eauto.
Qed.

Lemma resolve_filter_denotes model f : forall rels rf rels',
  resolve_filter model f rels = Ok (rf, rels') -> filter_denotes f rf.
Proof.
  induction f as [args IH|args IH|f IH| | | | | | |fn vs|fn|fn] using Filter.ind';
    intros rels rf rels'; cbn [resolve_filter]; intros H;
    try (apply resolve_comparison_denotes in H as (fd & <- & ->); constructor).
  - apply bind_ok in H as ([rfs s1] & Ha & H). simplify_eq. constructor.
    by eapply resolve_args_denotes.
  - apply bind_ok in H as ([rfs s1] & Ha & H). simplify_eq. constructor.
    by eapply resolve_args_denotes.
  - apply bind_ok in H as ([rf1 s1] & Ha & H). simplify_eq. constructor. eauto.
  - apply bind_ok in H as (fd & (_ & <- & _)%visible_field_ok & H).
    apply bind_ok in H as (? & _ & H). simplify_eq. constructor.
  - apply bind_ok in H as (fd & (_ & <- & _)%visible_field_ok & H). simplify_eq. constructor.
  - apply bind_ok in H as (fd & (_ & <- & _)%visible_field_ok & H). simplify_eq. constructor.
Qed.

Lemma resolve_comparison_ok model name v o rels rf rels' :
  resolve_comparison model name v o rels = Ok (rf, rels') ->
  filter_resolved model rf /\ recorded rels (filter_fields rf) rels'.
Proof.
  unfold resolve_comparison. intros H. unbind. simplify_eq.
  match goal with H : visible_field _ _ = Ok _ |- _ => apply visible_field_ok in H as (? & ? & ?) end.
  match goal with H : validate_literal _ _ = Ok _ |- _ => apply validate_literal_ok in H end.
  split; [by constructor|apply record_relationship_recorded].
Qed.

Lemma resolve_args_ok model args rels rfs rels' :
  Forall (fun f => forall rels rf rels', resolve_filter model f rels = Ok (rf, rels') ->
            filter_resolved model rf /\ recorded rels (filter_fields rf) rels') args ->
  try_map_st (fun rels arg => resolve_filter model arg rels) rels args = Ok (rfs, rels') ->
  Forall (filter_resolved model) rfs /\ recorded rels (concat (map filter_fields rfs)) rels'.
Proof.
  intros IH. revert rels rfs. induction IH as [|f args Hf _ IH]; intros rels rfs H; simpl in H.
  - simplify_eq. split; [constructor|apply recorded_nil].
  - apply bind_ok in H as ([b s1] & Hb & H). apply bind_ok in H as ([k s2] & Hk & H).
    simplify_eq. apply Hf in Hb as [? ?]. apply IH in Hk as [? ?].
    split; [by constructor|]. simpl. by eapply recorded_app.
Qed.

Lemma resolve_filter_ok model f : forall rels rf rels',
  resolve_filter model f rels = Ok (rf, rels') ->
  filter_resolved model rf /\ recorded rels (filter_fields rf) rels'.
Proof.
  induction f as [args IH|args IH|f IH| | | | | | |fn vs|fn|fn] using Filter.ind';
    intros rels rf rels'; cbn [resolve_filter]; try apply resolve_comparison_ok; intros H.
  - apply bind_ok in H as ([rfs s1] & Ha & H). simplify_eq.
    apply resolve_args_ok in Ha as [? ?]; [|done]. split; [by constructor|done].
  - apply bind_ok in H as ([rfs s1] & Ha & H). simplify_eq.
    apply resolve_args_ok in Ha as [? ?]; [|done]. split; [by constructor|done].
  - apply bind_ok in H as ([rf1 s1] & Ha & H). simplify_eq. apply IH in Ha as [? ?].
    split; [by constructor|done].
  - apply bind_ok in H as (fd & Hv%visible_field_ok & H). apply bind_ok in H as (? & Hl & H).
    apply try_each_ok in Hl. simplify_eq. split; [|apply record_relationship_recorded].
    destruct Hv as (? & ? & ?). constructor; try done.
    eapply Forall_impl; [exact Hl|]. intros v. apply validate_literal_ok.
  - apply bind_ok in H as (fd & Hv%visible_field_ok & H). simplify_eq.
    split; [|apply record_relationship_recorded]. destruct Hv as (? & ? & ?). by constructor.
  - apply bind_ok in H as (fd & Hv%visible_field_ok & H). simplify_eq.
    split; [|apply record_relationship_recorded]. destruct Hv as (? & ? & ?). by constructor.
Qed.

(** ** Relationships *)

(** The column is a direct entity key among the fields. *)
Definition entity_key_column (column : string) (fs : list Field) : Prop :=
  exists f, f ∈ fs /\ Field.column f = column /\ Field.relationship f = None
            /\ Field.entity_key f = true.

Lemma has_entity_key_spec column fs : has_entity_key column fs = true <-> entity_key_column column fs.
Proof.
  unfold has_entity_key, entity_key_column. rewrite existsb_elem.
  setoid_rewrite andb_true_iff. setoid_rewrite andb_true_iff.
  setoid_rewrite bool_decide_eq_true. naive_solver.
Qed.

(** A join that cannot multiply rows except through a declared fan-out from a
    unique key: to-one joins end in an entity key of the target model, to-many
    joins start from an entity key of the queried model. *)
Definition join_safe (model target : Model) (r : Relationship) : Prop :=
  match Relationship.cardinality r with
  | Cardinality.OneToOne | Cardinality.ManyToOne =>
      entity_key_column (Relationship.to_column r) (Model.fields target)
  | Cardinality.OneToMany =>
      entity_key_column (Relationship.from_column r) (Model.fields model)
  | Cardinality.ManyToMany => False
  end.

Record relationship_ok (snapshot : SemanticSnapshot) (model : Model) (r : Relationship) : Prop := {
  ro_declared : r ∈ Model.relationships model;
  ro_first : List.find (fun r' => bool_decide (Relationship.semantic_name r'
                                               = Relationship.semantic_name r))
               (Model.relationships model) = Some r;
  ro_target : exists target, target ∈ Snapshot.models snapshot
    /\ Model.semantic_name target = Relationship.target_model r
    /\ Model.source target = Relationship.target r
    /\ join_safe model target r;
}.

Lemma resolve_relationship_ok snapshot model name b :
  resolve_relationship snapshot model name = Ok b ->
  b.1 = name /\ Relationship.semantic_name b.2 = name /\ relationship_ok snapshot model b.2.
Proof.
  unfold resolve_relationship. intros H.
  apply bind_ok in H as (r & Hr & H). apply ok_or_ok in Hr.
  pose proof Hr as [Hin Hn%bool_decide_eq_true]%find_elem.
  apply bind_ok in H as (? & _ & H).
  apply bind_ok in H as (target & Ht & H). apply ok_or_ok, find_elem in Ht as [Ht Htn].
  apply bool_decide_eq_true in Htn.
  apply bind_ok in H as (? & Hsrc & H). apply fail_if_ok, bool_decide_eq_false, dec_stable in Hsrc.
  apply bind_ok in H as (? & Hkey & H). simplify_eq. simpl. split_and!; try done.
  constructor; [done|done|]. exists target. split_and!; try done. unfold join_safe.
  destruct (Relationship.cardinality r); unbind; by apply has_entity_key_spec.
Qed.

(** ** Fan-out *)

(** A metric that may be aggregated over rows multiplied by a to-many join. *)
Record fanout_metric_ok (anchor : Field) (m : ResolvedMetric) : Prop := {
  fm_anchor : exists a, rm_aggregation_anchor m = Some a
    /\ Field.semantic_name a = Field.semantic_name anchor;
  fm_filter : forall f v, rm_filter m = Some (f, v) -> Field.relationship f = None;
  fm_additivity : Metric.additivity (rm_metric m) <> Some Additivity.SemiAdditive;
}.

Lemma check_fanout_metric_ok anchor m anchor' :
  check_fanout_metric anchor m = Ok anchor' ->
  exists a, anchor' = Some a /\ rm_aggregation_anchor m = Some a /\ fanout_metric_ok a m
    /\ (forall b, anchor = Some b -> Field.semantic_name b = Field.semantic_name a).
Proof.
  unfold check_fanout_metric. intros H.
  apply bind_ok in H as (a & Ha%ok_or_ok & H).
  apply bind_ok in H as (? & Hf%fail_if_ok & H).
  apply bind_ok in H as (? & Hs%fail_if_ok & H).
  apply bind_ok in H as (? & Hx%fail_if_ok & H). simplify_eq.
  exists a. split_and!; try done.
  - constructor; [by exists a| |by apply bool_decide_eq_false in Hs].
    intros f v Hfv. rewrite Hfv in Hf. apply bool_decide_eq_false in Hf.
    by apply eq_None_not_Some.
  - intros b ->. apply bool_decide_eq_false in Hx. by apply dec_stable.
Qed.

Lemma fanout_metric_ok_name a b m :
  Field.semantic_name a = Field.semantic_name b -> fanout_metric_ok a m -> fanout_metric_ok b m.
Proof. intros Heq [(c & ? & ?) ? ?]. constructor; [exists c; split; congruence|done..]. Qed.

Lemma fanout_fold_ok ms anchor anchor' :
  try_fold check_fanout_metric anchor ms = Ok anchor' ->
  match anchor' with
  | None => anchor = None /\ ms = []
  | Some a => Forall (fanout_metric_ok a) ms
      /\ (forall b, anchor = Some b -> Field.semantic_name b = Field.semantic_name a)
      /\ (anchor = Some a \/ exists m, m ∈ ms /\ rm_aggregation_anchor m = Some a)
  end.
Proof.
  revert anchor. induction ms as [|m ms IH]; intros anchor H; simpl in H.
  - simplify_eq. destruct anchor' as [a|]; [|done]. split_and!; [constructor|naive_solver|auto].
  - apply bind_ok in H as (s & Hs & H). apply check_fanout_metric_ok in Hs as (a & -> & Ha & Hok & Hb).
    apply IH in H. destruct anchor' as [a'|]; [|naive_solver].
    destruct H as (Hall & Hname & Hsrc). specialize (Hname a eq_refl). split_and!.
    + constructor; [|done]. by eapply fanout_metric_ok_name.
    + intros b Hb'. rewrite <- Hname. auto.
    + right. destruct Hsrc as [[= ->]|(m' & ? & ?)]; [exists m|exists m']; split; try done;
        [left|by right].
Qed.

Definition has_fanout (rels : list (string * Relationship)) : Prop :=
  exists n r, (n, r) ∈ rels /\ Relationship.cardinality r = Cardinality.OneToMany.

(** Aggregation over a fan-out is anchored: either no join fans out and there
    is no anchor, or there is at least one metric and all metrics share one
    anchor, a direct entity key. *)
Definition anchor_ok (rels : list (string * Relationship)) (ms : list ResolvedMetric)
    (anchor : option Field) : Prop :=
  match anchor with
  | None => ~ has_fanout rels
  | Some a => has_fanout rels /\ ms <> [] /\ Forall (fanout_metric_ok a) ms
      /\ exists m, m ∈ ms /\ rm_aggregation_anchor m = Some a
  end.

Lemma fanout_anchor_ok rels ms anchor :
  fanout_anchor rels ms = Ok anchor -> anchor_ok rels ms anchor.
Proof.
  unfold fanout_anchor. destruct (List.find _ _) as [r|] eqn:Hr; intros H.
  - apply find_elem in Hr as [Hin Hc%bool_decide_eq_true].
    apply list_elem_of_fmap in Hin as ([n r'] & -> & Hin).
    apply bind_ok in H as (? & Hne%fail_if_ok%bool_decide_eq_false & H).
    apply fanout_fold_ok in H. destruct anchor as [a|]; [|naive_solver].
    destruct H as (Hall & _ & [?|Hm]); [done|]. split_and!; try done. by exists n, r'.
  - simplify_eq. intros (n & r & Hin & Hc). apply List.find_none with (x := r) in Hr.
    + unfold is_fanout in Hr. by rewrite bool_decide_eq_true_2 in Hr.
    + apply list_elem_of_In, list_elem_of_fmap. by exists (n, r).
Qed.

(** ** Validated queries *)

Definition used_fields (v : ValidatedQuery) : list Field :=
  map rd_field (vq_dimensions v) ++ concat (map metric_fields (vq_metrics v))
  ++ match vq_filter v with Some f => filter_fields f | None => [] end.

Record validated_ok (q : LogicalSemanticQuery) (snapshot : SemanticSnapshot)
    (options : CompilerOptions) (v : ValidatedQuery) : Prop := {
  vo_model : vq_model v ∈ Snapshot.models snapshot;
  vo_model_name : Model.semantic_name (vq_model v) = Lsq.model q;
  vo_queryable : Model.queryable (vq_model v) = true;
  vo_limit : vq_limit v = default (default_limit options) (Lsq.limit q);
  vo_limit_bound : (vq_limit v ≤ hard_limit options)%N;
  vo_dimensions : Forall2 (dimension_ok (vq_model v)) (Lsq.dimensions q) (vq_dimensions v);
  vo_metrics : Forall2 (metric_ok snapshot (vq_model v)) (Lsq.metrics q) (vq_metrics v);
  vo_filter : forall f, vq_filter v = Some f -> filter_resolved (vq_model v) f;
  vo_filter_denotes : option_Forall2 filter_denotes (Lsq.filters q) (vq_filter v);
  vo_order : vq_order_by v = Lsq.order_by q;
  vo_projected : Forall (fun o => OrderBy.output_reference o ∈ projection q) (Lsq.order_by q);
  vo_wf : bt_wf (vq_relationships v);
  vo_joins : forall r, r ∈ (vq_relationships v).*1 <-> needs (used_fields v) r;
  vo_relationships : forall n r, (n, r) ∈ vq_relationships v ->
    n = Relationship.semantic_name r /\ relationship_ok snapshot (vq_model v) r;
  vo_anchor : anchor_ok (vq_relationships v) (vq_metrics v) (vq_aggregation_anchor v);
}.

Lemma resolve_dimensions_ok model ds rels rds rels' :
  try_map_st (resolve_dimension model) rels ds = Ok (rds, rels') ->
  Forall2 (dimension_ok model) ds rds /\ recorded rels (map rd_field rds) rels'.
Proof.
  apply (try_map_st_ind _ _ (fun s bs s' => recorded s (map rd_field bs) s')).
  - apply recorded_nil.
  - intros s a b s1 bs s2 _ Hf Hq. apply resolve_dimension_ok in Hf as [_ Hr].
    by apply (recorded_app _ [rd_field b] s1).
  - intros s a b s1 _ Hf. by apply resolve_dimension_ok in Hf as [? _].
Qed.

Lemma resolve_metrics_ok snapshot model rs rels ms rels' :
  try_map_st (resolve_metric snapshot model) rels rs = Ok (ms, rels') ->
  Forall2 (metric_ok snapshot model) rs ms
  /\ recorded rels (concat (map metric_fields ms)) rels'.
Proof.
  apply (try_map_st_ind _ _ (fun s bs s' => recorded s (concat (map metric_fields bs)) s')).
  - apply recorded_nil.
  - intros s a b s1 bs s2 _ Hf Hq. apply resolve_metric_ok in Hf as [_ Hr].
    by eapply recorded_app.
  - intros s a b s1 _ Hf. by apply resolve_metric_ok in Hf as [? _].
Qed.

Lemma resolve_query_filter_ok model of_ rels rf rels' :
  match of_ with
  | None => Ok (None, rels)
  | Some filter =>
      '(resolved, rels) ← resolve_filter model filter rels; Ok (Some resolved, rels)
  end = Ok (rf, rels') ->
  (forall f, rf = Some f -> filter_resolved model f)
  /\ option_Forall2 filter_denotes of_ rf
  /\ recorded rels match rf with Some f => filter_fields f | None => [] end rels'.
Proof.
  destruct of_ as [f|]; intros H.
  - apply bind_ok in H as ([rf' s] & Hf & H). simplify_eq.
    pose proof (resolve_filter_denotes _ _ _ _ _ Hf). apply resolve_filter_ok in Hf as [? ?].
    split_and!; [naive_solver|by constructor|done].
  - simplify_eq. split_and!; [done|constructor|apply recorded_nil].
Qed.

(** The collected map binds exactly the required names. *)
Lemma resolve_relationships_ok snapshot model required bs :
  bs_wf required -> try_map (resolve_relationship snapshot model) required = Ok bs ->
  (bt_from_list bs).*1 = required
  /\ (forall n r, (n, r) ∈ bt_from_list bs ->
        n = Relationship.semantic_name r /\ relationship_ok snapshot model r).
Proof.
  intros Hwf Hbs%try_map_ok.
  assert (Hall : Forall2 (fun n b => b.1 = n /\ Relationship.semantic_name b.2 = n
                            /\ relationship_ok snapshot model b.2) required bs).
  { eapply Forall2_impl; [exact Hbs|]. intros n b. apply resolve_relationship_ok. }
  assert (Hkeys : bs.*1 = required).
  { clear -Hall. induction Hall as [|n b l k (? & _) _ IH]; [done|]. rewrite fmap_cons. congruence. }
  split.
  - apply bs_ext; [apply bt_from_list_wf|done|]. intros n.
    by rewrite elem_of_bt_from_list_keys, Hkeys.
  - intros n r Hin. apply bt_elem_get, bt_from_list_get_elem in Hin; [|apply bt_from_list_wf].
    apply list_elem_of_lookup_1 in Hin as [i Hi].
    destruct (Forall2_lookup_r _ _ _ _ _ Hall Hi) as (n' & _ & Hn & Hr & Hok). simpl in *.
    split; [congruence|done].
Qed.

Lemma validate_ok `{HC : Crates} normalized snapshot options v :
  validate normalized snapshot options = Ok v ->
  validated_ok (NormalizedLsq.query normalized) snapshot options v.
Proof.
  unfold validate. set (q := NormalizedLsq.query normalized). intros H.
  apply bind_ok in H as (? & _ & H). apply bind_ok in H as (? & _ & H).
  apply bind_ok in H as (model & Hm & H). apply ok_or_ok, find_elem in Hm as [Hm Hp].
  apply andb_true_iff in Hp as [Hname%bool_decide_eq_true Hq].
  apply bind_ok in H as (? & Hl%fail_if_ok%bool_decide_eq_false & H).
  apply bind_ok in H as ([rds r1] & Hd & H). apply resolve_dimensions_ok in Hd as [Hd Rd].
  apply bind_ok in H as ([ms r2] & Hms & H). apply resolve_metrics_ok in Hms as [Hms Rm].
  apply bind_ok in H as ([rf r3] & Hrf & H). apply resolve_query_filter_ok in Hrf as (Hrf & Hden & Rf).
  apply bind_ok in H as (? & Hord & H). apply try_each_ok in Hord.
  apply bind_ok in H as (rels & Hrels & H). apply fmap_ok in Hrels as (bs & Hbs & ->).
  apply bind_ok in H as (anchor & Ha%fanout_anchor_ok & H). simplify_eq.
  pose proof (recorded_app _ _ _ _ _ Rd (recorded_app _ _ _ _ _ Rm Rf)) as [HR HW].
  destruct (resolve_relationships_ok snapshot model r3 bs) as [Hkeys Hrok];
    [by apply HW; constructor|done|].
  constructor; simpl; try done.
  - lia.
  - eapply Forall_impl; [exact Hord|]. intros o Ho%fail_if_ok. unbind.
    by apply elem_of_bs_from_list.
  - apply bt_from_list_wf.
  - intros r. rewrite Hkeys, HR. unfold used_fields. simpl. set_solver.
Qed.

(** * Lineage

    The columns a compiled query reports are exactly those its SQL reads.  The
    renderer collects them in a set while it writes text; this file follows
    that set through every rendering function. *)

(** [m] adds exactly the columns [cs] to the set of read columns. *)
Definition reads {A} (m : R A) (cs : list string) : Prop :=
  forall st a st', m st = Ok (a, st') ->
    (forall c, c ∈ source_columns st' <-> c ∈ source_columns st \/ c ∈ cs)
    /\ (bs_wf (source_columns st) -> bs_wf (source_columns st')).

Section reads.
Context {A B : Type}.

Lemma reads_ret (a : A) : reads (mret a) [].
Proof. intros st b st' H. injection H as <- <-. split; [set_solver|done]. Qed.

Lemma reads_bind (m : R A) (f : A -> R B) cs ds :
  reads m cs -> (forall a, reads (f a) ds) -> reads (m ≫= f) (cs ++ ds).
Proof.
  intros Hm Hf st b st' H. unfold mbind, R_bind in H.
  destruct (m st) as [[a st1]|e] eqn:Hst; [|done].
  destruct (Hm _ _ _ Hst) as [H1 W1], (Hf _ _ _ _ H) as [H2 W2]. split; [|auto].
  intros c. rewrite H2, H1. set_solver.
Qed.

(** A step after which only a value is returned. *)
Lemma reads_last (m : R A) (f : A -> B) cs :
  reads m cs -> reads (a ← m; mret (f a)) cs.
Proof.
  intros Hm st b st' H. unfold mbind, R_bind in H.
  destruct (m st) as [[a st1]|e] eqn:Hst; [|done]. injection H as _ <-. by eapply Hm.
Qed.

(** A step that reads nothing. *)
Lemma reads_skip (m : R A) (f : A -> R B) ds :
  reads m [] -> (forall a, reads (f a) ds) -> reads (m ≫= f) ds.
Proof. apply reads_bind. Qed.

Lemma reads_map (f : A -> R B) (g : A -> list string) l :
  (forall a, a ∈ l -> reads (f a) (g a)) -> reads (map_R f l) (concat (map g l)).
Proof.
  induction l as [|a l IH]; intros Hf; simpl.
  - intros st b st' H. injection H as <- <-. split; [set_solver|done].
  - intros st bs st' H. unfold mbind, R_bind in H.
    destruct (f a st) as [[b st1]|e] eqn:Ha; [|done].
    destruct (map_R f l st1) as [[k st2]|e] eqn:Hl; [|done]. injection H as _ <-.
    destruct (Hf a ltac:(left) _ _ _ Ha) as [H1 W1].
    destruct (IH ltac:(intros; apply Hf; by right) _ _ _ Hl) as [H2 W2]. split; [|auto].
    intros c. rewrite H2, H1. set_solver.
Qed.

Lemma reads_lift (o : option A) e : reads (lift_option o e) [].
Proof. destruct o; [apply reads_ret|]. by intros st a st'. Qed.
End reads.

Lemma reads_push t w : reads (push_parameter t w) [].
Proof.
  intros st k st'. unfold push_parameter. case_match; intros [= <- <-]; simpl; set_solver.
Qed.

Lemma reads_insert c : reads (insert_column c) [c].
Proof.
  intros st u st' H. injection H as <- <-. simpl. split; [|by apply bs_insert_wf].
  intros c'. rewrite elem_of_bs_insert. set_solver.
Qed.

Lemma reads_push_literal w : reads (push_literal w) [].
Proof. apply reads_push. Qed.

Create HintDb reads.
#[export] Hint Resolve reads_push reads_push_literal reads_lift reads_ret reads_insert : reads.

(** The relation a field lives in, and the column it names there. *)
Definition relation_of (model : Model) (f : Field) : Relation :=
  match Field.relationship f with
  | None => Model.source model
  | Some name =>
      match List.find (fun r => bool_decide (Relationship.semantic_name r = name))
              (Model.relationships model) with
      | Some r => Relationship.target r
      | None => Model.source model
      end
  end.

Definition column_of (model : Model) (f : Field) : string :=
  source_column (relation_of model f) (Field.column f).

Lemma reads_render_field model f aliases :
  reads (render_field model f aliases) [column_of model f].
Proof.
  intros st s st' H. unfold render_field, column_of, relation_of in *.
  destruct (Field.relationship f) as [name|].
  - unfold mbind, R_bind, lift_option in H.
    destruct (List.find _ _) as [r|]; [|done]. destruct (bt_get name aliases) as [a|]; [|done].
    injection H as _ <-. by eapply reads_insert.
  - injection H as _ <-. by eapply reads_insert.
Qed.

Lemma reads_render_comparison model o f w aliases :
  reads (render_comparison model o f w aliases) [column_of model f].
Proof.
  unfold render_comparison. apply (reads_bind _ _ [_] []); [apply reads_render_field|].
  intros s. case_match; repeat (apply reads_skip; [auto with reads|intros ?]); auto with reads.
Qed.

Lemma reads_render_filter model aliases f :
  reads (render_filter model f aliases) (map (column_of model) (filter_fields f)).
Proof.
  induction f as [args IH|args IH|f IH|o f w|f ws|f|f] using ResolvedFilter.ind';
    cbn [render_filter filter_fields map].
  1,2: apply reads_last; rewrite concat_map, map_map; apply reads_map;
    rewrite Forall_forall in IH; auto.
  - by apply reads_last.
  - apply reads_render_comparison.
  - apply (reads_bind _ _ [_] []); [apply reads_render_field|]. intros s. apply reads_last.
    pose proof (reads_map (fun value => position ← push_parameter (Field.data_type f) value;
      mret (render_parameter position (Field.data_type f))) (fun _ => []) ws) as H.
    replace (concat (map (fun _ => []) ws)) with (@nil string) in H
      by (clear; by induction ws as [|w ws IH]).
    apply H. intros w _. apply reads_last. auto with reads.
  - apply reads_last, reads_render_field.
  - apply reads_last, reads_render_field.
Qed.

Lemma reads_render_dimension model d aliases :
  reads (render_dimension model d aliases) [column_of model (rd_field d)].
Proof.
  unfold render_dimension. apply (reads_bind _ _ [_] []); [apply reads_render_field|].
  intros s. repeat case_match; repeat (apply reads_skip; [auto with reads|intros ?]);
    auto with reads.
Qed.

Lemma reads_render_metric model m aliases :
  reads (render_metric model m aliases) (map (column_of model) (metric_fields m)).
Proof.
  unfold render_metric, metric_fields.
  apply (reads_bind _ _ [_]); [apply reads_render_field|]. intros s.
  destruct (rm_filter m) as [[f w]|]; [|auto with reads].
  apply (reads_bind _ _ [_] []); [apply reads_render_field|]. intros s2.
  apply reads_last. auto with reads.
Qed.

Lemma reads_render_anchor_input model m aliases :
  reads (render_anchor_metric_input model m aliases) (map (column_of model) (metric_fields m)).
Proof.
  unfold render_anchor_metric_input, metric_fields.
  apply (reads_bind _ _ [_]); [apply reads_render_field|]. intros s.
  destruct (rm_filter m) as [[f w]|]; [|auto with reads].
  apply (reads_bind _ _ [_] []); [apply reads_render_field|]. intros s2.
  apply reads_last. auto with reads.
Qed.

(** The columns of a join condition. *)
Definition join_columns (source : Relation) (b : string * Relationship) : list string :=
  [source_column source (Relationship.from_column b.2);
   source_column (Relationship.target b.2) (Relationship.to_column b.2)].

Lemma reads_render_join source aliases b :
  reads (render_join source aliases b) (join_columns source b).
Proof.
  destruct b as [name r]. unfold render_join, join_columns. apply reads_skip; [auto with reads|].
  intros a. apply (reads_bind _ _ [_]); [auto with reads|]. intros _. apply reads_last.
  auto with reads.
Qed.

(** Every column a validated query reads. *)
Definition query_columns (v : ValidatedQuery) : list string :=
  map (column_of (vq_model v))
    (used_fields v ++ match vq_aggregation_anchor v with Some a => [a] | None => [] end)
  ++ concat (map (join_columns (Model.source (vq_model v))) (vq_relationships v)).

Definition from_columns (v : ValidatedQuery) : list string :=
  concat (map (join_columns (Model.source (vq_model v))) (vq_relationships v))
  ++ map (column_of (vq_model v))
       match vq_filter v with Some f => filter_fields f | None => [] end.

Lemma reads_render_from v aliases :
  reads (render_from_joins_and_filter v aliases) (from_columns v).
Proof.
  unfold render_from_joins_and_filter, from_columns. apply reads_bind.
  - apply reads_map. intros b _. apply reads_render_join.
  - intros joins. destruct (vq_filter v); [|auto with reads].
    apply reads_last, reads_render_filter.
Qed.

Definition dimension_columns (v : ValidatedQuery) : list string :=
  map (column_of (vq_model v)) (map rd_field (vq_dimensions v)).

Definition metric_columns (v : ValidatedQuery) : list string :=
  map (column_of (vq_model v)) (concat (map metric_fields (vq_metrics v))).

Lemma dimension_columns_alt v :
  dimension_columns v
  = concat (map (fun d => [column_of (vq_model v) (rd_field d)]) (vq_dimensions v)).
Proof. unfold dimension_columns. induction (vq_dimensions v); simpl; congruence. Qed.

Lemma metric_columns_alt v :
  metric_columns v
  = concat (map (fun m => map (column_of (vq_model v)) (metric_fields m)) (vq_metrics v)).
Proof. unfold metric_columns. by rewrite concat_map, map_map. Qed.

Lemma map_enumerate {A B} (g : A -> B) (l : list A) :
  map (fun p => g p.2) (enumerate l) = map g l.
Proof.
  unfold enumerate. change (map ?f ?l) with (f <$> l). rewrite fmap_imap.
  apply list_eq. intros i. by rewrite list_lookup_imap, list_lookup_fmap.
Qed.

Lemma reads_render_flat v aliases :
  reads (render_flat_sql v aliases) (dimension_columns v ++ metric_columns v ++ from_columns v).
Proof.
  rewrite dimension_columns_alt, metric_columns_alt. unfold render_flat_sql. apply reads_bind.
  { apply reads_map. intros d _. apply reads_last, reads_render_dimension. }
  intros ds. apply reads_bind.
  { apply reads_map. intros m _. apply reads_last, reads_render_metric. }
  intros ms. apply reads_last, reads_render_from.
Qed.

Lemma reads_render_anchored v anchor aliases :
  reads (render_anchored_sql v anchor aliases)
    (dimension_columns v ++ [column_of (vq_model v) anchor] ++ metric_columns v ++ from_columns v).
Proof.
  rewrite dimension_columns_alt, metric_columns_alt.
  rewrite <- (map_enumerate (fun d => [column_of (vq_model v) (rd_field d)])).
  rewrite <- (map_enumerate (fun m => map (column_of (vq_model v)) (metric_fields m))).
  unfold render_anchored_sql. apply reads_bind.
  { apply reads_map. intros [i d] _. apply reads_last, reads_render_dimension. }
  intros ds. apply (reads_bind _ _ [_]); [apply reads_render_field|]. intros a. apply reads_bind.
  { apply reads_map. intros [i m] _. apply reads_last, reads_render_anchor_input. }
  intros ms. apply reads_last, reads_render_from.
Qed.

Lemma query_columns_alt v c :
  c ∈ query_columns v <->
  c ∈ dimension_columns v \/ c ∈ metric_columns v \/ c ∈ from_columns v
  \/ exists a, vq_aggregation_anchor v = Some a /\ c = column_of (vq_model v) a.
Proof.
  unfold query_columns, dimension_columns, metric_columns, from_columns, used_fields.
  rewrite !map_app, !elem_of_app. destruct (vq_aggregation_anchor v); set_solver.
Qed.

(** Rendering from an empty state collects exactly the columns of the query. *)
Lemma render_sql_columns v sql st :
  render_sql v {| parameters := []; source_columns := [] |} = Ok (sql, st) ->
  bs_wf (source_columns st) /\ forall c, c ∈ source_columns st <-> c ∈ query_columns v.
Proof.
  intros H. unfold render_sql in H.
  assert (Hr : reads (render_sql v) (query_columns v)).
  { intros st0 a st1 H1. unfold render_sql in H1.
    assert (Hlast : forall s, reads (append_order_and_limit s v) []).
    { intros s. apply reads_last. auto with reads. }
    destruct (vq_aggregation_anchor v) as [an|] eqn:Ha.
    - eapply (reads_bind _ _ _ _ (reads_render_anchored v an _) Hlast) in H1 as [H1 W].
      split; [|done]. intros c. rewrite H1, query_columns_alt, Ha, app_nil_r. set_solver.
    - eapply (reads_bind _ _ _ _ (reads_render_flat v _) Hlast) in H1 as [H1 W].
      split; [|done]. intros c. rewrite H1, query_columns_alt, Ha, app_nil_r. set_solver. }
  destruct (Hr _ _ _ H) as [H1 W]. split; [apply W; constructor|]. intros c. rewrite H1.
  simpl. set_solver.
Qed.
