(* ===== verification/CompilerSql.v ===== *)
(** * The structure of generated SQL

    SQL text as a sequence of pieces: fixed fragments of a vocabulary, decimal
    numbers, placeholders and quoted identifiers.  Both compilers are shown to
    write only such text.

    The second part proves it of the query compiler. *)

From S2P Require Import Prelude Ordered Text Json Lsq LsqSpec Semantic Compiler CompilerSpec.

Inductive piece : Type :=
| Fixed (s : string)        (**r a fixed fragment of a vocabulary *)
| Number (n : nat)          (**r a decimal number: an ordinal or an alias index *)
| Placeholder (n : nat)     (**r a placeholder [$n] *)
| Identifier (s : string).  (**r a double-quoted identifier *)

Definition piece_text (p : piece) : string :=
  match p with
  | Fixed s => s
  | Number n => pretty n
  | Placeholder n => "$" +:+ pretty n
  | Identifier s => quote_identifier s
  end.

Definition pieces_text (ps : list piece) : string :=
  foldr (fun p s => piece_text p +:+ s) EmptyString ps.

Section text.
(** The fixed fragments and the identifiers that may appear. *)
Context (vocabulary : list string) (known : string -> Prop).

(** Placeholders refer to the first [n] parameters. *)
Definition piece_ok (n : nat) (p : piece) : Prop :=
  match p with
  | Fixed s => s ∈ vocabulary
  | Number _ => True
  | Placeholder k => 1 <= k <= n
  | Identifier s => known s
  end.

Definition sql_text (n : nat) (s : string) : Prop :=
  exists ps, s = pieces_text ps /\ Forall (piece_ok n) ps.

Lemma pieces_text_app ps qs : pieces_text (ps ++ qs) = pieces_text ps +:+ pieces_text qs.
Proof. induction ps as [|p ps IH]; [done|]. simpl. by rewrite IH, sapp_assoc. Qed.

Lemma sql_nil n : sql_text n EmptyString.
Proof. by exists []. Qed.

Lemma sql_app n s t : sql_text n s -> sql_text n t -> sql_text n (s +:+ t).
Proof.
  intros (ps & -> & Hp) (qs & -> & Hq). exists (ps ++ qs).
  by rewrite pieces_text_app, Forall_app.
Qed.

Lemma sql_piece n p : piece_ok n p -> sql_text n (piece_text p).
Proof. exists [p]. simpl. rewrite sapp_nil_r. by repeat constructor. Qed.

Lemma sql_fixed n s : bool_decide (s ∈ vocabulary) = true -> sql_text n s.
Proof. intros H%bool_decide_eq_true. by apply (sql_piece n (Fixed s)). Qed.

Lemma sql_number n (k : nat) : sql_text n (pretty k).
Proof. by apply (sql_piece n (Number k)). Qed.

Lemma sql_placeholder n (k : nat) : 1 <= k <= n -> sql_text n ("$" +:+ pretty k).
Proof. apply (sql_piece n (Placeholder k)). Qed.

(** A fragment, a placeholder and the text that follows it. *)
Lemma sql_bound (pre : string) n (k : nat) rest :
  sql_text n pre -> 1 <= k <= n -> sql_text n rest ->
  sql_text n ((pre +:+ "$") +:+ pretty k +:+ rest).
Proof.
  intros Hp Hk Hr. rewrite sapp_assoc. apply sql_app; [done|].
  rewrite <- sapp_assoc. apply sql_app; [by apply sql_placeholder|done].
Qed.

Lemma sql_identifier n s : known s -> sql_text n (quote_identifier s).
Proof. apply (sql_piece n (Identifier s)). Qed.

Lemma sql_mono n n' s : n <= n' -> sql_text n s -> sql_text n' s.
Proof.
  intros Hn (ps & -> & Hp). exists ps. split; [done|]. eapply Forall_impl; [exact Hp|].
  intros []; simpl; try done. lia.
Qed.

Lemma sql_join n sep l :
  sql_text n sep -> Forall (sql_text n) l -> sql_text n (join sep l).
Proof.
  intros Hsep Hl. induction Hl as [|s l Hs Hl IH]; [apply sql_nil|].
  destruct l as [|t l]; [done|]. change (join sep (s :: t :: l)) with (s +:+ sep +:+ join sep (t :: l)).
  by repeat apply sql_app.
Qed.
End text.

Lemma sql_vocabulary (vocabulary vocabulary' : list string) (known : string -> Prop) n s :
  vocabulary ⊆ vocabulary' -> sql_text vocabulary known n s -> sql_text vocabulary' known n s.
Proof.
  intros Hv (ps & -> & Hp). exists ps. split; [done|]. eapply Forall_impl; [exact Hp|].
  intros []; simpl; auto.
Qed.

(** Text assembled from pieces: splits concatenations and closes each part by
    the vocabulary, the catalog or an assumption. *)
Ltac sql_part :=
  lazymatch goal with
  | |- sql_text _ _ _ (String _ _) => apply sql_fixed; vm_compute; reflexivity
  | |- sql_text _ _ _ nl => apply sql_fixed; vm_compute; reflexivity
  | |- sql_text _ _ _ EmptyString => apply sql_nil
  | |- sql_text _ _ _ (pretty _) => apply sql_number
  | |- sql_text _ _ _ (quote_identifier _) => apply sql_identifier; assumption
  | |- sql_text _ _ _ _ => first [eassumption | eapply sql_mono; [|eassumption]; lia]
  end.
Ltac sql_bound :=
  first [apply (sql_bound _ _ EmptyString) | apply (sql_bound _ _ " timezone(")
        |apply (sql_bound _ _ "::text, ") | apply (sql_bound _ _ "', timezone(")
        |apply (sql_bound _ _ "LIMIT ")]; [sql_part|lia|].
Ltac sql :=
  repeat lazymatch goal with
    | |- sql_text _ _ _ (String _ _ +:+ pretty _ +:+ _) => first [sql_bound|apply sql_app]
    | |- sql_text _ _ _ (_ +:+ _) => apply sql_app
    end; try sql_part.

(** * The SQL the compiler writes

    A program logic for the rendering monad and the structure of rendered
    text: fixed fragments, quoted identifiers of the catalog, and placeholders
    that refer to bound parameters. *)

(** Every fixed fragment the query compiler can emit. *)
Definition query_vocabulary : list string :=
  ["SELECT "; ", "; nl; "FROM "; "."; " AS t0"; " AS "; " ON t0."; " = "; "WHERE ";
   "GROUP BY "; "ORDER BY "; "LIMIT "; "::text::bigint"; " "; "ASC"; "DESC";
   "INNER JOIN"; "LEFT JOIN"; "t"; "t0"; "::text"; "::text::";
   "boolean"; "bigint"; "numeric"; "text"; "date"; "timestamp"; "timestamptz";
   "="; "<>"; ">"; ">="; "<"; "<="; " timezone(";
   "::text::date::timestamp)"; "("; ")"; " AND "; " OR "; "NOT ("; " IN ("; " IS NULL";
   " IS NOT NULL"; "date_trunc('"; "day"; "week"; "month"; "quarter"; "year";
   "', timezone("; "::text, "; "))::date"; "', "; ")::date";
   "count("; "count(DISTINCT "; "sum("; "min("; "max("; "avg(";
   " FILTER (WHERE "; "max(CASE WHEN "; " THEN "; " END)"; "a."; "WITH "; " AS (";
   "  SELECT "; "  "; "  GROUP BY "; " AS a"].

(** ** Indentation

    The anchored form indents its inner query by replacing every line feed;
    quoted identifiers are part of the text it replaces in. *)

Definition indent (s : string) : string := replace_char newline (nl +:+ "  ") s.

Lemma replace_dquote_indent s :
  replace_char dquote (dq +:+ dq) (indent s) = indent (replace_char dquote (dq +:+ dq) s).
Proof.
  unfold indent. induction s as [|c s IH]; [done|]. cbn [replace_char].
  destruct (decide (c = newline)) as [->|Hn].
  - rewrite replace_char_app, IH, decide_False by done. cbn [replace_char].
    by rewrite decide_True.
  - cbn [replace_char]. destruct (decide (c = dquote)).
    + by rewrite replace_char_app, IH.
    + cbn [replace_char]. rewrite decide_False by done. by rewrite IH.
Qed.

Lemma indent_quote s : indent (quote_identifier s) = quote_identifier (indent s).
Proof.
  unfold quote_identifier. rewrite replace_dquote_indent. unfold indent.
  by rewrite !replace_char_app.
Qed.

(** An identifier of [known], or one that indentation has touched. *)
Definition indented (known : string -> Prop) (s : string) : Prop :=
  exists s0, known s0 /\ (s = s0 \/ s = indent s0).

Lemma indent_vocabulary s :
  s ∈ query_vocabulary -> indent s = s \/ (s = nl /\ indent s = nl +:+ "  ").
Proof.
  assert (H : bool_decide (Forall (fun s => indent s = s \/ (s = nl /\ indent s = nl +:+ "  "))
                             query_vocabulary) = true) by (vm_compute; reflexivity).
  apply bool_decide_eq_true in H. rewrite Forall_forall in H. apply H.
Qed.

Lemma pretty_go_no_newline x : forall s,
  newline ∉ bytes s -> newline ∉ bytes (pretty_N_go x s).
Proof.
  induction x as [x IH] using (well_founded_induction N.lt_wf_0). intros s Hs.
  destruct (decide (x = 0)%N) as [->|Hx]; [by rewrite pretty_N_go_0|].
  rewrite pretty_N_go_step by lia. apply IH; [apply N.div_lt; lia|]. simpl.
  apply not_elem_of_cons. split; [|done]. unfold pretty_N_char. by repeat case_match.
Qed.

Lemma pretty_no_newline (n : nat) : newline ∉ bytes (pretty n).
Proof.
  unfold pretty, pretty_nat, pretty, pretty_N. case_decide.
  - simpl. apply not_elem_of_cons. split; [done|apply not_elem_of_nil].
  - apply pretty_go_no_newline. apply not_elem_of_nil.
Qed.

Lemma sql_weaken (known known' : string -> Prop) n s :
  (forall i, known i -> known' i) -> sql_text query_vocabulary known n s -> sql_text query_vocabulary known' n s.
Proof.
  intros Hk (ps & -> & Hp). exists ps. split; [done|]. eapply Forall_impl; [exact Hp|].
  intros []; simpl; auto.
Qed.

Lemma sql_indent known n s : sql_text query_vocabulary known n s -> sql_text query_vocabulary (indented known) n (indent s).
Proof.
  intros (ps & -> & Hp). induction Hp as [|p ps Hp _ IH]; [apply sql_nil|]. simpl.
  unfold indent. rewrite replace_char_app. apply sql_app; [|apply IH].
  change (replace_char newline (nl +:+ "  ") (piece_text p)) with (indent (piece_text p)).
  destruct p as [f|k|k|i]; simpl in *.
  - destruct (indent_vocabulary f Hp) as [->|[_ ->]]; [by apply (sql_piece _ _ n (Fixed f))|].
    apply sql_app; by apply sql_fixed; vm_compute.
  - unfold indent. rewrite replace_char_id by apply pretty_no_newline. apply sql_number.
  - unfold indent. rewrite replace_char_app, (replace_char_id _ _ (pretty k))
      by apply pretty_no_newline. by apply sql_placeholder.
  - rewrite indent_quote. apply sql_identifier. exists i. auto.
Qed.

(** ** Identifiers *)

Definition field_identifiers (f : Field) : list string :=
  [Field.semantic_name f; Field.column f].

Definition relationship_identifiers (r : Relationship) : list string :=
  [Relation.schema (Relationship.target r); Relation.relation (Relationship.target r);
   Relationship.from_column r; Relationship.to_column r].

(** The names a model of the catalog declares. *)
Inductive catalog_identifier (m : Model) (s : string) : Prop :=
| CI_source : s ∈ [Relation.schema (Model.source m); Relation.relation (Model.source m)] ->
    catalog_identifier m s
| CI_field f : f ∈ Model.fields m -> s ∈ field_identifiers f -> catalog_identifier m s
| CI_metric x : x ∈ Model.metrics m -> s = Metric.semantic_name x -> catalog_identifier m s
| CI_relationship r : r ∈ Model.relationships m -> s ∈ relationship_identifiers r ->
    catalog_identifier m s.

(** The names the anchored form introduces. *)
Inductive internal_identifier : string -> Prop :=
| II_groups : internal_identifier "__postgresem_anchor_groups"
| II_anchor : internal_identifier "__anchor"
| II_dimension (i : nat) : internal_identifier ("__d" +:+ pretty i)
| II_metric (i : nat) : internal_identifier ("__m" +:+ pretty i).

Definition known (m : Model) (s : string) : Prop :=
  catalog_identifier m s \/ internal_identifier s.

(** ** A program logic for rendering *)

(** Parameters are numbered from 1, distinct, and hold a literal of their type. *)
Record parameters_ok (ps : list CompiledParameter) : Prop := {
  po_positions : map CompiledParameter.position ps = seq 1 (length ps);
  po_distinct : NoDup (map (fun p => (CompiledParameter.data_type p, CompiledParameter.value p)) ps);
  po_typed : Forall (fun p => literal_compatible (CompiledParameter.data_type p)
                                (CompiledParameter.value p) = true) ps;
}.

Definition timezone_error (m : Model) (e : CompileError) : Prop :=
  Model.timezone m = None
  /\ exists f, f ∈ Model.fields m /\ Field.data_type f = DataType.TimestampTz
     /\ e = CompileError.MissingTimezone (Field.semantic_name f).

Section logic.
Context (model : Model).

(** [m], run with at least [n] parameters bound, keeps them, binds only good
    ones, and returns a value that satisfies [Φ] for the new number of
    parameters; it can fail only for a missing time zone. *)
Definition safe {A} (n : nat) (m : R A) (Φ : nat -> A -> Prop) : Prop :=
  forall st, parameters_ok (parameters st) -> n <= length (parameters st) ->
  match m st with
  | Ok (a, st') => parameters_ok (parameters st')
      /\ parameters st `prefix_of` parameters st' /\ Φ (length (parameters st')) a
  | Err e => timezone_error model e
  end.

Lemma safe_ret {A} n (a : A) (Φ : nat -> A -> Prop) :
  (forall n', n <= n' -> Φ n' a) -> safe n (mret a) Φ.
Proof. intros H st Hst Hn. simpl. split_and!; auto. Qed.

Lemma safe_bind {A B} n (m : R A) (f : A -> R B) Φ Ψ :
  safe n m Φ -> (forall a n', n <= n' -> Φ n' a -> safe n' (f a) Ψ) -> safe n (m ≫= f) Ψ.
Proof.
  intros Hm Hf st Hst Hn. specialize (Hm st Hst Hn). unfold mbind, R_bind.
  destruct (m st) as [[a st1]|e]; [|done]. destruct Hm as (Hst1 & Hp1 & HΦ).
  pose proof (prefix_length _ _ Hp1) as Hl.
  specialize (Hf a (length (parameters st1)) ltac:(lia) HΦ st1 Hst1 ltac:(lia)).
  destruct (f a st1) as [[b st2]|e]; [|done]. destruct Hf as (? & ? & ?).
  split_and!; [done|by etrans|done].
Qed.

Lemma safe_map {A B} n (f : A -> R B) l (Φ : nat -> B -> Prop) :
  (forall k k' b, k <= k' -> Φ k b -> Φ k' b) ->
  (forall a n', a ∈ l -> n <= n' -> safe n' (f a) Φ) ->
  safe n (map_R f l) (fun n' bs => Forall (Φ n') bs).
Proof.
  intros Hmono. revert n. induction l as [|a l IH]; intros n Hf; simpl.
  - apply safe_ret. by constructor.
  - eapply safe_bind; [apply Hf; [left|lia]|]. intros b n1 Hn1 Hb.
    eapply safe_bind; [apply IH; intros; apply Hf; [by right|lia]|]. intros bs n2 Hn2 Hbs.
    apply safe_ret. intros n3 Hn3. constructor; [eapply Hmono; [|exact Hb]; lia|].
    eapply Forall_impl; [exact Hbs|]. intros. eapply Hmono; [|done]. lia.
Qed.

Lemma safe_lift {A} n (a : A) o e : o = Some a -> safe n (lift_option o e) (fun _ => eq a).
Proof. intros ->. by apply safe_ret. Qed.

Lemma safe_insert_column n c : safe n (insert_column c) (fun _ _ => True).
Proof. intros st Hst Hn. simpl. auto. Qed.

Lemma safe_timezone n f :
  f ∈ Model.fields model -> Field.data_type f = DataType.TimestampTz ->
  safe n (lift_option (Model.timezone model)
            (CompileError.MissingTimezone (Field.semantic_name f))) (fun _ _ => True).
Proof.
  intros Hf Ht st Hst Hn. destruct (Model.timezone model) eqn:Hz; simpl; [auto|].
  split; [done|]. by exists f.
Qed.

Lemma find_parameter_some t v ps p :
  find_parameter t v ps = Some p ->
  p ∈ ps /\ CompiledParameter.data_type p = t /\ CompiledParameter.value p = v.
Proof. intros [? H]%find_elem. apply andb_true_iff in H as [? ?]. by unbind. Qed.

Lemma find_parameter_none t v ps p :
  find_parameter t v ps = None -> p ∈ ps ->
  (CompiledParameter.data_type p, CompiledParameter.value p) <> (t, v).
Proof.
  intros Hn Hp%list_elem_of_In [= <- <-]. eapply List.find_none in Hn; [|exact Hp].
  by rewrite !bool_decide_eq_true_2 in Hn.
Qed.

Lemma parameters_ok_push t v ps :
  literal_compatible t v = true -> find_parameter t v ps = None -> parameters_ok ps ->
  parameters_ok (ps ++ [CompiledParameter.mk (length ps + 1) t v]).
Proof.
  intros Ht Hn [Hp Hd Hl]. constructor.
  - rewrite map_app, Hp, length_app, seq_app. simpl. by rewrite Nat.add_comm.
  - rewrite map_app, NoDup_app. split_and!; [done| |apply NoDup_singleton].
    intros x Hx ->%list_elem_of_singleton. apply list_elem_of_fmap in Hx as (p & Heq & Hx).
    by eapply find_parameter_none.
  - rewrite Forall_app. split; [done|]. by constructor.
Qed.

Lemma safe_push n t v :
  literal_compatible t v = true ->
  safe n (push_parameter t v) (fun n' k => 1 <= k <= n').
Proof.
  intros Ht st Hst Hn. unfold push_parameter.
  destruct (find_parameter t v (parameters st)) as [p|] eqn:Hf; simpl.
  - apply find_parameter_some in Hf as (Hin & _ & _). split_and!; [done..| |].
    all: assert (Hpos : CompiledParameter.position p ∈ seq 1 (length (parameters st)))
      by (rewrite <- (po_positions _ Hst); by apply list_elem_of_fmap_2).
    all: apply elem_of_seq in Hpos; lia.
  - rewrite length_app. simpl. split_and!; [by apply parameters_ok_push|by eexists|lia..].
Qed.

Lemma safe_push_literal n v : safe n (push_literal v) (fun n' k => 1 <= k <= n').
Proof. apply safe_push. by destruct v. Qed.
End logic.

(** ** Rendering of a validated query *)

(** One step of a rendering function. *)
Tactic Notation "step" uconstr(L) "as" simple_intropattern(a) simple_intropattern(n)
    simple_intropattern(Hn) simple_intropattern(H) :=
  eapply safe_bind; [eapply L; try done|]; cbn beta; intros a n Hn H.

Section render.
Context (q : LogicalSemanticQuery) (snapshot : SemanticSnapshot) (options : CompilerOptions).
Context (v : ValidatedQuery) (Hv : validated_ok q snapshot options v).

Abbreviation model := (vq_model v).
Abbreviation aliases := (relationship_aliases v).
Abbreviation text := (sql_text query_vocabulary (known model)).
Abbreviation renders m := (forall n, safe model n m text).

(** A field of the model whose relationship, if any, is joined. *)
Definition usable (f : Field) : Prop :=
  f ∈ Model.fields model
  /\ forall r, Field.relationship f = Some r -> r ∈ (vq_relationships v).*1.

Lemma text_mono k k' s : k <= k' -> text k s -> text k' s.
Proof. apply sql_mono. Qed.

Lemma known_column f : f ∈ Model.fields model -> known model (Field.column f).
Proof. intros Hf. left. eapply CI_field; [exact Hf|]. set_solver. Qed.

Lemma known_field_name f : f ∈ Model.fields model -> known model (Field.semantic_name f).
Proof. intros Hf. left. eapply CI_field; [exact Hf|]. set_solver. Qed.

Lemma known_metric_name m : m ∈ Model.metrics model -> known model (Metric.semantic_name m).
Proof. intros Hm. left. by eapply CI_metric. Qed.

Lemma alias_of name :
  name ∈ (vq_relationships v).*1 ->
  exists i, bt_get name aliases = Some ("t" +:+ pretty (i + 1)).
Proof.
  intros Hin. unfold relationship_aliases, enumerate.
  set (l := map _ _).
  assert (Hl : name ∈ l.*1).
  { subst l. apply list_elem_of_lookup in Hin as [i Hi]. apply list_elem_of_lookup. exists i.
    rewrite !list_lookup_fmap, list_lookup_imap, Hi. done. }
  apply elem_of_bt_from_list_keys, bt_get_is_some in Hl as [a Ha]. rewrite Ha.
  apply bt_from_list_get_elem in Ha. subst l.
  apply list_elem_of_fmap in Ha as ([i n] & [= -> ->] & _). by exists i.
Qed.

Lemma alias_text n name a : bt_get name aliases = Some a -> text n a.
Proof.
  intros Ha%bt_from_list_get_elem.
  apply list_elem_of_fmap in Ha as ([i m] & [= -> ->] & _). sql.
Qed.

Lemma joined_relationship name :
  name ∈ (vq_relationships v).*1 ->
  exists r, List.find (fun r => bool_decide (Relationship.semantic_name r = name))
              (Model.relationships model) = Some r
            /\ r ∈ Model.relationships model.
Proof using Hv.
  intros Hin. apply list_elem_of_fmap in Hin as ([n r] & -> & Hin).
  apply (vo_relationships _ _ _ _ Hv) in Hin as [-> [? ? ?]]. by exists r.
Qed.

Lemma safe_render_field f : usable f -> renders (render_field model f aliases).
Proof using Hv.
  intros [Hf Hr] n. unfold render_field.
  eapply (safe_bind _ _ _ _ (fun n' p => text n' p.1)).
  - destruct (Field.relationship f) as [name|]; [|apply safe_ret; intros; simpl; sql].
    specialize (Hr name eq_refl). destruct (joined_relationship name Hr) as (r & Hr' & _).
    destruct (alias_of name Hr) as [i Hi].
    eapply safe_bind; [by apply safe_lift|]. intros ? n1 _ <-.
    eapply safe_bind; [by apply safe_lift|]. intros ? n2 _ <-.
    apply safe_ret. intros n3 _. by eapply alias_text.
  - intros [a rel] n1 Hn1 Ha. simpl in Ha.
    eapply safe_bind; [apply safe_insert_column|]. intros _ n2 Hn2 _.
    apply safe_ret. intros n3 Hn3. pose proof (known_column f Hf). sql.
Qed.

Lemma text_parameter n k t : 1 <= k <= n -> text n (render_parameter k t).
Proof.
  intros Hk. unfold render_parameter. case_decide; [sql|].
  sql. destruct t; simpl; sql.
Qed.

Lemma text_comparison n o : text n (comparison_operator o).
Proof. destruct o; simpl; sql. Qed.

Lemma text_grain n g : text n (time_grain g).
Proof. destruct g; simpl; sql. Qed.

Lemma text_aggregate n a s : text n s -> text n (aggregate_call a s).
Proof. intros Hs. destruct a; simpl; sql. Qed.

Lemma text_internal n p (i : nat) :
  (forall j : nat, internal_identifier (p +:+ pretty j)) -> text n (internal_name p i).
Proof. intros Hp. apply sql_identifier. right. apply Hp. Qed.

Lemma text_join n sep l : text n sep -> Forall (text n) l -> text n (join sep l).
Proof. apply sql_join. Qed.

Lemma text_fixed_join n k sep l :
  bool_decide (sep ∈ query_vocabulary) = true -> k <= n -> Forall (text k) l -> text n (join sep l).
Proof.
  intros Hs Hk Hl. apply text_join; [by apply sql_fixed|].
  eapply Forall_impl; [exact Hl|]. intros s. by apply text_mono.
Qed.

(** *** Filters *)

Lemma safe_render_comparison o f w :
  usable f -> literal_compatible (Field.data_type f) w = true ->
  renders (render_comparison model o f w aliases).
Proof using Hv.
  intros Hf Hw n. unfold render_comparison.
  step safe_render_field as rf n1 Hn1 Hrf.
  pose proof (text_comparison n1 o) as Ho.
  destruct (bool_decide _ && _) eqn:Htz.
  - apply andb_true_iff in Htz as [Ht%bool_decide_eq_true _].
    eapply safe_bind; [apply safe_timezone; [apply Hf|done]|]. intros tz n2 Hn2 _.
    step safe_push as k1 n3 Hn3 Hk1.
    step safe_push_literal as k2 n4 Hn4 Hk2.
    apply safe_ret. intros n5 Hn5. sql.
  - step safe_push as k n2 Hn2 Hk.
    apply safe_ret. intros n3 Hn3. sql. apply text_parameter. lia.
Qed.

Lemma safe_render_in f ws n :
  Forall (fun w => literal_compatible (Field.data_type f) w = true) ws ->
  safe model n (map_R (fun w => k ← push_parameter (Field.data_type f) w;
                                mret (render_parameter k (Field.data_type f))) ws)
    (fun n' bs => Forall (text n') bs).
Proof.
  intros Hws. apply safe_map; [exact text_mono|]. intros w n' Hw _.
  rewrite Forall_forall in Hws. specialize (Hws w Hw).
  step safe_push as k n1 Hn1 Hk. apply safe_ret. intros n2 Hn2. apply text_parameter. lia.
Qed.

Lemma safe_render_logical (args : list ResolvedFilter) op :
  bool_decide ((" " +:+ op +:+ " ") ∈ query_vocabulary) = true ->
  Forall (fun f => filter_resolved model f -> Forall usable (filter_fields f) ->
            renders (render_filter model f aliases)) args ->
  Forall (filter_resolved model) args -> Forall usable (concat (map filter_fields args)) ->
  renders (rendered ← map_R (fun arg => render_filter model arg aliases) args;
           mret ("(" +:+ join (" " +:+ op +:+ " ") rendered +:+ ")")).
Proof.
  intros Hop IH Hr Hu n. eapply safe_bind.
  - apply safe_map; [exact text_mono|]. intros f n' Hf _. rewrite Forall_forall in IH; rewrite Forall_forall in Hr; rewrite Forall_forall in Hu.
    apply IH; [done|by apply Hr|]. apply Forall_forall. intros x Hx. apply Hu.
    apply list_elem_of_In, in_concat. exists (filter_fields f).
    split; apply list_elem_of_In; [by apply list_elem_of_fmap_2|done].
  - intros bs n1 Hn1 Hbs. apply safe_ret. intros n2 Hn2. sql. by eapply text_fixed_join.
Qed.

Lemma safe_render_null f (suffix : string) :
  usable f -> bool_decide (suffix ∈ query_vocabulary) = true ->
  renders (rendered ← render_field model f aliases; mret (rendered +:+ suffix)).
Proof using Hv.
  intros Hf Hs n. step safe_render_field as s n1 Hn1 Hs1.
  apply safe_ret. intros n2 Hn2. apply sql_app; [sql|by apply sql_fixed].
Qed.

Lemma safe_render_filter f :
  filter_resolved model f -> Forall usable (filter_fields f) ->
  renders (render_filter model f aliases).
Proof using Hv.
  induction f as [args IH|args IH|f IH|o f w|f ws|f|f] using ResolvedFilter.ind';
    intros Hr Hu; inversion Hr; subst; cbn [render_filter].
  - apply (safe_render_logical args "AND"); [vm_compute; reflexivity|done..].
  - apply (safe_render_logical args "OR"); [vm_compute; reflexivity|done..].
  - intros n. eapply safe_bind; [by apply IH|]. intros s n1 Hn1 Hs.
    apply safe_ret. intros n2 Hn2. sql.
  - simpl in Hu. rewrite Forall_singleton in Hu. by apply safe_render_comparison.
  - simpl in Hu. rewrite Forall_singleton in Hu. intros n. step safe_render_field as s n1 Hn1 Hs.
    step safe_render_in as bs n2 Hn2 Hbs.
    apply safe_ret. intros n3 Hn3. sql. by eapply text_fixed_join.
  - simpl in Hu. rewrite Forall_singleton in Hu. apply safe_render_null; [done|vm_compute; reflexivity].
  - simpl in Hu. rewrite Forall_singleton in Hu. apply safe_render_null; [done|vm_compute; reflexivity].
Qed.

(** *** Select list *)

Lemma safe_render_dimension d :
  usable (rd_field d) -> renders (render_dimension model d aliases).
Proof using Hv.
  intros Hf n. unfold render_dimension. step safe_render_field as s n1 Hn1 Hs.
  destruct (rd_time_grain d) as [g|]; [|apply safe_ret; intros; sql].
  pose proof (text_grain n1 g) as Hg. case_decide as Ht.
  - eapply safe_bind; [apply safe_timezone; [apply Hf|done]|]. intros tz n2 Hn2 _.
    step safe_push as k n3 Hn3 Hk. apply safe_ret. intros n4 Hn4. sql.
  - apply safe_ret. intros n2 Hn2. sql.
Qed.

(** The fields of a metric can be rendered and its filter literal fits. *)
Definition metric_ready (m : ResolvedMetric) : Prop :=
  usable (rm_field m)
  /\ forall f w, rm_filter m = Some (f, w) ->
       usable f /\ literal_compatible (Field.data_type f) w = true.

Lemma safe_render_metric m : metric_ready m -> renders (render_metric model m aliases).
Proof using Hv.
  intros [Hf Hm] n. unfold render_metric. step safe_render_field as s n1 Hn1 Hs.
  pose proof (text_aggregate n1 (Metric.aggregation (rm_metric m)) s Hs).
  destruct (rm_filter m) as [[f w]|]; [|apply safe_ret; intros; sql].
  destruct (Hm f w eq_refl) as [Hff Hw].
  step safe_render_field as s2 n2 Hn2 Hs2. step safe_push as k n3 Hn3 Hk.
  apply safe_ret. intros n4 Hn4. sql. apply text_parameter. lia.
Qed.

Lemma safe_render_anchor_input m :
  metric_ready m -> renders (render_anchor_metric_input model m aliases).
Proof using Hv.
  intros [Hf Hm] n. unfold render_anchor_metric_input. step safe_render_field as s n1 Hn1 Hs.
  destruct (rm_filter m) as [[f w]|]; [|apply safe_ret; intros; sql].
  destruct (Hm f w eq_refl) as [Hff Hw].
  step safe_render_field as s2 n2 Hn2 Hs2. step safe_push as k n3 Hn3 Hk.
  apply safe_ret. intros n4 Hn4. sql. apply text_parameter. lia.
Qed.

(** *** What validation has established *)

Lemma dimension_field d :
  d ∈ vq_dimensions v -> rd_field d ∈ Model.fields model.
Proof using Hv.
  intros Hd. apply list_elem_of_lookup in Hd as [i Hi].
  destruct (Forall2_lookup_r _ _ _ _ _ (vo_dimensions _ _ _ _ Hv) Hi) as (? & _ & H).
  apply H.
Qed.

Lemma metric_resolved m :
  m ∈ vq_metrics v -> exists r, r ∈ Lsq.metrics q /\ metric_ok snapshot model r m.
Proof using Hv.
  intros Hm. apply list_elem_of_lookup in Hm as [i Hi].
  destruct (Forall2_lookup_r _ _ _ _ _ (vo_metrics _ _ _ _ Hv) Hi) as (r & Hr & H).
  exists r. split; [by apply list_elem_of_lookup_2 in Hr|done].
Qed.

Lemma used_usable f : f ∈ Model.fields model -> f ∈ used_fields v -> usable f.
Proof using Hv.
  intros Hf Hu. split; [done|]. intros r Hr. apply (vo_joins _ _ _ _ Hv). by exists f.
Qed.

Lemma dimension_usable d : d ∈ vq_dimensions v -> usable (rd_field d).
Proof using Hv.
  intros Hd. apply used_usable; [by apply dimension_field|].
  apply elem_of_app. left. by apply list_elem_of_fmap_2.
Qed.

Lemma metric_field_used m f : m ∈ vq_metrics v -> f ∈ metric_fields m -> f ∈ used_fields v.
Proof.
  intros Hm Hf. unfold used_fields. rewrite !elem_of_app. right. left.
  apply list_elem_of_In, in_concat. exists (metric_fields m).
  split; apply list_elem_of_In; [by apply list_elem_of_fmap_2|done].
Qed.

Lemma metric_usable m : m ∈ vq_metrics v -> metric_ready m.
Proof using Hv.
  intros Hm. destruct (metric_resolved m Hm) as (r & _ & Hok). split.
  - apply used_usable; [apply Hok|]. eapply metric_field_used; [done|]. left.
  - intros f w Hfw. pose proof (mo_filter _ _ _ _ Hok) as Hf. rewrite Hfw in Hf.
    destruct Hf as (Hin & _ & Hw). split; [|done]. apply used_usable; [done|].
    eapply metric_field_used; [done|]. unfold metric_fields. rewrite Hfw. set_solver.
Qed.

Lemma filter_fields_resolved m f : filter_resolved m f ->
  Forall (fun x => x ∈ Model.fields m) (filter_fields f).
Proof.
  induction f as [args IH|args IH| | | | |] using ResolvedFilter.ind';
    intros Hr; inversion Hr; subst; simpl; rewrite ?Forall_singleton; auto.
  - apply Forall_concat, Forall_fmap. rewrite Forall_forall in IH |- *.
    intros x Hx. apply IH; [done|]. rewrite Forall_forall in H0. auto.
  - apply Forall_concat, Forall_fmap. rewrite Forall_forall in IH |- *.
    intros x Hx. apply IH; [done|]. rewrite Forall_forall in H0. auto.
Qed.

Lemma filter_usable f : vq_filter v = Some f ->
  filter_resolved model f /\ Forall usable (filter_fields f).
Proof using Hv.
  intros Hf. pose proof (vo_filter _ _ _ _ Hv f Hf) as Hr. split; [done|].
  pose proof (filter_fields_resolved _ _ Hr) as Hin. rewrite Forall_forall in Hin |- *.
  intros x Hx. apply used_usable; [by apply Hin|]. unfold used_fields.
  rewrite Hf, !elem_of_app. auto.
Qed.

(** *** The statement *)

Lemma known_source :
  known model (Relation.schema (Model.source model))
  /\ known model (Relation.relation (Model.source model)).
Proof. split; left; apply CI_source; set_solver. Qed.

Lemma known_relationship r s :
  r ∈ Model.relationships model -> s ∈ relationship_identifiers r -> known model s.
Proof. intros ? ?. left. by eapply CI_relationship. Qed.

Lemma safe_render_join b :
  b ∈ vq_relationships v -> renders (render_join (Model.source model) aliases b).
Proof using Hv.
  destruct b as [name r]. intros Hb n. unfold render_join.
  destruct (alias_of name) as [i Hi]; [by apply (list_elem_of_fmap_2 fst) in Hb|].
  destruct (vo_relationships _ _ _ _ Hv _ _ Hb) as [_ [Hr _ _]].
  step safe_lift as a n1 Hn1 <-.
  pose proof (alias_text n1 _ _ Hi) as Ha.
  step safe_insert_column as u n2 Hn2 Hu. step safe_insert_column as u' n3 Hn3 Hu'.
  apply safe_ret. intros n4 Hn4.
  assert (Hid : Forall (known model) (relationship_identifiers r)).
  { apply Forall_forall. intros s Hs. by eapply known_relationship. }
  inversion_clear Hid as [|? ? Hs1 Hid2]. inversion_clear Hid2 as [|? ? Hs2 Hid3].
  inversion_clear Hid3 as [|? ? Hs3 Hid4]. inversion_clear Hid4 as [|? ? Hs4 _].
  sql; destruct (Relationship.join_type r); simpl; sql.
Qed.

Lemma safe_render_from : renders (render_from_joins_and_filter v aliases).
Proof using Hv.
  intros n. unfold render_from_joins_and_filter. destruct known_source as [Hs1 Hs2].
  eapply safe_bind.
  - apply safe_map; [exact text_mono|]. intros b n' Hb _. by apply safe_render_join.
  - cbn beta. intros joins n1 Hn1 Hj.
    assert (Hjoin : forall n2, n1 <= n2 -> text n2 (join EmptyString joins)).
    { intros n2 Hn2. apply text_join; [sql|]. eapply Forall_impl; [exact Hj|].
      intros s. by apply text_mono. }
    destruct (vq_filter v) as [f|] eqn:Hf.
    + destruct (filter_usable f Hf) as [Hr Hu].
      step safe_render_filter as p n2 Hn2 Hp. apply safe_ret. intros n3 Hn3.
      sql. apply Hjoin. lia.
    + apply safe_ret. intros n2 Hn2. sql. by apply Hjoin.
Qed.

Lemma text_positional n count start : text n (positional_group_by count start).
Proof.
  unfold positional_group_by. apply text_join; [sql|]. apply Forall_fmap, Forall_forall.
  intros k _. simpl. sql.
Qed.

Lemma text_group_by n : text n (group_by_clause v).
Proof. unfold group_by_clause. case_decide; [sql|]. sql. apply text_positional. Qed.

Lemma safe_select_dimension d name n :
  d ∈ vq_dimensions v -> (forall k, text k name) ->
  safe model n (expression ← render_dimension model d aliases;
                mret (expression +:+ " AS " +:+ name)) text.
Proof using Hv.
  intros Hd Hname. pose proof (dimension_usable d Hd) as Hu.
  step safe_render_dimension as s n1 Hn1 Hs. apply safe_ret. intros n2 Hn2.
  specialize (Hname n2). sql.
Qed.

Lemma safe_render_flat : renders (render_flat_sql v aliases).
Proof using Hv.
  intros n. unfold render_flat_sql. eapply safe_bind.
  { apply safe_map; [exact text_mono|]. intros d n' Hd _. apply safe_select_dimension; [done|].
    intros k. apply sql_identifier, known_field_name. by apply dimension_field. }
  cbn beta. intros ds n1 Hn1 Hds. eapply safe_bind.
  { apply safe_map; [exact text_mono|]. intros m n' Hm _.
    pose proof (metric_usable m Hm) as Hready. step safe_render_metric as s n2 Hn2 Hs.
    destruct (metric_resolved m Hm) as (r & _ & Hok). apply safe_ret. intros n3 Hn3.
    pose proof (known_metric_name _ (mo_metric _ _ _ _ Hok)). sql. }
  cbn beta. intros ms n2 Hn2 Hms. step safe_render_from as from n3 Hn3 Hfrom.
  apply safe_ret. intros n4 Hn4. pose proof (text_group_by n4). sql.
  apply (text_fixed_join n4 n2); [vm_compute; reflexivity|lia|].
  apply Forall_app. split; [|done]. eapply Forall_impl; [exact Hds|].
  intros s. apply text_mono. lia.
Qed.

Abbreviation text' := (sql_text query_vocabulary (indented (known model))).

Lemma text_indented n s : text n s -> text' n s.
Proof. apply sql_weaken. intros i Hi. exists i. auto. Qed.

Lemma text_anchor_groups n : text n anchor_groups.
Proof.
  change anchor_groups with (quote_identifier "__postgresem_anchor_groups").
  apply sql_identifier. right. constructor.
Qed.

Lemma elem_of_enumerate {A} (l : list A) i x : (i, x) ∈ enumerate l -> x ∈ l.
Proof.
  unfold enumerate. intros H. apply elem_of_lookup_imap in H as (j & y & [= -> ->] & Hy).
  by apply list_elem_of_lookup_2 in Hy.
Qed.

Lemma text_outer_dimension n i d :
  (i, d) ∈ enumerate (vq_dimensions v) ->
  text n ("a." +:+ internal_name "__d" i +:+ " AS "
          +:+ quote_identifier (Field.semantic_name (rd_field d))).
Proof using Hv.
  intros Hd%elem_of_enumerate. pose proof (known_field_name _ (dimension_field d Hd)).
  sql. apply text_internal. constructor.
Qed.

Lemma text_outer_metric n i m :
  (i, m) ∈ enumerate (vq_metrics v) ->
  text n (render_outer_metric (Metric.aggregation (rm_metric m)) i +:+ " AS "
          +:+ quote_identifier (Metric.semantic_name (rm_metric m))).
Proof using Hv.
  intros Hm%elem_of_enumerate. destruct (metric_resolved m Hm) as (r & _ & Hok).
  pose proof (known_metric_name _ (mo_metric _ _ _ _ Hok)). sql.
  apply text_aggregate. sql. apply text_internal. constructor.
Qed.

Lemma text_outer_select n :
  text n (join ", "
    (map (fun '(index, dimension) =>
            "a." +:+ internal_name "__d" index +:+ " AS "
            +:+ quote_identifier (Field.semantic_name (rd_field dimension)))
       (enumerate (vq_dimensions v))
     ++ map (fun '(index, metric) =>
               render_outer_metric (Metric.aggregation (rm_metric metric)) index +:+ " AS "
               +:+ quote_identifier (Metric.semantic_name (rm_metric metric)))
          (enumerate (vq_metrics v)))).
Proof using Hv.
  apply text_join; [sql|]. apply Forall_app. split; apply Forall_fmap, Forall_forall.
  - intros [i d] Hd. by apply text_outer_dimension.
  - intros [i m] Hm. by apply text_outer_metric.
Qed.

Lemma safe_inner_dimensions n :
  safe model n (map_R (fun '(index, dimension) =>
      expression ← render_dimension model dimension aliases;
      mret (expression +:+ " AS " +:+ internal_name "__d" index))
    (enumerate (vq_dimensions v))) (fun n' => Forall (text n')).
Proof using Hv.
  apply safe_map; [exact text_mono|]. intros [i d] n' Hd%elem_of_enumerate _.
  apply safe_select_dimension; [done|]. intros k. apply text_internal. constructor.
Qed.

Lemma safe_inner_metrics n :
  safe model n (map_R (fun '(index, metric) =>
      expression ← render_anchor_metric_input model metric aliases;
      mret (expression +:+ " AS " +:+ internal_name "__m" index))
    (enumerate (vq_metrics v))) (fun n' => Forall (text n')).
Proof using Hv.
  apply safe_map; [exact text_mono|]. intros [i m] n' Hm%elem_of_enumerate _.
  pose proof (metric_usable m Hm). step safe_render_anchor_input as s n1 Hn1 Hs.
  apply safe_ret. intros n2 Hn2. sql. apply text_internal. constructor.
Qed.

Lemma text_inner_select n k1 k2 k3 ds a ms :
  k1 <= n -> k2 <= n -> k3 <= n ->
  Forall (text k1) ds -> text k2 a -> Forall (text k3) ms ->
  text n (join ", " (ds ++ [a +:+ " AS " +:+ dq +:+ "__anchor" +:+ dq] ++ ms)).
Proof.
  intros H1 H2 H3 Hds Ha Hms.
  assert (Hm : forall k l, k <= n -> Forall (text k) l -> Forall (text n) l).
  { intros k l Hk Hl. eapply Forall_impl; [exact Hl|]. intros s. by apply text_mono. }
  apply text_join; [sql|]. apply Forall_app. split; [by apply (Hm k1)|].
  apply Forall_app. split; [|by apply (Hm k3)]. apply Forall_singleton. apply sql_app; [sql|].
  apply sql_app; [sql|].
  change (dq +:+ "__anchor" +:+ dq) with (quote_identifier "__anchor").
  apply sql_identifier. right. constructor.
Qed.

Lemma safe_render_anchored anchor n :
  usable anchor -> safe model n (render_anchored_sql v anchor aliases) text'.
Proof using Hv.
  intros Ha. unfold render_anchored_sql. step safe_inner_dimensions as ds n1 Hn1 Hds.
  step safe_render_field as s n2 Hn2 Hs. step safe_inner_metrics as ms n3 Hn3 Hms.
  step safe_render_from as from n4 Hn4 Hfrom.
  apply safe_ret. intros n5 Hn5.
  assert (Hsel := text_indented _ _ (text_inner_select n5 n1 n2 n3 ds s ms
                    ltac:(lia) ltac:(lia) ltac:(lia) Hds Hs Hms)).
  pose proof (text_indented _ _ (text_outer_select n5)) as Hout.
  pose proof (text_indented _ _ (text_group_by n5)) as Hgrp.
  pose proof (text_indented _ _ (text_anchor_groups n5)) as Hanc.
  pose proof (text_indented _ _ (text_positional n5 (length (vq_dimensions v) + 1) 1)) as Hpos.
  assert (Hind : text' n5 (indent from)) by (apply sql_indent; eapply sql_mono; [|done]; lia).
  unfold indent in Hind. sql.
Qed.

Lemma anchor_usable a : vq_aggregation_anchor v = Some a -> usable a.
Proof using Hv.
  intros Ha. pose proof (vo_anchor _ _ _ _ Hv) as Hok. rewrite Ha in Hok.
  destruct Hok as (_ & _ & _ & m & Hm & Hma).
  destruct (metric_resolved m Hm) as (r & _ & Hmok). pose proof (mo_anchor _ _ _ _ Hmok) as H.
  rewrite Hma in H. destruct H as (Hf & _ & Hrel & _). split; [done|]. by rewrite Hrel.
Qed.

Lemma order_known o : o ∈ vq_order_by v -> known model (OrderBy.output_reference o).
Proof using Hv.
  rewrite (vo_order _ _ _ _ Hv). intros Ho.
  pose proof (vo_projected _ _ _ _ Hv) as Hp. rewrite Forall_forall in Hp. specialize (Hp o Ho).
  unfold projection in Hp. apply elem_of_app in Hp as [Hd|Hm].
  - apply list_elem_of_fmap in Hd as (d & -> & Hd). apply list_elem_of_lookup in Hd as [i Hi].
    destruct (Forall2_lookup_l _ _ _ _ _ (vo_dimensions _ _ _ _ Hv) Hi) as (rd & _ & Hok).
    rewrite <- (do_name _ _ _ Hok). apply known_field_name, Hok.
  - apply list_elem_of_fmap in Hm as (m & -> & Hm). apply list_elem_of_lookup in Hm as [i Hi].
    destruct (Forall2_lookup_l _ _ _ _ _ (vo_metrics _ _ _ _ Hv) Hi) as (rm & _ & Hok).
    rewrite <- (mo_name _ _ _ _ Hok). apply known_metric_name, Hok.
Qed.

Lemma text_order_by n :
  text n (join ", " (map (fun order => quote_identifier (OrderBy.output_reference order)
                                       +:+ " " +:+ order_keyword (OrderBy.direction order))
                       (vq_order_by v))).
Proof using Hv.
  apply text_join; [sql|]. apply Forall_fmap, Forall_forall. intros o Ho. simpl.
  pose proof (order_known o Ho). sql. destruct (OrderBy.direction o); simpl; sql.
Qed.

Lemma safe_order_limit sql0 n :
  text' n sql0 -> safe model n (append_order_and_limit sql0 v) text'.
Proof using Hv.
  intros Hs. unfold append_order_and_limit. step safe_push as k n1 Hn1 Hk.
  apply safe_ret. intros n2 Hn2. apply sql_app; [|sql].
  case_decide; [sql|]. pose proof (text_indented _ _ (text_order_by n2)). sql.
Qed.

Lemma safe_render_sql n : safe model n (render_sql v) text'.
Proof using Hv.
  unfold render_sql. eapply safe_bind.
  - destruct (vq_aggregation_anchor v) as [a|] eqn:Ha.
    + by apply safe_render_anchored, anchor_usable.
    + intros st Hst Hn. pose proof (safe_render_flat n st Hst Hn) as H.
      destruct (render_flat_sql v aliases st) as [[s st']|e]; [|done].
      destruct H as (? & ? & ?). split_and!; auto using text_indented.
  - cbn beta. intros s n1 Hn1 Hs. by apply safe_order_limit.
Qed.
End render.
