(* ===== verification/Lsm.v ===== *)
(** * Logical semantic mutations ([lsm.rs])

    The write request, the rejection of duplicate object keys while it is
    decoded, and its validation ([normalize_lsm]). *)

From Stdlib Require Import SpecFloat.
From S2P Require Import Prelude Ordered Text Json Lsq.

Definition LSM_SCHEMA_VERSION : string := "1".
Definition MAX_INPUT_BYTES : N := 1048576.
Definition MAX_ROWS : nat := 100.
Definition MAX_FIELDS_PER_ROW : nat := 64.
Definition MAX_SEMANTIC_NAME_BYTES : nat := 255.
Definition MAX_IDEMPOTENCY_KEY_BYTES : nat := 256.

(** ** Data *)

Module MutationOperation.
Inductive MutationOperation : Type := Insert | Upsert.
#[global] Instance eq_dec : EqDecision MutationOperation.
Proof. solve_decision. Defined.
Definition to_json (o : MutationOperation) : json :=
  JStr match o with Insert => "insert" | Upsert => "upsert" end.
End MutationOperation.
Abbreviation MutationOperation := MutationOperation.MutationOperation.

Module MutationValue.
Inductive MutationValue : Type :=
| Null
| Text (value : string)
| Boolean (value : bool)
| Integer (value : Z)
| Numeric (value : string)
| Date (value : string)
| Timestamp (value : string).
#[global] Instance eq_dec : EqDecision MutationValue.
Proof. solve_decision. Defined.

(** [as_literal]; [None] for [Null]. *)
Definition as_literal (v : MutationValue) : option Literal :=
  match v with
  | Null => None
  | Text value => Some (Literal.Text value)
  | Boolean value => Some (Literal.Boolean value)
  | Integer value => Some (Literal.Integer value)
  | Numeric value => Some (Literal.Numeric value)
  | Date value => Some (Literal.Date value)
  | Timestamp value => Some (Literal.Timestamp value)
  end.

Definition is_well_formed (v : MutationValue) : bool :=
  match as_literal v with None => true | Some literal => literal_is_well_formed literal end.

(** Adjacently tagged; a unit variant has no content. *)
Definition to_json (v : MutationValue) : json :=
  match as_literal v with
  | None => JObj [("type", JStr "null")]
  | Some literal => Literal.to_json literal
  end.
End MutationValue.
Abbreviation MutationValue := MutationValue.MutationValue.

(** A row: a [BTreeMap] from field names to values. *)
Abbreviation Row := (list (string * MutationValue)).

Module Lsm.
Record LogicalSemanticMutation : Type := mk {
  schema_version : string;
  operation : MutationOperation;
  model : string;
  idempotency_key : string;
  rows : list Row;
}.
Definition to_json (m : LogicalSemanticMutation) : json :=
  JObj [("schema_version", JStr (schema_version m));
        ("operation", MutationOperation.to_json (operation m));
        ("model", JStr (model m));
        ("idempotency_key", JStr (idempotency_key m));
        ("rows", JArr (map (fun row =>
           JObj (map (fun '(k, v) => (k, MutationValue.to_json v)) row)) (rows m)))].
End Lsm.
Abbreviation LogicalSemanticMutation := Lsm.LogicalSemanticMutation.

Module NormalizedLsm.
Record NormalizedLsm : Type := mk {
  mutation : LogicalSemanticMutation;
  canonical_json : string;
  hash : string;
  idempotency_key_hash : string;
  input_bytes : N;
}.
End NormalizedLsm.
Abbreviation NormalizedLsm := NormalizedLsm.NormalizedLsm.

Module LsmError.
Inductive LsmError : Type :=
| InputTooLarge
| InvalidJson (message : string)
| UnsupportedSchemaVersion (version : string)
| InvalidModel
| InvalidIdempotencyKey
| InvalidRowCount
| InvalidFieldCount
| InvalidFieldName
| InconsistentRowFields
| InvalidValue.

Definition code (e : LsmError) : string :=
  match e with
  | InputTooLarge => "LSM_INPUT_TOO_LARGE"
  | InvalidJson _ => "LSM_INVALID_JSON"
  | UnsupportedSchemaVersion _ => "LSM_UNSUPPORTED_SCHEMA_VERSION"
  | InvalidModel => "LSM_INVALID_MODEL"
  | InvalidIdempotencyKey => "LSM_INVALID_IDEMPOTENCY_KEY"
  | InvalidRowCount => "LSM_INVALID_ROW_COUNT"
  | InvalidFieldCount => "LSM_INVALID_FIELD_COUNT"
  | InvalidFieldName => "LSM_INVALID_FIELD_NAME"
  | InconsistentRowFields => "LSM_INCONSISTENT_ROW_FIELDS"
  | InvalidValue => "LSM_INVALID_VALUE"
  end.
End LsmError.
Abbreviation LsmError := LsmError.LsmError.

(** ** Duplicate keys

    serde_json presents a document to a visitor as calls [visit_*]; the keys of
    an object arrive in the order of the text, repeated ones included. *)

Inductive Event : Type :=
| visit_unit
| visit_none
| visit_bool (value : bool)
| visit_i64 (value : Z)
| visit_u64 (value : N)
| visit_f64 (value : spec_float)
| visit_str (value : string)
| visit_string (value : string)
| visit_seq (values : list Event)
| visit_map (values : list (string * Event)).

(** [serde_json::Value]; an object is a map ordered by key. *)
Inductive Value : Type :=
| Value_Null
| Value_Bool (value : bool)
| Value_Integer (value : Z)
| Value_Float (value : spec_float)
| Value_String (value : string)
| Value_Array (values : list Value)
| Value_Object (values : list (string * Value)).

(** [Number::from_f64] is defined on finite numbers. *)
Definition is_finite (value : spec_float) : bool :=
  match value with S754_zero _ | S754_finite _ _ _ => true | _ => false end.

(** [UniqueValueVisitor]. *)
Fixpoint unique_value (e : Event) : result string Value :=
  match e with
  | visit_unit | visit_none => Ok Value_Null
  | visit_bool value => Ok (Value_Bool value)
  | visit_i64 value => Ok (Value_Integer value)
  | visit_u64 value => Ok (Value_Integer (Z.of_N value))
  | visit_f64 value =>
      if is_finite value then Ok (Value_Float value) else Err "JSON number is not finite"
  | visit_str value | visit_string value => Ok (Value_String value)
  | visit_seq values => Value_Array <$> try_map unique_value values
  | visit_map values =>
      Value_Object <$>
      try_fold (fun result '(key, value) =>
        fail_if (bt_contains key result) ("duplicate object key: " +:+ key);;
        value ← unique_value value;
        Ok (bt_insert key value result)) [] values
  end.

(** ** Validation *)

Definition valid_bounded_text (value : string) (maximum_bytes : nat) : bool :=
  negb (trim_is_empty value) && bool_decide (String.length value <= maximum_bytes).

Definition validate_row (expected_fields : list string) (row : Row) : result LsmError unit :=
  fail_if (bool_decide (row = []) || bool_decide (MAX_FIELDS_PER_ROW < length row))
    LsmError.InvalidFieldCount;;
  fail_if (bool_decide (row.*1 <> expected_fields)) LsmError.InconsistentRowFields;;
  try_each (fun '(field, value) =>
    fail_if (negb (valid_bounded_text field MAX_SEMANTIC_NAME_BYTES)) LsmError.InvalidFieldName;;
    fail_if (negb (MutationValue.is_well_formed value)) LsmError.InvalidValue) row.

Definition validate_mutation (mutation : LogicalSemanticMutation) : result LsmError unit :=
  fail_if (bool_decide (Lsm.schema_version mutation <> LSM_SCHEMA_VERSION))
    (LsmError.UnsupportedSchemaVersion (Lsm.schema_version mutation));;
  fail_if (negb (valid_bounded_text (Lsm.model mutation) MAX_SEMANTIC_NAME_BYTES))
    LsmError.InvalidModel;;
  fail_if (negb (valid_bounded_text (Lsm.idempotency_key mutation) MAX_IDEMPOTENCY_KEY_BYTES))
    LsmError.InvalidIdempotencyKey;;
  match Lsm.rows mutation with
  | [] => Err LsmError.InvalidRowCount
  | first :: _ =>
      fail_if (bool_decide (MAX_ROWS < length (Lsm.rows mutation))) LsmError.InvalidRowCount;;
      try_each (validate_row first.*1) (Lsm.rows mutation)
  end.

(** [normalize_lsm]; [parse] is serde_json's parser and [from_value] its typed
    deserialiser from a value. *)
Definition normalize_lsm `{Crates} (parse : string -> result string Event)
    (from_value : Value -> result string LogicalSemanticMutation) (input : string)
    : result LsmError NormalizedLsm :=
  fail_if (bool_decide (MAX_INPUT_BYTES < N.of_nat (String.length input))%N)
    LsmError.InputTooLarge;;
  unique ← map_err LsmError.InvalidJson (parse input ≫= unique_value);
  mutation ← map_err LsmError.InvalidJson (from_value unique);
  validate_mutation mutation;;
  canonical_json ← map_err LsmError.InvalidJson (json_to_string (Lsm.to_json mutation));
  Ok {| NormalizedLsm.mutation := mutation;
        NormalizedLsm.canonical_json := canonical_json;
        NormalizedLsm.hash := sha256 canonical_json;
        NormalizedLsm.idempotency_key_hash := sha256 (Lsm.idempotency_key mutation);
        NormalizedLsm.input_bytes := N.of_nat (String.length input) |}.
