(* ===== verification/LsmSpec.v ===== *)
(** * What an accepted mutation guarantees

    Which documents are decoded, which mutations are accepted, and that the
    canonical JSON of a mutation identifies it. *)

From S2P Require Import Prelude Ordered Text Json Lsq LsqSpec Lsm.

(** ** Ordered maps from distinct bindings *)

Section bt_perm.
Context {V : Type}.
Implicit Types (m l : list (string * V)).

Lemma bt_insert_perm k v m : k ∉ m.*1 -> bt_insert k v m ≡ₚ (k, v) :: m.
Proof.
  induction m as [|[k' v'] m IH]; intros Hk; simpl; [done|]. simpl in Hk.
  apply not_elem_of_cons in Hk as [Hne Hk]. rewrite decide_False by done.
  case_decide; [done|]. rewrite IH by done. apply Permutation_swap.
Qed.

Lemma bt_fold_perm l m :
  NoDup l.*1 -> (forall k, k ∈ l.*1 -> k ∉ m.*1) ->
  foldl (fun m '(k, v) => bt_insert k v m) m l ≡ₚ m ++ l.
Proof.
  revert m. induction l as [|[k v] l IH]; intros m Hnd Hdis; simpl; [by rewrite app_nil_r|].
  simpl in Hnd, Hdis. apply NoDup_cons in Hnd as [Hk Hnd]. rewrite IH; [|done|].
  - rewrite bt_insert_perm by (apply Hdis; left). apply Permutation_middle.
  - intros k' Hk'. rewrite bt_insert_keys, elem_of_bs_insert. intros [->|Hin]; [done|].
    eapply Hdis; [|exact Hin]. by right.
Qed.

Lemma bt_from_list_perm l : NoDup l.*1 -> bt_from_list l ≡ₚ l.
Proof. intros Hnd. unfold bt_from_list. rewrite bt_fold_perm; [done|done|set_solver]. Qed.

Lemma bt_wf_perm_eq m m' : bt_wf m -> bt_wf m' -> m ≡ₚ m' -> m = m'.
Proof.
  intros Hm Hm' Hp. assert (Hk : m.*1 = m'.*1).
  { apply bs_ext; [done|done|]. intros k. by rewrite Hp. }
  apply list_eq. intros i. destruct (m !! i) as [[k v]|] eqn:Hi.
  - assert (Hk' : m'.*1 !! i = Some k) by (by rewrite <- Hk, list_lookup_fmap, Hi).
    rewrite list_lookup_fmap in Hk'. destruct (m' !! i) as [[k2 w]|] eqn:Hi'; [|done].
    injection Hk' as ->. do 2 f_equal.
    assert (H1 : bt_get k m' = Some v).
    { apply bt_elem_get; [done|]. rewrite <- Hp. by apply list_elem_of_lookup_2 in Hi. }
    assert (H2 : bt_get k m' = Some w).
    { apply bt_elem_get; [done|]. by apply list_elem_of_lookup_2 in Hi'. }
    congruence.
  - apply lookup_ge_None in Hi. symmetry. apply lookup_ge_None.
    by rewrite <- (length_fmap fst m'), <- Hk, length_fmap.
Qed.
End bt_perm.

(** ** Decoding without duplicate keys *)

(** The value a document denotes: every object has distinct keys, and becomes
    the map that binds each key to the value of its member. *)
Inductive decodes : Event -> Value -> Prop :=
| D_unit : decodes visit_unit Value_Null
| D_none : decodes visit_none Value_Null
| D_bool b : decodes (visit_bool b) (Value_Bool b)
| D_i64 z : decodes (visit_i64 z) (Value_Integer z)
| D_u64 n : decodes (visit_u64 n) (Value_Integer (Z.of_N n))
| D_f64 f : is_finite f = true -> decodes (visit_f64 f) (Value_Float f)
| D_str s : decodes (visit_str s) (Value_String s)
| D_string s : decodes (visit_string s) (Value_String s)
| D_seq es vs : Forall2 decodes es vs -> decodes (visit_seq es) (Value_Array vs)
| D_map kvs vs m :
    NoDup kvs.*1 -> Forall2 decodes kvs.*2 vs -> bt_wf m -> m ≡ₚ zip kvs.*1 vs ->
    decodes (visit_map kvs) (Value_Object m).

Section event_ind.
Context (P : Event -> Prop)
  (Hunit : P visit_unit) (Hnone : P visit_none) (Hbool : forall b, P (visit_bool b))
  (Hi : forall z, P (visit_i64 z)) (Hu : forall n, P (visit_u64 n))
  (Hf : forall f, P (visit_f64 f)) (Hs : forall s, P (visit_str s))
  (Hss : forall s, P (visit_string s))
  (Hseq : forall es, Forall P es -> P (visit_seq es))
  (Hmap : forall kvs, Forall P kvs.*2 -> P (visit_map kvs)).

Fixpoint event_ind' (e : Event) : P e :=
  match e with
  | visit_unit => Hunit | visit_none => Hnone | visit_bool b => Hbool b
  | visit_i64 z => Hi z | visit_u64 n => Hu n | visit_f64 f => Hf f
  | visit_str s => Hs s | visit_string s => Hss s
  | visit_seq es => Hseq es
      ((fix all (l : list Event) : Forall P l :=
          match l with
          | [] => Forall_nil_2 P
          | x :: l' => Forall_cons_2 P x l' (event_ind' x) (all l')
          end) es)
  | visit_map kvs => Hmap kvs
      ((fix all (l : list (string * Event)) : Forall P l.*2 :=
          match l with
          | [] => Forall_nil_2 P
          | (k, x) :: l' => Forall_cons_2 P x l'.*2 (event_ind' x) (all l')
          end) kvs)
  end.
End event_ind.

Abbreviation visit_entry :=
  (fun (result : list (string * Value)) '(key, value) =>
     fail_if (bt_contains key result) ("duplicate object key: " +:+ key);;
     value ← unique_value value;
     Ok (bt_insert key value result)).

(** The loop of [visit_map] accepts exactly distinct, fresh keys. *)
Lemma visit_map_loop kvs : forall acc m,
  try_fold visit_entry acc kvs = Ok m <->
  NoDup kvs.*1 /\ (forall k, k ∈ kvs.*1 -> k ∉ acc.*1)
  /\ exists vs, Forall2 (fun e v => unique_value e = Ok v) kvs.*2 vs
     /\ m = foldl (fun m '(k, v) => bt_insert k v m) acc (zip kvs.*1 vs).
Proof.
  induction kvs as [|[k e] kvs IH]; intros acc m; simpl.
  - split.
    + intros H. apply Ok_inj in H. subst. split_and!; [constructor|set_solver|]. by exists [].
    + intros (_ & _ & vs & Hvs & ->). by apply Forall2_nil_inv_l in Hvs as ->.
  - rewrite bind_ok. unfold bt_contains. split.
    + intros (acc' & H & Hm). apply bind_ok in H as (? & Hf%fail_if_ok & H).
      apply bool_decide_eq_false, eq_None_not_Some, bt_get_none in Hf.
      apply bind_ok in H as (v & Hv & H). apply Ok_inj in H. subst acc'.
      apply IH in Hm as (Hnd & Hdis & vs & Hvs & ->). split_and!.
      * apply NoDup_cons. split; [|done]. intros Hk. apply (Hdis k Hk).
        rewrite bt_insert_keys, elem_of_bs_insert. auto.
      * intros k' [->|Hk']%elem_of_cons; [done|]. intros Hin. apply (Hdis k' Hk').
        rewrite bt_insert_keys, elem_of_bs_insert. auto.
      * exists (v :: vs). split; [by constructor|done].
    + intros ([Hk Hnd]%NoDup_cons & Hdis & vs & Hvs & ->).
      inversion Hvs as [|? v ? vs' Hv Hvs' Heq]; subst.
      exists (bt_insert k v acc). split.
      * rewrite bool_decide_eq_false_2; [simpl; by rewrite Hv|].
        apply eq_None_not_Some, bt_get_none, Hdis. left.
      * apply IH. split_and!; [done| |by exists vs'].
        intros k' Hk'. rewrite bt_insert_keys, elem_of_bs_insert.
        intros [->|Hin]; [done|]. apply (Hdis k'); [by right|done].
Qed.

Lemma Forall2_decodes es vs :
  Forall (fun e => forall v, unique_value e = Ok v <-> decodes e v) es ->
  Forall2 (fun e v => unique_value e = Ok v) es vs <-> Forall2 decodes es vs.
Proof.
  intros IH. revert vs. induction IH as [|e es He _ IH]; intros vs.
  - split; intros ->%Forall2_nil_inv_l; constructor.
  - split; intros H; inversion H; subst; constructor; try (by apply He); by apply IH.
Qed.

Lemma zip_keys {A B C} (kvs : list (A * B)) (R : B -> C -> Prop) vs :
  Forall2 R kvs.*2 vs -> (zip kvs.*1 vs).*1 = kvs.*1.
Proof.
  intros H%Forall2_length. rewrite length_fmap in H. apply fst_zip. rewrite length_fmap. lia.
Qed.

Lemma unique_value_spec e : forall v, unique_value e = Ok v <-> decodes e v.
Proof.
  induction e as [| | | | |f| | |es IH|kvs IH] using event_ind'; intros v; simpl;
    try (split; [by intros [= <-]; constructor|by inversion 1]).
  - destruct (is_finite f) eqn:Hf.
    + split; [by intros [= <-]; constructor|by inversion 1].
    + split; [done|]. inversion 1; congruence.
  - rewrite fmap_ok. setoid_rewrite try_map_ok. split.
    + intros (vs & Hvs & ->). constructor. by apply Forall2_decodes.
    + inversion 1 as [| | | | | | | |? vs Hvs|]; subst. exists vs. split; [|done].
      by apply Forall2_decodes.
  - rewrite fmap_ok. setoid_rewrite visit_map_loop. split.
    + intros (m & (Hnd & _ & vs & Hvs & ->) & ->).
      apply (D_map kvs vs); [done|by apply Forall2_decodes|apply bt_from_list_wf|].
      apply bt_from_list_perm. by rewrite (zip_keys _ _ _ Hvs).
    + inversion 1 as [| | | | | | | | |? vs m Hnd Hvs Hwf Hp]; subst.
      apply Forall2_decodes in Hvs; [|done].
      exists m. split; [|done]. split_and!; [done|set_solver|]. exists vs. split; [done|].
      apply bt_wf_perm_eq; [done|apply bt_from_list_wf|]. rewrite Hp. symmetry.
      apply bt_from_list_perm. by rewrite (zip_keys _ _ _ Hvs).
Qed.

(** The decoder of write requests accepts a document exactly when no object
    in it, at any depth, repeats a key (and every number is finite), and then
    yields the value that binds each key to its member; no member is silently
    overwritten. *)
Theorem unique_value_rejects_duplicates (e : Event) (v : Value) :
  unique_value e = Ok v <-> decodes e v.
Proof. apply unique_value_spec. Qed.

(** ** Accepted mutations *)

Definition bounded_name (maximum : nat) (s : string) : Prop :=
  trim_is_empty s = false /\ String.length s <= maximum.

Lemma valid_bounded_text_spec s n : valid_bounded_text s n = true <-> bounded_name n s.
Proof.
  unfold valid_bounded_text. rewrite andb_true_iff, negb_true_iff, bool_decide_eq_true. done.
Qed.

Record row_ok (expected : list string) (row : Row) : Prop := {
  row_nonempty : row <> [];
  row_size : length row <= MAX_FIELDS_PER_ROW;
  row_fields : row.*1 = expected;
  row_names : Forall (bounded_name MAX_SEMANTIC_NAME_BYTES) row.*1;
  row_values : Forall (fun v => MutationValue.is_well_formed v = true) row.*2;
}.

Record mutation_ok (m : LogicalSemanticMutation) : Prop := {
  mu_version : Lsm.schema_version m = LSM_SCHEMA_VERSION;
  mu_model : bounded_name MAX_SEMANTIC_NAME_BYTES (Lsm.model m);
  mu_key : bounded_name MAX_IDEMPOTENCY_KEY_BYTES (Lsm.idempotency_key m);
  mu_count : 1 <= length (Lsm.rows m) <= MAX_ROWS;
  mu_rows : exists fields, Forall (row_ok fields) (Lsm.rows m);
}.

Lemma validate_row_spec expected row :
  validate_row expected row = Ok tt <-> row_ok expected row.
Proof.
  unfold validate_row. rewrite !guard_then, try_each_ok, orb_false_iff, !bool_decide_eq_false.
  assert (Hall : Forall (fun '(field, value) =>
      (fail_if (negb (valid_bounded_text field MAX_SEMANTIC_NAME_BYTES)) LsmError.InvalidFieldName;;
       fail_if (negb (MutationValue.is_well_formed value)) LsmError.InvalidValue) = Ok tt) row
    <-> Forall (bounded_name MAX_SEMANTIC_NAME_BYTES) row.*1
        /\ Forall (fun v => MutationValue.is_well_formed v = true) row.*2).
  { rewrite !Forall_fmap, <- Forall_and. apply Forall_iff. intros [f v]. simpl.
    by rewrite guard_then, fail_if_ok, !negb_false_iff, valid_bounded_text_spec. }
  rewrite Forall_iff with (Q := fun '(field, value) =>
      (fail_if (negb (valid_bounded_text field MAX_SEMANTIC_NAME_BYTES)) LsmError.InvalidFieldName;;
       fail_if (negb (MutationValue.is_well_formed value)) LsmError.InvalidValue) = Ok tt)
    by (by intros [f v]).
  rewrite Hall. split.
  - intros ([? ?] & ? & ? & ?). constructor; try done; [lia|by apply dec_stable].
  - intros []. split_and!; try done; [lia|naive_solver].
Qed.

Lemma validate_mutation_spec m : validate_mutation m = Ok tt <-> mutation_ok m.
Proof.
  unfold validate_mutation.
  rewrite !guard_then, !negb_false_iff, !valid_bounded_text_spec, bool_decide_eq_false.
  destruct (Lsm.rows m) as [|first rest] eqn:Hr.
  - split; [naive_solver|]. intros [_ _ _ Hc _]. rewrite Hr in Hc. simpl in Hc. lia.
  - rewrite guard_then, try_each_ok, bool_decide_eq_false. split.
    + intros (Hv & Hm & Hk & Hc & Hrows). constructor; try done; rewrite ?Hr.
      * by apply dec_stable.
      * unfold MAX_ROWS in *. simpl in *. lia.
      * exists first.*1. eapply Forall_impl; [exact Hrows|]. intros row. apply validate_row_spec.
    + intros [Hv Hm Hk Hc [fields Hrows]]. rewrite Hr in *. split_and!; try done.
      * naive_solver.
      * unfold MAX_ROWS in *. simpl in *. lia.
      * assert (fields = first.*1) as -> by (apply Forall_cons in Hrows as [[] _]; done).
        eapply Forall_impl; [exact Hrows|]. intros row. apply validate_row_spec.
Qed.

(** A decoded mutation passes validation exactly when it has the supported
    schema version, a model name and an idempotency key that are not blank and
    at most 255 and 256 bytes long, and 1 to 100 rows that all have the same 1
    to 64 field names, each not blank and at most 255 bytes, with well-formed
    values. *)
Theorem validate_mutation_accepts_exactly (m : LogicalSemanticMutation) :
  validate_mutation m = Ok tt <-> mutation_ok m.
Proof. apply validate_mutation_spec. Qed.

(** ** Canonical JSON identifies the mutation *)

Lemma mutation_value_json_inj x y : MutationValue.to_json x = MutationValue.to_json y -> x = y.
Proof. destruct x, y; intros [=]; congruence. Qed.

Lemma lsm_json_inj x y : Lsm.to_json x = Lsm.to_json y -> x = y.
Proof.
  destruct x as [v o m k rs], y as [v' o' m' k' rs']. unfold Lsm.to_json. simpl. intros H.
  injection H as -> Ho -> -> Hr. f_equal; [by destruct o, o'|].
  eapply map_inj'; [|exact Hr]. intros r r' Hrow. injection Hrow as Hrow.
  eapply map_inj'; [|exact Hrow]. intros [f w] [f' w'] [= -> Hw]. f_equal.
  by apply mutation_value_json_inj.
Qed.

Lemma normalize_lsm_ok `{Crates} parse from_value input n :
  normalize_lsm parse from_value input = Ok n ->
  (exists e u, parse input = Ok e /\ decodes e u /\ from_value u = Ok (NormalizedLsm.mutation n))
  /\ mutation_ok (NormalizedLsm.mutation n)
  /\ json_to_string (Lsm.to_json (NormalizedLsm.mutation n)) = Ok (NormalizedLsm.canonical_json n)
  /\ NormalizedLsm.hash n = sha256 (NormalizedLsm.canonical_json n)
  /\ NormalizedLsm.idempotency_key_hash n
     = sha256 (Lsm.idempotency_key (NormalizedLsm.mutation n))
  /\ NormalizedLsm.input_bytes n = N.of_nat (String.length input)
  /\ (NormalizedLsm.input_bytes n ≤ MAX_INPUT_BYTES)%N.
Proof.
  unfold normalize_lsm. intros Hn. apply guard_then in Hn as [Hlen%bool_decide_eq_false Hn].
  apply bind_ok in Hn as (u & Hu%map_err_ok & Hn). apply bind_ok in Hu as (e & He & Hu).
  apply unique_value_spec in Hu. apply bind_ok in Hn as (m & Hm%map_err_ok & Hn).
  apply bind_ok in Hn as ([] & Hv%validate_mutation_spec & Hn).
  apply bind_ok in Hn as (t & Ht%map_err_ok & Hn). apply Ok_inj in Hn. subst n. simpl.
  split_and!; try done; [|lia]. by exists e, u.
Qed.
