(* ===== verification/CompilerComplete.v ===== *)
(** * Validation rejects nothing it should accept

    The converse of [CompilerSpec]: on a snapshot whose names are distinct, a
    resolution that satisfies the rules is the one [validate] returns. *)

From S2P Require Import Prelude Ordered Text Json Lsq LsqSpec Semantic SemanticSpec Compiler.
From S2P Require Import CompilerSpec LsmSpec.

(** ** Looking up by name *)

Lemma find_named {A} (name : A -> string) l x :
  NoDup (map name l) -> x ∈ l ->
  List.find (fun y => bool_decide (name y = name x)) l = Some x.
Proof.
  intros Hnd Hin. destruct (List.find _ l) as [y|] eqn:Hy.
  - apply find_elem in Hy as [Hy Heq%bool_decide_eq_true]. f_equal.
    by apply (NoDup_map_inj name l).
  - apply List.find_none with (x := x) in Hy; [|by apply list_elem_of_In].
    by rewrite bool_decide_eq_true_2 in Hy.
Qed.

Lemma find_named_filtered {A} (name : A -> string) (p : A -> bool) l x :
  NoDup (map name l) -> x ∈ l -> p x = true ->
  List.find (fun y => bool_decide (name y = name x) && p y) l = Some x.
Proof.
  intros Hnd Hin Hp. destruct (List.find _ l) as [y|] eqn:Hy.
  - apply find_elem in Hy as [Hy [Heq%bool_decide_eq_true _]%andb_true_iff]. f_equal.
    by apply (NoDup_map_inj name l).
  - apply List.find_none with (x := x) in Hy; [|by apply list_elem_of_In].
    by rewrite bool_decide_eq_true_2, Hp in Hy.
Qed.

(** ** What the threaded set records *)

Definition record_all (fs : list Field) (rels : list string) : list string :=
  foldl (fun s f => record_relationship f s) rels fs.

Lemma record_all_recorded fs rels : recorded rels fs (record_all fs rels).
Proof.
  revert rels. induction fs as [|f fs IH]; intros rels; [apply recorded_nil|].
  apply (recorded_app _ [f] (record_relationship f rels)); [apply record_relationship_recorded|].
  apply IH.
Qed.

Lemma record_all_app fs gs rels : record_all (fs ++ gs) rels = record_all gs (record_all fs rels).
Proof. apply foldl_app. Qed.

(** A threaded map whose body records the fields of each element. *)
Lemma try_map_st_complete {A B} (P : A -> B -> Prop) (f : list string -> A -> V (B * list string))
    (fields : B -> list Field) l k rels :
  (forall a b rels, P a b -> f rels a = Ok (b, record_all (fields b) rels)) -> Forall2 P l k ->
  try_map_st f rels l = Ok (k, record_all (concat (map fields k)) rels).
Proof.
  intros Hf H. revert rels. induction H as [|a b l k Hab _ IH]; intros rels; simpl; [done|].
  rewrite (Hf a b rels Hab). simpl. by rewrite IH, record_all_app.
Qed.

Section resolution.
Context (snapshot : SemanticSnapshot) (model : Model).
Context (Hdistinct : snapshot_distinct snapshot) (Hmodel : model ∈ Snapshot.models snapshot).

Lemma queried_distinct : model_distinct model.
Proof using Type*. destruct Hdistinct as [_ H]. rewrite Forall_forall in H. by apply H. Qed.

(** ** Fields *)

Lemma resolve_field_complete f :
  f ∈ Model.fields model -> resolve_field model (Field.semantic_name f) = Ok f.
Proof using Type*.
  intros Hf. unfold resolve_field.
  by rewrite (find_named Field.semantic_name _ f (distinct_fields _ queried_distinct)).
Qed.

Lemma visible_field_complete f :
  f ∈ Model.fields model -> Field.visible f = true ->
  visible_field model (Field.semantic_name f) = Ok f.
Proof using Type*.
  intros Hf Hv. unfold visible_field. rewrite (resolve_field_complete f Hf). simpl. by rewrite Hv.
Qed.

Lemma validate_literal_complete f l :
  literal_compatible (Field.data_type f) l = true -> validate_literal f l = Ok tt.
Proof using Type. unfold validate_literal. by intros ->. Qed.

(** ** Dimensions *)

Lemma resolve_dimension_complete d rd rels :
  dimension_ok model d rd ->
  resolve_dimension model rels d = Ok (rd, record_all [rd_field rd] rels).
Proof using Type*.
  intros [Hf Hn Hv Hg Ht]. unfold resolve_dimension.
  rewrite <- Hn, (resolve_field_complete _ Hf). simpl. rewrite Hv, <- Hg. simpl.
  destruct (rd_time_grain rd) as [g|] eqn:Hrg.
  - destruct Ht as [Htd Htt]; [eauto|]. rewrite Htd, Htt. simpl. by destruct rd; simpl in *; subst.
  - simpl. by destruct rd; simpl in *; subst.
Qed.

(** ** Metrics *)

Lemma resolve_metric_filter_complete name mf rf rels :
  metric_filter_ok model mf rf ->
  match mf with
  | None => Ok (None, rels)
  | Some filter =>
      filter_field ← map_err (fun _ => CompileError.InvalidMetricField name)
                       (resolve_field model (MetricFilter.field filter));
      validate_literal filter_field (MetricFilter.value filter);;
      Ok (Some (filter_field, MetricFilter.value filter), record_relationship filter_field rels)
  end = Ok (rf, match rf with Some (f, _) => record_relationship f rels | None => rels end).
Proof using Type*.
  destruct rf as [[f v]|]; simpl; [|by intros ->].
  intros (Hf & -> & Hl). simpl. rewrite (resolve_field_complete f Hf). simpl.
  by rewrite validate_literal_complete.
Qed.

Lemma resolve_anchor_complete name oa ra :
  match ra with
  | None => oa = None
  | Some a => a ∈ Model.fields model /\ oa = Some (Field.semantic_name a)
      /\ Field.relationship a = None /\ Field.entity_key a = true
  end ->
  transpose (fun anchor =>
      anchor_field ← map_err (fun _ => CompileError.InvalidAggregationAnchor name)
                       (resolve_field model anchor);
      fail_if (bool_decide (is_Some (Field.relationship anchor_field))
               || negb (Field.entity_key anchor_field))
        (CompileError.InvalidAggregationAnchor name);;
      Ok anchor_field) oa = Ok ra.
Proof using Type*.
  destruct ra as [a|]; [|by intros ->].
  intros (Ha & -> & Hr & Hk). simpl. rewrite (resolve_field_complete a Ha). simpl.
  by rewrite Hr, Hk.
Qed.

(** A guard whose conclusion holds is passed. *)
Lemma implied_guard (P : Prop) `{!Decision P} (b : bool) :
  (P -> b = true) -> bool_decide P && negb b = false.
Proof using Type. intros H. case_bool_decide; [by rewrite H|done]. Qed.

Lemma resolve_metric_complete r m rels :
  metric_ok snapshot model r m ->
  resolve_metric snapshot model rels r = Ok (m, record_all (metric_fields m) rels).
Proof using Type*.
  intros [Hm Hn Hv Hf Hfn Hdir Hek Hty Hflt Hanc Hleg Hmeta]. unfold resolve_metric.
  rewrite <- Hn, (find_named Metric.semantic_name _ _ (distinct_metrics _ queried_distinct) Hm).
  cbn [ok_or mbind result_bind]. rewrite Hv, <- Hfn, (resolve_field_complete _ Hf).
  cbn [map_err mbind result_bind fail_if negb]. rewrite Hdir.
  rewrite (bool_decide_eq_false_2 (is_Some None)) by apply is_Some_None.
  rewrite (implied_guard (_ = Aggregation.Count)) by (intros H; apply Hek; by left).
  rewrite (implied_guard (_ = Aggregation.CountDistinct)) by (intros H; apply Hek; by right).
  rewrite (bool_decide_eq_false_2 (_ <> expected_metric_type _ _)) by naive_solver.
  cbn [mbind result_bind fail_if bool_decide].
  rewrite (resolve_metric_filter_complete _ _ (rm_filter m)) by exact Hflt.
  cbn [mbind result_bind].
  replace (bool_decide (Snapshot.schema_version snapshot = "1") && _) with false.
  2:{ symmetry. case_bool_decide as Hs; [|done]. by destruct (Hleg Hs) as [-> ->]. }
  replace (bool_decide (Snapshot.schema_version snapshot = "2") && _) with false.
  2:{ symmetry. case_bool_decide as Hs; [|done]. by destruct (Hmeta Hs) as [? ->]. }
  cbn [mbind result_bind fail_if].
  rewrite (resolve_anchor_complete _ _ (rm_aggregation_anchor m)) by exact Hanc. simpl.
  unfold metric_fields. by destruct m as [? ? [[? ?]|] ?].
Qed.

(** ** Filters *)

Lemma resolve_comparison_complete f v o rels :
  f ∈ Model.fields model -> Field.visible f = true ->
  literal_compatible (Field.data_type f) v = true ->
  resolve_comparison model (Field.semantic_name f) v o rels
  = Ok (ResolvedFilter.Comparison o f v, record_relationship f rels).
Proof using Type*.
  intros Hf Hv Hl. unfold resolve_comparison. rewrite visible_field_complete by done. simpl.
  by rewrite validate_literal_complete.
Qed.

Lemma resolve_args_complete args rs rels :
  Forall (fun f => forall rf rels, filter_denotes f rf -> filter_resolved model rf ->
            resolve_filter model f rels = Ok (rf, record_all (filter_fields rf) rels)) args ->
  Forall2 filter_denotes args rs -> Forall (filter_resolved model) rs ->
  try_map_st (fun rels arg => resolve_filter model arg rels) rels args
  = Ok (rs, record_all (concat (map filter_fields rs)) rels).
Proof using Type*.
  intros IH Hden. revert rels. induction Hden as [|f rf args rs Hf _ IHl]; intros rels Hres; [done|].
  apply Forall_cons in IH as [Hhd Htl]. apply Forall_cons in Hres as [Hr Hrs]. simpl.
  rewrite (Hhd rf rels) by done. simpl. by rewrite IHl, record_all_app.
Qed.

Lemma resolve_filter_complete f : forall rf rels,
  filter_denotes f rf -> filter_resolved model rf ->
  resolve_filter model f rels = Ok (rf, record_all (filter_fields rf) rels).
Proof using Type*.
  induction f as [args IH|args IH|f IH| | | | | | |fn vs|fn|fn] using Filter.ind';
    intros rf rels Hden Hres; inversion Hden; subst; inversion Hres; subst; cbn [resolve_filter];
    try (by apply resolve_comparison_complete).
  - by rewrite (resolve_args_complete args rs).
  - by rewrite (resolve_args_complete args rs).
  - by rewrite (IH r).
  - rewrite visible_field_complete by done. simpl.
    assert (Hl : try_each (validate_literal f) vs = Ok tt); [|by rewrite Hl].
    apply try_each_ok. eapply Forall_impl; [eassumption|]. intros v. apply validate_literal_complete.
  - by rewrite visible_field_complete.
  - by rewrite visible_field_complete.
Qed.

(** ** Relationships *)

Lemma resolve_relationship_complete r :
  relationship_ok snapshot model r ->
  resolve_relationship snapshot model (Relationship.semantic_name r)
  = Ok (Relationship.semantic_name r, r).
Proof using Type*.
  intros [_ Hfirst (target & Ht & Hn & Hsrc & Hsafe)]. unfold resolve_relationship.
  rewrite Hfirst. cbn [ok_or mbind result_bind]. unfold join_safe in Hsafe.
  rewrite <- Hn, (find_named Model.semantic_name _ _ (distinct_models _ Hdistinct) Ht).
  cbn [ok_or mbind result_bind]. rewrite (bool_decide_eq_false_2 (Model.source _ <> _)) by naive_solver.
  destruct (Relationship.cardinality r); try done; apply has_entity_key_spec in Hsafe; simpl;
    by rewrite Hsafe.
Qed.

Lemma resolve_relationships_complete rels :
  bt_wf rels ->
  (forall n r, (n, r) ∈ rels -> n = Relationship.semantic_name r /\ relationship_ok snapshot model r) ->
  bt_from_list <$> try_map (resolve_relationship snapshot model) rels.*1 = Ok rels.
Proof using Type*.
  intros Hwf Hok. assert (Hmap : try_map (resolve_relationship snapshot model) rels.*1 = Ok rels).
  { apply try_map_ok. apply Forall2_fmap_l, Forall_Forall2_diag, Forall_forall.
    intros [n r] Hin. destruct (Hok n r Hin) as [-> Hr]. by apply resolve_relationship_complete. }
  rewrite Hmap. simpl. f_equal. apply bt_wf_perm_eq; [apply bt_from_list_wf|done|].
  by apply bt_from_list_perm, bs_wf_nodup.
Qed.

(** ** Fan-out *)

Lemma check_fanout_metric_complete anchor m a :
  rm_aggregation_anchor m = Some a -> fanout_metric_ok a m ->
  (forall b, anchor = Some b -> Field.semantic_name b = Field.semantic_name a) ->
  check_fanout_metric anchor m = Ok (Some a).
Proof using Type.
  intros Ha [_ Hf Hadd] Hb. unfold check_fanout_metric. rewrite Ha. simpl.
  rewrite (bool_decide_eq_false_2 (_ = Some Additivity.SemiAdditive)) by done.
  destruct (rm_filter m) as [[f v]|]; [rewrite (Hf f v eq_refl)|]; simpl;
    (destruct anchor as [b|]; [rewrite (Hb b eq_refl), bool_decide_eq_false_2 by naive_solver|]; done).
Qed.

Lemma fanout_fold_complete ms a anchor :
  Forall (fun m => rm_aggregation_anchor m = Some a /\ fanout_metric_ok a m) ms ->
  ms <> [] \/ anchor = Some a -> anchor = None \/ anchor = Some a ->
  try_fold check_fanout_metric anchor ms = Ok (Some a).
Proof using Type.
  intros H. revert anchor. induction H as [|m ms [Ha Hm] _ IH]; intros anchor Hne Hinit; simpl.
  - destruct Hne as [?| ->]; done.
  - rewrite (check_fanout_metric_complete anchor m a) by naive_solver. simpl. apply IH; auto.
Qed.

Lemma fanout_anchor_complete rels ms anchor :
  (forall m a, m ∈ ms -> rm_aggregation_anchor m = Some a -> a ∈ Model.fields model) ->
  anchor_ok rels ms anchor -> fanout_anchor rels ms = Ok anchor.
Proof using Type*.
  intros Hin Hok. unfold fanout_anchor. destruct (List.find is_fanout _) as [r|] eqn:Hr.
  - apply find_elem in Hr as [Hel Hc%bool_decide_eq_true].
    apply list_elem_of_fmap in Hel as ([n r'] & -> & Hel).
    assert (Hfan : has_fanout rels) by (by exists n, r').
    destruct anchor as [a|]; [|by destruct Hok].
    destruct Hok as (_ & Hne & Hall & m0 & Hm0 & Ha0). rewrite bool_decide_eq_false_2 by done. simpl.
    apply fanout_fold_complete; [|by left|by left]. apply Forall_forall. intros m Hm.
    rewrite Forall_forall in Hall. pose proof (Hall m Hm) as [(a' & Ha' & Hn) Hf Hadd].
    assert (a' = a) as ->.
    { apply (NoDup_map_inj Field.semantic_name (Model.fields model));
        [apply (distinct_fields _ queried_distinct)|eauto..|done]. }
    split; [done|]. by apply Hall.
  - destruct anchor as [a|]; [|done]. destruct Hok as ((n & r & Hel & Hc) & _).
    apply List.find_none with (x := r) in Hr.
    + unfold is_fanout in Hr. by rewrite bool_decide_eq_true_2 in Hr.
    + apply list_elem_of_In, list_elem_of_fmap. by exists (n, r).
Qed.
End resolution.

(** ** Queries *)

(** The configured limits are usable. *)
Definition options_ok (options : CompilerOptions) : Prop :=
  default_limit options <> 0%N /\ hard_limit options <> 0%N
  /\ (default_limit options ≤ hard_limit options)%N.

Lemma options_guard options :
  bool_decide (default_limit options = 0%N) || bool_decide (hard_limit options = 0%N)
  || bool_decide (hard_limit options < default_limit options)%N = false <-> options_ok options.
Proof.
  unfold options_ok. rewrite !orb_false_iff, !bool_decide_eq_false, N.nlt_ge. tauto.
Qed.

Lemma resolve_query_filter_complete snapshot model of_ rf rels :
  snapshot_distinct snapshot -> model ∈ Snapshot.models snapshot ->
  option_Forall2 filter_denotes of_ rf -> (forall f, rf = Some f -> filter_resolved model f) ->
  match of_ with
  | None => Ok (None, rels)
  | Some filter =>
      '(resolved, rels) ← resolve_filter model filter rels; Ok (Some resolved, rels)
  end = Ok (rf, record_all match rf with Some f => filter_fields f | None => [] end rels).
Proof.
  intros Hd Hm [f r Hden|] Hres; [|done].
  by rewrite (resolve_filter_complete snapshot model Hd Hm f r) by auto.
Qed.

(** The recorded names are those of the joined relationships. *)
Lemma recorded_keys q snapshot options v :
  validated_ok q snapshot options v -> record_all (used_fields v) [] = (vq_relationships v).*1.
Proof.
  intros Hv. destruct (record_all_recorded (used_fields v) []) as [Hin Hwf].
  apply bs_ext; [apply Hwf; constructor|apply Hv|]. intros r.
  rewrite Hin, (vo_joins _ _ _ _ Hv). set_solver.
Qed.

Lemma concat_singletons {A B} (f : A -> B) l : concat (map (fun x => [f x]) l) = map f l.
Proof. induction l; simpl; congruence. Qed.

Lemma validate_complete `{HC : Crates} normalized snapshot options v :
  snapshot_distinct snapshot -> check_snapshot snapshot = Ok tt -> options_ok options ->
  validated_ok (NormalizedLsq.query normalized) snapshot options v ->
  validate normalized snapshot options = Ok v.
Proof.
  intros Hd Hs Ho Hv. pose proof (recorded_keys _ _ _ _ Hv) as Hkeys.
  destruct Hv as [Hm Hmn Hq Hl Hlb Hdim Hmet Hfr Hfd Hord Hproj Hwf Hj Hrel Ha].
  unfold validate. rewrite Hs. cbn [mbind result_bind]. rewrite (proj2 (options_guard _) Ho).
  cbn [fail_if mbind result_bind]. rewrite <- Hmn.
  rewrite (find_named_filtered Model.semantic_name Model.queryable _ _ (distinct_models _ Hd) Hm Hq).
  cbn [ok_or mbind result_bind]. rewrite <- Hl.
  rewrite (bool_decide_eq_false_2 (hard_limit options < _)%N) by lia. cbn [fail_if mbind result_bind].
  rewrite (try_map_st_complete _ _ (fun rd => [rd_field rd]) _ _ _
             (resolve_dimension_complete snapshot _ Hd Hm) Hdim).
  cbn [mbind result_bind].
  rewrite (try_map_st_complete _ _ metric_fields _ _ _
             (resolve_metric_complete snapshot _ Hd Hm) Hmet).
  cbn [mbind result_bind].
  rewrite (resolve_query_filter_complete snapshot _ _ _ _ Hd Hm Hfd Hfr). cbn [mbind result_bind].
  rewrite (proj2 (try_each_ok _ _ tt)).
  2:{ eapply Forall_impl; [exact Hproj|]. intros o Hin. apply fail_if_ok, negb_false_iff.
      by apply bool_decide_eq_true, elem_of_bs_from_list. }
  cbn [mbind result_bind]. rewrite <- !record_all_app, concat_singletons.
  unfold used_fields in Hkeys. rewrite Hkeys.
  rewrite (resolve_relationships_complete snapshot _ Hd Hm _ Hwf Hrel). cbn [mbind result_bind].
  rewrite (fanout_anchor_complete snapshot _ Hd Hm _ _ (vq_aggregation_anchor v)); [|clear Ha|done].
  - cbn [mbind result_bind]. rewrite <- Hord. by destruct v.
  - intros m a Hin Hma. apply list_elem_of_lookup_1 in Hin as [i Hi].
    destruct (Forall2_lookup_r _ _ _ _ _ Hmet Hi) as (r & _ & Hok).
    pose proof (mo_anchor _ _ _ _ Hok) as H. rewrite Hma in H. apply H.
Qed.
