(* ===== verification/Mutation.v ===== *)
(** * The mutation compiler ([mutation.rs])

    [compile_lsm] checks a normalised mutation against the writable policy of
    its model and writes one parameterised [INSERT] statement.  The source
    indexes maps and slices with [m[k]], which panics when the key is absent:
    a run ends in a value, in one of the declared errors, or in a panic. *)

From S2P Require Import Prelude Ordered Text Json Lsq Semantic Lsm Compiler.

Definition MUTATION_COMPILER_SEMANTIC_VERSION : string := "0.1.0".

(** ** Data *)

Module MutationCapabilities.
Record MutationCapabilities : Type := mk {
  profile : string;
  writable_models : list string;
}.
Definition allows (c : MutationCapabilities) (model : string) : bool :=
  bool_decide (model ∈ writable_models c).
End MutationCapabilities.
Abbreviation MutationCapabilities := MutationCapabilities.MutationCapabilities.

Record MutationCompilerOptions : Type := {
  hard_row_limit : N;
  hard_request_byte_limit : N;
}.

Definition default_mutation_options : MutationCompilerOptions :=
  {| hard_row_limit := 100; hard_request_byte_limit := 1048576 |}.

Module MutationParameter.
Record MutationParameter : Type := mk {
  position : nat;
  data_type : DataType;
  value : MutationValue;
}.
Definition to_json (p : MutationParameter) : json :=
  JObj [("position", JInt (Z.of_nat (position p)));
        ("data_type", DataType.to_json (data_type p));
        ("value", MutationValue.to_json (value p))].
End MutationParameter.
Abbreviation MutationParameter := MutationParameter.MutationParameter.

Module MutationLineage.
Record MutationLineage : Type := mk {
  model : string;
  fields : list string;
  returning_fields : list string;
  source_columns : list string;
}.
End MutationLineage.
Abbreviation MutationLineage := MutationLineage.MutationLineage.

Module CompiledMutation.
Record CompiledMutation : Type := mk {
  statement : string;
  parameters : list MutationParameter;
  returning_schema : list OutputColumn;
  lineage : MutationLineage;
  mutation_hash : string;
  statement_hash : string;
  expected_rows : nat;
  operation : MutationOperation;
  model : string;
}.
End CompiledMutation.
Abbreviation CompiledMutation := CompiledMutation.CompiledMutation.

Module MutationCompileError.
Inductive MutationCompileError : Type :=
| UnsupportedSnapshotVersion (version : string)
| InvalidRevisionHash
| InvalidLimitConfiguration
| ModelNotWritable
| OperationNotEnabled
| RowLimitExceeded
| RequestByteLimitExceeded
| InvalidWritableModel
| FieldNotWritable (field : string)
| RequiredFieldMissing (field : string)
| FieldTypeMismatch (field : string)
| NullNotAllowed (field : string)
| ConflictFieldMissing (field : string)
| NoUpdatableField
| HashSerialization.

Definition code (e : MutationCompileError) : string :=
  match e with
  | UnsupportedSnapshotVersion _ => "SEMANTIC_UNSUPPORTED_SNAPSHOT_VERSION"
  | InvalidRevisionHash => "SEMANTIC_INVALID_REVISION_HASH"
  | InvalidLimitConfiguration => "MUTATION_INVALID_LIMIT_CONFIGURATION"
  | ModelNotWritable => "MUTATION_MODEL_NOT_WRITABLE"
  | OperationNotEnabled => "MUTATION_OPERATION_NOT_ENABLED"
  | RowLimitExceeded => "MUTATION_ROW_LIMIT_EXCEEDED"
  | RequestByteLimitExceeded => "MUTATION_REQUEST_BYTES_EXCEEDED"
  | InvalidWritableModel => "MUTATION_INVALID_WRITABLE_MODEL"
  | FieldNotWritable _ => "MUTATION_FIELD_NOT_WRITABLE"
  | RequiredFieldMissing _ => "MUTATION_REQUIRED_FIELD_MISSING"
  | FieldTypeMismatch _ => "MUTATION_FIELD_TYPE_MISMATCH"
  | NullNotAllowed _ => "MUTATION_NULL_NOT_ALLOWED"
  | ConflictFieldMissing _ => "MUTATION_CONFLICT_FIELD_MISSING"
  | NoUpdatableField => "MUTATION_NO_UPDATABLE_FIELD"
  | HashSerialization => "MUTATION_HASH_SERIALIZATION_FAILED"
  end.
End MutationCompileError.
Abbreviation MutationCompileError := MutationCompileError.MutationCompileError.

(** How a run ends without a value. *)
Inductive Fault : Type :=
| Raised (e : MutationCompileError)
| Panicked.

Abbreviation M A := (result Fault A).

(** [map[key]]. *)
Definition index {A} (m : list (string * A)) (key : string) : M A :=
  ok_or (bt_get key m) Panicked.

(** ** Validation *)

Definition validate_snapshot `{Crates} (snapshot : SemanticSnapshot) : M unit :=
  fail_if (negb (bool_decide (Snapshot.schema_version snapshot = "1")
                 || bool_decide (Snapshot.schema_version snapshot = "2")))
    (Raised (MutationCompileError.UnsupportedSnapshotVersion (Snapshot.schema_version snapshot)));;
  fail_if (negb (is_sha256 (Snapshot.revision_hash snapshot)))
    (Raised MutationCompileError.InvalidRevisionHash);;
  calculated ← map_err (fun _ => Raised MutationCompileError.HashSerialization)
                 (calculate_revision_hash snapshot);
  fail_if (bool_decide (calculated <> Snapshot.revision_hash snapshot))
    (Raised MutationCompileError.InvalidRevisionHash).

(** The field is absent, or lives in a joined relation. *)
Definition not_direct (model_fields : list (string * Field)) (name : string) : bool :=
  match bt_get name model_fields with
  | None => true
  | Some field => bool_decide (is_Some (Field.relationship field))
  end.

Definition by_name (fields : list Field) : list (string * Field) :=
  bt_from_list (map (fun field => (Field.semantic_name field, field)) fields).

(** [if !set.insert(x) || bad(x) { return Err(InvalidWritableModel) }] over a list. *)
Definition check_names (bad : string -> bool) (names : list string) : M (list string) :=
  try_fold (fun seen name =>
    fail_if (bool_decide (name ∈ seen) || bad name)
      (Raised MutationCompileError.InvalidWritableModel);;
    Ok (bs_insert name seen)) [] names.

Definition validate_conflict_fields (fields : list WritableField) (names : list string)
    : M (list string) :=
  try_fold (fun seen name =>
    policy ← ok_or (List.find (fun f => bool_decide (WritableField.field f = name)) fields)
               (Raised MutationCompileError.InvalidWritableModel);
    fail_if (bool_decide (name ∈ seen) || WritableField.updatable_on_conflict policy)
      (Raised MutationCompileError.InvalidWritableModel);;
    Ok (bs_insert name seen)) [] names.

Definition validate_writable_model (model_fields : list Field) (writable : WritableModel)
    : M unit :=
  fail_if ((negb (WritableModel.insert writable)
            && bool_decide (WritableModel.upsert writable = None))
           || bool_decide (WritableModel.fields writable = [])
           || bool_decide (WritableModel.returning writable = []))
    (Raised MutationCompileError.InvalidWritableModel);;
  let model_fields := by_name model_fields in
  check_names (fun name => trim_is_empty name || not_direct model_fields name)
    (map WritableField.field (WritableModel.fields writable));;
  check_names (not_direct model_fields) (WritableModel.returning writable);;
  match WritableModel.upsert writable with
  | Some upsert =>
      fail_if (bool_decide (UpsertPolicy.conflict_fields upsert = []))
        (Raised MutationCompileError.InvalidWritableModel);;
      validate_conflict_fields (WritableModel.fields writable)
        (UpsertPolicy.conflict_fields upsert);;
      Ok tt
  | None => Ok tt
  end.

Definition value_compatible (data_type : DataType) (value : MutationValue) : bool :=
  match data_type, value with
  | DataType.Text, MutationValue.Text _
  | DataType.Boolean, MutationValue.Boolean _
  | DataType.Integer, MutationValue.Integer _
  | DataType.Numeric, MutationValue.Numeric _
  | DataType.Date, MutationValue.Date _
  | (DataType.Timestamp | DataType.TimestampTz), MutationValue.Timestamp _ => true
  | _, _ => false
  end.

Definition validate_value (field : Field) (writable_field : WritableField)
    (value : MutationValue) : M unit :=
  if decide (value = MutationValue.Null) then
    if WritableField.nullable writable_field then Ok tt
    else Err (Raised (MutationCompileError.NullNotAllowed (Field.semantic_name field)))
  else if value_compatible (Field.data_type field) value then Ok tt
  else Err (Raised (MutationCompileError.FieldTypeMismatch (Field.semantic_name field))).

(** ** Compilation *)

(** Aggregates the checks of [compile_lsm] on one input name. *)
Definition check_input (mutation : LogicalSemanticMutation) (writable : WritableModel)
    (writable_by_name : list (string * WritableField)) (field_by_name : list (string * Field))
    (name : string) : M unit :=
  policy ← ok_or (bt_get name writable_by_name)
             (Raised (MutationCompileError.FieldNotWritable name));
  field ← ok_or (bt_get name field_by_name) (Raised MutationCompileError.InvalidWritableModel);
  fail_if (bool_decide (is_Some (Field.relationship field)))
    (Raised MutationCompileError.InvalidWritableModel);;
  try_each (fun row => value ← index row name; validate_value field policy value)
    (Lsm.rows mutation);;
  fail_if (bool_decide (Lsm.operation mutation = MutationOperation.Upsert)
           && negb (WritableField.updatable_on_conflict policy)
           && negb match WritableModel.upsert writable with
                   | Some upsert => bool_decide (name ∈ UpsertPolicy.conflict_fields upsert)
                   | None => false
                   end)
    (Raised (MutationCompileError.FieldNotWritable name)).

Definition updatable (writable_by_name : list (string * WritableField)) (name : string) : bool :=
  match bt_get name writable_by_name with
  | Some field => WritableField.updatable_on_conflict field
  | None => false
  end.

(** The [update_names] of [compile_lsm]. *)
Definition select_update_names (operation : MutationOperation) (writable : WritableModel)
    (writable_by_name : list (string * WritableField)) (input_names : list string)
    : M (list string) :=
  match WritableModel.upsert writable with
  | Some upsert =>
      if decide (operation = MutationOperation.Upsert) then
        try_each (fun field =>
            fail_if (bool_decide (field ∉ input_names))
              (Raised (MutationCompileError.ConflictFieldMissing field)))
          (UpsertPolicy.conflict_fields upsert);;
        let names := List.filter (updatable writable_by_name) input_names in
        fail_if (bool_decide (names = [])) (Raised MutationCompileError.NoUpdatableField);;
        Ok names
      else Ok []
  | None => Ok []
  end.

Definition parameter_sql (position : nat) (data_type : DataType) : string :=
  match data_type with
  | DataType.Text => "$" +:+ pretty position +:+ "::text"
  | DataType.Boolean => "$" +:+ pretty position +:+ "::text::" +:+ "boolean"
  | DataType.Integer => "$" +:+ pretty position +:+ "::text::" +:+ "bigint"
  | DataType.Numeric => "$" +:+ pretty position +:+ "::text::" +:+ "numeric"
  | DataType.Date => "$" +:+ pretty position +:+ "::text::" +:+ "date"
  | DataType.Timestamp => "$" +:+ pretty position +:+ "::text::" +:+ "timestamp"
  | DataType.TimestampTz => "$" +:+ pretty position +:+ "::text::" +:+ "timestamptz"
  end.

Definition quoted_column (fields : list (string * Field)) (name : string) : M string :=
  field ← index fields name; Ok (quote_identifier (Field.column field)).

(** One value of a row: binds a fresh parameter. *)
Definition push_value (fields : list (string * Field)) (row : Row)
    (parameters : list MutationParameter) (name : string)
    : M (string * list MutationParameter) :=
  field ← index fields name;
  value ← index row name;
  let position := length parameters + 1 in
  Ok (parameter_sql position (Field.data_type field),
      parameters ++ [MutationParameter.mk position (Field.data_type field) value]).

Definition push_row (fields : list (string * Field)) (input_names : list string)
    (parameters : list MutationParameter) (row : Row) : M (string * list MutationParameter) :=
  '(values, parameters) ← try_map_st (push_value fields row) parameters input_names;
  Ok ("  (" +:+ join ", " values +:+ ")", parameters).

(** [ON CONFLICT (..) DO UPDATE SET ..] of an upsert. *)
Definition conflict_clause (operation : MutationOperation) (writable : WritableModel)
    (fields : list (string * Field)) (update_names : list string) : M string :=
  if decide (operation = MutationOperation.Upsert) then
    upsert ← ok_or (WritableModel.upsert writable)
               (Raised MutationCompileError.InvalidWritableModel);
    conflict ← try_map (quoted_column fields) (UpsertPolicy.conflict_fields upsert);
    updates ← try_map (fun name =>
        column ← quoted_column fields name;
        Ok ("  " +:+ column +:+ " = EXCLUDED." +:+ column)) update_names;
    Ok (nl +:+ "ON CONFLICT (" +:+ join ", " conflict +:+ ") DO UPDATE SET" +:+ nl
        +:+ join ("," +:+ nl) updates)
  else Ok EmptyString.

Definition render `{Crates} (normalized : NormalizedLsm) (snapshot : SemanticSnapshot)
    (schema relation : string) (writable : WritableModel) (fields : list (string * Field))
    (input_names update_names : list string) (capability_profile : string)
    : M CompiledMutation :=
  let mutation := NormalizedLsm.mutation normalized in
  columns ← try_map (quoted_column fields) input_names;
  '(value_rows, parameters) ← try_map_st (push_row fields input_names) [] (Lsm.rows mutation);
  let statement :=
    "INSERT INTO " +:+ quote_identifier schema +:+ "." +:+ quote_identifier relation
    +:+ " (" +:+ join ", " columns +:+ ")" +:+ nl +:+ "VALUES" +:+ nl
    +:+ join ("," +:+ nl) value_rows in
  conflict ← conflict_clause (Lsm.operation mutation) writable fields update_names;
  let statement := statement +:+ conflict in
  returning_schema ← try_map (fun name =>
      field ← index fields name; Ok (OutputColumn.mk name (Field.data_type field)))
    (WritableModel.returning writable);
  returning ← try_map (fun name =>
      column ← quoted_column fields name;
      Ok ("  " +:+ column +:+ " AS " +:+ quote_identifier name))
    (WritableModel.returning writable);
  let statement := statement +:+ nl +:+ "RETURNING" +:+ nl +:+ join ("," +:+ nl) returning in
  let statement_hash := sha256 statement in
  parameter_hash_input ← map_err (fun _ => Raised MutationCompileError.HashSerialization)
    (json_to_string (JArr (map MutationParameter.to_json parameters)));
  let mutation_hash := sha256
    (NormalizedLsm.hash normalized +:+ nl +:+ Snapshot.revision_hash snapshot +:+ nl
     +:+ MUTATION_COMPILER_SEMANTIC_VERSION +:+ nl +:+ capability_profile +:+ nl
     +:+ statement_hash +:+ nl +:+ parameter_hash_input) in
  source_columns ← try_map (fun name =>
      field ← index fields name;
      Ok (schema +:+ "." +:+ relation +:+ "." +:+ Field.column field))
    (input_names ++ WritableModel.returning writable);
  Ok {| CompiledMutation.statement := statement;
        CompiledMutation.parameters := parameters;
        CompiledMutation.returning_schema := returning_schema;
        CompiledMutation.lineage :=
          {| MutationLineage.model := Lsm.model mutation;
             MutationLineage.fields := input_names;
             MutationLineage.returning_fields := WritableModel.returning writable;
             MutationLineage.source_columns := bs_from_list source_columns |};
        CompiledMutation.mutation_hash := mutation_hash;
        CompiledMutation.statement_hash := statement_hash;
        CompiledMutation.expected_rows := length (Lsm.rows mutation);
        CompiledMutation.operation := Lsm.operation mutation;
        CompiledMutation.model := Lsm.model mutation |}.

(** The guards of [compile_lsm] on limits and the requested operation. *)
Definition check_limits (normalized : NormalizedLsm) (writable : WritableModel)
    (options : MutationCompilerOptions) : M unit :=
  fail_if (bool_decide (WritableModel.max_rows writable = 0%N)
           || bool_decide (hard_row_limit options < WritableModel.max_rows writable)%N
           || bool_decide (WritableModel.max_request_bytes writable = 0%N)
           || bool_decide (hard_request_byte_limit options
                           < WritableModel.max_request_bytes writable)%N)
    (Raised MutationCompileError.InvalidWritableModel);;
  fail_if (bool_decide (WritableModel.max_rows writable
             < N.of_nat (length (Lsm.rows (NormalizedLsm.mutation normalized))))%N)
    (Raised MutationCompileError.RowLimitExceeded);;
  fail_if (bool_decide (WritableModel.max_request_bytes writable
             < NormalizedLsm.input_bytes normalized)%N)
    (Raised MutationCompileError.RequestByteLimitExceeded);;
  fail_if match Lsm.operation (NormalizedLsm.mutation normalized) with
          | MutationOperation.Insert => negb (WritableModel.insert writable)
          | MutationOperation.Upsert => bool_decide (WritableModel.upsert writable = None)
          end (Raised MutationCompileError.OperationNotEnabled).

Definition compile_lsm `{Crates} (normalized : NormalizedLsm) (snapshot : SemanticSnapshot)
    (capabilities : MutationCapabilities) (options : MutationCompilerOptions)
    : M CompiledMutation :=
  let mutation := NormalizedLsm.mutation normalized in
  validate_snapshot snapshot;;
  fail_if (bool_decide (hard_row_limit options = 0%N)
           || bool_decide (hard_request_byte_limit options = 0%N))
    (Raised MutationCompileError.InvalidLimitConfiguration);;
  fail_if (trim_is_empty (MutationCapabilities.profile capabilities)
           || negb (MutationCapabilities.allows capabilities (Lsm.model mutation)))
    (Raised MutationCompileError.ModelNotWritable);;
  model ← ok_or (List.find (fun m => bool_decide (Model.semantic_name m = Lsm.model mutation))
                   (Snapshot.models snapshot))
            (Raised MutationCompileError.ModelNotWritable);
  writable ← ok_or (Model.writable model) (Raised MutationCompileError.ModelNotWritable);
  validate_writable_model (Model.fields model) writable;;
  check_limits normalized writable options;;
  let field_by_name := by_name (Model.fields model) in
  let writable_by_name :=
    bt_from_list (map (fun f => (WritableField.field f, f)) (WritableModel.fields writable)) in
  first ← ok_or (head (Lsm.rows mutation)) Panicked;
  let input_names := first.*1 in
  try_each (check_input mutation writable writable_by_name field_by_name) input_names;;
  update_names ← select_update_names (Lsm.operation mutation) writable writable_by_name input_names;
  try_each (fun field =>
      fail_if (bool_decide (WritableField.field field ∉ input_names))
        (Raised (MutationCompileError.RequiredFieldMissing (WritableField.field field))))
    (List.filter WritableField.required_on_insert (WritableModel.fields writable));;
  render normalized snapshot (Relation.schema (Model.source model))
    (Relation.relation (Model.source model)) writable field_by_name input_names update_names
    (MutationCapabilities.profile capabilities).
