(* ===== verification/MutationSpec.v ===== *)
(** * What a compiled mutation guarantees

    The published policy, the inputs a mutation may carry, the parameters and
    the text of its statement, and the absence of panics. *)

From S2P Require Import Prelude Ordered Text Json Lsq LsqSpec Semantic Lsm LsmSpec Compiler.
From S2P Require Import CompilerSpec CompilerSql Mutation.

(** ** Writable policies *)

(** [name] resolves to a field stored in the model's own relation. *)
Definition direct_field (fields : list Field) (name : string) (f : Field) : Prop :=
  bt_get name (by_name fields) = Some f /\ Field.relationship f = None.

Definition is_direct (fields : list Field) (name : string) : Prop :=
  exists f, direct_field fields name f.

Lemma not_direct_spec fields name :
  not_direct (by_name fields) name = false <-> is_direct fields name.
Proof.
  unfold not_direct, is_direct, direct_field. destruct (bt_get name (by_name fields)) as [f|].
  - rewrite bool_decide_eq_false, <- eq_None_not_Some. naive_solver.
  - naive_solver.
Qed.

Lemma by_name_get fields name f :
  bt_get name (by_name fields) = Some f -> f ∈ fields /\ Field.semantic_name f = name.
Proof.
  intros H%bt_from_list_get_elem. by apply list_elem_of_fmap in H as (g & [= -> ->] & Hg).
Qed.

(** A conflict field is an input field that an upsert never updates. *)
Definition conflict_ok (fields : list WritableField) (name : string) : Prop :=
  exists p, List.find (fun f => bool_decide (WritableField.field f = name)) fields = Some p
            /\ WritableField.updatable_on_conflict p = false.

Record policy_ok (fields : list Field) (w : WritableModel) : Prop := {
  pol_operation : WritableModel.insert w = true \/ is_Some (WritableModel.upsert w);
  pol_nonempty : WritableModel.fields w <> [] /\ WritableModel.returning w <> [];
  pol_distinct : NoDup (map WritableField.field (WritableModel.fields w));
  pol_fields : Forall (fun n => trim_is_empty n = false /\ is_direct fields n)
                 (map WritableField.field (WritableModel.fields w));
  pol_returning_distinct : NoDup (WritableModel.returning w);
  pol_returning : Forall (is_direct fields) (WritableModel.returning w);
  pol_upsert : forall u, WritableModel.upsert w = Some u ->
    UpsertPolicy.conflict_fields u <> [] /\ NoDup (UpsertPolicy.conflict_fields u)
    /\ Forall (conflict_ok (WritableModel.fields w)) (UpsertPolicy.conflict_fields u);
}.

Section distinct_loop.
Context {P : string -> Prop} (check : list string -> string -> M (list string)).
Context (Hcheck : forall seen name seen', check seen name = Ok seen' <->
           (name ∉ seen) /\ P name /\ seen' = bs_insert name seen).

(** A loop over names that inserts each into a set and rejects repetitions. *)
Lemma distinct_loop names : forall seen,
  (exists s, try_fold check seen names = Ok s) <->
  NoDup names /\ Forall P names /\ (forall n, n ∈ names -> n ∉ seen).
Proof using Hcheck.
  induction names as [|n names IH]; intros seen; simpl.
  - split; [|eauto]. intros _. split_and!; [constructor|constructor|set_solver].
  - setoid_rewrite bind_ok. rewrite NoDup_cons, Forall_cons. split.
    + intros (s & seen' & (Hn & HP & ->)%Hcheck & Hs).
      destruct (proj1 (IH (bs_insert n seen))) as (Hnd & HPs & Hdis); [eauto|].
      split_and!; try done.
      * intros Hin. apply (Hdis n Hin). rewrite elem_of_bs_insert. auto.
      * intros m [->|Hm]%elem_of_cons; [done|]. intros Hin. apply (Hdis m Hm).
        rewrite elem_of_bs_insert. auto.
    + intros ([Hn Hnd] & [HP HPs] & Hdis).
      destruct (proj2 (IH (bs_insert n seen))) as [s Hs].
      { split_and!; try done. intros m Hm. rewrite elem_of_bs_insert.
        intros [->|Hin]; [done|]. apply (Hdis m); [by right|done]. }
      exists s, (bs_insert n seen). split; [|done]. apply Hcheck.
      split_and!; try done. apply Hdis. left.
Qed.
End distinct_loop.

Lemma check_names_spec bad names :
  (exists s, check_names bad names = Ok s) <->
  NoDup names /\ Forall (fun n => bad n = false) names.
Proof.
  unfold check_names. rewrite (distinct_loop (P := fun n => bad n = false)).
  - set_solver.
  - intros seen name seen'. rewrite guard_then, orb_false_iff, bool_decide_eq_false.
    split; [intros [[? ?] ?%Ok_inj]; done|]. by intros (? & ? & ->).
Qed.

Lemma validate_conflict_fields_spec fields names :
  (exists s, validate_conflict_fields fields names = Ok s) <->
  NoDup names /\ Forall (conflict_ok fields) names.
Proof.
  unfold validate_conflict_fields. rewrite (distinct_loop (P := conflict_ok fields)).
  - set_solver.
  - intros seen name seen'. rewrite bind_ok. setoid_rewrite guard_then.
    setoid_rewrite ok_or_ok. setoid_rewrite orb_false_iff. setoid_rewrite bool_decide_eq_false.
    unfold conflict_ok. split.
    + intros (p & Hp & [Hn Hu] & Hs%Ok_inj). split_and!; [done|by exists p|done].
    + intros (Hn & (p & Hp & Hu) & ->). by exists p.
Qed.

Lemma validate_writable_model_spec fields w :
  validate_writable_model fields w = Ok tt <-> policy_ok fields w.
Proof.
  unfold validate_writable_model.
  rewrite guard_then, !check_then, !check_names_spec, !orb_false_iff, !bool_decide_eq_false.
  assert (Hop : negb (WritableModel.insert w) && bool_decide (WritableModel.upsert w = None) = false
    <-> WritableModel.insert w = true \/ is_Some (WritableModel.upsert w)).
  { rewrite andb_false_iff, negb_false_iff, bool_decide_eq_false, <- not_eq_None_Some. done. }
  assert (Hf : Forall (fun n => trim_is_empty n || not_direct (by_name fields) n = false)
                 (map WritableField.field (WritableModel.fields w))
    <-> Forall (fun n => trim_is_empty n = false /\ is_direct fields n)
          (map WritableField.field (WritableModel.fields w))).
  { apply Forall_iff. intros n. by rewrite orb_false_iff, not_direct_spec. }
  assert (Hr : Forall (fun n => not_direct (by_name fields) n = false) (WritableModel.returning w)
    <-> Forall (is_direct fields) (WritableModel.returning w)).
  { apply Forall_iff. intros n. apply not_direct_spec. }
  rewrite Hop, Hf, Hr.
  assert (Hu : match WritableModel.upsert w with
     | Some upsert =>
        fail_if (bool_decide (UpsertPolicy.conflict_fields upsert = []))
          (Raised MutationCompileError.InvalidWritableModel);;
        validate_conflict_fields (WritableModel.fields w) (UpsertPolicy.conflict_fields upsert);;
        Ok tt
     | None => Ok tt
     end = Ok tt <-> forall u, WritableModel.upsert w = Some u ->
       UpsertPolicy.conflict_fields u <> [] /\ NoDup (UpsertPolicy.conflict_fields u)
       /\ Forall (conflict_ok (WritableModel.fields w)) (UpsertPolicy.conflict_fields u)).
  { destruct (WritableModel.upsert w) as [u|]; [|naive_solver].
    rewrite guard_then, check_then, validate_conflict_fields_spec, bool_decide_eq_false.
    naive_solver. }
  rewrite Hu. split; [|intros []; naive_solver].
  intros (((? & ?) & ?) & (? & ?) & (? & ?) & ?). by constructor.
Qed.

(** ** Inputs *)

(** The value fits the field, or is a null the policy admits. *)
Definition value_ok (f : Field) (p : WritableField) (v : MutationValue) : Prop :=
  (v = MutationValue.Null /\ WritableField.nullable p = true)
  \/ value_compatible (Field.data_type f) v = true.

Lemma validate_value_spec f p v : validate_value f p v = Ok tt <-> value_ok f p v.
Proof.
  unfold validate_value, value_ok. case_decide as Hv.
  - subst. destruct (WritableField.nullable p); destruct (Field.data_type f); naive_solver.
  - destruct (value_compatible _ _); naive_solver.
Qed.

Definition policies (w : WritableModel) : list (string * WritableField) :=
  bt_from_list (map (fun f => (WritableField.field f, f)) (WritableModel.fields w)).

Definition is_conflict_field (w : WritableModel) (name : string) : Prop :=
  exists u, WritableModel.upsert w = Some u /\ name ∈ UpsertPolicy.conflict_fields u.

(** An input field: the policy of its name, its field, and admissible values in
    every row; an upsert only carries conflict fields and updatable fields. *)
Definition input_ok (m : LogicalSemanticMutation) (w : WritableModel) (fields : list Field)
    (name : string) : Prop :=
  exists p f, bt_get name (policies w) = Some p /\ direct_field fields name f
    /\ Forall (fun row => exists v, bt_get name row = Some v /\ value_ok f p v) (Lsm.rows m)
    /\ (Lsm.operation m = MutationOperation.Upsert ->
        WritableField.updatable_on_conflict p = true \/ is_conflict_field w name).

Lemma upsert_guard_spec (operation : MutationOperation) (w : WritableModel) (b : bool) name :
  bool_decide (operation = MutationOperation.Upsert) && negb b
    && negb match WritableModel.upsert w with
            | Some upsert => bool_decide (name ∈ UpsertPolicy.conflict_fields upsert)
            | None => false
            end = false <->
  (operation = MutationOperation.Upsert -> b = true \/ is_conflict_field w name).
Proof.
  unfold is_conflict_field. case_bool_decide as Hop; simpl; [|naive_solver].
  destruct b; simpl; [naive_solver|]. destruct (WritableModel.upsert w) as [u|]; [|naive_solver].
  rewrite negb_false_iff, bool_decide_eq_true. naive_solver.
Qed.

Lemma check_input_spec m w fields name :
  check_input m w (policies w) (by_name fields) name = Ok tt <-> input_ok m w fields name.
Proof.
  unfold check_input, input_ok, direct_field. rewrite bind_ok. setoid_rewrite bind_ok.
  setoid_rewrite guard_then. setoid_rewrite check_then. setoid_rewrite ok_or_ok.
  setoid_rewrite bool_decide_eq_false. setoid_rewrite <- eq_None_not_Some.
  setoid_rewrite fail_if_ok. setoid_rewrite upsert_guard_spec. setoid_rewrite try_each_ok.
  assert (Hrow : forall f p row,
    (v ← index row name; validate_value f p v) = Ok tt <->
    exists v, bt_get name row = Some v /\ value_ok f p v).
  { intros f p row. unfold index. rewrite bind_ok. setoid_rewrite ok_or_ok.
    by setoid_rewrite validate_value_spec. }
  split.
  - intros (p & Hp & f & Hf & Hrel & (_ & Hrows) & Hup). exists p, f. split_and!; try done.
    eapply Forall_impl; [exact Hrows|]. intros row. apply Hrow.
  - intros (p & f & Hp & [Hf Hrel] & Hrows & Hup). exists p. split; [done|]. exists f.
    split_and!; try done. exists tt. eapply Forall_impl; [exact Hrows|]. intros row. apply Hrow.
Qed.

(** The columns an upsert sets. *)
Record updates_ok (op : MutationOperation) (w : WritableModel) (inputs updates : list string)
    : Prop := {
  up_insert : op = MutationOperation.Insert -> updates = [];
  up_nonempty : op = MutationOperation.Upsert -> is_Some (WritableModel.upsert w) ->
    updates <> [];
  up_conflict : op = MutationOperation.Upsert -> forall name, is_conflict_field w name ->
    name ∈ inputs;
  up_updatable : forall name, name ∈ updates ->
    name ∈ inputs /\ exists p, bt_get name (policies w) = Some p
                               /\ WritableField.updatable_on_conflict p = true;
}.

Lemma select_update_names_ok op w inputs updates :
  select_update_names op w (policies w) inputs = Ok updates -> updates_ok op w inputs updates.
Proof.
  unfold select_update_names, is_conflict_field.
  destruct (WritableModel.upsert w) as [u|] eqn:Hu.
  2:{ intros H%Ok_inj. subst. constructor; try done; unfold is_conflict_field; rewrite ?Hu.
      - by intros _ [].
      - naive_solver.
      - set_solver. }
  case_decide as Hop.
  - rewrite check_then. setoid_rewrite try_each_ok. rewrite guard_then.
    intros [[_ Hc] [Hne Hs%Ok_inj]]. subst. apply bool_decide_eq_false in Hne.
    constructor; try done; unfold is_conflict_field; rewrite ?Hu.
    + intros _ name (u' & [= <-] & Hin). rewrite Forall_forall in Hc. specialize (Hc name Hin).
      apply fail_if_ok, bool_decide_eq_false, dec_stable in Hc. done.
    + intros name Hin. apply list_elem_of_In, filter_In in Hin as [Hin Hup].
      split; [by apply list_elem_of_In|]. unfold updatable in Hup.
      destruct (bt_get name (policies w)) as [p|]; [by exists p|done].
  - intros H%Ok_inj. subst. destruct op; [|done]. constructor; try done. set_solver.
Qed.

(** A selection that satisfies the rules exists only if one is made. *)
Lemma select_update_names_complete op w inputs updates :
  updates_ok op w inputs updates -> (op = MutationOperation.Upsert -> is_Some (WritableModel.upsert w)) ->
  exists names, select_update_names op w (policies w) inputs = Ok names.
Proof.
  intros [_ Hne Hc Hup] Hs. unfold select_update_names.
  destruct (WritableModel.upsert w) as [u|] eqn:Hu; [|eauto].
  case_decide as Hop; [|eauto]. eexists. apply check_then. split.
  - exists tt. apply try_each_ok, Forall_forall. intros name Hin. apply fail_if_ok.
    apply bool_decide_eq_false. intros Hn. apply Hn, Hc; [done|]. by exists u.
  - apply guard_then. split; [|done]. apply bool_decide_eq_false. intros Hnil.
    destruct updates as [|name updates]; [by apply Hne|].
    destruct (Hup name) as (Hin & p & Hp & Hupd); [left|].
    assert (Hx : name ∈ List.filter (updatable (policies w)) inputs).
    { apply list_elem_of_In, filter_In. split; [by apply list_elem_of_In|].
      unfold updatable. by rewrite Hp. }
    rewrite Hnil in Hx. by apply not_elem_of_nil in Hx.
Qed.

(** No updated column is a conflict column. *)
Lemma updates_not_conflict fields op w inputs updates name :
  policy_ok fields w -> updates_ok op w inputs updates -> name ∈ updates ->
  ~ is_conflict_field w name.
Proof.
  intros Hpol Hup (_ & p & Hp & Hu)%(up_updatable _ _ _ _ Hup) (u & Hw & Hin).
  destruct (pol_upsert _ _ Hpol u Hw) as (_ & _ & Hc). rewrite Forall_forall in Hc.
  destruct (Hc name Hin) as (p' & Hp' & Hu').
  apply bt_from_list_get_elem, list_elem_of_fmap in Hp as (q & [= -> ->] & Hq).
  apply find_elem in Hp' as [Hq' Heq%bool_decide_eq_true].
  assert (q = p') as ->; [|congruence].
  pose proof (pol_distinct _ _ Hpol) as Hnd.
  by eapply NoDup_map_inj.
Qed.

(** ** Parameters *)

(** What the cell of a row and a column binds. *)
Definition cell (fields : list (string * Field)) (row : Row) (name : string)
    : option (DataType * MutationValue) :=
  field ← bt_get name fields; value ← bt_get name row; Some (Field.data_type field, value).

Definition bound_cell (p : MutationParameter) : option (DataType * MutationValue) :=
  Some (MutationParameter.data_type p, MutationParameter.value p).

Definition placeholder (p : MutationParameter) : string :=
  parameter_sql (MutationParameter.position p) (MutationParameter.data_type p).

(** [new] is the parameters a loop appends to [ps]: numbered after them, and
    binding the given cells in order. *)
Record appends (ps : list MutationParameter) (cells : list (option (DataType * MutationValue)))
    (new ps' : list MutationParameter) : Prop := {
  ap_result : ps' = ps ++ new;
  ap_cells : map bound_cell new = cells;
  ap_positions : map MutationParameter.position new = seq (length ps + 1) (length new);
}.

Lemma appends_nil ps : appends ps [] [] ps.
Proof. constructor; [by rewrite app_nil_r|done|done]. Qed.

Lemma appends_app ps cs1 new1 ps1 cs2 new2 ps2 :
  appends ps cs1 new1 ps1 -> appends ps1 cs2 new2 ps2 ->
  appends ps (cs1 ++ cs2) (new1 ++ new2) ps2.
Proof.
  intros [-> Hc1 Hp1] [-> Hc2 Hp2]. constructor; [by rewrite app_assoc|by rewrite map_app, Hc1, Hc2|].
  rewrite map_app, Hp1, Hp2, !length_app, seq_app. do 2 f_equal. lia.
Qed.

Lemma push_value_ok fields row ps name s ps' :
  push_value fields row ps name = Ok (s, ps') ->
  exists p, appends ps [cell fields row name] [p] ps' /\ s = placeholder p.
Proof.
  unfold push_value, index. intros H. unbind. simplify_eq. eexists. split; [constructor|].
  - reflexivity.
  - simpl. unfold bound_cell, cell. simpl. by simplify_option_eq.
  - done.
  - done.
Qed.

Lemma push_values_ok fields row names : forall ps values ps',
  try_map_st (push_value fields row) ps names = Ok (values, ps') ->
  exists new, appends ps (map (cell fields row) names) new ps' /\ values = map placeholder new.
Proof.
  induction names as [|n names IH]; intros ps values ps' H; simpl in H.
  - simplify_eq. exists []. split; [apply appends_nil|done].
  - apply bind_ok in H as ([s ps1] & Hs & H). apply bind_ok in H as ([ss ps2] & Hss & H).
    simplify_eq. apply push_value_ok in Hs as (p & Hp & ->). apply IH in Hss as (new & Hnew & ->).
    exists (p :: new). split; [|done]. by apply (appends_app _ [_] [_] ps1).
Qed.

Definition row_text (ps : list MutationParameter) : string :=
  "  (" +:+ join ", " (map placeholder ps) +:+ ")".

Lemma push_rows_ok fields names rows : forall ps texts ps',
  try_map_st (push_row fields names) ps rows = Ok (texts, ps') ->
  exists chunks,
    appends ps (concat (map (fun row => map (cell fields row) names) rows)) (concat chunks) ps'
    /\ texts = map row_text chunks.
Proof.
  induction rows as [|row rows IH]; intros ps texts ps' H; simpl in H.
  - simplify_eq. exists []. split; [apply appends_nil|done].
  - apply bind_ok in H as ([s ps1] & Hs & H). apply bind_ok in H as ([ss ps2] & Hss & H).
    simplify_eq. unfold push_row in Hs. apply bind_ok in Hs as ([vs ps3] & Hvs & Hs). simplify_eq.
    apply push_values_ok in Hvs as (new & Hnew & ->). apply IH in Hss as (chunks & Hch & ->).
    exists (new :: chunks). split; [|done]. by apply (appends_app _ _ _ ps1).
Qed.

(** ** Statement text *)

(** Every fixed fragment the mutation compiler can emit. *)
Definition mutation_vocabulary : list string :=
  ["INSERT INTO "; "."; " ("; ", "; ")"; nl; "VALUES"; "  ("; "," +:+ nl; "ON CONFLICT (";
   ") DO UPDATE SET"; "  "; " = EXCLUDED."; "RETURNING"; " AS "; "::text"; "::text::"; "boolean";
   "bigint"; "numeric"; "date"; "timestamp"; "timestamptz"].

Section statement.
Context (model : Model).
Abbreviation text := (sql_text mutation_vocabulary (catalog_identifier model)).
Abbreviation fields := (by_name (Model.fields model)).

Lemma text_placeholder n p :
  1 <= MutationParameter.position p <= n -> text n (placeholder p).
Proof.
  intros Hp. unfold placeholder, parameter_sql. destruct (MutationParameter.data_type p); sql.
Qed.

Lemma text_row n ps :
  Forall (fun p => 1 <= MutationParameter.position p <= n) ps -> text n (row_text ps).
Proof.
  intros Hps. unfold row_text. sql. apply sql_join; [sql|]. apply Forall_fmap.
  eapply Forall_impl; [exact Hps|]. intros p. apply text_placeholder.
Qed.

Lemma known_name_column name f :
  bt_get name fields = Some f ->
  catalog_identifier model name /\ catalog_identifier model (Field.column f).
Proof.
  intros [Hf <-]%by_name_get. split; eapply CI_field; try exact Hf; set_solver.
Qed.

Lemma quoted_column_text n name s : quoted_column fields name = Ok s -> text n s.
Proof.
  unfold quoted_column, index. intros H. unbind.
  match goal with H : bt_get _ _ = Some _ |- _ => apply known_name_column in H as [_ Hc] end.
  by apply sql_identifier.
Qed.

Lemma try_map_text {A} n (f : A -> M string) l ss :
  (forall a s, f a = Ok s -> text n s) -> try_map f l = Ok ss -> Forall (text n) ss.
Proof.
  intros Hf Hss%try_map_ok. eapply Forall2_Forall_r; [exact Hss|].
  apply Forall_forall. intros a _ s. apply Hf.
Qed.

Lemma text_lines n ss : Forall (text n) ss -> text n (join ("," +:+ nl) ss).
Proof. apply sql_join. apply sql_fixed. vm_compute. reflexivity. Qed.

Lemma conflict_clause_text n op w updates s :
  conflict_clause op w fields updates = Ok s -> text n s.
Proof.
  unfold conflict_clause. case_decide as Hop; intros H; [|apply Ok_inj in H; subst; apply sql_nil].
  apply bind_ok in H as (u & _ & H). apply bind_ok in H as (cs & Hcs & H).
  apply bind_ok in H as (us & Hus & H). apply Ok_inj in H. subst s.
  apply (try_map_text n) in Hcs; [|apply quoted_column_text].
  apply (try_map_text n) in Hus.
  2:{ intros a s (c & Hc%(quoted_column_text n) & Hs)%bind_ok. apply Ok_inj in Hs. subst. sql. }
  assert (Hj : text n (join ", " cs)) by (apply sql_join; [sql|done]).
  pose proof (text_lines n us Hus). sql.
Qed.
End statement.

(** ** Compiled mutations *)

(** What [render] produces. *)
Record rendered (normalized : NormalizedLsm) (model : Model) (w : WritableModel)
    (inputs : list string) (c : CompiledMutation) : Prop := {
  re_cells : map bound_cell (CompiledMutation.parameters c)
    = concat (map (fun row => map (cell (by_name (Model.fields model)) row) inputs)
                (Lsm.rows (NormalizedLsm.mutation normalized)));
  re_positions : map MutationParameter.position (CompiledMutation.parameters c)
    = seq 1 (length (CompiledMutation.parameters c));
  re_text : sql_text mutation_vocabulary (catalog_identifier model)
    (length (CompiledMutation.parameters c)) (CompiledMutation.statement c);
  re_rows : CompiledMutation.expected_rows c
    = length (Lsm.rows (NormalizedLsm.mutation normalized));
  re_returning : map OutputColumn.name (CompiledMutation.returning_schema c)
    = WritableModel.returning w;
  re_lineage : bs_wf (MutationLineage.source_columns (CompiledMutation.lineage c))
    /\ forall col, col ∈ MutationLineage.source_columns (CompiledMutation.lineage c) <->
       exists name f, name ∈ inputs ++ WritableModel.returning w
         /\ bt_get name (by_name (Model.fields model)) = Some f
         /\ col = source_column (Model.source model) (Field.column f);
}.

Lemma positions_bound (ps : list MutationParameter) :
  map MutationParameter.position ps = seq 1 (length ps) ->
  Forall (fun p => 1 <= MutationParameter.position p <= length ps) ps.
Proof.
  intros Hp. apply Forall_forall. intros p Hin.
  assert (H : MutationParameter.position p ∈ seq 1 (length ps))
    by (rewrite <- Hp; by apply list_elem_of_fmap_2).
  apply elem_of_seq in H. lia.
Qed.

Lemma returning_columns_text model n names ss :
  Forall (fun name => is_direct (Model.fields model) name) names ->
  try_map (fun name =>
      column ← quoted_column (by_name (Model.fields model)) name;
      Ok ("  " +:+ column +:+ " AS " +:+ quote_identifier name)) names = Ok ss ->
  Forall (sql_text mutation_vocabulary (catalog_identifier model) n) ss.
Proof.
  intros Hd Hss%try_map_ok. eapply Forall2_Forall_r; [exact Hss|].
  eapply Forall_impl; [exact Hd|]. intros name (f & Hget & _) s H. simpl in H.
  apply bind_ok in H as (c & Hc%(quoted_column_text model n) & Hs). apply Ok_inj in Hs. subst s.
  destruct (known_name_column model name f Hget) as [Hn _]. sql.
Qed.

Lemma lineage_columns model names cols col :
  try_map (fun name =>
      field ← index (by_name (Model.fields model)) name;
      Ok (Relation.schema (Model.source model) +:+ "."
          +:+ Relation.relation (Model.source model) +:+ "." +:+ Field.column field)) names
    = Ok cols ->
  col ∈ cols <-> exists name f, name ∈ names
    /\ bt_get name (by_name (Model.fields model)) = Some f
    /\ col = source_column (Model.source model) (Field.column f).
Proof.
  intros Hsrc%try_map_ok. split.
  - intros Hin. apply list_elem_of_lookup in Hin as [i Hi].
    destruct (Forall2_lookup_r _ _ _ _ _ Hsrc Hi) as (name & Hname & Hc).
    apply list_elem_of_lookup_2 in Hname. unfold index in Hc. unbind. eauto 10.
  - intros (name & f & Hname & Hf & ->). apply list_elem_of_lookup in Hname as [i Hi].
    destruct (Forall2_lookup_l _ _ _ _ _ Hsrc Hi) as (col & Hcol & Hc).
    apply list_elem_of_lookup_2 in Hcol. unfold index in Hc. rewrite Hf in Hc. simpl in Hc.
    apply Ok_inj in Hc. by subst.
Qed.

Lemma render_ok `{HC : Crates} normalized snapshot model w inputs updates profile c :
  Forall (is_direct (Model.fields model)) (WritableModel.returning w) ->
  render normalized snapshot (Relation.schema (Model.source model))
    (Relation.relation (Model.source model)) w (by_name (Model.fields model)) inputs updates
    profile = Ok c ->
  rendered normalized model w inputs c.
Proof.
  intros Hret H. unfold render in H.
  apply bind_ok in H as (columns & Hcols & H). apply bind_ok in H as ([texts ps] & Hps & H).
  apply bind_ok in H as (conflict & Hconf & H). apply bind_ok in H as (schema & Hschema & H).
  apply bind_ok in H as (returning & Hreturning & H). apply bind_ok in H as (t & _ & H).
  apply bind_ok in H as (cols & Hsrc & H). apply Ok_inj in H. subst c.
  apply push_rows_ok in Hps as (chunks & [Happ Hcells Hpos] & ->). simpl in Happ, Hpos.
  rewrite <- Happ in Hcells, Hpos. set (n := length ps) in *.
  apply (try_map_text model n) in Hcols; [|apply quoted_column_text].
  apply (conflict_clause_text model n) in Hconf.
  apply (returning_columns_text model n) in Hreturning; [|done].
  constructor; simpl; try done.
  - assert (Htexts : Forall (sql_text mutation_vocabulary (catalog_identifier model) n)
                       (map row_text chunks)).
    { apply Forall_fmap.
      assert (Hb : Forall (fun p => 1 <= MutationParameter.position p <= n) (concat chunks))
        by (rewrite <- Happ; by apply positions_bound).
      apply Forall_concat in Hb. eapply Forall_impl; [exact Hb|]. intros chunk. apply text_row. }
    apply text_lines in Htexts. pose proof (text_lines model n returning Hreturning).
    assert (Hj : sql_text mutation_vocabulary (catalog_identifier model) n (join ", " columns))
      by (apply sql_join; [sql|done]).
    assert (catalog_identifier model (Relation.schema (Model.source model))
            /\ catalog_identifier model (Relation.relation (Model.source model))) as [? ?]
      by (split; apply CI_source; set_solver).
    sql.
  - apply try_map_ok in Hschema. clear -Hschema.
    induction Hschema as [|name col l k Hc _ IH]; simpl; [done|].
    apply bind_ok in Hc as (f & _ & Hc%Ok_inj). subst col. simpl. by rewrite IH.
  - split; [apply bs_from_list_wf|]. intros col. rewrite elem_of_bs_from_list.
    by apply lineage_columns.
Qed.

(** What allows a mutation: the facts [compile_lsm] establishes before it
    renders. *)
Record mutation_allowed (normalized : NormalizedLsm) (snapshot : SemanticSnapshot)
    (capabilities : MutationCapabilities) (options : MutationCompilerOptions)
    (model : Model) (w : WritableModel) (inputs updates : list string) : Prop := {
  mc_model : model ∈ Snapshot.models snapshot;
  mc_name : Model.semantic_name model = Lsm.model (NormalizedLsm.mutation normalized);
  mc_writable : Model.writable model = Some w;
  mc_capability : Model.semantic_name model ∈ MutationCapabilities.writable_models capabilities
    /\ trim_is_empty (MutationCapabilities.profile capabilities) = false;
  mc_policy : policy_ok (Model.fields model) w;
  mc_rows : (N.of_nat (length (Lsm.rows (NormalizedLsm.mutation normalized)))
             ≤ WritableModel.max_rows w ≤ hard_row_limit options)%N;
  mc_some_bytes : WritableModel.max_request_bytes w <> 0%N;
  mc_bytes : (NormalizedLsm.input_bytes normalized
              ≤ WritableModel.max_request_bytes w ≤ hard_request_byte_limit options)%N;
  mc_operation : match Lsm.operation (NormalizedLsm.mutation normalized) with
    | MutationOperation.Insert => WritableModel.insert w = true
    | MutationOperation.Upsert => is_Some (WritableModel.upsert w)
    end;
  mc_first : exists first rest, Lsm.rows (NormalizedLsm.mutation normalized) = first :: rest
    /\ inputs = first.*1;
  mc_inputs : Forall (input_ok (NormalizedLsm.mutation normalized) w (Model.fields model)) inputs;
  mc_updates : updates_ok (Lsm.operation (NormalizedLsm.mutation normalized)) w inputs updates;
  mc_required : forall f, f ∈ WritableModel.fields w -> WritableField.required_on_insert f = true ->
    WritableField.field f ∈ inputs;
}.

Definition mutation_compiled (normalized : NormalizedLsm) (snapshot : SemanticSnapshot)
    (capabilities : MutationCapabilities) (options : MutationCompilerOptions)
    (c : CompiledMutation) (model : Model) (w : WritableModel) (inputs updates : list string)
    : Prop :=
  mutation_allowed normalized snapshot capabilities options model w inputs updates
  /\ rendered normalized model w inputs c.

Lemma check_limits_ok normalized w options u :
  check_limits normalized w options = Ok u ->
  (N.of_nat (length (Lsm.rows (NormalizedLsm.mutation normalized)))
   ≤ WritableModel.max_rows w ≤ hard_row_limit options)%N
  /\ WritableModel.max_request_bytes w <> 0%N
  /\ (NormalizedLsm.input_bytes normalized
      ≤ WritableModel.max_request_bytes w ≤ hard_request_byte_limit options)%N
  /\ match Lsm.operation (NormalizedLsm.mutation normalized) with
     | MutationOperation.Insert => WritableModel.insert w = true
     | MutationOperation.Upsert => is_Some (WritableModel.upsert w)
     end.
Proof.
  unfold check_limits. rewrite !guard_then, fail_if_ok, !orb_false_iff, !bool_decide_eq_false.
  intros ((((_ & H1) & H0) & H2) & H3 & H4 & H5). split_and!; try lia.
  destruct (Lsm.operation _); [by apply negb_false_iff|].
  by apply bool_decide_eq_false, not_eq_None_Some in H5.
Qed.

Lemma check_limits_complete normalized w options :
  Lsm.rows (NormalizedLsm.mutation normalized) <> [] ->
  (N.of_nat (length (Lsm.rows (NormalizedLsm.mutation normalized)))
   ≤ WritableModel.max_rows w ≤ hard_row_limit options)%N ->
  WritableModel.max_request_bytes w <> 0%N ->
  (NormalizedLsm.input_bytes normalized
   ≤ WritableModel.max_request_bytes w ≤ hard_request_byte_limit options)%N ->
  match Lsm.operation (NormalizedLsm.mutation normalized) with
  | MutationOperation.Insert => WritableModel.insert w = true
  | MutationOperation.Upsert => is_Some (WritableModel.upsert w)
  end ->
  check_limits normalized w options = Ok tt.
Proof.
  intros Hne Hr Hs Hb Hop. unfold check_limits.
  rewrite !guard_then, fail_if_ok, !orb_false_iff, !bool_decide_eq_false.
  assert (length (Lsm.rows (NormalizedLsm.mutation normalized)) <> 0) by (by destruct (Lsm.rows _)).
  split_and!; try lia. destruct (Lsm.operation _); [by rewrite Hop|].
  by apply bool_decide_eq_false, not_eq_None_Some.
Qed.

Lemma compile_lsm_inv `{HC : Crates} normalized snapshot capabilities options c :
  compile_lsm normalized snapshot capabilities options = Ok c ->
  exists model w inputs updates,
    mutation_compiled normalized snapshot capabilities options c model w inputs updates.
Proof.
  unfold compile_lsm. set (m := NormalizedLsm.mutation normalized). intros H.
  apply bind_ok in H as (? & _ & H). apply guard_then in H as [_ H].
  apply guard_then in H as [[Hprof Hcap%negb_false_iff]%orb_false_iff H].
  apply bool_decide_eq_true in Hcap.
  apply bind_ok in H as (model & Hm%ok_or_ok%find_elem & H).
  destruct Hm as [Hm Hname%bool_decide_eq_true].
  apply bind_ok in H as (w & Hw%ok_or_ok & H).
  apply bind_ok in H as ([] & Hpol%validate_writable_model_spec & H).
  apply bind_ok in H as (? & Hlim%check_limits_ok & H). destruct Hlim as (Hrows & Hsome & Hbytes & Hop).
  apply bind_ok in H as (first & Hfirst%ok_or_ok & H).
  apply check_then in H as [[_ Hin%try_each_ok] H].
  apply bind_ok in H as (updates & Hup & H).
  apply check_then in H as [[_ Hreq%try_each_ok] H].
  exists model, w, first.*1, updates. split; [constructor; try done|].
  - by rewrite Hname.
  - fold m. destruct (Lsm.rows m) as [|r rest]; [done|]. simpl in Hfirst.
    injection Hfirst as ->. by exists first, rest.
  - eapply Forall_impl; [exact Hin|]. intros name. apply check_input_spec.
  - by apply select_update_names_ok.
  - intros f Hf Hr. rewrite Forall_forall in Hreq.
    assert (Hf' : f ∈ List.filter WritableField.required_on_insert (WritableModel.fields w)).
    { apply list_elem_of_In, filter_In. split; [by apply list_elem_of_In|done]. }
    specialize (Hreq f Hf'). apply fail_if_ok, bool_decide_eq_false, dec_stable in Hreq. done.
  - eapply render_ok; [apply Hpol|exact H].
Qed.

(** ** Absence of panics *)

Definition no_panic {A} (m : M A) : Prop := m <> Err Panicked.

Lemma no_panic_bind {A B} (m : M A) (f : A -> M B) :
  no_panic m -> (forall a, m = Ok a -> no_panic (f a)) -> no_panic (m ≫= f).
Proof. unfold no_panic. destruct m as [a|e]; simpl; [auto|]. by intros H _ [= ->]. Qed.

Section no_panic.
Context {A B : Type}.

Lemma no_panic_ok (a : A) : no_panic (Ok a).
Proof. done. Qed.

Lemma no_panic_try_map (f : A -> M B) l :
  Forall (fun a => no_panic (f a)) l -> no_panic (try_map f l).
Proof.
  induction 1 as [|a l Ha _ IH]; simpl; [done|].
  apply no_panic_bind; [done|]. intros b _. by apply no_panic_bind.
Qed.

Lemma no_panic_try_each (f : A -> M unit) l :
  Forall (fun a => no_panic (f a)) l -> no_panic (try_each f l).
Proof. induction 1 as [|a l Ha _ IH]; simpl; [done|]. by apply no_panic_bind. Qed.

Lemma no_panic_try_fold {S} (f : S -> A -> M S) l s :
  (forall s a, no_panic (f s a)) -> no_panic (try_fold f s l).
Proof.
  intros Hf. revert s. induction l as [|a l IH]; intros s; simpl; [done|].
  apply no_panic_bind; [done|]. auto.
Qed.

Lemma no_panic_try_map_st {S} (f : S -> A -> M (B * S)) l s :
  Forall (fun a => forall s, no_panic (f s a)) l -> no_panic (try_map_st f s l).
Proof.
  intros Hf. revert s. induction Hf as [|a l Ha _ IH]; intros s; simpl; [done|].
  apply no_panic_bind; [done|]. intros [b s1] _. apply no_panic_bind; [done|]. by intros [k s2] _.
Qed.

Lemma no_panic_index (m : list (string * A)) k : is_Some (bt_get k m) -> no_panic (index m k).
Proof. unfold index. by intros [a ->]. Qed.

Lemma no_panic_ok_or (o : option A) e : no_panic (ok_or o (Raised e)).
Proof. by destruct o. Qed.

Lemma no_panic_map_err {E} (m : result E A) f : no_panic (map_err (fun x => Raised (f x)) m).
Proof. by destruct m. Qed.
End no_panic.

Lemma no_panic_fail_if b e : no_panic (fail_if b (Raised e)).
Proof. by destruct b. Qed.

Create HintDb panic.
#[export] Hint Resolve no_panic_ok no_panic_ok_or no_panic_map_err no_panic_fail_if
  no_panic_index : panic.

(** Peels the steps that cannot panic off a computation. *)
Ltac no_panic :=
  repeat first
    [ progress intros
    | apply no_panic_bind; [solve [auto with panic]|]
    | solve [auto with panic] ].

Lemma no_panic_validate_snapshot `{HC : Crates} s : no_panic (validate_snapshot s).
Proof. unfold validate_snapshot. no_panic. Qed.

Lemma no_panic_check_names bad names : no_panic (check_names bad names).
Proof. apply no_panic_try_fold. no_panic. Qed.

Lemma no_panic_writable fields w : no_panic (validate_writable_model fields w).
Proof.
  unfold validate_writable_model. no_panic.
  apply no_panic_bind; [apply no_panic_check_names|no_panic].
  apply no_panic_bind; [apply no_panic_check_names|no_panic].
  case_match; no_panic. apply no_panic_bind; [|no_panic]. apply no_panic_try_fold. no_panic.
Qed.

Lemma no_panic_limits normalized w options : no_panic (check_limits normalized w options).
Proof. unfold check_limits. no_panic. Qed.

Lemma no_panic_validate_value f p v : no_panic (validate_value f p v).
Proof. unfold validate_value. by repeat case_match. Qed.

Lemma no_panic_check_input m w ps fs name :
  Forall (fun row => is_Some (bt_get name row)) (Lsm.rows m) ->
  no_panic (check_input m w ps fs name).
Proof.
  intros Hrows. unfold check_input. no_panic. apply no_panic_bind; [|no_panic].
  apply no_panic_try_each. eapply Forall_impl; [exact Hrows|]. intros row Hrow.
  apply no_panic_bind; [by apply no_panic_index|]. intros v _. apply no_panic_validate_value.
Qed.

Lemma no_panic_updates op w ps inputs : no_panic (select_update_names op w ps inputs).
Proof.
  unfold select_update_names. repeat case_match; no_panic.
  apply no_panic_bind; [|no_panic]. apply no_panic_try_each, Forall_forall. no_panic.
Qed.

Section render_no_panic.
Context (fields : list (string * Field)).

Lemma no_panic_quoted name : is_Some (bt_get name fields) -> no_panic (quoted_column fields name).
Proof. unfold quoted_column. no_panic. Qed.

Lemma no_panic_columns {B} (f : string -> M B) names :
  (forall name, is_Some (bt_get name fields) -> no_panic (f name)) ->
  Forall (fun name => is_Some (bt_get name fields)) names -> no_panic (try_map f names).
Proof. intros Hf Hn. apply no_panic_try_map. by eapply Forall_impl. Qed.

Lemma no_panic_rows inputs rows ps :
  Forall (fun name => is_Some (bt_get name fields)) inputs ->
  Forall (fun row => Forall (fun name => is_Some (bt_get name row)) inputs) rows ->
  no_panic (try_map_st (push_row fields inputs) ps rows).
Proof.
  intros Hf Hrows. apply no_panic_try_map_st. eapply Forall_impl; [exact Hrows|].
  intros row Hrow s. unfold push_row. apply no_panic_bind; [|by intros [] _].
  apply no_panic_try_map_st. apply Forall_forall. intros name Hname ps'.
  rewrite Forall_forall in Hf. rewrite Forall_forall in Hrow.
  unfold push_value. specialize (Hf name Hname). specialize (Hrow name Hname). no_panic.
Qed.

Lemma no_panic_conflict op w updates :
  (forall name, is_conflict_field w name -> is_Some (bt_get name fields)) ->
  Forall (fun name => is_Some (bt_get name fields)) updates ->
  no_panic (conflict_clause op w fields updates).
Proof.
  intros Hc Hu. unfold conflict_clause. case_decide; [|done].
  apply no_panic_bind; [auto with panic|]. intros u Hw%ok_or_ok.
  apply no_panic_bind.
  { apply no_panic_columns; [apply no_panic_quoted|]. apply Forall_forall. intros name Hname.
    apply Hc. by exists u. }
  intros cs _. apply no_panic_bind; [|no_panic]. apply no_panic_columns; [|done].
  intros name Hname. apply no_panic_bind; [by apply no_panic_quoted|no_panic].
Qed.

Lemma no_panic_render `{HC : Crates} normalized snapshot schema relation w inputs updates profile :
  Forall (fun name => is_Some (bt_get name fields)) inputs ->
  Forall (fun row => Forall (fun name => is_Some (bt_get name row)) inputs)
    (Lsm.rows (NormalizedLsm.mutation normalized)) ->
  Forall (fun name => is_Some (bt_get name fields)) updates ->
  Forall (fun name => is_Some (bt_get name fields)) (WritableModel.returning w) ->
  (forall name, is_conflict_field w name -> is_Some (bt_get name fields)) ->
  no_panic (render normalized snapshot schema relation w fields inputs updates profile).
Proof.
  intros Hin Hrows Hup Hret Hconf. unfold render.
  apply no_panic_bind; [by apply no_panic_columns; [apply no_panic_quoted|]|]. intros cs _.
  apply no_panic_bind; [by apply no_panic_rows|]. intros [rows ps] _.
  apply no_panic_bind; [by apply no_panic_conflict|]. intros cl _.
  apply no_panic_bind; [apply no_panic_columns; [no_panic|done]|]. intros rs _.
  apply no_panic_bind.
  { apply no_panic_columns; [|done]. intros name Hname.
    apply no_panic_bind; [by apply no_panic_quoted|no_panic]. }
  intros rt _. apply no_panic_bind; [auto with panic|]. intros t _.
  apply no_panic_bind; [|no_panic]. apply no_panic_columns; [no_panic|].
  by apply Forall_app.
Qed.
End render_no_panic.

(** ** The errors of rendering *)

(** Rendering has one error of its own. *)
Definition fails_late {A} (m : M A) : Prop :=
  forall e, m = Err e -> e = Panicked \/ e = Raised MutationCompileError.HashSerialization.

Lemma fails_late_bind {A B} (m : M A) (f : A -> M B) :
  fails_late m -> (forall a, fails_late (f a)) -> fails_late (m ≫= f).
Proof. intros Hm Hf e [H|(a & _ & H)]%bind_err; [by apply Hm|by apply (Hf a)]. Qed.

Lemma fails_late_index {A} (l : list (string * A)) k : fails_late (index l k).
Proof. intros e [_ <-]%ok_or_err. by left. Qed.

Lemma fails_late_ok {A} (a : A) : fails_late (Ok a).
Proof. done. Qed.

Lemma fails_late_try_map {A B} (f : A -> M B) l : (forall a, fails_late (f a)) -> fails_late (try_map f l).
Proof.
  intros Hf. induction l as [|a l IH]; [apply fails_late_ok|]. simpl.
  apply fails_late_bind; [done|]. intros b. apply fails_late_bind; [done|]. intros k.
  apply fails_late_ok.
Qed.

Lemma fails_late_try_map_st {S A B} (f : S -> A -> M (B * S)) l s :
  (forall s a, fails_late (f s a)) -> fails_late (try_map_st f s l).
Proof.
  intros Hf. revert s. induction l as [|a l IH]; intros s; [apply fails_late_ok|]. simpl.
  apply fails_late_bind; [done|]. intros [b s1]. apply fails_late_bind; [done|]. intros [k s2].
  apply fails_late_ok.
Qed.

Create HintDb late.
#[export] Hint Resolve fails_late_index fails_late_ok : late.
Ltac fails_late :=
  repeat first
    [ progress intros
    | apply fails_late_bind
    | apply fails_late_try_map
    | apply fails_late_try_map_st
    | case_match
    | solve [auto with late] ].

Lemma fails_late_render `{HC : Crates} normalized snapshot schema relation w fields inputs updates
    profile :
  (Lsm.operation (NormalizedLsm.mutation normalized) = MutationOperation.Upsert ->
   is_Some (WritableModel.upsert w)) ->
  fails_late (render normalized snapshot schema relation w fields inputs updates profile).
Proof.
  intros Hup. unfold render, conflict_clause, quoted_column, push_row, push_value. fails_late.
  - match goal with H : _ = MutationOperation.Upsert |- _ => destruct (Hup H) as [u ->] end.
    apply fails_late_ok.
  - intros e. destruct (json_to_string _); [done|]. intros [= <-]. by right.
Qed.
