(* ===== verification/Diff.v ===== *)
(** * Differences between snapshots ([diff.rs])

    [diff_snapshots] compares two snapshots object by object and classifies
    every change as compatible or breaking. *)

From S2P Require Import Prelude Ordered Text Json Lsq Semantic.

Definition DIFF_SCHEMA_VERSION : string := "1".
Definition SUPPORTED_SNAPSHOT_VERSIONS : list string := ["1"; "2"].

(** ** Data *)

Module Compatibility.
Inductive Compatibility : Type := Compatible | Breaking.
#[global] Instance eq_dec : EqDecision Compatibility.
Proof. solve_decision. Defined.
End Compatibility.
Abbreviation Compatibility := Compatibility.Compatibility.

Module ChangeKind.
Inductive ChangeKind : Type := Added | Removed | Modified.
End ChangeKind.
Abbreviation ChangeKind := ChangeKind.ChangeKind.

Module SemanticObjectKind.
Inductive SemanticObjectKind : Type := Model | Field | Metric | Relationship.
End SemanticObjectKind.
Abbreviation SemanticObjectKind := SemanticObjectKind.SemanticObjectKind.

Module Change.
Record SemanticChange : Type := mk {
  path : string;
  object_kind : SemanticObjectKind;
  change : ChangeKind;
  compatibility : Compatibility;
  before : option json;
  after : option json;
}.
End Change.
Abbreviation SemanticChange := Change.SemanticChange.

Module DiffSummary.
Record DiffSummary : Type := mk {
  total : nat;
  compatible : nat;
  breaking : nat;
}.
End DiffSummary.
Abbreviation DiffSummary := DiffSummary.DiffSummary.

Module SemanticDiff.
Record SemanticDiff : Type := mk {
  schema_version : string;
  from_revision : string;
  to_revision : string;
  compatibility : Compatibility;
  summary : DiffSummary;
  changes : list SemanticChange;
}.
Definition has_breaking_changes (d : SemanticDiff) : bool :=
  bool_decide (compatibility d = Compatibility.Breaking).
End SemanticDiff.
Abbreviation SemanticDiff := SemanticDiff.SemanticDiff.

(** [DiffError]; its [Serialization] case does not arise: [serde_json::to_value]
    is total on the records of a snapshot, as [to_value] is here. *)
Module DiffError.
Inductive DiffError : Type :=
| UnsupportedSnapshotVersion (version : string)
| DuplicateObject (kind name : string).
End DiffError.
Abbreviation DiffError := DiffError.DiffError.

(** What [diff_named] needs of the objects it compares: the trait bounds
    [PartialEq + Serialize] and the closure that names an object. *)
Class SemanticObject (T : Type) := {
  object_name : T -> string;
  object_json : T -> json;
  object_eq_dec :: EqDecision T;
}.

#[export] Instance model_object : SemanticObject Model :=
  {| object_name := Model.semantic_name; object_json := Model.to_json |}.
#[export] Instance field_object : SemanticObject Field :=
  {| object_name := Field.semantic_name; object_json := Field.to_json |}.
#[export] Instance metric_object : SemanticObject Metric :=
  {| object_name := Metric.semantic_name; object_json := Metric.to_json |}.
#[export] Instance relationship_object : SemanticObject Relationship :=
  {| object_name := Relationship.semantic_name; object_json := Relationship.to_json |}.

(** ** Operations *)

Definition change_rank (c : ChangeKind) : nat :=
  match c with ChangeKind.Removed => 0 | ChangeKind.Modified => 1 | ChangeKind.Added => 2 end.

Section named.
Context {T : Type} `{!SemanticObject T}.

Definition named_objects (kind : string) (objects : list T)
    : result DiffError (list (string * T)) :=
  try_fold (fun named object =>
    fail_if (bt_contains (object_name object) named)
      (DiffError.DuplicateObject kind (object_name object));;
    Ok (bt_insert (object_name object) object named)) [] objects.

Definition change (path : string) (object_kind : SemanticObjectKind) (kind : ChangeKind)
    (compatibility : Compatibility) (before after : option T) : SemanticChange :=
  {| Change.path := path; Change.object_kind := object_kind; Change.change := kind;
     Change.compatibility := compatibility;
     Change.before := (fun o => to_value (object_json o)) <$> before;
     Change.after := (fun o => to_value (object_json o)) <$> after |}.

(** The changes pushed by one iteration of the first loop of [diff_named]. *)
Definition compare_object (model_path collection : string) (object_kind : SemanticObjectKind)
    (after : list (string * T)) (visible : T -> bool)
    (modified_compatibility : T -> T -> Compatibility) (entry : string * T)
    : list SemanticChange :=
  let '(name, before_object) := entry in
  let path := model_path +:+ "." +:+ collection +:+ "." +:+ name in
  match bt_get name after with
  | None =>
      [change path object_kind ChangeKind.Removed
         (if visible before_object then Compatibility.Breaking else Compatibility.Compatible)
         (Some before_object) None]
  | Some after_object =>
      if decide (before_object = after_object) then []
      else [change path object_kind ChangeKind.Modified
              (modified_compatibility before_object after_object)
              (Some before_object) (Some after_object)]
  end.

Definition diff_named (model_path collection : string) (object_kind : SemanticObjectKind)
    (before after : list (string * T)) (visible : T -> bool)
    (modified_compatibility : T -> T -> Compatibility) : list SemanticChange :=
  concat (map (compare_object model_path collection object_kind after visible
                 modified_compatibility) before)
  ++ concat (map (fun '(name, after_object) =>
       if bt_contains name before then []
       else [change (model_path +:+ "." +:+ collection +:+ "." +:+ name) object_kind
               ChangeKind.Added Compatibility.Compatible None (Some after_object)]) after).
End named.

Definition named_models (models : list Model) : result DiffError (list (string * Model)) :=
  named_objects "model" models.

Definition validate_version (snapshot : SemanticSnapshot) : result DiffError unit :=
  fail_if (bool_decide (Snapshot.schema_version snapshot ∉ SUPPORTED_SNAPSHOT_VERSIONS))
    (DiffError.UnsupportedSnapshotVersion (Snapshot.schema_version snapshot));;
  named_models (Snapshot.models snapshot);;
  try_each (fun model =>
    named_objects "field" (Model.fields model);;
    named_objects "metric" (Model.metrics model);;
    named_objects "relationship" (Model.relationships model);;
    Ok tt) (Snapshot.models snapshot).

(** [json!({..})]: a value, hence with ordered keys. *)
Definition model_metadata (model : Model) : json :=
  to_value (JObj [("source", Relation.to_json (Model.source model));
                  ("timezone", nullable_json JStr (Model.timezone model));
                  ("queryable", JBool (Model.queryable model));
                  ("writable", nullable_json WritableModel.to_json (Model.writable model))]).

Definition model_compatibility (before after : Model) : Compatibility :=
  if bool_decide (Model.source before <> Model.source after)
     || bool_decide (Model.timezone before <> Model.timezone after)
     || (Model.queryable before && negb (Model.queryable after))
     || (bool_decide (is_Some (Model.writable before))
         && bool_decide (Model.writable before <> Model.writable after))
  then Compatibility.Breaking else Compatibility.Compatible.

Definition field_compatibility (before after : Field) : Compatibility :=
  if negb (Field.visible before) && Field.visible after
     && bool_decide (Field.data_type before = Field.data_type after)
     && bool_decide (Field.column before = Field.column after)
     && bool_decide (Field.relationship before = Field.relationship after)
     && bool_decide (Field.time_dimension before = Field.time_dimension after)
     && bool_decide (Field.entity_key before = Field.entity_key after)
  then Compatibility.Compatible else Compatibility.Breaking.

Definition metric_compatibility (before after : Metric) : Compatibility :=
  if negb (Metric.visible before) && Metric.visible after
     && bool_decide (Metric.data_type before = Metric.data_type after)
     && bool_decide (Metric.aggregation before = Metric.aggregation after)
     && bool_decide (Metric.field before = Metric.field after)
     && bool_decide (Metric.filter before = Metric.filter after)
     && bool_decide (Metric.additivity before = Metric.additivity after)
     && bool_decide (Metric.aggregation_anchor before = Metric.aggregation_anchor after)
  then Compatibility.Compatible else Compatibility.Breaking.

Definition diff_fields (model_path : string) (before after : list Field)
    : result DiffError (list SemanticChange) :=
  before ← named_objects "field" before;
  after ← named_objects "field" after;
  Ok (diff_named model_path "fields" SemanticObjectKind.Field before after Field.visible
        field_compatibility).

Definition diff_metrics (model_path : string) (before after : list Metric)
    : result DiffError (list SemanticChange) :=
  before ← named_objects "metric" before;
  after ← named_objects "metric" after;
  Ok (diff_named model_path "metrics" SemanticObjectKind.Metric before after Metric.visible
        metric_compatibility).

Definition diff_relationships (model_path : string) (before after : list Relationship)
    : result DiffError (list SemanticChange) :=
  before ← named_objects "relationship" before;
  after ← named_objects "relationship" after;
  Ok (diff_named model_path "relationships" SemanticObjectKind.Relationship before after
        (fun _ => true) (fun _ _ => Compatibility.Breaking)).

(** One iteration of the first loop of [diff_snapshots]. *)
Definition diff_model (after_models : list (string * Model)) (entry : string * Model)
    : result DiffError (list SemanticChange) :=
  let '(name, before_model) := entry in
  let path := "models." +:+ name in
  match bt_get name after_models with
  | None =>
      Ok [change path SemanticObjectKind.Model ChangeKind.Removed Compatibility.Breaking
            (Some before_model) None]
  | Some after_model =>
      let metadata :=
        if decide (model_metadata before_model = model_metadata after_model) then []
        else [{| Change.path := path; Change.object_kind := SemanticObjectKind.Model;
                 Change.change := ChangeKind.Modified;
                 Change.compatibility := model_compatibility before_model after_model;
                 Change.before := Some (model_metadata before_model);
                 Change.after := Some (model_metadata after_model) |}] in
      fields ← diff_fields path (Model.fields before_model) (Model.fields after_model);
      metrics ← diff_metrics path (Model.metrics before_model) (Model.metrics after_model);
      relationships ← diff_relationships path (Model.relationships before_model)
                        (Model.relationships after_model);
      Ok (metadata ++ fields ++ metrics ++ relationships)
  end.

(** The order of [changes.sort_by]. *)
Definition change_le (a b : SemanticChange) : Prop :=
  klt (Change.path a) (Change.path b)
  \/ (Change.path a = Change.path b
      /\ change_rank (Change.change a) <= change_rank (Change.change b)).

#[export] Instance change_le_dec : RelDecision change_le.
Proof. intros a b. unfold change_le, klt. apply _. Defined.

Definition is_breaking (c : SemanticChange) : bool :=
  bool_decide (Change.compatibility c = Compatibility.Breaking).

Definition summarize (before after : SemanticSnapshot) (changes : list SemanticChange)
    : SemanticDiff :=
  let breaking := length (List.filter is_breaking changes) in
  {| SemanticDiff.schema_version := DIFF_SCHEMA_VERSION;
     SemanticDiff.from_revision := Snapshot.revision_hash before;
     SemanticDiff.to_revision := Snapshot.revision_hash after;
     SemanticDiff.compatibility :=
       if decide (breaking = 0) then Compatibility.Compatible else Compatibility.Breaking;
     SemanticDiff.summary :=
       {| DiffSummary.total := length changes;
          DiffSummary.compatible := length changes - breaking;
          DiffSummary.breaking := breaking |};
     SemanticDiff.changes := changes |}.

Definition diff_snapshots (before after : SemanticSnapshot) : result DiffError SemanticDiff :=
  validate_version before;;
  validate_version after;;
  let before := normalized before in
  let after := normalized after in
  before_models ← named_models (Snapshot.models before);
  after_models ← named_models (Snapshot.models after);
  modified ← try_map (diff_model after_models) before_models;
  let added := concat (map (fun '(name, after_model) =>
    if bt_contains name before_models then []
    else [change ("models." +:+ name) SemanticObjectKind.Model ChangeKind.Added
            Compatibility.Compatible None (Some after_model)]) after_models) in
  Ok (summarize before after (sort_by change_le (concat modified ++ added))).
