(* ===== verification/DiffSpec.v ===== *)
(** * What a snapshot difference reports

    The changes of a difference are exactly those between the two snapshots,
    and a compatible difference keeps every object a client could use. *)

From S2P Require Import Prelude Ordered Text Json Lsq LsqSpec Semantic SemanticSpec LsmSpec Diff.

(** ** Collections of named objects *)

Section named.
Context {T : Type} `{!SemanticObject T}.
Implicit Types (l before after : list T) (o : T).

Definition distinct_names l : Prop := NoDup (map object_name l).

Definition keyed l : list (string * T) := map (fun o => (object_name o, o)) l.

Lemma keyed_keys l : (keyed l).*1 = map object_name l.
Proof. unfold keyed. change (map ?f l) with (f <$> l). by rewrite <- list_fmap_compose. Qed.

Lemma named_objects_loop kind l : forall acc m,
  try_fold (fun named object =>
    fail_if (bt_contains (object_name object) named)
      (DiffError.DuplicateObject kind (object_name object));;
    Ok (bt_insert (object_name object) object named)) acc l = Ok m <->
  distinct_names l /\ (forall o, o ∈ l -> object_name o ∉ acc.*1)
  /\ m = foldl (fun m '(k, v) => bt_insert k v m) acc (keyed l).
Proof.
  induction l as [|o l IH]; intros acc m; simpl.
  - unfold distinct_names. simpl. split; [|by intros (_ & _ & ->)].
    intros H%Ok_inj. split_and!; [constructor|set_solver|done].
  - rewrite bind_ok. setoid_rewrite guard_then. setoid_rewrite IH. clear IH.
    unfold distinct_names, bt_contains. simpl. rewrite NoDup_cons. split.
    + intros (acc' & (Hf & Hacc%Ok_inj) & Hnd & Hdis & ->). subst acc'.
      apply bool_decide_eq_false, eq_None_not_Some, bt_get_none in Hf.
      assert (Hfresh : forall o', o' ∈ l ->
                (object_name o' ∉ acc.*1) /\ object_name o' <> object_name o).
      { intros o' Ho'. specialize (Hdis o' Ho').
        rewrite bt_insert_keys, elem_of_bs_insert in Hdis. tauto. }
      split_and!; [|done|set_solver|done]. intros Hin.
      apply list_elem_of_fmap in Hin as (o' & Heq & Ho'). by destruct (Hfresh o' Ho') as [_ []].
    + intros ([Hn Hnd] & Hdis & ->). exists (bt_insert (object_name o) o acc).
      split_and!; try done.
      * apply bool_decide_eq_false, eq_None_not_Some, bt_get_none, Hdis. left.
      * intros o' Ho'. rewrite bt_insert_keys, elem_of_bs_insert. intros [Heq|Hin].
        -- apply Hn. rewrite <- Heq. by apply list_elem_of_fmap_2.
        -- apply (Hdis o'); [by right|done].
Qed.

Lemma named_objects_ok kind l m :
  named_objects kind l = Ok m <-> distinct_names l /\ m = bt_from_list (keyed l).
Proof. unfold named_objects. rewrite named_objects_loop. set_solver. Qed.

Lemma named_get l n o :
  distinct_names l -> bt_get n (bt_from_list (keyed l)) = Some o <-> o ∈ l /\ object_name o = n.
Proof.
  intros Hd. split.
  - intros H%bt_from_list_get_elem. by apply list_elem_of_fmap in H as (o' & [= -> ->] & ?).
  - intros [Ho <-]. apply bt_from_list_get_nodup; [by rewrite keyed_keys|].
    apply list_elem_of_fmap. by exists o.
Qed.

Lemma named_elem l n o :
  distinct_names l -> (n, o) ∈ bt_from_list (keyed l) <-> o ∈ l /\ object_name o = n.
Proof.
  intros Hd. rewrite <- named_get by done. split; [|apply bt_get_elem].
  apply bt_elem_get, bt_from_list_wf.
Qed.

Lemma named_absent l n :
  distinct_names l -> bt_get n (bt_from_list (keyed l)) = None <-> n ∉ map object_name l.
Proof.
  intros Hd. by rewrite bt_get_none, elem_of_bt_from_list_keys, keyed_keys.
Qed.

(** ** Changes of a collection *)

Section changes.
Context (model_path collection : string) (object_kind : SemanticObjectKind).
Context (visible : T -> bool) (modified_compatibility : T -> T -> Compatibility).

Definition object_path o : string :=
  model_path +:+ "." +:+ collection +:+ "." +:+ object_name o.

Inductive object_change before after : SemanticChange -> Prop :=
| OC_removed o :
    o ∈ before -> object_name o ∉ map object_name after ->
    object_change before after
      (change (object_path o) object_kind ChangeKind.Removed
         (if visible o then Compatibility.Breaking else Compatibility.Compatible)
         (Some o) None)
| OC_modified o o' :
    o ∈ before -> o' ∈ after -> object_name o = object_name o' -> o <> o' ->
    object_change before after
      (change (object_path o) object_kind ChangeKind.Modified
         (modified_compatibility o o') (Some o) (Some o'))
| OC_added o' :
    o' ∈ after -> object_name o' ∉ map object_name before ->
    object_change before after
      (change (object_path o') object_kind ChangeKind.Added Compatibility.Compatible
         None (Some o')).

Lemma elem_of_concat_map {A} (f : A -> list SemanticChange) (l : list A) c :
  c ∈ concat (map f l) <-> exists a, a ∈ l /\ c ∈ f a.
Proof.
  induction l as [|a l IH]; simpl; [set_solver|]. rewrite elem_of_app, IH. set_solver.
Qed.

Lemma compare_object_elem after n o c :
  distinct_names after ->
  c ∈ compare_object model_path collection object_kind (bt_from_list (keyed after)) visible
        modified_compatibility (n, o) <->
  ((n ∉ map object_name after)
   /\ c = change (model_path +:+ "." +:+ collection +:+ "." +:+ n) object_kind
            ChangeKind.Removed
            (if visible o then Compatibility.Breaking else Compatibility.Compatible)
            (Some o) None)
  \/ exists o', o' ∈ after /\ object_name o' = n /\ o <> o'
     /\ c = change (model_path +:+ "." +:+ collection +:+ "." +:+ n) object_kind
              ChangeKind.Modified (modified_compatibility o o') (Some o) (Some o').
Proof.
  intros Hd. unfold compare_object.
  destruct (bt_get n (bt_from_list (keyed after))) as [o'|] eqn:Hg.
  - apply named_get in Hg as [Ho' Hn]; [|done].
    assert (Hin : n ∈ map object_name after)
      by (rewrite <- Hn; by apply list_elem_of_fmap_2).
    assert (Huniq : forall x, x ∈ after -> object_name x = n -> x = o').
    { intros x Hx Hxn. eapply NoDup_map_inj; [exact Hd|done|done|congruence]. }
    case_decide as Heq; set_solver.
  - apply named_absent in Hg; [|done]. rewrite list_elem_of_singleton. split; [auto|].
    intros [[_ ->]|(o' & Ho' & <- & _)]; [done|]. destruct Hg. by apply list_elem_of_fmap_2.
Qed.

Lemma diff_named_spec before after c :
  distinct_names before -> distinct_names after ->
  c ∈ diff_named model_path collection object_kind (bt_from_list (keyed before))
        (bt_from_list (keyed after)) visible modified_compatibility <->
  object_change before after c.
Proof.
  intros Hb Ha. unfold diff_named. rewrite elem_of_app, !elem_of_concat_map. split.
  - intros [([n o] & Hin & Hc)|([n o'] & Hin & Hc)].
    + apply named_elem in Hin as [Ho <-]; [|done].
      apply compare_object_elem in Hc as [[Hn ->]|(o' & Ho' & Hn & Hne & ->)]; [| |done].
      * by apply OC_removed.
      * by apply OC_modified.
    + apply named_elem in Hin as [Ho <-]; [|done]. unfold bt_contains in Hc.
      case_bool_decide as Hn; [set_solver|]. apply list_elem_of_singleton in Hc as ->.
      apply OC_added; [done|]. apply named_absent; [done|]. by apply eq_None_not_Some.
  - intros [o Ho Hn|o o' Ho Ho' Hn Hne|o' Ho' Hn].
    + left. exists (object_name o, o). rewrite named_elem by done. split; [done|].
      apply compare_object_elem; auto.
    + left. exists (object_name o, o). rewrite named_elem by done. split; [done|].
      apply compare_object_elem; [done|]. right. by exists o'.
    + right. exists (object_name o', o'). rewrite named_elem by done. split; [done|].
      unfold bt_contains. rewrite bool_decide_eq_false_2; [set_solver|].
      apply named_absent in Hn; [|done]. by rewrite Hn.
Qed.
End changes.
End named.

(** ** Changes of a snapshot *)

Definition model_path (m : Model) : string := "models." +:+ Model.semantic_name m.

Definition metadata_change (m m' : Model) : SemanticChange :=
  {| Change.path := model_path m; Change.object_kind := SemanticObjectKind.Model;
     Change.change := ChangeKind.Modified;
     Change.compatibility := model_compatibility m m';
     Change.before := Some (model_metadata m); Change.after := Some (model_metadata m') |}.

Abbreviation field_change m m' := (object_change (model_path m) "fields" SemanticObjectKind.Field
  Field.visible field_compatibility (Model.fields m) (Model.fields m')).
Abbreviation metric_change m m' := (object_change (model_path m) "metrics"
  SemanticObjectKind.Metric Metric.visible metric_compatibility
  (Model.metrics m) (Model.metrics m')).
Abbreviation relationship_change m m' := (object_change (model_path m) "relationships"
  SemanticObjectKind.Relationship (fun _ => true) (fun _ _ => Compatibility.Breaking)
  (Model.relationships m) (Model.relationships m')).

(** The changes between two models of the same name. *)
Inductive model_change (m m' : Model) : SemanticChange -> Prop :=
| MC_metadata : model_metadata m <> model_metadata m' -> model_change m m' (metadata_change m m')
| MC_field c : field_change m m' c -> model_change m m' c
| MC_metric c : metric_change m m' c -> model_change m m' c
| MC_relationship c : relationship_change m m' c -> model_change m m' c.

(** The changes between two lists of models. *)
Inductive models_change (before after : list Model) : SemanticChange -> Prop :=
| SC_removed m :
    m ∈ before -> Model.semantic_name m ∉ map Model.semantic_name after ->
    models_change before after
      (change (model_path m) SemanticObjectKind.Model ChangeKind.Removed Compatibility.Breaking
         (Some m) None)
| SC_added m' :
    m' ∈ after -> Model.semantic_name m' ∉ map Model.semantic_name before ->
    models_change before after
      (change (model_path m') SemanticObjectKind.Model ChangeKind.Added Compatibility.Compatible
         None (Some m'))
| SC_model m m' c :
    m ∈ before -> m' ∈ after -> Model.semantic_name m = Model.semantic_name m' ->
    model_change m m' c -> models_change before after c.

Record members_distinct (m : Model) : Prop := {
  md_fields : distinct_names (Model.fields m);
  md_metrics : distinct_names (Model.metrics m);
  md_relationships : distinct_names (Model.relationships m);
}.

(** The snapshots that can be compared. *)
Record comparable (s : SemanticSnapshot) : Prop := {
  cp_version : Snapshot.schema_version s ∈ SUPPORTED_SNAPSHOT_VERSIONS;
  cp_models : distinct_names (Snapshot.models s);
  cp_members : Forall members_distinct (Snapshot.models s);
}.

Lemma named_then {T} `{!SemanticObject T} {B} kind (l : list T) (k : result DiffError B) x :
  (named_objects kind l;; k) = Ok x <-> distinct_names l /\ k = Ok x.
Proof. rewrite check_then. setoid_rewrite named_objects_ok. naive_solver. Qed.

Lemma validate_version_spec s : validate_version s = Ok tt <-> comparable s.
Proof.
  unfold validate_version, named_models.
  rewrite guard_then, named_then, try_each_ok, bool_decide_eq_false.
  assert (Hm : Forall (fun model =>
      (named_objects "field" (Model.fields model);; named_objects "metric" (Model.metrics model);;
       named_objects "relationship" (Model.relationships model);; Ok tt) = Ok tt)
      (Snapshot.models s) <-> Forall members_distinct (Snapshot.models s)).
  { apply Forall_iff. intros m. rewrite !named_then. split; [|intros []; done].
    intros (? & ? & ? & _). by constructor. }
  rewrite Hm. split.
  - intros (Hv & Hd & Ha). constructor; [by apply dec_stable|done|done].
  - intros []. naive_solver.
Qed.

Lemma distinct_names_perm {T} `{!SemanticObject T} (l l' : list T) :
  l ≡ₚ l' -> distinct_names l -> distinct_names l'.
Proof. unfold distinct_names. intros Hp. change (map ?f ?l) with (f <$> l). by rewrite Hp. Qed.

Lemma comparable_normalized s :
  comparable s -> distinct_names (Snapshot.models (normalized s))
    /\ Forall members_distinct (Snapshot.models (normalized s)).
Proof.
  intros [_ Hd Hm]. unfold normalized. simpl. split.
  - unfold distinct_names. rewrite map_map. change (map _ ?l) with (Model.semantic_name <$> l).
    by rewrite sort_by_perm.
  - apply Forall_fmap. rewrite sort_by_perm. eapply Forall_impl; [exact Hm|].
    intros m [Hf Hme Hr]. constructor; simpl.
    + eapply distinct_names_perm; [|exact Hf]. by rewrite sort_by_perm.
    + eapply distinct_names_perm; [|exact Hme]. by rewrite sort_by_perm.
    + eapply distinct_names_perm; [|exact Hr]. by rewrite sort_by_perm.
Qed.

Lemma diff_model_common m m' after :
  distinct_names after -> members_distinct m -> members_distinct m' ->
  m' ∈ after -> Model.semantic_name m = Model.semantic_name m' ->
  exists cs, diff_model (bt_from_list (keyed after)) (Model.semantic_name m, m) = Ok cs
    /\ forall c, c ∈ cs <-> model_change m m' c.
Proof.
  intros Hd [F M R] [F' M' R'] Hin Heq. unfold diff_model.
  assert (bt_get (Model.semantic_name m) (bt_from_list (keyed after)) = Some m') as ->.
  { by apply (named_get after). }
  unfold diff_fields, diff_metrics, diff_relationships.
  rewrite (proj2 (named_objects_ok "field" (Model.fields m) _) (conj F eq_refl)).
  rewrite (proj2 (named_objects_ok "field" (Model.fields m') _) (conj F' eq_refl)).
  rewrite (proj2 (named_objects_ok "metric" (Model.metrics m) _) (conj M eq_refl)).
  rewrite (proj2 (named_objects_ok "metric" (Model.metrics m') _) (conj M' eq_refl)).
  rewrite (proj2 (named_objects_ok "relationship" (Model.relationships m) _) (conj R eq_refl)).
  rewrite (proj2 (named_objects_ok "relationship" (Model.relationships m') _) (conj R' eq_refl)).
  eexists. split; [reflexivity|]. intros c. rewrite !elem_of_app.
  rewrite (diff_named_spec _ _ _ _ _ (Model.fields m)) by done.
  rewrite (diff_named_spec _ _ _ _ _ (Model.metrics m)) by done.
  rewrite (diff_named_spec _ _ _ _ _ (Model.relationships m)) by done. split.
  - intros [Hc|[Hc|[Hc|Hc]]]; [|by apply MC_field|by apply MC_metric|by apply MC_relationship].
    case_decide; [set_solver|]. apply list_elem_of_singleton in Hc as ->. by apply MC_metadata.
  - intros []; auto. left. case_decide; [done|]. by apply list_elem_of_singleton.
Qed.

Lemma diff_model_removed m after :
  distinct_names after -> Model.semantic_name m ∉ map Model.semantic_name after ->
  diff_model (bt_from_list (keyed after)) (Model.semantic_name m, m)
  = Ok [change (model_path m) SemanticObjectKind.Model ChangeKind.Removed Compatibility.Breaking
          (Some m) None].
Proof.
  intros Hd Hn. unfold diff_model.
  assert (bt_get (Model.semantic_name m) (bt_from_list (keyed after)) = None) as ->; [|done].
  by apply (named_absent after).
Qed.

Lemma try_map_total {E A B} (f : A -> result E B) l :
  (forall a, a ∈ l -> exists b, f a = Ok b) -> exists k, try_map f l = Ok k.
Proof.
  induction l as [|a l IH]; intros Hf; simpl; [eauto|].
  destruct (Hf a ltac:(left)) as [b Hb], IH as [k Hk]; [by intros; apply Hf; right|].
  exists (b :: k). by rewrite Hb, Hk.
Qed.

Lemma elem_of_concat_Forall2 {A} (R : A -> list SemanticChange -> Prop) l css c :
  Forall2 R l css -> c ∈ concat css <-> exists a cs, a ∈ l /\ R a cs /\ cs ∈ css /\ c ∈ cs.
Proof.
  intros HF. split.
  - intros Hc. apply list_elem_of_In, in_concat in Hc as (cs & Hcs & Hc).
    apply list_elem_of_In in Hcs, Hc. pose proof Hcs as Hcs'.
    apply list_elem_of_lookup in Hcs as [i Hi].
    destruct (Forall2_lookup_r _ _ _ _ _ HF Hi) as (a & Ha & HR).
    exists a, cs. split_and!; try done. by apply list_elem_of_lookup_2 in Ha.
  - intros (a & cs & _ & _ & Hcs & Hc). apply list_elem_of_In, in_concat. exists cs.
    split; by apply list_elem_of_In.
Qed.

Section compare.
Context (before after : list Model).
Context (Hb : distinct_names before) (Ha : distinct_names after).
Context (Hbm : Forall members_distinct before) (Ham : Forall members_distinct after).

(** What a model of the first snapshot contributes. *)
Definition entry_change (m : Model) (c : SemanticChange) : Prop :=
  ((Model.semantic_name m ∉ map Model.semantic_name after)
   /\ c = change (model_path m) SemanticObjectKind.Model ChangeKind.Removed
            Compatibility.Breaking (Some m) None)
  \/ exists m', m' ∈ after /\ Model.semantic_name m = Model.semantic_name m'
     /\ model_change m m' c.

Lemma diff_model_entry n m :
  (n, m) ∈ bt_from_list (keyed before) ->
  exists cs, diff_model (bt_from_list (keyed after)) (n, m) = Ok cs
    /\ forall c, c ∈ cs <-> entry_change m c.
Proof using Type*.
  intros Hin. apply named_elem in Hin as [Hm <-]; [|done]. simpl.
  rewrite Forall_forall in Hbm, Ham. unfold entry_change.
  destruct (decide (Model.semantic_name m ∈ map Model.semantic_name after)) as [Hin|Hout].
  - pose proof Hin as Hin'. apply list_elem_of_fmap in Hin' as (m' & Heq & Hm').
    destruct (diff_model_common m m' after) as (cs & Hcs & Hc); auto.
    exists cs. split; [done|]. intros c. rewrite Hc. split; [right; eauto|].
    intros [[? _]|(m2 & Hm2 & Heq2 & ?)]; [done|].
    assert (m2 = m') as ->; [|done].
    eapply (NoDup_map_inj Model.semantic_name); [exact Ha|done|done|congruence].
  - eexists. split; [by apply diff_model_removed|]. intros c.
    rewrite list_elem_of_singleton. split; [auto|].
    intros [[_ ?]|(m' & Hm' & Heq & _)]; [done|]. destruct Hout. rewrite Heq.
    by apply list_elem_of_fmap_2.
Qed.

Definition added_models : list SemanticChange :=
  concat (map (fun '(name, after_model) =>
    if bt_contains name (bt_from_list (keyed before)) then []
    else [change ("models." +:+ name) SemanticObjectKind.Model ChangeKind.Added
            Compatibility.Compatible None (Some after_model)]) (bt_from_list (keyed after))).

Lemma added_models_spec c :
  c ∈ added_models <->
  exists m', m' ∈ after /\ (Model.semantic_name m' ∉ map Model.semantic_name before)
    /\ c = change (model_path m') SemanticObjectKind.Model ChangeKind.Added
             Compatibility.Compatible None (Some m').
Proof using Type*.
  unfold added_models. rewrite elem_of_concat_map. unfold bt_contains. split.
  - intros ([n m'] & Hin & Hc). apply named_elem in Hin as [Hm' <-]; [|done].
    case_bool_decide as Hn; [set_solver|]. apply list_elem_of_singleton in Hc as ->.
    exists m'. split; [done|]. split; [|done].
    apply (proj1 (named_absent before (Model.semantic_name m') Hb)).
    by apply eq_None_not_Some.
  - intros (m' & Hm' & Hn & ->). exists (object_name m', m'). rewrite named_elem by done.
    split; [done|]. apply (proj2 (named_absent before (Model.semantic_name m') Hb)) in Hn.
    simpl in *. rewrite Hn. rewrite bool_decide_eq_false_2 by (by intros []). set_solver.
Qed.

Lemma modified_spec modified c :
  try_map (diff_model (bt_from_list (keyed after))) (bt_from_list (keyed before)) = Ok modified ->
  c ∈ concat modified <-> exists m, m ∈ before /\ entry_change m c.
Proof using Type*.
  intros Hmod%try_map_ok. rewrite (elem_of_concat_Forall2 _ _ _ _ Hmod). split.
  - intros ([n m] & cs & Hin & Hcs & _ & Hc).
    destruct (diff_model_entry n m Hin) as (cs' & Hcs' & Hspec). rewrite Hcs in Hcs'.
    apply Ok_inj in Hcs'. subst cs'. apply named_elem in Hin as [Hm _]; [|done].
    exists m. split; [done|]. by apply Hspec.
  - intros (m & Hm & Hc).
    assert (Hin : (Model.semantic_name m, m) ∈ bt_from_list (keyed before))
      by (by apply (named_elem before)).
    destruct (diff_model_entry _ _ Hin) as (cs & Hcs & Hspec).
    exists (Model.semantic_name m, m), cs. split_and!; try done; [|by apply Hspec].
    apply list_elem_of_lookup in Hin as [i Hi].
    destruct (Forall2_lookup_l _ _ _ _ _ Hmod Hi) as (cs' & Hi' & Hcs').
    rewrite Hcs in Hcs'. apply Ok_inj in Hcs'. subst. by apply list_elem_of_lookup_2 in Hi'.
Qed.

Lemma diff_models_spec : exists modified,
  try_map (diff_model (bt_from_list (keyed after))) (bt_from_list (keyed before)) = Ok modified
  /\ forall c, c ∈ concat modified ++ added_models <-> models_change before after c.
Proof using Type*.
  destruct (try_map_total (diff_model (bt_from_list (keyed after)))
              (bt_from_list (keyed before))) as [modified Hmod].
  { intros [n m] Hin. destruct (diff_model_entry n m Hin) as (cs & Hcs & _). eauto. }
  exists modified. split; [done|]. intros c.
  rewrite elem_of_app, (modified_spec _ _ Hmod), added_models_spec. split.
  - intros [(m & Hm & [[Hn ->]|(m' & Hm' & Heq & Hc)])|(m' & Hm' & Hn & ->)].
    + by apply SC_removed.
    + by eapply SC_model.
    + by apply SC_added.
  - intros [m Hm Hn|m' Hm' Hn|m m' c' Hm Hm' Heq Hc].
    + left. exists m. split; [done|]. by left.
    + right. by exists m'.
    + left. exists m. split; [done|]. right. by exists m'.
Qed.
End compare.

(** ** The difference *)

#[export] Instance change_le_trans : Transitive change_le.
Proof.
  intros a b c [H1|[E1 H1]] [H2|[E2 H2]]; unfold change_le.
  - left. by eapply klt_trans.
  - left. by rewrite <- E2.
  - left. by rewrite E1.
  - right. split; [congruence|lia].
Qed.

#[export] Instance change_le_total : Total change_le.
Proof.
  intros a b. unfold change_le.
  destruct (decide (Change.path a = Change.path b)) as [Heq|Hne].
  - destruct (decide (change_rank (Change.change a) <= change_rank (Change.change b))); [auto|].
    right. right. split; [done|lia].
  - destruct (total kle (Change.path a) (Change.path b)); [left|right]; left; split; auto.
Qed.

Lemma diff_snapshots_spec before after :
  comparable before -> comparable after ->
  exists changes,
    diff_snapshots before after = Ok (summarize (normalized before) (normalized after) changes)
    /\ StronglySorted change_le changes
    /\ forall c, c ∈ changes <-> models_change (Snapshot.models (normalized before))
                                   (Snapshot.models (normalized after)) c.
Proof.
  intros Hb Ha. destruct (comparable_normalized _ Hb) as [Db Mb].
  destruct (comparable_normalized _ Ha) as [Da Ma].
  destruct (diff_models_spec _ _ Db Da Mb Ma) as (modified & Hmod & Hc).
  eexists. split; [|split; [apply sort_by_sorted; apply _|]].
  - unfold diff_snapshots, named_models. cbv zeta.
    rewrite (proj2 (validate_version_spec before) Hb), (proj2 (validate_version_spec after) Ha).
    rewrite (proj2 (named_objects_ok "model" (Snapshot.models (normalized before)) _)
               (conj Db eq_refl)).
    rewrite (proj2 (named_objects_ok "model" (Snapshot.models (normalized after)) _)
               (conj Da eq_refl)).
    unfold mbind, result_bind. rewrite Hmod. reflexivity.
  - intros c. rewrite elem_of_sort_by. apply Hc.
Qed.

Lemma diff_snapshots_ok before after d :
  diff_snapshots before after = Ok d -> comparable before /\ comparable after.
Proof.
  unfold diff_snapshots. intros H. apply bind_ok in H as ([] & Hb%validate_version_spec & H).
  by apply bind_ok in H as ([] & Ha%validate_version_spec & _).
Qed.

Lemma breaking_count changes :
  length (List.filter is_breaking changes) = 0
  <-> Forall (fun c => Change.compatibility c = Compatibility.Compatible) changes.
Proof.
  induction changes as [|c changes IH]; simpl; [split; [constructor|done]|].
  unfold is_breaking at 1. rewrite Forall_cons, <- IH.
  destruct (Change.compatibility c) eqn:Hc; simpl; [naive_solver|].
  split; [done|]. by intros [? _].
Qed.

Lemma filter_length_le {A} (p : A -> bool) l : length (List.filter p l) <= length l.
Proof. induction l as [|a l IH]; simpl; [done|]. destruct (p a); simpl; lia. Qed.

(** ** Compatible differences *)

(** An object value determines the members it was built from. *)
Lemma bt_from_list_inj {V} (l l' : list (string * V)) :
  l.*1 = l'.*1 -> NoDup l.*1 -> bt_from_list l = bt_from_list l' -> l = l'.
Proof.
  intros Hk Hnd Heq. apply list_eq. intros i.
  assert (Hi : l.*1 !! i = l'.*1 !! i) by (by rewrite Hk). rewrite !list_lookup_fmap in Hi.
  destruct (l !! i) as [[k v]|] eqn:H1, (l' !! i) as [[k' v']|] eqn:H2; try done.
  injection Hi as <-. do 2 f_equal.
  apply list_elem_of_lookup_2 in H1. apply list_elem_of_lookup_2 in H2.
  apply bt_from_list_get_nodup in H1; [|done].
  apply bt_from_list_get_nodup in H2; [|by rewrite <- Hk]. congruence.
Qed.

Lemma object_value_inj (l l' : list (string * json)) :
  JObj (bt_from_list l) = JObj (bt_from_list l') -> l.*1 = l'.*1 -> NoDup l.*1 -> l = l'.
Proof. intros [= H] ? ?. by apply bt_from_list_inj. Qed.

Lemma entry_inj {V} (k k' : string) (v v' : V) l l' :
  (k, v) :: l = (k', v') :: l' -> v = v' /\ l = l'.
Proof. by intros [= _ -> ->]. Qed.

(** Opens an equation between objects with the same, distinct keys. *)
Ltac open_objects H :=
  apply object_value_inj in H; [|reflexivity|apply nodup_bool; reflexivity].

Lemma relation_value_inj (r r' : Relation) :
  to_value (Relation.to_json r) = to_value (Relation.to_json r') -> r = r'.
Proof.
  destruct r, r'. unfold Relation.to_json. cbn [to_value map]. intros H. open_objects H.
  by injection H as -> ->.
Qed.

Lemma metadata_inj m m' :
  model_metadata m = model_metadata m' ->
  Model.source m = Model.source m' /\ Model.timezone m = Model.timezone m'
  /\ Model.queryable m = Model.queryable m'.
Proof.
  unfold model_metadata. cbn [to_value map]. intros H. open_objects H.
  apply entry_inj in H as [Hs H]. apply entry_inj in H as [Ht H]. apply entry_inj in H as [Hq _].
  split_and!; [by apply relation_value_inj| |by injection Hq].
  by destruct (Model.timezone m), (Model.timezone m'); simplify_eq/=.
Qed.

Lemma strings_value_inj (l l' : list string) :
  to_value (JArr (map JStr l)) = to_value (JArr (map JStr l')) -> l = l'.
Proof.
  cbn [to_value]. rewrite !map_map. intros H. injection H as H.
  eapply map_inj'; [|exact H]. by intros x y [= ->].
Qed.

Lemma writable_field_value_inj f f' :
  to_value (WritableField.to_json f) = to_value (WritableField.to_json f') -> f = f'.
Proof.
  destruct f, f'. unfold WritableField.to_json. cbn [to_value map]. intros H. open_objects H.
  by simplify_eq/=.
Qed.

Lemma writable_fields_value_inj l l' :
  to_value (JArr (map WritableField.to_json l)) = to_value (JArr (map WritableField.to_json l')) ->
  l = l'.
Proof.
  cbn [to_value]. rewrite !map_map. intros H. apply (f_equal (fun j => match j with
    | JArr a => a | _ => [] end)) in H. cbn beta iota in H.
  eapply map_inj'; [|exact H]. apply writable_field_value_inj.
Qed.

Lemma upsert_value_inj u u' :
  to_value (UpsertPolicy.to_json u) = to_value (UpsertPolicy.to_json u') -> u = u'.
Proof.
  destruct u, u'. unfold UpsertPolicy.to_json. cbn [to_value map UpsertPolicy.conflict_fields].
  intros H. open_objects H. apply entry_inj in H as [H _]. f_equal. by apply strings_value_inj.
Qed.

Lemma writable_value_inj w w' :
  to_value (WritableModel.to_json w) = to_value (WritableModel.to_json w') -> w = w'.
Proof.
  destruct w as [i u r b fs ret], w' as [i' u' r' b' fs' ret']. unfold WritableModel.to_json.
  destruct u as [u|], u' as [u'|];
    cbn [opt_field WritableModel.insert WritableModel.upsert WritableModel.fields
         WritableModel.max_rows WritableModel.max_request_bytes WritableModel.returning
         app to_value map]; intros H.
  2,3: apply (f_equal (fun j => match j with JObj kvs => length kvs | _ => 0 end)) in H;
       vm_compute in H; discriminate H.
  - open_objects H.
    apply entry_inj in H as [Hi H]. apply entry_inj in H as [Hu%upsert_value_inj H].
    apply entry_inj in H as [Hr H]. apply entry_inj in H as [Hb H].
    apply entry_inj in H as [Hf%writable_fields_value_inj H].
    apply entry_inj in H as [Hret%strings_value_inj _].
    injection Hi as ->. injection Hr as Hr%N2Z.inj. injection Hb as Hb%N2Z.inj. by subst.
  - open_objects H.
    apply entry_inj in H as [Hi H]. apply entry_inj in H as [Hr H].
    apply entry_inj in H as [Hb H]. apply entry_inj in H as [Hf%writable_fields_value_inj H].
    apply entry_inj in H as [Hret%strings_value_inj _].
    injection Hi as ->. injection Hr as Hr%N2Z.inj. injection Hb as Hb%N2Z.inj. by subst.
Qed.

(** The metadata of a model determines what it shows. *)
Lemma metadata_writable m m' :
  model_metadata m = model_metadata m' -> Model.writable m = Model.writable m'.
Proof.
  unfold model_metadata. cbn [to_value map]. intros H. open_objects H.
  do 3 apply entry_inj in H as [_ H]. apply entry_inj in H as [H _].
  destruct (Model.writable m) as [w|], (Model.writable m') as [w'|]; cbn [nullable_json] in H.
  - f_equal. by apply writable_value_inj.
  - discriminate H.
  - discriminate H.
  - done.
Qed.

(** What an upgraded model keeps of a model. *)
Record model_kept (m m' : Model) : Prop := {
  kept_name : Model.semantic_name m' = Model.semantic_name m;
  kept_source : Model.source m' = Model.source m;
  kept_timezone : Model.timezone m' = Model.timezone m;
  kept_queryable : Model.queryable m = true -> Model.queryable m' = true;
  kept_writable : is_Some (Model.writable m) ->
    normalize_writable <$> Model.writable m' = normalize_writable <$> Model.writable m;
  kept_fields : forall f, f ∈ Model.fields m -> Field.visible f = true -> f ∈ Model.fields m';
  kept_metrics : forall x, x ∈ Model.metrics m -> Metric.visible x = true -> x ∈ Model.metrics m';
  kept_relationships : forall r, r ∈ Model.relationships m -> r ∈ Model.relationships m';
}.

(** A visible object of a collection without breaking changes is unchanged. *)
Lemma object_kept {T} `{!SemanticObject T} path collection kind visible compat
    (before after : list T) o :
  (forall c, object_change path collection kind visible compat before after c ->
     Change.compatibility c = Compatibility.Compatible) ->
  (forall o o', visible o = true -> o <> o' -> compat o o' = Compatibility.Breaking) ->
  o ∈ before -> visible o = true -> o ∈ after.
Proof.
  intros Hc Hcompat Ho Hv.
  destruct (decide (object_name o ∈ map object_name after)) as [Hin|Hout].
  - apply list_elem_of_fmap in Hin as (o' & Heq & Ho').
    destruct (decide (o = o')) as [->|Hne]; [done|].
    specialize (Hc _ (OC_modified _ _ _ _ _ _ _ o o' Ho Ho' Heq Hne)). simpl in Hc.
    by rewrite Hcompat in Hc.
  - specialize (Hc _ (OC_removed _ _ _ _ _ _ _ o Ho Hout)). simpl in Hc. by rewrite Hv in Hc.
Qed.

Lemma metadata_kept m m' :
  (model_metadata m <> model_metadata m' -> model_compatibility m m' = Compatibility.Compatible) ->
  Model.source m' = Model.source m /\ Model.timezone m' = Model.timezone m
  /\ (Model.queryable m = true -> Model.queryable m' = true)
  /\ (is_Some (Model.writable m) -> Model.writable m' = Model.writable m).
Proof.
  intros H. destruct (decide (model_metadata m = model_metadata m')) as [Heq|Hne].
  - destruct (metadata_inj _ _ Heq) as (-> & -> & ->). by rewrite (metadata_writable _ _ Heq).
  - specialize (H Hne). unfold model_compatibility in H.
    destruct (_ || _) eqn:Hb in H; [done|]. clear H. rewrite !orb_false_iff in Hb.
    destruct Hb as [[[Hs Ht] Hq] Hw]. apply bool_decide_eq_false, dec_stable in Hs, Ht.
    rewrite andb_false_iff in Hq, Hw. split_and!; try done.
    + intros Hmq. rewrite Hmq in Hq. by destruct Hq as [|?%negb_false_iff].
    + intros Hsome. destruct Hw as [Hw|Hw]; apply bool_decide_eq_false in Hw; [done|].
      by apply dec_stable in Hw.
Qed.

Lemma field_compat_breaking f f' :
  Field.visible f = true -> f <> f' -> field_compatibility f f' = Compatibility.Breaking.
Proof. intros Hv _. unfold field_compatibility. by rewrite Hv. Qed.

Lemma metric_compat_breaking x x' :
  Metric.visible x = true -> x <> x' -> metric_compatibility x x' = Compatibility.Breaking.
Proof. intros Hv _. unfold metric_compatibility. by rewrite Hv. Qed.

Lemma model_change_kept m m' :
  Model.semantic_name m = Model.semantic_name m' ->
  (forall c, model_change (normalize_model m) (normalize_model m') c ->
     Change.compatibility c = Compatibility.Compatible) -> model_kept m m'.
Proof.
  intros Hname Hc.
  destruct (metadata_kept (normalize_model m) (normalize_model m')) as (Hs & Ht & Hq & Hw).
  { intros Hne. apply (Hc _ (MC_metadata _ _ Hne)). }
  constructor; try done.
  - intros Hsome. apply Hw. simpl. by destruct Hsome as [w ->].
  - intros f Hf Hv. rewrite <- (elem_of_sort_by field_le) in Hf |- *.
    eapply object_kept; [|apply field_compat_breaking|exact Hf|done].
    intros c Hch. apply Hc. apply MC_field. exact Hch.
  - intros x Hx Hv. rewrite <- (elem_of_sort_by metric_le) in Hx |- *.
    eapply object_kept; [|apply metric_compat_breaking|exact Hx|done].
    intros c Hch. apply Hc. apply MC_metric. exact Hch.
  - intros r Hr. rewrite <- (elem_of_sort_by relationship_le) in Hr |- *.
    eapply (object_kept (model_path (normalize_model m)) "relationships"
              SemanticObjectKind.Relationship (fun _ => true) (fun _ _ => Compatibility.Breaking));
      [|done|exact Hr|done].
    intros c Hch. apply Hc. apply MC_relationship. exact Hch.
Qed.

Lemma elem_of_normalized_models s n :
  n ∈ Snapshot.models (normalized s) <-> exists m, m ∈ Snapshot.models s /\ n = normalize_model m.
Proof.
  unfold normalized. simpl. rewrite (list_elem_of_fmap normalize_model).
  setoid_rewrite (elem_of_sort_by model_le). naive_solver.
Qed.

Lemma models_change_self ms c :
  distinct_names ms -> Forall members_distinct ms -> ~ models_change ms ms c.
Proof.
  intros Hd Hm [m Hin Hn|m Hin Hn|m m' c' Hin Hin' Heq Hc].
  - apply Hn. by apply list_elem_of_fmap_2.
  - apply Hn. by apply list_elem_of_fmap_2.
  - assert (m = m') as <- by (by eapply (NoDup_map_inj Model.semantic_name)).
    rewrite Forall_forall in Hm. destruct (Hm m Hin) as [Hf Hme Hr].
    assert (Hself : forall {T} `{!SemanticObject T} p col k vis cmp (l : list T) c,
      distinct_names l -> ~ object_change p col k vis cmp l l c).
    { intros T ? p col k vis cmp l c0 Hl [o Ho Hno|o o' Ho Ho' Hoo Hne|o Ho Hno].
      - apply Hno. by apply list_elem_of_fmap_2.
      - apply Hne. by eapply (NoDup_map_inj object_name).
      - apply Hno. by apply list_elem_of_fmap_2. }
    destruct Hc as [Hne|c1 Hc|c1 Hc|c1 Hc]; [done|..]; by eapply Hself in Hc.
Qed.
