(* ===== verification/Effects.v ===== *)
(** * Programs that call their environment

    Code that talks to PostgreSQL is a tree of calls: a program either returns
    or makes a call of a signature and goes on with whatever the environment
    answers.  The environment is adversarial: a theorem about a program holds
    for every sequence of answers.  Trees are inductive, so every program ends
    after finitely many calls.

    A protocol is specified by a monitor, a small machine that observes calls
    and their answers and says which calls are allowed in which state;
    [monitored] is a program logic that checks a program against it. *)

From S2P Require Import Prelude.

(** ** Programs *)

Section prog.
Context {Op : Type} (Res : Op -> Type).

Inductive prog (A : Type) : Type :=
| Ret (a : A)
| Call (op : Op) (k : Res op -> prog A).

Fixpoint prog_bind_ {A B} (f : A -> prog B) (p : prog A) : prog B :=
  match p with
  | Ret _ a => f a
  | Call _ op k => Call _ op (fun r => prog_bind_ f (k r))
  end.
End prog.

Arguments Ret {Op Res A} a.
Arguments Call {Op Res A} op k.

#[export] Instance prog_ret {Op} {Res : Op -> Type} : MRet (prog Res) := fun A a => Ret a.
#[export] Instance prog_bind {Op} {Res : Op -> Type} : MBind (prog Res) :=
  fun A B f p => prog_bind_ Res f p.

(** A single call. *)
Definition call {Op} {Res : Op -> Type} (op : Op) : prog Res (Res op) := Call op (fun r => Ret r).

(** The [?] operator: go on with the value of [Ok], return [Err] early. *)
Definition try_bind {Op} {Res : Op -> Type} {E A B} (p : prog Res (result E A))
    (k : A -> prog Res (result E B)) : prog Res (result E B) :=
  r ← p; match r with Ok a => k a | Err e => Ret (Err e) end.

Declare Scope prog_scope.
Delimit Scope prog_scope with prog.
Notation "x ←? p ; k" := (try_bind p (fun x => k))
  (at level 20, p at level 100, k at level 200, right associativity,
   format "x  ←?  p ;  '/' k") : prog_scope.
Notation "' x ←? p ; k" := (try_bind p (fun x => k))
  (at level 20, x pattern, p at level 100, k at level 200, right associativity,
   format "' x  ←?  p ;  '/' k") : prog_scope.
Notation "p ;;? k" := (try_bind p (fun _ => k))
  (at level 100, k at level 200, right associativity, format "p ;;?  '/' k") : prog_scope.
Open Scope prog_scope.

(** A call whose failure is mapped to an error of the caller. *)
Definition attempt {Op} {Res : Op -> Type} {D E A} (err : D -> E)
    (p : prog Res (result D A)) : prog Res (result E A) :=
  r ← p; Ret (map_err err r).

(** Pure fallible code inside a program. *)
Definition lift {Op} {Res : Op -> Type} {E A} (m : result E A) : prog Res (result E A) := Ret m.

(** How a run ends without a value: in an error of the code, or unwinding. *)
Module Thrown.
Inductive Thrown (E : Type) : Type :=
| Raised (e : E)
| Panic.
Arguments Raised {E} e.
Arguments Panic {E}.
Definition map_raised {E F} (f : E -> F) (t : Thrown E) : Thrown F :=
  match t with Raised e => Raised (f e) | Panic => Panic end.
End Thrown.
Abbreviation Thrown := Thrown.Thrown.

(** [for a in l { body(a)? }]. *)
Section each.
Context {Op : Type} {Res : Op -> Type} {E A : Type} (body : A -> prog Res (result E unit)).

Fixpoint each (l : list A) : prog Res (result E unit) :=
  match l with
  | [] => Ret (Ok tt)
  | a :: l' => body a ;;? each l'
  end.
End each.

(** ** Runs *)

Section runs.
Context {Op : Type} {Res : Op -> Type}.

(** A call with the answer it got. *)
Record event : Type := Ev { ev_op : Op; ev_res : Res ev_op }.

(** [runs p tr a]: with the answers recorded in [tr], [p] makes exactly the
    calls of [tr] and returns [a]. *)
Fixpoint runs {A} (p : prog Res A) (tr : list event) (a : A) : Prop :=
  match p with
  | Ret b => tr = [] /\ a = b
  | Call op k => exists r tr', tr = Ev op r :: tr' /\ runs (k r) tr' a
  end.

(** Running a program against an environment that answers from a state. *)
Section answer.
Context {S : Type} (handler : S -> forall op, Res op * S).

Fixpoint execute_with {A} (s : S) (p : prog Res A) : list event * A :=
  match p with
  | Ret a => ([], a)
  | Call op k =>
      let '(r, s') := handler s op in
      let '(tr, a) := execute_with s' (k r) in
      (Ev op r :: tr, a)
  end.

Lemma execute_with_runs {A} (p : prog Res A) s :
  runs p (execute_with s p).1 (execute_with s p).2.
Proof.
  revert s. induction p as [a|op k IH]; intros s; simpl; [done|].
  destruct (handler s op) as [r s'] eqn:Hr. specialize (IH r s').
  destruct (execute_with s' (k r)) as [tr a] eqn:He. simpl in *. eauto.
Qed.
End answer.

Lemma runs_bind {A B} (p : prog Res A) (f : A -> prog Res B) tr b :
  runs (p ≫= f) tr b <->
  exists tr1 a tr2, tr = tr1 ++ tr2 /\ runs p tr1 a /\ runs (f a) tr2 b.
Proof.
  revert tr. induction p as [a|op k IH]; intros tr.
  - split.
    + intros H. exists [], a, tr. done.
    + intros (tr1 & a' & tr2 & -> & [-> ->] & H). exact H.
  - split.
    + intros (r & tr' & -> & (tr1 & a & tr2 & -> & H1 & H2)%IH).
      exists (Ev op r :: tr1), a, tr2. split; [done|]. split; [|done]. simpl. eauto.
    + intros (tr1 & a & tr2 & -> & (r & tr' & -> & H1) & H2).
      exists r, (tr' ++ tr2). split; [done|]. apply IH. eauto 10.
Qed.

(** The parts of a run that succeeds. *)
Lemma runs_try {E A B} (p : prog Res (result E A)) (f : A -> prog Res (result E B)) tr b :
  runs (try_bind p f) tr (Ok b) ->
  exists tr1 a tr2, tr = tr1 ++ tr2 /\ runs p tr1 (Ok a) /\ runs (f a) tr2 (Ok b).
Proof.
  intros (tr1 & [a|e] & tr2 & -> & H1 & H2)%runs_bind; [eauto 10|]. by destruct H2 as [_ [=]].
Qed.

Lemma runs_try_lift {E A B} (m : result E A) (f : A -> prog Res (result E B)) tr b :
  runs (try_bind (lift m) f) tr (Ok b) -> exists a, m = Ok a /\ runs (f a) tr (Ok b).
Proof. intros (tr1 & a & tr2 & -> & [-> <-] & Hr)%runs_try. eauto. Qed.

Lemma runs_attempt {D E A} (err : D -> E) (p : prog Res (result D A)) tr a :
  runs (attempt err p) tr (Ok a) -> runs p tr (Ok a).
Proof.
  intros (tr1 & [a'|d] & tr2 & -> & H1 & H2)%runs_bind; destruct H2 as [-> [=]].
  subst. by rewrite app_nil_r.
Qed.

(** [p] is run somewhere in a trace and succeeds. *)
Definition occurs {E} (p : prog Res (result E unit)) (tr : list event) : Prop :=
  exists pre part post, tr = pre ++ part ++ post /\ runs p part (Ok tt).

Lemma occurs_within {E} (p : prog Res (result E unit)) pre part post :
  occurs p part -> occurs p (pre ++ part ++ post).
Proof.
  intros (pre' & part' & post' & -> & Hr). exists (pre ++ pre'), part', (post' ++ post).
  by rewrite <- !app_assoc.
Qed.

Lemma runs_each {E A} (body : A -> prog Res (result E unit)) l tr :
  runs (each body l) tr (Ok tt) -> Forall (fun a => occurs (body a) tr) l.
Proof.
  revert tr. induction l as [|a l IH]; intros tr; [constructor|].
  intros (tr1 & [] & tr2 & -> & H1 & H2)%runs_try. constructor.
  - exists [], tr1, tr2. done.
  - apply IH in H2. eapply Forall_impl; [exact H2|]. intros b Hb.
    rewrite <- (app_nil_r (tr1 ++ tr2)), <- app_assoc. by apply occurs_within.
Qed.
End runs.

Arguments event {Op} Res.

(** ** Monitors *)

Section monitor.
Context {Op : Type} {Res : Op -> Type} {M : Type}.
Context (allowed : M -> Op -> Prop) (observe : M -> forall op, Res op -> M).

(** The state of the monitor after a trace. *)
Definition watch (m : M) (tr : list (event Res)) : M :=
  foldl (fun m e => observe m (ev_op e) (ev_res e)) m tr.

(** Every call of the trace is allowed when it is made. *)
Fixpoint accepts (m : M) (tr : list (event Res)) : Prop :=
  match tr with
  | [] => True
  | e :: tr' => allowed m (ev_op e) /\ accepts (observe m (ev_op e) (ev_res e)) tr'
  end.

(** From monitor state [m], [p] only makes allowed calls and ends in a state
    and with a result related by [Q], whatever is answered. *)
Fixpoint monitored {A} (p : prog Res A) (m : M) (Q : M -> A -> Prop) : Prop :=
  match p with
  | Ret a => Q m a
  | Call op k => allowed m op /\ forall r, monitored (k r) (observe m op r) Q
  end.

Lemma monitored_mono {A} (p : prog Res A) m (Q Q' : M -> A -> Prop) :
  monitored p m Q -> (forall m' a, Q m' a -> Q' m' a) -> monitored p m Q'.
Proof.
  intros Hp HQ. revert m Hp. induction p as [a|op k IH]; intros m; simpl; [apply HQ|].
  intros [Ha Hk]. split; [done|]. intros r. by apply IH.
Qed.

Lemma monitored_bind {A B} (p : prog Res A) (f : A -> prog Res B) m Q :
  monitored p m (fun m' a => monitored (f a) m' Q) -> monitored (p ≫= f) m Q.
Proof.
  revert m. induction p as [a|op k IH]; intros m; simpl; [done|].
  intros [Ha Hk]. split; [done|]. intros r. by apply IH.
Qed.

Lemma monitored_seq {A B} (p : prog Res A) (f : A -> prog Res B) m R Q :
  monitored p m R -> (forall m' a, R m' a -> monitored (f a) m' Q) ->
  monitored (p ≫= f) m Q.
Proof. intros Hp Hf. apply monitored_bind. by eapply monitored_mono. Qed.

Lemma monitored_try {E A B} (p : prog Res (result E A)) (f : A -> prog Res (result E B)) m R Q :
  monitored p m R ->
  (forall m' a, R m' (Ok a) -> monitored (f a) m' Q) ->
  (forall m' e, R m' (Err e) -> Q m' (Err e)) ->
  monitored (try_bind p f) m Q.
Proof.
  intros Hp Hok Herr. eapply monitored_seq; [exact Hp|]. intros m' [a|e] HR; [by apply Hok|].
  by apply Herr.
Qed.

Lemma monitored_attempt {D E A} (err : D -> E) (p : prog Res (result D A)) m Q :
  monitored p m (fun m' r => Q m' (map_err err r)) -> monitored (attempt err p) m Q.
Proof. intros H. by apply monitored_bind. Qed.

Lemma monitored_call op m (Q : M -> Res op -> Prop) :
  allowed m op -> (forall r, Q (observe m op r) r) -> monitored (call op) m Q.
Proof. intros Ha HQ. split; [done|]. apply HQ. Qed.

(** [p.map_err(err)?; k]. *)
Lemma monitored_try_attempt {D E A B} (err : D -> E) (p : prog Res (result D A))
    (f : A -> prog Res (result E B)) m Q :
  monitored p m (fun m' r =>
    match r with Ok a => monitored (f a) m' Q | Err d => Q m' (Err (err d)) end) ->
  monitored (try_bind (attempt err p) f) m Q.
Proof.
  intros Hp. apply monitored_bind, monitored_bind. eapply monitored_mono; [exact Hp|].
  by intros m' [a|d].
Qed.

(** [p.map_err(err)] in tail position. *)
Lemma monitored_last_attempt {D E A} (err : D -> E) (p : prog Res (result D A)) m Q :
  monitored p m (fun m' r =>
    match r with Ok a => Q m' (Ok a) | Err d => Q m' (Err (err d)) end) ->
  monitored (attempt err p) m Q.
Proof.
  intros Hp. apply monitored_bind. eapply monitored_mono; [exact Hp|]. by intros m' [a|d].
Qed.

(** A loop keeps an invariant indexed by what is left to do. *)
Lemma monitored_each {E A} (body : A -> prog Res (result E unit)) (I : list A -> M -> Prop)
    (F : M -> E -> Prop) l m :
  I l m ->
  (forall a l' m', I (a :: l') m' ->
     monitored (body a) m'
       (fun m'' r => match r with Ok _ => I l' m'' | Err e => F m'' e end)) ->
  monitored (each body l) m
    (fun m' r => match r with Ok _ => I [] m' | Err e => F m' e end).
Proof.
  intros HI Hbody. revert m HI. induction l as [|a l IH]; intros m HI; [done|].
  eapply monitored_try; [by apply Hbody| |done]. intros m' [] HI'. by apply IH.
Qed.

Lemma monitored_runs {A} (p : prog Res A) m Q tr a :
  monitored p m Q -> runs p tr a -> accepts m tr /\ Q (watch m tr) a.
Proof.
  revert m tr. induction p as [b|op k IH]; intros m tr; simpl.
  - intros HQ [-> ->]. done.
  - intros [Ha Hk] (r & tr' & -> & Hr). specialize (IH r _ tr' (Hk r) Hr).
    destruct IH. split; [split|]; done.
Qed.

Lemma accepts_app m tr1 tr2 :
  accepts m (tr1 ++ tr2) <-> accepts m tr1 /\ accepts (watch m tr1) tr2.
Proof.
  revert m. induction tr1 as [|e tr1 IH]; intros m; simpl; [tauto|].
  rewrite IH. unfold watch. simpl. tauto.
Qed.

(** The call at any position was allowed in the state reached before it. *)
Lemma accepts_at m pre e post :
  accepts m (pre ++ e :: post) -> allowed (watch m pre) (ev_op e).
Proof. rewrite accepts_app. by intros [_ [H _]]. Qed.

Lemma accepts_lookup m tr i e :
  accepts m tr -> tr !! i = Some e -> allowed (watch m (take i tr)) (ev_op e).
Proof.
  intros Ha Hi. rewrite <- (take_drop_middle _ _ _ Hi) in Ha. by eapply accepts_at.
Qed.

Lemma watch_app m tr1 tr2 : watch m (tr1 ++ tr2) = watch (watch m tr1) tr2.
Proof. apply foldl_app. Qed.
End monitor.

(** ** Code that does not move a monitor *)

Section quiet.
Context {Op : Type} {Res : Op -> Type} {M : Type}.
Context (allowed : M -> Op -> Prop) (observe : M -> forall op, Res op -> M).

Definition quiet {A} (p : prog Res A) (m : M) : Prop :=
  monitored allowed observe p m (fun m' _ => m' = m).

Lemma quiet_ret {A} (a : A) m : quiet (Ret a) m.
Proof. done. Qed.

Lemma quiet_lift {E A} (r : result E A) m : quiet (lift r) m.
Proof. done. Qed.

Lemma quiet_call op m :
  allowed m op -> (forall r, observe m op r = m) -> quiet (call op) m.
Proof. intros Ha Ho. split; [done|]. intros r. apply Ho. Qed.

Lemma quiet_bind {A B} (p : prog Res A) (f : A -> prog Res B) m :
  quiet p m -> (forall a, quiet (f a) m) -> quiet (p ≫= f) m.
Proof. intros Hp Hf. eapply monitored_seq; [exact Hp|]. intros m' a ->. apply Hf. Qed.

Lemma quiet_try {E A B} (p : prog Res (result E A)) (f : A -> prog Res (result E B)) m :
  quiet p m -> (forall a, quiet (f a) m) -> quiet (try_bind p f) m.
Proof. intros Hp Hf. apply quiet_bind; [done|]. by intros []. Qed.

Lemma quiet_attempt {D E A} (err : D -> E) (p : prog Res (result D A)) m :
  quiet p m -> quiet (attempt err p) m.
Proof. intros Hp. by apply quiet_bind. Qed.

Lemma quiet_each {E A} (body : A -> prog Res (result E unit)) l m :
  (forall a, quiet (body a) m) -> quiet (each body l) m.
Proof. intros Hb. induction l as [|a l IH]; [done|]. simpl. apply quiet_try; auto. Qed.

Lemma quiet_try_lift {E A B} (r : result E A) (f : A -> prog Res (result E B)) m :
  (forall a, r = Ok a -> quiet (f a) m) -> quiet (try_bind (lift r) f) m.
Proof. intros Hf. destruct r as [a|e]; [|done]. by apply Hf. Qed.

Lemma monitored_try_lift {E A B} (r : result E A) (f : A -> prog Res (result E B)) m Q :
  (forall a, r = Ok a -> monitored allowed observe (f a) m Q) ->
  (forall e, r = Err e -> Q m (Err e)) ->
  monitored allowed observe (try_bind (lift r) f) m Q.
Proof. intros Hf He. destruct r as [a|e]; [by apply Hf|by apply He]. Qed.

(** A quiet prefix can be skipped. *)
Lemma monitored_quiet {A B} (p : prog Res A) (f : A -> prog Res B) m Q :
  quiet p m -> (forall a, monitored allowed observe (f a) m Q) ->
  monitored allowed observe (p ≫= f) m Q.
Proof. intros Hp Hf. eapply monitored_seq; [exact Hp|]. intros m' a ->. apply Hf. Qed.

Lemma monitored_try_quiet {E A B} (p : prog Res (result E A)) (f : A -> prog Res (result E B)) m Q :
  quiet p m -> (forall a, monitored allowed observe (f a) m Q) -> (forall e, Q m (Err e)) ->
  monitored allowed observe (try_bind p f) m Q.
Proof. intros Hp Hf He. apply monitored_quiet; [done|]. intros [a|e]; [apply Hf|apply He]. Qed.
End quiet.

(** A program that is quiet for a monitor without memory makes only the calls
    it allows. *)
Lemma quiet_runs {Op} {Res : Op -> Type} {A} (P : Op -> Prop) (p : prog Res A) tr a :
  quiet (M := unit) (fun _ op => P op) (fun _ _ _ => tt) p tt ->
  runs p tr a -> Forall (fun e => P (ev_op e)) tr.
Proof.
  intros Hp Hr. destruct (monitored_runs _ _ _ _ _ _ _ Hp Hr) as [Ha _]. clear Hp Hr.
  induction tr as [|e tr IH]; [constructor|]. destruct Ha as [? ?]. constructor; [done|by apply IH].
Qed.

Create HintDb quiet.
#[export] Hint Resolve quiet_ret quiet_lift quiet_attempt quiet_each : quiet.

(** Walks through quiet code, leaving the calls it cannot dismiss. *)
Ltac quiet_step :=
  lazymatch goal with
  | |- quiet _ _ (mbind _ _) _ => apply quiet_bind; [|intros ?]
  | |- quiet _ _ (try_bind _ _) _ => apply quiet_try; [|intros ?]
  | |- quiet _ _ (attempt _ _) _ => apply quiet_attempt
  | |- quiet _ _ (each _ _) _ => apply quiet_each; intros ?
  | |- quiet _ _ (call _) _ => apply quiet_call
  | |- quiet _ _ (let _ := _ in _) _ => cbv zeta
  | |- quiet _ _ (match ?x with _ => _ end) _ => destruct x
  | |- quiet _ _ _ _ => solve [eauto with quiet typeclass_instances]
  end.
Ltac quiet := repeat quiet_step.

(** Symbolic execution up to the next call, which is left as the goal that it is
    allowed and the two goals of its answers. *)
Ltac mcall :=
  lazymatch goal with
  | |- monitored ?al ?ob (try_bind (attempt _ (call ?op)) _) _ _ =>
      apply monitored_try_attempt; apply (monitored_call al ob op); [|intros [?|?]]
  | |- monitored ?al ?ob (attempt _ (call ?op)) _ _ =>
      apply monitored_last_attempt; apply (monitored_call al ob op); [|intros [?|?]]
  | |- monitored ?al ?ob (try_bind (call ?op) _) _ _ =>
      apply monitored_bind; apply (monitored_call al ob op); [|intros [?|?]]
  | |- monitored ?al ?ob (mbind _ (call ?op)) _ _ =>
      apply monitored_bind; apply (monitored_call al ob op); [|intros ?]
  end.

(** Evaluation of pure steps. *)
Ltac msimpl := unfold try_bind, attempt, lift; simpl.
