(* ===== verification/Database.v ===== *)
(** * PostgreSQL as the gateway sees it ([database.rs] and the statements)

    [statement] enumerates the SQL texts the gateway sends with bound
    parameters and [row_of] the columns each of them returns; [operation] are
    the calls on a client, a transaction, the clock and the caller's cancel
    callback.  What PostgreSQL answers is not fixed: any row of the declared
    columns, or an error.  Statements whose text the gateway generates
    ([batch_execute], [query_raw]) carry the text.

    The rest models [database.rs]: the checks of a connection's configuration
    and the session's timeouts.

    The last part has lemmas on connections and on monitors of these calls. *)

From S2P Require Import Prelude Ordered Text Json Lsq Semantic Effects.

(** ** Machine integers and durations *)

Definition USIZE_MAX : N := 18446744073709551615.
Definition I64_MAX : Z := 9223372036854775807.

(** [usize::saturating_add] and the wrapping [+] of a release build. *)
Definition saturating_add (a b : N) : N := N.min (a + b) USIZE_MAX.
Definition wrapping_add (a b : N) : N := (a + b) mod (USIZE_MAX + 1).

(** [i64::try_from(n).unwrap_or(i64::MAX)]. *)
Definition saturating_i64 (n : N) : Z := Z.min (Z.of_N n) I64_MAX.

(** [std::time::Duration] in nanoseconds. *)
Definition Duration : Type := N.
Definition from_millis (ms : N) : Duration := (ms * 1000000)%N.
Definition from_secs (s : N) : Duration := (s * 1000000000)%N.
Definition as_millis (d : Duration) : N := (d / 1000000)%N.

Lemma as_millis_from_millis ms : as_millis (from_millis ms) = ms.
Proof. unfold as_millis, from_millis. by apply N.div_mul. Qed.

(** ** The process environment *)

(** Errors of [std::env::var]; the environment itself is an argument of type
    [string -> result VarError string]. *)
Inductive VarError : Type := NotPresent | NotUnicode.
Abbreviation environment := (string -> result VarError string).

(** One more digit. *)
Definition decimal_step (acc : option N) (c : ascii) : option N :=
  acc ← acc; if is_ascii_digit c then Some (acc * 10 + (code c - 48))%N else None.

(** [str::parse] of an unsigned integer of 64 bits: an optional [+], then at
    least one digit, and a value in range. *)
Definition parse_decimal (s : string) : option N :=
  fold_left decimal_step (bytes s) (Some 0%N).

Definition parse_u64 (s : string) : option N :=
  let digits := match s with String "+" s' => s' | _ => s end in
  if decide (digits = EmptyString) then None else
  n ← parse_decimal digits;
  if decide (n ≤ USIZE_MAX)%N then Some n else None.

Lemma pretty_N_char_digit d : (d < 10)%N ->
  is_ascii_digit (pretty_N_char d) = true /\ (code (pretty_N_char d) - 48 = d)%N.
Proof.
  intros Hd. assert (d = 0 \/ d = 1 \/ d = 2 \/ d = 3 \/ d = 4 \/ d = 5 \/ d = 6 \/ d = 7 \/ d = 8
                     \/ d = 9)%N as Hd' by lia.
  destruct_or! Hd'; subst; by vm_compute.
Qed.

Lemma decimal_go x : forall s,
  fold_left decimal_step (bytes (pretty_N_go x s)) (Some 0%N)
  = fold_left decimal_step (bytes s) (Some x).
Proof.
  induction (N.lt_wf_0 x) as [x _ IH]. intros s. destruct (decide (x = 0)%N) as [->|Hx].
  { by rewrite pretty_N_go_0. }
  rewrite pretty_N_go_step by lia. rewrite IH by (apply N.div_lt; lia).
  destruct (pretty_N_char_digit (x mod 10)) as [Hc Hd]; [by apply N.mod_lt|].
  cbn [String.list_ascii_of_string fold_left decimal_step mbind option_bind]. rewrite Hc, Hd.
  do 2 f_equal. rewrite (N.div_mod x 10) at 3 by done. lia.
Qed.

Lemma parse_decimal_pretty n : parse_decimal (pretty n) = Some n.
Proof.
  unfold parse_decimal, pretty, pretty_N. case_decide; [by subst|]. apply decimal_go.
Qed.

(** ** Errors and configurations of the driver *)

(** [postgres::Error]: its SQLSTATE, when the server sent one, and its text. *)
Record db_error : Type := DbError { sqlstate : option string; message : string }.

Definition QUERY_CANCELED : string := "57014".

Inductive SslMode : Type := Disable | Prefer | Require.
#[export] Instance SslMode_eq_dec : EqDecision SslMode.
Proof. solve_decision. Defined.

(** [postgres::Config]: the settings the gateway reads and writes. *)
Module Config.
Record Config : Type := mk {
  conninfo : string;
  password : option string;
  ssl_mode : SslMode;
  connect_timeout : option Duration;
  tcp_user_timeout : option Duration;
  keepalives : bool;
  keepalives_idle : Duration;
  keepalives_interval : option Duration;
  keepalives_retries : option N;
}.
Definition set_password (p : string) (c : Config) : Config :=
  mk (conninfo c) (Some p) (ssl_mode c) (connect_timeout c) (tcp_user_timeout c) (keepalives c)
     (keepalives_idle c) (keepalives_interval c) (keepalives_retries c).
Definition set_connect_timeout (d : Duration) (c : Config) : Config :=
  mk (conninfo c) (password c) (ssl_mode c) (Some d) (tcp_user_timeout c) (keepalives c)
     (keepalives_idle c) (keepalives_interval c) (keepalives_retries c).
Definition set_tcp_user_timeout (d : Duration) (c : Config) : Config :=
  mk (conninfo c) (password c) (ssl_mode c) (connect_timeout c) (Some d) (keepalives c)
     (keepalives_idle c) (keepalives_interval c) (keepalives_retries c).
Definition set_keepalives_idle (d : Duration) (c : Config) : Config :=
  mk (conninfo c) (password c) (ssl_mode c) (connect_timeout c) (tcp_user_timeout c)
     (keepalives c) d (keepalives_interval c) (keepalives_retries c).
Definition set_keepalives_interval (d : Duration) (c : Config) : Config :=
  mk (conninfo c) (password c) (ssl_mode c) (connect_timeout c) (tcp_user_timeout c)
     (keepalives c) (keepalives_idle c) (Some d) (keepalives_retries c).
Definition set_keepalives_retries (n : N) (c : Config) : Config :=
  mk (conninfo c) (password c) (ssl_mode c) (connect_timeout c) (tcp_user_timeout c)
     (keepalives c) (keepalives_idle c) (keepalives_interval c) (Some n).
End Config.
Abbreviation Config := Config.Config.

(** The connection strings the driver understands ([str::parse::<Config>]). *)
Class Driver := { parse_config : string -> result db_error Config }.

(** ** Rows *)

Module RevisionRow.
Record t : Type := mk { revision_id : string; schema_version : string; canonical_hash : string }.
End RevisionRow.

Module ModelRow.
Record t : Type := mk {
  model_id : string;
  semantic_name : string;
  source_database : string;
  current_database : string;
  source_schema : string;
  source_relation : string;
  default_timezone : option string;
  queryable : bool;
}.
End ModelRow.

Module FieldRow.
Record t : Type := mk {
  model_id : string;
  semantic_name : string;
  field_kind : string;
  logical_type : string;
  source_column : option string;
  expression : option string;
  source_relationship_id : option string;
  declared_relationship_name : option string;
  relationship_from_model_id : option string;
  hidden : bool;
  nullable : bool;
}.
End FieldRow.

Module MutationModelRow.
Record t : Type := mk {
  model_id : string;
  insert_enabled : bool;
  upsert_enabled : bool;
  max_rows : Z;
  max_request_bytes : Z;
}.
End MutationModelRow.

Module MutationFieldRow.
Record t : Type := mk {
  model_id : string;
  semantic_name : string;
  insertable : bool;
  required_on_insert : bool;
  updatable_on_conflict : bool;
  conflict_key_ordinal : option Z;
  returning_ordinal : option Z;
}.
End MutationFieldRow.

Module MetricRow.
Record t : Type := mk {
  model_id : string;
  semantic_name : string;
  result_type : string;
  expression : string;
  metric_filter : option string;
  additivity : string;
  aggregation_anchor : option string;
  hidden : bool;
}.
End MetricRow.

Module RelationshipRow.
Record t : Type := mk {
  from_model_id : string;
  semantic_name : string;
  target_model : string;
  target_schema : string;
  target_relation : string;
  cardinality : string;
  join_type : string;
  allowed_direction : string;
  priority : Z;
  ordinal : option Z;
  from_column : option string;
  to_column : option string;
}.
End RelationshipRow.

(** The columns [verify_role] reads of a role. *)
Module RoleRow.
Record t : Type := mk {
  rolsuper : bool;
  rolbypassrls : bool;
  can_assume_unsafe_role : bool;
  is_member : bool;
}.
End RoleRow.

(** The row of [semantic.claim_mutation]. *)
Module Claim.
Record Claim : Type := mk {
  disposition : string;
  mutation_id : string;
  attempt_id : option string;
  affected_rows : option Z;
  result : option json;
}.
End Claim.
Abbreviation Claim := Claim.Claim.

(** ** Rows of the PostgreSQL catalog

    A column is an option where the statement's text can make it NULL. *)

Module MetadataRow.
Record t : Type := mk {
  server_version_num : Z;
  current_database : string;
  current_role : string;
}.
End MetadataRow.

(** The attributes of a role: the columns of [ROLE_CONTEXT_SQL], and the
    [owner_] columns of relations and functions. *)
Module RoleContextRow.
Record t : Type := mk {
  inherit : bool;
  superuser : bool;
  bypass_rls : bool;
  effective_roles : list string;
  settable_roles : list string;
}.
End RoleContextRow.

Module RoleGraphRow.
Record t : Type := mk {
  member_role : string;
  inherit : bool;
  superuser : bool;
  bypass_rls : bool;
  granted_role : option string;
  grantor_role : option string;
  admin_option : option bool;
  inherit_option : option bool;
  set_option : option bool;
}.
End RoleGraphRow.

Module ObjectPrivilegeRow.
Record t : Type := mk {
  object_kind : string;
  schema_name : string;
  object_name : string;
  identity_arguments : string;
  owner : string;
  grantor : option string;
  grantee : option string;
  privilege_type : option string;
  is_grantable : option bool;
}.
End ObjectPrivilegeRow.

Module FunctionGrantRow.
Record t : Type := mk {
  function_oid : Z;
  grantor : string;
  grantee : option string;
  is_grantable : bool;
}.
End FunctionGrantRow.

Module FunctionRow.
Record t : Type := mk {
  function_oid : Z;
  schema_name : string;
  function_name : string;
  identity_arguments : string;
  function_definition : option string;
  function_kind : string;
  security_definer : bool;
  function_owner : string;
  owner : RoleContextRow.t;
}.
End FunctionRow.

Module ColumnRow.
Record t : Type := mk {
  schema_name : string;
  relation_name : string;
  column_name : string;
  ordinal : Z;
  data_type : string;
  nullable : bool;
  column_comment : option string;
  column_select : bool;
}.
End ColumnRow.

Module ConstraintRow.
Record t : Type := mk {
  schema_name : string;
  relation_name : string;
  constraint_name : string;
  constraint_kind : string;
  columns : list string;
  referenced_schema : option string;
  referenced_relation : option string;
  referenced_columns : list string;
  delete_set_columns : list string;
  check_expression : option string;
  validated : bool;
  no_inherit : bool;
  deferrable : bool;
  initially_deferred : bool;
  nulls_not_distinct : bool;
  enforced : bool;
  period : bool;
  match_type : option string;
  on_update : option string;
  on_delete : option string;
}.
End ConstraintRow.

Module PolicyRow.
Record t : Type := mk {
  schema_name : string;
  relation_name : string;
  policy_name : string;
  command : string;
  permissive : bool;
  roles : list string;
  using_expression : option string;
  with_check_expression : option string;
}.
End PolicyRow.

Module RelationRow.
Record t : Type := mk {
  schema_name : string;
  relation_name : string;
  relation_kind : string;
  relation_owner : string;
  owner : RoleContextRow.t;
  view_definition : option string;
  view_security_invoker : option bool;
  view_security_barrier : option bool;
  relation_comment : option string;
  rls_enabled : bool;
  rls_forced : bool;
  schema_usage : bool;
  table_select : bool;
  any_column_select : bool;
}.
End RelationRow.

(** ** Statements with bound parameters *)

(** Arguments of [semantic.start_query_audit], in order. *)
Record StartQueryAudit : Type := {
  sq_principal_hash : string;
  sq_schema_version : string;
  sq_lsq_hash : string;
  sq_revision_id : string;
  sq_revision_hash : string;
  sq_compiler_version : string;
  sq_config_profile : string;
  sq_sql_hash : string;
  sq_query_hash : string;
  sq_parameter_types : json;
  sq_lineage : json;
  sq_policy_context : json;
  sq_validation_ms : Z;
  sq_compile_ms : Z;
}.

(** Arguments of [semantic.finish_query_audit]. *)
Record FinishQueryAudit : Type := {
  fq_query_id : string;
  fq_status : string;
  fq_error_code : option string;
  fq_database_ms : Z;
  fq_serialization_ms : Z;
  fq_row_count : Z;
  fq_byte_count : Z;
  fq_truncated : bool;
}.

(** Arguments of [semantic.claim_mutation]. *)
Record ClaimMutation : Type := {
  cm_project : string;
  cm_idempotency_key_hash : string;
  cm_authority_hash : string;
  cm_schema_version : string;
  cm_lsm_hash : string;
  cm_revision_id : string;
  cm_revision_hash : string;
  cm_principal_subject_hash : string;
  cm_compiler_version : string;
  cm_config_profile : string;
  cm_operation : string;
  cm_model : string;
  cm_statement_hash : string;
  cm_mutation_hash : string;
  cm_parameter_types : json;
  cm_lineage : json;
  cm_policy_context : json;
  cm_requested_rows : Z;
  cm_validation_ms : Z;
  cm_compile_ms : Z;
}.

(** Arguments of [semantic.finish_mutation]. *)
Record FinishMutation : Type := {
  fm_mutation_id : string;
  fm_attempt_id : string;
  fm_result : json;
  fm_affected_rows : Z;
  fm_database_ms : Z;
}.

(** Arguments of [semantic.record_mutation_failure]. *)
Record RecordMutationFailure : Type := {
  rf_project : string;
  rf_principal_subject_hash : string;
  rf_lsm_schema_version : option string;
  rf_lsm_hash : string;
  rf_revision_id : option string;
  rf_semantic_revision_hash : option string;
  rf_compiler_version : string;
  rf_config_profile : string;
  rf_operation : option string;
  rf_model : option string;
  rf_idempotency_key_hash : option string;
  rf_statement_hash : option string;
  rf_compiler_mutation_hash : option string;
  rf_parameter_types : json;
  rf_lineage : json;
  rf_policy_context : json;
  rf_status : string;
  rf_error_code : string;
  rf_requested_rows : Z;
  rf_validation_ms : Z;
  rf_compile_ms : Z;
  rf_database_ms : Z;
}.

(** Arguments of [semantic.lookup_mutation_idempotency]. *)
Record LookupIdempotency : Type := {
  li_project : string;
  li_authority_hash : string;
  li_legacy_authority_hash : string;
  li_key_hash : string;
  li_database_role : string;
}.

Inductive statement : Type :=
(** [SELECT pg_catalog.set_config(name, value, is_local)] *)
| SET_CONFIG (name value : string) (is_local : bool)
(** flags of a role, by name *)
| ROLE_SQL (database_role : string)
(** whether a role can assume the owner of a relation of any kind *)
| RELATION_OWNER_SQL (database_role schema relation : string)
(** the same with the kind of the relation *)
| TARGET_RELATION_SQL (database_role schema relation : string)
| REVISION_SQL (project : string)
| MODELS_SQL (revision_id : string)
| FIELDS_SQL (revision_id : string)
| AGGREGATION_ANCHOR_SCHEMA_AVAILABLE_SQL
| METRICS_SQL (revision_id : string)
| LEGACY_METRICS_SQL (revision_id : string)
| RELATIONSHIPS_SQL (revision_id : string)
| MUTATION_SCHEMA_AVAILABLE_SQL
| MUTATION_MODELS_SQL (revision_id : string)
| MUTATION_FIELDS_SQL (revision_id : string)
| MUTATION_CAPABILITIES_SQL (revision_id database_role : string)
| START_QUERY_AUDIT (a : StartQueryAudit)
| FINISH_QUERY_AUDIT (a : FinishQueryAudit)
| CLAIM_MUTATION (a : ClaimMutation)
| FINISH_MUTATION (a : FinishMutation)
| RECORD_MUTATION_FAILURE (a : RecordMutationFailure)
| LOOKUP_IDEMPOTENCY (a : LookupIdempotency)
(** server version, database and role of the session *)
| METADATA_SQL
| ROLE_CONTEXT_SQL
| ROLE_GRAPH_SQL
| OBJECT_PRIVILEGES_SQL
| FUNCTION_GRANTS_SQL
| FUNCTIONS_SQL
| COLUMNS_SQL
| CONSTRAINTS_SQL
| POLICIES_SQL
| RELATIONS_SQL
(** [SELECT function(clock_timestamp() - make_interval(hours => $1))] *)
| OPERATIONAL_REPORT (function : string) (window_hours : N).

Definition row_of (s : statement) : Type :=
  match s with
  | SET_CONFIG _ _ _ => unit
  | ROLE_SQL _ => RoleRow.t
  | RELATION_OWNER_SQL _ _ _ => bool
  | TARGET_RELATION_SQL _ _ _ => bool * string
  | REVISION_SQL _ => RevisionRow.t
  | MODELS_SQL _ => ModelRow.t
  | FIELDS_SQL _ => FieldRow.t
  | AGGREGATION_ANCHOR_SCHEMA_AVAILABLE_SQL => bool
  | METRICS_SQL _ => MetricRow.t
  | LEGACY_METRICS_SQL _ => MetricRow.t
  | RELATIONSHIPS_SQL _ => RelationshipRow.t
  | MUTATION_SCHEMA_AVAILABLE_SQL => bool
  | MUTATION_MODELS_SQL _ => MutationModelRow.t
  | MUTATION_FIELDS_SQL _ => MutationFieldRow.t
  | MUTATION_CAPABILITIES_SQL _ _ => string
  | START_QUERY_AUDIT _ => string
  | FINISH_QUERY_AUDIT _ => unit
  | CLAIM_MUTATION _ => Claim
  | FINISH_MUTATION _ => unit
  | RECORD_MUTATION_FAILURE _ => string
  | LOOKUP_IDEMPOTENCY _ => option json
  | METADATA_SQL => MetadataRow.t
  | ROLE_CONTEXT_SQL => RoleContextRow.t
  | ROLE_GRAPH_SQL => RoleGraphRow.t
  | OBJECT_PRIVILEGES_SQL => ObjectPrivilegeRow.t
  | FUNCTION_GRANTS_SQL => FunctionGrantRow.t
  | FUNCTIONS_SQL => FunctionRow.t
  | COLUMNS_SQL => ColumnRow.t
  | CONSTRAINTS_SQL => ConstraintRow.t
  | POLICIES_SQL => PolicyRow.t
  | RELATIONS_SQL => RelationRow.t
  | OPERATIONAL_REPORT _ _ => option json
  end.

(** The statements one by one, settings apart from local settings. *)
Ltac case_statement s :=
  destruct s as [? ? []| | | | | | | | | | | | | | | | | | | | | | | | | | | | | | |].

(** ** Calls *)

(** The clients a request opens: one for sources and one for audit records. *)
Inductive connection : Type := Source | Audit.
#[export] Instance connection_eq_dec : EqDecision connection.
Proof. solve_decision. Defined.

Inductive IsolationLevel : Type := ReadCommitted | RepeatableRead.

(** What [RowIter::next] yields until it ends or fails. *)
Inductive row_stream : Type :=
| Done
| Failed (e : db_error)
| Row (row_data : json) (rest : row_stream).

Inductive operation : Type :=
| TlsConnectorNew
| Connect (c : connection) (config : Config)
| Begin (c : connection) (isolation : option IsolationLevel) (read_only : bool)
| Commit (c : connection)
(** dropping a [Transaction] that was not committed *)
| Rollback (c : connection)
| Query (c : connection) (s : statement)
| QueryOpt (c : connection) (s : statement)
| QueryOne (c : connection) (s : statement)
| BatchExecute (c : connection) (sql : string)
| QueryRaw (c : connection) (sql : string) (parameters : list (option string))
(** the caller's callback: whether to go on *)
| OnCancelHandle
(** [Instant::elapsed] *)
| Elapsed.

Definition answer (op : operation) : Type :=
  match op with
  | TlsConnectorNew => result string unit
  | Connect _ _ | Begin _ _ _ | Commit _ | BatchExecute _ _ => result db_error unit
  | Rollback _ => unit
  | Query _ s => result db_error (list (row_of s))
  | QueryOpt _ s => result db_error (option (row_of s))
  | QueryOne _ s => result db_error (row_of s)
  | QueryRaw _ _ _ => result db_error row_stream
  | OnCancelHandle => bool
  | Elapsed => Duration
  end.

Abbreviation io := (prog answer).
Abbreviation io_result E A := (prog answer (result E A)).

(** A transaction that is dropped because the code after it failed. *)
Definition or_rollback {E A} (c : connection) (body : io_result E A) : io_result E A :=
  r ← body;
  match r with
  | Ok a => Ret (Ok a)
  | Err e => call (Rollback c);; Ret (Err e)
  end.

(** A run whose callback for a cancel handle is [|_| true]. *)
Fixpoint uncancelled {A} (p : io A) : io A :=
  match p with
  | Ret a => Ret a
  | Call OnCancelHandle k => uncancelled (k true)
  | Call op k => Call op (fun r => uncancelled (k r))
  end.

(** ** [database.rs] *)

Definition MAX_CONNECT_TIMEOUT : Duration := from_secs 10.
Definition MAX_TCP_USER_TIMEOUT : Duration := from_secs 10.
Definition MAX_KEEPALIVE_IDLE : Duration := from_secs 10.
Definition MAX_KEEPALIVE_INTERVAL : Duration := from_secs 3.
Definition MAX_KEEPALIVE_RETRIES : N := 3.

Module ConnectError.
Inductive ConnectError : Type :=
| InvalidConfiguration (source : db_error)
| AmbiguousTlsMode
| InvalidConnectTimeout
| InvalidTcpUserTimeout
| DisabledKeepalives
| TlsInitialization (source : string)
| Connection (source : db_error).
End ConnectError.
Abbreviation ConnectError := ConnectError.ConnectError.

Definition connection_config `{Driver} (conninfo : string) (password : option string)
    : result ConnectError Config :=
  config ← map_err ConnectError.InvalidConfiguration (parse_config conninfo);
  Ok (match password with
      | Some password => Config.set_password password config
      | None => config
      end).

Definition require_explicit_tls_mode (config : Config) : result ConnectError unit :=
  fail_if (bool_decide (Config.ssl_mode config = Prefer)) ConnectError.AmbiguousTlsMode.

Definition require_bounded_connect_timeout (config : Config) : result ConnectError Config :=
  match Config.connect_timeout config with
  | None => Ok (Config.set_connect_timeout MAX_CONNECT_TIMEOUT config)
  | Some timeout =>
      if bool_decide (timeout <> 0%N) && bool_decide (timeout ≤ MAX_CONNECT_TIMEOUT)%N
      then Ok config else Err ConnectError.InvalidConnectTimeout
  end.

Definition exceeds (bound : N) (o : option N) : bool :=
  match o with None => true | Some n => bool_decide (bound < n)%N end.

Definition require_bounded_socket_liveness (config : Config) : result ConnectError Config :=
  config ← match Config.tcp_user_timeout config with
           | None => Ok (Config.set_tcp_user_timeout MAX_TCP_USER_TIMEOUT config)
           | Some timeout =>
               if bool_decide (timeout <> 0%N) && bool_decide (timeout ≤ MAX_TCP_USER_TIMEOUT)%N
               then Ok config else Err ConnectError.InvalidTcpUserTimeout
           end;
  fail_if (negb (Config.keepalives config)) ConnectError.DisabledKeepalives;;
  let config := if bool_decide (MAX_KEEPALIVE_IDLE < Config.keepalives_idle config)%N
                then Config.set_keepalives_idle MAX_KEEPALIVE_IDLE config else config in
  let config := if exceeds MAX_KEEPALIVE_INTERVAL (Config.keepalives_interval config)
                then Config.set_keepalives_interval MAX_KEEPALIVE_INTERVAL config else config in
  let config := if exceeds MAX_KEEPALIVE_RETRIES (Config.keepalives_retries config)
                then Config.set_keepalives_retries MAX_KEEPALIVE_RETRIES config else config in
  Ok config.

(** The configuration [connect] uses: every check before the socket is opened. *)
Definition checked_config `{Driver} (conninfo : string) (password : option string)
    : result ConnectError Config :=
  config ← connection_config conninfo password;
  require_explicit_tls_mode config;;
  config ← require_bounded_connect_timeout config;
  require_bounded_socket_liveness config.

Definition connect `{Driver} (c : connection) (conninfo : string) (password : option string)
    : io_result ConnectError unit :=
  config ←? lift (checked_config conninfo password);
  attempt ConnectError.TlsInitialization (call TlsConnectorNew) ;;?
  attempt ConnectError.Connection (call (Connect c config)).

(** The settings of a session or a transaction, as [("name", "<n>ms")]. *)
Definition timeout_settings (statement_timeout lock_timeout idle_transaction_timeout : Duration)
    : list (string * string) :=
  map (fun '(name, value) => (name, pretty (as_millis value) +:+ "ms"))
    [("statement_timeout", statement_timeout);
     ("lock_timeout", lock_timeout);
     ("idle_in_transaction_session_timeout", idle_transaction_timeout)].

Definition configure_session_timeouts (c : connection)
    (statement_timeout lock_timeout idle_transaction_timeout : Duration)
    : io_result db_error unit :=
  each (fun '(name, milliseconds) => call (QueryOne c (SET_CONFIG name milliseconds false)))
    (timeout_settings statement_timeout lock_timeout idle_transaction_timeout).

(** * Connections and monitors of database calls

    What a checked connection configuration guarantees, and the calls that
    every monitor of this development lets pass: code made of them alone is
    quiet under any such monitor. *)

(** Configurations with an explicit TLS mode and bounded waits. *)
Definition bounded_config (config : Config) : Prop :=
  Config.ssl_mode config <> Prefer
  /\ (exists d, Config.connect_timeout config = Some d /\ 0 < d <= MAX_CONNECT_TIMEOUT)%N
  /\ (exists d, Config.tcp_user_timeout config = Some d /\ 0 < d <= MAX_TCP_USER_TIMEOUT)%N
  /\ Config.keepalives config = true
  /\ (Config.keepalives_idle config <= MAX_KEEPALIVE_IDLE)%N
  /\ (exists d, Config.keepalives_interval config = Some d /\ d <= MAX_KEEPALIVE_INTERVAL)%N
  /\ (exists n, Config.keepalives_retries config = Some n /\ n <= MAX_KEEPALIVE_RETRIES)%N.

(** ** Connections *)

(** ** Connections *)

Lemma connect_timeout_bounded c c' :
  require_bounded_connect_timeout c = Ok c' ->
  Config.ssl_mode c' = Config.ssl_mode c
  /\ exists d, Config.connect_timeout c' = Some d /\ (0 < d <= MAX_CONNECT_TIMEOUT)%N.
Proof.
  unfold require_bounded_connect_timeout. destruct (Config.connect_timeout c) as [d|] eqn:Hd.
  - case_bool_decide; simpl; [|done]. case_bool_decide; [|done]. intros [= <-].
    split; [done|]. exists d. split; [done|]. lia.
  - intros [= <-]. split; [done|]. by eexists.
Qed.

Lemma exceeds_false bound o : exceeds bound o = false -> exists n, o = Some n /\ (n <= bound)%N.
Proof. destruct o as [n|]; simpl; [|done]. intros Hn%bool_decide_eq_false. exists n. split; [done|lia]. Qed.

Lemma socket_liveness_bounded c c' :
  require_bounded_socket_liveness c = Ok c' ->
  Config.ssl_mode c' = Config.ssl_mode c
  /\ Config.connect_timeout c' = Config.connect_timeout c
  /\ (exists d, Config.tcp_user_timeout c' = Some d /\ 0 < d <= MAX_TCP_USER_TIMEOUT)%N
  /\ Config.keepalives c' = true
  /\ (Config.keepalives_idle c' <= MAX_KEEPALIVE_IDLE)%N
  /\ (exists d, Config.keepalives_interval c' = Some d /\ d <= MAX_KEEPALIVE_INTERVAL)%N
  /\ (exists n, Config.keepalives_retries c' = Some n /\ n <= MAX_KEEPALIVE_RETRIES)%N.
Proof.
  unfold require_bounded_socket_liveness. intros Hc. unbind.
  assert (Hx : Config.ssl_mode x = Config.ssl_mode c
    /\ Config.connect_timeout x = Config.connect_timeout c
    /\ exists d, Config.tcp_user_timeout x = Some d /\ (0 < d <= MAX_TCP_USER_TIMEOUT)%N).
  { destruct (Config.tcp_user_timeout c) as [d|] eqn:Hd.
    - do 2 (case_bool_decide; [|done]). simplify_eq/=. repeat split. exists d. split; [done|lia].
    - simplify_eq/=. repeat split. by eexists. }
  destruct Hx as (<- & <- & d & Hd & Hb).
  assert (Hk : Config.keepalives x = true) by done.
  (destruct (bool_decide (MAX_KEEPALIVE_IDLE < _)%N) eqn:Ei;
    [|apply bool_decide_eq_false in Ei]); simpl;
  (destruct (exceeds MAX_KEEPALIVE_INTERVAL _) eqn:En; [|apply exceeds_false in En]); simpl in *;
  (destruct (exceeds MAX_KEEPALIVE_RETRIES _) eqn:Er; [|apply exceeds_false in Er]); simpl in *;
  repeat split; eauto; lia.
Qed.

Lemma checked_config_bounded `{Driver} conninfo password config :
  checked_config conninfo password = Ok config -> bounded_config config.
Proof.
  unfold checked_config, require_explicit_tls_mode. intros Hc. unbind.
  match goal with H : require_bounded_connect_timeout _ = _ |- _ =>
    apply connect_timeout_bounded in H as (Hs1 & Ht) end.
  match goal with H : require_bounded_socket_liveness _ = _ |- _ =>
    apply socket_liveness_bounded in H as (Hs2 & Hct & Hrest) end.
  unfold bounded_config. rewrite Hs2, Hs1, Hct. done.
Qed.

(** ** Calls no protocol depends on *)

(** Opening bounded connections, session settings, reading the published model,
    clocks and the cancel callback. *)
Definition calm_call (op : operation) : Prop :=
  match op with
  | TlsConnectorNew | OnCancelHandle | Elapsed => True
  | Connect _ config => bounded_config config
  | QueryOne _ (SET_CONFIG _ _ false) => True
  | QueryOne Source (AGGREGATION_ANCHOR_SCHEMA_AVAILABLE_SQL | MUTATION_SCHEMA_AVAILABLE_SQL)
  | QueryOpt Source (REVISION_SQL _)
  | Query Source (MODELS_SQL _ | FIELDS_SQL _ | METRICS_SQL _ | LEGACY_METRICS_SQL _
                  | RELATIONSHIPS_SQL _ | MUTATION_MODELS_SQL _ | MUTATION_FIELDS_SQL _
                  | MUTATION_CAPABILITIES_SQL _ _) => True
  | _ => False
  end.

(** Monitors that allow these calls everywhere and do not move. *)
Class Calm {M : Type} (allowed : M -> operation -> Prop)
    (observe : M -> forall op, answer op -> M) : Prop := {
  calm_allowed m op : calm_call op -> allowed m op;
  calm_observe m op r : calm_call op -> observe m op r = m;
}.

Section calm.
Context {M : Type} {allowed : M -> operation -> Prop}
  {observe : M -> forall op, answer op -> M} `{HCalm : !Calm allowed observe}.

Lemma quiet_calm op m : calm_call op -> quiet allowed observe (call op) m.
Proof. intros Hop. apply quiet_call; [by apply calm_allowed|]. intros r. by apply calm_observe. Qed.

Lemma connect_quiet `{Driver} c conninfo password m :
  quiet allowed observe (connect c conninfo password) m.
Proof.
  unfold connect. apply quiet_try_lift. intros cfg Hcfg%checked_config_bounded.
  apply quiet_try; [|intros _]; apply quiet_attempt.
  - exact (quiet_calm TlsConnectorNew m I).
  - exact (quiet_calm (Connect c cfg) m Hcfg).
Qed.

Lemma session_timeouts_quiet c st lt it m :
  quiet allowed observe (configure_session_timeouts c st lt it) m.
Proof.
  apply quiet_each. intros [name value].
  by apply (quiet_calm (QueryOne c (SET_CONFIG name value false))); destruct c.
Qed.
End calm.

#[export] Hint Resolve connect_quiet session_timeouts_quiet : quiet.

(** Skips a clock reading or the cancel callback. *)
Ltac mcalm :=
  lazymatch goal with
  | |- monitored _ _ (mbind _ (call ?op)) ?m _ =>
      apply monitored_quiet; [exact (quiet_calm op m I)|intros ?]
  end.

(** ** Runs without a cancel handle *)

(** Runs without the callback are runs with an answer to it. *)
Definition is_cancel_handle (e : event answer) : bool :=
  match ev_op e with OnCancelHandle => true | _ => false end.

Lemma uncancelled_runs {A} (p : io A) tr a :
  runs (uncancelled p) tr a ->
  exists tr', runs p tr' a /\ tr = List.filter (fun e => negb (is_cancel_handle e)) tr'.
Proof.
  revert tr. induction p as [b|op k IH]; intros tr; [intros [-> ->]; by exists []|].
  destruct op; simpl;
    try (intros (r & tr' & -> & (tr'' & Hr & ->)%IH); eexists; split;
         [by eexists r, _|done]).
  intros (tr'' & Hr & ->)%IH. eexists. split; [by eexists true, _|done].
Qed.

(** The callback does not move a monitor. *)
Lemma accepts_uncancelled {M} allowed (observe : M -> forall op, answer op -> M) m tr :
  (forall m r, observe m OnCancelHandle r = m) ->
  accepts allowed observe m tr ->
  accepts allowed observe m (List.filter (fun e => negb (is_cancel_handle e)) tr).
Proof.
  intros Hob. revert m. induction tr as [|[op r] tr IH]; intros m; [done|]. intros [Ha Htr].
  destruct op; cbn [List.filter is_cancel_handle ev_op negb];
    try (split; [exact Ha|exact (IH _ Htr)]). cbn in Htr. rewrite Hob in Htr. by apply IH.
Qed.
