(* ===== verification/Catalog.v ===== *)
(** * Catalog snapshots ([catalog.rs])

    What a scan of the PostgreSQL catalog records, its canonical form and its
    fingerprint, and what a canonical snapshot guarantees; then the types and
    names of [catalog_types.rs]. *)

From S2P Require Import Prelude Ordered Text StrOps Json Lsq Semantic Effects Database.

Definition CATALOG_SNAPSHOT_SCHEMA_VERSION : string := "2".

(** ** Data *)

Module RoleContext.
Record CatalogRoleContext : Type := mk {
  inherit : bool;
  superuser : bool;
  bypass_rls : bool;
  effective_roles : list string;
  settable_roles : list string;
}.
#[global] Instance eq_dec : EqDecision CatalogRoleContext.
Proof. solve_decision. Defined.
Definition to_json (c : CatalogRoleContext) : json :=
  JObj [("inherit", JBool (inherit c)); ("superuser", JBool (superuser c));
        ("bypass_rls", JBool (bypass_rls c));
        ("effective_roles", JArr (map JStr (effective_roles c)));
        ("settable_roles", JArr (map JStr (settable_roles c)))].
End RoleContext.
Abbreviation CatalogRoleContext := RoleContext.CatalogRoleContext.

Module View.
Record CatalogView : Type := mk {
  definition_hash : string;
  security_invoker : bool;
  security_barrier : bool;
  owner_authorization : option CatalogRoleContext;
}.
#[global] Instance eq_dec : EqDecision CatalogView.
Proof. solve_decision. Defined.
Definition to_json (v : CatalogView) : json :=
  JObj [("definition_hash", JStr (definition_hash v));
        ("security_invoker", JBool (security_invoker v));
        ("security_barrier", JBool (security_barrier v));
        ("owner_authorization", nullable_json RoleContext.to_json (owner_authorization v))].
End View.
Abbreviation CatalogView := View.CatalogView.

Module FunctionKind.
Inductive CatalogFunctionKind : Type := Function_ | WindowFunction | Aggregate.
#[global] Instance eq_dec : EqDecision CatalogFunctionKind.
Proof. solve_decision. Defined.
Definition to_json (k : CatalogFunctionKind) : json :=
  JStr match k with
       | Function_ => "function" | WindowFunction => "window_function"
       | Aggregate => "aggregate"
       end.
End FunctionKind.
Abbreviation CatalogFunctionKind := FunctionKind.CatalogFunctionKind.

Module FunctionGrant.
Record CatalogFunctionGrant : Type := mk {
  grantor : string;
  grantee : string;
  grantable : bool;
}.
#[global] Instance eq_dec : EqDecision CatalogFunctionGrant.
Proof. solve_decision. Defined.
Definition to_json (g : CatalogFunctionGrant) : json :=
  JObj [("grantor", JStr (grantor g)); ("grantee", JStr (grantee g));
        ("grantable", JBool (grantable g))].
End FunctionGrant.
Abbreviation CatalogFunctionGrant := FunctionGrant.CatalogFunctionGrant.

Module Func.
Record CatalogFunction : Type := mk {
  schema : string;
  name : string;
  identity_arguments : string;
  kind : CatalogFunctionKind;
  definition_hash : string;
  owner : string;
  owner_authorization : option CatalogRoleContext;
  grants : list CatalogFunctionGrant;
}.
#[global] Instance eq_dec : EqDecision CatalogFunction.
Proof. solve_decision. Defined.
Definition to_json (f : CatalogFunction) : json :=
  JObj [("schema", JStr (schema f)); ("name", JStr (name f));
        ("identity_arguments", JStr (identity_arguments f));
        ("kind", FunctionKind.to_json (kind f));
        ("definition_hash", JStr (definition_hash f)); ("owner", JStr (owner f));
        ("owner_authorization", nullable_json RoleContext.to_json (owner_authorization f));
        ("grants", JArr (map FunctionGrant.to_json (grants f)))].
End Func.
Abbreviation CatalogFunction := Func.CatalogFunction.

Module RelationKind.
Inductive RelationKind : Type :=
| Table | PartitionedTable | View | MaterializedView | ForeignTable.
#[global] Instance eq_dec : EqDecision RelationKind.
Proof. solve_decision. Defined.
Definition to_json (k : RelationKind) : json :=
  JStr match k with
       | Table => "table" | PartitionedTable => "partitioned_table" | View => "view"
       | MaterializedView => "materialized_view" | ForeignTable => "foreign_table"
       end.
(** The derived [Ord]: the order of declaration. *)
Definition rank (k : RelationKind) : nat :=
  match k with
  | Table => 0 | PartitionedTable => 1 | View => 2 | MaterializedView => 3 | ForeignTable => 4
  end.
End RelationKind.
Abbreviation RelationKind := RelationKind.RelationKind.

Module Grants.
Record RelationGrantHints : Type := mk {
  schema_usage : bool;
  table_select : bool;
  any_column_select : bool;
}.
#[global] Instance eq_dec : EqDecision RelationGrantHints.
Proof. solve_decision. Defined.
Definition to_json (g : RelationGrantHints) : json :=
  JObj [("schema_usage", JBool (schema_usage g)); ("table_select", JBool (table_select g));
        ("any_column_select", JBool (any_column_select g))].
End Grants.
Abbreviation RelationGrantHints := Grants.RelationGrantHints.

Module Rls.
Record RowLevelSecurity : Type := mk { enabled : bool; forced : bool }.
#[global] Instance eq_dec : EqDecision RowLevelSecurity.
Proof. solve_decision. Defined.
Definition to_json (r : RowLevelSecurity) : json :=
  JObj [("enabled", JBool (enabled r)); ("forced", JBool (forced r))].
End Rls.
Abbreviation RowLevelSecurity := Rls.RowLevelSecurity.

Module Column.
Record CatalogColumn : Type := mk {
  name : string;
  ordinal : N;
  data_type : string;
  nullable : bool;
  comment : option string;
  select_grant : bool;
}.
#[global] Instance eq_dec : EqDecision CatalogColumn.
Proof. solve_decision. Defined.
Definition to_json (c : CatalogColumn) : json :=
  JObj [("name", JStr (name c)); ("ordinal", JInt (Z.of_N (ordinal c)));
        ("data_type", JStr (data_type c)); ("nullable", JBool (nullable c));
        ("comment", nullable_json JStr (comment c)); ("select_grant", JBool (select_grant c))].
End Column.
Abbreviation CatalogColumn := Column.CatalogColumn.

Module RelationReference.
Record RelationReference : Type := mk { schema : string; name : string }.
#[global] Instance eq_dec : EqDecision RelationReference.
Proof. solve_decision. Defined.
Definition to_json (r : RelationReference) : json :=
  JObj [("schema", JStr (schema r)); ("name", JStr (name r))].
End RelationReference.
Abbreviation RelationReference := RelationReference.RelationReference.

Module ForeignKeyMatch.
Inductive ForeignKeyMatch : Type := Full | Partial | Simple.
#[global] Instance eq_dec : EqDecision ForeignKeyMatch.
Proof. solve_decision. Defined.
Definition to_json (m : ForeignKeyMatch) : json :=
  JStr match m with Full => "full" | Partial => "partial" | Simple => "simple" end.
End ForeignKeyMatch.
Abbreviation ForeignKeyMatch := ForeignKeyMatch.ForeignKeyMatch.

Module ForeignKeyAction.
Inductive ForeignKeyAction : Type := NoAction | Restrict | Cascade | SetNull | SetDefault.
#[global] Instance eq_dec : EqDecision ForeignKeyAction.
Proof. solve_decision. Defined.
Definition to_json (a : ForeignKeyAction) : json :=
  JStr match a with
       | NoAction => "no_action" | Restrict => "restrict" | Cascade => "cascade"
       | SetNull => "set_null" | SetDefault => "set_default"
       end.
End ForeignKeyAction.
Abbreviation ForeignKeyAction := ForeignKeyAction.ForeignKeyAction.

Module Constraint.
Inductive CatalogConstraint : Type :=
| PrimaryKey (name : string) (columns : list string)
    (enforced period deferrable initially_deferred validated : bool)
| Unique (name : string) (columns : list string)
    (nulls_not_distinct enforced period deferrable initially_deferred validated : bool)
| ForeignKey (name : string) (columns : list string) (referenced_relation : RelationReference)
    (referenced_columns delete_set_columns : list string) (match_type : ForeignKeyMatch)
    (on_update on_delete : ForeignKeyAction)
    (enforced period deferrable initially_deferred validated : bool)
| Check_ (name : string) (columns : list string) (expression_hash : string)
    (no_inherit enforced validated : bool).
#[global] Instance eq_dec : EqDecision CatalogConstraint.
Proof. solve_decision. Defined.

Definition columns_json (columns : list string) : json := JArr (map JStr columns).

(** Internally tagged: [tag = "kind"]. *)
Definition to_json (c : CatalogConstraint) : json :=
  match c with
  | PrimaryKey name columns enforced period deferrable initially_deferred validated =>
      JObj [("kind", JStr "primary_key"); ("name", JStr name); ("columns", columns_json columns);
            ("enforced", JBool enforced); ("period", JBool period);
            ("deferrable", JBool deferrable);
            ("initially_deferred", JBool initially_deferred); ("validated", JBool validated)]
  | Unique name columns nulls_not_distinct enforced period deferrable initially_deferred
      validated =>
      JObj [("kind", JStr "unique"); ("name", JStr name); ("columns", columns_json columns);
            ("nulls_not_distinct", JBool nulls_not_distinct);
            ("enforced", JBool enforced); ("period", JBool period);
            ("deferrable", JBool deferrable);
            ("initially_deferred", JBool initially_deferred); ("validated", JBool validated)]
  | ForeignKey name columns referenced_relation referenced_columns delete_set_columns match_type
      on_update on_delete enforced period deferrable initially_deferred validated =>
      JObj [("kind", JStr "foreign_key"); ("name", JStr name); ("columns", columns_json columns);
            ("referenced_relation", RelationReference.to_json referenced_relation);
            ("referenced_columns", columns_json referenced_columns);
            ("delete_set_columns", columns_json delete_set_columns);
            ("match_type", ForeignKeyMatch.to_json match_type);
            ("on_update", ForeignKeyAction.to_json on_update);
            ("on_delete", ForeignKeyAction.to_json on_delete);
            ("enforced", JBool enforced); ("period", JBool period);
            ("deferrable", JBool deferrable);
            ("initially_deferred", JBool initially_deferred); ("validated", JBool validated)]
  | Check_ name columns expression_hash no_inherit enforced validated =>
      JObj [("kind", JStr "check"); ("name", JStr name); ("columns", columns_json columns);
            ("expression_hash", JStr expression_hash); ("no_inherit", JBool no_inherit);
            ("enforced", JBool enforced); ("validated", JBool validated)]
  end.
End Constraint.
Abbreviation CatalogConstraint := Constraint.CatalogConstraint.

Module PolicyCommand.
Inductive PolicyCommand : Type := All | Select | Insert | Update | Delete.
#[global] Instance eq_dec : EqDecision PolicyCommand.
Proof. solve_decision. Defined.
Definition to_json (c : PolicyCommand) : json :=
  JStr match c with
       | All => "all" | Select => "select" | Insert => "insert" | Update => "update"
       | Delete => "delete"
       end.
End PolicyCommand.
Abbreviation PolicyCommand := PolicyCommand.PolicyCommand.

Module Policy.
Record RowLevelSecurityPolicy : Type := mk {
  name : string;
  command : PolicyCommand;
  permissive : bool;
  roles : list string;
  using_expression_hash : option string;
  with_check_expression_hash : option string;
}.
#[global] Instance eq_dec : EqDecision RowLevelSecurityPolicy.
Proof. solve_decision. Defined.
Definition to_json (p : RowLevelSecurityPolicy) : json :=
  JObj [("name", JStr (name p)); ("command", PolicyCommand.to_json (command p));
        ("permissive", JBool (permissive p)); ("roles", JArr (map JStr (roles p)));
        ("using_expression_hash", nullable_json JStr (using_expression_hash p));
        ("with_check_expression_hash", nullable_json JStr (with_check_expression_hash p))].
End Policy.
Abbreviation RowLevelSecurityPolicy := Policy.RowLevelSecurityPolicy.

Module Rel.
Record CatalogRelation : Type := mk {
  schema : string;
  name : string;
  kind : RelationKind;
  owner : string;
  view : option CatalogView;
  comment : option string;
  grants : RelationGrantHints;
  rls : RowLevelSecurity;
  columns : list CatalogColumn;
  constraints : list CatalogConstraint;
  policies : list RowLevelSecurityPolicy;
}.
#[global] Instance eq_dec : EqDecision CatalogRelation.
Proof. solve_decision. Defined.
Definition to_json (r : CatalogRelation) : json :=
  JObj [("schema", JStr (schema r)); ("name", JStr (name r));
        ("kind", RelationKind.to_json (kind r)); ("owner", JStr (owner r));
        ("view", nullable_json View.to_json (view r));
        ("comment", nullable_json JStr (comment r)); ("grants", Grants.to_json (grants r));
        ("rls", Rls.to_json (rls r)); ("columns", JArr (map Column.to_json (columns r)));
        ("constraints", JArr (map Constraint.to_json (constraints r)));
        ("policies", JArr (map Policy.to_json (policies r)))].
End Rel.
Abbreviation CatalogRelation := Rel.CatalogRelation.

Module Catalog.
Record CatalogSnapshot : Type := mk {
  schema_version : string;
  server_version_num : N;
  current_database : string;
  current_role : string;
  role_context : CatalogRoleContext;
  role_graph_fingerprint : string;
  object_privilege_fingerprint : string;
  functions : list CatalogFunction;
  relations : list CatalogRelation;
  fingerprint : string;
}.
Definition to_json (s : CatalogSnapshot) : json :=
  JObj [("schema_version", JStr (schema_version s));
        ("server_version_num", JInt (Z.of_N (server_version_num s)));
        ("current_database", JStr (current_database s));
        ("current_role", JStr (current_role s));
        ("role_context", RoleContext.to_json (role_context s));
        ("role_graph_fingerprint", JStr (role_graph_fingerprint s));
        ("object_privilege_fingerprint", JStr (object_privilege_fingerprint s));
        ("functions", JArr (map Func.to_json (functions s)));
        ("relations", JArr (map Rel.to_json (relations s)));
        ("fingerprint", JStr (fingerprint s))].
End Catalog.
Abbreviation CatalogSnapshot := Catalog.CatalogSnapshot.

Module CatalogError.
Inductive CatalogError : Type :=
| UnsupportedSchemaVersion (version : string)
| InvalidFingerprint
| MissingConnectionUrl (variable : string)
| InvalidConnectionUrl (variable : string)
| Connect (variable : string) (source : ConnectError)
| StartTransaction (source : db_error)
| Query (operation : string) (source : db_error)
| UnsupportedValue (field value : string)
| InvalidServerVersion (version : Z)
| InvalidColumnOrdinal (ordinal : Z)
| MissingReferencedRelation
| MissingCheckExpression
| Commit (source : db_error)
| Serialization (message : string).
End CatalogError.
Abbreviation CatalogError := CatalogError.CatalogError.

(** ** Canonical form *)

Definition normalize_role_context (c : CatalogRoleContext) : CatalogRoleContext :=
  {| RoleContext.inherit := RoleContext.inherit c;
     RoleContext.superuser := RoleContext.superuser c;
     RoleContext.bypass_rls := RoleContext.bypass_rls c;
     RoleContext.effective_roles := dedup (sort_by kle (RoleContext.effective_roles c));
     RoleContext.settable_roles := dedup (sort_by kle (RoleContext.settable_roles c)) |}.

Definition grant_key (g : CatalogFunctionGrant) : string * (string * bool) :=
  (FunctionGrant.grantee g, (FunctionGrant.grantor g, FunctionGrant.grantable g)).

Definition function_key (f : CatalogFunction) : string * (string * string) :=
  (Func.schema f, (Func.name f, Func.identity_arguments f)).

Definition column_key (c : CatalogColumn) : N * string := (Column.ordinal c, Column.name c).

Definition constraint_sort_key (c : CatalogConstraint) : nat * string :=
  match c with
  | Constraint.PrimaryKey name _ _ _ _ _ _ => (0, name)
  | Constraint.Unique name _ _ _ _ _ _ _ => (1, name)
  | Constraint.ForeignKey name _ _ _ _ _ _ _ _ _ _ _ _ => (2, name)
  | Constraint.Check_ name _ _ _ _ _ => (3, name)
  end.

Definition policy_command_order (c : PolicyCommand) : nat :=
  match c with
  | PolicyCommand.All => 0
  | PolicyCommand.Select => 1
  | PolicyCommand.Insert => 2
  | PolicyCommand.Update => 3
  | PolicyCommand.Delete => 4
  end.

Definition policy_key (p : RowLevelSecurityPolicy) : string * nat :=
  (Policy.name p, policy_command_order (Policy.command p)).

Definition relation_key (r : CatalogRelation) : string * (string * nat) :=
  (Rel.schema r, (Rel.name r, RelationKind.rank (Rel.kind r))).

Definition normalize_function (f : CatalogFunction) : CatalogFunction :=
  {| Func.schema := Func.schema f; Func.name := Func.name f;
     Func.identity_arguments := Func.identity_arguments f; Func.kind := Func.kind f;
     Func.definition_hash := Func.definition_hash f; Func.owner := Func.owner f;
     Func.owner_authorization := normalize_role_context <$> Func.owner_authorization f;
     Func.grants := dedup (sort_by_key grant_key (Func.grants f)) |}.

Definition normalize_view (v : CatalogView) : CatalogView :=
  {| View.definition_hash := View.definition_hash v;
     View.security_invoker := View.security_invoker v;
     View.security_barrier := View.security_barrier v;
     View.owner_authorization := normalize_role_context <$> View.owner_authorization v |}.

Definition normalize_policy (p : RowLevelSecurityPolicy) : RowLevelSecurityPolicy :=
  {| Policy.name := Policy.name p; Policy.command := Policy.command p;
     Policy.permissive := Policy.permissive p; Policy.roles := sort_by kle (Policy.roles p);
     Policy.using_expression_hash := Policy.using_expression_hash p;
     Policy.with_check_expression_hash := Policy.with_check_expression_hash p |}.

Definition normalize_relation (r : CatalogRelation) : CatalogRelation :=
  {| Rel.schema := Rel.schema r; Rel.name := Rel.name r; Rel.kind := Rel.kind r;
     Rel.owner := Rel.owner r; Rel.view := normalize_view <$> Rel.view r;
     Rel.comment := Rel.comment r; Rel.grants := Rel.grants r; Rel.rls := Rel.rls r;
     Rel.columns := sort_by_key column_key (Rel.columns r);
     Rel.constraints := sort_by_key constraint_sort_key (Rel.constraints r);
     Rel.policies := sort_by_key policy_key (map normalize_policy (Rel.policies r)) |}.

Definition normalize (s : CatalogSnapshot) : CatalogSnapshot :=
  {| Catalog.schema_version := Catalog.schema_version s;
     Catalog.server_version_num := Catalog.server_version_num s;
     Catalog.current_database := Catalog.current_database s;
     Catalog.current_role := Catalog.current_role s;
     Catalog.role_context := normalize_role_context (Catalog.role_context s);
     Catalog.role_graph_fingerprint := Catalog.role_graph_fingerprint s;
     Catalog.object_privilege_fingerprint := Catalog.object_privilege_fingerprint s;
     Catalog.functions :=
       sort_by_key function_key (map normalize_function (Catalog.functions s));
     Catalog.relations :=
       sort_by_key relation_key (map normalize_relation (Catalog.relations s));
     Catalog.fingerprint := Catalog.fingerprint s |}.

(** [canonical.fingerprint.clear()]. *)
Definition clear_fingerprint (s : CatalogSnapshot) : CatalogSnapshot :=
  {| Catalog.schema_version := Catalog.schema_version s;
     Catalog.server_version_num := Catalog.server_version_num s;
     Catalog.current_database := Catalog.current_database s;
     Catalog.current_role := Catalog.current_role s;
     Catalog.role_context := Catalog.role_context s;
     Catalog.role_graph_fingerprint := Catalog.role_graph_fingerprint s;
     Catalog.object_privilege_fingerprint := Catalog.object_privilege_fingerprint s;
     Catalog.functions := Catalog.functions s;
     Catalog.relations := Catalog.relations s;
     Catalog.fingerprint := EmptyString |}.

Definition calculate_fingerprint `{Crates} (s : CatalogSnapshot) : result CatalogError string :=
  text ← map_err CatalogError.Serialization
           (json_to_string (Catalog.to_json (clear_fingerprint s)));
  Ok (sha256 text).

Definition validated_normalized `{Crates} (s : CatalogSnapshot)
    : result CatalogError CatalogSnapshot :=
  fail_if (bool_decide (Catalog.schema_version s <> CATALOG_SNAPSHOT_SCHEMA_VERSION))
    (CatalogError.UnsupportedSchemaVersion (Catalog.schema_version s));;
  let canonical := normalize s in
  calculated ← calculate_fingerprint canonical;
  fail_if (bool_decide (calculated <> Catalog.fingerprint s)) CatalogError.InvalidFingerprint;;
  Ok canonical.

(** * The canonical form of a catalog snapshot

    [normalize] sorts every collection of a snapshot and removes repeated roles
    and grants; a snapshot in that form is a fixed point of it. *)

(** ** Sorting and removing repetitions *)

Section canonical_lists.
Context {A K : Type} `{!EqDecision A, !EqDecision K, !Ordered K} (key : A -> K).
Implicit Types l : list A.


Lemma dedup_sublist_sorted (R : relation A) l : StronglySorted R l -> StronglySorted R (dedup l).
Proof using Type*.
  induction 1 as [|x l Hl IH Hx]; [constructor|]. destruct l as [|y l]; [by repeat constructor|].
  change (dedup (x :: y :: l)) with (if decide (x = y) then dedup (y :: l) else x :: dedup (y :: l)).
  case_decide; [done|]. constructor; [done|]. rewrite Forall_forall in *.
  intros z. rewrite elem_of_dedup. apply Hx.
Qed.

Lemma dedup_idemp l : dedup (dedup l) = dedup l.
Proof using Type*.
  induction l as [|x l IH]; [done|]. destruct l as [|y l]; [done|].
  change (dedup (x :: y :: l)) with (if decide (x = y) then dedup (y :: l) else x :: dedup (y :: l)).
  case_decide as Hxy; [done|]. destruct (dedup_head y l) as [k Hk]. rewrite Hk in *.
  change (dedup (x :: y :: k)) with (if decide (x = y) then dedup (y :: k) else x :: dedup (y :: k)).
  rewrite decide_False by done. by rewrite IH.
Qed.

Lemma dedup_sort_idemp l :
  dedup (sort_by_key key (dedup (sort_by_key key l))) = dedup (sort_by_key key l).
Proof using Type*.
  rewrite (sort_by_key_id key (dedup _)); [apply dedup_idemp|].
  apply dedup_sublist_sorted, sort_by_key_sorted.
Qed.

(** Canonicalising the elements does not move them where it keeps keys. *)
Lemma sort_map_idemp (f : A -> A) l :
  (forall x, key (f x) = key x) -> (forall x, f (f x) = f x) ->
  sort_by_key key (map f (sort_by_key key (map f l))) = sort_by_key key (map f l).
Proof using Type*.
  intros Hkey Hf.
  assert (Hm : map f (sort_by_key key (map f l)) = sort_by_key key (map f l)).
  { change (map f) with (fmap (M:=list) f).
    unfold sort_by_key. rewrite (sort_by_fmap (key_le key) (key_le key) f).
    - f_equal. rewrite <- list_fmap_compose. apply list_fmap_ext. intros ? x _. apply Hf.
    - intros x y. unfold key_le. by rewrite !Hkey. }
  rewrite Hm. apply sort_by_key_id, sort_by_key_sorted.
Qed.
End canonical_lists.

Lemma dedup_sort_roles_idemp (l : list string) :
  dedup (sort_by kle (dedup (sort_by kle l))) = dedup (sort_by kle l).
Proof. apply (dedup_sort_idemp (fun s => s)). Qed.

(** The roles of a context ascend strictly: sorted, none repeated. *)
Lemma dedup_sort_roles_strict (l : list string) : bs_wf (dedup (sort_by kle l)).
Proof.
  unfold bs_wf. rewrite <- (map_id (dedup _)). apply (dedup_sorted (fun s => s)).
  - apply (sort_by_key_sorted (fun s : string => s)).
  - done.
Qed.

(** ** [normalize] is idempotent *)

Lemma normalize_role_context_idemp c :
  normalize_role_context (normalize_role_context c) = normalize_role_context c.
Proof. unfold normalize_role_context. simpl. by rewrite !dedup_sort_roles_idemp. Qed.

Lemma fmap_idemp {A} (f : A -> A) (o : option A) :
  (forall x, f (f x) = f x) -> f <$> (f <$> o) = f <$> o.
Proof. intros Hf. destruct o; simpl; [by rewrite Hf|done]. Qed.

Lemma normalize_function_idemp f : normalize_function (normalize_function f) = normalize_function f.
Proof.
  unfold normalize_function. simpl.
  by rewrite dedup_sort_idemp, fmap_idemp by apply normalize_role_context_idemp.
Qed.

Lemma normalize_view_idemp v : normalize_view (normalize_view v) = normalize_view v.
Proof. unfold normalize_view. simpl. by rewrite fmap_idemp by apply normalize_role_context_idemp. Qed.

Lemma normalize_policy_idemp p : normalize_policy (normalize_policy p) = normalize_policy p.
Proof. unfold normalize_policy. f_equal. apply (sort_by_idemp kle). Qed.

Lemma normalize_relation_idemp r : normalize_relation (normalize_relation r) = normalize_relation r.
Proof.
  unfold normalize_relation. simpl.
  rewrite fmap_idemp by apply normalize_view_idemp.
  rewrite (sort_by_key_id column_key) by apply sort_by_key_sorted.
  rewrite (sort_by_key_id constraint_sort_key) by apply sort_by_key_sorted.
  rewrite (sort_map_idemp policy_key normalize_policy); [done|done|apply normalize_policy_idemp].
Qed.

Lemma normalize_idemp s : normalize (normalize s) = normalize s.
Proof.
  unfold normalize. simpl. rewrite normalize_role_context_idemp.
  rewrite (sort_map_idemp function_key) by (done || apply normalize_function_idemp).
  by rewrite (sort_map_idemp relation_key) by (done || apply normalize_relation_idemp).
Qed.

(** ** Canonical snapshots *)

Record role_context_canonical (c : CatalogRoleContext) : Prop := {
  effective_roles_strict : bs_wf (RoleContext.effective_roles c);
  settable_roles_strict : bs_wf (RoleContext.settable_roles c);
}.

Record function_canonical (f : CatalogFunction) : Prop := {
  function_grants_sorted : StronglySorted klt (map grant_key (Func.grants f));
  function_owner_canonical :
    forall c, Func.owner_authorization f = Some c -> role_context_canonical c;
}.

Record relation_canonical (r : CatalogRelation) : Prop := {
  columns_sorted : key_sorted column_key (Rel.columns r);
  constraints_sorted : key_sorted constraint_sort_key (Rel.constraints r);
  policies_sorted : key_sorted policy_key (Rel.policies r);
  policy_roles_sorted : Forall (fun p => StronglySorted kle (Policy.roles p)) (Rel.policies r);
  view_owner_canonical :
    forall v c, Rel.view r = Some v -> View.owner_authorization v = Some c ->
    role_context_canonical c;
}.

Record catalog_canonical (s : CatalogSnapshot) : Prop := {
  role_canonical : role_context_canonical (Catalog.role_context s);
  functions_sorted : key_sorted function_key (Catalog.functions s);
  functions_canonical : Forall function_canonical (Catalog.functions s);
  relations_sorted : key_sorted relation_key (Catalog.relations s);
  relations_canonical : Forall relation_canonical (Catalog.relations s);
}.

Lemma normalize_role_context_canonical c : role_context_canonical (normalize_role_context c).
Proof. split; apply dedup_sort_roles_strict. Qed.

Lemma grant_key_inj g g' : grant_key g = grant_key g' -> g = g'.
Proof. destruct g, g'. unfold grant_key. simpl. congruence. Qed.

Lemma normalize_function_canonical f : function_canonical (normalize_function f).
Proof.
  split; simpl.
  - apply (dedup_sorted grant_key); [apply sort_by_key_sorted|].
    intros x y _ _. apply grant_key_inj.
  - intros c. destruct (Func.owner_authorization f); intros [= <-].
    apply normalize_role_context_canonical.
Qed.

Lemma normalize_relation_canonical r : relation_canonical (normalize_relation r).
Proof.
  split; simpl; try apply sort_by_key_sorted.
  - apply Forall_forall. intros p Hp.
    rewrite elem_of_sort_by_key in Hp.
    apply list_elem_of_fmap in Hp as (q & -> & _). apply sort_by_sorted; apply _.
  - intros v c. destruct (Rel.view r) as [v'|]; intros [= <-]. simpl.
    destruct (View.owner_authorization v'); intros [= <-]. apply normalize_role_context_canonical.
Qed.

Lemma Forall_sort_map {A K} `{!EqDecision K, !Ordered K} (key : A -> K) (f : A -> A) P l :
  (forall x, P (f x)) -> Forall P (sort_by_key key (map f l)).
Proof.
  intros Hf. apply Forall_forall. intros x Hx.
  rewrite elem_of_sort_by_key in Hx. by apply list_elem_of_fmap in Hx as (y & -> & _).
Qed.

Lemma normalize_canonical s : catalog_canonical (normalize s).
Proof.
  split; simpl; try apply sort_by_key_sorted.
  - apply normalize_role_context_canonical.
  - apply Forall_sort_map, normalize_function_canonical.
  - apply Forall_sort_map, normalize_relation_canonical.
Qed.

(** ** Validation *)

(** The text whose digest is the fingerprint. *)
Definition catalog_text `{Crates} (s : CatalogSnapshot) : result string string :=
  json_to_string (Catalog.to_json (clear_fingerprint (normalize s))).

Lemma validated_normalized_ok `{Crates} s c :
  validated_normalized s = Ok c <->
  Catalog.schema_version s = CATALOG_SNAPSHOT_SCHEMA_VERSION
  /\ (exists text, catalog_text s = Ok text /\ Catalog.fingerprint s = sha256 text)
  /\ c = normalize s.
Proof.
  unfold validated_normalized, calculate_fingerprint, catalog_text.
  rewrite guard_then, bool_decide_eq_false.
  destruct (json_to_string _) as [text|e] eqn:Ht; simpl; [|naive_solver].
  rewrite guard_then, bool_decide_eq_false. split.
  - intros (Hv & Hf & [= <-]). apply dec_stable in Hv, Hf. naive_solver.
  - intros (Hv & (t & [= ->] & Hf) & ->). naive_solver.
Qed.

(** ** Distinct names *)

Record relation_distinct (r : CatalogRelation) : Prop := {
  column_names_distinct : NoDup (map Column.name (Rel.columns r));
  constraint_names_distinct : NoDup (map constraint_sort_key (Rel.constraints r));
  policy_names_distinct : NoDup (map Policy.name (Rel.policies r));
}.

(** What PostgreSQL guarantees of the objects of one database. *)
Record catalog_distinct (s : CatalogSnapshot) : Prop := {
  function_keys_distinct : NoDup (map function_key (Catalog.functions s));
  relation_names_distinct :
    NoDup (map (fun r => (Rel.schema r, Rel.name r)) (Catalog.relations s));
  relations_distinct : Forall relation_distinct (Catalog.relations s);
}.

Lemma NoDup_sort_map {A K N} `{!EqDecision K, !Ordered K} (key : A -> K) (name : A -> N)
    (f : A -> A) l :
  (forall x, name (f x) = name x) ->
  NoDup (map name l) -> NoDup (map name (sort_by_key key (map f l))).
Proof.
  intros Hf Hl. change (map name (sort_by_key key (map f l))) with (name <$> sort_by_key key (map f l)).
  rewrite (sort_by_key_perm key).
  change (name <$> map f l) with (map name (map f l)). rewrite map_map.
  by rewrite (map_ext _ name).
Qed.

Lemma normalize_distinct s : catalog_distinct s -> catalog_distinct (normalize s).
Proof.
  intros [Hf Hr Hd]. split; simpl.
  - by apply NoDup_sort_map.
  - by apply NoDup_sort_map.
  - apply Forall_forall. intros r' Hin. rewrite elem_of_sort_by_key in Hin.
    apply list_elem_of_fmap in Hin as (r & -> & Hin). rewrite Forall_forall in Hd.
    destruct (Hd _ Hin) as [Hc Hk Hp]. split; simpl.
    + rewrite <- (map_id (Rel.columns r)). by apply NoDup_sort_map.
    + rewrite <- (map_id (Rel.constraints r)). by apply NoDup_sort_map.
    + by apply NoDup_sort_map.
Qed.

(** * PostgreSQL types and portable names ([catalog_types.rs])

    The closed subset of PostgreSQL types that semantic models know, and the
    identifiers that need no quoting. *)

Definition postgres_data_type (value : string) : option DataType :=
  let value := to_ascii_lowercase value in
  let named name := bool_decide (value = name) in
  if named "boolean" || named "bool" then Some DataType.Boolean
  else if named "smallint" || named "integer" || named "bigint" || named "int2" || named "int4"
          || named "int8"
  then Some DataType.Integer
  else if named "numeric" || named "decimal" || starts_with "numeric(" value
          || starts_with "decimal(" value
  then Some DataType.Numeric
  else if named "text" || named "character varying" || starts_with "character varying(" value
          || named "varchar" || starts_with "varchar(" value || named "character"
          || starts_with "character(" value || named "char" || starts_with "char(" value
  then Some DataType.Text
  else if named "date" then Some DataType.Date
  else if named "timestamp without time zone"
          || (starts_with "timestamp(" value && ends_with " without time zone" value)
  then Some DataType.Timestamp
  else if named "timestamp with time zone" || named "timestamptz"
          || (starts_with "timestamp(" value && ends_with " with time zone" value)
  then Some DataType.TimestampTz
  else None.

Definition portable_identifier (value : string) : bool :=
  match value with
  | EmptyString => false
  | String first rest =>
      (is_ascii_alphabetic first || is_char 95 first)
      && all_bytes (fun byte => is_ascii_alphanumeric byte || is_char 95 byte) rest
  end.

(** [Iterator::find_map]. *)
Fixpoint find_map {A B} (f : A -> option B) (l : list A) : option B :=
  match l with
  | [] => None
  | a :: l => match f a with Some b => Some b | None => find_map f l end
  end.
