(* ===== verification/CatalogDiff.v ===== *)
(** * Differences between catalog snapshots ([catalog_diff.rs])

    [diff_catalogs] compares two validated catalog snapshots of the same
    database and role, addressing every change by a JSON pointer. *)

From S2P Require Import Prelude Ordered Text Json Catalog.

Definition CATALOG_DIFF_SCHEMA_VERSION : string := "1".

(** ** Data *)

Module CatalogCompatibility.
Inductive CatalogCompatibility : Type := Compatible | ReviewRequired | Breaking.
#[global] Instance eq_dec : EqDecision CatalogCompatibility.
Proof. solve_decision. Defined.
End CatalogCompatibility.
Abbreviation CatalogCompatibility := CatalogCompatibility.CatalogCompatibility.

Module CatalogObjectKind.
Inductive CatalogObjectKind : Type :=
| Context | Function_ | Relation | Column | Constraint | Policy.
#[global] Instance eq_dec : EqDecision CatalogObjectKind.
Proof. solve_decision. Defined.
End CatalogObjectKind.
Abbreviation CatalogObjectKind := CatalogObjectKind.CatalogObjectKind.

Module CatalogChangeKind.
Inductive CatalogChangeKind : Type := Added | Removed | Modified.
#[global] Instance eq_dec : EqDecision CatalogChangeKind.
Proof. solve_decision. Defined.
End CatalogChangeKind.
Abbreviation CatalogChangeKind := CatalogChangeKind.CatalogChangeKind.

Module CatalogChange.
Record CatalogChange : Type := mk {
  path : string;
  object_kind : CatalogObjectKind;
  change : CatalogChangeKind;
  compatibility : CatalogCompatibility;
  before : option json;
  after : option json;
}.
#[global] Instance eq_dec : EqDecision CatalogChange.
Proof. solve_decision. Defined.
End CatalogChange.
Abbreviation CatalogChange := CatalogChange.CatalogChange.

Module CatalogDiffSummary.
Record CatalogDiffSummary : Type := mk {
  total : nat;
  compatible : nat;
  review_required : nat;
  breaking : nat;
}.
End CatalogDiffSummary.
Abbreviation CatalogDiffSummary := CatalogDiffSummary.CatalogDiffSummary.

Module CatalogDiff.
Record CatalogDiff : Type := mk {
  schema_version : string;
  from_fingerprint : string;
  to_fingerprint : string;
  compatibility : CatalogCompatibility;
  summary : CatalogDiffSummary;
  changes : list CatalogChange;
}.
Definition has_breaking_changes (d : CatalogDiff) : bool :=
  bool_decide (0 < CatalogDiffSummary.breaking (summary d)).
End CatalogDiff.
Abbreviation CatalogDiff := CatalogDiff.CatalogDiff.

(** [CatalogDiffError]; its [Serialization] case does not arise:
    [serde_json::to_value] is total on these records, as [to_value] is here. *)
Module CatalogDiffError.
Inductive CatalogDiffError : Type :=
| InvalidSource (e : CatalogError)
| InvalidTarget (e : CatalogError)
| ContextMismatch.
End CatalogDiffError.
Abbreviation CatalogDiffError := CatalogDiffError.CatalogDiffError.

(** ** Paths *)

Definition tilde : ascii := byte_of 126.
Definition slash : ascii := byte_of 47.

Definition path_segment (value : string) : string :=
  replace_char slash "~1" (replace_char tilde "~0" value).

Definition relation_path (r : CatalogRelation) : string :=
  "/relations/" +:+ path_segment (Rel.schema r) +:+ "/" +:+ path_segment (Rel.name r).

Definition function_path (key : string * (string * string)) : string :=
  "/functions/" +:+ path_segment key.1 +:+ "/" +:+ path_segment key.2.1
  +:+ "/" +:+ path_segment key.2.2.

Definition constraint_key (c : CatalogConstraint) : string :=
  match c with
  | Constraint.PrimaryKey name _ _ _ _ _ _ => "primary_key:" +:+ name
  | Constraint.Unique name _ _ _ _ _ _ _ => "unique:" +:+ name
  | Constraint.ForeignKey name _ _ _ _ _ _ _ _ _ _ _ _ => "foreign_key:" +:+ name
  | Constraint.Check_ name _ _ _ _ _ => "check:" +:+ name
  end.

(** ** Changes

    A function of the source that pushes onto [changes] returns the changes it
    pushes; the caller appends them. *)

Definition push_change (path : string) (object_kind : CatalogObjectKind)
    (change : CatalogChangeKind) (compatibility : CatalogCompatibility)
    (before after : option json) : list CatalogChange :=
  [{| CatalogChange.path := path; CatalogChange.object_kind := object_kind;
      CatalogChange.change := change; CatalogChange.compatibility := compatibility;
      CatalogChange.before := to_value <$> before; CatalogChange.after := to_value <$> after |}].

Definition push_modified (path : string) (object_kind : CatalogObjectKind)
    (compatibility : CatalogCompatibility) (before after : json) : list CatalogChange :=
  push_change path object_kind CatalogChangeKind.Modified compatibility (Some before) (Some after).

(** [if before != after { push_modified(..) }]. *)
Definition push_if_modified {A} `{!EqDecision A} (enc : A -> json) (path : string)
    (object_kind : CatalogObjectKind) (compatibility : CatalogCompatibility) (before after : A)
    : list CatalogChange :=
  if decide (before = after) then []
  else push_modified path object_kind compatibility (enc before) (enc after).

(** [for key in left.keys().chain(right.keys()) { .. }]: a key of both maps is
    visited twice. *)
Definition visit_keys {K V} `{!EqDecision K, !Ordered K} (left right : list (K * V))
    (visit : K -> option V -> option V -> list CatalogChange) : list CatalogChange :=
  concat (map (fun key => visit key (bt_get key left) (bt_get key right)) (left.*1 ++ right.*1)).

Definition function_map (functions : list CatalogFunction)
    : list (string * (string * string) * CatalogFunction) :=
  bt_from_list (map (fun f => (function_key f, f)) functions).

Definition diff_functions (before after : list CatalogFunction) : list CatalogChange :=
  visit_keys (function_map before) (function_map after) (fun key l r =>
    let path := function_path key in
    match l, r with
    | Some before, Some after =>
        push_if_modified Func.to_json path CatalogObjectKind.Function_
          CatalogCompatibility.Breaking before after
    | Some before, None =>
        push_change path CatalogObjectKind.Function_ CatalogChangeKind.Removed
          CatalogCompatibility.Breaking (Some (Func.to_json before)) None
    | None, Some after =>
        push_change path CatalogObjectKind.Function_ CatalogChangeKind.Added
          CatalogCompatibility.Breaking None (Some (Func.to_json after))
    | None, None => []
    end).

Definition relation_map (relations : list CatalogRelation)
    : list (string * string * CatalogRelation) :=
  bt_from_list (map (fun r => ((Rel.schema r, Rel.name r), r)) relations).

Definition column_compatibility (before after : CatalogColumn) : CatalogCompatibility :=
  if bool_decide (Column.data_type before <> Column.data_type after)
     || bool_decide (Column.nullable before <> Column.nullable after)
     || bool_decide (Column.select_grant before <> Column.select_grant after)
     || bool_decide (Column.ordinal before <> Column.ordinal after)
  then CatalogCompatibility.Breaking else CatalogCompatibility.ReviewRequired.

Definition diff_columns (base : string) (before after : list CatalogColumn)
    : list CatalogChange :=
  let left := bt_from_list (map (fun c => (Column.name c, c)) before) in
  let right := bt_from_list (map (fun c => (Column.name c, c)) after) in
  visit_keys left right (fun name l r =>
    let path := base +:+ "/columns/" +:+ path_segment name in
    match l, r with
    | Some before, Some after =>
        push_if_modified Column.to_json path CatalogObjectKind.Column
          (column_compatibility before after) before after
    | Some before, None =>
        push_change path CatalogObjectKind.Column CatalogChangeKind.Removed
          CatalogCompatibility.Breaking (Some (Column.to_json before)) None
    | None, Some after =>
        push_change path CatalogObjectKind.Column CatalogChangeKind.Added
          CatalogCompatibility.Compatible None (Some (Column.to_json after))
    | None, None => []
    end).

Definition diff_constraints (base : string) (before after : list CatalogConstraint)
    : list CatalogChange :=
  let left := bt_from_list (map (fun c => (constraint_key c, c)) before) in
  let right := bt_from_list (map (fun c => (constraint_key c, c)) after) in
  visit_keys left right (fun key l r =>
    let path := base +:+ "/constraints/" +:+ path_segment key in
    match l, r with
    | Some before, Some after =>
        push_if_modified Constraint.to_json path CatalogObjectKind.Constraint
          CatalogCompatibility.Breaking before after
    | Some before, None =>
        push_change path CatalogObjectKind.Constraint CatalogChangeKind.Removed
          CatalogCompatibility.Breaking (Some (Constraint.to_json before)) None
    | None, Some after =>
        push_change path CatalogObjectKind.Constraint CatalogChangeKind.Added
          CatalogCompatibility.ReviewRequired None (Some (Constraint.to_json after))
    | None, None => []
    end).

Definition diff_policies (base : string) (before after : list RowLevelSecurityPolicy)
    : list CatalogChange :=
  let left := bt_from_list (map (fun p => (Policy.name p, p)) before) in
  let right := bt_from_list (map (fun p => (Policy.name p, p)) after) in
  visit_keys left right (fun name l r =>
    let path := base +:+ "/policies/" +:+ path_segment name in
    match l, r with
    | Some before, Some after =>
        push_if_modified Policy.to_json path CatalogObjectKind.Policy
          CatalogCompatibility.Breaking before after
    | Some before, None =>
        push_change path CatalogObjectKind.Policy CatalogChangeKind.Removed
          CatalogCompatibility.Breaking (Some (Policy.to_json before)) None
    | None, Some after =>
        push_change path CatalogObjectKind.Policy CatalogChangeKind.Added
          CatalogCompatibility.Breaking None (Some (Policy.to_json after))
    | None, None => []
    end).

Definition diff_relation (before after : CatalogRelation) : list CatalogChange :=
  let base := relation_path before in
  push_if_modified RelationKind.to_json (base +:+ "/kind") CatalogObjectKind.Relation
    CatalogCompatibility.Breaking (Rel.kind before) (Rel.kind after)
  ++ push_if_modified JStr (base +:+ "/owner") CatalogObjectKind.Relation
       CatalogCompatibility.Breaking (Rel.owner before) (Rel.owner after)
  ++ push_if_modified (nullable_json View.to_json) (base +:+ "/view") CatalogObjectKind.Relation
       CatalogCompatibility.Breaking (Rel.view before) (Rel.view after)
  ++ push_if_modified (nullable_json JStr) (base +:+ "/comment") CatalogObjectKind.Relation
       CatalogCompatibility.ReviewRequired (Rel.comment before) (Rel.comment after)
  ++ push_if_modified Grants.to_json (base +:+ "/grants") CatalogObjectKind.Relation
       CatalogCompatibility.Breaking (Rel.grants before) (Rel.grants after)
  ++ push_if_modified Rls.to_json (base +:+ "/rls") CatalogObjectKind.Relation
       CatalogCompatibility.Breaking (Rel.rls before) (Rel.rls after)
  ++ diff_columns base (Rel.columns before) (Rel.columns after)
  ++ diff_constraints base (Rel.constraints before) (Rel.constraints after)
  ++ diff_policies base (Rel.policies before) (Rel.policies after).

(** The loop of [diff_catalogs] over relations. *)
Definition diff_relations (before after : list CatalogRelation) : list CatalogChange :=
  visit_keys (relation_map before) (relation_map after) (fun _ l r =>
    match l, r with
    | Some before, Some after => diff_relation before after
    | Some before, None =>
        push_change (relation_path before) CatalogObjectKind.Relation CatalogChangeKind.Removed
          CatalogCompatibility.Breaking (Some (Rel.to_json before)) None
    | None, Some after =>
        push_change (relation_path after) CatalogObjectKind.Relation CatalogChangeKind.Added
          CatalogCompatibility.Compatible None (Some (Rel.to_json after))
    | None, None => []
    end).

(** The comparisons of [diff_catalogs] on the context of the scan. *)
Definition diff_context (before after : CatalogSnapshot) : list CatalogChange :=
  push_if_modified (fun n => JInt (Z.of_N n)) "/server_version_num" CatalogObjectKind.Context
    CatalogCompatibility.ReviewRequired (Catalog.server_version_num before)
    (Catalog.server_version_num after)
  ++ push_if_modified RoleContext.to_json "/role_context" CatalogObjectKind.Context
       CatalogCompatibility.Breaking (Catalog.role_context before) (Catalog.role_context after)
  ++ push_if_modified JStr "/role_graph_fingerprint" CatalogObjectKind.Context
       CatalogCompatibility.Breaking (Catalog.role_graph_fingerprint before)
       (Catalog.role_graph_fingerprint after)
  ++ push_if_modified JStr "/object_privilege_fingerprint" CatalogObjectKind.Context
       CatalogCompatibility.Breaking (Catalog.object_privilege_fingerprint before)
       (Catalog.object_privilege_fingerprint after).

Definition change_order (c : CatalogChangeKind) : nat :=
  match c with
  | CatalogChangeKind.Removed => 0
  | CatalogChangeKind.Modified => 1
  | CatalogChangeKind.Added => 2
  end.

Definition catalog_change_key (c : CatalogChange) : string * nat :=
  (CatalogChange.path c, change_order (CatalogChange.change c)).

Definition count_compatibility (k : CatalogCompatibility) (changes : list CatalogChange) : nat :=
  length (List.filter (fun c => bool_decide (CatalogChange.compatibility c = k)) changes).

Definition summarize (changes : list CatalogChange) : CatalogDiffSummary :=
  {| CatalogDiffSummary.total := length changes;
     CatalogDiffSummary.compatible :=
       count_compatibility CatalogCompatibility.Compatible changes;
     CatalogDiffSummary.review_required :=
       count_compatibility CatalogCompatibility.ReviewRequired changes;
     CatalogDiffSummary.breaking := count_compatibility CatalogCompatibility.Breaking changes |}.

Definition all_changes (before after : CatalogSnapshot) : list CatalogChange :=
  diff_context before after
  ++ diff_functions (Catalog.functions before) (Catalog.functions after)
  ++ diff_relations (Catalog.relations before) (Catalog.relations after).

Definition diff_catalogs `{Crates} (before after : CatalogSnapshot)
    : result CatalogDiffError CatalogDiff :=
  before ← map_err CatalogDiffError.InvalidSource (validated_normalized before);
  after ← map_err CatalogDiffError.InvalidTarget (validated_normalized after);
  fail_if (bool_decide (Catalog.current_database before <> Catalog.current_database after)
           || bool_decide (Catalog.current_role before <> Catalog.current_role after))
    CatalogDiffError.ContextMismatch;;
  let changes := dedup (sort_by_key catalog_change_key (all_changes before after)) in
  let summary := summarize changes in
  let compatibility :=
    if decide (0 < CatalogDiffSummary.breaking summary) then CatalogCompatibility.Breaking
    else if decide (0 < CatalogDiffSummary.review_required summary)
         then CatalogCompatibility.ReviewRequired
    else CatalogCompatibility.Compatible in
  Ok {| CatalogDiff.schema_version := CATALOG_DIFF_SCHEMA_VERSION;
        CatalogDiff.from_fingerprint := Catalog.fingerprint before;
        CatalogDiff.to_fingerprint := Catalog.fingerprint after;
        CatalogDiff.compatibility := compatibility;
        CatalogDiff.summary := summary;
        CatalogDiff.changes := changes |}.
