(* ===== verification/CatalogDiffSpec.v ===== *)
(** * What a catalog difference promises

    The catalog as a map from locations to objects, the change expected at each
    location, and the proof that [all_changes] collects exactly those changes.
    Locations are rendered as JSON pointers, and the rendering is injective, so
    a path identifies the object it is about. *)

From S2P Require Import Prelude Ordered Text Json Catalog CatalogDiff.

(** ** JSON pointers *)

Definition pointer_of (segments : list string) : string :=
  foldr (fun s rest => "/" +:+ path_segment s +:+ rest) EmptyString segments.

Lemma path_segment_nil : path_segment EmptyString = EmptyString.
Proof. done. Qed.

Lemma path_segment_cons c s :
  path_segment (String c s) =
  if decide (c = tilde) then "~0" +:+ path_segment s
  else if decide (c = slash) then "~1" +:+ path_segment s
  else String c (path_segment s).
Proof.
  unfold path_segment. simpl. destruct (decide (c = tilde)) as [->|Ht]; [done|]. simpl.
  by destruct (decide (c = slash)) as [->|Hs].
Qed.

(** What follows a segment: nothing, or the next slash. *)
Definition segment_end (rest : string) : Prop :=
  match rest with String c _ => c = slash | EmptyString => True end.

(** An escaped segment ends where the next slash is, and is unescaped in only
    one way. *)
Lemma path_segment_app_inj s s' rest rest' :
  segment_end rest -> segment_end rest' ->
  path_segment s +:+ rest = path_segment s' +:+ rest' -> s = s' /\ rest = rest'.
Proof.
  intros Hr Hr'. revert s'. induction s as [|c s IH]; intros [|c' s'];
    rewrite ?path_segment_nil, ?path_segment_cons, ?sapp_nil_l.
  - done.
  - intros ->. exfalso. repeat case_decide; simpl in Hr; subst; done.
  - intros <-. exfalso. repeat case_decide; simpl in Hr'; subst; done.
  - intros Heq. assert (Hcc : c = c' /\ path_segment s +:+ rest = path_segment s' +:+ rest').
    { repeat case_decide; subst; injection Heq; intros; subst; try done. }
    destruct Hcc as [-> Hrest]. by destruct (IH _ Hrest) as [-> ->].
Qed.

Lemma pointer_of_end segments : segment_end (pointer_of segments).
Proof. by destruct segments. Qed.

Lemma pointer_of_inj segments segments' :
  pointer_of segments = pointer_of segments' -> segments = segments'.
Proof.
  revert segments'. induction segments as [|s l IH]; intros [|s' l']; simpl; try done.
  intros [= Heq]. apply path_segment_app_inj in Heq as [-> Heq]; [|apply pointer_of_end..].
  f_equal. by apply IH.
Qed.

(** ** Locations and objects *)

Inductive context_part : Type :=
| ServerVersionNum | RoleContext_ | RoleGraphFingerprint | ObjectPrivilegeFingerprint.

Inductive relation_part : Type := Kind | Owner | View_ | Comment_ | Grants_ | Rls_.

Inductive location : Type :=
| AtContext (p : context_part)
| AtFunction (key : string * (string * string))
| AtRelation (key : string * string)
| AtPart (key : string * string) (p : relation_part)
| AtColumn (key : string * string) (name : string)
| AtConstraint (key : string * string) (ckey : string)
| AtPolicy (key : string * string) (name : string).

Definition context_name (p : context_part) : string :=
  match p with
  | ServerVersionNum => "server_version_num"
  | RoleContext_ => "role_context"
  | RoleGraphFingerprint => "role_graph_fingerprint"
  | ObjectPrivilegeFingerprint => "object_privilege_fingerprint"
  end.

Definition part_name (p : relation_part) : string :=
  match p with
  | Kind => "kind" | Owner => "owner" | View_ => "view" | Comment_ => "comment"
  | Grants_ => "grants" | Rls_ => "rls"
  end.

Definition segments (l : location) : list string :=
  match l with
  | AtContext p => [context_name p]
  | AtFunction key => ["functions"; key.1; key.2.1; key.2.2]
  | AtRelation key => ["relations"; key.1; key.2]
  | AtPart key p => ["relations"; key.1; key.2; part_name p]
  | AtColumn key name => ["relations"; key.1; key.2; "columns"; name]
  | AtConstraint key ckey => ["relations"; key.1; key.2; "constraints"; ckey]
  | AtPolicy key name => ["relations"; key.1; key.2; "policies"; name]
  end.

Definition pointer (l : location) : string := pointer_of (segments l).

Lemma pointer_inj l l' : pointer l = pointer l' -> l = l'.
Proof.
  intros H%pointer_of_inj.
  destruct l as [[]|[? [? ?]]|[? ?]|[? ?] []|[? ?] ?|[? ?] ?|[? ?] ?],
    l' as [[]|[? [? ?]]|[? ?]|[? ?] []|[? ?] ?|[? ?] ?|[? ?] ?];
    simpl in H; simplify_eq; done.
Qed.

Inductive object : Type :=
| OVersion (n : N)
| OText (s : string)
| ORole (c : CatalogRoleContext)
| OFunction (f : CatalogFunction)
| ORelation (r : CatalogRelation)
| OKind (k : RelationKind)
| OView (v : option CatalogView)
| OComment (c : option string)
| OGrants (g : RelationGrantHints)
| ORls (r : RowLevelSecurity)
| OColumn (c : CatalogColumn)
| OConstraint (c : CatalogConstraint)
| OPolicy (p : RowLevelSecurityPolicy).

#[export] Instance object_eq_dec : EqDecision object.
Proof. solve_decision. Defined.

Definition object_json (o : object) : json :=
  match o with
  | OVersion n => JInt (Z.of_N n)
  | OText s => JStr s
  | ORole c => RoleContext.to_json c
  | OFunction f => Func.to_json f
  | ORelation r => Rel.to_json r
  | OKind k => RelationKind.to_json k
  | OView v => nullable_json View.to_json v
  | OComment c => nullable_json JStr c
  | OGrants g => Grants.to_json g
  | ORls r => Rls.to_json r
  | OColumn c => Column.to_json c
  | OConstraint c => Constraint.to_json c
  | OPolicy p => Policy.to_json p
  end.

Definition context_at (s : CatalogSnapshot) (p : context_part) : object :=
  match p with
  | ServerVersionNum => OVersion (Catalog.server_version_num s)
  | RoleContext_ => ORole (Catalog.role_context s)
  | RoleGraphFingerprint => OText (Catalog.role_graph_fingerprint s)
  | ObjectPrivilegeFingerprint => OText (Catalog.object_privilege_fingerprint s)
  end.

Definition part_at (r : CatalogRelation) (p : relation_part) : object :=
  match p with
  | Kind => OKind (Rel.kind r)
  | Owner => OText (Rel.owner r)
  | View_ => OView (Rel.view r)
  | Comment_ => OComment (Rel.comment r)
  | Grants_ => OGrants (Rel.grants r)
  | Rls_ => ORls (Rel.rls r)
  end.

(** The object with a given name; of several, the last one listed. *)
Definition named {A K} `{!EqDecision K, !Ordered K} (key : A -> K) (l : list A) (k : K)
    : option A :=
  bt_get k (bt_from_list (map (fun a => (key a, a)) l)).

Definition relation_name (r : CatalogRelation) : string * string := (Rel.schema r, Rel.name r).

Definition relation_at (s : CatalogSnapshot) (key : string * string) : option CatalogRelation :=
  named relation_name (Catalog.relations s) key.

Definition object_at (s : CatalogSnapshot) (l : location) : option object :=
  match l with
  | AtContext p => Some (context_at s p)
  | AtFunction key => OFunction <$> named function_key (Catalog.functions s) key
  | AtRelation key => ORelation <$> relation_at s key
  | AtPart key p => (fun r => part_at r p) <$> relation_at s key
  | AtColumn key name =>
      r ← relation_at s key; OColumn <$> named Column.name (Rel.columns r) name
  | AtConstraint key ckey =>
      r ← relation_at s key; OConstraint <$> named constraint_key (Rel.constraints r) ckey
  | AtPolicy key name =>
      r ← relation_at s key; OPolicy <$> named Policy.name (Rel.policies r) name
  end.

(** ** The change expected at a location *)

Definition object_kind_of (l : location) : CatalogObjectKind :=
  match l with
  | AtContext _ => CatalogObjectKind.Context
  | AtFunction _ => CatalogObjectKind.Function_
  | AtRelation _ | AtPart _ _ => CatalogObjectKind.Relation
  | AtColumn _ _ => CatalogObjectKind.Column
  | AtConstraint _ _ => CatalogObjectKind.Constraint
  | AtPolicy _ _ => CatalogObjectKind.Policy
  end.

(** How a change at a location is classified: additions of relations and
    columns are compatible; comments, the server version, new constraints and
    columns that differ only in their comment ask for review; everything else
    breaks. *)
Definition grade (l : location) (before after : option object) : CatalogCompatibility :=
  match l, before, after with
  | AtContext ServerVersionNum, _, _ => CatalogCompatibility.ReviewRequired
  | AtRelation _, None, _ | AtColumn _ _, None, _ => CatalogCompatibility.Compatible
  | AtPart _ Comment_, _, _ => CatalogCompatibility.ReviewRequired
  | AtColumn _ _, Some (OColumn b), Some (OColumn a) => column_compatibility b a
  | AtConstraint _ _, None, _ => CatalogCompatibility.ReviewRequired
  | _, _, _ => CatalogCompatibility.Breaking
  end.

Definition change_between (l : location) (before after : option object) : option CatalogChange :=
  if decide (before = after) then None else
  Some {| CatalogChange.path := pointer l;
          CatalogChange.object_kind := object_kind_of l;
          CatalogChange.change :=
            match before, after with
            | None, _ => CatalogChangeKind.Added
            | Some _, None => CatalogChangeKind.Removed
            | Some _, Some _ => CatalogChangeKind.Modified
            end;
          CatalogChange.compatibility := grade l before after;
          CatalogChange.before := to_value ∘ object_json <$> before;
          CatalogChange.after := to_value ∘ object_json <$> after |}.

(** Relations of both snapshots are compared part by part, and only those: an
    added or removed relation is one change, at its own location. *)
Definition compared (b a : CatalogSnapshot) (l : location) : bool :=
  match l with
  | AtContext _ | AtFunction _ => true
  | AtRelation key =>
      negb (bool_decide (is_Some (relation_at b key) /\ is_Some (relation_at a key)))
  | AtPart key _ | AtColumn key _ | AtConstraint key _ | AtPolicy key _ =>
      bool_decide (is_Some (relation_at b key) /\ is_Some (relation_at a key))
  end.

Definition change_at (b a : CatalogSnapshot) (l : location) : option CatalogChange :=
  if compared b a l then change_between l (object_at b l) (object_at a l) else None.

Lemma change_at_path b a l c : change_at b a l = Some c -> CatalogChange.path c = pointer l.
Proof.
  unfold change_at, change_between. destruct (compared b a l); [|done].
  by case_decide; intros [= <-].
Qed.

(** ** The code reports the expected changes *)

(** [visit_keys] reports what the body reports at any key, since a key of
    neither map reports nothing. *)
Lemma elem_of_visit_keys {K V} `{!EqDecision K, !Ordered K} (left right : list (K * V))
    (visit : K -> option V -> option V -> list CatalogChange) c :
  (forall k, visit k None None = []) ->
  c ∈ visit_keys left right visit <-> exists k, c ∈ visit k (bt_get k left) (bt_get k right).
Proof.
  intros Hnone. unfold visit_keys. rewrite list_elem_of_In, in_concat. split.
  - intros (cs & (k & <- & _)%in_map_iff & Hc). exists k. by apply list_elem_of_In.
  - intros [k Hc]. exists (visit k (bt_get k left) (bt_get k right)).
    split; [|by apply list_elem_of_In]. apply in_map_iff. exists k. split; [done|].
    apply list_elem_of_In, elem_of_app.
    destruct (bt_get k left) as [v|] eqn:Hl; [left; apply bt_get_is_some; eauto|].
    destruct (bt_get k right) as [v|] eqn:Hr; [right; apply bt_get_is_some; eauto|].
    rewrite Hnone in Hc. by apply not_elem_of_nil in Hc.
Qed.

(** A comparison of two values of a part that is always there. *)
Lemma push_if_modified_spec {A} `{!EqDecision A} (enc : A -> json) (obj : A -> object) l path kind
    grade_ (x y : A) :
  (forall a, object_json (obj a) = enc a) -> (forall a a', obj a = obj a' -> a = a') ->
  path = pointer l -> kind = object_kind_of l ->
  (grade l (Some (obj x)) (Some (obj y)) = grade_) ->
  push_if_modified enc path kind grade_ x y
  = option_list (change_between l (Some (obj x)) (Some (obj y))).
Proof.
  intros Henc Hinj -> -> <-. unfold push_if_modified, change_between.
  destruct (decide (x = y)) as [->|Hne]; [by rewrite decide_True|].
  rewrite decide_False by (intros [= ?%Hinj]; done).
  unfold push_modified, push_change. simpl. by rewrite !Henc.
Qed.

(** A loop over the named objects of two lists, as the four loops of the source
    are written. *)
Definition visit_named {A} `{!EqDecision A} (enc : A -> json) (path : string)
    (kind : CatalogObjectKind) (modified : A -> A -> CatalogCompatibility)
    (added : CatalogCompatibility) (before after : option A) : list CatalogChange :=
  match before, after with
  | Some before, Some after => push_if_modified enc path kind (modified before after) before after
  | Some before, None =>
      push_change path kind CatalogChangeKind.Removed CatalogCompatibility.Breaking
        (Some (enc before)) None
  | None, Some after =>
      push_change path kind CatalogChangeKind.Added added None (Some (enc after))
  | None, None => []
  end.

Lemma visit_named_spec {A} `{!EqDecision A} (enc : A -> json) (obj : A -> object) l path kind
    modified added (x y : option A) :
  (forall a, object_json (obj a) = enc a) -> (forall a a', obj a = obj a' -> a = a') ->
  path = pointer l -> kind = object_kind_of l ->
  (forall a a', grade l (Some (obj a)) (Some (obj a')) = modified a a') ->
  (forall a, grade l (Some (obj a)) None = CatalogCompatibility.Breaking) ->
  (forall a, grade l None (Some (obj a)) = added) ->
  visit_named enc path kind modified added x y
  = option_list (change_between l (obj <$> x) (obj <$> y)).
Proof.
  intros Henc Hinj Hp Hk Hm Hr Ha. destruct x as [x|], y as [y|]; simpl.
  - by apply push_if_modified_spec.
  - subst. unfold push_change. simpl. by rewrite Henc, Hr.
  - subst. unfold push_change. simpl. by rewrite Henc, Ha.
  - done.
Qed.

Lemma elem_of_option_list {A} (x : A) o : x ∈ option_list o <-> o = Some x.
Proof. destruct o; simpl; set_solver. Qed.

Lemma elem_of_as_option {A} (x : A) l o : l = option_list o -> x ∈ l <-> o = Some x.
Proof. intros ->. apply elem_of_option_list. Qed.

(** Membership of the union of several lists of changes, each the changes at
    one family of locations. *)
Definition at_some {I} (b a : CatalogSnapshot) (loc : I -> location) (c : CatalogChange) : Prop :=
  exists i, change_at b a (loc i) = Some c.

Lemma diff_context_spec b a c : c ∈ diff_context b a <-> at_some b a AtContext c.
Proof.
  unfold diff_context, at_some, change_at.
  rewrite (push_if_modified_spec _ OVersion (AtContext ServerVersionNum)); [|naive_solver..].
  rewrite (push_if_modified_spec _ ORole (AtContext RoleContext_)); [|naive_solver..].
  rewrite (push_if_modified_spec _ OText (AtContext RoleGraphFingerprint)); [|naive_solver..].
  rewrite (push_if_modified_spec _ OText (AtContext ObjectPrivilegeFingerprint));
    [|naive_solver..].
  rewrite !elem_of_app, !elem_of_option_list. split.
  - intros [H|[H|[H|H]]]; eexists; exact H.
  - intros [[] H]; auto.
Qed.

Lemma diff_functions_spec b a c :
  c ∈ diff_functions (Catalog.functions b) (Catalog.functions a) <-> at_some b a AtFunction c.
Proof.
  unfold diff_functions, at_some, change_at.
  rewrite elem_of_visit_keys by done. apply exist_proper. intros k.
  apply elem_of_as_option. simpl.
  apply (visit_named_spec Func.to_json OFunction (AtFunction k) _ _
           (fun _ _ => CatalogCompatibility.Breaking) CatalogCompatibility.Breaking);
    try done; [naive_solver|].
  unfold function_path, pointer. simpl. by rewrite sapp_nil_r.
Qed.

Lemma named_key {A K} `{!EqDecision K, !Ordered K} (key : A -> K) l k x :
  named key l k = Some x -> key x = k /\ x ∈ l.
Proof.
  unfold named. intros H%bt_from_list_get_elem.
  apply list_elem_of_In, in_map_iff in H as (y & [= <- <-] & Hin). by rewrite list_elem_of_In.
Qed.

(** Inside a relation of both snapshots. *)
Section relation.
Context (b a : CatalogSnapshot) (key : string * string) (r r' : CatalogRelation).
Context (Hr : relation_at b key = Some r) (Hr' : relation_at a key = Some r').

Lemma both_compared : bool_decide (is_Some (relation_at b key) /\ is_Some (relation_at a key)) = true.
Proof using Hr Hr'. apply bool_decide_eq_true. rewrite Hr, Hr'. eauto. Qed.

Lemma below_relation l :
  (exists p, l = AtPart key p) \/ (exists n, l = AtColumn key n)
  \/ (exists n, l = AtConstraint key n) \/ (exists n, l = AtPolicy key n) ->
  change_at b a l = change_between l (object_at b l) (object_at a l).
Proof using Hr Hr'.
  unfold change_at. intros [[? ->]|[[? ->]|[[? ->]|[? ->]]]]; unfold compared;
    by rewrite both_compared.
Qed.

Lemma relation_path_pointer : relation_path r = pointer (AtRelation key).
Proof using Hr.
  destruct (named_key _ _ _ _ Hr) as [Hk _]. rewrite <- Hk. unfold relation_path, pointer. simpl.
  by rewrite sapp_nil_r.
Qed.

Lemma diff_columns_spec c :
  c ∈ diff_columns (relation_path r) (Rel.columns r) (Rel.columns r')
  <-> at_some b a (AtColumn key) c.
Proof using Hr Hr'.
  unfold diff_columns, at_some. rewrite elem_of_visit_keys by done.
  apply exist_proper. intros n. rewrite below_relation by eauto.
  unfold object_at. rewrite Hr, Hr'. simpl. apply elem_of_as_option.
  apply (visit_named_spec Column.to_json OColumn (AtColumn key n) _ _
           column_compatibility CatalogCompatibility.Compatible); try done; [naive_solver|].
  rewrite relation_path_pointer. unfold pointer. simpl. by rewrite !sapp_nil_r, !sapp_assoc.
Qed.

Lemma diff_constraints_spec c :
  c ∈ diff_constraints (relation_path r) (Rel.constraints r) (Rel.constraints r')
  <-> at_some b a (AtConstraint key) c.
Proof using Hr Hr'.
  unfold diff_constraints, at_some. rewrite elem_of_visit_keys by done.
  apply exist_proper. intros n. rewrite below_relation by eauto.
  unfold object_at. rewrite Hr, Hr'. simpl. apply elem_of_as_option.
  apply (visit_named_spec Constraint.to_json OConstraint (AtConstraint key n) _ _
           (fun _ _ => CatalogCompatibility.Breaking) CatalogCompatibility.ReviewRequired);
    try done; [naive_solver|].
  rewrite relation_path_pointer. unfold pointer. simpl. by rewrite !sapp_nil_r, !sapp_assoc.
Qed.

Lemma diff_policies_spec c :
  c ∈ diff_policies (relation_path r) (Rel.policies r) (Rel.policies r')
  <-> at_some b a (AtPolicy key) c.
Proof using Hr Hr'.
  unfold diff_policies, at_some. rewrite elem_of_visit_keys by done.
  apply exist_proper. intros n. rewrite below_relation by eauto.
  unfold object_at. rewrite Hr, Hr'. simpl. apply elem_of_as_option.
  apply (visit_named_spec Policy.to_json OPolicy (AtPolicy key n) _ _
           (fun _ _ => CatalogCompatibility.Breaking) CatalogCompatibility.Breaking);
    try done; [naive_solver|].
  rewrite relation_path_pointer. unfold pointer. simpl. by rewrite !sapp_nil_r, !sapp_assoc.
Qed.
End relation.

Lemma diff_parts_spec b a key r r' c :
  relation_at b key = Some r -> relation_at a key = Some r' ->
  c ∈ diff_relation r r' <->
  at_some b a (AtPart key) c \/ at_some b a (AtColumn key) c
  \/ at_some b a (AtConstraint key) c \/ at_some b a (AtPolicy key) c.
Proof.
  intros Hr Hr'. unfold diff_relation. rewrite !elem_of_app.
  rewrite (diff_columns_spec b a key), (diff_constraints_spec b a key),
    (diff_policies_spec b a key) by done.
  rewrite !(assoc or). do 3 f_equiv. rewrite <- !(assoc or). unfold at_some.
  assert (Hp : forall p, change_at b a (AtPart key p)
      = change_between (AtPart key p) (Some (part_at r p)) (Some (part_at r' p))).
  { intros p. rewrite (below_relation b a key r r') by eauto. simpl. by rewrite Hr, Hr'. }
  setoid_rewrite Hp.
  assert (Hpath : forall p, relation_path r +:+ "/" +:+ part_name p = pointer (AtPart key p)).
  { intros p. rewrite (relation_path_pointer b key r) by done. unfold pointer. simpl.
    rewrite !sapp_nil_r, !sapp_assoc. by destruct p. }
  rewrite (push_if_modified_spec _ OKind (AtPart key Kind)); [|done|congruence|exact (Hpath Kind)|done|done].
  rewrite (push_if_modified_spec _ OText (AtPart key Owner)); [|done|congruence|exact (Hpath Owner)|done|done].
  rewrite (push_if_modified_spec _ OView (AtPart key View_)); [|done|congruence|exact (Hpath View_)|done|done].
  rewrite (push_if_modified_spec _ OComment (AtPart key Comment_)); [|done|congruence|exact (Hpath Comment_)|done|done].
  rewrite (push_if_modified_spec _ OGrants (AtPart key Grants_)); [|done|congruence|exact (Hpath Grants_)|done|done].
  rewrite (push_if_modified_spec _ ORls (AtPart key Rls_)); [|done|congruence|exact (Hpath Rls_)|done|done].
  rewrite !elem_of_option_list. split.
  - intros [H|[H|[H|[H|[H|H]]]]]; eexists; exact H.
  - intros [[] H]; auto 10.
Qed.

(** Nothing is compared below a relation that one snapshot lacks. *)
Lemma below_absent b a key :
  ~ (is_Some (relation_at b key) /\ is_Some (relation_at a key)) ->
  (forall c, at_some b a (AtPart key) c \/ at_some b a (AtColumn key) c
     \/ at_some b a (AtConstraint key) c \/ at_some b a (AtPolicy key) c -> False)
  /\ change_at b a (AtRelation key)
     = change_between (AtRelation key) (object_at b (AtRelation key)) (object_at a (AtRelation key)).
Proof.
  intros Hn. unfold at_some, change_at, compared. rewrite bool_decide_false by done. naive_solver.
Qed.

Lemma diff_relations_spec b a c :
  c ∈ diff_relations (Catalog.relations b) (Catalog.relations a) <->
  exists key, change_at b a (AtRelation key) = Some c
    \/ at_some b a (AtPart key) c \/ at_some b a (AtColumn key) c
    \/ at_some b a (AtConstraint key) c \/ at_some b a (AtPolicy key) c.
Proof.
  unfold diff_relations. rewrite elem_of_visit_keys by done. apply exist_proper. intros key.
  change (bt_get key (relation_map (Catalog.relations b))) with (relation_at b key).
  change (bt_get key (relation_map (Catalog.relations a))) with (relation_at a key).
  destruct (decide (is_Some (relation_at b key) /\ is_Some (relation_at a key))) as [Hb|Hn].
  - destruct Hb as [[r Hr] [r' Hr']]. rewrite Hr, Hr', (diff_parts_spec b a key) by done.
    assert (change_at b a (AtRelation key) = None) as ->; [|naive_solver].
    unfold change_at, compared. by rewrite (both_compared b a key r r').
  - destruct (below_absent b a key Hn) as [Habs ->]. specialize (Habs c).
    rewrite <- elem_of_option_list. simpl.
    destruct (relation_at b key) as [r|] eqn:Hr, (relation_at a key) as [r'|] eqn:Hr'; simpl.
    + destruct Hn; eauto.
    + rewrite (relation_path_pointer b key r) by done. unfold push_change. simpl. tauto.
    + rewrite (relation_path_pointer a key r') by done. unfold push_change. simpl. tauto.
    + rewrite elem_of_nil. tauto.
Qed.

(** The changes collected are exactly those expected at the locations of the
    two snapshots. *)
Lemma all_changes_spec b a c :
  c ∈ all_changes b a <-> exists l, change_at b a l = Some c.
Proof.
  unfold all_changes. rewrite !elem_of_app, diff_context_spec, diff_functions_spec,
    diff_relations_spec. unfold at_some. split.
  - intros [[? H]|[[? H]|(? & [H|[[? H]|[[? H]|[[? H]|[? H]]]]])]]; eexists; exact H.
  - intros [[] H]; eauto 10.
Qed.

(** One change per path. *)
Lemma all_changes_path_inj b a c c' :
  c ∈ all_changes b a -> c' ∈ all_changes b a ->
  CatalogChange.path c = CatalogChange.path c' -> c = c'.
Proof.
  rewrite !all_changes_spec. intros [l Hl] [l' Hl'] Heq.
  rewrite (change_at_path _ _ _ _ Hl), (change_at_path _ _ _ _ Hl') in Heq.
  apply pointer_inj in Heq as ->. congruence.
Qed.

(** ** The sorted report *)

Definition sorted_changes (b a : CatalogSnapshot) : list CatalogChange :=
  dedup (sort_by_key catalog_change_key (all_changes b a)).

Lemma elem_of_sorted_changes b a c :
  c ∈ sorted_changes b a <-> exists l, change_at b a l = Some c.
Proof. unfold sorted_changes. by rewrite elem_of_dedup, elem_of_sort_by_key, all_changes_spec. Qed.

(** Every path is reported once, in ascending order: the repetitions that come
    from visiting shared keys twice are gone. *)
Lemma sorted_changes_paths b a :
  StronglySorted klt (map CatalogChange.path (sorted_changes b a)).
Proof.
  apply dedup_sorted.
  - assert (H := sort_by_key_sorted catalog_change_key (all_changes b a)). unfold key_sorted in H.
    induction H as [|x l Hl IH Hx]; [constructor|]. constructor; [done|].
    eapply Forall_impl; [exact Hx|]. intros y [[Hle _]|[Heq _]]; unfold key_le; simpl in *;
      [done|]. by rewrite Heq.
  - intros c c'. rewrite !elem_of_sort_by_key. apply all_changes_path_inj.
Qed.

Lemma diff_catalogs_ok `{HC : Crates} before after d :
  diff_catalogs before after = Ok d <->
  (exists b a, validated_normalized before = Ok b /\ validated_normalized after = Ok a)
  /\ Catalog.current_database before = Catalog.current_database after
  /\ Catalog.current_role before = Catalog.current_role after
  /\ CatalogDiff.schema_version d = CATALOG_DIFF_SCHEMA_VERSION
  /\ CatalogDiff.from_fingerprint d = Catalog.fingerprint before
  /\ CatalogDiff.to_fingerprint d = Catalog.fingerprint after
  /\ CatalogDiff.changes d = sorted_changes (normalize before) (normalize after)
  /\ CatalogDiff.summary d = summarize (CatalogDiff.changes d)
  /\ CatalogDiff.compatibility d =
     if decide (0 < CatalogDiffSummary.breaking (CatalogDiff.summary d))
     then CatalogCompatibility.Breaking
     else if decide (0 < CatalogDiffSummary.review_required (CatalogDiff.summary d))
          then CatalogCompatibility.ReviewRequired else CatalogCompatibility.Compatible.
Proof.
  unfold diff_catalogs. split.
  - intros (b & Hb%map_err_ok & (a & Ha%map_err_ok & [Hg Hd]%guard_then)%bind_ok)%bind_ok.
    apply orb_false_iff in Hg as [Hdb%bool_decide_eq_false Hrole%bool_decide_eq_false].
    apply dec_stable in Hdb, Hrole. apply Ok_inj in Hd as <-. split; [by exists b, a|].
    apply validated_normalized_ok in Hb as (_ & _ & ->), Ha as (_ & _ & ->). done.
  - intros ((b & a & Hb & Ha) & Hdb & Hrole & Hd). rewrite Hb, Ha. simpl.
    apply validated_normalized_ok in Hb as (_ & _ & ->), Ha as (_ & _ & ->). simpl.
    rewrite !bool_decide_false by naive_solver. simpl.
    destruct d; simpl in *. destruct_and!. by subst.
Qed.

(** ** Snapshots with no reported difference *)

Lemma constraint_key_sort_key c c' :
  constraint_key c = constraint_key c' -> constraint_sort_key c = constraint_sort_key c'.
Proof. destruct c, c'; simpl; intros H; simplify_eq; done. Qed.

Lemma constraint_sort_key_key c c' :
  constraint_sort_key c = constraint_sort_key c' -> constraint_key c = constraint_key c'.
Proof. destruct c, c'; simpl; intros H; simplify_eq; done. Qed.

Lemma NoDup_map_constraint_key l :
  NoDup (map constraint_sort_key l) -> NoDup (map constraint_key l).
Proof.
  induction l as [|c l IH]; simpl; [constructor|]. intros [Hc Hl]%NoDup_cons.
  apply NoDup_cons. split; [|by apply IH].
  intros (c' & Heq%constraint_key_sort_key & Hin)%list_elem_of_fmap. destruct Hc.
  rewrite Heq. by apply (list_elem_of_fmap_2 constraint_sort_key).
Qed.

Lemma named_in {A K} `{!EqDecision K, !Ordered K} (key : A -> K) l x :
  NoDup (map key l) -> x ∈ l -> named key l (key x) = Some x.
Proof.
  intros Hnd Hin. apply bt_from_list_get_nodup.
  - change (fmap (M:=list) fst) with (@map (K * A) K fst). by rewrite map_map.
  - by apply (list_elem_of_fmap_2 (fun a => (key a, a))).
Qed.

(** A sorted list with distinct names is determined by its named elements. *)
Lemma named_ext {A K S} `{!EqDecision A, !EqDecision K, !Ordered K, !EqDecision S, !Ordered S}
    (key : A -> K) (skey : A -> S) l k :
  (forall x y, skey x = skey y -> key x = key y) ->
  NoDup (map key l) -> NoDup (map key k) -> key_sorted skey l -> key_sorted skey k ->
  (forall n, named key l n = named key k n) -> l = k.
Proof.
  intros Hs Hl Hk Hsl Hsk Heq. apply (sorted_perm_unique (key_le skey)); [|done|done|].
  - intros x y Hx Hy Hxy Hyx. apply (NoDup_map_inj key l); [done..|].
    apply Hs, (anti_symm kle); done.
  - apply NoDup_Permutation; [by eapply NoDup_fmap_1..|]. intros x. split; intros Hx.
    + apply (named_key key k (key x)). rewrite <- Heq. by apply named_in.
    + apply (named_key key l (key x)). rewrite Heq. by apply named_in.
Qed.

Lemma option_fmap_inj_eq {A B} (f : A -> B) (o o' : option A) :
  (forall x y, f x = f y -> x = y) -> f <$> o = f <$> o' -> o = o'.
Proof. intros Hf. destruct o, o'; intros [=]; [by f_equal; apply Hf|done]. Qed.

Lemma change_at_none b a l :
  change_at b a l = None -> compared b a l = true -> object_at b l = object_at a l.
Proof.
  unfold change_at, change_between. intros H Hc. rewrite Hc in H. by case_decide.
Qed.

Section unchanged.
Context (b a : CatalogSnapshot).
Context (Hb : catalog_canonical b) (Ha : catalog_canonical a).
Context (Db : catalog_distinct b) (Da : catalog_distinct a).
Context (Hsame : forall l, change_at b a l = None).

Lemma same_presence key : is_Some (relation_at b key) <-> is_Some (relation_at a key).
Proof using Hsame.
  specialize (Hsame (AtRelation key)).
  destruct (decide (is_Some (relation_at b key) /\ is_Some (relation_at a key)))
    as [?|Hn]; [tauto|].
  destruct (below_absent b a key Hn) as [_ Hc]. rewrite Hc in Hsame.
  unfold change_between in Hsame. case_decide as Heq; [|done]. simpl in Heq.
  rewrite <- !not_eq_None_Some.
  destruct (relation_at b key), (relation_at a key); naive_solver.
Qed.

(** The named objects below a relation of both snapshots. *)
Lemma same_named {A K S} `{!EqDecision A, !EqDecision K, !Ordered K, !EqDecision S, !Ordered S}
    (name : A -> K) (skey : A -> S) (sel : CatalogRelation -> list A) (obj : A -> object)
    (loc : K -> location) key r r' :
  relation_at b key = Some r -> relation_at a key = Some r' ->
  (forall x y, obj x = obj y -> x = y) ->
  (forall n, compared b a (loc n)
     = bool_decide (is_Some (relation_at b key) /\ is_Some (relation_at a key))) ->
  (forall s n, object_at s (loc n) = r ← relation_at s key; obj <$> named name (sel r) n) ->
  (forall x y, skey x = skey y -> name x = name y) ->
  NoDup (map name (sel r)) -> NoDup (map name (sel r')) ->
  key_sorted skey (sel r) -> key_sorted skey (sel r') ->
  sel r = sel r'.
Proof using Hsame.
  intros Hr Hr' Hobj Hcmp Hat Hs Hd Hd' Hk Hk'. apply (named_ext name skey); try done.
  intros n. assert (H : object_at b (loc n) = object_at a (loc n)).
  { apply change_at_none; [done|]. rewrite Hcmp. by apply (both_compared b a key r r'). }
  rewrite !Hat, Hr, Hr' in H. simpl in H. by apply (option_fmap_inj_eq obj) in H.
Qed.

Lemma same_parts key r r' p :
  relation_at b key = Some r -> relation_at a key = Some r' -> part_at r p = part_at r' p.
Proof using Hsame.
  intros Hr Hr'. assert (H := change_at_none _ _ _ (Hsame (AtPart key p))
                                (both_compared b a key r r' Hr Hr')).
  simpl in H. rewrite Hr, Hr' in H. by injection H.
Qed.

Lemma same_relation key r r' :
  relation_at b key = Some r -> relation_at a key = Some r' -> r = r'.
Proof using Type*.
  intros Hr Hr'. pose proof (fun p => same_parts key r r' p Hr Hr') as Hpart.
  destruct (named_key _ _ _ _ Hr) as [Hk Hin], (named_key _ _ _ _ Hr') as [Hk' Hin'].
  destruct (proj1 (Forall_forall _ _) (relations_canonical _ Hb) _ Hin),
    (proj1 (Forall_forall _ _) (relations_canonical _ Ha) _ Hin').
  destruct (proj1 (Forall_forall _ _) (relations_distinct _ Db) _ Hin),
    (proj1 (Forall_forall _ _) (relations_distinct _ Da) _ Hin').
  assert (Hcol : Rel.columns r = Rel.columns r').
  { apply (same_named Column.name column_key Rel.columns OColumn (AtColumn key) key);
      try done; by intros ? ? [=]. }
  assert (Hcon : Rel.constraints r = Rel.constraints r').
  { apply (same_named constraint_key constraint_sort_key Rel.constraints OConstraint
             (AtConstraint key) key); try done;
      [congruence|apply constraint_sort_key_key|by apply NoDup_map_constraint_key..]. }
  assert (Hpol : Rel.policies r = Rel.policies r').
  { apply (same_named Policy.name policy_key Rel.policies OPolicy (AtPolicy key) key);
      try done; by intros ? ? [=]. }
  pose proof (Hpart Kind) as [= ?]. pose proof (Hpart Owner) as [= ?].
  pose proof (Hpart View_) as [= ?]. pose proof (Hpart Comment_) as [= ?].
  pose proof (Hpart Grants_) as [= ?]. pose proof (Hpart Rls_) as [= ?].
  rewrite <- Hk' in Hk. injection Hk as ? ?. destruct r, r'. simpl in *. by subst.
Qed.

Lemma same_functions : Catalog.functions b = Catalog.functions a.
Proof using Type*.
  destruct Hb, Ha, Db, Da. apply (named_ext function_key function_key); try done.
  intros n. assert (H := change_at_none _ _ _ (Hsame (AtFunction n)) eq_refl).
  simpl in H. apply (option_fmap_inj_eq OFunction) in H; [done|congruence].
Qed.

Lemma same_relations : Catalog.relations b = Catalog.relations a.
Proof using Type*.
  destruct Hb as [_ _ _ Hsb _], Ha as [_ _ _ Hsa _], Db as [_ Hnb _], Da as [_ Hna _].
  apply (named_ext relation_name relation_key); try done.
  { intros x y [= ? ? ?]. unfold relation_name. congruence. }
  intros key. change (relation_at b key = relation_at a key).
  pose proof (same_presence key) as Hp.
  destruct (relation_at b key) as [r|] eqn:Hr, (relation_at a key) as [r'|] eqn:Hr'.
  - f_equal. by eapply same_relation.
  - destruct (proj1 Hp); eauto. done.
  - destruct (proj2 Hp); eauto. done.
  - done.
Qed.

Lemma same_context : forall p, context_at b p = context_at a p.
Proof using Hsame.
  intros p. assert (H := change_at_none _ _ _ (Hsame (AtContext p)) eq_refl). by injection H.
Qed.
End unchanged.

Lemma no_changes_iff b a : sorted_changes b a = [] <-> forall l, change_at b a l = None.
Proof.
  split.
  - intros Hnil l. destruct (change_at b a l) as [c|] eqn:Hc; [|done].
    assert (Hin : c ∈ sorted_changes b a) by (apply elem_of_sorted_changes; eauto).
    rewrite Hnil in Hin. by apply not_elem_of_nil in Hin.
  - intros Hn. destruct (sorted_changes b a) as [|c cs] eqn:Hcs; [done|].
    assert (Hin : c ∈ sorted_changes b a) by (rewrite Hcs; left).
    apply elem_of_sorted_changes in Hin as [l Hl]. by rewrite Hn in Hl.
Qed.

(** Everything a snapshot records but its own fingerprint. *)
Lemma clear_fingerprint_ext b a :
  Catalog.schema_version b = Catalog.schema_version a ->
  Catalog.current_database b = Catalog.current_database a ->
  Catalog.current_role b = Catalog.current_role a ->
  (forall p, context_at b p = context_at a p) ->
  Catalog.functions b = Catalog.functions a -> Catalog.relations b = Catalog.relations a ->
  clear_fingerprint b = clear_fingerprint a.
Proof.
  intros ? ? ? Hp ? ?. pose proof (Hp ServerVersionNum) as [= ?].
  pose proof (Hp RoleContext_) as [= ?]. pose proof (Hp RoleGraphFingerprint) as [= ?].
  pose proof (Hp ObjectPrivilegeFingerprint) as [= ?].
  unfold clear_fingerprint. f_equal; done.
Qed.

Lemma object_at_clear b a l :
  clear_fingerprint b = clear_fingerprint a -> object_at b l = object_at a l.
Proof.
  intros H. unfold clear_fingerprint in H. destruct b, a. simpl in H. injection H. intros. subst.
  by destruct l as [[]|?|?|?|?|?|?].
Qed.

(** ** The verdict *)

Lemma summarize_counts cs :
  count_compatibility CatalogCompatibility.Compatible cs
  + count_compatibility CatalogCompatibility.ReviewRequired cs
  + count_compatibility CatalogCompatibility.Breaking cs = length cs.
Proof.
  unfold count_compatibility. induction cs as [|c cs IH]; simpl; [done|].
  destruct (CatalogChange.compatibility c); simpl; lia.
Qed.

Lemma count_positive k cs :
  0 < count_compatibility k cs <-> exists c, c ∈ cs /\ CatalogChange.compatibility c = k.
Proof.
  unfold count_compatibility. induction cs as [|c cs IH]; simpl.
  - split; [lia|]. intros (? & ?%not_elem_of_nil & _). done.
  - case_bool_decide as Hc; simpl.
    + split; [|lia]. intros _. exists c. split; [left|done].
    + rewrite IH. split; intros (c' & Hin & Hk); exists c'; (split; [|done]); [by right|].
      apply elem_of_cons in Hin as [->|?]; done.
Qed.

Lemma diff_compatible_iff (d : CatalogDiff) :
  CatalogDiff.summary d = summarize (CatalogDiff.changes d) ->
  CatalogDiff.compatibility d =
    (if decide (0 < CatalogDiffSummary.breaking (CatalogDiff.summary d))
     then CatalogCompatibility.Breaking
     else if decide (0 < CatalogDiffSummary.review_required (CatalogDiff.summary d))
          then CatalogCompatibility.ReviewRequired else CatalogCompatibility.Compatible) ->
  CatalogDiff.compatibility d = CatalogCompatibility.Compatible <->
  forall c, c ∈ CatalogDiff.changes d ->
    CatalogChange.compatibility c = CatalogCompatibility.Compatible.
Proof.
  intros Hs ->. rewrite Hs. simpl. split.
  - intros Heq c Hc. destruct (CatalogChange.compatibility c) eqn:Hk; [done|exfalso..].
    + assert (0 < count_compatibility CatalogCompatibility.ReviewRequired (CatalogDiff.changes d))
        by (apply count_positive; eauto). repeat case_decide; done.
    + assert (0 < count_compatibility CatalogCompatibility.Breaking (CatalogDiff.changes d))
        by (apply count_positive; eauto). repeat case_decide; done.
  - intros Hall. rewrite !decide_False; [done|rewrite count_positive; intros (c & ? & Hk)..];
      rewrite (Hall c) in Hk by done; discriminate Hk.
Qed.

(** ** Compatible differences *)

Section compatible.
Context (b a : CatalogSnapshot).
Context (Hcompat : forall l c, change_at b a l = Some c ->
           CatalogChange.compatibility c = CatalogCompatibility.Compatible).

(** Only a relation or a column can be added; nothing else differs. *)
Lemma compatible_object l :
  compared b a l = true ->
  object_at b l = object_at a l
  \/ (object_at b l = None /\ ((exists key, l = AtRelation key)
                               \/ exists key n, l = AtColumn key n)).
Proof using Hcompat.
  intros Hc. specialize (Hcompat l). unfold change_at, change_between in Hcompat.
  rewrite Hc in Hcompat. case_decide as Heq; [by left|]. specialize (Hcompat _ eq_refl).
  simpl in Hcompat. right.
  destruct l as [[]|?|key|key []|key n|?|?], (object_at b _) as [o|] eqn:Hb;
    try discriminate Hcompat; try (split; [done|eauto]); exfalso; simpl in *.
  destruct (relation_at b key); [|done]. simpl in Hb. apply fmap_Some in Hb as (x & _ & ->).
  destruct (_ ≫= _) as [[]|]; try discriminate Hcompat.
  unfold column_compatibility in Hcompat. by destruct (_ || _).
Qed.

Lemma compatible_keeps_relation key r :
  relation_at b key = Some r -> is_Some (relation_at a key).
Proof using Hcompat.
  intros Hr. destruct (decide (is_Some (relation_at a key))) as [|Hn]; [done|].
  destruct (compatible_object (AtRelation key)) as [Heq|[Heq _]].
  - simpl. rewrite bool_decide_false; [done|]. tauto.
  - simpl in Heq. rewrite Hr in Heq. simpl in Heq. destruct (relation_at a key); [eauto|done].
  - simpl in Heq. by rewrite Hr in Heq.
Qed.

(** Named objects that may not even be added. *)
Lemma compatible_same_object l :
  compared b a l = true ->
  match l with AtRelation _ | AtColumn _ _ => False | _ => True end ->
  object_at b l = object_at a l.
Proof using Hcompat.
  intros Hc Hl. destruct (compatible_object l Hc) as [|[_ [[? ->]|(? & ? & ->)]]]; done.
Qed.

Lemma compatible_relation key r r' :
  relation_at b key = Some r -> relation_at a key = Some r' ->
  (forall p, part_at r p = part_at r' p)
  /\ (forall n c, named Column.name (Rel.columns r) n = Some c ->
                  named Column.name (Rel.columns r') n = Some c)
  /\ (forall k, named constraint_key (Rel.constraints r) k
                = named constraint_key (Rel.constraints r') k)
  /\ (forall n, named Policy.name (Rel.policies r) n = named Policy.name (Rel.policies r') n).
Proof using Hcompat.
  intros Hr Hr'. assert (Hcmp := both_compared b a key r r' Hr Hr'). split_and!.
  - intros p. assert (H := compatible_same_object (AtPart key p) Hcmp I).
    simpl in H. rewrite Hr, Hr' in H. by injection H.
  - intros n c Hn. destruct (compatible_object (AtColumn key n) Hcmp) as [H|[H _]];
      simpl in H; rewrite Hr, ?Hr' in H; simpl in H; rewrite Hn in H; [|discriminate H].
    symmetry in H. simpl in H. apply fmap_Some in H as (? & ? & [= <-]). done.
  - intros k. assert (H := compatible_same_object (AtConstraint key k) Hcmp I).
    simpl in H. rewrite Hr, Hr' in H. apply (option_fmap_inj_eq OConstraint) in H; congruence.
  - intros k. assert (H := compatible_same_object (AtPolicy key k) Hcmp I).
    simpl in H. rewrite Hr, Hr' in H. apply (option_fmap_inj_eq OPolicy) in H; congruence.
Qed.

Lemma compatible_keeps :
  (forall p, context_at b p = context_at a p)
  /\ (forall key, named function_key (Catalog.functions b) key
                  = named function_key (Catalog.functions a) key)
  /\ forall key r, relation_at b key = Some r ->
     exists r', relation_at a key = Some r'
     /\ (forall p, part_at r p = part_at r' p)
     /\ (forall n c, named Column.name (Rel.columns r) n = Some c ->
                     named Column.name (Rel.columns r') n = Some c)
     /\ (forall k, named constraint_key (Rel.constraints r) k
                   = named constraint_key (Rel.constraints r') k)
     /\ (forall n, named Policy.name (Rel.policies r) n
                   = named Policy.name (Rel.policies r') n).
Proof using Hcompat.
  split_and!.
  - intros p. assert (H := compatible_same_object (AtContext p) eq_refl I). by injection H.
  - intros k. assert (H := compatible_same_object (AtFunction k) eq_refl I). simpl in H.
    apply (option_fmap_inj_eq OFunction) in H; [done|congruence].
  - intros key r Hr. destruct (compatible_keeps_relation key r Hr) as [r' Hr'].
    exists r'. split; [done|]. by apply (compatible_relation key).
Qed.
End compatible.
