(* ===== verification/RateLimit.v ===== *)
(** * Admission of requests per principal ([mcp_http_rate.rs])

    A token bucket and a counter of running requests for every authority.  The
    clock is a value the caller reads; [f64] is binary64 arithmetic as the
    Standard Library specifies it ([SpecFloat] with 53 bits of precision).  The
    state behind the mutex is passed explicitly; a permit is the authority it
    was issued for, and dropping it is a step of its own. *)

From Stdlib Require Import SpecFloat.
From stdpp Require Import gmap.
From S2P Require Import Prelude.

(** ** [f64] *)

Abbreviation f64 := spec_float.

Definition f64_of_int (n : Z) : f64 := binary_normalize 53 1024 n 0 false.
Definition f64_add : f64 -> f64 -> f64 := SFadd 53 1024.
Definition f64_sub : f64 -> f64 -> f64 := SFsub 53 1024.
Definition f64_mul : f64 -> f64 -> f64 := SFmul 53 1024.
Definition f64_div : f64 -> f64 -> f64 := SFdiv 53 1024.

(** [f64::min]: the other operand where one is not a number. *)
Definition f64_min (x y : f64) : f64 :=
  match x, y with
  | S754_nan, _ => y
  | _, S754_nan => x
  | _, _ => if SFltb y x then y else x
  end.

(** [Duration::as_secs_f64] of a duration in nanoseconds. *)
Definition as_secs_f64 (nanoseconds : Z) : f64 :=
  f64_add (f64_of_int (nanoseconds / 1000000000))
    (f64_div (f64_of_int (nanoseconds mod 1000000000)) (f64_of_int 1000000000)).

Definition wrap_u32 (z : Z) : Z := z mod 4294967296.

(** ** State *)

Module Bucket.
Record Bucket : Type := mk {
  tokens : f64;
  last_refill : Z;
  active : Z;
}.
End Bucket.
Abbreviation Bucket := Bucket.Bucket.

Abbreviation LimiterState := (gmap string Bucket).

Module LimitError.
Inductive LimitError : Type := Rate | Concurrency | Unavailable.
End LimitError.
Abbreviation LimitError := LimitError.LimitError.

(** ** Operations *)

(** [bucket.tokens] after the refill of [acquire]. *)
Definition refill (b : Bucket) (requests_per_minute burst now : Z) : f64 :=
  let elapsed := Z.max 0 (now - Bucket.last_refill b) in
  let refill_per_second := f64_div (f64_of_int requests_per_minute) (f64_of_int 60) in
  f64_min (f64_add (Bucket.tokens b) (f64_mul (as_secs_f64 elapsed) refill_per_second))
    (f64_of_int burst).

(** [entry(..).or_insert_with(..)]. *)
Definition bucket_or_new (s : LimiterState) (authority_id : string) (burst now : Z) : Bucket :=
  default {| Bucket.tokens := f64_of_int burst; Bucket.last_refill := now; Bucket.active := 0 |}
    (s !! authority_id).

(** [PrincipalLimiter::acquire]: the new state and, on success, the permit. *)
Definition acquire (s : LimiterState) (authority_id : string)
    (requests_per_minute burst max_concurrent now : Z)
    : LimiterState * result LimitError string :=
  let bucket := bucket_or_new s authority_id burst now in
  let refilled := {| Bucket.tokens := refill bucket requests_per_minute burst now;
                     Bucket.last_refill := now; Bucket.active := Bucket.active bucket |} in
  if (max_concurrent <=? Bucket.active refilled)%Z
  then (<[authority_id := refilled]> s, Err LimitError.Concurrency)
  else if SFltb (Bucket.tokens refilled) (f64_of_int 1)
  then (<[authority_id := refilled]> s, Err LimitError.Rate)
  else
    let admitted := {| Bucket.tokens := f64_sub (Bucket.tokens refilled) (f64_of_int 1);
                       Bucket.last_refill := now;
                       Bucket.active := wrap_u32 (Bucket.active refilled + 1) |} in
    (<[authority_id := admitted]> s, Ok authority_id).

(** [Drop for PrincipalPermit]. *)
Definition drop_permit (s : LimiterState) (authority_id : string) : LimiterState :=
  match s !! authority_id with
  | Some b => <[authority_id := {| Bucket.tokens := Bucket.tokens b;
                                   Bucket.last_refill := Bucket.last_refill b;
                                   Bucket.active := Z.max 0 (Bucket.active b - 1) |}]> s
  | None => s
  end.

(** ** Runs of the limiter *)

(** A request: an authority with its limits, at a time. *)
Record request : Type := {
  req_authority : string;
  req_rpm : Z;
  req_burst : Z;
  req_max : Z;
  req_now : Z;
}.

Definition acquire_for (s : LimiterState) (q : request) : LimiterState * result LimitError string :=
  acquire s (req_authority q) (req_rpm q) (req_burst q) (req_max q) (req_now q).

Definition limits_u32 (q : request) : Prop :=
  (0 <= req_rpm q < 4294967296)%Z /\ (0 <= req_burst q < 4294967296)%Z
  /\ (0 <= req_max q < 4294967296)%Z.

(** The limiter with the permits that have been issued and not dropped. *)
Inductive limiter_step : LimiterState * list string -> LimiterState * list string -> Prop :=
| step_admit s s' permits q p :
    limits_u32 q -> acquire_for s q = (s', Ok p) ->
    limiter_step (s, permits) (s', p :: permits)
| step_reject s s' permits q e :
    limits_u32 q -> acquire_for s q = (s', Err e) ->
    limiter_step (s, permits) (s', permits)
| step_drop s permits p permits' :
    permits ≡ₚ p :: permits' ->
    limiter_step (s, permits) (drop_permit s p, permits').

Definition reachable : LimiterState * list string -> Prop := rtc limiter_step (∅, []).

Definition active_of (s : LimiterState) (id : string) : Z :=
  match s !! id with Some b => Bucket.active b | None => 0 end.

Definition outstanding (permits : list string) (id : string) : Z :=
  Z.of_nat (length (filter (fun p => p = id) permits)).

(** ** The counter of running requests *)

Definition counted (sp : LimiterState * list string) : Prop :=
  forall id, active_of sp.1 id = outstanding sp.2 id /\ (outstanding sp.2 id < 4294967296)%Z.

Lemma bucket_or_new_active s id burst now :
  Bucket.active (bucket_or_new s id burst now) = active_of s id.
Proof. unfold bucket_or_new, active_of. by destruct (s !! id). Qed.

Lemma active_of_insert s id id' b :
  active_of (<[id := b]> s) id' = if decide (id = id') then Bucket.active b else active_of s id'.
Proof.
  unfold active_of. case_decide; subst; [by rewrite lookup_insert_eq|by rewrite lookup_insert_ne].
Qed.

Lemma outstanding_cons p permits id :
  outstanding (p :: permits) id
  = (outstanding permits id + if decide (p = id) then 1 else 0)%Z.
Proof. unfold outstanding. rewrite filter_cons. case_decide; simpl; lia. Qed.

Lemma outstanding_nonneg permits id : (0 <= outstanding permits id)%Z.
Proof. unfold outstanding. lia. Qed.

(** The three outcomes of [acquire]. *)
Lemma acquire_for_spec s (q : request) s' r :
  acquire_for s q = (s', r) ->
  let id := req_authority q in
  let tokens := refill (bucket_or_new s id (req_burst q) (req_now q)) (req_rpm q) (req_burst q)
                  (req_now q) in
  match r with
  | Ok p =>
      p = id /\ (active_of s id < req_max q)%Z /\ SFltb tokens (f64_of_int 1) = false
      /\ s' = <[id := Bucket.mk (f64_sub tokens (f64_of_int 1)) (req_now q)
                       (wrap_u32 (active_of s id + 1))]> s
  | Err e =>
      s' = <[id := Bucket.mk tokens (req_now q) (active_of s id)]> s
      /\ ((e = LimitError.Concurrency /\ (req_max q <= active_of s id)%Z)
          \/ (e = LimitError.Rate /\ (active_of s id < req_max q)%Z
              /\ SFltb tokens (f64_of_int 1) = true))
  end.
Proof.
  unfold acquire_for, acquire. cbn zeta. cbn [Bucket.active Bucket.tokens].
  rewrite bucket_or_new_active.
  destruct (Z.leb_spec (req_max q) (active_of s (req_authority q)));
    [intros [= <- <-]; by split; [|left]|].
  destruct (SFltb _ _) eqn:Ht; intros [= <- <-]; [by split; [|right]|done].
Qed.

Lemma counted_step sp sp' : limiter_step sp sp' -> counted sp -> counted sp'.
Proof.
  intros [s s' permits q p [_ [_ Hmax]] Hq|s s' permits q e _ Hq|s permits p permits' Hp] Hc id;
    simpl.
  - apply acquire_for_spec in Hq as (-> & Hlt & _ & ->). rewrite active_of_insert, outstanding_cons.
    destruct (Hc id) as [Ha Hb], (Hc (req_authority q)) as [Ha' _]. simpl in *.
    pose proof (outstanding_nonneg permits (req_authority q)).
    case_decide; subst; simpl; [|lia]. unfold wrap_u32. rewrite Z.mod_small; lia.
  - apply acquire_for_spec in Hq as [-> _]. rewrite active_of_insert. case_decide; subst; apply Hc.
  - assert (Ho : forall i, outstanding permits i
        = (outstanding permits' i + if decide (p = i) then 1 else 0)%Z).
    { intros i. rewrite <- outstanding_cons. unfold outstanding. by rewrite Hp. }
    destruct (Hc id) as [Ha Hb]. simpl in Ha, Hb. rewrite (Ho id) in Ha, Hb.
    pose proof (outstanding_nonneg permits' id). unfold drop_permit.
    destruct (s !! p) as [b|] eqn:Hs.
    + rewrite active_of_insert. case_decide; subst; simpl; [|lia].
      unfold active_of in Ha. rewrite Hs in Ha. lia.
    + case_decide; subst; [|lia]. unfold active_of in Ha. rewrite Hs in Ha. lia.
Qed.

Lemma reachable_counted sp : reachable sp -> counted sp.
Proof.
  intros H. apply (rtc_ind_r counted (∅, [])) in H; [done| |].
  - intros id. by unfold active_of, outstanding.
  - intros y z _ Hstep Hc. by apply (counted_step y).
Qed.

(** Dropping a permit gives back exactly one. *)
Lemma dropped_counter s permits p :
  counted (s, permits) -> p ∈ permits ->
  active_of (drop_permit s p) p = (outstanding permits p - 1)%Z.
Proof.
  intros Hc (permits' & Hp)%elem_of_Permutation.
  assert (Hc' : counted (drop_permit s p, permits')).
  { eapply counted_step; [|exact Hc]. by constructor. }
  destruct (Hc' p) as [Ha _]. simpl in Ha. rewrite Ha. unfold outstanding at 2. rewrite Hp.
  change (outstanding permits' p = outstanding (p :: permits') p - 1)%Z.
  rewrite outstanding_cons, decide_True by done. lia.
Qed.

(** ** Runs as sequences of events *)

Inductive event : Type :=
| Acquire (q : request)
| Release (id : string).

Definition event_authority (e : event) : string :=
  match e with Acquire q => req_authority q | Release id => id end.

Definition handle (s : LimiterState) (e : event) : LimiterState :=
  match e with Acquire q => (acquire_for s q).1 | Release id => drop_permit s id end.

Definition run (s : LimiterState) (es : list event) : LimiterState := foldl handle s es.

(** What an event does to a bucket depends on that bucket alone. *)
Lemma acquire_own_bucket s t id rpm burst maxc now :
  s !! id = t !! id ->
  (acquire s id rpm burst maxc now).2 = (acquire t id rpm burst maxc now).2
  /\ (acquire s id rpm burst maxc now).1 !! id = (acquire t id rpm burst maxc now).1 !! id.
Proof.
  intros Heq. unfold acquire, bucket_or_new. rewrite Heq. cbn zeta.
  destruct (_ <=? _)%Z; [|destruct (SFltb _ _)]; cbn [fst snd];
    (split; [done|by rewrite !lookup_insert_eq]).
Qed.

Lemma handle_own s t e :
  s !! event_authority e = t !! event_authority e ->
  handle s e !! event_authority e = handle t e !! event_authority e.
Proof.
  destruct e as [q|id]; simpl; intros Heq; [by apply acquire_own_bucket|].
  unfold drop_permit. rewrite Heq. destruct (t !! id) eqn:Ht;
    [by rewrite !lookup_insert_eq|congruence].
Qed.

Lemma handle_other s e id : event_authority e <> id -> handle s e !! id = s !! id.
Proof.
  destruct e as [q|id']; simpl; intros Hne.
  - unfold acquire_for, acquire. cbn zeta.
    destruct (_ <=? _)%Z; [|destruct (SFltb _ _)]; cbn [fst]; by rewrite lookup_insert_ne.
  - unfold drop_permit. case_match; [by rewrite lookup_insert_ne|done].
Qed.

Lemma run_own s t es id :
  s !! id = t !! id ->
  run s es !! id = run t (filter (fun e => event_authority e = id) es) !! id.
Proof.
  revert s t. induction es as [|e es IH]; intros s t Heq; [done|]. rewrite filter_cons.
  case_decide as He; simpl; apply IH.
  - rewrite <- He in *. by apply handle_own.
  - by rewrite handle_other.
Qed.

(** ** Theorems *)

(** In every reachable state of the limiter the counter of an authority is
    exactly the number of its permits that have been issued and not dropped.  A
    request is refused for concurrency exactly when that number has reached its
    limit, and an admitted one leaves at most the limit running: the 32-bit
    counter neither wraps nor saturates, and [Unavailable] is never returned. *)
Theorem limiter_counts_running_requests s permits (q : request) :
  reachable (s, permits) -> limits_u32 q ->
  let id := req_authority q in
  active_of s id = outstanding permits id
  /\ ((acquire_for s q).2 = Err LimitError.Concurrency <-> (req_max q <= outstanding permits id)%Z)
  /\ (acquire_for s q).2 <> Err LimitError.Unavailable
  /\ (forall p, (acquire_for s q).2 = Ok p ->
      p = id /\ (outstanding (p :: permits) id <= req_max q)%Z
      /\ active_of (acquire_for s q).1 id = outstanding (p :: permits) id)
  /\ (forall p, p ∈ permits ->
      active_of (drop_permit s p) p = (outstanding permits p - 1)%Z).
Proof.
  intros Hr Hq id. pose proof (reachable_counted _ Hr) as Hc. destruct (Hc id) as [Ha Hb].
  simpl in Ha, Hb. split; [done|].
  destruct (acquire_for s q) as [s' [p|e]] eqn:Hacq; pose proof (acquire_for_spec _ _ _ _ Hacq) as Hs;
    fold id in Hs; simpl in Hs |- *; rewrite Ha in Hs.
  - destruct Hs as (-> & Hlt & _ & Hs').
    assert (Hc' : counted (s', id :: permits)).
    { eapply counted_step; [|exact Hc]. by eapply step_admit. }
    split_and!; [split; [done|lia]|done| |intros p Hp; by apply dropped_counter].
    intros p [= <-]. split; [done|]. split; [|by apply (Hc' id)].
    rewrite outstanding_cons, decide_True by done. lia.
  - destruct Hs as (_ & [[-> Hle]|(-> & Hlt & _)]);
      (split_and!; [split; [done|]|done|done|intros p Hp; by apply dropped_counter]);
      [done|lia].
Qed.

(** Authorities do not affect each other.  After any sequence of requests
    and releases, the bucket of an authority is what its own requests and
    releases alone would have made it, and so is the outcome of its next
    request. *)
Theorem limiter_isolates_authorities s es (q : request) :
  let own := filter (fun e => event_authority e = req_authority q) es in
  run s es !! req_authority q = run s own !! req_authority q
  /\ (acquire_for (run s es) q).2 = (acquire_for (run s own) q).2.
Proof.
  intros own. assert (H : run s es !! req_authority q = run s own !! req_authority q)
    by (by apply run_own). split; [done|]. by apply acquire_own_bucket.
Qed.

(** ** A concrete run: the limits of the repository's own test *)

Definition tenant (id : string) (now : Z) : request :=
  {| req_authority := id; req_rpm := 1; req_burst := 2; req_max := 1; req_now := now |}.

(** One admitted request of a tenant. *)
Definition first_admitted : LimiterState := (acquire_for ∅ (tenant "tenant-a" 0)).1.

Lemma limiter_counts_running_requests_witness :
  (acquire_for first_admitted (tenant "tenant-a" 1)).2 = Err LimitError.Concurrency
  /\ active_of first_admitted "tenant-a" = 1%Z.
Proof.
  assert (Hr : reachable (first_admitted, ["tenant-a"])).
  { apply rtc_once. apply (step_admit ∅ first_admitted [] (tenant "tenant-a" 0) "tenant-a").
    - unfold limits_u32. simpl. lia.
    - vm_compute. reflexivity. }
  assert (Hq : limits_u32 (tenant "tenant-a" 1)) by (unfold limits_u32; simpl; lia).
  destruct (limiter_counts_running_requests _ _ _ Hr Hq) as (Ha & Hc & _).
  split; [apply Hc; vm_compute; discriminate|exact Ha].
Defined.

(** The sequence of [limits_rate_and_concurrency_per_authority]. *)
Example second_burst_token_is_the_last :
  let s1 := drop_permit first_admitted "tenant-a" in
  let '(s2, second) := acquire_for s1 (tenant "tenant-a" 2) in
  let '(_, third) := acquire_for (drop_permit s2 "tenant-a") (tenant "tenant-a" 3) in
  second = Ok "tenant-a" /\ third = Err LimitError.Rate.
Proof. vm_compute. split; reflexivity. Qed.
