(* ===== verification/PublishedModel.v ===== *)
(** * Loading published semantic models ([published_model.rs])

    A published revision is read in one read-only transaction: a row for the
    revision, then rows for models, fields, metrics, relationships and write
    policies, from which the snapshot is rebuilt and checked against the hash
    stored with the revision.  The deserialisers of serde_json are the class
    [ModelParsers]. *)

From S2P Require Import Prelude Ordered Text Json Lsq Semantic Compiler Lsm Mutation Effects.
From S2P Require Import Database.

Module PublishedModelError.
Inductive PublishedModelError : Type :=
| MissingConnectionUrl (variable : string)
| InvalidConnectionUrl (variable : string)
| Connect (variable : string) (source : ConnectError)
| StartTransaction (source : db_error)
| Query (operation : string) (source : db_error)
| ProjectNotFound (project : string)
| UnsupportedSchemaVersion (version : string)
| UnsupportedSourceDatabase (database : string)
| UnknownModel
| UnsupportedLogicalType (model field value : string)
| UnsupportedFieldKind (model field value : string)
| MissingFieldColumn (model field : string)
| UnsupportedFieldExpression (model field : string)
| InvalidFieldRelationship (model field : string)
| InvalidMetricExpression (model metric source : string)
| UnsupportedMetricExpressionVersion (model metric version : string)
| InvalidMetricFilter (model metric source : string)
| UnsupportedAdditivity (model metric value : string)
| InvalidAggregationAnchor (model metric : string)
| UnsupportedCardinality (model relationship value : string)
| UnsupportedJoinType (model relationship value : string)
| UnsupportedRelationshipOptions (model relationship : string)
| InvalidRelationshipColumns (model relationship : string)
| InvalidWritableMetadata
| HashMismatch (expected actual : string)
| HashCalculation (source : string)
| Commit (source : db_error).
End PublishedModelError.
Abbreviation PublishedModelError := PublishedModelError.PublishedModelError.

Module PublishedModel.
Record PublishedModel : Type := mk {
  project : string;
  revision_id : string;
  snapshot : SemanticSnapshot;
}.
End PublishedModel.
Abbreviation PublishedModel := PublishedModel.PublishedModel.

Module PublishedMutationModel.
Record PublishedMutationModel : Type := mk {
  published : PublishedModel;
  capabilities : MutationCapabilities;
}.
End PublishedMutationModel.
Abbreviation PublishedMutationModel := PublishedMutationModel.PublishedMutationModel.

(** The expression of a metric; its [kind] has one value, [aggregation]. *)
Module AggregationExpression.
Inductive Kind : Type := Aggregation.
Record AggregationExpression : Type := mk {
  version : string;
  kind : Kind;
  aggregation : Semantic.Aggregation;
  field : string;
}.
End AggregationExpression.
Abbreviation AggregationExpression := AggregationExpression.AggregationExpression.

(** serde_json's typed deserialisers. *)
Class ModelParsers := {
  expression_from_str : string -> result string AggregationExpression;
  filter_from_str : string -> result string MetricFilter;
}.

(** [BTreeMap<String, Model>], keyed by model id. *)
Definition Models : Type := list (string * Model).

(** ** Values of columns *)

Definition parse_data_type (value model field : string) : result PublishedModelError DataType :=
  if decide (value = "boolean") then Ok DataType.Boolean
  else if decide (value = "integer") then Ok DataType.Integer
  else if decide (value = "numeric") then Ok DataType.Numeric
  else if decide (value = "text") then Ok DataType.Text
  else if decide (value = "date") then Ok DataType.Date
  else if decide (value = "timestamp") then Ok DataType.Timestamp
  else if decide (value = "timestamp_tz") then Ok DataType.TimestampTz
  else Err (PublishedModelError.UnsupportedLogicalType model field value).

(** The flags [(time_dimension, entity_key)]. *)
Definition parse_field_kind (value model field : string)
    : result PublishedModelError (bool * bool) :=
  if decide (value = "dimension") then Ok (false, false)
  else if decide (value = "entity_key") then Ok (false, true)
  else if decide (value = "time_dimension") then Ok (true, false)
  else Err (PublishedModelError.UnsupportedFieldKind model field value).

Definition parse_additivity (value model metric : string)
    : result PublishedModelError Additivity :=
  if decide (value = "additive") then Ok Additivity.Additive
  else if decide (value = "semi_additive") then Ok Additivity.SemiAdditive
  else if decide (value = "non_additive") then Ok Additivity.NonAdditive
  else Err (PublishedModelError.UnsupportedAdditivity model metric value).

Definition parse_cardinality (value model relationship : string)
    : result PublishedModelError Cardinality :=
  if decide (value = "one_to_one") then Ok Cardinality.OneToOne
  else if decide (value = "many_to_one") then Ok Cardinality.ManyToOne
  else if decide (value = "one_to_many") then Ok Cardinality.OneToMany
  else if decide (value = "many_to_many") then Ok Cardinality.ManyToMany
  else Err (PublishedModelError.UnsupportedCardinality model relationship value).

Definition parse_join_type (value model relationship : string)
    : result PublishedModelError JoinType :=
  if decide (value = "inner") then Ok JoinType.Inner
  else if decide (value = "left") then Ok JoinType.Left
  else Err (PublishedModelError.UnsupportedJoinType model relationship value).

Definition parse_field_relationship (row : FieldRow.t) (model_id model field : string)
    : result PublishedModelError (option string) :=
  match FieldRow.source_relationship_id row with
  | Some _ =>
      fail_if (bool_decide (FieldRow.relationship_from_model_id row <> Some model_id))
        (PublishedModelError.InvalidFieldRelationship model field);;
      name ← ok_or (FieldRow.declared_relationship_name row)
               (PublishedModelError.InvalidFieldRelationship model field);
      Ok (Some name)
  | None => Ok None
  end.

Section parsers.
Context `{ModelParsers}.

Definition parse_metric_expression (value model metric : string)
    : result PublishedModelError AggregationExpression :=
  expression ← map_err (PublishedModelError.InvalidMetricExpression model metric)
                 (expression_from_str value);
  fail_if (bool_decide (AggregationExpression.version expression <> "1"))
    (PublishedModelError.UnsupportedMetricExpressionVersion model metric
       (AggregationExpression.version expression));;
  Ok expression.

Definition parse_metric_filter (value model metric : string)
    : result PublishedModelError MetricFilter :=
  map_err (PublishedModelError.InvalidMetricFilter model metric) (filter_from_str value).
End parsers.

(** ** Rows to models *)

Definition load_model (models : Models) (row : ModelRow.t) : result PublishedModelError Models :=
  fail_if (bool_decide (ModelRow.source_database row <> ModelRow.current_database row))
    (PublishedModelError.UnsupportedSourceDatabase (ModelRow.source_database row));;
  Ok (bt_insert (ModelRow.model_id row)
        {| Model.semantic_name := ModelRow.semantic_name row;
           Model.source := {| Relation.schema := ModelRow.source_schema row;
                              Relation.relation := ModelRow.source_relation row |};
           Model.timezone := ModelRow.default_timezone row;
           Model.queryable := ModelRow.queryable row;
           Model.writable := None;
           Model.fields := [];
           Model.metrics := [];
           Model.relationships := [] |} models).

Definition load_models (rows : list ModelRow.t) : result PublishedModelError Models :=
  try_fold load_model [] rows.

Definition push_field (field : Field) (m : Model) : Model :=
  Model.mk (Model.semantic_name m) (Model.source m) (Model.timezone m) (Model.queryable m)
    (Model.writable m) (Model.fields m ++ [field]) (Model.metrics m) (Model.relationships m).

Definition push_metric (metric : Metric) (m : Model) : Model :=
  Model.mk (Model.semantic_name m) (Model.source m) (Model.timezone m) (Model.queryable m)
    (Model.writable m) (Model.fields m) (Model.metrics m ++ [metric]) (Model.relationships m).

Definition push_relationship (relationship : Relationship) (m : Model) : Model :=
  Model.mk (Model.semantic_name m) (Model.source m) (Model.timezone m) (Model.queryable m)
    (Model.writable m) (Model.fields m) (Model.metrics m)
    (Model.relationships m ++ [relationship]).

Definition set_writable (writable : WritableModel) (m : Model) : Model :=
  Model.mk (Model.semantic_name m) (Model.source m) (Model.timezone m) (Model.queryable m)
    (Some writable) (Model.fields m) (Model.metrics m) (Model.relationships m).

(** The field a row describes, for the model it belongs to. *)
Definition field_of_row (model : Model) (row : FieldRow.t) : result PublishedModelError Field :=
  let name := Model.semantic_name model in
  let field := FieldRow.semantic_name row in
  fail_if (bool_decide (is_Some (FieldRow.expression row)))
    (PublishedModelError.UnsupportedFieldExpression name field);;
  column ← ok_or (FieldRow.source_column row) (PublishedModelError.MissingFieldColumn name field);
  relationship ← parse_field_relationship row (FieldRow.model_id row) name field;
  '(time_dimension, entity_key) ← parse_field_kind (FieldRow.field_kind row) name field;
  data_type ← parse_data_type (FieldRow.logical_type row) name field;
  Ok {| Field.semantic_name := field;
        Field.data_type := data_type;
        Field.column := column;
        Field.relationship := relationship;
        Field.time_dimension := time_dimension;
        Field.entity_key := entity_key;
        Field.visible := negb (FieldRow.hidden row);
        Field.nullable := FieldRow.nullable row |}.

Definition load_field (models : Models) (row : FieldRow.t) : result PublishedModelError Models :=
  model ← ok_or (bt_get (FieldRow.model_id row) models) PublishedModelError.UnknownModel;
  field ← field_of_row model row;
  Ok (bt_insert (FieldRow.model_id row) (push_field field model) models).

Definition load_fields (rows : list FieldRow.t) (models : Models)
    : result PublishedModelError Models :=
  try_fold load_field models rows.

Section metrics.
Context `{ModelParsers}.

(** The metric a row describes under a schema version. *)
Definition metric_of_row (schema_version : string) (model : Model) (row : MetricRow.t)
    : result PublishedModelError Metric :=
  let name := Model.semantic_name model in
  let metric := MetricRow.semantic_name row in
  expression ← parse_metric_expression (MetricRow.expression row) name metric;
  filter ← transpose (fun value => parse_metric_filter value name metric)
             (MetricRow.metric_filter row);
  additivity ← (if decide (schema_version = "2")
                then Some <$> parse_additivity (MetricRow.additivity row) name metric
                else Ok None);
  fail_if (bool_decide (schema_version = "1")
           && bool_decide (is_Some (MetricRow.aggregation_anchor row)))
    (PublishedModelError.InvalidAggregationAnchor name metric);;
  data_type ← parse_data_type (MetricRow.result_type row) name metric;
  Ok {| Metric.semantic_name := metric;
        Metric.data_type := data_type;
        Metric.aggregation := AggregationExpression.aggregation expression;
        Metric.field := AggregationExpression.field expression;
        Metric.filter := filter;
        Metric.additivity := additivity;
        Metric.aggregation_anchor := MetricRow.aggregation_anchor row;
        Metric.visible := negb (MetricRow.hidden row) |}.

Definition load_metric (schema_version : string) (models : Models) (row : MetricRow.t)
    : result PublishedModelError Models :=
  model ← ok_or (bt_get (MetricRow.model_id row) models) PublishedModelError.UnknownModel;
  metric ← metric_of_row schema_version model row;
  Ok (bt_insert (MetricRow.model_id row) (push_metric metric model) models).

Definition load_metrics (rows : list MetricRow.t) (models : Models) (schema_version : string)
    : result PublishedModelError Models :=
  try_fold (load_metric schema_version) models rows.
End metrics.

(** The relationship a row describes; [repeated] tells whether the previous
    row described the same one. *)
Definition relationship_of_row (repeated : bool) (model : Model) (row : RelationshipRow.t)
    : result PublishedModelError Relationship :=
  let name := Model.semantic_name model in
  let relationship := RelationshipRow.semantic_name row in
  let invalid := PublishedModelError.InvalidRelationshipColumns name relationship in
  fail_if (repeated || bool_decide (RelationshipRow.ordinal row <> Some 1%Z)
           || bool_decide (RelationshipRow.from_column row = None)
           || bool_decide (RelationshipRow.to_column row = None)) invalid;;
  fail_if (bool_decide (RelationshipRow.allowed_direction row <> "forward")
           || bool_decide (RelationshipRow.priority row <> 0%Z))
    (PublishedModelError.UnsupportedRelationshipOptions name relationship);;
  cardinality ← parse_cardinality (RelationshipRow.cardinality row) name relationship;
  join_type ← parse_join_type (RelationshipRow.join_type row) name relationship;
  from_column ← ok_or (RelationshipRow.from_column row) invalid;
  to_column ← ok_or (RelationshipRow.to_column row) invalid;
  Ok {| Relationship.semantic_name := relationship;
        Relationship.target_model := RelationshipRow.target_model row;
        Relationship.target := {| Relation.schema := RelationshipRow.target_schema row;
                                  Relation.relation := RelationshipRow.target_relation row |};
        Relationship.cardinality := cardinality;
        Relationship.join_type := join_type;
        Relationship.from_column := from_column;
        Relationship.to_column := to_column |}.

(** The loop's state is [(previous_key, models)]. *)
Definition load_relationship (st : option (string * string) * Models) (row : RelationshipRow.t)
    : result PublishedModelError (option (string * string) * Models) :=
  let '(previous_key, models) := st in
  let model_id := RelationshipRow.from_model_id row in
  model ← ok_or (bt_get model_id models) PublishedModelError.UnknownModel;
  let key := (model_id, RelationshipRow.semantic_name row) in
  relationship ← relationship_of_row (bool_decide (previous_key = Some key)) model row;
  Ok (Some key, bt_insert model_id (push_relationship relationship model) models).

Definition load_relationships (rows : list RelationshipRow.t) (models : Models)
    : result PublishedModelError Models :=
  snd <$> try_fold load_relationship (None, models) rows.

(** ** Write policies *)

Module LoadedWritable.
Record LoadedWritable : Type := mk {
  policy : WritableModel;
  conflict_fields : list (Z * string);
  returning : list (Z * string);
}.
End LoadedWritable.
Abbreviation LoadedWritable := LoadedWritable.LoadedWritable.

(** [u32::try_from] of an [i32]. *)
Definition u32_try_from (z : Z) : result PublishedModelError N :=
  fail_if (bool_decide (z < 0)%Z) PublishedModelError.InvalidWritableMetadata;;
  Ok (Z.to_N z).

Definition load_writable_model (models : Models) (writable : list (string * LoadedWritable))
    (row : MutationModelRow.t) : result PublishedModelError (list (string * LoadedWritable)) :=
  let model_id := MutationModelRow.model_id row in
  fail_if (negb (bt_contains model_id models) || bt_contains model_id writable)
    PublishedModelError.InvalidWritableMetadata;;
  max_rows ← u32_try_from (MutationModelRow.max_rows row);
  max_request_bytes ← u32_try_from (MutationModelRow.max_request_bytes row);
  Ok (bt_insert model_id
        {| LoadedWritable.policy :=
             {| WritableModel.insert := MutationModelRow.insert_enabled row;
                WritableModel.upsert :=
                  if MutationModelRow.upsert_enabled row
                  then Some {| UpsertPolicy.conflict_fields := [] |} else None;
                WritableModel.max_rows := max_rows;
                WritableModel.max_request_bytes := max_request_bytes;
                WritableModel.fields := [];
                WritableModel.returning := [] |};
           LoadedWritable.conflict_fields := [];
           LoadedWritable.returning := [] |} writable).

Definition push_writable_field (field : WritableField) (w : WritableModel) : WritableModel :=
  WritableModel.mk (WritableModel.insert w) (WritableModel.upsert w) (WritableModel.max_rows w)
    (WritableModel.max_request_bytes w) (WritableModel.fields w ++ [field])
    (WritableModel.returning w).

(** [if let Some(ordinal) = row.get(..) { l.push((ordinal, field)) }]. *)
Definition push_ordinal (ordinal : option Z) (field : string) (l : list (Z * string))
    : list (Z * string) :=
  match ordinal with Some ordinal => l ++ [(ordinal, field)] | None => l end.

Definition load_writable_field (models : Models) (writable : list (string * LoadedWritable))
    (row : MutationFieldRow.t) : result PublishedModelError (list (string * LoadedWritable)) :=
  let model_id := MutationFieldRow.model_id row in
  let field := MutationFieldRow.semantic_name row in
  loaded ← ok_or (bt_get model_id writable) PublishedModelError.InvalidWritableMetadata;
  policy ←
    (if MutationFieldRow.insertable row then
       model_field ← ok_or (model ← bt_get model_id models;
                            List.find (fun f => bool_decide (Field.semantic_name f = field))
                              (Model.fields model))
                       PublishedModelError.InvalidWritableMetadata;
       Ok (push_writable_field
             {| WritableField.field := field;
                WritableField.nullable := Field.nullable model_field;
                WritableField.required_on_insert := MutationFieldRow.required_on_insert row;
                WritableField.updatable_on_conflict :=
                  MutationFieldRow.updatable_on_conflict row |}
             (LoadedWritable.policy loaded))
     else Ok (LoadedWritable.policy loaded));
  Ok (bt_insert model_id
        {| LoadedWritable.policy := policy;
           LoadedWritable.conflict_fields :=
             push_ordinal (MutationFieldRow.conflict_key_ordinal row) field
               (LoadedWritable.conflict_fields loaded);
           LoadedWritable.returning :=
             push_ordinal (MutationFieldRow.returning_ordinal row) field
               (LoadedWritable.returning loaded) |} writable).

(** Names in the order of their ordinals. *)
Definition by_ordinal (l : list (Z * string)) : list string :=
  map snd (sort_by_key fst l).

(** The policy that is installed on the model. *)
Definition finish_writable (loaded : LoadedWritable) : result PublishedModelError WritableModel :=
  let policy := LoadedWritable.policy loaded in
  upsert ←
    match WritableModel.upsert policy with
    | Some _ =>
        Ok (Some {| UpsertPolicy.conflict_fields :=
                      by_ordinal (LoadedWritable.conflict_fields loaded) |})
    | None =>
        fail_if (bool_decide (LoadedWritable.conflict_fields loaded <> []))
          PublishedModelError.InvalidWritableMetadata;;
        Ok None
    end;
  Ok {| WritableModel.insert := WritableModel.insert policy;
        WritableModel.upsert := upsert;
        WritableModel.max_rows := WritableModel.max_rows policy;
        WritableModel.max_request_bytes := WritableModel.max_request_bytes policy;
        WritableModel.fields := WritableModel.fields policy;
        WritableModel.returning := by_ordinal (LoadedWritable.returning loaded) |}.

Definition install_writable (models : Models) (entry : string * LoadedWritable)
    : result PublishedModelError Models :=
  let '(model_id, loaded) := entry in
  policy ← finish_writable loaded;
  model ← ok_or (bt_get model_id models) PublishedModelError.InvalidWritableMetadata;
  Ok (bt_insert model_id (set_writable policy model) models).

Definition load_writable_models (model_rows : list MutationModelRow.t)
    (field_rows : list MutationFieldRow.t) (models : Models)
    : result PublishedModelError Models :=
  writable ← try_fold (load_writable_model models) [] model_rows;
  writable ← try_fold (load_writable_field models) writable field_rows;
  try_fold install_writable models writable.

(** ** The transaction *)

Definition verify_hash `{Crates} (snapshot : SemanticSnapshot) (expected : string)
    : result PublishedModelError unit :=
  actual ← map_err PublishedModelError.HashCalculation (calculate_revision_hash snapshot);
  fail_if (bool_decide (actual <> expected)) (PublishedModelError.HashMismatch expected actual).

Section load.
Context `{Crates, ModelParsers, Driver}.

Abbreviation query_error := PublishedModelError.Query.

Definition load_metric_rows (c : connection) (schema_version revision_id : string)
    : io_result PublishedModelError (list MetricRow.t) :=
  available ←? attempt (query_error "aggregation anchor schema availability")
                 (call (QueryOne c AGGREGATION_ANCHOR_SCHEMA_AVAILABLE_SQL));
  lift (fail_if (bool_decide (schema_version = "2") && negb available)
          (PublishedModelError.UnsupportedSchemaVersion schema_version)) ;;?
  if available : bool
  then attempt (query_error "metrics") (call (Query c (METRICS_SQL revision_id)))
  else attempt (query_error "metrics") (call (Query c (LEGACY_METRICS_SQL revision_id))).

(** Write policies, and the models a database role may write. *)
Definition load_mutation_metadata (c : connection) (revision_id : string)
    (database_role : option string) (models : Models)
    : io_result PublishedModelError (Models * list string) :=
  available ←? attempt (query_error "mutation schema availability")
                 (call (QueryOne c MUTATION_SCHEMA_AVAILABLE_SQL));
  models ←?
    (if available : bool then
       model_rows ←? attempt (query_error "mutation models")
                       (call (Query c (MUTATION_MODELS_SQL revision_id)));
       field_rows ←? attempt (query_error "mutation fields")
                       (call (Query c (MUTATION_FIELDS_SQL revision_id)));
       lift (load_writable_models model_rows field_rows models)
     else Ret (Ok models));
  match available : bool, database_role with
  | true, Some database_role =>
      names ←? attempt (query_error "mutation capabilities")
                 (call (Query c (MUTATION_CAPABILITIES_SQL revision_id database_role)));
      Ret (Ok (models, bs_from_list names))
  | _, _ => Ret (Ok (models, []))
  end.

(** The body of the transaction up to its commit. *)
Definition read_published (c : connection) (project : string) (database_role : option string)
    : io_result PublishedModelError (PublishedModel * list string) :=
  revision ←? attempt (query_error "revision") (call (QueryOpt c (REVISION_SQL project)));
  revision ←? lift (ok_or revision (PublishedModelError.ProjectNotFound project));
  let revision_id := RevisionRow.revision_id revision in
  let schema_version := RevisionRow.schema_version revision in
  let expected_hash := RevisionRow.canonical_hash revision in
  lift (fail_if (negb (bool_decide (schema_version = "1") || bool_decide (schema_version = "2")))
          (PublishedModelError.UnsupportedSchemaVersion schema_version)) ;;?
  model_rows ←? attempt (query_error "models") (call (Query c (MODELS_SQL revision_id)));
  models ←? lift (load_models model_rows);
  field_rows ←? attempt (query_error "fields") (call (Query c (FIELDS_SQL revision_id)));
  models ←? lift (load_fields field_rows models);
  metric_rows ←? load_metric_rows c schema_version revision_id;
  models ←? lift (load_metrics metric_rows models schema_version);
  relationship_rows ←? attempt (query_error "relationships")
                         (call (Query c (RELATIONSHIPS_SQL revision_id)));
  models ←? lift (load_relationships relationship_rows models);
  '(models, writable_models) ←? load_mutation_metadata c revision_id database_role models;
  let snapshot := normalized {| Snapshot.schema_version := schema_version;
                                Snapshot.revision_hash := expected_hash;
                                Snapshot.models := map snd models |} in
  lift (verify_hash snapshot expected_hash) ;;?
  Ret (Ok ({| PublishedModel.project := project;
              PublishedModel.revision_id := revision_id;
              PublishedModel.snapshot := snapshot |}, writable_models)).

Definition load_published_internal (c : connection) (project : string)
    (database_role : option string)
    : io_result PublishedModelError (PublishedModel * list string) :=
  attempt PublishedModelError.StartTransaction
    (call (Begin c (Some RepeatableRead) true)) ;;?
  loaded ←? or_rollback c (read_published c project database_role);
  attempt PublishedModelError.Commit (call (Commit c)) ;;?
  Ret (Ok loaded).

Definition load_published (c : connection) (project : string)
    : io_result PublishedModelError PublishedModel :=
  loaded ←? load_published_internal c project None;
  Ret (Ok loaded.1).

Definition load_published_for_mutation (c : connection) (project database_role : string)
    : io_result PublishedModelError PublishedMutationModel :=
  '(published, writable_models) ←? load_published_internal c project (Some database_role);
  Ret (Ok {| PublishedMutationModel.published := published;
             PublishedMutationModel.capabilities :=
               {| MutationCapabilities.profile := "database-role:" +:+ database_role;
                  MutationCapabilities.writable_models := writable_models |} |}).

Definition load_published_from_env (var : environment)
    (variable project : string) : io_result PublishedModelError PublishedModel :=
  database_url ←? lift (map_err (fun error => match error with
                        | NotPresent => PublishedModelError.MissingConnectionUrl variable
                        | NotUnicode => PublishedModelError.InvalidConnectionUrl variable
                        end) (var variable));
  attempt (PublishedModelError.Connect variable) (connect Source database_url None) ;;?
  load_published Source project.

Definition load_from_env (var : environment) (variable project : string)
    : io_result PublishedModelError SemanticSnapshot :=
  published ←? load_published_from_env var variable project;
  Ret (Ok (PublishedModel.snapshot published)).
End load.
