(* ===== verification/PublishedModelSpec.v ===== *)
(** * What loading a published model guarantees

    What a row stores about a field, a metric, a relationship or a write policy,
    and how the loops of the loader distribute rows over models.

    The second part is about the rows of write policies. *)

From S2P Require Import SemanticSpec Prelude Ordered Text Json Lsq Semantic Compiler Lsm.
From S2P Require Import Mutation Effects Database PublishedModel.

(** ** Effects *)

Section calm.
Context `{Crates, ModelParsers}.
Context {M : Type} {allowed : M -> operation -> Prop}
  {observe : M -> forall op, answer op -> M} `{HCalm : !Calm allowed observe}.

(** Inside its transaction the loader only reads. *)
Lemma read_published_quiet project database_role m :
  quiet allowed observe (read_published Source project database_role) m.
Proof.
  unfold read_published, load_metric_rows, load_mutation_metadata.
  quiet; first [by apply calm_allowed | intros ?; by apply calm_observe].
Qed.
End calm.

#[export] Hint Resolve read_published_quiet : quiet.

(** ** Names of enumerations *)

(** Columns hold the names that serialisation uses. *)
Ltac parsed_name value :=
  unfold value; repeat case_decide; subst; intros [= <-]; done.

Lemma parse_data_type_name value model field t :
  parse_data_type value model field = Ok t -> DataType.to_json t = JStr value.
Proof. parsed_name parse_data_type. Qed.

Lemma parse_additivity_name value model metric a :
  parse_additivity value model metric = Ok a -> Additivity.to_json a = JStr value.
Proof. parsed_name parse_additivity. Qed.

Lemma parse_cardinality_name value model relationship c :
  parse_cardinality value model relationship = Ok c -> Cardinality.to_json c = JStr value.
Proof. parsed_name parse_cardinality. Qed.

Lemma parse_join_type_name value model relationship j :
  parse_join_type value model relationship = Ok j -> JoinType.to_json j = JStr value.
Proof. parsed_name parse_join_type. Qed.

(** ** What a row stores *)

Definition kind_name (f : Field) : string :=
  if Field.time_dimension f then "time_dimension"
  else if Field.entity_key f then "entity_key" else "dimension".

(** A field is declared over a relationship of its own model, or over none. *)
Definition relationship_stored_in (row : FieldRow.t) (f : Field) : Prop :=
  match FieldRow.source_relationship_id row with
  | Some _ =>
      FieldRow.relationship_from_model_id row = Some (FieldRow.model_id row)
      /\ is_Some (Field.relationship f)
      /\ FieldRow.declared_relationship_name row = Field.relationship f
  | None => Field.relationship f = None
  end.

Record field_stored (row : FieldRow.t) (f : Field) : Prop := {
  fs_name : FieldRow.semantic_name row = Field.semantic_name f;
  fs_plain : FieldRow.expression row = None;
  fs_column : FieldRow.source_column row = Some (Field.column f);
  fs_kind : FieldRow.field_kind row = kind_name f;
  fs_type : DataType.to_json (Field.data_type f) = JStr (FieldRow.logical_type row);
  fs_relationship : relationship_stored_in row f;
  fs_visible : Field.visible f = negb (FieldRow.hidden row);
  fs_nullable : Field.nullable f = FieldRow.nullable row;
}.

Lemma field_of_row_stored model row f :
  field_of_row model row = Ok f -> field_stored row f.
Proof.
  unfold field_of_row, parse_field_relationship, parse_field_kind. intros Hf. unbind.
  constructor; simpl; try done.
  - by apply eq_None_not_Some.
  - unfold kind_name. simpl. repeat case_decide; simplify_eq; done.
  - by eapply parse_data_type_name.
  - unfold relationship_stored_in. simpl.
    destruct (FieldRow.source_relationship_id row); unbind; [|done].
    split_and!; [by apply dec_stable|by eexists|done].
Qed.

Section metrics.
Context `{ModelParsers}.

(** Additivity and anchors exist in version 2 only. *)
Record metric_stored (version : string) (row : MetricRow.t) (m : Metric) : Prop := {
  ms_name : MetricRow.semantic_name row = Metric.semantic_name m;
  ms_type : DataType.to_json (Metric.data_type m) = JStr (MetricRow.result_type row);
  ms_expression :
    exists kind, expression_from_str (MetricRow.expression row)
      = Ok (AggregationExpression.mk "1" kind (Metric.aggregation m) (Metric.field m));
  ms_filter :
    match MetricRow.metric_filter row with
    | Some text => exists filter, Metric.filter m = Some filter /\ filter_from_str text = Ok filter
    | None => Metric.filter m = None
    end;
  ms_additivity :
    match Metric.additivity m with
    | Some a => version = "2" /\ Additivity.to_json a = JStr (MetricRow.additivity row)
    | None => version <> "2"
    end;
  ms_anchor : Metric.aggregation_anchor m = MetricRow.aggregation_anchor row;
  ms_anchor_version : version = "1" -> Metric.aggregation_anchor m = None;
  ms_visible : Metric.visible m = negb (MetricRow.hidden row);
}.

Lemma metric_of_row_stored version model row m :
  metric_of_row version model row = Ok m -> metric_stored version row m.
Proof.
  unfold metric_of_row, parse_metric_expression, parse_metric_filter. intros Hm. unbind.
  match goal with H : transpose _ _ = Ok _ |- _ =>
    rewrite transpose_ok in H; setoid_rewrite map_err_ok in H; rename H into Hfilter end.
  match goal with H : _ && _ = false |- _ => apply andb_false_iff in H; rename H into Hanchor end.
  rewrite !bool_decide_eq_false in Hanchor.
  match goal with H : ~ (AggregationExpression.version ?x <> _) |- _ =>
    apply dec_stable in H; destruct x; simpl in *; subst end.
  constructor; simpl; try done.
  - by eapply parse_data_type_name.
  - eauto.
  - destruct Hfilter as [[-> ->]|(text & filter & -> & -> & ?)]; eauto.
  - case_decide; unbind; [|done]. split; [done|]. by eapply parse_additivity_name.
  - intros Hv. destruct Hanchor as [?|Hn]; [done|]. by apply eq_None_not_Some.
Qed.
End metrics.

(** Relationships have one pair of columns, point forward and have no priority. *)
Record relationship_stored (row : RelationshipRow.t) (r : Relationship) : Prop := {
  rs_name : RelationshipRow.semantic_name row = Relationship.semantic_name r;
  rs_model : RelationshipRow.target_model row = Relationship.target_model r;
  rs_target : Relationship.target r
    = Relation.mk (RelationshipRow.target_schema row) (RelationshipRow.target_relation row);
  rs_cardinality :
    Cardinality.to_json (Relationship.cardinality r) = JStr (RelationshipRow.cardinality row);
  rs_join : JoinType.to_json (Relationship.join_type r) = JStr (RelationshipRow.join_type row);
  rs_ordinal : RelationshipRow.ordinal row = Some 1%Z;
  rs_from : RelationshipRow.from_column row = Some (Relationship.from_column r);
  rs_to : RelationshipRow.to_column row = Some (Relationship.to_column r);
  rs_direction : RelationshipRow.allowed_direction row = "forward";
  rs_priority : RelationshipRow.priority row = 0%Z;
}.

Lemma relationship_of_row_stored repeated model row r :
  relationship_of_row repeated model row = Ok r ->
  relationship_stored row r /\ repeated = false.
Proof.
  unfold relationship_of_row. intros Hr. unbind. split; [|done].
  constructor; simpl; try done; try (by apply dec_stable).
  - by eapply parse_cardinality_name.
  - by eapply parse_join_type_name.
Qed.

(** ** Loops that update the entry of each row *)

Section keyed_fold.
Context {E S R V X : Type} (key : R -> string) (step : S -> R -> result E S)
  (entries : S -> list (string * V)) (built : V -> R -> X -> Prop) (push : X -> V -> V).

(** The rows of one entry. *)
Definition rows_of (id : string) (rows : list R) : list R := filter (fun r => key r = id) rows.

Context (step_ok : forall s r s', step s r = Ok s' ->
    exists v x, bt_get (key r) (entries s) = Some v /\ built v r x
      /\ entries s' = bt_insert (key r) (push x v) (entries s))
  (built_push : forall v r x y, built (push x v) r y -> built v r y).

(** What the loop makes of one entry: [push] of what its own rows build, in order. *)
Definition entry_after (v v' : V) (own : list R) : Prop :=
  exists xs, Forall2 (built v) own xs /\ v' = foldl (flip push) v xs.

Lemma keyed_fold rows s s' :
  try_fold step s rows = Ok s' ->
  (bt_wf (entries s) -> bt_wf (entries s'))
  /\ forall id,
       match bt_get id (entries s) with
       | Some v => exists v', bt_get id (entries s') = Some v' /\ entry_after v v' (rows_of id rows)
       | None => bt_get id (entries s') = None /\ rows_of id rows = []
       end.
Proof using step_ok built_push.
  revert s. induction rows as [|r rows IH]; intros s; simpl.
  - intros [= ->]. split; [done|]. intros id. destruct (bt_get id (entries s')) as [v|]; [|done].
    exists v. split; [done|]. by exists [].
  - intros (s1 & (v & x & Hv & Hb & Hs1)%step_ok & Hrest)%bind_ok.
    apply IH in Hrest as [Hwf Hids]. rewrite Hs1 in Hwf, Hids. split.
    { intros ?. apply Hwf. by apply bt_insert_wf. }
    intros id. specialize (Hids id). unfold rows_of. rewrite filter_cons.
    destruct (decide (key r = id)) as [Heq|Hne]; [|by rewrite bt_get_insert_ne in Hids].
    subst id. rewrite Hv. rewrite bt_get_insert_eq in Hids.
    destruct Hids as (v' & Hv' & xs & Hxs & ->). exists (foldl (flip push) (push x v) xs).
    split; [done|]. exists (x :: xs). split; [|done]. constructor; [done|].
    eapply Forall2_impl; [exact Hxs|]. intros. by eapply built_push.
Qed.
End keyed_fold.

Arguments rows_of {R} key id rows.

(** ** Models, fields, metrics and relationships *)

Definition bare_model (row : ModelRow.t) : Model :=
  {| Model.semantic_name := ModelRow.semantic_name row;
     Model.source := Relation.mk (ModelRow.source_schema row) (ModelRow.source_relation row);
     Model.timezone := ModelRow.default_timezone row;
     Model.queryable := ModelRow.queryable row; Model.writable := None;
     Model.fields := []; Model.metrics := []; Model.relationships := [] |}.

Lemma load_model_fold rows ms ms' :
  try_fold load_model ms rows = Ok ms' ->
  (bt_wf ms -> bt_wf ms')
  /\ Forall (fun row => ModelRow.source_database row = ModelRow.current_database row) rows
  /\ forall id, bt_get id ms'
       = match last (rows_of ModelRow.model_id id rows) with
         | Some row => Some (bare_model row)
         | None => bt_get id ms
         end.
Proof.
  revert ms. induction rows as [|row rows IH]; intros ms; simpl; [by intros [= ->]|].
  intros (ms1 & Hl & Hrest)%bind_ok. unfold load_model in Hl. unbind.
  apply IH in Hrest as (Hwf & Hdb & Hget).
  split_and!; [intros ?; by apply Hwf, bt_insert_wf|constructor; [by apply dec_stable|done]|].
  intros id. rewrite Hget. unfold rows_of. rewrite filter_cons. case_decide as Heq.
  - rewrite last_cons. destruct (last _); [done|]. subst id. by rewrite bt_get_insert_eq.
  - destruct (last _); [done|]. by rewrite bt_get_insert_ne.
Qed.

Lemma load_models_ok rows ms :
  load_models rows = Ok ms ->
  bt_wf ms
  /\ Forall (fun row => ModelRow.source_database row = ModelRow.current_database row) rows
  /\ forall id, bt_get id ms = bare_model <$> last (rows_of ModelRow.model_id id rows).
Proof.
  intros (Hwf & Hdb & Hget)%load_model_fold. split_and!; [apply Hwf; constructor|done|].
  intros id. rewrite Hget. by destruct (last _).
Qed.

(** A loop that distributes rows over models: [after m m' own] says what the rows
    [own] of a model make of it. *)
Definition distributes {R} (key : R -> string) (rows : list R)
    (after : Model -> Model -> list R -> Prop) (ms ms' : Models) : Prop :=
  (bt_wf ms -> bt_wf ms')
  /\ forall id,
       match bt_get id ms with
       | Some m => exists m', bt_get id ms' = Some m' /\ after m m' (rows_of key id rows)
       | None => bt_get id ms' = None /\ rows_of key id rows = []
       end.

Lemma distributes_impl {R} (key : R -> string) rows (after after' : Model -> Model -> list R -> Prop)
    ms ms' :
  distributes key rows after ms ms' ->
  (forall m m' own, after m m' own -> after' m m' own) -> distributes key rows after' ms ms'.
Proof.
  intros [Hwf Hids] Himpl. split; [done|]. intros id. specialize (Hids id).
  destruct (bt_get id ms); naive_solver.
Qed.

(** Folds of the updates add the whole list. *)
Lemma push_fields fs m :
  foldl (flip push_field) m fs
  = Model.mk (Model.semantic_name m) (Model.source m) (Model.timezone m) (Model.queryable m)
      (Model.writable m) (Model.fields m ++ fs) (Model.metrics m) (Model.relationships m).
Proof.
  revert m. induction fs as [|f fs IH]; intros m; simpl.
  - rewrite app_nil_r. by destruct m.
  - rewrite IH. simpl. by rewrite <- app_assoc.
Qed.

Lemma push_metrics xs m :
  foldl (flip push_metric) m xs
  = Model.mk (Model.semantic_name m) (Model.source m) (Model.timezone m) (Model.queryable m)
      (Model.writable m) (Model.fields m) (Model.metrics m ++ xs) (Model.relationships m).
Proof.
  revert m. induction xs as [|x xs IH]; intros m; simpl.
  - rewrite app_nil_r. by destruct m.
  - rewrite IH. simpl. by rewrite <- app_assoc.
Qed.

Lemma push_relationships xs m :
  foldl (flip push_relationship) m xs
  = Model.mk (Model.semantic_name m) (Model.source m) (Model.timezone m) (Model.queryable m)
      (Model.writable m) (Model.fields m) (Model.metrics m) (Model.relationships m ++ xs).
Proof.
  revert m. induction xs as [|x xs IH]; intros m; simpl.
  - rewrite app_nil_r. by destruct m.
  - rewrite IH. simpl. by rewrite <- app_assoc.
Qed.

Definition fields_added (m m' : Model) (own : list FieldRow.t) : Prop :=
  exists fs, Forall2 field_stored own fs /\ m' = foldl (flip push_field) m fs.

Lemma load_fields_ok rows ms ms' :
  load_fields rows ms = Ok ms' -> distributes FieldRow.model_id rows fields_added ms ms'.
Proof.
  intros Hl. refine (keyed_fold FieldRow.model_id load_field (fun ms => ms)
    (fun _ => field_stored) push_field _ _ _ _ _ Hl); [|done].
  clear. unfold load_field. intros s r s' Hs. unbind. eexists _, _.
  split_and!; [done|by eapply field_of_row_stored|done].
Qed.

Definition relationships_added (m m' : Model) (own : list RelationshipRow.t) : Prop :=
  exists rs, Forall2 relationship_stored own rs /\ m' = foldl (flip push_relationship) m rs.

Lemma load_relationships_ok rows ms ms' :
  load_relationships rows ms = Ok ms' ->
  distributes RelationshipRow.from_model_id rows relationships_added ms ms'.
Proof.
  unfold load_relationships. intros ([previous ms1] & Hl & ->)%fmap_ok.
  refine (keyed_fold RelationshipRow.from_model_id load_relationship snd
    (fun _ => relationship_stored) push_relationship _ _ _ _ _ Hl); [|done].
  clear. unfold load_relationship. intros [p s] r s' Hs. unbind. eexists _, _.
  split_and!; [done|by eapply relationship_of_row_stored|done].
Qed.

Section metric_rows.
Context `{ModelParsers}.

Definition metrics_added (version : string) (m m' : Model) (own : list MetricRow.t) : Prop :=
  exists xs, Forall2 (metric_stored version) own xs /\ m' = foldl (flip push_metric) m xs.

Lemma load_metrics_ok rows ms version ms' :
  load_metrics rows ms version = Ok ms' ->
  distributes MetricRow.model_id rows (metrics_added version) ms ms'.
Proof.
  intros Hl. refine (keyed_fold MetricRow.model_id (load_metric version) (fun ms => ms)
    (fun _ => metric_stored version) push_metric _ _ _ _ _ Hl); [|done].
  clear. unfold load_metric. intros s r s' Hs. unbind. eexists _, _.
  split_and!; [done|by eapply metric_of_row_stored|done].
Qed.
End metric_rows.

(** * The write policies of a published model

    What the rows of the mutation schema store about a write policy, and that
    the loader rebuilds exactly that. *)

(** ** What the rows of a policy store *)

(** The ordinals and names of the rows that have one. *)
Definition ordinals (ordinal : MutationFieldRow.t -> option Z) (own : list MutationFieldRow.t)
    : list (Z * string) :=
  omap (fun row => (fun o => (o, MutationFieldRow.semantic_name row)) <$> ordinal row) own.

(** Names listed by increasing ordinal. *)
Definition listed_in_order (l : list (Z * string)) (names : list string) : Prop :=
  exists k, k ≡ₚ l /\ StronglySorted Z.le (map fst k) /\ names = map snd k.

Record writable_field_stored (fields : list Field) (row : MutationFieldRow.t) (f : WritableField)
    : Prop := {
  wfs_name : WritableField.field f = MutationFieldRow.semantic_name row;
  wfs_nullable : exists field, field ∈ fields
    /\ Field.semantic_name field = MutationFieldRow.semantic_name row
    /\ WritableField.nullable f = Field.nullable field;
  wfs_required : WritableField.required_on_insert f = MutationFieldRow.required_on_insert row;
  wfs_updatable :
    WritableField.updatable_on_conflict f = MutationFieldRow.updatable_on_conflict row;
}.

(** Only insertable fields may be written; conflict and returning fields are
    listed by their ordinals. *)
Record policy_stored (fields : list Field) (row : MutationModelRow.t) (own : list MutationFieldRow.t)
    (w : WritableModel) : Prop := {
  ps_insert : WritableModel.insert w = MutationModelRow.insert_enabled row;
  ps_upsert :
    match WritableModel.upsert w with
    | Some u => MutationModelRow.upsert_enabled row = true
        /\ listed_in_order (ordinals MutationFieldRow.conflict_key_ordinal own)
             (UpsertPolicy.conflict_fields u)
    | None => MutationModelRow.upsert_enabled row = false
        /\ ordinals MutationFieldRow.conflict_key_ordinal own = []
    end;
  ps_max_rows : Z.of_N (WritableModel.max_rows w) = MutationModelRow.max_rows row;
  ps_max_bytes : Z.of_N (WritableModel.max_request_bytes w) = MutationModelRow.max_request_bytes row;
  ps_fields : Forall2 (writable_field_stored fields)
    (filter (fun row => MutationFieldRow.insertable row = true) own) (WritableModel.fields w);
  ps_returning :
    listed_in_order (ordinals MutationFieldRow.returning_ordinal own) (WritableModel.returning w);
}.

(** ** Rows of models *)

Lemma u32_try_from_ok z n : u32_try_from z = Ok n -> Z.of_N n = z.
Proof. unfold u32_try_from. intros Hz. unbind. lia. Qed.

(** A policy before its fields are read. *)
Record bare_policy (row : MutationModelRow.t) (l : LoadedWritable) : Prop := {
  bp_insert : WritableModel.insert (LoadedWritable.policy l) = MutationModelRow.insert_enabled row;
  bp_upsert : is_Some (WritableModel.upsert (LoadedWritable.policy l))
    <-> MutationModelRow.upsert_enabled row = true;
  bp_max_rows :
    Z.of_N (WritableModel.max_rows (LoadedWritable.policy l)) = MutationModelRow.max_rows row;
  bp_max_bytes : Z.of_N (WritableModel.max_request_bytes (LoadedWritable.policy l))
    = MutationModelRow.max_request_bytes row;
  bp_fields : WritableModel.fields (LoadedWritable.policy l) = [];
  bp_conflict : LoadedWritable.conflict_fields l = [];
  bp_returning : LoadedWritable.returning l = [];
}.

Lemma load_writable_model_ok models w row w' :
  load_writable_model models w row = Ok w' ->
  bt_get (MutationModelRow.model_id row) w = None
  /\ exists l, w' = bt_insert (MutationModelRow.model_id row) l w /\ bare_policy row l.
Proof.
  unfold load_writable_model, bt_contains. intros Hl. unbind. split.
  - by apply eq_None_not_Some.
  - eexists. split; [done|]. constructor; simpl; try done; try by apply u32_try_from_ok.
    destruct (MutationModelRow.upsert_enabled row); split; try done; by intros [? ?].
Qed.

(** At most one row per model. *)
Definition policy_of_rows (rows : list MutationModelRow.t) (o : option LoadedWritable) : Prop :=
  match rows with
  | [] => o = None
  | [row] => exists l, o = Some l /\ bare_policy row l
  | _ => False
  end.

Lemma load_writable_model_fold models rows w w' :
  try_fold (load_writable_model models) w rows = Ok w' ->
  (bt_wf w -> bt_wf w')
  /\ forall id,
       match bt_get id w with
       | Some l => bt_get id w' = Some l /\ rows_of MutationModelRow.model_id id rows = []
       | None => policy_of_rows (rows_of MutationModelRow.model_id id rows) (bt_get id w')
       end.
Proof.
  revert w. induction rows as [|row rows IH]; intros w; simpl.
  - intros [= ->]. split; [done|]. intros id. by destruct (bt_get id w').
  - intros (w1 & (Hnew & l & -> & Hl)%load_writable_model_ok & Hrest)%bind_ok.
    apply IH in Hrest as [Hwf Hids]. split; [intros ?; by apply Hwf, bt_insert_wf|].
    intros id. specialize (Hids id). unfold rows_of. rewrite filter_cons. case_decide as Heq.
    + subst id. rewrite Hnew. rewrite bt_get_insert_eq in Hids. destruct Hids as [Hget Hnil].
      unfold rows_of in Hnil. rewrite Hnil. by exists l.
    + by rewrite bt_get_insert_ne in Hids.
Qed.

(** ** Rows of fields *)

(** What one row adds to a policy that is being loaded. *)
Definition add_row (x : MutationFieldRow.t * option WritableField) (l : LoadedWritable)
    : LoadedWritable :=
  let '(row, field) := x in
  {| LoadedWritable.policy :=
       match field with
       | Some f => push_writable_field f (LoadedWritable.policy l)
       | None => LoadedWritable.policy l
       end;
     LoadedWritable.conflict_fields :=
       push_ordinal (MutationFieldRow.conflict_key_ordinal row) (MutationFieldRow.semantic_name row)
         (LoadedWritable.conflict_fields l);
     LoadedWritable.returning :=
       push_ordinal (MutationFieldRow.returning_ordinal row) (MutationFieldRow.semantic_name row)
         (LoadedWritable.returning l) |}.

Definition row_read (models : Models) (row : MutationFieldRow.t)
    (x : MutationFieldRow.t * option WritableField) : Prop :=
  x.1 = row
  /\ match x.2 with
     | Some f => MutationFieldRow.insertable row = true
         /\ exists model, bt_get (MutationFieldRow.model_id row) models = Some model
              /\ writable_field_stored (Model.fields model) row f
     | None => MutationFieldRow.insertable row = false
     end.

Lemma load_writable_field_ok models w row w' :
  load_writable_field models w row = Ok w' ->
  exists l x, bt_get (MutationFieldRow.model_id row) w = Some l /\ row_read models row x
    /\ w' = bt_insert (MutationFieldRow.model_id row) (add_row x l) w.
Proof.
  unfold load_writable_field. intros Hl. unbind.
  match goal with H : bt_get _ _ = Some ?l |- _ => rename H into Hget; exists l end.
  destruct (MutationFieldRow.insertable row) eqn:Hins; unbind.
  - match goal with H : mbind _ _ = Some ?f |- _ =>
      apply bind_Some in H as (model & Hmodel & Hfind); rename f into field end.
    apply find_some in Hfind as [Hin Hname%bool_decide_eq_true]. apply list_elem_of_In in Hin.
    eexists (row, Some _). split_and!; [done|split; [done|]|reflexivity]. simpl.
    split; [done|]. exists model. split; [done|]. constructor; simpl; eauto.
  - by exists (row, None).
Qed.

Lemma add_rows xs l :
  foldl (flip add_row) l xs =
  {| LoadedWritable.policy :=
       let w := LoadedWritable.policy l in
       WritableModel.mk (WritableModel.insert w) (WritableModel.upsert w)
         (WritableModel.max_rows w) (WritableModel.max_request_bytes w)
         (WritableModel.fields w ++ omap snd xs) (WritableModel.returning w);
     LoadedWritable.conflict_fields :=
       LoadedWritable.conflict_fields l
       ++ ordinals MutationFieldRow.conflict_key_ordinal (map fst xs);
     LoadedWritable.returning :=
       LoadedWritable.returning l ++ ordinals MutationFieldRow.returning_ordinal (map fst xs) |}.
Proof.
  revert l. induction xs as [|[row f] xs IH]; intros l; simpl.
  - rewrite !app_nil_r. by destruct l as [[] ? ?].
  - rewrite IH. simpl. unfold ordinals, push_ordinal. simpl. f_equal.
    + destruct f; simpl; [|done]. by rewrite <- app_assoc.
    + destruct (MutationFieldRow.conflict_key_ordinal row); simpl; [|done]. by rewrite <- app_assoc.
    + destruct (MutationFieldRow.returning_ordinal row); simpl; [|done]. by rewrite <- app_assoc.
Qed.

Lemma rows_read models own xs id :
  Forall2 (row_read models) own xs -> Forall (fun row => MutationFieldRow.model_id row = id) own ->
  map fst xs = own
  /\ forall model, bt_get id models = Some model ->
       Forall2 (writable_field_stored (Model.fields model))
         (filter (fun row => MutationFieldRow.insertable row = true) own) (omap snd xs).
Proof.
  induction 1 as [|row [r f] own xs [Hr Hf] _ IH]; simpl; [done|].
  intros [Hid Hown]%Forall_cons. simpl in Hr, Hf. subst r. destruct (IH Hown) as [Hmap Hall].
  split; [by f_equal|]. intros model Hm. rewrite filter_cons.
  destruct f as [f|]; simpl in *.
  - destruct Hf as (Hi & model' & Hm' & Hst). rewrite decide_True by done.
    constructor; [|by apply Hall]. congruence.
  - rewrite decide_False by congruence. by apply Hall.
Qed.

(** ** Installing the policies *)

Lemma by_ordinal_listed l : listed_in_order l (by_ordinal l).
Proof.
  exists (sort_by_key fst l). split_and!; [apply sort_by_key_perm| |done].
  pose proof (sort_by_key_sorted fst l) as Hs. unfold key_sorted in Hs.
  revert Hs. generalize (sort_by_key fst l) as k. intros k.
  induction 1 as [|x k _ IH Hx]; simpl; constructor; [done|]. by apply Forall_fmap.
Qed.

(** The policy a model gets from its rows. *)
Definition policy_added (rows : list MutationModelRow.t) (own : list MutationFieldRow.t)
    (m m' : Model) : Prop :=
  match rows with
  | [] => m' = m /\ own = []
  | [row] => exists w, m' = set_writable w m /\ policy_stored (Model.fields m) row own w
  | _ => False
  end.

Lemma finish_writable_stored fields row own l xs w :
  bare_policy row l -> map fst xs = own ->
  Forall2 (writable_field_stored fields)
    (filter (fun row => MutationFieldRow.insertable row = true) own) (omap snd xs) ->
  finish_writable (foldl (flip add_row) l xs) = Ok w ->
  policy_stored fields row own w.
Proof.
  intros [Hi Hu Hmr Hmb Hfs Hc Hr] Hown Hfields. rewrite add_rows. unfold finish_writable. simpl.
  rewrite Hfs, Hc, Hr, Hown. simpl. intros Hw. unbind. constructor; simpl; try done.
  - destruct (WritableModel.upsert (LoadedWritable.policy l)) as [u|]; unbind.
    + split; [by apply Hu; eexists|]. apply by_ordinal_listed.
    + split; [|by apply dec_stable]. apply not_true_iff_false. intros [? [=]]%Hu.
  - apply by_ordinal_listed.
Qed.

Lemma rows_of_entry {V} id (m : list (string * V)) :
  bt_wf m ->
  rows_of fst id m = match bt_get id m with Some v => [(id, v)] | None => [] end.
Proof.
  unfold bt_wf, rows_of. induction m as [|[k v] m IH]; simpl; [done|].
  intros [Hm Hk]%StronglySorted_inv. rewrite filter_cons. simpl.
  destruct (decide (k = id)) as [->|Hne]; [rewrite decide_True by done|by rewrite decide_False, IH].
  f_equal. rewrite IH by done. destruct (bt_get id m) as [v'|] eqn:Hget; [|done].
  apply bt_get_elem, (list_elem_of_fmap_2 fst) in Hget. rewrite Forall_forall in Hk.
  by apply Hk, klt_irrefl in Hget.
Qed.

Lemma load_writable_models_ok mrows frows ms ms' :
  load_writable_models mrows frows ms = Ok ms' ->
  (bt_wf ms -> bt_wf ms')
  /\ forall id,
       match bt_get id ms with
       | Some m => exists m', bt_get id ms' = Some m'
           /\ policy_added (rows_of MutationModelRow.model_id id mrows)
                (rows_of MutationFieldRow.model_id id frows) m m'
       | None => bt_get id ms' = None
       end.
Proof.
  unfold load_writable_models. intros (w0 & Hw0 & (w1 & Hw1 & Hms)%bind_ok)%bind_ok.
  apply load_writable_model_fold in Hw0 as [Hwf0 Hids0].
  apply (keyed_fold MutationFieldRow.model_id (load_writable_field ms) (fun w => w)
           (fun _ => row_read ms) add_row) in Hw1 as [Hwf1 Hids1];
    [|by intros; apply load_writable_field_ok|done].
  assert (Hwf : bt_wf w1) by (apply Hwf1, Hwf0; constructor).
  apply (keyed_fold fst install_writable (fun ms => ms)
           (fun _ e w => finish_writable (snd e) = Ok w) set_writable) in Hms as [Hwf2 Hids2];
    [|by intros s [id l] s' Hs; unfold install_writable in Hs; unbind; eauto 10|done].
  split; [done|]. intros id. specialize (Hids0 id); specialize (Hids1 id); specialize (Hids2 id).
  destruct (bt_get id ms) as [m|] eqn:Hm; [|by destruct Hids2].
  destruct Hids2 as (m' & Hm' & ws & Hws & ->). exists (foldl (flip set_writable) m ws).
  split; [done|]. clear Hm'. rewrite rows_of_entry in Hws by done. simpl in Hids0.
  destruct (rows_of MutationModelRow.model_id id mrows) as [|row [|]]; simpl in Hids0; [| |done].
  - rewrite Hids0 in Hids1. destruct Hids1 as [Hn Hown]. rewrite Hn in Hws.
    apply Forall2_nil_inv_l in Hws as ->. done.
  - destruct Hids0 as (l & Hl & Hbare). rewrite Hl in Hids1.
    destruct Hids1 as (l' & Hl' & xs & Hxs & ->). rewrite Hl' in Hws.
    apply Forall2_cons_inv_l in Hws as (w & ws' & Hw & ->%Forall2_nil_inv_l & ->). simpl in *.
    exists w. split; [done|].
    destruct (rows_read ms _ xs id Hxs) as [Hfst Hall].
    { unfold rows_of. apply Forall_forall. by intros row' [? _]%list_elem_of_filter. }
    eapply finish_writable_stored; eauto.
Qed.
