(* ===== verification/Executor.v ===== *)
(** * The query executor ([executor.rs])

    A request is normalised and compiled, recorded as started, executed under
    the mapped database role in a guarded read-only transaction, and recorded
    as finished. *)

From S2P Require Import Prelude Ordered Text Json Lsq Semantic Compiler Lsm Mutation Effects.
From S2P Require Import Database PublishedModel.

Definition DEFAULT_MAX_RESULT_BYTES : N := 1048576.
Definition DEFAULT_STATEMENT_TIMEOUT_MS : N := 30000.
Definition DEFAULT_LOCK_TIMEOUT_MS : N := 5000.
Definition DEFAULT_IDLE_TRANSACTION_TIMEOUT_MS : N := 5000.
Definition RESULT_TRUNCATION_WARNING : string :=
  "result is incomplete because it exceeded the byte limit; narrow the query".

Module ExecutorConfig.
Record ExecutorConfig : Type := mk {
  database_url : string;
  database_url_variable : string;
  database_password : option string;
  audit_database_url : string;
  audit_database_url_variable : string;
  audit_database_password : option string;
  database_role : string;
  max_result_bytes : N;
  statement_timeout : Duration;
  lock_timeout : Duration;
  idle_transaction_timeout : Duration;
}.
End ExecutorConfig.
Abbreviation ExecutorConfig := ExecutorConfig.ExecutorConfig.

Module ExecutionContext.
Record ExecutionContext : Type := mk {
  principal_subject : string;
  config_profile : string;
  authority_id : string;
}.
End ExecutionContext.
Abbreviation ExecutionContext := ExecutionContext.ExecutionContext.

Module QueryResult.
Record QueryResult : Type := mk {
  schema_version : string;
  query_id : string;
  semantic_revision : string;
  columns : list OutputColumn;
  rows : list json;
  truncated : bool;
  lineage : Lineage;
  warnings : list string;
}.
End QueryResult.
Abbreviation QueryResult := QueryResult.QueryResult.

Module ExecuteError.
Inductive ExecuteError : Type :=
| InvalidEnvironmentVariableName (variable : string)
| MissingEnvironmentVariable (variable : string)
| InvalidEnvironmentVariable (variable : string)
| InvalidIntegerConfiguration (variable : string)
| InvalidDatabaseRole
| InvalidExecutionContext
| RuntimeConnect (variable : string)
| AuditConnect (variable : string)
| PublishedModel (source : PublishedModelError)
| Lsq (source : LsqError)
| Compile (source : CompileError)
| StartedAudit (source : db_error)
| AuditSerialization (source : string)
| TerminalAudit (source : db_error)
| StartSourceTransaction (source : db_error)
| DatabaseRoleNotFound
| DatabaseRoleMembership
| UnsafeDatabaseRole
| SourceRelationNotFound
| SourceRelationOwner
| TransactionConfiguration (source : db_error)
| SourceCancelled (source : db_error)
| SourceCancellationRequested
| SourceExecution (source : db_error)
| SourceCommit (source : db_error)
| InvalidRowShape
| RowSerialization (source : string).
End ExecuteError.
Abbreviation ExecuteError := ExecuteError.ExecuteError.

(** ** Configuration *)

Definition is_name_start (c : ascii) : bool :=
  bool_decide (65 ≤ code c ≤ 90)%N || bool_decide (97 ≤ code c ≤ 122)%N
  || bool_decide (code c = 95%N).

Definition valid_environment_variable_name (value : string) : bool :=
  match value with
  | EmptyString => false
  | String c rest =>
      is_name_start c && forallb (fun c => is_name_start c || is_ascii_digit c) (bytes rest)
  end.

Definition valid_database_role (value : string) : bool :=
  bool_decide (String.length value ≤ 63) && valid_environment_variable_name value.

Definition duration_milliseconds (duration : Duration) : Z := saturating_i64 (as_millis duration).

Section configuration.
Context (var : environment).

Definition required_environment (variable : string) : result ExecuteError string :=
  map_err (fun error => match error with
           | NotPresent => ExecuteError.MissingEnvironmentVariable variable
           | NotUnicode => ExecuteError.InvalidEnvironmentVariable variable
           end) (var variable).

Definition positive_integer_environment (variable : string) (default : N)
    : result ExecuteError N :=
  match var variable with
  | Ok value =>
      ok_or (parsed ← parse_u64 value; if decide (0 < parsed)%N then Some parsed else None)
        (ExecuteError.InvalidIntegerConfiguration variable)
  | Err NotPresent => Ok default
  | Err NotUnicode => Err (ExecuteError.InvalidIntegerConfiguration variable)
  end.

Definition check_variable_name (variable : string) : result ExecuteError unit :=
  fail_if (negb (valid_environment_variable_name variable))
    (ExecuteError.InvalidEnvironmentVariableName variable).

Definition from_environment_with_passwords_and_role (database_url_variable : string)
    (database_password_variable : option string) (audit_database_url_variable : string)
    (audit_database_password_variable : option string) (database_role : string)
    : result ExecuteError ExecutorConfig :=
  try_each check_variable_name
    ([database_url_variable] ++ option_list database_password_variable
     ++ [audit_database_url_variable] ++ option_list audit_database_password_variable);;
  fail_if (negb (valid_database_role database_role)) ExecuteError.InvalidDatabaseRole;;
  database_url ← required_environment database_url_variable;
  database_password ← transpose required_environment database_password_variable;
  audit_database_url ← required_environment audit_database_url_variable;
  audit_database_password ← transpose required_environment audit_database_password_variable;
  max_result_bytes ←
    positive_integer_environment "POSTGRESEM_MAX_RESULT_BYTES" DEFAULT_MAX_RESULT_BYTES;
  statement_timeout ←
    positive_integer_environment "POSTGRESEM_STATEMENT_TIMEOUT_MS" DEFAULT_STATEMENT_TIMEOUT_MS;
  lock_timeout ←
    positive_integer_environment "POSTGRESEM_LOCK_TIMEOUT_MS" DEFAULT_LOCK_TIMEOUT_MS;
  idle_transaction_timeout ←
    positive_integer_environment "POSTGRESEM_IDLE_IN_TRANSACTION_SESSION_TIMEOUT_MS"
      DEFAULT_IDLE_TRANSACTION_TIMEOUT_MS;
  Ok {| ExecutorConfig.database_url := database_url;
        ExecutorConfig.database_url_variable := database_url_variable;
        ExecutorConfig.database_password := database_password;
        ExecutorConfig.audit_database_url := audit_database_url;
        ExecutorConfig.audit_database_url_variable := audit_database_url_variable;
        ExecutorConfig.audit_database_password := audit_database_password;
        ExecutorConfig.database_role := database_role;
        ExecutorConfig.max_result_bytes := max_result_bytes;
        ExecutorConfig.statement_timeout := from_millis statement_timeout;
        ExecutorConfig.lock_timeout := from_millis lock_timeout;
        ExecutorConfig.idle_transaction_timeout := from_millis idle_transaction_timeout |}.

Definition from_environment_with_passwords (database_url_variable : string)
    (database_password_variable : option string) (audit_database_url_variable : string)
    (audit_database_password_variable : option string) (database_role_variable : string)
    : result ExecuteError ExecutorConfig :=
  try_each check_variable_name
    ([database_url_variable] ++ option_list database_password_variable
     ++ [audit_database_url_variable] ++ option_list audit_database_password_variable
     ++ [database_role_variable]);;
  database_role ← required_environment database_role_variable;
  from_environment_with_passwords_and_role database_url_variable database_password_variable
    audit_database_url_variable audit_database_password_variable database_role.

Definition from_environment (database_url_variable audit_database_url_variable
    database_role_variable : string) : result ExecuteError ExecutorConfig :=
  from_environment_with_passwords database_url_variable None audit_database_url_variable None
    database_role_variable.
End configuration.

Definition with_database_role (config : ExecutorConfig) (database_role : string)
    : result ExecuteError ExecutorConfig :=
  fail_if (negb (valid_database_role database_role)) ExecuteError.InvalidDatabaseRole;;
  Ok (ExecutorConfig.mk (ExecutorConfig.database_url config)
        (ExecutorConfig.database_url_variable config) (ExecutorConfig.database_password config)
        (ExecutorConfig.audit_database_url config)
        (ExecutorConfig.audit_database_url_variable config)
        (ExecutorConfig.audit_database_password config) database_role
        (ExecutorConfig.max_result_bytes config) (ExecutorConfig.statement_timeout config)
        (ExecutorConfig.lock_timeout config) (ExecutorConfig.idle_transaction_timeout config)).

Definition new_with_authority (principal_subject config_profile authority_id : string)
    : result ExecuteError ExecutionContext :=
  fail_if (trim_is_empty principal_subject || trim_is_empty config_profile
           || trim_is_empty authority_id) ExecuteError.InvalidExecutionContext;;
  Ok (ExecutionContext.mk principal_subject config_profile authority_id).

Definition new (principal_subject config_profile : string)
    : result ExecuteError ExecutionContext :=
  new_with_authority principal_subject config_profile principal_subject.

(** ** Guards of the source transaction *)

Definition connect_runtime `{Driver} (config : ExecutorConfig) : io_result ExecuteError unit :=
  attempt (fun _ => ExecuteError.RuntimeConnect (ExecutorConfig.database_url_variable config))
    (connect Source (ExecutorConfig.database_url config)
       (ExecutorConfig.database_password config)) ;;?
  attempt ExecuteError.TransactionConfiguration
    (configure_session_timeouts Source (ExecutorConfig.statement_timeout config)
       (ExecutorConfig.lock_timeout config) (ExecutorConfig.idle_transaction_timeout config)).

Definition connect_audit `{Driver} (config : ExecutorConfig) : io_result ExecuteError unit :=
  attempt (fun _ => ExecuteError.AuditConnect (ExecutorConfig.audit_database_url_variable config))
    (connect Audit (ExecutorConfig.audit_database_url config)
       (ExecutorConfig.audit_database_password config)) ;;?
  attempt ExecuteError.TransactionConfiguration
    (configure_session_timeouts Audit (ExecutorConfig.statement_timeout config)
       (ExecutorConfig.lock_timeout config) (ExecutorConfig.idle_transaction_timeout config)).

Definition fix_search_path : io_result ExecuteError unit :=
  attempt ExecuteError.TransactionConfiguration
    (call (QueryOne Source (SET_CONFIG "search_path" "pg_catalog" true))).

Definition verify_role (database_role : string) : io_result ExecuteError bool :=
  row ←? attempt ExecuteError.TransactionConfiguration
           (call (QueryOpt Source (ROLE_SQL database_role)));
  row ←? lift (ok_or row ExecuteError.DatabaseRoleNotFound);
  lift (fail_if (RoleRow.rolsuper row || RoleRow.rolbypassrls row
                 || RoleRow.can_assume_unsafe_role row) ExecuteError.UnsafeDatabaseRole) ;;?
  Ret (Ok (RoleRow.is_member row)).

Definition preflight_role `{Driver} (config : ExecutorConfig) : io_result ExecuteError unit :=
  connect_runtime config ;;?
  attempt ExecuteError.StartSourceTransaction (call (Begin Source None true)) ;;?
  or_rollback Source
    (fix_search_path ;;?
     is_member ←? verify_role (ExecutorConfig.database_role config);
     lift (fail_if (negb is_member) ExecuteError.DatabaseRoleMembership)) ;;?
  attempt ExecuteError.SourceCommit (call (Commit Source)).

(** The [BTreeSet] of source relations of the models in the lineage. *)
Definition add_relation (snapshot : SemanticSnapshot) (relations : list (string * string))
    (name : string) : result ExecuteError (list (string * string)) :=
  model ← ok_or (List.find (fun model => bool_decide (Model.semantic_name model = name))
                   (Snapshot.models snapshot)) ExecuteError.SourceRelationNotFound;
  Ok (bs_insert (Relation.schema (Model.source model), Relation.relation (Model.source model))
        relations).

Definition lineage_relations (snapshot : SemanticSnapshot) (compiled : CompiledQuery)
    : result ExecuteError (list (string * string)) :=
  try_fold (add_relation snapshot) [] (Lineage.models (CompiledQuery.lineage compiled)).

Definition verify_relation_owner (database_role : string) (relation : string * string)
    : io_result ExecuteError unit :=
  row ←? attempt ExecuteError.TransactionConfiguration
           (call (QueryOpt Source (RELATION_OWNER_SQL database_role relation.1 relation.2)));
  can_assume_owner ←? lift (ok_or row ExecuteError.SourceRelationNotFound);
  lift (fail_if can_assume_owner ExecuteError.SourceRelationOwner).

Definition verify_relation_ownership (snapshot : SemanticSnapshot) (compiled : CompiledQuery)
    (database_role : string) : io_result ExecuteError unit :=
  relations ←? lift (lineage_relations snapshot compiled);
  each (verify_relation_owner database_role) relations.

Definition set_role_sql (database_role : string) : string :=
  "SET LOCAL ROLE " +:+ quote_identifier database_role.

Definition apply_transaction_configuration (config : ExecutorConfig)
    : io_result ExecuteError unit :=
  attempt ExecuteError.TransactionConfiguration
    (call (BatchExecute Source (set_role_sql (ExecutorConfig.database_role config)))) ;;?
  attempt ExecuteError.TransactionConfiguration
    (each (fun '(name, milliseconds) =>
             call (QueryOne Source (SET_CONFIG name milliseconds true)))
       (timeout_settings (ExecutorConfig.statement_timeout config)
          (ExecutorConfig.lock_timeout config)
          (ExecutorConfig.idle_transaction_timeout config))) ;;?
  attempt ExecuteError.TransactionConfiguration
    (call (QueryOne Source (SET_CONFIG "TimeZone" "UTC" true))).

(** ** The source statement *)

Definition result_column (relation : string) (column : OutputColumn) : string :=
  let identifier := relation +:+ "." +:+ quote_identifier (OutputColumn.name column) in
  if decide (OutputColumn.data_type column = DataType.Numeric)
  then identifier +:+ "::text" else identifier.

Definition result_wrapper_sql (compiled : CompiledQuery) : string :=
  "SELECT jsonb_build_array("
  +:+ join ", " (map (result_column "compiled_result") (CompiledQuery.output_schema compiled))
  +:+ ") AS row_data" +:+ nl +:+ "FROM (" +:+ nl +:+ CompiledQuery.sql compiled +:+ nl
  +:+ ") AS compiled_result".

Definition bool_text (b : bool) : string := if b then "true" else "false".

Definition parameter_text (parameter : CompiledParameter) : string :=
  match CompiledParameter.value parameter with
  | Literal.Text value | Literal.Numeric value | Literal.Date value
  | Literal.Timestamp value => value
  | Literal.Boolean value => bool_text value
  | Literal.Integer value => pretty value
  end.

Definition source_query_error (source : db_error) : ExecuteError :=
  if decide (sqlstate source = Some QUERY_CANCELED)
  then ExecuteError.SourceCancelled source else ExecuteError.SourceExecution source.

Module ExecutionRows.
Record ExecutionRows : Type := mk {
  rows : list json;
  truncated : bool;
  byte_count : N;
  serialization_duration : Duration;
}.
End ExecutionRows.
Abbreviation ExecutionRows := ExecutionRows.ExecutionRows.

Definition is_array (value : json) : bool :=
  match value with JArr _ => true | _ => false end.

(** [usize::from(!rows.is_empty())]. *)
Definition separator_bytes (rows : list json) : N := if decide (rows = []) then 0%N else 1%N.

(** The number of bytes with one more row, saturating. *)
Definition with_row (byte_count separator row : N) : N :=
  saturating_add (saturating_add byte_count separator) row.

Section fetch.
Context `{Crates} (max_result_bytes : N).

(** The [while let] loop over the source rows. *)
Fixpoint fetch (stream : row_stream) (rows : list json) (byte_count : N)
    (serialization_duration : Duration) : io_result ExecuteError ExecutionRows :=
  match stream with
  | Done => Ret (Ok (ExecutionRows.mk rows false byte_count serialization_duration))
  | Failed e => Ret (Err (source_query_error e))
  | Row value rest =>
      if negb (is_array value) then Ret (Err ExecuteError.InvalidRowShape) else
      match json_to_string value with
      | Err e => Ret (Err (ExecuteError.RowSerialization e))
      | Ok text =>
          let row_bytes := N.of_nat (String.length text) in
          let separator := separator_bytes rows in
          elapsed ← call Elapsed;
          let serialization_duration := (serialization_duration + elapsed)%N in
          if decide (max_result_bytes < with_row byte_count separator row_bytes)%N
          then Ret (Ok (ExecutionRows.mk rows true byte_count serialization_duration))
          else fetch rest (rows ++ [value])
                 (wrapping_add byte_count (wrapping_add separator row_bytes))
                 serialization_duration
      end
  end.
End fetch.

Definition guard_source (snapshot : SemanticSnapshot) (compiled : CompiledQuery)
    (config : ExecutorConfig) : io_result ExecuteError unit :=
  fix_search_path ;;?
  is_role_member ←? verify_role (ExecutorConfig.database_role config);
  verify_relation_ownership snapshot compiled (ExecutorConfig.database_role config) ;;?
  lift (fail_if (negb is_role_member) ExecuteError.DatabaseRoleMembership) ;;?
  apply_transaction_configuration config.

Definition execute_compiled `{Crates} (snapshot : SemanticSnapshot) (compiled : CompiledQuery)
    (config : ExecutorConfig) : io_result ExecuteError ExecutionRows :=
  attempt ExecuteError.StartSourceTransaction
    (call (Begin Source (Some ReadCommitted) true)) ;;?
  execution ←? or_rollback Source
    (guard_source snapshot compiled config ;;?
     stream ←? attempt source_query_error
                 (call (QueryRaw Source (result_wrapper_sql compiled)
                          (map (fun p => Some (parameter_text p))
                             (CompiledQuery.parameters compiled))));
     fetch (ExecutorConfig.max_result_bytes config) stream [] 2%N 0%N);
  attempt ExecuteError.SourceCommit (call (Commit Source)) ;;?
  Ret (Ok execution).

(** ** Audit records *)

Definition result_warnings (truncated : bool) : list string :=
  if truncated then [RESULT_TRUNCATION_WARNING] else [].

Definition anchor_to_json (a : AggregationAnchorLineage) : json :=
  JObj [("metric", JStr (anchor_metric a)); ("field", JStr (anchor_field a))].

Definition lineage_to_json (l : Lineage) : json :=
  JObj ([("models", JArr (map JStr (Lineage.models l)));
         ("metrics", JArr (map JStr (Lineage.metrics l)))]
        ++ (if decide (Lineage.aggregation_anchors l = []) then []
            else [("aggregation_anchors",
                   JArr (map anchor_to_json (Lineage.aggregation_anchors l)))])
        ++ [("relationships", JArr (map JStr (Lineage.relationships l)));
            ("source_columns", JArr (map JStr (Lineage.source_columns l)))]).

Definition write_started_audit `{Crates} (published : PublishedModel)
    (normalized : NormalizedLsq) (compiled : CompiledQuery) (config : ExecutorConfig)
    (context : ExecutionContext) (validation_duration compile_duration : Duration)
    : io_result ExecuteError string :=
  attempt ExecuteError.StartedAudit
    (call (QueryOne Audit (START_QUERY_AUDIT
      {| sq_principal_hash := sha256 (ExecutionContext.principal_subject context);
         sq_schema_version := Lsq.schema_version (NormalizedLsq.query normalized);
         sq_lsq_hash := NormalizedLsq.hash normalized;
         sq_revision_id := PublishedModel.revision_id published;
         sq_revision_hash := Snapshot.revision_hash (PublishedModel.snapshot published);
         sq_compiler_version := COMPILER_SEMANTIC_VERSION;
         sq_config_profile := ExecutionContext.config_profile context;
         sq_sql_hash := CompiledQuery.sql_hash compiled;
         sq_query_hash := CompiledQuery.query_hash compiled;
         sq_parameter_types :=
           JArr (map (fun p => DataType.to_json (CompiledParameter.data_type p))
                   (CompiledQuery.parameters compiled));
         sq_lineage := to_value (lineage_to_json (CompiledQuery.lineage compiled));
         sq_policy_context :=
           to_value (JObj [("database_role", JStr (ExecutorConfig.database_role config));
                           ("project", JStr (PublishedModel.project published))]);
         sq_validation_ms := duration_milliseconds validation_duration;
         sq_compile_ms := duration_milliseconds compile_duration |}))).

Definition finish_audit (query_id status : string) (error_code : option string)
    (database_duration serialization_duration : Duration) (row_count byte_count : N)
    (truncated : bool) : io_result ExecuteError unit :=
  attempt ExecuteError.TerminalAudit
    (call (QueryOne Audit (FINISH_QUERY_AUDIT
      {| fq_query_id := query_id;
         fq_status := status;
         fq_error_code := error_code;
         fq_database_ms := duration_milliseconds database_duration;
         fq_serialization_ms := duration_milliseconds serialization_duration;
         fq_row_count := saturating_i64 row_count;
         fq_byte_count := saturating_i64 byte_count;
         fq_truncated := truncated |}))).

Definition execution_error_code (error : ExecuteError) : string :=
  match error with
  | ExecuteError.DatabaseRoleNotFound => "EXECUTOR_DATABASE_ROLE_NOT_FOUND"
  | ExecuteError.DatabaseRoleMembership => "EXECUTOR_DATABASE_ROLE_MEMBERSHIP_DENIED"
  | ExecuteError.UnsafeDatabaseRole => "EXECUTOR_UNSAFE_DATABASE_ROLE"
  | ExecuteError.SourceRelationNotFound => "EXECUTOR_SOURCE_RELATION_NOT_FOUND"
  | ExecuteError.SourceRelationOwner => "EXECUTOR_SOURCE_RELATION_OWNER"
  | ExecuteError.SourceCancelled _
  | ExecuteError.SourceCancellationRequested => "EXECUTOR_QUERY_CANCELLED"
  | ExecuteError.SourceExecution _ => "EXECUTOR_SOURCE_QUERY_FAILED"
  | ExecuteError.SourceCommit _ => "EXECUTOR_SOURCE_COMMIT_FAILED"
  | ExecuteError.InvalidRowShape => "EXECUTOR_INVALID_ROW_SHAPE"
  | ExecuteError.RowSerialization _ => "EXECUTOR_ROW_SERIALIZATION_FAILED"
  | _ => "EXECUTOR_GUARD_CONFIGURATION_FAILED"
  end.

(** The status of a failed execution. *)
Definition failure_status (error : ExecuteError) : string :=
  match error with
  | ExecuteError.SourceCancelled _ | ExecuteError.SourceCancellationRequested => "cancelled"
  | _ => "failed"
  end.

(** ** Requests *)

(** serde_json's typed deserialiser of queries. *)
Class LsqParser := { lsq_from_slice : string -> result string LogicalSemanticQuery }.

Section execute.
Context `{Crates, ModelParsers, Driver, LsqParser}.

(** The recorded execution of a compiled query. *)
Definition run_recorded (published : PublishedModel) (normalized : NormalizedLsq)
    (compiled : CompiledQuery) (config : ExecutorConfig) (query_id : string)
    : io_result ExecuteError QueryResult :=
  outcome ← execute_compiled (PublishedModel.snapshot published) compiled config;
  database_duration ← call Elapsed;
  match outcome with
  | Ok execution =>
      finish_audit query_id "succeeded" None database_duration
        (ExecutionRows.serialization_duration execution)
        (N.of_nat (length (ExecutionRows.rows execution))) (ExecutionRows.byte_count execution)
        (ExecutionRows.truncated execution) ;;?
      Ret (Ok {| QueryResult.schema_version :=
                   Lsq.schema_version (NormalizedLsq.query normalized);
                 QueryResult.query_id := query_id;
                 QueryResult.semantic_revision :=
                   Snapshot.revision_hash (PublishedModel.snapshot published);
                 QueryResult.columns := CompiledQuery.output_schema compiled;
                 QueryResult.rows := ExecutionRows.rows execution;
                 QueryResult.truncated := ExecutionRows.truncated execution;
                 QueryResult.lineage := CompiledQuery.lineage compiled;
                 QueryResult.warnings := result_warnings (ExecutionRows.truncated execution) |})
  | Err error =>
      finish_audit query_id (failure_status error) (Some (execution_error_code error))
        database_duration 0%N 0%N 0%N false ;;?
      Ret (Err error)
  end.

Definition execute_with_cancel (input project : string) (config : ExecutorConfig)
    (context : ExecutionContext) : io_result ExecuteError QueryResult :=
  connect_runtime config ;;?
  published ←? attempt ExecuteError.PublishedModel (load_published Source project);
  normalized ←? lift (map_err ExecuteError.Lsq (normalize_lsq lsq_from_slice input));
  validation_duration ← call Elapsed;
  compiled ←? lift (map_err ExecuteError.Compile
                 (compile_lsq normalized (PublishedModel.snapshot published) default_options));
  compile_duration ← call Elapsed;
  connect_audit config ;;?
  query_id ←? write_started_audit published normalized compiled config context
                validation_duration compile_duration;
  go_on ← call OnCancelHandle;
  if go_on : bool
  then run_recorded published normalized compiled config query_id
  else
    finish_audit query_id "cancelled" (Some "EXECUTOR_QUERY_CANCELLED") 0%N 0%N 0%N 0%N false ;;?
    Ret (Err ExecuteError.SourceCancellationRequested).

(** A query whose callback lets it run. *)
Definition execute (input project : string) (config : ExecutorConfig) (context : ExecutionContext)
    : io_result ExecuteError QueryResult :=
  uncancelled (execute_with_cancel input project config context).
End execute.
