(* ===== verification/Sessions.v ===== *)
(** * What is known of an open source transaction

    Both executors set up a transaction before they run a generated statement
    in it: they look up the role, the owners of relations, assume the role and
    make settings.  A [session] records what these calls established; the class
    [SessionMonitor] is the interface to the monitors that track one, so that
    the steps are verified once for both.

    The second part is about the byte limit on the rows a statement returns. *)

From S2P Require Import Prelude Ordered Text Json Lsq Semantic Compiler Lsm Mutation Effects.
From S2P Require Import Database PublishedModel Executor.

Record session : Type := {
  read_only : bool;
  settings : list (string * string);            (** local settings *)
  members : list string;                        (** safe roles the login is a member of *)
  foreign : list (string * (string * string));  (** relations a role cannot own *)
  assumed : option string;                      (** the last batch that was run *)
}.

Definition opened (ro : bool) : session :=
  {| read_only := ro; settings := []; members := []; foreign := []; assumed := None |}.

Definition add_setting (s : string * string) (t : session) : session :=
  {| read_only := read_only t; settings := settings t ++ [s]; members := members t;
     foreign := foreign t; assumed := assumed t |}.
Definition add_member (r : string) (t : session) : session :=
  {| read_only := read_only t; settings := settings t; members := members t ++ [r];
     foreign := foreign t; assumed := assumed t |}.
Definition add_foreign (r : string * (string * string)) (t : session) : session :=
  {| read_only := read_only t; settings := settings t; members := members t;
     foreign := foreign t ++ [r]; assumed := assumed t |}.
Definition set_assumed (sql : string) (t : session) : session :=
  {| read_only := read_only t; settings := settings t; members := members t;
     foreign := foreign t; assumed := Some sql |}.

(** A role without superuser or [BYPASSRLS] rights, own or inherited. *)
Definition role_is_safe (row : RoleRow.t) : bool :=
  negb (RoleRow.rolsuper row || RoleRow.rolbypassrls row || RoleRow.can_assume_unsafe_role row).

(** Ordinary and partitioned tables. *)
Definition is_table (relation_kind : string) : bool :=
  bool_decide (relation_kind = "r") || bool_decide (relation_kind = "p").

Definition observe_one (t : session) (s : statement) : result db_error (row_of s) -> session :=
  match s as s0 return result db_error (row_of s0) -> session with
  | SET_CONFIG name value true => fun r =>
      match r with Ok _ => add_setting (name, value) t | Err _ => t end
  | _ => fun _ => t
  end.

Definition observe_opt (t : session) (s : statement)
    : result db_error (option (row_of s)) -> session :=
  match s as s0 return result db_error (option (row_of s0)) -> session with
  | ROLE_SQL role => fun r =>
      match r with
      | Ok (Some row) =>
          if role_is_safe row && RoleRow.is_member row then add_member role t else t
      | _ => t
      end
  | RELATION_OWNER_SQL role schema relation => fun r =>
      match r with Ok (Some false) => add_foreign (role, (schema, relation)) t | _ => t end
  | TARGET_RELATION_SQL role schema relation => fun r =>
      match r with
      | Ok (Some (false, kind)) =>
          if is_table kind then add_foreign (role, (schema, relation)) t else t
      | _ => t
      end
  | _ => fun _ => t
  end.

Definition observe_session (t : session) (op : operation) : answer op -> session :=
  match op as op0 return answer op0 -> session with
  | QueryOne Source s => observe_one t s
  | QueryOpt Source s => observe_opt t s
  | BatchExecute Source sql => fun r =>
      match r with Ok _ => set_assumed sql t | Err _ => t end
  | _ => fun _ => t
  end.

(** The calls that set a transaction up for a role. *)
Definition setup_call (role : string) (op : operation) : Prop :=
  match op with
  | QueryOne Source (SET_CONFIG _ _ true) => True
  | QueryOpt Source (ROLE_SQL _ | RELATION_OWNER_SQL _ _ _ | TARGET_RELATION_SQL _ _ _) => True
  | BatchExecute Source sql => sql = set_role_sql role
  | _ => False
  end.

(** ** Growth *)

Definition grows (role : string) (t t' : session) : Prop :=
  read_only t' = read_only t
  /\ settings t ⊆ settings t' /\ members t ⊆ members t' /\ foreign t ⊆ foreign t'
  /\ (assumed t' = assumed t \/ assumed t' = Some (set_role_sql role)).

#[export] Instance grows_preorder role : PreOrder (grows role).
Proof.
  split.
  - intros t. unfold grows. repeat split; auto.
  - intros t1 t2 t3 (R1 & S1 & M1 & F1 & A1) (R2 & S2 & M2 & F2 & A2).
    unfold grows. split; [congruence|]. split_and!; [set_solver..|].
    destruct A2 as [A2|A2]; [|by right]. destruct A1 as [A1|A1]; [left|right]; congruence.
Qed.

Lemma grows_setup role t op r : setup_call role op -> grows role t (observe_session t op r).
Proof.
  assert (Hrefl : grows role t t) by reflexivity.
  assert (Hs : forall x, grows role t (add_setting x t))
    by (intros x; unfold grows; simpl; split_and!; [done|set_solver..|by left]).
  assert (Hm : forall x, grows role t (add_member x t))
    by (intros x; unfold grows; simpl; split_and!; [done|set_solver..|by left]).
  assert (Hf : forall x, grows role t (add_foreign x t))
    by (intros x; unfold grows; simpl; split_and!; [done|set_solver..|by left]).
  assert (Ha : grows role t (set_assumed (set_role_sql role) t))
    by (unfold grows; simpl; split_and!; [done|set_solver..|by right]).
  destruct op as [| | | | |c s|[] s|[] s|[] sql| | |]; simpl; try done.
  - destruct s; simpl; try done; intros _.
    + destruct r as [[row|]|e]; try done. by destruct (role_is_safe row && RoleRow.is_member row).
    + by destruct r as [[[]|]|e].
    + destruct r as [[[[] kind]|]|e]; try done. by destruct (is_table kind).
  - case_statement s; simpl; try done. by destruct r.
  - intros ->. by destruct r.
Qed.

(** A transaction stays read-only, or writing, as it was opened. *)
Lemma observe_session_read_only t op r : read_only (observe_session t op r) = read_only t.
Proof.
  destruct op as [| | | | |c s|[] s|[] s|[] sql| | |]; simpl; try done.
  - destruct s; simpl; try done.
    + destruct r as [[row|]|e]; try done. by destruct (role_is_safe row && RoleRow.is_member row).
    + by destruct r as [[[]|]|e].
    + destruct r as [[[[] kind]|]|e]; try done. by destruct (is_table kind).
  - case_statement s; simpl; try done. by destruct r.
  - by destruct r.
Qed.

(** ** Monitors with a session *)

Class SessionMonitor {M : Type} (role : string) (allowed : M -> operation -> Prop)
    (observe : M -> forall op, answer op -> M) (get : M -> option session)
    (put : session -> M -> M) : Prop := {
  setup_allowed m t op : get m = Some t -> setup_call role op -> allowed m op;
  setup_observe m t op r :
    get m = Some t -> setup_call role op -> observe m op r = put (observe_session t op r) m;
  get_put t m : get (put t m) = Some t;
  put_put t t' m : put t (put t' m) = put t m;
  put_get t m : get m = Some t -> put t m = m;
}.

Section steps.
Context {M : Type} {role : string} {allowed : M -> operation -> Prop}
  {observe : M -> forall op, answer op -> M} {get : M -> option session}
  {put : session -> M -> M} `{HS : !SessionMonitor role allowed observe get put}.

(** [m'] is [m] with a session that has grown from [t] to one that satisfies [P]. *)
Definition reaches (m : M) (t : session) (P : session -> Prop) (m' : M) : Prop :=
  exists t', m' = put t' m /\ grows role t t' /\ P t'.

(** A result after which [P] is known on success, with errors in [F]. *)
Definition establishes {E A} (m : M) (t : session) (F : E -> Prop) (P : A -> session -> Prop)
    (m' : M) (r : result E A) : Prop :=
  match r with
  | Ok a => reaches m t (P a) m'
  | Err e => reaches m t (fun _ => F e) m'
  end.

Lemma setup_step op m t :
  get m = Some t -> setup_call role op ->
  monitored allowed observe (call op) m (fun m' r => m' = put (observe_session t op r) m).
Proof using HS.
  intros Ht Hop. apply monitored_call; [by eapply setup_allowed|]. intros r.
  by apply setup_observe.
Qed.

Lemma reaches_here m t (P : session -> Prop) : get m = Some t -> P t -> reaches m t P m.
Proof using HS. intros Ht HP. exists t. split_and!; [by rewrite put_get|reflexivity|done]. Qed.

Lemma reaches_trans m t P m1 t1 Q m2 :
  reaches m t P m1 -> get m1 = Some t1 -> reaches m1 t1 Q m2 ->
  reaches m t (fun t2 => Q t2 /\ P t1 /\ grows role t1 t2) m2.
Proof using HS.
  intros (t1' & -> & G1 & HP) Ht1 (t2 & -> & G2 & HQ). rewrite get_put in Ht1. simplify_eq.
  exists t2. rewrite put_put. split_and!; [done|by etrans|done..].
Qed.

Lemma reaches_mono m t (P Q : session -> Prop) m' :
  reaches m t P m' -> (forall t', P t' -> Q t') -> reaches m t Q m'.
Proof. intros (t' & -> & G & HP) HPQ. exists t'. auto. Qed.

Lemma reaches_get m t P m' : reaches m t P m' -> exists t', get m' = Some t' /\ P t' /\ grows role t t'.
Proof using HS. intros (t' & -> & G & HP). exists t'. by rewrite get_put. Qed.

(** Sequencing of steps that establish facts. *)
Lemma establishes_try {E A B} (p : prog answer (result E A)) (f : A -> prog answer (result E B))
    m t (F : E -> Prop) (P : A -> session -> Prop) (Q : B -> session -> Prop) :
  monitored allowed observe p m (establishes m t F P) ->
  (forall a m1 t1, get m1 = Some t1 -> P a t1 -> grows role t t1 ->
     monitored allowed observe (f a) m1 (establishes m1 t1 F Q)) ->
  monitored allowed observe (try_bind p f) m (establishes m t F Q).
Proof using HS.
  intros Hp Hf. eapply monitored_try; [exact Hp| |done].
  intros m1 a Hr. destruct (reaches_get _ _ _ _ Hr) as (t1 & Ht1 & HP & G).
  eapply monitored_mono; [by apply (Hf a m1 t1)|]. intros m2 [b|e] Hr2; simpl in *.
  - eapply reaches_mono; [by eapply reaches_trans|]. by intros t2 [? _].
  - eapply reaches_mono; [by eapply reaches_trans|]. by intros t2 [? _].
Qed.

Lemma establishes_lift {E A} (r : result E A) m t (F : E -> Prop) (P : A -> session -> Prop) :
  get m = Some t -> (forall a, r = Ok a -> P a t) -> (forall e, r = Err e -> F e) ->
  monitored allowed observe (lift r) m (establishes m t F P).
Proof using HS.
  intros Ht HP HF. destruct r as [a|e]; exists t; rewrite put_get by done;
    (split_and!; [done|reflexivity|]); auto.
Qed.

(** A loop that makes local settings. *)
Lemma settings_step l : forall m t,
  get m = Some t ->
  monitored allowed observe
    (each (fun '(name, value) => call (QueryOne Source (SET_CONFIG name value true))) l) m
    (establishes m t (fun _ => True) (fun _ t' => l ⊆ settings t' /\ assumed t' = assumed t)).
Proof using HS.
  induction l as [|[name value] l IH]; intros m t Ht.
  { simpl. exists t. rewrite put_get by done. split_and!; [done|reflexivity|set_solver|done]. }
  set (op := QueryOne Source (SET_CONFIG name value true)).
  cbn [each]. apply (establishes_try _ _ m t (fun _ => True) (fun _ t1 =>
    settings t1 = settings t ++ [(name, value)] /\ assumed t1 = assumed t)).
  - eapply monitored_mono; [exact (setup_step op m t Ht I)|]. intros m' [[]|e] ->.
    + exists (add_setting (name, value) t). split_and!; [done| |done..].
      exact (grows_setup role t op (Ok tt) I).
    + exists t. split_and!; [done|reflexivity|done].
  - intros [] m1 t1 Ht1 [Hs Ha] _. eapply monitored_mono; [by apply (IH m1 t1)|].
    intros m2 [[]|e] Hr; simpl in *; [|done]. destruct Hr as (t2 & -> & G & Hl & Ha2).
    exists t2. split_and!; [done..| |congruence]. destruct G as (_ & Hsub & _).
    rewrite Hs in Hsub. set_solver.
Qed.
End steps.

(** * The byte limit on returned rows

    Both executors count the bytes of the JSON array they build, with
    saturating additions for the comparison and wrapping ones for the counter.
    Under any limit below [usize::MAX] the counter is the exact size, and the
    loop keeps the longest prefix of the rows that fits. *)

(** ** Streams *)

Fixpoint stream_rows (s : row_stream) : list json :=
  match s with
  | Row value rest => value :: stream_rows rest
  | _ => []
  end.

(** The error a stream ends with, if any. *)
Fixpoint stream_error (s : row_stream) : option db_error :=
  match s with
  | Done => None
  | Failed e => Some e
  | Row _ rest => stream_error rest
  end.

(** ** Sizes *)

Section sizes.
Context `{Crates}.

Definition row_size (value : json) : N :=
  match json_to_string value with
  | Ok text => N.of_nat (String.length text)
  | Err _ => 0%N
  end.

(** The size of the array of [rows]: brackets, commas and rows. *)
Definition result_size (rows : list json) : N :=
  (2 + foldr (fun v n => row_size v + n) 0 rows + N.of_nat (pred (length rows)))%N.

Lemma result_size_snoc rows value :
  result_size (rows ++ [value]) = (result_size rows + separator_bytes rows + row_size value)%N.
Proof.
  unfold result_size, separator_bytes. rewrite foldr_snoc, length_app.
  assert (Hsum : forall n, foldr (fun v n => row_size v + n)%N n rows
                           = (foldr (fun v n => row_size v + n) 0 rows + n)%N).
  { induction rows as [|v rows IH]; intros n; simpl; [done|]. rewrite IH. lia. }
  rewrite Hsum. case_decide as Hnil; [subst; simpl; lia|].
  destruct rows as [|v rows]; [done|]. simpl. lia.
Qed.
End sizes.

Lemma with_row_exact maximum bytes_ separator row :
  (maximum < USIZE_MAX)%N -> (with_row bytes_ separator row <= maximum)%N ->
  wrapping_add bytes_ (wrapping_add separator row) = (bytes_ + separator + row)%N
  /\ (bytes_ + separator + row <= maximum)%N.
Proof.
  unfold with_row, saturating_add, wrapping_add. intros Hmax Hle.
  assert (Hs : (bytes_ + separator + row <= maximum)%N) by lia.
  split; [|done]. rewrite (N.mod_small (separator + row)) by lia. rewrite N.mod_small by lia. lia.
Qed.

Lemma with_row_exceeds maximum bytes_ separator row :
  (maximum < with_row bytes_ separator row)%N -> (maximum < bytes_ + separator + row)%N.
Proof. unfold with_row, saturating_add. lia. Qed.

(** ** What is kept of a stream *)

Section limits.
Context `{Crates} (maximum : N).

(** [rows] is the longest prefix of the stream that fits, and [truncated]
    tells whether something was left out. *)
Definition kept (s : row_stream) (rows : list json) (truncated : bool) : Prop :=
  Forall (fun v => is_array v = true) rows
  /\ (result_size rows <= N.max 2 maximum)%N
  /\ if truncated
     then exists v rest, stream_rows s = rows ++ v :: rest
          /\ (maximum < result_size (rows ++ [v]))%N
     else stream_rows s = rows /\ stream_error s = None.

(** The same for a loop that has already collected [before]. *)
Definition kept_after (before : list json) (s : row_stream) (rows : list json)
    (truncated : bool) : Prop :=
  exists more, rows = before ++ more
    /\ Forall (fun v => is_array v = true) more
    /\ (result_size rows <= N.max 2 maximum)%N
    /\ if truncated
       then exists v rest, stream_rows s = more ++ v :: rest
            /\ (maximum < result_size (rows ++ [v]))%N
       else stream_rows s = more /\ stream_error s = None.

Lemma kept_after_nil s rows truncated : kept_after [] s rows truncated -> kept s rows truncated.
Proof. intros (more & -> & H1 & H2 & H3). by split_and!. Qed.

Lemma kept_after_cons before value s rows truncated :
  is_array value = true -> kept_after (before ++ [value]) s rows truncated ->
  kept_after before (Row value s) rows truncated.
Proof.
  intros Hv (more & -> & Hall & Hsize & Hend). exists (value :: more).
  rewrite <- app_assoc in *. simpl in *. split_and!; [done|by constructor|done|].
  destruct truncated.
  - destruct Hend as (v & rest & -> & Hmax). eauto.
  - by destruct Hend as [-> ->].
Qed.

Lemma kept_after_stop before value s :
  (result_size before <= N.max 2 maximum)%N ->
  (maximum < result_size (before ++ [value]))%N ->
  kept_after before (Row value s) before true.
Proof.
  intros Hsize Hmax. exists []. rewrite app_nil_r. split_and!; [done|constructor|done|]. by eexists _, _.
Qed.

Lemma kept_after_done before :
  (result_size before <= N.max 2 maximum)%N -> kept_after before Done before false.
Proof. intros Hsize. exists []. rewrite app_nil_r. split_and!; [done|constructor|done..]. Qed.
End limits.

(** ** The loop of the query executor *)

(** A monitor of the rows the source statement returned. *)
Definition observe_stream (m : option row_stream) (op : operation)
    : answer op -> option row_stream :=
  match op as op0 return answer op0 -> option row_stream with
  | QueryRaw _ _ _ => fun r => match r with Ok s => Some s | Err _ => m end
  | _ => fun _ => m
  end.

Section fetch.
Context `{Crates} (maximum : N) (Hmax : (maximum < USIZE_MAX)%N).

Abbreviation watches p m Q := (monitored (fun _ _ => True) observe_stream p m Q).

Lemma fetch_keeps s : forall before duration m,
  (result_size before <= N.max 2 maximum)%N ->
  watches (fetch maximum s before (result_size before) duration) m (fun m' r =>
    m' = m /\ match r with
              | Ok execution =>
                  kept_after maximum before s (ExecutionRows.rows execution)
                    (ExecutionRows.truncated execution)
                  /\ ExecutionRows.byte_count execution = result_size (ExecutionRows.rows execution)
              | Err _ => True
              end).
Proof.
  induction s as [|e|value rest IH]; intros before duration m Hsize.
  - simpl. split_and!; [done| |done]. by apply kept_after_done.
  - done.
  - cbn [fetch]. destruct (is_array value) eqn:Harr; [|done]. cbn [negb].
    destruct (json_to_string value) as [text|e] eqn:Htext; [|done].
    assert (Hrow : row_size value = N.of_nat (String.length text)) by (unfold row_size; by rewrite Htext).
    rewrite <- Hrow. mcall; [done|]. cbn [observe_stream]. case_decide as Hlimit.
    + simpl. split_and!; [done| |done]. apply kept_after_stop; [done|].
      rewrite result_size_snoc. by apply with_row_exceeds.
    + apply N.nlt_ge, with_row_exact in Hlimit as [-> Hle]; [|done].
      rewrite <- result_size_snoc. eapply monitored_mono.
      * apply IH. rewrite result_size_snoc. lia.
      * intros m' [execution|e] [-> Hk]; (split; [done|]); [|done].
        destruct Hk as [Hk ->]. split; [|done]. by apply kept_after_cons.
Qed.
End fetch.
