(* ===== verification/ExecutorSpec.v ===== *)
(** * The protocol of the query executor

    A monitor of the calls of a request: which audit records were written, and
    what is known of the open source transaction.  The executor is checked
    against it function by function. *)

From S2P Require Import Prelude Ordered Text Json Lsq Semantic Compiler Lsm Mutation.
From S2P Require Import CompilerSpec Effects Database PublishedModel PublishedModelSpec.
From S2P Require Import Executor Sessions.

(** ** The monitor *)

Record monitor : Type := {
  started : option string;                 (** identifier of the started record *)
  finished : list FinishQueryAudit;        (** terminal records *)
  transaction : option session;            (** the transaction on the source *)
}.

Definition idle : monitor := {| started := None; finished := []; transaction := None |}.

Definition set_transaction (t : option session) (m : monitor) : monitor :=
  {| started := started m; finished := finished m; transaction := t |}.

Definition observe_audit (m : monitor) (s : statement) : result db_error (row_of s) -> monitor :=
  match s as s0 return result db_error (row_of s0) -> monitor with
  | START_QUERY_AUDIT _ => fun r =>
      match r with
      | Ok id => {| started := Some id; finished := finished m; transaction := transaction m |}
      | Err _ => m
      end
  | FINISH_QUERY_AUDIT a => fun _ =>
      {| started := started m; finished := finished m ++ [a]; transaction := transaction m |}
  | _ => fun _ => m
  end.

Definition observe (m : monitor) (op : operation) : answer op -> monitor :=
  match op as op0 return answer op0 -> monitor with
  | Begin Source _ ro => fun r =>
      match r with Ok _ => set_transaction (Some (opened ro)) m | Err _ => m end
  | Commit Source => fun _ => set_transaction None m
  | Rollback Source => fun _ => set_transaction None m
  | QueryOne Audit s => observe_audit m s
  | op => fun r =>
      match transaction m with
      | Some t => set_transaction (Some (observe_session t op r)) m
      | None => m
      end
  end.

(** The local settings a source statement runs under. *)
Definition required_settings (config : ExecutorConfig) : list (string * string) :=
  [("search_path", "pg_catalog"); ("TimeZone", "UTC")]
  ++ timeout_settings (ExecutorConfig.statement_timeout config)
       (ExecutorConfig.lock_timeout config) (ExecutorConfig.idle_transaction_timeout config).

(** The transaction is ready to run the statement of [compiled]: it is
    read-only, runs as the configured role, which is safe, may be assumed, and
    owns no relation of the query, with every setting in place. *)
Definition guarded (config : ExecutorConfig) (snapshot : SemanticSnapshot)
    (compiled : CompiledQuery) (t : session) : Prop :=
  read_only t = true
  /\ ExecutorConfig.database_role config ∈ members t
  /\ assumed t = Some (set_role_sql (ExecutorConfig.database_role config))
  /\ required_settings config ⊆ settings t
  /\ forall name, name ∈ Lineage.models (CompiledQuery.lineage compiled) ->
       exists model, model ∈ Snapshot.models snapshot /\ Model.semantic_name model = name
         /\ (ExecutorConfig.database_role config,
             (Relation.schema (Model.source model), Relation.relation (Model.source model)))
            ∈ foreign t.

Section protocol.
Context `{Crates, ModelParsers, Driver, LsqParser}.
Context (input : string) (config : ExecutorConfig).

(** A generated statement is the compiled form of the request. *)
Definition source_statement_allowed (m : monitor) (sql : string)
    (parameters : list (option string)) : Prop :=
  exists id normalized snapshot compiled t,
    started m = Some id /\ finished m = [] /\ transaction m = Some t
    /\ normalize_lsq lsq_from_slice input = Ok normalized
    /\ compile_lsq normalized snapshot default_options = Ok compiled
    /\ sql = result_wrapper_sql compiled
    /\ parameters = map (fun p => Some (parameter_text p)) (CompiledQuery.parameters compiled)
    /\ guarded config snapshot compiled t.

Definition statement_allowed (m : monitor) (c : connection) (s : statement) : Prop :=
  match s, c with
  | SET_CONFIG _ _ _, _ => True
  | START_QUERY_AUDIT _, Audit => started m = None
  | FINISH_QUERY_AUDIT a, Audit => started m = Some (fq_query_id a) /\ finished m = []
  | (AGGREGATION_ANCHOR_SCHEMA_AVAILABLE_SQL | MUTATION_SCHEMA_AVAILABLE_SQL), Source => True
  | _, _ => False
  end.

(** Statements that only read the semantic model or the catalog. *)
Definition lookup_allowed (s : statement) : Prop :=
  match s with
  | ROLE_SQL _ | RELATION_OWNER_SQL _ _ _ | TARGET_RELATION_SQL _ _ _ | REVISION_SQL _ => True
  | _ => False
  end.

Definition read_allowed (s : statement) : Prop :=
  match s with
  | MODELS_SQL _ | FIELDS_SQL _ | METRICS_SQL _ | LEGACY_METRICS_SQL _ | RELATIONSHIPS_SQL _
  | MUTATION_MODELS_SQL _ | MUTATION_FIELDS_SQL _ | MUTATION_CAPABILITIES_SQL _ _ => True
  | _ => False
  end.

Definition allowed (m : monitor) (op : operation) : Prop :=
  match op with
  | TlsConnectorNew | OnCancelHandle | Elapsed => True
  | Connect _ cfg => bounded_config cfg
  | Begin c _ ro => c = Source /\ ro = true /\ transaction m = None
  | Commit c | Rollback c => c = Source /\ is_Some (transaction m)
  | Query c s => c = Source /\ read_allowed s
  | QueryOpt c s => c = Source /\ lookup_allowed s
  | QueryOne c s => statement_allowed m c s
  | BatchExecute c sql =>
      c = Source /\ sql = set_role_sql (ExecutorConfig.database_role config)
  | QueryRaw c sql parameters => c = Source /\ source_statement_allowed m sql parameters
  end.

(** The terminal record agrees with what the caller gets. *)
Definition outcome_agrees (a : FinishQueryAudit) (r : result ExecuteError QueryResult) : Prop :=
  match r with
  | Ok q =>
      fq_status a = "succeeded" /\ fq_error_code a = None
      /\ fq_query_id a = QueryResult.query_id q
      /\ fq_row_count a = saturating_i64 (N.of_nat (length (QueryResult.rows q)))
      /\ fq_truncated a = QueryResult.truncated q
  | Err (ExecuteError.TerminalAudit _) => True
  | Err e => fq_status a = failure_status e /\ fq_error_code a = Some (execution_error_code e)
  end.

(** At the end no transaction is open, and a started request has exactly one
    terminal record, the one that agrees with its outcome. *)
Definition settled (m : monitor) (r : result ExecuteError QueryResult) : Prop :=
  transaction m = None
  /\ match started m with
     | None => finished m = [] /\ exists e, r = Err e
     | Some id => exists a, finished m = [a] /\ fq_query_id a = id /\ outcome_agrees a r
     end.
End protocol.

(** The relations that are checked are the sources of the query's models. *)
Lemma add_relations_ok snapshot names : forall acc relations,
  try_fold (add_relation snapshot) acc names = Ok relations ->
  acc ⊆ relations
  /\ forall name, name ∈ names ->
     exists model, model ∈ Snapshot.models snapshot /\ Model.semantic_name model = name
       /\ (Relation.schema (Model.source model), Relation.relation (Model.source model))
          ∈ relations.
Proof.
  induction names as [|n names IH]; intros acc relations Hf; simpl in Hf.
  - unbind. split; [done|]. by intros ? ?%not_elem_of_nil.
  - unbind. match goal with H : add_relation _ _ _ = Ok _ |- _ => unfold add_relation in H end.
    unbind. match goal with H : List.find _ _ = Some ?m |- _ =>
      apply find_elem in H as [Hm Hn%bool_decide_eq_true]; rename m into model end.
    match goal with H : try_fold _ _ _ = Ok _ |- _ => apply IH in H as [Hsub Hrest] end.
    split; [intros r Hr; apply Hsub, elem_of_bs_insert; by right|].
    intros name [->|Hname]%elem_of_cons; [|by apply Hrest].
    exists model. split_and!; [done..|]. apply Hsub, elem_of_bs_insert. by left.
Qed.

(** ** The executor against the monitor *)

Section checks.
Context `{Crates, ModelParsers, Driver, LsqParser}.
Context (input : string) (config : ExecutorConfig).

Abbreviation role := (ExecutorConfig.database_role config).
Abbreviation checks p m Q := (monitored (allowed input config) observe p m Q).
Abbreviation unmoved p m := (quiet (allowed input config) observe p m).
Abbreviation establish p m t P :=
  (monitored (allowed input config) observe p m
     (establishes (role := role) (put := fun t => set_transaction (Some t)) m t (fun _ => True) P)).

Lemma set_transaction_id m t : transaction m = t -> set_transaction t m = m.
Proof. destruct m. simpl. by intros <-. Qed.

#[local] Instance executor_calm : Calm (allowed input config) observe.
Proof.
  assert (Hstay : forall m, match transaction m with
            Some t => set_transaction (Some t) m | None => m end = m).
  { intros m. destruct (transaction m) eqn:Ht; [by apply set_transaction_id|done]. }
  split; intros m [| | | | |c s|c s|c s| | | |]; try done; try (intros ? _; apply Hstay);
    destruct c, s; try done; try (intros ? _; apply Hstay); destruct is_local; try done;
    intros ? _; apply Hstay.
Qed.

#[local] Instance executor_session :
  SessionMonitor role (allowed input config) observe transaction
    (fun t => set_transaction (Some t)).
Proof.
  split; [| |done|done|intros; by apply set_transaction_id].
  - intros m t [| | | | |c s|c s|c s|c sql| | |] Ht; try done; destruct c; try done;
      by case_statement s.
  - intros m t [| | | | |c s|c s|c s|c sql| | |] r Ht Hop; try done; destruct c; try done;
      cbn [observe]; by rewrite Ht.
Qed.

Lemma or_rollback_checks {E A} (body : io_result E A) m Q :
  checks body m (fun m' r =>
    match r with
    | Ok a => Q m' (Ok a)
    | Err e => is_Some (transaction m') /\ Q (set_transaction None m') (Err e)
    end) ->
  checks (or_rollback Source body) m Q.
Proof.
  intros Hb. unfold or_rollback. eapply monitored_seq; [exact Hb|].
  intros m' [a|e]; [done|]. intros [Ht HQ]. by split; [|intros []].
Qed.

(** Loading the semantic model leaves no transaction behind. *)
Lemma load_published_unmoved project m :
  transaction m = None -> unmoved (load_published Source project) m.
Proof.
  intros Ht. unfold load_published. apply quiet_try; [|done].
  unfold load_published_internal, quiet. mcall; [by split_and!| |done]. cbn [observe].
  apply monitored_bind, or_rollback_checks. eapply monitored_mono; [apply read_published_quiet|].
  intros m' [a'|e] ->.
  - mcall; [by split|change (set_transaction None m = m); by apply set_transaction_id..].
  - split; [done|]. change (set_transaction None m = m). by apply set_transaction_id.
Qed.

(** Steps of the guard. *)
Lemma fix_search_path_checks m t :
  transaction m = Some t ->
  establish fix_search_path m t (fun _ t' => ("search_path", "pg_catalog") ∈ settings t').
Proof.
  intros Ht. set (op := QueryOne Source (SET_CONFIG "search_path" "pg_catalog" true)).
  apply monitored_last_attempt. eapply monitored_mono; [exact (setup_step op m t Ht I)|].
  intros m' [[]|e] ->; eexists; (split; [done|]); split; try exact (grows_setup role t op _ I);
    [|done]. simpl. set_solver.
Qed.

Lemma verify_role_checks m t :
  transaction m = Some t ->
  establish (verify_role role) m t (fun is_member t' => is_member = true -> role ∈ members t').
Proof.
  intros Ht. set (op := QueryOpt Source (ROLE_SQL role)).
  apply monitored_try_attempt. eapply monitored_mono; [exact (setup_step op m t Ht I)|].
  intros m' [row|e] ->.
  2: { eexists. split; [done|]. split; [exact (grows_setup role t op (Err e) I)|done]. }
  pose proof (grows_setup role t op (Ok row) I) as G.
  destruct row as [row|]; msimpl; [|eexists; by split_and!].
  simpl in G. unfold role_is_safe in *.
  destruct (RoleRow.rolsuper row || RoleRow.rolbypassrls row || RoleRow.can_assume_unsafe_role row);
    simpl in *; [eexists; by split_and!|].
  destruct (RoleRow.is_member row); simpl; (eexists; split; [done|]; split; [done|]);
    [simpl; set_solver|done].
Qed.

(** One relation is found not to be owned by the role. *)
Lemma verify_relation_owner_checks relation m t :
  transaction m = Some t ->
  establish (verify_relation_owner role relation) m t
    (fun _ t' => (role, relation) ∈ foreign t').
Proof.
  intros Ht. destruct relation as [schema relation].
  set (op := QueryOpt Source (RELATION_OWNER_SQL role schema relation)).
  apply monitored_try_attempt. eapply monitored_mono; [exact (setup_step op m t Ht I)|].
  intros m' [row|e] ->.
  2: { eexists. split; [done|]. split; [exact (grows_setup role t op (Err e) I)|done]. }
  pose proof (grows_setup role t op (Ok row) I) as G.
  destruct row as [[]|]; msimpl; (eexists; split; [done|]; split; [exact G|]); try done.
  simpl. set_solver.
Qed.

Lemma each_owner_checks relations : forall m t,
  transaction m = Some t ->
  establish (each (verify_relation_owner role) relations) m t
    (fun _ t' => Forall (fun relation => (role, relation) ∈ foreign t') relations).
Proof.
  induction relations as [|relation l IH]; intros m t Ht.
  { exists t. by rewrite set_transaction_id. }
  cbn [each]. eapply establishes_try; [by apply verify_relation_owner_checks|].
  intros [] m1 t1 Ht1 Hfor _. eapply monitored_mono; [by apply (IH m1 t1)|].
  intros m2 [[]|e] Hr; [|done]. destruct Hr as (t2 & -> & G & Hall).
  exists t2. split_and!; [done..|]. constructor; [by apply G|done].
Qed.

Lemma verify_relation_ownership_checks snapshot compiled m t :
  transaction m = Some t ->
  establish (verify_relation_ownership snapshot compiled role) m t (fun _ t' =>
    forall name, name ∈ Lineage.models (CompiledQuery.lineage compiled) ->
    exists model, model ∈ Snapshot.models snapshot /\ Model.semantic_name model = name
      /\ (role, (Relation.schema (Model.source model), Relation.relation (Model.source model)))
         ∈ foreign t').
Proof.
  intros Ht. unfold verify_relation_ownership. apply monitored_try_lift.
  - intros relations [_ Hrel]%add_relations_ok.
    eapply monitored_mono; [by apply each_owner_checks|]. intros m' [[]|e] Hr; [|done].
    destruct Hr as (t' & -> & G & Hfor). exists t'. split_and!; [done..|].
    intros name (model & Hm & Hn & Hel)%Hrel. exists model. split_and!; [done..|].
    rewrite Forall_forall in Hfor. by apply Hfor.
  - intros e _. by apply (reaches_here (role := role) (put := fun t => set_transaction (Some t))).
Qed.

Lemma apply_configuration_checks m t :
  transaction m = Some t ->
  establish (apply_transaction_configuration config) m t (fun _ t' =>
    assumed t' = Some (set_role_sql role)
    /\ ("TimeZone", "UTC") ∈ settings t'
    /\ timeout_settings (ExecutorConfig.statement_timeout config)
         (ExecutorConfig.lock_timeout config)
         (ExecutorConfig.idle_transaction_timeout config) ⊆ settings t').
Proof.
  intros Ht. unfold apply_transaction_configuration.
  apply (establishes_try _ _ m t (fun _ => True) (fun _ t1 => assumed t1 = Some (set_role_sql role))).
  { set (op := BatchExecute Source (set_role_sql role)). apply monitored_last_attempt.
    eapply monitored_mono; [exact (setup_step op m t Ht eq_refl)|].
    intros m' [[]|e] ->; eexists; (split; [done|]);
      split; try exact (grows_setup role t op _ eq_refl); done. }
  intros _ m1 t1 Ht1 Ha1 _.
  eapply establishes_try.
  { apply monitored_last_attempt. eapply monitored_mono; [by apply settings_step|].
    intros m' [[]|e] Hr; exact Hr. }
  intros _ m2 t2 Ht2 [Hl Ha2] _.
  set (op := QueryOne Source (SET_CONFIG "TimeZone" "UTC" true)).
  apply monitored_last_attempt. eapply monitored_mono; [exact (setup_step op m2 t2 Ht2 I)|].
  intros m' [[]|e] ->; (eexists; split; [done|]); (split; [exact (grows_setup role t2 op _ I)|]);
    [|done].
  simpl. split_and!; [congruence|set_solver|]. etrans; [exact Hl|]. set_solver.
Qed.

Lemma guard_source_checks snapshot compiled m t :
  transaction m = Some t -> read_only t = true ->
  establish (guard_source snapshot compiled config) m t
    (fun _ t' => guarded config snapshot compiled t').
Proof.
  intros Ht Hro. unfold guard_source.
  eapply establishes_try; [by apply fix_search_path_checks|]. intros [] m1 t1 Ht1 Hpath G1.
  eapply establishes_try; [by apply verify_role_checks|]. intros member m2 t2 Ht2 Hmember G2.
  eapply establishes_try; [by apply verify_relation_ownership_checks|].
  intros [] m3 t3 Ht3 Hfor G3.
  eapply (establishes_try _ _ _ _ _ (fun _ _ => member = true)).
  { apply establishes_lift; [done| |done]. intros _ Hm%fail_if_ok. by apply negb_false_iff. }
  intros _ m4 t4 Ht4 -> G4.
  eapply monitored_mono; [by apply apply_configuration_checks|].
  intros m5 [[]|e] Hr; [|done]. destruct Hr as (t5 & -> & G5 & Hassumed & Hzone & Htimeouts).
  exists t5. split_and!; [done..|]. assert (G35 : grows role t3 t5) by (by etrans).
  assert (G25 : grows role t2 t5) by (by etrans). assert (G15 : grows role t1 t5) by (by etrans).
  split_and!; [|by apply G25, Hmember|done| |].
  - rewrite <- Hro. destruct G15 as [-> _]. apply G1.
  - intros x [[->|[->|Hx%not_elem_of_nil]%elem_of_cons]%elem_of_cons|Hx]%elem_of_app; try done.
    + by apply G15.
    + by apply Htimeouts.
  - intros name (model & Hm & Hn & Hel)%Hfor. exists model. split_and!; [done..|]. by apply G35.
Qed.

Lemma fetch_quiet maximum stream : forall rows byte_count duration m,
  unmoved (fetch maximum stream rows byte_count duration) m.
Proof.
  induction stream as [|e|value rest IH]; intros rows byte_count duration m; [done..|].
  cbn [fetch]. quiet; try done. intros r. by apply calm_observe.
Qed.

Lemma execute_compiled_quiet id normalized snapshot compiled m :
  normalize_lsq lsq_from_slice input = Ok normalized ->
  compile_lsq normalized snapshot default_options = Ok compiled ->
  started m = Some id -> finished m = [] -> transaction m = None ->
  unmoved (execute_compiled snapshot compiled config) m.
Proof.
  intros Hn Hc Hs Hf Ht. unfold execute_compiled, quiet.
  mcall; [by split_and!| |done]. cbn [observe]. apply monitored_bind, or_rollback_checks.
  set (m0 := set_transaction _ m).
  assert (Hend : forall t, set_transaction None (set_transaction (Some t) m0) = m)
    by (intros t; by apply (set_transaction_id m)).
  eapply monitored_try; [by apply (guard_source_checks _ _ m0)| |].
  2: { intros m1 e (t1 & -> & _). split; [done|apply Hend]. }
  intros m1 [] (t1 & -> & _ & Hguard). mcall; [| |split; [done|apply Hend]].
  - split; [done|]. by exists id, normalized, snapshot, compiled, t1.
  - cbn [observe transaction set_transaction observe_session].
    eapply monitored_mono; [apply fetch_quiet|].
    intros m2 [rows|e] ->; [mcall; [done|apply Hend..]|split; [done|apply Hend]].
Qed.

(** A terminal record after which the request returns. *)
Lemma finish_audit_settles query_id status code dms sms rows bytes_ trunc
    (r : result ExecuteError QueryResult) m :
  started m = Some query_id -> finished m = [] -> transaction m = None ->
  (forall a, fq_query_id a = query_id -> fq_status a = status -> fq_error_code a = code ->
     fq_row_count a = saturating_i64 rows -> fq_truncated a = trunc -> outcome_agrees a r) ->
  checks (finish_audit query_id status code dms sms rows bytes_ trunc ;;? Ret r) m settled.
Proof.
  intros Hs Hf Ht Hr. unfold finish_audit. mcall; [by split|..]; cbn [observe observe_audit];
    split; try done; simpl; rewrite Hs, Hf; eexists; (split; [done|]); split; try done.
  by apply Hr.
Qed.

Lemma run_recorded_settles id published normalized compiled m :
  normalize_lsq lsq_from_slice input = Ok normalized ->
  compile_lsq normalized (PublishedModel.snapshot published) default_options = Ok compiled ->
  started m = Some id -> finished m = [] -> transaction m = None ->
  checks (run_recorded published normalized compiled config id) m settled.
Proof.
  intros Hn Hc Hs Hf Ht. unfold run_recorded.
  apply monitored_quiet; [by eapply execute_compiled_quiet|]. intros outcome.
  mcalm. destruct outcome as [execution|e].
  - apply finish_audit_settles; [done..|]. intros f <- Hst Hco Hrc Htr. simpl. by split_and!.
  - apply finish_audit_settles; [done..|]. intros f _ Hst Hco _ _. by destruct e.
Qed.

(** Every request follows the protocol and settles. *)
Lemma execute_settles project context :
  checks (execute_with_cancel input project config context) idle settled.
Proof.
  assert (Hidle : forall e, settled idle (Err e)) by (intros e; split; [done|by split; [|exists e]]).
  unfold execute_with_cancel, connect_runtime, connect_audit.
  apply monitored_try_quiet; [by quiet|intros _|done].
  apply monitored_try_quiet; [by apply quiet_attempt, load_published_unmoved|intros published|done].
  apply monitored_try_lift; [intros normalized Hn%map_err_ok|done]. mcalm.
  apply monitored_try_lift; [intros compiled Hc%map_err_ok|done]. mcalm.
  apply monitored_try_quiet; [by quiet|intros _|done].
  unfold write_started_audit. mcall; [done| |done]. cbn [observe observe_audit].
  mcalm. match goal with go_on : bool |- _ => destruct go_on end.
  - by eapply run_recorded_settles.
  - by apply finish_audit_settles.
Qed.
End checks.
