(* ===== verification/MutationExecutor.v ===== *)
(** * The mutation executor ([mutation_executor.rs])

    A mutation is normalised and compiled, then claimed, executed, recorded and
    committed in one guarded transaction; a claim that was executed before is
    replayed.  Every failure is recorded over a connection of its own.

    Names that [executor.rs] declares too are declared here again, as in the
    source; the helpers whose text is the same there are used from [Executor]. *)

From S2P Require Import Prelude Ordered Text Json Lsq Semantic Compiler Lsm Mutation Effects.
From S2P Require Import Database PublishedModel Executor.

Module MutationExecutorConfig.
Record MutationExecutorConfig : Type := mk {
  database_url : string;
  database_url_variable : string;
  database_password : option string;
  audit_database_url : string;
  audit_database_url_variable : string;
  audit_database_password : option string;
  database_role : string;
  max_result_bytes : N;
  statement_timeout : Duration;
  lock_timeout : Duration;
  idle_transaction_timeout : Duration;
}.
End MutationExecutorConfig.
Abbreviation MutationExecutorConfig := MutationExecutorConfig.MutationExecutorConfig.

Module MutationResult.
Record MutationResult : Type := mk {
  schema_version : string;
  mutation_id : string;
  semantic_revision : string;
  operation : MutationOperation;
  model : string;
  columns : list OutputColumn;
  rows : list json;
  affected_rows : N;
  replayed : bool;
  lineage : MutationLineage;
  warnings : list string;
}.
End MutationResult.
Abbreviation MutationResult := MutationResult.MutationResult.

(** [Panic] is not a variant of the source: it stands for unwinding from an
    index out of range, which the executor inherits from the compiler. *)
Module MutationExecuteError.
Inductive MutationExecuteError : Type :=
| InvalidEnvironmentVariableName (variable : string)
| MissingEnvironmentVariable (variable : string)
| InvalidEnvironmentVariable (variable : string)
| InvalidIntegerConfiguration (variable : string)
| InvalidDatabaseRole
| MutationConnect (variable : string)
| AuditConnect (variable : string)
| PublishedModel (source : PublishedModelError)
| Lsm (source : LsmError)
| Compile (source : MutationCompileError)
| FailureAudit (source : db_error)
| StartTransaction (source : db_error)
| DatabaseRoleNotFound
| DatabaseRoleMembership
| UnsafeDatabaseRole
| TargetRelationNotFound
| TargetRelationOwner
| UnsafeTargetRelation
| TransactionConfiguration (source : db_error)
| Claim (source : db_error)
| IdempotencyConflict
| Cancelled (source : db_error)
| CancellationRequested
| Execution (source : db_error)
| InvalidRowShape
| ResultByteLimitExceeded
| AffectedRowMismatch
| Serialization (source : string)
| FinishAudit (source : db_error)
| CommitIndeterminate (source : db_error)
| InvalidReplayResult
| Reconciliation (source : db_error)
| InvalidIdempotencyKey
| Panic.
End MutationExecuteError.
Abbreviation MutationExecuteError := MutationExecuteError.MutationExecuteError.

(** ** Configuration *)

Section configuration.
Context (var : environment).

Definition required_environment (variable : string) : result MutationExecuteError string :=
  map_err (fun error => match error with
           | NotPresent => MutationExecuteError.MissingEnvironmentVariable variable
           | NotUnicode => MutationExecuteError.InvalidEnvironmentVariable variable
           end) (var variable).

Definition positive_integer_environment (variable : string) (default : N)
    : result MutationExecuteError N :=
  match var variable with
  | Ok value =>
      ok_or (parsed ← parse_u64 value; if decide (0 < parsed)%N then Some parsed else None)
        (MutationExecuteError.InvalidIntegerConfiguration variable)
  | Err NotPresent => Ok default
  | Err NotUnicode => Err (MutationExecuteError.InvalidIntegerConfiguration variable)
  end.

Definition check_variable_name (variable : string) : result MutationExecuteError unit :=
  fail_if (negb (valid_environment_variable_name variable))
    (MutationExecuteError.InvalidEnvironmentVariableName variable).

Definition from_environment_with_passwords_and_role (database_url_variable : string)
    (database_password_variable : option string) (audit_database_url_variable : string)
    (audit_database_password_variable : option string) (database_role : string)
    : result MutationExecuteError MutationExecutorConfig :=
  try_each check_variable_name
    ([database_url_variable] ++ option_list database_password_variable
     ++ [audit_database_url_variable] ++ option_list audit_database_password_variable);;
  fail_if (negb (valid_database_role database_role)) MutationExecuteError.InvalidDatabaseRole;;
  database_url ← required_environment database_url_variable;
  database_password ← transpose required_environment database_password_variable;
  audit_database_url ← required_environment audit_database_url_variable;
  audit_database_password ← transpose required_environment audit_database_password_variable;
  max_result_bytes ←
    positive_integer_environment "POSTGRESEM_MAX_MUTATION_RESULT_BYTES"
      DEFAULT_MAX_RESULT_BYTES;
  statement_timeout ←
    positive_integer_environment "POSTGRESEM_MUTATION_STATEMENT_TIMEOUT_MS"
      DEFAULT_STATEMENT_TIMEOUT_MS;
  lock_timeout ←
    positive_integer_environment "POSTGRESEM_MUTATION_LOCK_TIMEOUT_MS" DEFAULT_LOCK_TIMEOUT_MS;
  idle_transaction_timeout ←
    positive_integer_environment "POSTGRESEM_MUTATION_IDLE_IN_TRANSACTION_SESSION_TIMEOUT_MS"
      DEFAULT_IDLE_TRANSACTION_TIMEOUT_MS;
  Ok {| MutationExecutorConfig.database_url := database_url;
        MutationExecutorConfig.database_url_variable := database_url_variable;
        MutationExecutorConfig.database_password := database_password;
        MutationExecutorConfig.audit_database_url := audit_database_url;
        MutationExecutorConfig.audit_database_url_variable := audit_database_url_variable;
        MutationExecutorConfig.audit_database_password := audit_database_password;
        MutationExecutorConfig.database_role := database_role;
        MutationExecutorConfig.max_result_bytes := max_result_bytes;
        MutationExecutorConfig.statement_timeout := from_millis statement_timeout;
        MutationExecutorConfig.lock_timeout := from_millis lock_timeout;
        MutationExecutorConfig.idle_transaction_timeout :=
          from_millis idle_transaction_timeout |}.

Definition from_environment_with_passwords (database_url_variable : string)
    (database_password_variable : option string) (audit_database_url_variable : string)
    (audit_database_password_variable : option string) (database_role_variable : string)
    : result MutationExecuteError MutationExecutorConfig :=
  try_each check_variable_name
    ([database_url_variable] ++ option_list database_password_variable
     ++ [audit_database_url_variable] ++ option_list audit_database_password_variable
     ++ [database_role_variable]);;
  database_role ← required_environment database_role_variable;
  from_environment_with_passwords_and_role database_url_variable database_password_variable
    audit_database_url_variable audit_database_password_variable database_role.

Definition from_environment (database_url_variable audit_database_url_variable
    database_role_variable : string) : result MutationExecuteError MutationExecutorConfig :=
  from_environment_with_passwords database_url_variable None audit_database_url_variable None
    database_role_variable.
End configuration.

Definition with_database_role (config : MutationExecutorConfig) (database_role : string)
    : result MutationExecuteError MutationExecutorConfig :=
  fail_if (negb (valid_database_role database_role)) MutationExecuteError.InvalidDatabaseRole;;
  Ok (MutationExecutorConfig.mk (MutationExecutorConfig.database_url config)
        (MutationExecutorConfig.database_url_variable config)
        (MutationExecutorConfig.database_password config)
        (MutationExecutorConfig.audit_database_url config)
        (MutationExecutorConfig.audit_database_url_variable config)
        (MutationExecutorConfig.audit_database_password config) database_role
        (MutationExecutorConfig.max_result_bytes config)
        (MutationExecutorConfig.statement_timeout config)
        (MutationExecutorConfig.lock_timeout config)
        (MutationExecutorConfig.idle_transaction_timeout config)).

Definition connect_mutation `{Driver} (config : MutationExecutorConfig)
    : io_result MutationExecuteError unit :=
  attempt (fun _ => MutationExecuteError.MutationConnect
                      (MutationExecutorConfig.database_url_variable config))
    (connect Source (MutationExecutorConfig.database_url config)
       (MutationExecutorConfig.database_password config)) ;;?
  attempt MutationExecuteError.TransactionConfiguration
    (configure_session_timeouts Source (MutationExecutorConfig.statement_timeout config)
       (MutationExecutorConfig.lock_timeout config)
       (MutationExecutorConfig.idle_transaction_timeout config)).

Definition connect_audit `{Driver} (config : MutationExecutorConfig)
    : io_result MutationExecuteError unit :=
  attempt (fun _ => MutationExecuteError.AuditConnect
                      (MutationExecutorConfig.audit_database_url_variable config))
    (connect Audit (MutationExecutorConfig.audit_database_url config)
       (MutationExecutorConfig.audit_database_password config)) ;;?
  attempt MutationExecuteError.TransactionConfiguration
    (configure_session_timeouts Audit (MutationExecutorConfig.statement_timeout config)
       (MutationExecutorConfig.lock_timeout config)
       (MutationExecutorConfig.idle_transaction_timeout config)).

(** ** Guards of the mutation transaction *)

Definition fix_search_path : io_result MutationExecuteError unit :=
  attempt MutationExecuteError.TransactionConfiguration
    (call (QueryOne Source (SET_CONFIG "search_path" "pg_catalog" true))).

Definition verify_role (database_role : string) : io_result MutationExecuteError bool :=
  row ←? attempt MutationExecuteError.TransactionConfiguration
           (call (QueryOpt Source (ROLE_SQL database_role)));
  row ←? lift (ok_or row MutationExecuteError.DatabaseRoleNotFound);
  lift (fail_if (RoleRow.rolsuper row || RoleRow.rolbypassrls row
                 || RoleRow.can_assume_unsafe_role row)
          MutationExecuteError.UnsafeDatabaseRole) ;;?
  Ret (Ok (RoleRow.is_member row)).

Definition preflight_role `{Driver} (config : MutationExecutorConfig)
    : io_result MutationExecuteError unit :=
  connect_mutation config ;;?
  attempt MutationExecuteError.StartTransaction (call (Begin Source None true)) ;;?
  or_rollback Source
    (fix_search_path ;;?
     is_member ←? verify_role (MutationExecutorConfig.database_role config);
     lift (fail_if (negb is_member) MutationExecuteError.DatabaseRoleMembership)) ;;?
  attempt MutationExecuteError.TransactionConfiguration (call (Commit Source)).

Definition verify_target_relation (published : PublishedModel) (compiled : CompiledMutation)
    (database_role : string) : io_result MutationExecuteError unit :=
  model ←? lift (ok_or (List.find (fun model =>
                   bool_decide (Model.semantic_name model = CompiledMutation.model compiled))
                   (Snapshot.models (PublishedModel.snapshot published)))
                 MutationExecuteError.TargetRelationNotFound);
  row ←? attempt MutationExecuteError.TransactionConfiguration
           (call (QueryOpt Source (TARGET_RELATION_SQL database_role
                    (Relation.schema (Model.source model))
                    (Relation.relation (Model.source model)))));
  '(can_assume_owner, relation_kind) ←?
    lift (ok_or row MutationExecuteError.TargetRelationNotFound);
  lift (fail_if can_assume_owner MutationExecuteError.TargetRelationOwner) ;;?
  lift (fail_if (negb (bool_decide (relation_kind = "r") || bool_decide (relation_kind = "p")))
          MutationExecuteError.UnsafeTargetRelation).

Definition apply_transaction_configuration (config : MutationExecutorConfig)
    : io_result MutationExecuteError unit :=
  attempt MutationExecuteError.TransactionConfiguration
    (call (BatchExecute Source
             (set_role_sql (MutationExecutorConfig.database_role config)))) ;;?
  attempt MutationExecuteError.TransactionConfiguration
    (each (fun '(name, milliseconds) =>
             call (QueryOne Source (SET_CONFIG name milliseconds true)))
       (timeout_settings (MutationExecutorConfig.statement_timeout config)
          (MutationExecutorConfig.lock_timeout config)
          (MutationExecutorConfig.idle_transaction_timeout config))) ;;?
  attempt MutationExecuteError.TransactionConfiguration
    (call (QueryOne Source (SET_CONFIG "TimeZone" "UTC" true))).

(** ** The claim *)

Definition operation_name (operation : MutationOperation) : string :=
  match operation with
  | MutationOperation.Insert => "insert"
  | MutationOperation.Upsert => "upsert"
  end.

Definition parameter_types (parameters : list MutationParameter) : json :=
  JArr (map (fun p => DataType.to_json (MutationParameter.data_type p)) parameters).

Definition lineage_to_json (l : MutationLineage) : json :=
  JObj [("model", JStr (MutationLineage.model l));
        ("fields", JArr (map JStr (MutationLineage.fields l)));
        ("returning_fields", JArr (map JStr (MutationLineage.returning_fields l)));
        ("source_columns", JArr (map JStr (MutationLineage.source_columns l)))].

Section claim.
Context `{Crates}.

Definition mutation_authority_hash (context : ExecutionContext) : string :=
  sha256 (ExecutionContext.authority_id context).

Definition legacy_mutation_authority_hash (context : ExecutionContext) (database_role : string)
    : result MutationExecuteError string :=
  text ← map_err MutationExecuteError.Serialization
           (json_to_string (JArr [JStr (sha256 (ExecutionContext.principal_subject context));
                                  JStr (ExecutionContext.config_profile context);
                                  JStr database_role]));
  Ok (sha256 text).

(** [i64::try_from] of a [usize]. *)
Definition i64_try_from (n : N) : result MutationExecuteError Z :=
  fail_if (bool_decide (I64_MAX < Z.of_N n)%Z) MutationExecuteError.AffectedRowMismatch;;
  Ok (Z.of_N n).

Definition claim_mutation (project : string) (published : PublishedMutationModel)
    (normalized : NormalizedLsm) (compiled : CompiledMutation) (config : MutationExecutorConfig)
    (context : ExecutionContext) (validation_duration compile_duration : Duration)
    : io_result MutationExecuteError Claim :=
  let mutation := NormalizedLsm.mutation normalized in
  let model := PublishedMutationModel.published published in
  legacy ←? lift (legacy_mutation_authority_hash context
                    (MutationExecutorConfig.database_role config));
  requested_rows ←? lift (i64_try_from (N.of_nat (CompiledMutation.expected_rows compiled)));
  attempt MutationExecuteError.Claim
    (call (QueryOne Source (CLAIM_MUTATION
      {| cm_project := project;
         cm_idempotency_key_hash := NormalizedLsm.idempotency_key_hash normalized;
         cm_authority_hash := mutation_authority_hash context;
         cm_schema_version := Lsm.schema_version mutation;
         cm_lsm_hash := NormalizedLsm.hash normalized;
         cm_revision_id := PublishedModel.revision_id model;
         cm_revision_hash := Snapshot.revision_hash (PublishedModel.snapshot model);
         cm_principal_subject_hash := sha256 (ExecutionContext.principal_subject context);
         cm_compiler_version := MUTATION_COMPILER_SEMANTIC_VERSION;
         cm_config_profile := ExecutionContext.config_profile context;
         cm_operation := operation_name (CompiledMutation.operation compiled);
         cm_model := CompiledMutation.model compiled;
         cm_statement_hash := CompiledMutation.statement_hash compiled;
         cm_mutation_hash := CompiledMutation.mutation_hash compiled;
         cm_parameter_types := parameter_types (CompiledMutation.parameters compiled);
         cm_lineage := to_value (lineage_to_json (CompiledMutation.lineage compiled));
         cm_policy_context :=
           to_value (JObj
             [("database_role", JStr (MutationExecutorConfig.database_role config));
              ("legacy_authority_hash", JStr legacy);
              ("project", JStr project);
              ("capability_profile", JStr (MutationCapabilities.profile
                                             (PublishedMutationModel.capabilities published)))]);
         cm_requested_rows := requested_rows;
         cm_validation_ms := duration_milliseconds validation_duration;
         cm_compile_ms := duration_milliseconds compile_duration |}))).

Definition replay_rows (result : option json) : Prelude.result MutationExecuteError (list json) :=
  value ← ok_or result MutationExecuteError.InvalidReplayResult;
  match value with
  | JArr rows =>
      fail_if (negb (forallb is_array rows)) MutationExecuteError.InvalidReplayResult;;
      Ok rows
  | _ => Err MutationExecuteError.InvalidReplayResult
  end.

(** ** The statement *)

Definition result_wrapper_sql (compiled : CompiledMutation) : string :=
  "WITH mutation_result AS (" +:+ nl +:+ CompiledMutation.statement compiled +:+ nl
  +:+ ")" +:+ nl +:+ "SELECT jsonb_build_array("
  +:+ join ", " (map (result_column "mutation_result")
                   (CompiledMutation.returning_schema compiled))
  +:+ ") AS row_data" +:+ nl +:+ "FROM mutation_result".

Definition parameter_text (parameter : MutationParameter) : option string :=
  match MutationParameter.value parameter with
  | MutationValue.Null => None
  | MutationValue.Text value | MutationValue.Numeric value | MutationValue.Date value
  | MutationValue.Timestamp value => Some value
  | MutationValue.Boolean value => Some (bool_text value)
  | MutationValue.Integer value => Some (pretty value)
  end.

Definition mutation_query_error (source : db_error) : MutationExecuteError :=
  if decide (sqlstate source = Some QUERY_CANCELED)
  then MutationExecuteError.Cancelled source else MutationExecuteError.Execution source.

(** The [while let] loop of [run_statement]. *)
Fixpoint collect_rows (max_result_bytes : N) (stream : row_stream) (rows : list json)
    (byte_count : N) : Prelude.result MutationExecuteError (list json) :=
  match stream with
  | Done => Ok rows
  | Failed e => Err (mutation_query_error e)
  | Row value rest =>
      if negb (is_array value) then Err MutationExecuteError.InvalidRowShape else
      match json_to_string value with
      | Err e => Err (MutationExecuteError.Serialization e)
      | Ok text =>
          let row_bytes := N.of_nat (String.length text) in
          let separator := separator_bytes rows in
          if decide (max_result_bytes < with_row byte_count separator row_bytes)%N
          then Err MutationExecuteError.ResultByteLimitExceeded
          else collect_rows max_result_bytes rest (rows ++ [value])
                 (wrapping_add byte_count (wrapping_add separator row_bytes))
      end
  end.

Definition run_statement (compiled : CompiledMutation) (max_result_bytes : N)
    : io_result MutationExecuteError (list json) :=
  stream ←? attempt mutation_query_error
              (call (QueryRaw Source (result_wrapper_sql compiled)
                       (map parameter_text (CompiledMutation.parameters compiled))));
  lift (collect_rows max_result_bytes stream [] 2%N).

Definition finish_mutation (mutation_id attempt_id : string) (result : json) (affected_rows : Z)
    (database_duration : Duration) : io_result MutationExecuteError unit :=
  attempt MutationExecuteError.FinishAudit
    (call (QueryOne Source (FINISH_MUTATION
      {| fm_mutation_id := mutation_id;
         fm_attempt_id := attempt_id;
         fm_result := result;
         fm_affected_rows := affected_rows;
         fm_database_ms := duration_milliseconds database_duration |}))).

Definition result (normalized : NormalizedLsm) (published : PublishedMutationModel)
    (compiled : CompiledMutation) (mutation_id : string) (rows : list json) (affected_rows : N)
    (replayed : bool) : MutationResult :=
  {| MutationResult.schema_version := Lsm.schema_version (NormalizedLsm.mutation normalized);
     MutationResult.mutation_id := mutation_id;
     MutationResult.semantic_revision :=
       Snapshot.revision_hash
         (PublishedModel.snapshot (PublishedMutationModel.published published));
     MutationResult.operation := CompiledMutation.operation compiled;
     MutationResult.model := CompiledMutation.model compiled;
     MutationResult.columns := CompiledMutation.returning_schema compiled;
     MutationResult.rows := rows;
     MutationResult.affected_rows := affected_rows;
     MutationResult.replayed := replayed;
     MutationResult.lineage := CompiledMutation.lineage compiled;
     MutationResult.warnings := [] |}.

(** [usize::try_from] of an [i64]. *)
Definition usize_try_from (z : Z) (e : MutationExecuteError)
    : Prelude.result MutationExecuteError N :=
  fail_if (bool_decide (z < 0)%Z) e;;
  Ok (Z.to_N z).

(** ** The transaction *)

Definition commit_mutation : io_result MutationExecuteError unit :=
  attempt MutationExecuteError.CommitIndeterminate (call (Commit Source)).

Definition guard_target (published : PublishedMutationModel) (compiled : CompiledMutation)
    (config : MutationExecutorConfig) : io_result MutationExecuteError unit :=
  fix_search_path ;;?
  is_member ←? verify_role (MutationExecutorConfig.database_role config);
  verify_target_relation (PublishedMutationModel.published published) compiled
    (MutationExecutorConfig.database_role config) ;;?
  lift (fail_if (negb is_member) MutationExecuteError.DatabaseRoleMembership) ;;?
  apply_transaction_configuration config.

Definition guard_and_claim (project : string) (published : PublishedMutationModel)
    (normalized : NormalizedLsm) (compiled : CompiledMutation) (config : MutationExecutorConfig)
    (context : ExecutionContext) (validation_duration compile_duration : Duration)
    : io_result MutationExecuteError Claim :=
  guard_target published compiled config ;;?
  claim_mutation project published normalized compiled config context validation_duration
    compile_duration.

(** The claimed execution up to its commit: its rows and their number. *)
Definition run_claimed (compiled : CompiledMutation) (config : MutationExecutorConfig)
    (claim : Claim) : io_result MutationExecuteError (list json * Z) :=
  rows ←? run_statement compiled (MutationExecutorConfig.max_result_bytes config);
  lift (fail_if (bool_decide (length rows <> CompiledMutation.expected_rows compiled))
          MutationExecuteError.AffectedRowMismatch) ;;?
  affected_rows ←? lift (i64_try_from (N.of_nat (length rows)));
  attempt_id ←? lift (ok_or (Claim.attempt_id claim) MutationExecuteError.InvalidReplayResult);
  elapsed ← call Elapsed;
  finish_mutation (Claim.mutation_id claim) attempt_id (JArr rows) affected_rows elapsed ;;?
  Ret (Ok (rows, affected_rows)).

Definition execute_compiled (project : string) (published : PublishedMutationModel)
    (normalized : NormalizedLsm) (compiled : CompiledMutation) (config : MutationExecutorConfig)
    (context : ExecutionContext) (validation_duration compile_duration : Duration)
    : io_result MutationExecuteError MutationResult :=
  attempt MutationExecuteError.StartTransaction
    (call (Begin Source (Some ReadCommitted) false)) ;;?
  claim ←? or_rollback Source
    (guard_and_claim project published normalized compiled config context validation_duration
       compile_duration);
  if decide (Claim.disposition claim = "conflict") then
    commit_mutation ;;?
    Ret (Err MutationExecuteError.IdempotencyConflict)
  else if decide (Claim.disposition claim = "replay") then
    rows ←? or_rollback Source (lift (replay_rows (Claim.result claim)));
    commit_mutation ;;?
    affected_rows ←? lift (usize_try_from (default 0%Z (Claim.affected_rows claim))
                             MutationExecuteError.InvalidReplayResult);
    Ret (Ok (result normalized published compiled (Claim.mutation_id claim) rows affected_rows
               true))
  else if decide (Claim.disposition claim = "execute") then
    '(rows, affected_rows) ←? or_rollback Source (run_claimed compiled config claim);
    commit_mutation ;;?
    affected_rows ←? lift (usize_try_from affected_rows MutationExecuteError.AffectedRowMismatch);
    Ret (Ok (result normalized published compiled (Claim.mutation_id claim) rows affected_rows
               false))
  else or_rollback Source (Ret (Err MutationExecuteError.InvalidReplayResult)).
End claim.

(** ** Records of failures *)

Module FailureMetadata.
Record FailureMetadata : Type := mk {
  lsm_schema_version : option string;
  lsm_hash : string;
  revision_id : option string;
  semantic_revision_hash : option string;
  operation : option string;
  model : option string;
  idempotency_key_hash : option string;
  statement_hash : option string;
  compiler_mutation_hash : option string;
  parameter_types : json;
  lineage : json;
  requested_rows : Z;
}.

Definition raw (lsm_hash : string) : FailureMetadata :=
  mk None lsm_hash None None None None None None None (JArr []) (JObj []) 0.

(** [rows[0]] panics when there are no rows. *)
Definition normalized (n : NormalizedLsm) : Prelude.result MutationExecuteError FailureMetadata :=
  let mutation := NormalizedLsm.mutation n in
  first ← ok_or (head (Lsm.rows mutation)) MutationExecuteError.Panic;
  Ok {| lsm_schema_version := Some (Lsm.schema_version mutation);
        lsm_hash := NormalizedLsm.hash n;
        revision_id := None;
        semantic_revision_hash := None;
        operation := Some (operation_name (Lsm.operation mutation));
        model := Some (Lsm.model mutation);
        idempotency_key_hash := Some (NormalizedLsm.idempotency_key_hash n);
        statement_hash := None;
        compiler_mutation_hash := None;
        parameter_types := JArr [];
        lineage := to_value (JObj [("model", JStr (Lsm.model mutation));
                                   ("fields", JArr (map JStr first.*1))]);
        requested_rows := saturating_i64 (N.of_nat (length (Lsm.rows mutation))) |}.

Definition published (n : NormalizedLsm) (p : PublishedMutationModel)
    : Prelude.result MutationExecuteError FailureMetadata :=
  m ← normalized n;
  let model_ := PublishedMutationModel.published p in
  Ok {| lsm_schema_version := lsm_schema_version m;
        lsm_hash := lsm_hash m;
        revision_id := Some (PublishedModel.revision_id model_);
        semantic_revision_hash := Some (Snapshot.revision_hash (PublishedModel.snapshot model_));
        operation := operation m;
        model := model m;
        idempotency_key_hash := idempotency_key_hash m;
        statement_hash := statement_hash m;
        compiler_mutation_hash := compiler_mutation_hash m;
        parameter_types := parameter_types m;
        lineage := lineage m;
        requested_rows := requested_rows m |}.

Definition compiled (n : NormalizedLsm) (p : PublishedMutationModel) (c : CompiledMutation)
    : Prelude.result MutationExecuteError FailureMetadata :=
  m ← published n p;
  Ok {| lsm_schema_version := lsm_schema_version m;
        lsm_hash := lsm_hash m;
        revision_id := revision_id m;
        semantic_revision_hash := semantic_revision_hash m;
        operation := operation m;
        model := model m;
        idempotency_key_hash := idempotency_key_hash m;
        statement_hash := Some (CompiledMutation.statement_hash c);
        compiler_mutation_hash := Some (CompiledMutation.mutation_hash c);
        parameter_types := MutationExecutor.parameter_types (CompiledMutation.parameters c);
        lineage := to_value (lineage_to_json (CompiledMutation.lineage c));
        requested_rows := requested_rows m |}.
End FailureMetadata.
Abbreviation FailureMetadata := FailureMetadata.FailureMetadata.

Definition record_failure `{Crates} (project : string) (context : ExecutionContext)
    (config : MutationExecutorConfig) (metadata : FailureMetadata) (status error_code : string)
    (validation_duration compile_duration database_duration : Duration)
    : io_result MutationExecuteError unit :=
  attempt MutationExecuteError.FailureAudit
    (call (QueryOne Audit (RECORD_MUTATION_FAILURE
      {| rf_project := project;
         rf_principal_subject_hash := sha256 (ExecutionContext.principal_subject context);
         rf_lsm_schema_version := FailureMetadata.lsm_schema_version metadata;
         rf_lsm_hash := FailureMetadata.lsm_hash metadata;
         rf_revision_id := FailureMetadata.revision_id metadata;
         rf_semantic_revision_hash := FailureMetadata.semantic_revision_hash metadata;
         rf_compiler_version := MUTATION_COMPILER_SEMANTIC_VERSION;
         rf_config_profile := ExecutionContext.config_profile context;
         rf_operation := FailureMetadata.operation metadata;
         rf_model := FailureMetadata.model metadata;
         rf_idempotency_key_hash := FailureMetadata.idempotency_key_hash metadata;
         rf_statement_hash := FailureMetadata.statement_hash metadata;
         rf_compiler_mutation_hash := FailureMetadata.compiler_mutation_hash metadata;
         rf_parameter_types := FailureMetadata.parameter_types metadata;
         rf_lineage := FailureMetadata.lineage metadata;
         rf_policy_context :=
           to_value (JObj
             [("database_role", JStr (MutationExecutorConfig.database_role config));
              ("project", JStr project)]);
         rf_status := status;
         rf_error_code := error_code;
         rf_requested_rows := FailureMetadata.requested_rows metadata;
         rf_validation_ms := duration_milliseconds validation_duration;
         rf_compile_ms := duration_milliseconds compile_duration;
         rf_database_ms := duration_milliseconds database_duration |}))) ;;?
  Ret (Ok tt).

Definition mutation_was_attempted (error : MutationExecuteError) : bool :=
  match error with
  | MutationExecuteError.Cancelled _
  | MutationExecuteError.Execution _
  | MutationExecuteError.InvalidRowShape
  | MutationExecuteError.ResultByteLimitExceeded
  | MutationExecuteError.AffectedRowMismatch
  | MutationExecuteError.Serialization _
  | MutationExecuteError.FinishAudit _ => true
  | _ => false
  end.

Definition mutation_error_code (error : MutationExecuteError) : string :=
  match error with
  | MutationExecuteError.Lsm error => LsmError.code error
  | MutationExecuteError.Compile error => MutationCompileError.code error
  | MutationExecuteError.DatabaseRoleNotFound => "MUTATION_DATABASE_ROLE_NOT_FOUND"
  | MutationExecuteError.DatabaseRoleMembership => "MUTATION_DATABASE_ROLE_MEMBERSHIP_DENIED"
  | MutationExecuteError.UnsafeDatabaseRole => "MUTATION_UNSAFE_DATABASE_ROLE"
  | MutationExecuteError.TargetRelationNotFound => "MUTATION_TARGET_RELATION_NOT_FOUND"
  | MutationExecuteError.TargetRelationOwner => "MUTATION_TARGET_RELATION_OWNER"
  | MutationExecuteError.UnsafeTargetRelation => "MUTATION_UNSAFE_TARGET_RELATION"
  | MutationExecuteError.IdempotencyConflict => "MUTATION_IDEMPOTENCY_CONFLICT"
  | MutationExecuteError.Cancelled _
  | MutationExecuteError.CancellationRequested => "MUTATION_CANCELLED"
  | MutationExecuteError.Execution _ => "MUTATION_DATABASE_REJECTED"
  | MutationExecuteError.InvalidRowShape => "MUTATION_INVALID_ROW_SHAPE"
  | MutationExecuteError.ResultByteLimitExceeded => "MUTATION_RESULT_BYTES_EXCEEDED"
  | MutationExecuteError.AffectedRowMismatch => "MUTATION_AFFECTED_ROWS_MISMATCH"
  | MutationExecuteError.FinishAudit _ => "MUTATION_ATOMIC_AUDIT_FAILED"
  | MutationExecuteError.CommitIndeterminate _ => "MUTATION_COMMIT_INDETERMINATE"
  | MutationExecuteError.InvalidReplayResult => "MUTATION_INVALID_REPLAY_RESULT"
  | MutationExecuteError.Reconciliation _ => "MUTATION_RECONCILIATION_FAILED"
  | MutationExecuteError.InvalidIdempotencyKey => "MUTATION_INVALID_IDEMPOTENCY_KEY"
  | _ => "MUTATION_GUARD_CONFIGURATION_FAILED"
  end.

(** The status under which a failed execution is recorded. *)
Definition failure_status (error : MutationExecuteError) : string :=
  match error with
  | MutationExecuteError.CommitIndeterminate _ => "indeterminate"
  | _ => if mutation_was_attempted error then "rolled_back" else "rejected"
  end.

(** ** Requests *)

(** serde_json's parser and its typed deserialiser of mutations. *)
Class LsmParser := {
  lsm_parse : string -> Prelude.result string Event;
  lsm_from_value : Value -> Prelude.result string LogicalSemanticMutation;
}.

Section execute.
Context `{Crates, ModelParsers, Driver, LsmParser}.
Context (project : string) (config : MutationExecutorConfig) (context : ExecutionContext).

(** [record_failure(..)?; return Err(error)]. *)
Definition reject {A} (metadata : Prelude.result MutationExecuteError FailureMetadata)
    (status error_code : string)
    (validation_duration compile_duration database_duration : Duration)
    (error : MutationExecuteError) : io_result MutationExecuteError A :=
  metadata ←? lift metadata;
  record_failure project context config metadata status error_code validation_duration
    compile_duration database_duration ;;?
  Ret (Err error).

Definition run_recorded (published : PublishedMutationModel) (normalized : NormalizedLsm)
    (compiled : CompiledMutation) (validation_duration compile_duration : Duration)
    : io_result MutationExecuteError MutationResult :=
  outcome ← execute_compiled project published normalized compiled config context
              validation_duration compile_duration;
  match outcome with
  | Ok result => Ret (Ok result)
  | Err MutationExecuteError.IdempotencyConflict =>
      Ret (Err MutationExecuteError.IdempotencyConflict)
  | Err error =>
      metadata ←? lift (FailureMetadata.compiled normalized published compiled);
      database_duration ← call Elapsed;
      reject (Ok metadata) (failure_status error) (mutation_error_code error)
        validation_duration compile_duration database_duration error
  end.

Definition execute_with_cancel (input : string) : io_result MutationExecuteError MutationResult :=
  connect_audit config ;;?
  match normalize_lsm lsm_parse lsm_from_value input with
  | Err error =>
      validation_duration ← call Elapsed;
      reject (Ok (FailureMetadata.raw (sha256 input))) "rejected" (LsmError.code error)
        validation_duration 0%N 0%N (MutationExecuteError.Lsm error)
  | Ok normalized =>
  validation_duration ← call Elapsed;
  connected ← connect_mutation config;
  match connected with
  | Err error =>
      reject (FailureMetadata.normalized normalized) "rejected" (mutation_error_code error)
        validation_duration 0%N 0%N error
  | Ok _ =>
  loaded ← load_published_for_mutation Source project
             (MutationExecutorConfig.database_role config);
  match loaded with
  | Err error =>
      reject (FailureMetadata.normalized normalized) "rejected"
        "MUTATION_SEMANTIC_SNAPSHOT_UNAVAILABLE" validation_duration 0%N 0%N
        (MutationExecuteError.PublishedModel error)
  | Ok published =>
  match compile_lsm normalized
          (PublishedModel.snapshot (PublishedMutationModel.published published))
          (PublishedMutationModel.capabilities published) default_mutation_options with
  | Err Panicked => Ret (Err MutationExecuteError.Panic)
  | Err (Raised error) =>
      compile_duration ← call Elapsed;
      reject (FailureMetadata.published normalized published) "rejected"
        (MutationCompileError.code error) validation_duration compile_duration 0%N
        (MutationExecuteError.Compile error)
  | Ok compiled =>
  compile_duration ← call Elapsed;
  go_on ← call OnCancelHandle;
  if go_on : bool
  then run_recorded published normalized compiled validation_duration compile_duration
  else reject (FailureMetadata.compiled normalized published compiled) "rejected"
         "MUTATION_CANCELLED" validation_duration compile_duration 0%N
         MutationExecuteError.CancellationRequested
  end end end end.

(** A mutation whose callback lets it run. *)
Definition execute (input : string) : io_result MutationExecuteError MutationResult :=
  uncancelled (execute_with_cancel input).

(** The recorded state of an idempotency key. *)
Definition reconcile (idempotency_key : string)
    : io_result MutationExecuteError (option json) :=
  lift (fail_if (trim_is_empty idempotency_key
                 || bool_decide (256 < String.length idempotency_key))
          MutationExecuteError.InvalidIdempotencyKey) ;;?
  connect_audit config ;;?
  legacy ←? lift (legacy_mutation_authority_hash context
                    (MutationExecutorConfig.database_role config));
  attempt MutationExecuteError.Reconciliation
    (call (QueryOne Audit (LOOKUP_IDEMPOTENCY
      {| li_project := project;
         li_authority_hash := mutation_authority_hash context;
         li_legacy_authority_hash := legacy;
         li_key_hash := sha256 idempotency_key;
         li_database_role := MutationExecutorConfig.database_role config |}))).
End execute.
