(* ===== verification/Fixtures.v ===== *)
(** * Concrete inputs

    An instance of the crate interface that satisfies its laws, and the
    snapshot and requests of the repository's evaluation fixtures
    ([fixtures/evals/m0-semantic-snapshot.json] and [m8-semantic-snapshot.json],
    abridged), used to evaluate the definitions on concrete inputs. *)

From stdpp Require Import countable.
From S2P Require Import Prelude Ordered Text Json Lsq Semantic Compiler Lsm Mutation.

(** ** A model of the crates *)

Fixpoint json_tree (j : json) : gen_tree (bool + Z + string) :=
  match j with
  | JNull => GenNode 0 []
  | JBool b => GenLeaf (inl (inl b))
  | JInt z => GenLeaf (inl (inr z))
  | JStr s => GenLeaf (inr s)
  | JArr l => GenNode 1 (map json_tree l)
  | JObj kvs => GenNode 2 (map (fun '(k, v) => GenNode 3 [GenLeaf (inr k); json_tree v]) kvs)
  end.

Fixpoint tree_json (t : gen_tree (bool + Z + string)) : json :=
  match t with
  | GenLeaf (inl (inl b)) => JBool b
  | GenLeaf (inl (inr z)) => JInt z
  | GenLeaf (inr s) => JStr s
  | GenNode 1 l => JArr (map tree_json l)
  | GenNode 2 l =>
      JObj (map (fun t => match t with
                          | GenNode 3 [GenLeaf (inr k); v] => (k, tree_json v)
                          | _ => (EmptyString, JNull)
                          end) l)
  | _ => JNull
  end.

Lemma tree_json_tree j : tree_json (json_tree j) = j.
Proof.
  induction j as [| | | |l IH|kvs IH] using json_ind'; try done; simpl; f_equal;
    rewrite map_map.
  - rewrite <- (map_id l) at 2. by apply map_ext_Forall.
  - rewrite <- (map_id kvs) at 2. apply map_ext_Forall.
    eapply Forall_impl; [exact IH|]. intros [k v] Hv. simpl in *. by rewrite Hv.
Qed.

#[global] Instance json_countable : Countable json :=
  inj_countable' json_tree tree_json tree_json_tree.

Fixpoint bits (p : positive) : string :=
  match p with
  | xH => "e"
  | xO p => String "0" (bits p)
  | xI p => String "1" (bits p)
  end.

Lemma bits_inj p q : bits p = bits q -> p = q.
Proof. revert q. induction p; intros [] H; try discriminate H; [..|done]; f_equal; injection H; auto. Qed.

(** A digest of 32 bytes and an injective text for JSON trees. *)
#[global] Instance sample_crates : Crates := {|
  sha256_digest s := take 32 (bytes s ++ replicate 32 (byte_of 0));
  json_to_string j := Ok (bits (encode j));
|}.

#[global] Instance sample_crates_ok : CratesOk.
Proof.
  split.
  - intros s. unfold sha256_digest, sample_crates. rewrite length_take, length_app, length_replicate. lia.
  - intros x y s [= <-] [= H]. apply bits_inj in H. by apply (inj encode) in H.
Qed.

(** ** Snapshot *)

Definition plain_field (name : string) (d : DataType) : Field :=
  {| Field.semantic_name := name; Field.data_type := d; Field.column := name;
     Field.relationship := None; Field.time_dimension := false; Field.entity_key := false;
     Field.visible := true; Field.nullable := true |}.

Definition key_field (name : string) : Field :=
  {| Field.semantic_name := name; Field.data_type := DataType.Integer; Field.column := name;
     Field.relationship := None; Field.time_dimension := false; Field.entity_key := true;
     Field.visible := true; Field.nullable := false |}.

Definition time_field (name : string) : Field :=
  {| Field.semantic_name := name; Field.data_type := DataType.TimestampTz; Field.column := name;
     Field.relationship := None; Field.time_dimension := true; Field.entity_key := false;
     Field.visible := true; Field.nullable := true |}.

Definition joined_field (name column relationship : string) : Field :=
  {| Field.semantic_name := name; Field.data_type := DataType.Text; Field.column := column;
     Field.relationship := Some relationship; Field.time_dimension := false;
     Field.entity_key := false; Field.visible := true; Field.nullable := true |}.

Definition hidden_field (name : string) : Field :=
  {| Field.semantic_name := name; Field.data_type := DataType.Text; Field.column := name;
     Field.relationship := None; Field.time_dimension := false; Field.entity_key := false;
     Field.visible := false; Field.nullable := true |}.

Definition order_count : Metric :=
  {| Metric.semantic_name := "order_count"; Metric.data_type := DataType.Integer;
     Metric.aggregation := Aggregation.Count; Metric.field := "order_id";
     Metric.filter := None; Metric.additivity := Some Additivity.Additive;
     Metric.aggregation_anchor := Some "order_id"; Metric.visible := true |}.

Definition revenue : Metric :=
  {| Metric.semantic_name := "revenue"; Metric.data_type := DataType.Numeric;
     Metric.aggregation := Aggregation.Sum; Metric.field := "amount";
     Metric.filter := Some {| MetricFilter.field := "status";
                              MetricFilter.value := Literal.Text "paid" |};
     Metric.additivity := Some Additivity.Additive;
     Metric.aggregation_anchor := Some "order_id"; Metric.visible := true |}.

Definition customer_relationship : Relationship :=
  {| Relationship.semantic_name := "customer"; Relationship.target_model := "customers";
     Relationship.target := Relation.mk "commerce" "customer";
     Relationship.cardinality := Cardinality.ManyToOne;
     Relationship.join_type := JoinType.Left;
     Relationship.from_column := "customer_id"; Relationship.to_column := "customer_id" |}.

Definition items_relationship : Relationship :=
  {| Relationship.semantic_name := "order_items"; Relationship.target_model := "order_items";
     Relationship.target := Relation.mk "commerce" "order_item";
     Relationship.cardinality := Cardinality.OneToMany;
     Relationship.join_type := JoinType.Left;
     Relationship.from_column := "order_id"; Relationship.to_column := "order_id" |}.

Definition orders_policy : WritableModel :=
  {| WritableModel.insert := true;
     WritableModel.upsert := Some (UpsertPolicy.mk ["external_id"]);
     WritableModel.max_rows := 10; WritableModel.max_request_bytes := 4096;
     WritableModel.fields :=
       [WritableField.mk "external_id" false true false;
        WritableField.mk "amount" false true true;
        WritableField.mk "status" true false true];
     WritableModel.returning := ["order_id"; "external_id"] |}.

Definition orders : Model :=
  {| Model.semantic_name := "orders"; Model.source := Relation.mk "commerce" "orders";
     Model.timezone := Some "UTC"; Model.queryable := true;
     Model.writable := Some orders_policy;
     Model.fields :=
       [key_field "order_id"; plain_field "customer_id" DataType.Integer;
        time_field "ordered_at"; plain_field "status" DataType.Text;
        plain_field "amount" DataType.Numeric; plain_field "external_id" DataType.Text;
        joined_field "customer_region" "region" "customer";
        joined_field "item_sku" "sku" "order_items"; hidden_field "internal_note"];
     Model.metrics := [order_count; revenue];
     Model.relationships := [customer_relationship; items_relationship] |}.

Definition customers : Model :=
  {| Model.semantic_name := "customers"; Model.source := Relation.mk "commerce" "customer";
     Model.timezone := None; Model.queryable := false; Model.writable := None;
     Model.fields := [key_field "customer_id"; plain_field "region" DataType.Text];
     Model.metrics := []; Model.relationships := [] |}.

Definition order_items : Model :=
  {| Model.semantic_name := "order_items"; Model.source := Relation.mk "commerce" "order_item";
     Model.timezone := None; Model.queryable := false; Model.writable := None;
     Model.fields := [key_field "order_item_id"; plain_field "sku" DataType.Text];
     Model.metrics := []; Model.relationships := [] |}.

(** A snapshot whose recorded hash is the one its content has. *)
Definition seal (s : SemanticSnapshot) : SemanticSnapshot :=
  {| Snapshot.schema_version := Snapshot.schema_version s;
     Snapshot.revision_hash :=
       match calculate_revision_hash s with Ok h => h | Err _ => EmptyString end;
     Snapshot.models := Snapshot.models s |}.

Definition commerce : SemanticSnapshot :=
  seal {| Snapshot.schema_version := "2"; Snapshot.revision_hash := EmptyString;
          Snapshot.models := [orders; customers; order_items] |}.

(** ** Requests *)

Definition normalize_sample (q : LogicalSemanticQuery) : result LsqError NormalizedLsq :=
  normalize_lsq (fun _ => Ok q) EmptyString.

Definition normalized_sample (q : LogicalSemanticQuery) : NormalizedLsq :=
  match normalize_sample q with
  | Ok n => n
  | Err _ => {| NormalizedLsq.query := q; NormalizedLsq.canonical_json := EmptyString;
                NormalizedLsq.hash := EmptyString |}
  end.

Definition revenue_by_month : LogicalSemanticQuery :=
  {| Lsq.schema_version := "1"; Lsq.model := "orders";
     Lsq.dimensions := [Dimension.mk "ordered_at" (Some TimeGrain.Month)];
     Lsq.metrics := [MetricReference.mk "revenue"];
     Lsq.filters := Some (Filter.Gte "ordered_at" (Literal.Date "2026-01-01"));
     Lsq.order_by := [OrderBy.mk "revenue" SortDirection.Desc];
     Lsq.limit := Some 100%N |}.

Definition revenue_by_sku : LogicalSemanticQuery :=
  {| Lsq.schema_version := "1"; Lsq.model := "orders";
     Lsq.dimensions := [Dimension.mk "item_sku" None; Dimension.mk "customer_region" None];
     Lsq.metrics := [MetricReference.mk "revenue"; MetricReference.mk "order_count"];
     Lsq.filters := None; Lsq.order_by := []; Lsq.limit := None |}.

Lemma revenue_by_month_compiles : exists c,
  compile_lsq (normalized_sample revenue_by_month) commerce default_options = Ok c.
Proof. apply is_ok_true. vm_compute. reflexivity. Qed.

Lemma revenue_by_sku_compiles : exists c,
  compile_lsq (normalized_sample revenue_by_sku) commerce default_options = Ok c.
Proof. apply is_ok_true. vm_compute. reflexivity. Qed.

(** ** Mutations *)

Definition order_row (external_id amount : string) (status : MutationValue) : Row :=
  [("amount", MutationValue.Numeric amount); ("external_id", MutationValue.Text external_id);
   ("status", status)].

Definition upsert_row (external_id amount : string) : Row :=
  [("amount", MutationValue.Numeric amount); ("external_id", MutationValue.Text external_id)].

Definition insert_orders : LogicalSemanticMutation :=
  {| Lsm.schema_version := "1"; Lsm.operation := MutationOperation.Insert;
     Lsm.model := "orders"; Lsm.idempotency_key := "import-1";
     Lsm.rows := [order_row "A-1" "10.50" (MutationValue.Text "paid");
                  order_row "A-2" "7" MutationValue.Null] |}.

Definition upsert_orders : LogicalSemanticMutation :=
  {| Lsm.schema_version := "1"; Lsm.operation := MutationOperation.Upsert;
     Lsm.model := "orders"; Lsm.idempotency_key := "import-2";
     Lsm.rows := [upsert_row "A-1" "12.00"; upsert_row "A-3" "3.25"] |}.

Definition normalized_mutation (m : LogicalSemanticMutation) : NormalizedLsm :=
  {| NormalizedLsm.mutation := m;
     NormalizedLsm.canonical_json :=
       match json_to_string (Lsm.to_json m) with Ok t => t | Err _ => EmptyString end;
     NormalizedLsm.hash := EmptyString; NormalizedLsm.idempotency_key_hash := EmptyString;
     NormalizedLsm.input_bytes := 512 |}.

Definition writer : MutationCapabilities :=
  {| MutationCapabilities.profile := "orders_writer";
     MutationCapabilities.writable_models := ["orders"] |}.

Lemma insert_orders_compiles : exists c,
  compile_lsm (normalized_mutation insert_orders) commerce writer default_mutation_options = Ok c.
Proof. apply is_ok_true. vm_compute. reflexivity. Qed.

Lemma upsert_orders_compiles : exists c,
  compile_lsm (normalized_mutation upsert_orders) commerce writer default_mutation_options = Ok c.
Proof. apply is_ok_true. vm_compute. reflexivity. Qed.
