(* ===== verification/SnapshotTheorems.v ===== *)
(** * Identity of requests and snapshots

    Canonical JSON and revision hashes identify what they are computed from,
    each theorem with a concrete instance. *)

From S2P Require Import Prelude Ordered Text Json Lsq LsqSpec Semantic SemanticSpec Fixtures.

(** Two requests that normalise to the same canonical JSON are the same
    query, whatever the texts they were decoded from; the canonical hash of a
    query is the digest of that JSON. *)
Theorem canonical_json_identifies_query `{CratesOk} decode1 decode2 input1 input2 n1 n2 :
  normalize_lsq decode1 input1 = Ok n1 ->
  normalize_lsq decode2 input2 = Ok n2 ->
  NormalizedLsq.hash n1 = sha256 (NormalizedLsq.canonical_json n1)
  /\ query_ok (NormalizedLsq.query n1)
  /\ (NormalizedLsq.canonical_json n1 = NormalizedLsq.canonical_json n2 <->
      NormalizedLsq.query n1 = NormalizedLsq.query n2).
Proof.
  rewrite !normalize_lsq_ok. intros (_ & Hq & Hj1 & Hh) (_ & _ & Hj2 & _).
  split_and!; [done|done|]. split; intros Heq.
  - rewrite <- Heq in Hj2. eapply lsq_json_inj, json_to_string_inj; eauto.
  - rewrite Heq in Hj1. congruence.
Qed.

Lemma canonical_json_identifies_query_witness :
  NormalizedLsq.canonical_json (normalized_sample revenue_by_sku)
  <> NormalizedLsq.canonical_json (normalized_sample revenue_by_month).
Proof.
  assert (H1 : normalize_sample revenue_by_sku = Ok (normalized_sample revenue_by_sku))
    by (vm_compute; reflexivity).
  assert (H2 : normalize_sample revenue_by_month = Ok (normalized_sample revenue_by_month))
    by (vm_compute; reflexivity).
  destruct (canonical_json_identifies_query _ _ _ _ _ _ H1 H2) as (_ & _ & H).
  intros Heq. apply H in Heq. vm_compute in Heq. discriminate Heq.
Defined.

(** Canonicalising a snapshot twice is the same as once, and two snapshots
    with distinct names that differ only in the order of models, fields,
    metrics, relationships, writable fields or conflict fields have the same
    revision hash. *)
Theorem revision_hash_order_independent `{Crates} (s s' : SemanticSnapshot) :
  snapshot_distinct s -> snapshot_equiv s s' ->
  normalized (normalized s) = normalized s
  /\ calculate_revision_hash s = calculate_revision_hash s'.
Proof.
  intros Hd He. split; [apply normalized_idemp|].
  unfold calculate_revision_hash. by rewrite (normalized_equiv s s').
Qed.

(** The fixture with its models and the fields of one model reversed. *)
Definition shuffled_orders : Model :=
  {| Model.semantic_name := Model.semantic_name orders; Model.source := Model.source orders;
     Model.timezone := Model.timezone orders; Model.queryable := Model.queryable orders;
     Model.writable := Model.writable orders; Model.fields := reverse (Model.fields orders);
     Model.metrics := Model.metrics orders; Model.relationships := Model.relationships orders |}.

Definition shuffled_commerce : SemanticSnapshot :=
  {| Snapshot.schema_version := "2"; Snapshot.revision_hash := EmptyString;
     Snapshot.models := [order_items; customers; shuffled_orders] |}.

Lemma model_equiv_refl m : model_equiv m m.
Proof.
  constructor; try done. destruct (Model.writable m) as [w|]; constructor. constructor; try done.
  destruct (WritableModel.upsert w); by constructor.
Qed.

Lemma commerce_distinct : snapshot_distinct commerce.
Proof.
  assert (Hm : forall m, bool_decide (NoDup (map Field.semantic_name (Model.fields m)))
                 && bool_decide (NoDup (map Metric.semantic_name (Model.metrics m)))
                 && bool_decide (NoDup (map Relationship.semantic_name (Model.relationships m)))
                 && match Model.writable m with
                    | Some w => bool_decide (NoDup (map WritableField.field
                                                      (WritableModel.fields w)))
                    | None => true
                    end = true -> model_distinct m).
  { intros m H. rewrite !andb_true_iff, !bool_decide_eq_true in H. destruct H as [[[? ?] ?] Hw].
    constructor; try done. intros w Hmw. rewrite Hmw in Hw. by apply nodup_bool. }
  constructor; [by apply nodup_bool; vm_compute|].
  apply Forall_cons. split; [by apply Hm; vm_compute|].
  apply Forall_cons. split; [by apply Hm; vm_compute|].
  apply Forall_cons. split; [by apply Hm; vm_compute|]. constructor.
Qed.

Lemma commerce_shuffled : snapshot_equiv commerce shuffled_commerce.
Proof.
  split; [reflexivity|]. exists [order_items; customers; orders]. split.
  - apply (reverse_Permutation [order_items; customers; orders]).
  - repeat (apply Forall2_cons; split); [apply model_equiv_refl..| |constructor].
    destruct (model_equiv_refl orders). constructor; try done.
    symmetry. apply (reverse_Permutation (Model.fields orders)).
Qed.

Lemma revision_hash_order_independent_witness :
  calculate_revision_hash commerce = calculate_revision_hash shuffled_commerce.
Proof.
  apply (revision_hash_order_independent commerce shuffled_commerce).
  - exact commerce_distinct.
  - exact commerce_shuffled.
Defined.

(** Tamper evidence.  The revision hash is the digest of a canonical text,
    and two snapshots have the same canonical text exactly when they have the
    same content in canonical order; the only data the text leaves out is the
    recorded hash itself and the [nullable] flag of fields. *)
Theorem revision_hash_covers_content `{CratesOk} (s s' : SemanticSnapshot) (t t' : string) :
  canonical_text s = Ok t -> canonical_text s' = Ok t' ->
  calculate_revision_hash s = Ok (sha256 t)
  /\ (t = t' <-> hashed_content s = hashed_content s').
Proof.
  intros Ht Ht'. split; [|by apply canonical_text_content].
  unfold calculate_revision_hash, canonical_text in *. by rewrite Ht.
Qed.

Lemma revision_hash_covers_content_witness : exists t t',
  canonical_text commerce = Ok t /\ canonical_text shuffled_commerce = Ok t'
  /\ calculate_revision_hash commerce = Ok (sha256 t) /\ t = t'.
Proof.
  destruct (is_ok_true (canonical_text commerce)) as [t Ht]; [vm_compute; reflexivity|].
  destruct (is_ok_true (canonical_text shuffled_commerce)) as [t' Ht']; [vm_compute; reflexivity|].
  destruct (revision_hash_covers_content _ _ _ _ Ht Ht') as [Hh H].
  exists t, t'. refine (conj Ht (conj Ht' (conj Hh (proj2 H _)))). vm_compute. reflexivity.
Defined.
