(* ===== verification/CompilerTheorems.v ===== *)
(** * Correctness of the query compiler

    The theorems about [compile_lsq], assembled from the validation
    ([CompilerSpec]), rendering ([CompilerSql]) and lineage
    ([CompilerSpec]) lemmas, each with a concrete instance.

    Grouped selections get a text and a meaning here, so that the statement of an
    aggregation over joins that multiply rows can be shown to count every row of
    the model once.

    The last part says which models serve every well-typed query, as the
    producers of models ([authoring.rs], [osi.rs]) owe it to the compiler. *)

From S2P Require Import Fixtures SnapshotTheorems Prelude Ordered Text Json Lsq LsqSpec.
From S2P Require Import Semantic SemanticSpec Compiler CompilerSpec CompilerSql.
From S2P Require Import CompilerComplete.

(** ** Inversion of [compile_lsq] *)

Definition empty_state : RState := {| parameters := []; source_columns := [] |}.

Lemma empty_parameters_ok : parameters_ok (parameters empty_state).
Proof. constructor; constructor. Qed.

Record compiled (normalized : NormalizedLsq) (snapshot : SemanticSnapshot)
    (options : CompilerOptions) (c : CompiledQuery) (v : ValidatedQuery) (st : RState) : Prop := {
  co_validated : validated_ok (NormalizedLsq.query normalized) snapshot options v;
  co_rendered : render_sql v empty_state = Ok (CompiledQuery.sql c, st);
  co_parameters : CompiledQuery.parameters c = parameters st;
  co_columns : Lineage.source_columns (CompiledQuery.lineage c) = source_columns st;
}.

Lemma compile_inv `{HC : Crates} normalized snapshot options c :
  compile_lsq normalized snapshot options = Ok c ->
  exists v st, validate normalized snapshot options = Ok v
    /\ compiled normalized snapshot options c v st
    /\ CompiledQuery.output_schema c = output_schema v
    /\ Lineage.relationships (CompiledQuery.lineage c) = (vq_relationships v).*1
    /\ Lineage.metrics (CompiledQuery.lineage c)
       = map (fun m => Metric.semantic_name (rm_metric m)) (vq_metrics v)
    /\ CompiledQuery.sql_hash c = sha256 (CompiledQuery.sql c).
Proof.
  unfold compile_lsq, render. intros H. apply bind_ok in H as (v & Hv & H).
  apply bind_ok in H as ([sql st] & Hsql & H). apply bind_ok in H as (t & Ht & H).
  apply Ok_inj in H. subst c. exists v, st. simpl. split_and!; try done.
  constructor; try done. by apply (validate_ok normalized).
Qed.

Lemma render_sql_safe q snapshot options v sql st :
  validated_ok q snapshot options v -> render_sql v empty_state = Ok (sql, st) ->
  parameters_ok (parameters st)
  /\ sql_text query_vocabulary (indented (known (vq_model v))) (length (parameters st)) sql.
Proof.
  intros Hv Hr. pose proof (safe_render_sql q snapshot options v Hv 0 empty_state
    empty_parameters_ok (Nat.le_0_l _)) as H. rewrite Hr in H. by destruct H as (? & _ & ?).
Qed.

(** ** Injection safety *)

(** C1: no text of the request reaches the SQL.  A compiled statement is a
    sequence of fixed fragments, decimal ordinals, double-quoted identifiers
    that the queried model of the snapshot declares (or the compiler's own
    internal names), and placeholders [$k] that each refer to one of the bound
    parameters; identifiers of the inner query of an anchored aggregation may
    have been indented.  The parameters are numbered 1, 2, ... without a
    repeated (type, value) pair, and each holds a literal of its type. *)
Theorem compiled_sql_is_injection_safe `{HC : Crates} normalized snapshot options c :
  compile_lsq normalized snapshot options = Ok c ->
  exists model, model ∈ Snapshot.models snapshot
    /\ Model.semantic_name model = Lsq.model (NormalizedLsq.query normalized)
    /\ Model.queryable model = true
    /\ sql_text query_vocabulary (indented (known model)) (length (CompiledQuery.parameters c))
         (CompiledQuery.sql c)
    /\ parameters_ok (CompiledQuery.parameters c).
Proof.
  intros (v & st & _ & [Hv Hr -> _] & _)%compile_inv. exists (vq_model v).
  destruct (render_sql_safe _ _ _ _ _ _ Hv Hr) as [Hp Ht].
  split_and!; try done; by apply Hv.
Qed.

Lemma compiled_sql_is_injection_safe_witness :
  exists c model, compile_lsq (normalized_sample revenue_by_sku) commerce default_options = Ok c
    /\ model ∈ Snapshot.models commerce
    /\ sql_text query_vocabulary (indented (known model)) (length (CompiledQuery.parameters c))
         (CompiledQuery.sql c).
Proof.
  destruct revenue_by_sku_compiles as [c Hc].
  destruct (compiled_sql_is_injection_safe _ _ _ c Hc) as (model & ? & _ & _ & ? & _).
  exists c, model. repeat split; assumption.
Defined.

(** ** Snapshot integrity *)

Lemma check_snapshot_spec `{HC : Crates} {HO : CratesOk} snapshot :
  check_snapshot snapshot = Ok tt <->
  (Snapshot.schema_version snapshot = "1" \/ Snapshot.schema_version snapshot = "2")
  /\ calculate_revision_hash snapshot = Ok (Snapshot.revision_hash snapshot).
Proof.
  unfold check_snapshot. split.
  - intros H. apply bind_ok in H as (? & Hver%fail_if_ok & H). apply negb_false_iff in Hver.
    apply bind_ok in H as (? & _ & H). apply bind_ok in H as (h & Hh%map_err_ok & H).
    apply fail_if_ok, bool_decide_eq_false, dec_stable in H. subst h. split; [|done].
    apply orb_true_iff in Hver as [?|?]; unbind; auto.
  - intros [Hver Hh]. rewrite Hh.
    assert (Hsha : is_sha256 (Snapshot.revision_hash snapshot) = true).
    { unfold calculate_revision_hash in Hh. apply bind_ok in Hh as (t & _ & Ht).
      apply Ok_inj in Ht. rewrite <- Ht. apply is_sha256_sha256. }
    rewrite Hsha. simpl. rewrite bool_decide_eq_false_2 by naive_solver.
    destruct Hver as [-> | ->]; reflexivity.
Qed.

(** The compiler works only on sealed snapshots: a snapshot passes the
    compiler's integrity check exactly when its schema version is 1 or 2 and
    its recorded revision hash is the one calculated from its content. *)
Theorem check_snapshot_accepts_exactly `{HC : Crates} {HO : CratesOk}
    (snapshot : SemanticSnapshot) :
  check_snapshot snapshot = Ok tt <->
  (Snapshot.schema_version snapshot = "1" \/ Snapshot.schema_version snapshot = "2")
  /\ calculate_revision_hash snapshot = Ok (Snapshot.revision_hash snapshot).
Proof. apply check_snapshot_spec. Qed.

Lemma check_snapshot_accepts_exactly_witness :
  check_snapshot commerce = Ok tt
  /\ check_snapshot {| Snapshot.schema_version := "2";
                       Snapshot.revision_hash := "sha256:00";
                       Snapshot.models := Snapshot.models commerce |} <> Ok tt.
Proof.
  split.
  - apply (check_snapshot_accepts_exactly commerce). split; [right|]; vm_compute; reflexivity.
  - intros H. apply check_snapshot_accepts_exactly in H as [_ H]. vm_compute in H. discriminate H.
Defined.

(** ** Resolution *)

(** C2: access control.  A validated query is over a queryable model of the
    snapshot, and resolves every reference of the request in order: each
    dimension to a visible field of the model with that name, temporal if it
    has a time grain; each metric to a visible metric over a direct field of
    the model, with the type its aggregation yields, an entity key if it
    counts, and a filter literal that fits its field; the filter to the same
    filter over visible fields with literals of their types; each order
    reference to a projected name. *)
Theorem validated_query_is_authorised `{HC : Crates} normalized snapshot options v :
  validate normalized snapshot options = Ok v ->
  let q := NormalizedLsq.query normalized in
  vq_model v ∈ Snapshot.models snapshot
  /\ Model.semantic_name (vq_model v) = Lsq.model q
  /\ Model.queryable (vq_model v) = true
  /\ Forall2 (dimension_ok (vq_model v)) (Lsq.dimensions q) (vq_dimensions v)
  /\ Forall2 (metric_ok snapshot (vq_model v)) (Lsq.metrics q) (vq_metrics v)
  /\ option_Forall2 filter_denotes (Lsq.filters q) (vq_filter v)
  /\ (forall f, vq_filter v = Some f -> filter_resolved (vq_model v) f)
  /\ vq_order_by v = Lsq.order_by q
  /\ Forall (fun o => OrderBy.output_reference o ∈ projection q) (vq_order_by v).
Proof.
  intros Hv%validate_ok q. destruct Hv. by rewrite vo_order; split_and!.
Qed.

(** C37: a query is accepted exactly when the rules allow it.  On a snapshot
    with distinct names, [validate] returns [v] exactly when the snapshot is
    sealed, the configured limits are usable, and [v] is a resolution of the
    request that satisfies every rule on models, limits, dimensions, metrics,
    filters, ordering, joins and anchors; hence there is at most one such
    resolution, and a request that has one is never rejected. *)
Theorem validate_accepts_exactly `{HC : Crates} normalized snapshot options v :
  snapshot_distinct snapshot ->
  validate normalized snapshot options = Ok v <->
  check_snapshot snapshot = Ok tt /\ options_ok options
  /\ validated_ok (NormalizedLsq.query normalized) snapshot options v.
Proof.
  intros Hd. split; [|intros (? & ? & ?); by apply validate_complete].
  intros H. pose proof (validate_ok _ _ _ _ H) as Hv. unfold validate in H.
  apply bind_ok in H as ([] & Hs & H). apply bind_ok in H as (? & Ho%fail_if_ok & _).
  apply options_guard in Ho. done.
Qed.

Lemma validate_accepts_exactly_witness :
  validate (normalized_sample revenue_by_sku) commerce default_options
  <> validate (normalized_sample revenue_by_month) commerce default_options
  /\ exists v, validated_ok revenue_by_sku commerce default_options v.
Proof.
  split; [vm_compute; discriminate|].
  destruct (is_ok_true (validate (normalized_sample revenue_by_sku) commerce default_options))
    as [v Hv]; [vm_compute; reflexivity|].
  destruct (proj1 (validate_accepts_exactly _ _ _ v commerce_distinct) Hv) as (_ & _ & H).
  exists v. exact H.
Defined.

(** ** Fan-out *)

(** *** Grouped selections, as text and as meaning *)

(** Expressions of an anchored statement: any text; a column of the row of the
    model, alone or where another column equals a parameter; and a column of the
    groups. *)
Inductive Expr : Type :=
| Opaque (text : string)
| Own (column : string)
| OwnWhere (filter parameter column : string)
| Grouped (name : string).

Definition own_text (column : string) : string := "t0." +:+ quote_identifier column.

Definition expr_text (e : Expr) : string :=
  match e with
  | Opaque text => text
  | Own column => own_text column
  | OwnWhere filter parameter column =>
      "CASE WHEN " +:+ own_text filter +:+ " = " +:+ parameter +:+ " THEN " +:+ own_text column
      +:+ " END"
  | Grouped name => "a." +:+ quote_identifier name
  end.

(** A selection that groups by its first columns and aggregates the others. *)
Module Select.
Record Select : Type := mk {
  keys : list (Expr * string);
  aggregates : list (Aggregation * Expr * string);
  source : string;
}.
End Select.
Abbreviation Select := Select.Select.

Definition column_text (expression name : string) : string :=
  expression +:+ " AS " +:+ quote_identifier name.

Definition select_text (margin : string) (s : Select) : string :=
  margin +:+ "SELECT "
  +:+ join ", " (map (fun k => column_text (expr_text k.1) k.2) (Select.keys s)
                 ++ map (fun a => column_text (aggregate_call a.1.1 (expr_text a.1.2)) a.2)
                      (Select.aggregates s))
  +:+ nl +:+ margin +:+ Select.source s
  +:+ (if decide (Select.keys s = []) then EmptyString
       else nl +:+ margin +:+ "GROUP BY " +:+ positional_group_by (length (Select.keys s)) 1).

(** Groups are in no particular order in SQL; here that of their last row.  A
    selection without keys has one group, even of no rows. *)
Section select_rows.
Context {V R : Type} `{EqDecision V} (aggregate : Aggregation -> list V -> V).
Context (value : Expr -> R -> V).

Definition key_of (s : Select) (row : R) : list V := map (fun k => value k.1 row) (Select.keys s).

Definition distinct_keys (s : Select) (rows : list R) : list (list V) :=
  if decide (Select.keys s = []) then [[]] else remove_dups (map (key_of s) rows).

Definition select_row (s : Select) (rows : list R) (key : list V) : list (string * V) :=
  zip (Select.keys s).*2 key
  ++ map (fun a => (a.2, aggregate a.1.1 (map (value a.1.2)
                                            (filter (fun row => key_of s row = key) rows))))
       (Select.aggregates s).

Definition select_rows (s : Select) (rows : list R) : list (list (string * V)) :=
  map (select_row s rows) (distinct_keys s rows).
End select_rows.

(** A statement that aggregates over an anchor: its dimensions, the column of the
    anchor, its metrics with the expression each aggregates, and what it reads. *)
Module Anchored.
Record Anchored : Type := mk {
  dimensions : list (string * string);
  anchor : string;
  metrics : list (Aggregation * Expr * string);
  source : string;
}.
End Anchored.
Abbreviation Anchored := Anchored.Anchored.

Definition numbered (prefix : string) (index : nat) : string := prefix +:+ pretty index.

(** One group for every anchor in every combination of dimensions, then one for
    every combination of dimensions. *)
Definition inner_select (q : Anchored) : Select :=
  Select.mk
    (imap (fun i d => (Opaque d.1, numbered "__d" i)) (Anchored.dimensions q)
     ++ [(Own (Anchored.anchor q), "__anchor")])
    (imap (fun i m => (Aggregation.Max, m.1.2, numbered "__m" i)) (Anchored.metrics q))
    (Anchored.source q).

Definition outer_select (q : Anchored) : Select :=
  Select.mk
    (imap (fun i d => (Grouped (numbered "__d" i), d.2)) (Anchored.dimensions q))
    (imap (fun i m => (m.1.1, Grouped (numbered "__m" i), m.2)) (Anchored.metrics q))
    ("FROM " +:+ anchor_groups +:+ " AS a").

Definition anchored_text (q : Anchored) : string :=
  "WITH " +:+ anchor_groups +:+ " AS (" +:+ nl +:+ select_text "  " (inner_select q) +:+ nl
  +:+ ")" +:+ nl +:+ select_text EmptyString (outer_select q).

(** *** Lists without duplicates *)

Section distinct.
Context {A : Type} `{EqDecision A}.

Lemma filter_remove_dups (P : A -> Prop) `{forall a, Decision (P a)} l :
  filter P (remove_dups l) = remove_dups (filter P l).
Proof.
  induction l as [|a l IH]; [done|]. rewrite (filter_cons _ a l). simpl.
  destruct (decide_rel elem_of a l) as [Hin|Hout], (decide (P a)) as [Ha|Ha]; simpl.
  - destruct (decide_rel elem_of a (filter P l)) as [_|[]]; [done|]. by apply list_elem_of_filter.
  - done.
  - rewrite filter_cons_True, IH by done.
    destruct (decide_rel elem_of a (filter P l)) as [Hin|_]; [|done].
    by apply list_elem_of_filter in Hin as [_ ?].
  - by rewrite filter_cons_False, IH by done.
Qed.

Context {B : Type} `{EqDecision B} (f : A -> B).

Lemma remove_dups_map_inj `{!Inj (=) (=) f} l : remove_dups (map f l) = map f (remove_dups l).
Proof.
  induction l as [|a l IH]; [done|]. simpl.
  destruct (decide_rel elem_of (f a) (map f l)) as [Hin|Hout],
    (decide_rel elem_of a l) as [Hin'|Hout']; simpl; rewrite ?IH; try done; exfalso.
  - apply list_elem_of_fmap in Hin as (b & ->%(inj f) & Hb). done.
  - apply Hout, list_elem_of_fmap. by exists a.
Qed.

Lemma remove_dups_map_dups l : remove_dups (map f (remove_dups l)) = remove_dups (map f l).
Proof.
  induction l as [|a l IH]; [done|]. simpl.
  destruct (decide_rel elem_of a l) as [Hin|Hout]; simpl.
  - destruct (decide_rel elem_of (f a) (map f l)) as [_|[]]; [done|].
    apply list_elem_of_fmap. by exists a.
  - assert (Hiff : f a ∈ map f (remove_dups l) <-> f a ∈ map f l).
    { rewrite !list_elem_of_fmap. by setoid_rewrite elem_of_remove_dups. }
    destruct (decide_rel elem_of (f a) (map f (remove_dups l))),
      (decide_rel elem_of (f a) (map f l)); rewrite ?IH; tauto || done.
Qed.
End distinct.

Lemma map_imap_ext {A B C} (g : B -> C) (h : A -> C) l : forall f : nat -> A -> B,
  (forall i a, l !! i = Some a -> g (f i a) = h a) -> map g (imap f l) = map h l.
Proof.
  induction l as [|a l IH]; intros f Hf; [done|]. simpl. f_equal; [by apply (Hf 0)|].
  apply IH. intros i b Hb. by apply (Hf (S i)).
Qed.

Lemma map_imap_eq {A B C} (g : B -> C) l : forall (f : nat -> A -> B) (k : list C),
  length k = length l -> (forall i a c, l !! i = Some a -> k !! i = Some c -> g (f i a) = c) ->
  map g (imap f l) = k.
Proof.
  induction l as [|a l IH]; intros f [|c k] Hk Hf; try done. simpl.
  f_equal; [by apply (Hf 0)|]. apply IH; [by injection Hk|]. intros i b d Hb Hd.
  by apply (Hf (S i)).
Qed.

Lemma find_zip {V} (names : list string) (vs : list V) i n v :
  NoDup names -> names !! i = Some n -> vs !! i = Some v ->
  List.find (fun c => bool_decide (c.1 = n)) (zip names vs) = Some (n, v).
Proof.
  intros Hn. revert vs i. induction Hn as [|m names Hm Hn IH]; intros [|w vs] [|i]; try done; simpl.
  - intros [= ->] [= ->]. by rewrite bool_decide_eq_true_2.
  - intros Hi Hv. rewrite bool_decide_eq_false_2; [by eapply IH|].
    intros ->. apply Hm. by eapply list_elem_of_lookup_2.
Qed.

Lemma zip_imap {A B C} (h : A -> C) l : forall f : nat -> A -> B,
  zip (imap f l) (map h l) = imap (fun i a => (f i a, h a)) l.
Proof. induction l as [|a l IH]; intros f; [done|]. simpl. f_equal. apply IH. Qed.

(** *** What an anchored statement means *)

Section meaning.
Context {V R : Type} `{EqDecision V} (null : V) (equal : V -> V -> bool).
Context (parameter : string -> V) (aggregate : Aggregation -> list V -> V).
(** The value of a text in a row of the joined tables, and of a column of the
    row of the model that it is from. *)
Context (text : string -> R -> V) (cell : string -> R -> V).

Definition row_value (e : Expr) (row : R) : V :=
  match e with
  | Opaque t => text t row
  | Own column => cell column row
  | OwnWhere filter p column =>
      if equal (cell filter row) (parameter p) then cell column row else null
  | Grouped _ => null
  end.

Definition group_value (e : Expr) (row : list (string * V)) : V :=
  match e with
  | Grouped name =>
      default null (snd <$> List.find (fun c => bool_decide (c.1 = name)) row)
  | _ => null
  end.

Definition anchored_rows (q : Anchored) (rows : list R) : list (list (string * V)) :=
  select_rows aggregate group_value (outer_select q)
    (select_rows aggregate row_value (inner_select q) rows).

(** The reference: [own] is the row of the model that has a key.  Every key is
    counted once in every combination of dimensions it occurs in, however many
    rows the joins make of it. *)
Context (own : string -> V -> V).

Definition own_value (e : Expr) (key : V) : V :=
  match e with
  | Own column => own column key
  | OwnWhere filter p column =>
      if equal (own filter key) (parameter p) then own column key else null
  | _ => null
  end.

Definition dimension_values (q : Anchored) (row : R) : list V :=
  map (fun d => text d.1 row) (Anchored.dimensions q).

Definition counted_once (q : Anchored) (rows : list R) : list (list (string * V)) :=
  let anchors values :=
    remove_dups (map (cell (Anchored.anchor q))
                   (filter (fun row => dimension_values q row = values) rows)) in
  map (fun values =>
         zip (Anchored.dimensions q).*2 values
         ++ map (fun m => (m.2, aggregate m.1.1 (map (own_value m.1.2) (anchors values))))
              (Anchored.metrics q))
    (if decide (Anchored.dimensions q = []) then [[]]
     else remove_dups (map (dimension_values q) rows)).

(** The anchor is a key: it determines the row of the model. *)
Definition identifies (anchor : string) (rows : list R) : Prop :=
  forall row, row ∈ rows -> forall column, cell column row = own column (cell anchor row).

(** The maximum of equal values is that value. *)
Definition max_of_equals : Prop :=
  forall v l, Forall (fun w => w = v) l -> aggregate Aggregation.Max (v :: l) = v.

Definition of_own_row (e : Expr) : Prop :=
  match e with Own _ | OwnWhere _ _ _ => True | _ => False end.

Section counted.
Context (q : Anchored) (rows : list R) (Hmax : max_of_equals).
Context (Hkey : identifies (Anchored.anchor q) rows).
Context (Hown : Forall (fun m => of_own_row m.1.2) (Anchored.metrics q)).

Abbreviation dims := (dimension_values q).
Abbreviation anchor_of := (cell (Anchored.anchor q)).

Definition inner_names : list string :=
  imap (fun i _ => numbered "__d" i) (Anchored.dimensions q) ++ ["__anchor"]
  ++ imap (fun i _ => numbered "__m" i) (Anchored.metrics q).

(** The inner row of a combination of dimensions and an anchor. *)
Definition inner_row (p : list V * V) : list (string * V) :=
  zip inner_names (p.1 ++ [p.2] ++ map (fun m => own_value m.1.2 p.2) (Anchored.metrics q)).

Definition inner_pairs : list (list V * V) :=
  remove_dups (map (fun row => (dims row, anchor_of row)) rows).

Lemma row_value_own e row :
  row ∈ rows -> of_own_row e -> row_value e row = own_value e (anchor_of row).
Proof.
  intros Hin. pose proof (Hkey _ Hin) as Hc.
  destruct e as [t|c|f p c|n]; simpl; try done. intros _.
  by rewrite (Hc c), (Hc f).
Qed.

Lemma inner_key row : key_of row_value (inner_select q) row = dims row ++ [anchor_of row].
Proof.
  unfold key_of, inner_select. simpl. rewrite map_app. f_equal. by apply map_imap_ext.
Qed.

Lemma inner_aggregate m row :
  m ∈ Anchored.metrics q -> row ∈ rows ->
  aggregate Aggregation.Max (map (row_value m.1.2)
    (filter (fun row' => key_of row_value (inner_select q) row'
                         = key_of row_value (inner_select q) row) rows))
  = own_value m.1.2 (anchor_of row).
Proof.
  intros Hm Hr. rewrite Forall_forall in Hown. specialize (Hown _ Hm).
  assert (Hall : Forall (fun w => w = own_value m.1.2 (anchor_of row)) (map (row_value m.1.2)
    (filter (fun row' => key_of row_value (inner_select q) row'
                         = key_of row_value (inner_select q) row) rows))).
  { apply Forall_map, Forall_forall. intros row' [Hk Hin]%list_elem_of_filter.
    rewrite !inner_key in Hk. apply app_inj_2 in Hk as [_ [= Hk]]; [|done].
    by rewrite row_value_own, Hk. }
  destruct (filter _ rows) as [|row' l] eqn:Hf.
  - assert (Hin : row ∈ filter (fun row' => key_of row_value (inner_select q) row'
      = key_of row_value (inner_select q) row) rows) by (by apply list_elem_of_filter).
    rewrite Hf in Hin. by apply not_elem_of_nil in Hin.
  - simpl in *. apply Forall_cons in Hall as [-> Hall]. by apply Hmax.
Qed.

Lemma inner_select_row row :
  row ∈ rows ->
  select_row aggregate row_value (inner_select q) rows (dims row ++ [anchor_of row])
  = inner_row (dims row, anchor_of row).
Proof.
  intros Hr. unfold select_row, inner_row, inner_names, inner_select.
  cbn [fst snd Select.keys Select.aggregates]. rewrite !app_assoc, zip_with_app.
  2: { rewrite !length_app, length_imap. unfold dimension_values. by rewrite length_map. }
  f_equal.
  - by rewrite fmap_app, fmap_imap.
  - rewrite zip_imap. etransitivity; [apply fmap_imap|]. apply imap_ext. intros i m Hm. simpl.
    f_equal. rewrite <- inner_key. apply inner_aggregate; [by eapply list_elem_of_lookup_2|done].
Qed.

Lemma inner_rows :
  select_rows aggregate row_value (inner_select q) rows = map inner_row inner_pairs.
Proof.
  unfold select_rows, distinct_keys. rewrite decide_False by (simpl; by destruct (imap _ _)).
  assert (Hinj : Inj (=) (=) (fun p : list V * V => p.1 ++ [p.2])).
  { intros [d a] [d' a'] [Hd Ha]%app_inj_2; [|done]. simpl in *. by simplify_eq. }
  assert (Hk : map (key_of row_value (inner_select q)) rows
    = map (fun p : list V * V => p.1 ++ [p.2]) (map (fun row => (dims row, anchor_of row)) rows)).
  { rewrite map_map. apply map_ext. intros row. apply inner_key. }
  rewrite Hk, remove_dups_map_inj, map_map by exact Hinj. apply map_ext_in. intros p Hp%list_elem_of_In.
  apply elem_of_remove_dups, list_elem_of_fmap in Hp as (row & -> & Hrow).
  by apply inner_select_row.
Qed.

Lemma inner_names_distinct : NoDup inner_names.
Proof.
  assert (Hn : forall prefix {A} (l : list A), NoDup (imap (fun i _ => numbered prefix i) l)).
  { intros prefix A l. apply NoDup_alt. intros i j n. rewrite !list_lookup_imap.
    destruct (l !! i), (l !! j); try done. simpl. intros [= <-] [= He].
    unfold numbered in He. by apply (inj (String.append prefix)), (inj pretty) in He. }
  unfold inner_names. apply NoDup_app. split_and!; [apply Hn| |].
  - intros n (i & d & -> & _)%elem_of_lookup_imap. rewrite elem_of_app, elem_of_lookup_imap.
    intros [Hin%list_elem_of_singleton|(j & m & Hj & _)]; discriminate.
  - apply NoDup_app. split_and!; [apply NoDup_singleton| |apply Hn].
    intros n ->%list_elem_of_singleton (j & m & Hj & _)%elem_of_lookup_imap. discriminate.
Qed.

Lemma inner_row_value p i n v :
  inner_names !! i = Some n ->
  (p.1 ++ [p.2] ++ map (fun m => own_value m.1.2 p.2) (Anchored.metrics q)) !! i = Some v ->
  group_value (Grouped n) (inner_row p) = v.
Proof.
  intros Hn Hv. unfold inner_row, group_value.
  by rewrite (find_zip _ _ _ _ _ inner_names_distinct Hn Hv).
Qed.

Lemma outer_key p :
  length p.1 = length (Anchored.dimensions q) ->
  key_of group_value (outer_select q) (inner_row p) = p.1.
Proof.
  intros Hl. unfold key_of. apply map_imap_eq; [done|]. intros i d v Hd Hv.
  apply (inner_row_value p i).
  - unfold inner_names. apply lookup_app_l_Some. rewrite list_lookup_imap. by rewrite Hd.
  - by apply lookup_app_l_Some.
Qed.

Lemma outer_input p j m :
  length p.1 = length (Anchored.dimensions q) -> Anchored.metrics q !! j = Some m ->
  group_value (Grouped (numbered "__m" j)) (inner_row p) = own_value m.1.2 p.2.
Proof.
  intros Hl Hm. apply (inner_row_value p (length (Anchored.dimensions q) + S j)).
  - unfold inner_names. rewrite lookup_app_r; rewrite length_imap; [|lia].
    replace (_ + S j - _) with (S j) by lia. simpl. by rewrite list_lookup_imap, Hm.
  - rewrite lookup_app_r; [|lia]. replace (_ + S j - _) with (S j) by lia. simpl.
    change (map ?f ?l) with (f <$> l). by rewrite list_lookup_fmap, Hm.
Qed.

Lemma pair_dimensions p : p ∈ inner_pairs -> length p.1 = length (Anchored.dimensions q).
Proof.
  intros (row & -> & _)%elem_of_remove_dups%list_elem_of_fmap. simpl. apply length_map.
Qed.

Lemma pairs_of values :
  map snd (filter (fun p => p.1 = values) inner_pairs)
  = remove_dups (map anchor_of (filter (fun row => dims row = values) rows)).
Proof.
  unfold inner_pairs. rewrite filter_remove_dups.
  assert (Hf : filter (fun p => p.1 = values) (map (fun row => (dims row, anchor_of row)) rows)
    = map (fun a => (values, a)) (map anchor_of (filter (fun row => dims row = values) rows))).
  { clear. induction rows as [|row l IH]; [done|]. rewrite (filter_cons _ row l). simpl.
    rewrite filter_cons. simpl. destruct (decide (dims row = values)) as [<-|]; simpl; [|done].
    by rewrite IH. }
  rewrite Hf, remove_dups_map_inj by (by intros a b [= ->]). rewrite map_map. apply map_id.
Qed.

Lemma filter_map_in {A B} (f : A -> B) (P : B -> Prop) (Q : A -> Prop)
    `{forall b, Decision (P b)} `{forall a, Decision (Q a)} l :
  (forall a, a ∈ l -> P (f a) <-> Q a) -> filter P (map f l) = map f (filter Q l).
Proof.
  induction l as [|a l IH]; intros Hpq; [done|]. rewrite (filter_cons Q). simpl.
  rewrite filter_cons. specialize (IH ltac:(intros b Hb; apply Hpq; by right)).
  pose proof (Hpq a ltac:(by left)) as Ha.
  destruct (decide (P (f a))), (decide (Q a)); simpl; rewrite ?IH; tauto || done.
Qed.

(** Every anchor is counted once. *)
Lemma anchored_counts_once : anchored_rows q rows = counted_once q rows.
Proof.
  unfold anchored_rows. rewrite inner_rows. unfold select_rows at 1, counted_once. cbv zeta.
  assert (Hkeys : distinct_keys group_value (outer_select q) (map inner_row inner_pairs)
    = if decide (Anchored.dimensions q = []) then [[]] else remove_dups (map dims rows)).
  { unfold distinct_keys. destruct (decide (Anchored.dimensions q = [])) as [Hd|Hd].
    { rewrite decide_True; [done|]. unfold outer_select. simpl. by rewrite Hd. }
    rewrite decide_False by (unfold outer_select; simpl; by destruct (Anchored.dimensions q)).
    rewrite map_map, (map_ext_in _ fst).
    - unfold inner_pairs. by rewrite remove_dups_map_dups, map_map.
    - intros p Hp%list_elem_of_In. apply outer_key. by apply pair_dimensions. }
  rewrite Hkeys. apply map_ext. intros values. unfold select_row. f_equal.
  - f_equal. apply map_imap_ext. done.
  - apply map_imap_ext. intros j m Hm. simpl. f_equal. f_equal. rewrite <- pairs_of.
    rewrite (filter_map_in inner_row _ (fun p => p.1 = values)).
    + rewrite !map_map. apply map_ext_in. intros p [_ Hp]%list_elem_of_In%list_elem_of_filter.
      apply outer_input; [by apply pair_dimensions|done].
    + intros p Hp. by rewrite outer_key by (by apply pair_dimensions).
Qed.
End counted.
End meaning.

(** *** The statement of a query *)

Lemma R_bind_ok {A B} (m : R A) (f : A -> R B) st b st' :
  (m ≫= f) st = Ok (b, st') -> exists a st1, m st = Ok (a, st1) /\ f a st1 = Ok (b, st').
Proof. unfold mbind, R_bind. destruct (m st) as [[a st1]|e]; naive_solver. Qed.

(** What a metric aggregates: its column, or its column where its filter holds. *)
Definition metric_input (m : ResolvedMetric) (e : Expr) : Prop :=
  match rm_filter m with
  | None => e = Own (Field.column (rm_field m))
  | Some (f, _) => exists k : nat,
      e = OwnWhere (Field.column f) (render_parameter k (Field.data_type f))
            (Field.column (rm_field m))
  end.

(** A statement with the dimensions, the anchor and the metrics of a query. *)
Record statement_of (v : ValidatedQuery) (a : Field) (q : Anchored) : Prop := {
  so_dimensions : Forall2 (fun d c => c.2 = Field.semantic_name (rd_field d))
    (vq_dimensions v) (Anchored.dimensions q);
  so_anchor : Anchored.anchor q = Field.column a;
  so_metrics : Forall2 (fun m c => c.1.1 = Metric.aggregation (rm_metric m)
      /\ metric_input m c.1.2 /\ c.2 = Metric.semantic_name (rm_metric m))
    (vq_metrics v) (Anchored.metrics q);
}.

Lemma map_R_choose {A B C} (f : A -> R B) (P : A -> C -> Prop) (h : A -> C -> B) l :
  forall st bs st', map_R f l st = Ok (bs, st') ->
  (forall a b st st', a ∈ l -> f a st = Ok (b, st') -> exists c, P a c /\ b = h a c) ->
  exists cs, Forall2 P l cs /\ bs = zip_with h l cs.
Proof.
  induction l as [|a l IH]; intros st bs st' Hm Hf; [injection Hm as <- _; by exists []|].
  apply R_bind_ok in Hm as (b & st1 & Hb & Hm). apply R_bind_ok in Hm as (k & st2 & Hk & Hm).
  injection Hm as <- _. apply Hf in Hb as (c & Hc & ->); [|by left].
  destruct (IH _ _ _ Hk) as (cs & Hcs & ->); [intros a' b' s s' Hin; apply Hf; by right|].
  exists (c :: cs). split; [by constructor|done].
Qed.

Lemma zip_with_enumerate {A B C} (h : nat * A -> C -> B) (g : nat -> C -> B) l :
  (forall p c, h p c = g p.1 c) ->
  forall cs, length l = length cs -> zip_with h (enumerate l) cs = imap g cs.
Proof.
  intros Hh. unfold enumerate.
  assert (Hgen : forall (f : nat -> nat) cs, length l = length cs ->
    zip_with h (imap (fun i a => (f i, a)) l) cs = imap (fun i c => g (f i) c) cs).
  { induction l as [|a l IH]; intros f [|c cs] Hl; try done. simpl. rewrite Hh. f_equal.
    injection Hl as Hl. exact (IH (f ∘ S) cs Hl). }
  exact (Hgen (fun i => i)).
Qed.

Lemma imap_Forall2 {A B C} (P : A -> C -> Prop) (g : nat -> C -> B) l cs :
  Forall2 P l cs -> forall f : nat -> A -> B,
  (forall i a c, P a c -> f i a = g i c) -> imap f l = imap g cs.
Proof.
  intros Hp. revert g. induction Hp as [|a c l cs Hac _ IH]; intros g f Hf; [done|]. simpl.
  f_equal; [by apply Hf|]. apply IH. intros i b d. apply Hf.
Qed.

Lemma enumerated_Forall2 {A C} (P : A -> C -> Prop) l cs :
  Forall2 (fun p c => P p.2 c) (enumerate l) cs -> Forall2 P l cs.
Proof.
  unfold enumerate. generalize (@pair nat A) (fun i a => eq_refl : (@pair nat A i a).2 = a).
  revert cs. induction l as [|a l IH]; intros cs f Hf; simpl;
    [by intros ->%Forall2_nil_inv_l|].
  intros (c & cs' & Hc & Hcs & ->)%Forall2_cons_inv_l. rewrite Hf in Hc. constructor; [done|].
  apply (IH _ (f ∘ S)); [|done]. intros i b. apply Hf.
Qed.

Lemma render_own_field model f aliases st s st' :
  Field.relationship f = None -> render_field model f aliases st = Ok (s, st') ->
  s = own_text (Field.column f).
Proof. intros Hf. unfold render_field. rewrite Hf. by intros [= <- _]. Qed.

Lemma render_input model m aliases st s st' :
  Field.relationship (rm_field m) = None ->
  (forall f w, rm_filter m = Some (f, w) -> Field.relationship f = None) ->
  render_anchor_metric_input model m aliases st = Ok (s, st') ->
  exists e, metric_input m e /\ s = aggregate_call Aggregation.Max (expr_text e).
Proof.
  intros Hd Hf Hr. apply R_bind_ok in Hr as (field & st1 & ->%render_own_field & Hr); [|done].
  unfold metric_input. destruct (rm_filter m) as [[f w]|].
  - apply R_bind_ok in Hr as (filter & st2 & ->%render_own_field & Hr); [|by eapply Hf].
    apply R_bind_ok in Hr as (k & st3 & _ & Hr). injection Hr as <- _.
    eexists. split; [by exists k|]. simpl. by rewrite !sapp_assoc.
  - injection Hr as <- _. eexists. split; [done|]. done.
Qed.

Lemma inner_text q :
  select_text "  " (inner_select q)
  = "  SELECT "
    +:+ join ", " (imap (fun i d => d.1 +:+ " AS " +:+ internal_name "__d" i) (Anchored.dimensions q)
          ++ [own_text (Anchored.anchor q) +:+ " AS " +:+ dq +:+ "__anchor" +:+ dq]
          ++ imap (fun i m => aggregate_call Aggregation.Max (expr_text m.1.2) +:+ " AS "
                              +:+ internal_name "__m" i) (Anchored.metrics q))
    +:+ nl +:+ "  " +:+ Anchored.source q +:+ nl +:+ "  GROUP BY "
    +:+ positional_group_by (length (Anchored.dimensions q) + 1) 1.
Proof.
  unfold select_text, inner_select. cbn [Select.keys Select.aggregates Select.source].
  rewrite decide_False by (by destruct (imap _ _)). rewrite length_app, length_imap.
  rewrite map_app, <- app_assoc.
  change (map ?f (imap ?g ?l)) with (f <$> imap g l). rewrite !fmap_imap. reflexivity.
Qed.

Lemma outer_text q :
  select_text EmptyString (outer_select q)
  = "SELECT "
    +:+ join ", " (imap (fun i d => "a." +:+ internal_name "__d" i +:+ " AS "
                                    +:+ quote_identifier d.2) (Anchored.dimensions q)
          ++ imap (fun i m => render_outer_metric m.1.1 i +:+ " AS " +:+ quote_identifier m.2)
               (Anchored.metrics q))
    +:+ nl +:+ "FROM " +:+ anchor_groups +:+ " AS a"
    +:+ if decide (Anchored.dimensions q = []) then EmptyString
        else nl +:+ "GROUP BY " +:+ positional_group_by (length (Anchored.dimensions q)) 1.
Proof.
  unfold select_text, outer_select. cbn [Select.keys Select.aggregates Select.source].
  rewrite length_imap. change (map ?f (imap ?g ?l)) with (f <$> imap g l). rewrite !fmap_imap.
  destruct (Anchored.dimensions q) as [|d ds]; [rewrite !decide_True by done|
    rewrite !decide_False by done]; reflexivity.
Qed.

(** The columns of the inner selection, with what they are. *)
Lemma rendered_dimensions v aliases st ds st' :
  map_R (fun '(index, dimension) =>
           expression ← render_dimension (vq_model v) dimension aliases;
           mret (expression +:+ " AS " +:+ internal_name "__d" index))
    (enumerate (vq_dimensions v)) st = Ok (ds, st') ->
  exists dims, Forall2 (fun d c => c.2 = Field.semantic_name (rd_field d)) (vq_dimensions v) dims
    /\ ds = imap (fun i d => d.1 +:+ " AS " +:+ internal_name "__d" i) dims.
Proof.
  intros Hds. apply (map_R_choose _ (fun p c => c.2 = Field.semantic_name (rd_field p.2))
    (fun p (c : string * string) => c.1 +:+ " AS " +:+ internal_name "__d" p.1)) in Hds
    as (dims & Hdims & ->).
  2: { intros [i d] b s s' _ Hb. apply R_bind_ok in Hb as (e & s1 & _ & Hb). injection Hb as <- _.
       by exists (e, Field.semantic_name (rd_field d)). }
  apply (enumerated_Forall2 (fun d c => c.2 = Field.semantic_name (rd_field d))) in Hdims.
  exists dims. split; [done|]. apply zip_with_enumerate; [done|]. by eapply Forall2_length.
Qed.

Lemma rendered_metrics v aliases st ms st' :
  (forall m, m ∈ vq_metrics v -> Field.relationship (rm_field m) = None
     /\ forall f w, rm_filter m = Some (f, w) -> Field.relationship f = None) ->
  map_R (fun '(index, metric) =>
           expression ← render_anchor_metric_input (vq_model v) metric aliases;
           mret (expression +:+ " AS " +:+ internal_name "__m" index))
    (enumerate (vq_metrics v)) st = Ok (ms, st') ->
  exists metrics, Forall2 (fun m c => c.1.1 = Metric.aggregation (rm_metric m)
      /\ metric_input m c.1.2 /\ c.2 = Metric.semantic_name (rm_metric m)) (vq_metrics v) metrics
    /\ ms = imap (fun i (m : Aggregation * Expr * string) =>
                    aggregate_call Aggregation.Max (expr_text m.1.2) +:+ " AS "
                    +:+ internal_name "__m" i) metrics.
Proof.
  intros Hm Hms.
  apply (map_R_choose _ (fun p c => c.1.1 = Metric.aggregation (rm_metric p.2)
      /\ metric_input p.2 c.1.2 /\ c.2 = Metric.semantic_name (rm_metric p.2))
    (fun p (c : Aggregation * Expr * string) =>
       aggregate_call Aggregation.Max (expr_text c.1.2) +:+ " AS " +:+ internal_name "__m" p.1))
    in Hms as (metrics & Hmetrics & ->).
  2: { intros [i m] b s s' (j & m' & [= -> ->] & Hin)%elem_of_lookup_imap Hb.
       apply list_elem_of_lookup_2, Hm in Hin as [Hd Hf].
       apply R_bind_ok in Hb as (e & s1 & (x & Hx & ->)%render_input & Hb); [|done|done].
       injection Hb as <- _.
       by exists (Metric.aggregation (rm_metric m'), x, Metric.semantic_name (rm_metric m')). }
  apply (enumerated_Forall2 (fun m c => c.1.1 = Metric.aggregation (rm_metric m)
      /\ metric_input m c.1.2 /\ c.2 = Metric.semantic_name (rm_metric m))) in Hmetrics.
  exists metrics. split; [done|]. apply zip_with_enumerate; [done|]. by eapply Forall2_length.
Qed.

(** The text that is rendered over an anchor. *)
Lemma render_anchored_text v a aliases st sql st' :
  Field.relationship a = None ->
  (forall m, m ∈ vq_metrics v -> Field.relationship (rm_field m) = None
     /\ forall f w, rm_filter m = Some (f, w) -> Field.relationship f = None) ->
  render_anchored_sql v a aliases st = Ok (sql, st') ->
  exists q, statement_of v a q /\ sql = anchored_text q.
Proof.
  intros Ha Hm Hr. unfold render_anchored_sql in Hr.
  apply R_bind_ok in Hr as (ds & st1 & (dims & Hdims & ->)%rendered_dimensions & Hr).
  apply R_bind_ok in Hr as (anchor & st2 & ->%render_own_field & Hr); [|done].
  apply R_bind_ok in Hr as (ms & st3 & (metrics & Hmetrics & ->)%rendered_metrics & Hr); [|done].
  apply R_bind_ok in Hr as (from & st4 & _ & Hr). injection Hr as <- _.
  exists (Anchored.mk dims (Field.column a) metrics (replace_char newline (nl +:+ "  ") from)).
  split; [done|]. unfold anchored_text. rewrite inner_text, outer_text.
  cbn [Anchored.dimensions Anchored.anchor Anchored.metrics Anchored.source].
  unfold enumerate. change (map ?f (imap ?g ?l)) with (f <$> imap g l). rewrite !fmap_imap.
  rewrite (imap_Forall2 _ (fun i (d : string * string) => "a." +:+ internal_name "__d" i +:+ " AS "
    +:+ quote_identifier d.2) _ _ Hdims) by (by intros i d c ->).
  rewrite (imap_Forall2 _ (fun i (m : Aggregation * Expr * string) => render_outer_metric m.1.1 i
    +:+ " AS " +:+ quote_identifier m.2) _ _ Hmetrics) by (by intros i m c (-> & _ & ->)).
  unfold group_by_clause. rewrite (Forall2_length _ _ _ Hdims). rewrite !sapp_assoc.
  destruct Hdims; [rewrite !decide_True by done|rewrite !decide_False by done]; reflexivity.
Qed.

Lemma render_sql_anchored v st sql st' a :
  render_sql v st = Ok (sql, st') -> vq_aggregation_anchor v = Some a ->
  Field.relationship a = None ->
  (forall m, m ∈ vq_metrics v -> Field.relationship (rm_field m) = None
     /\ forall f w, rm_filter m = Some (f, w) -> Field.relationship f = None) ->
  exists q tail, sql = anchored_text q +:+ tail /\ statement_of v a q.
Proof.
  intros Hr Ha Hd Hm. apply R_bind_ok in Hr as (s & st1 & Hs & Hr). rewrite Ha in Hs.
  apply render_anchored_text in Hs as (q & Hq & ->); [|done..].
  apply R_bind_ok in Hr as (k & st2 & _ & Hr). injection Hr as <- _. exists q.
  destruct (decide (vq_order_by v = [])); eexists; rewrite ?sapp_assoc; done.
Qed.

Lemma statement_inputs v a q :
  statement_of v a q -> Forall (fun m => of_own_row m.1.2) (Anchored.metrics q).
Proof.
  intros [_ _ Hm]. induction Hm as [|m c ms cs (_ & Hi & _) _ IH]; constructor; [|done].
  unfold metric_input in Hi. destruct (rm_filter m) as [[f w]|]; [destruct Hi as [k ->]|subst]; by
    rewrite ?Hi.
Qed.

(** ** Joins and anchors *)

(** Join safety.  The joined relationships of a validated query are exactly
    those its fields need, in the order of their names; each is declared by the
    model, targets the source relation of a model of the snapshot, is not
    many-to-many, and starts or ends in an entity key on its "one" side. *)
Theorem joins_are_needed_and_safe `{HC : Crates} normalized snapshot options v :
  validate normalized snapshot options = Ok v ->
  (forall r, r ∈ (vq_relationships v).*1 <-> needs (used_fields v) r)
  /\ bt_wf (vq_relationships v)
  /\ (forall n r, (n, r) ∈ vq_relationships v ->
        n = Relationship.semantic_name r /\ relationship_ok snapshot (vq_model v) r).
Proof. intros Hv%validate_ok. destruct Hv. by split_and!. Qed.

(** C32: fan-out safety.  A compiled query that joins a to-many relationship
    aggregates over one anchor: it has at least one metric, every metric declares
    the same anchor, which is a direct entity key, no metric is semi-additive and
    no metric filters on a joined field.  Its statement groups the joined rows by
    dimensions and anchor first, with one value per metric, and aggregates these
    groups by dimensions: whatever rows the joins make, as long as the anchor is
    a key of the model's rows, every row of the model is counted once in every
    combination of dimensions it occurs in.  Without such a join there is no
    anchor. *)
Theorem fanout_is_anchored `{HC : Crates} normalized snapshot options c :
  compile_lsq normalized snapshot options = Ok c ->
  exists v, validate normalized snapshot options = Ok v
    /\ anchor_ok (vq_relationships v) (vq_metrics v) (vq_aggregation_anchor v)
    /\ forall a, vq_aggregation_anchor v = Some a ->
         a ∈ Model.fields (vq_model v) /\ Field.entity_key a = true /\ Field.relationship a = None
         /\ exists q tail, CompiledQuery.sql c = anchored_text q +:+ tail /\ statement_of v a q
              /\ forall (V R : Type) (HV : EqDecision V) (null : V) equal parameter aggregate
                   (text cell : string -> R -> V) own rows,
                   max_of_equals aggregate -> identifies cell own (Field.column a) rows ->
                   anchored_rows null equal parameter aggregate text cell q rows
                   = counted_once null equal parameter aggregate text cell own q rows.
Proof.
  intros (v & st & Hval & [Hv Hsql _ _] & _)%compile_inv. exists v. split; [done|].
  split; [apply Hv|]. intros a Ha. pose proof (vo_anchor _ _ _ _ Hv) as Hok. rewrite Ha in Hok.
  destruct Hok as (_ & _ & Hall & m & Hm & Hma).
  destruct (metric_resolved _ _ _ _ Hv m Hm) as (r & _ & Hmok).
  pose proof (mo_anchor _ _ _ _ Hmok) as H. rewrite Hma in H. destruct H as (? & _ & Hd & ?).
  split_and!; [done..|].
  destruct (render_sql_anchored _ _ _ _ a Hsql Ha Hd) as (q & tail & Htext & Hq).
  { intros m' Hm'. destruct (metric_resolved _ _ _ _ Hv m' Hm') as (r' & _ & Hmok').
    split; [exact (mo_direct _ _ _ _ Hmok')|]. rewrite Forall_forall in Hall.
    exact (fm_filter _ _ (Hall _ Hm')). }
  exists q, tail. split_and!; [done..|].
  intros V R HV null equal parameter aggregate text cell own rows Hmax Hid.
  apply anchored_counts_once; [done|by rewrite (so_anchor _ _ _ Hq)|].
  by eapply statement_inputs.
Qed.

Lemma revenue_by_sku_validates : exists v,
  validate (normalized_sample revenue_by_sku) commerce default_options = Ok v.
Proof. apply is_ok_true. vm_compute. reflexivity. Qed.

Lemma validated_query_is_authorised_witness : exists v,
  validate (normalized_sample revenue_by_sku) commerce default_options = Ok v
  /\ Model.queryable (vq_model v) = true.
Proof.
  destruct revenue_by_sku_validates as [v Hv].
  destruct (validated_query_is_authorised _ _ _ v Hv) as (_ & _ & ? & _).
  exists v. repeat split; assumption.
Defined.

Lemma joins_are_needed_and_safe_witness : exists v,
  validate (normalized_sample revenue_by_sku) commerce default_options = Ok v
  /\ bt_wf (vq_relationships v).
Proof.
  destruct revenue_by_sku_validates as [v Hv].
  destruct (joins_are_needed_and_safe _ _ _ v Hv) as (_ & ? & _).
  exists v. split; assumption.
Defined.

(** A database with integers: order [k] has the amount [100 * k] and is paid. *)
Definition sample_own (column : string) (key : Z) : Z :=
  if decide (column = "order_id") then key
  else if decide (column = "amount") then (100 * key)%Z else 1%Z.

Definition sample_aggregate (f : Aggregation) (values : list Z) : Z :=
  match f, values with
  | Aggregation.Sum, _ => foldr Z.add 0%Z values
  | Aggregation.Count, _ | Aggregation.CountDistinct, _ => Z.of_nat (length values)
  | _, [] => 0%Z
  | _, v :: l => foldr Z.max v l
  end.

Lemma sample_max : max_of_equals sample_aggregate.
Proof. intros v l Hl. simpl. induction Hl as [|w l -> _ IH]; [done|]. simpl. lia. Qed.

(** Two rows of the first order, which has two items. *)
Lemma fanout_is_anchored_witness : exists c q tail,
  compile_lsq (normalized_sample revenue_by_sku) commerce default_options = Ok c
  /\ CompiledQuery.sql c = anchored_text q +:+ tail
  /\ let text _ (row : Z * Z) := row.2 in
     let cell column (row : Z * Z) := sample_own column row.1 in
     let rows := [(1, 7); (1, 7); (2, 7)]%Z in
     anchored_rows 0%Z Z.eqb (fun _ => 1%Z) sample_aggregate text cell q rows
     = counted_once 0%Z Z.eqb (fun _ => 1%Z) sample_aggregate text cell sample_own q rows.
Proof.
  destruct revenue_by_sku_compiles as [c Hc].
  destruct (fanout_is_anchored _ _ _ c Hc) as (v & Hv & _ & Ha).
  assert (Hanchor : match validate (normalized_sample revenue_by_sku) commerce default_options with
    | Ok v => Field.column <$> vq_aggregation_anchor v | Err _ => None end = Some "order_id")
    by (vm_compute; reflexivity).
  rewrite Hv in Hanchor. destruct (vq_aggregation_anchor v) as [a|] eqn:Hva; [|discriminate Hanchor].
  destruct (Ha a eq_refl) as (_ & _ & _ & q & tail & Hsql & _ & Hrows). injection Hanchor as Hcol.
  exists c, q, tail. split_and!; [exact Hc|exact Hsql|]. cbv zeta.
  apply Hrows; [exact sample_max|]. rewrite Hcol. intros row _ column. reflexivity.
Defined.

(** ** Row limit *)

Lemma push_parameter_bound t w st k st' :
  push_parameter t w st = Ok (k, st') -> CompiledParameter.mk k t w ∈ parameters st'.
Proof.
  unfold push_parameter. destruct (find_parameter t w (parameters st)) as [p|] eqn:Hf;
    intros H; apply Ok_inj in H; simplify_eq/=.
  - apply find_parameter_some in Hf as (Hp & <- & <-). by destruct p.
  - set_solver.
Qed.

Lemma render_sql_limit v st0 sql st :
  render_sql v st0 = Ok (sql, st) ->
  exists body k, sql = body +:+ nl +:+ "LIMIT $" +:+ pretty k +:+ "::text::bigint"
    /\ CompiledParameter.mk k DataType.Integer (Literal.Integer (Z.of_N (vq_limit v)))
         ∈ parameters st.
Proof.
  intros H. apply R_bind_ok in H as (s & st1 & _ & H).
  apply R_bind_ok in H as (k & st2 & Hp & H). apply Ok_inj in H.
  apply push_parameter_bound in Hp. simplify_eq. by eexists _, k.
Qed.

(** Every compiled statement is bounded: it ends in a [LIMIT] placeholder
    bound to the requested limit (or the configured default), which is at most
    the configured hard limit. *)
Theorem compiled_query_is_limited `{HC : Crates} normalized snapshot options c :
  compile_lsq normalized snapshot options = Ok c ->
  exists body k limit,
    CompiledQuery.sql c = body +:+ nl +:+ "LIMIT $" +:+ pretty k +:+ "::text::bigint"
    /\ CompiledParameter.mk k DataType.Integer (Literal.Integer (Z.of_N limit))
         ∈ CompiledQuery.parameters c
    /\ limit = default (default_limit options) (Lsq.limit (NormalizedLsq.query normalized))
    /\ (limit ≤ hard_limit options)%N.
Proof.
  intros (v & st & _ & [Hv Hr -> _] & _)%compile_inv.
  destruct (render_sql_limit _ _ _ _ Hr) as (body & k & Hsql & Hin).
  exists body, k, (vq_limit v). split_and!; try done; apply Hv.
Qed.

Lemma compiled_query_is_limited_witness : exists c body k limit,
  compile_lsq (normalized_sample revenue_by_month) commerce default_options = Ok c
  /\ CompiledQuery.sql c = body +:+ nl +:+ "LIMIT $" +:+ pretty (k : nat) +:+ "::text::bigint"
  /\ (limit ≤ hard_limit default_options)%N.
Proof.
  destruct revenue_by_month_compiles as [c Hc].
  destruct (compiled_query_is_limited _ _ _ c Hc) as (body & k & limit & H1 & _ & _ & H2).
  exists c, body, k, limit. exact (conj Hc (conj H1 H2)).
Defined.

(** ** Totality of rendering *)

Lemma compile_validated `{HC : Crates} normalized snapshot options v :
  validate normalized snapshot options = Ok v ->
  match compile_lsq normalized snapshot options with
  | Ok _ => True
  | Err e => timezone_error (vq_model v) e
      \/ (e = CompileError.HashSerialization /\ exists j m, json_to_string j = Err m)
  end.
Proof.
  intros Hval. pose proof (validate_ok _ _ _ _ Hval) as Hv. unfold compile_lsq. rewrite Hval.
  change (Ok v ≫= render normalized snapshot) with (render normalized snapshot v).
  unfold render. change {| parameters := []; source_columns := [] |} with empty_state.
  pose proof (safe_render_sql _ _ _ v Hv 0 empty_state empty_parameters_ok (Nat.le_0_l _)) as H.
  unfold mbind, result_bind.
  destruct (render_sql v empty_state) as [[sql st]|e]; [|by left].
  destruct (json_to_string _) as [t|m] eqn:Ht; simpl; [done|]. right. eauto.
Qed.

(** Validation is the only place where a request is rejected, but for two
    conditions the model cannot rule out: once a query is validated, compiling
    it fails only because the model has no time zone and the query needs one
    for a [timestamptz] field, or because the parameters cannot be serialised.
    In particular it succeeds when the model has a time zone and serialisation
    does not fail. *)
Theorem validated_query_compiles `{HC : Crates} normalized snapshot options v :
  validate normalized snapshot options = Ok v ->
  (forall e, compile_lsq normalized snapshot options = Err e ->
     timezone_error (vq_model v) e
     \/ (e = CompileError.HashSerialization /\ exists j m, json_to_string j = Err m))
  /\ (is_Some (Model.timezone (vq_model v)) -> (forall j, is_ok (json_to_string j) = true) ->
      exists c, compile_lsq normalized snapshot options = Ok c).
Proof.
  intros Hval. pose proof (compile_validated _ _ _ _ Hval) as H. split.
  - intros e He. by rewrite He in H.
  - intros [tz Htz] Hjson. destruct (compile_lsq normalized snapshot options) as [c|e]; [eauto|].
    destruct H as [[Hn _]|(_ & j & m & Hj)]; [by rewrite Htz in Hn|].
    specialize (Hjson j). by rewrite Hj in Hjson.
Qed.

Lemma validated_query_compiles_witness : exists c,
  compile_lsq (normalized_sample revenue_by_sku) commerce default_options = Ok c.
Proof.
  destruct (validate (normalized_sample revenue_by_sku) commerce default_options)
    as [v|e] eqn:Hv; [|vm_compute in Hv; discriminate Hv].
  apply (validated_query_compiles _ _ _ v Hv); [|reflexivity].
  assert (H : match validate (normalized_sample revenue_by_sku) commerce default_options with
              | Ok v => bool_decide (is_Some (Model.timezone (vq_model v))) | Err _ => false
              end = true) by (vm_compute; reflexivity).
  rewrite Hv in H. exact (bool_decide_eq_true_1 _ H).
Defined.

(** ** Output columns and lineage *)

Lemma output_schema_names q snapshot options v :
  validated_ok q snapshot options v ->
  map OutputColumn.name (output_schema v) = projection q.
Proof.
  intros Hv. unfold output_schema, projection. rewrite map_app, !map_map. f_equal.
  - pose proof (vo_dimensions _ _ _ _ Hv) as H. clear Hv.
    induction H as [|d rd ds rds Hd _ IH]; simpl; [done|].
    f_equal; [apply Hd|exact IH].
  - pose proof (vo_metrics _ _ _ _ Hv) as H. clear Hv.
    induction H as [|r m rs ms Hm _ IH]; simpl; [done|]. f_equal; [apply Hm|exact IH].
Qed.

(** What the column of a requested dimension or metric is to be. *)
Definition requested_column (model : Model) (item : Dimension + MetricReference)
    (column : OutputColumn) : Prop :=
  match item with
  | inl d => exists f, f ∈ Model.fields model /\ Field.semantic_name f = Dimension.field d
      /\ column = OutputColumn.mk (Dimension.field d)
                    match Dimension.time_grain d with
                    | Some _ => DataType.Date
                    | None => Field.data_type f
                    end
  | inr r => exists m, m ∈ Model.metrics model
      /\ Metric.semantic_name m = MetricReference.metric r
      /\ column = OutputColumn.mk (MetricReference.metric r) (Metric.data_type m)
  end.

Definition requested (q : LogicalSemanticQuery) : list (Dimension + MetricReference) :=
  map inl (Lsq.dimensions q) ++ map inr (Lsq.metrics q).

Lemma output_schema_columns q snapshot options v :
  validated_ok q snapshot options v ->
  Forall2 (requested_column (vq_model v)) (requested q) (output_schema v).
Proof.
  intros Hv. unfold requested, output_schema. apply Forall2_app.
  - apply Forall2_fmap_2. eapply Forall2_impl; [exact (vo_dimensions _ _ _ _ Hv)|].
    intros d rd [Hf Hn _ Hg _]. exists (rd_field rd). rewrite Hg, Hn. split_and!; [done|done|].
    by destruct (Dimension.time_grain d).
  - apply Forall2_fmap_2. eapply Forall2_impl; [exact (vo_metrics _ _ _ _ Hv)|].
    intros r m Hm. exists (rm_metric m). rewrite <- (mo_name _ _ _ _ Hm).
    split_and!; [apply Hm|done|done].
Qed.

(** The result columns of a compiled query are the requested dimensions and
    then the requested metrics, by name and in order, each with the type of its
    field or metric in the queried model, a truncated dimension being a date;
    for a request accepted by [validate_query] their names are distinct. *)
Theorem output_columns_match_request `{HC : Crates} normalized snapshot options c :
  compile_lsq normalized snapshot options = Ok c ->
  let query := NormalizedLsq.query normalized in
  map OutputColumn.name (CompiledQuery.output_schema c) = projection query
  /\ (exists model, model ∈ Snapshot.models snapshot /\ Model.semantic_name model = Lsq.model query
      /\ Forall2 (requested_column model) (requested query) (CompiledQuery.output_schema c))
  /\ (validate_query query = Ok tt ->
      NoDup (map OutputColumn.name (CompiledQuery.output_schema c))).
Proof.
  intros (v & st & _ & [Hv _ _ _] & Hout & _)%compile_inv query.
  rewrite Hout, (output_schema_names _ _ _ _ Hv). split; [done|]. split.
  - exists (vq_model v). split_and!; [apply Hv|apply Hv|]. by eapply output_schema_columns.
  - intros Hq%validate_query_spec. apply Hq.
Qed.

Lemma output_columns_match_request_witness : exists c,
  compile_lsq (normalized_sample revenue_by_month) commerce default_options = Ok c
  /\ map OutputColumn.name (CompiledQuery.output_schema c) = ["ordered_at"; "revenue"].
Proof.
  destruct revenue_by_month_compiles as [c Hc].
  destruct (output_columns_match_request _ _ _ c Hc) as (H & _).
  exists c. exact (conj Hc H).
Defined.

(** Complete lineage.  The source columns a compiled query reports are, in
    ascending order and without repetition, exactly the columns its SQL reads:
    those of the dimensions, metrics, metric filters, filters, join conditions
    and the aggregation anchor; the relationships it reports are those joined. *)
Theorem lineage_is_exact `{HC : Crates} normalized snapshot options c v :
  validate normalized snapshot options = Ok v ->
  compile_lsq normalized snapshot options = Ok c ->
  let lineage := CompiledQuery.lineage c in
  bs_wf (Lineage.source_columns lineage)
  /\ (forall col, col ∈ Lineage.source_columns lineage <-> col ∈ query_columns v)
  /\ Lineage.relationships lineage = (vq_relationships v).*1
  /\ Lineage.metrics lineage
     = map MetricReference.metric (Lsq.metrics (NormalizedLsq.query normalized)).
Proof.
  intros Hval (v' & st & Hval' & [Hv Hr _ Hcol] & _ & Hrel & Hmet & _)%compile_inv lineage.
  rewrite Hval in Hval'. apply Ok_inj in Hval'. subst v'. subst lineage.
  rewrite Hcol, Hrel, Hmet. destruct (render_sql_columns _ _ _ Hr) as [Hwf Hc].
  split_and!; [done|done|done|].
  pose proof (vo_metrics _ _ _ _ Hv) as H. clear -H.
  induction H as [|r m rs ms Hm _ IH]; simpl; [done|]. f_equal; [apply Hm|exact IH].
Qed.

Lemma lineage_is_exact_witness : exists c,
  compile_lsq (normalized_sample revenue_by_month) commerce default_options = Ok c
  /\ bs_wf (Lineage.source_columns (CompiledQuery.lineage c)).
Proof.
  destruct revenue_by_month_compiles as [c Hc].
  destruct (validate (normalized_sample revenue_by_month) commerce default_options)
    as [v|e] eqn:Hv; [|vm_compute in Hv; discriminate Hv].
  destruct (lineage_is_exact _ _ _ c v Hv Hc) as [H _].
  exists c. exact (conj Hc H).
Defined.

(** * Models every query can use

    A model whose metrics and joins resolve serves every query that names its
    fields and metrics: what the producers of models ([authoring.rs], [osi.rs])
    owe to the compiler ([compiler.rs]). *)

Lemma forall_choice {A B} (P : A -> B -> Prop) l :
  Forall (fun a => exists b, P a b) l -> exists l', Forall2 P l l'.
Proof.
  induction 1 as [|a l [b Hb] _ [l' IH]]; [by exists []|]. exists (b :: l'). by constructor.
Qed.

(** What the query asks of the model can be answered. *)
Record asks (snapshot : SemanticSnapshot) (options : CompilerOptions) (model : Model)
    (q : LogicalSemanticQuery) : Prop := {
  asks_model : Lsq.model q = Model.semantic_name model;
  asks_limit : (default (default_limit options) (Lsq.limit q) ≤ hard_limit options)%N;
  asks_dimensions : Forall (fun d => exists f, f ∈ Model.fields model
    /\ Field.semantic_name f = Dimension.field d
    /\ (is_Some (Dimension.time_grain d) -> Field.time_dimension f = true)) (Lsq.dimensions q);
  asks_metrics : Forall (fun r => exists metric, metric ∈ Model.metrics model
    /\ Metric.semantic_name metric = MetricReference.metric r) (Lsq.metrics q);
  asks_filter : exists filter, option_Forall2 filter_denotes (Lsq.filters q) filter
    /\ forall f, filter = Some f -> filter_resolved model f;
  asks_order : Forall (fun o => OrderBy.output_reference o ∈ projection q) (Lsq.order_by q);
}.

(** Fields are visible, metrics resolve, and joins are safe and do not fan out. *)
Record serviceable (snapshot : SemanticSnapshot) (model : Model) : Prop := {
  sv_queryable : Model.queryable model = true;
  sv_visible : Forall (fun f => Field.visible f = true) (Model.fields model);
  sv_temporal : Forall (fun f => Field.time_dimension f = true ->
    is_temporal (Field.data_type f) = true) (Model.fields model);
  sv_metrics : forall metric, metric ∈ Model.metrics model ->
    exists m, rm_metric m = metric /\ rm_filter m = None
      /\ metric_ok snapshot model (MetricReference.mk (Metric.semantic_name metric)) m;
  sv_joins : forall f r, f ∈ Model.fields model -> Field.relationship f = Some r ->
    exists relationship, Relationship.semantic_name relationship = r
      /\ relationship_ok snapshot model relationship
      /\ Relationship.cardinality relationship <> Cardinality.OneToMany;
}.

Section query.
Context (snapshot : SemanticSnapshot) (options : CompilerOptions) (model : Model).
Context (Hserves : serviceable snapshot model) (q : LogicalSemanticQuery).
Context (Hasks : asks snapshot options model q).

Lemma dimensions_resolve : exists rds, Forall2 (dimension_ok model) (Lsq.dimensions q) rds.
Proof.
  apply forall_choice. eapply Forall_impl; [apply Hasks|]. intros d (f & Hf & Hn & Ht).
  exists {| rd_field := f; rd_time_grain := Dimension.time_grain d |}.
  pose proof (sv_visible _ _ Hserves) as Hv. pose proof (sv_temporal _ _ Hserves) as Ht'.
  rewrite Forall_forall in Hv, Ht'. split; simpl; auto.
Qed.

Lemma metrics_resolve : exists ms,
  Forall2 (metric_ok snapshot model) (Lsq.metrics q) ms /\ Forall (fun m => rm_filter m = None) ms.
Proof.
  destruct (forall_choice (fun r m => metric_ok snapshot model r m /\ rm_filter m = None)
              (Lsq.metrics q)) as [ms Hms].
  - eapply Forall_impl; [apply Hasks|]. intros r (metric & Hin & Hn).
    destruct (sv_metrics _ _ Hserves _ Hin) as (m & Hm & Hf & Hok). exists m.
    rewrite Hn in Hok. by destruct r.
  - exists ms. split; [eapply Forall2_impl; [exact Hms|naive_solver]|].
    apply Forall_forall. intros m (i & Hi)%list_elem_of_lookup_1.
    by destruct (Forall2_lookup_r _ _ _ _ _ Hms Hi) as (r & _ & _ & ?).
Qed.

(** The joins of fields of the model. *)
Lemma joins_resolve fs : Forall (fun f => f ∈ Model.fields model) fs ->
  exists rels, bt_wf rels /\ (forall r, r ∈ rels.*1 <-> needs fs r)
    /\ (forall n r, (n, r) ∈ rels ->
          n = Relationship.semantic_name r /\ relationship_ok snapshot model r)
    /\ ~ has_fanout rels.
Proof.
  intros Hfs. rewrite Forall_forall in Hfs. set (names := bs_from_list (omap Field.relationship fs)).
  assert (Hnames : forall r, r ∈ names <-> needs fs r).
  { intros r. unfold names. rewrite elem_of_bs_from_list, list_elem_of_omap. done. }
  destruct (forall_choice (fun n r => n = Relationship.semantic_name r
              /\ relationship_ok snapshot model r
              /\ Relationship.cardinality r <> Cardinality.OneToMany) names) as [rels Hrels].
  - apply Forall_forall. intros n (f & Hf & Hr)%Hnames.
    destruct (sv_joins _ _ Hserves f n (Hfs f Hf) Hr) as (r & <- & ? & ?). by exists r.
  - exists (zip names rels). unfold bt_wf.
    rewrite (fst_zip names rels) by (apply Forall2_length in Hrels; lia).
    assert (Hzip : forall n r, (n, r) ∈ zip names rels -> n = Relationship.semantic_name r
              /\ relationship_ok snapshot model r
              /\ Relationship.cardinality r <> Cardinality.OneToMany).
    { intros n r (i & Hi)%list_elem_of_lookup_1. apply lookup_zip_with_Some in Hi
        as (n' & r' & [= -> ->] & Hn & Hr). exact (Forall2_lookup_lr _ _ _ _ _ _ Hrels Hn Hr). }
    split_and!; [apply bs_from_list_wf|done|naive_solver|]. intros (n & r & Hin & Hc).
    by apply Hzip in Hin as (_ & _ & ?).
Qed.

(** [used_fields] are fields of the model. *)
Lemma used_in_model v :
  Forall2 (dimension_ok model) (Lsq.dimensions q) (vq_dimensions v) ->
  Forall2 (metric_ok snapshot model) (Lsq.metrics q) (vq_metrics v) ->
  Forall (fun m => rm_filter m = None) (vq_metrics v) ->
  (forall f, vq_filter v = Some f -> filter_resolved model f) ->
  Forall (fun f => f ∈ Model.fields model) (used_fields v).
Proof.
  intros Hd Hm Hn Hf. unfold used_fields. rewrite !Forall_app. split_and!.
  - clear -Hd. induction Hd as [|d rd ds rds H _ IH]; constructor; [apply H|done].
  - clear -Hm Hn. revert Hn. induction Hm as [|r m rs ms H _ IH]; intros Hn; simpl; [done|].
    inversion_clear Hn as [|?? Hnone Hrest]. unfold metric_fields at 1. rewrite Hnone.
    constructor; [apply H|auto].
  - destruct (vq_filter v) as [f|]; [|done]. by apply filter_fields_resolved, Hf.
Qed.

Lemma asked_validated : model ∈ Snapshot.models snapshot ->
  exists v, vq_model v = model /\ validated_ok q snapshot options v.
Proof.
  intros Hin. destruct dimensions_resolve as [rds Hd], metrics_resolve as (ms & Hm & Hn).
  destruct (asks_filter _ _ _ _ Hasks) as (filter & Hden & Hres).
  set (v0 rels := {| vq_model := model; vq_dimensions := rds; vq_metrics := ms;
                     vq_filter := filter; vq_order_by := Lsq.order_by q;
                     vq_relationships := rels; vq_aggregation_anchor := None;
                     vq_limit := default (default_limit options) (Lsq.limit q) |}).
  destruct (joins_resolve (used_fields (v0 []))) as (rels & Hwf & Hj & Hr & Hfan);
    [by apply used_in_model|].
  exists (v0 rels). split; [done|]. split; simpl; try done; [symmetry; apply Hasks|..];
    apply Hserves || apply Hasks.
Qed.

(** Such a query compiles; at worst a time zone is missing. *)
Lemma asked_compiles `{HC : Crates} normalized :
  snapshot_distinct snapshot -> check_snapshot snapshot = Ok tt -> options_ok options ->
  model ∈ Snapshot.models snapshot -> NormalizedLsq.query normalized = q ->
  (forall j, is_ok (json_to_string j) = true) ->
  match compile_lsq normalized snapshot options with
  | Ok _ => True
  | Err e => timezone_error model e
  end.
Proof.
  intros Hd Hs Ho Hin Hq Hjson. destruct (asked_validated Hin) as (v & Hv & Hok).
  rewrite <- Hq in Hok. pose proof (validate_complete _ _ _ _ Hd Hs Ho Hok) as Hval.
  pose proof (compile_validated _ _ _ _ Hval) as H.
  destruct (compile_lsq normalized snapshot options) as [|e]; [done|].
  destruct H as [H|(_ & j & m & Hj)]; [by rewrite <- Hv|]. specialize (Hjson j).
  by rewrite Hj in Hjson.
Qed.
End query.
