(* ===== verification/MutationTheorems.v ===== *)
(** * Correctness of the mutation path

    The theorems about write requests and [compile_lsm], each with a concrete
    instance. *)

From S2P Require Import Prelude Ordered Text Json Lsq LsqSpec Semantic Lsm LsmSpec Compiler.
From S2P Require Import CompilerSql Mutation MutationSpec Fixtures CompilerSpec.
From S2P Require Import CompilerComplete.

(** ** Requests *)

(** A normalised mutation comes from a document without duplicate keys, is
    well-formed and within the size limits; its hash is the digest of its
    canonical JSON, and two mutations have the same canonical JSON exactly when
    they are the same mutation. *)
Theorem normalized_mutation_is_identified `{HC : Crates} {HO : CratesOk} parse from_value
    input1 input2 n1 n2 :
  normalize_lsm parse from_value input1 = Ok n1 ->
  normalize_lsm parse from_value input2 = Ok n2 ->
  (exists e u, parse input1 = Ok e /\ decodes e u /\ from_value u = Ok (NormalizedLsm.mutation n1))
  /\ mutation_ok (NormalizedLsm.mutation n1)
  /\ (NormalizedLsm.input_bytes n1 ≤ MAX_INPUT_BYTES)%N
  /\ NormalizedLsm.hash n1 = sha256 (NormalizedLsm.canonical_json n1)
  /\ (NormalizedLsm.canonical_json n1 = NormalizedLsm.canonical_json n2 <->
      NormalizedLsm.mutation n1 = NormalizedLsm.mutation n2).
Proof.
  intros (Hd & Hok & Hj1 & Hh & _ & _ & Hb)%normalize_lsm_ok
    (_ & _ & Hj2 & _)%normalize_lsm_ok.
  split_and!; try done. split; intros Heq.
  - apply lsm_json_inj. eapply json_to_string_inj; [exact Hj1|]. by rewrite Heq.
  - rewrite Heq, Hj2 in Hj1. by apply Ok_inj in Hj1.
Qed.

Lemma normalized_mutation_is_identified_witness : exists n,
  normalize_lsm (fun _ => Ok visit_unit) (fun _ => Ok insert_orders) "{}" = Ok n
  /\ mutation_ok (NormalizedLsm.mutation n).
Proof.
  destruct (is_ok_true (normalize_lsm (fun _ => Ok visit_unit) (fun _ => Ok insert_orders) "{}"))
    as [n Hn]; [vm_compute; reflexivity|].
  destruct (normalized_mutation_is_identified _ _ _ _ n n Hn Hn) as (_ & H & _).
  exists n. exact (conj Hn H).
Defined.

(** ** Compilation *)

(** An upsert cannot move rows: it carries every conflict field, updates at
    least one field, updates only input fields that the policy marks updatable,
    and none of those is a conflict field. *)
Theorem upsert_preserves_conflict_fields `{HC : Crates} normalized snapshot capabilities options c :
  compile_lsm normalized snapshot capabilities options = Ok c ->
  Lsm.operation (NormalizedLsm.mutation normalized) = MutationOperation.Upsert ->
  exists model w inputs updates,
    mutation_compiled normalized snapshot capabilities options c model w inputs updates
    /\ updates <> []
    /\ (forall name, is_conflict_field w name -> name ∈ inputs)
    /\ (forall name, name ∈ updates -> name ∈ inputs /\ ~ is_conflict_field w name).
Proof.
  intros (model & w & inputs & updates & Hc)%compile_lsm_inv Hop.
  exists model, w, inputs, updates. pose proof (mc_updates _ _ _ _ _ _ _ _ (proj1 Hc)) as Hup.
  pose proof (mc_operation _ _ _ _ _ _ _ _ (proj1 Hc)) as Hen. rewrite Hop in Hup, Hen.
  split_and!; [done|by apply Hup|by apply Hup|]. intros name Hname. split.
  - by destruct (up_updatable _ _ _ _ Hup name Hname).
  - eapply updates_not_conflict; [apply Hc|exact Hup|done].
Qed.

Lemma upsert_preserves_conflict_fields_witness : exists c model w inputs updates,
  compile_lsm (normalized_mutation upsert_orders) commerce writer default_mutation_options = Ok c
  /\ mutation_compiled (normalized_mutation upsert_orders) commerce writer
       default_mutation_options c model w inputs updates
  /\ updates <> [].
Proof.
  destruct upsert_orders_compiles as [c Hc].
  destruct (upsert_preserves_conflict_fields _ _ _ _ c Hc eq_refl)
    as (model & w & inputs & updates & H1 & H2 & _).
  exists c, model, w, inputs, updates. exact (conj Hc (conj H1 H2)).
Defined.

(** The values of a mutation are bound in row-major order: parameter number
    [i * width + j + 1] holds the value of input field [j] in row [i] with the
    type of that field, and the statement reports the number of rows. *)
Theorem mutation_parameters_are_row_major `{HC : Crates} normalized snapshot capabilities options c :
  compile_lsm normalized snapshot capabilities options = Ok c ->
  exists model inputs, model ∈ Snapshot.models snapshot
    /\ (exists first, head (Lsm.rows (NormalizedLsm.mutation normalized)) = Some first
                      /\ inputs = first.*1)
    /\ map bound_cell (CompiledMutation.parameters c)
       = concat (map (fun row => map (cell (by_name (Model.fields model)) row) inputs)
                   (Lsm.rows (NormalizedLsm.mutation normalized)))
    /\ map MutationParameter.position (CompiledMutation.parameters c)
       = seq 1 (length (CompiledMutation.parameters c))
    /\ CompiledMutation.expected_rows c = length (Lsm.rows (NormalizedLsm.mutation normalized)).
Proof.
  intros (model & w & inputs & updates & Hc)%compile_lsm_inv. exists model, inputs.
  destruct (mc_first _ _ _ _ _ _ _ _ (proj1 Hc)) as (first & rest & Hrows & Hin).
  destruct (proj2 Hc). split_and!; try done; [apply Hc|].
  exists first. by rewrite Hrows.
Qed.

Lemma mutation_parameters_are_row_major_witness : exists c,
  compile_lsm (normalized_mutation insert_orders) commerce writer default_mutation_options = Ok c
  /\ CompiledMutation.expected_rows c = 2.
Proof.
  destruct insert_orders_compiles as [c Hc].
  destruct (mutation_parameters_are_row_major _ _ _ _ c Hc) as (_ & _ & _ & _ & _ & _ & H).
  exists c. exact (conj Hc H).
Defined.

(** C31: no text of a mutation reaches its statement: it is a sequence of fixed
    fragments, quoted identifiers declared by the written model, and
    placeholders that refer to the bound parameters. *)
Theorem mutation_sql_is_injection_safe `{HC : Crates} normalized snapshot capabilities options c :
  compile_lsm normalized snapshot capabilities options = Ok c ->
  exists model, model ∈ Snapshot.models snapshot
    /\ Model.semantic_name model = Lsm.model (NormalizedLsm.mutation normalized)
    /\ sql_text mutation_vocabulary (catalog_identifier model)
         (length (CompiledMutation.parameters c)) (CompiledMutation.statement c).
Proof.
  intros (model & w & inputs & updates & Hc)%compile_lsm_inv. exists model.
  split_and!; [apply Hc|apply Hc|]. by destruct (proj2 Hc).
Qed.

Lemma mutation_sql_is_injection_safe_witness : exists c model,
  compile_lsm (normalized_mutation insert_orders) commerce writer default_mutation_options = Ok c
  /\ sql_text mutation_vocabulary (catalog_identifier model)
       (length (CompiledMutation.parameters c)) (CompiledMutation.statement c).
Proof.
  destruct insert_orders_compiles as [c Hc].
  destruct (mutation_sql_is_injection_safe _ _ _ _ c Hc) as (model & _ & _ & H).
  exists c, model. exact (conj Hc H).
Defined.

(** ** Panics *)

Lemma same_keys_get (rows : list Row) fields row name :
  Forall (row_ok fields) rows -> row ∈ rows -> name ∈ fields -> is_Some (bt_get name row).
Proof.
  intros Hrows Hrow Hname. rewrite Forall_forall in Hrows.
  apply bt_get_is_some. by rewrite (row_fields _ _ (Hrows row Hrow)).
Qed.

Lemma compile_lsm_no_panic `{HC : Crates} normalized snapshot capabilities options :
  mutation_ok (NormalizedLsm.mutation normalized) ->
  no_panic (compile_lsm normalized snapshot capabilities options).
Proof.
  intros Hok. unfold compile_lsm. set (m := NormalizedLsm.mutation normalized) in *.
  apply no_panic_bind; [apply no_panic_validate_snapshot|]. no_panic.
  match goal with w : WritableModel |- _ => rename w into w end.
  match goal with x : Model |- _ => rename x into model end.
  apply no_panic_bind; [apply no_panic_writable|]. intros [] Hpol%validate_writable_model_spec.
  apply no_panic_bind; [apply no_panic_limits|]. intros _ _.
  destruct (mu_rows _ Hok) as [fields Hrows]. pose proof (mu_count _ Hok) as Hcount.
  destruct (Lsm.rows m) as [|first rest] eqn:Hm; [simpl in Hcount; lia|].
  apply no_panic_bind; [done|]. intros ? [= <-].
  assert (Hkeys : first.*1 = fields).
  { rewrite Forall_forall in Hrows. apply (row_fields _ _ (Hrows first ltac:(left))). }
  rewrite Hkeys. apply no_panic_bind.
  { apply no_panic_try_each, Forall_forall. intros name Hname. apply no_panic_check_input.
    rewrite Hm. apply Forall_forall. intros row Hrow. by eapply same_keys_get. }
  intros _ Hin%try_each_ok. apply no_panic_bind; [apply no_panic_updates|].
  intros updates Hup%select_update_names_ok. apply no_panic_bind.
  { apply no_panic_try_each, Forall_forall. no_panic. }
  assert (Hfields : forall name, name ∈ fields ->
            is_Some (bt_get name (by_name (Model.fields model)))).
  { intros name Hname. rewrite Forall_forall in Hin. specialize (Hin name Hname).
    apply check_input_spec in Hin as (p & f & _ & [Hf _] & _). by exists f. }
  intros _ _. apply no_panic_render.
  - by apply Forall_forall.
  - fold m. rewrite Hm. apply Forall_forall. intros row Hrow. apply Forall_forall.
    intros name Hname. by eapply same_keys_get.
  - apply Forall_forall. intros name Hname. apply Hfields. by apply (up_updatable _ _ _ _ Hup).
  - eapply Forall_impl; [apply (pol_returning _ _ Hpol)|]. intros name (f & Hf & _). by exists f.
  - intros name (u & Hu & Hname). destruct (pol_upsert _ _ Hpol u Hu) as (_ & _ & Hc).
    rewrite Forall_forall in Hc. destruct (Hc name Hname) as (p & [Hp Heq]%find_elem & _).
    apply bool_decide_eq_true in Heq. pose proof (pol_fields _ _ Hpol) as Hpf.
    rewrite Forall_forall in Hpf. destruct (Hpf name) as (_ & f & Hf & _); [|by exists f].
    rewrite <- Heq. by apply list_elem_of_fmap_2.
Qed.

(** ** Authority *)

(** Every check passes on a mutation that is allowed. *)
Lemma compile_lsm_renders `{HC : Crates} normalized snapshot capabilities options model w inputs
    updates :
  NoDup (map Model.semantic_name (Snapshot.models snapshot)) ->
  validate_snapshot snapshot = Ok tt ->
  hard_row_limit options <> 0%N -> hard_request_byte_limit options <> 0%N ->
  mutation_allowed normalized snapshot capabilities options model w inputs updates ->
  exists names, compile_lsm normalized snapshot capabilities options
    = render normalized snapshot (Relation.schema (Model.source model))
        (Relation.relation (Model.source model)) w (by_name (Model.fields model)) inputs names
        (MutationCapabilities.profile capabilities).
Proof.
  intros Hnd Hs Hr Hb [Hm Hn Hw [Hcap Hprof] Hpol Hrows Hsome Hbytes Hop Hfirst Hin Hup Hreq].
  destruct Hfirst as (first & rest & Hfr & ->).
  destruct (select_update_names_complete _ _ _ _ Hup) as [names Hnames];
    [by intros Hu; rewrite Hu in Hop|]. exists names.
  unfold compile_lsm. set (m := NormalizedLsm.mutation normalized) in *.
  rewrite Hs. cbn [mbind result_bind].
  rewrite (bool_decide_eq_false_2 (hard_row_limit options = 0%N)) by done.
  rewrite (bool_decide_eq_false_2 (hard_request_byte_limit options = 0%N)) by done.
  unfold MutationCapabilities.allows.
  rewrite Hprof, <- Hn, (bool_decide_eq_true_2 (Model.semantic_name model ∈ _)) by done.
  rewrite (find_named Model.semantic_name _ _ Hnd Hm).
  cbn [fail_if negb orb mbind result_bind ok_or]. rewrite Hw. cbn [mbind result_bind ok_or].
  rewrite (proj2 (validate_writable_model_spec _ _) Hpol). cbn [mbind result_bind].
  rewrite check_limits_complete by (try done; fold m; rewrite Hfr; done).
  cbn [mbind result_bind]. rewrite Hfr. cbn [head ok_or mbind result_bind].
  fold (policies w).
  rewrite (proj2 (try_each_ok (check_input m w (policies w) (by_name (Model.fields model)))
                    first.*1 tt))
    by (eapply Forall_impl; [exact Hin|]; intros name; apply check_input_spec).
  cbn [mbind result_bind]. rewrite Hnames. cbn [mbind result_bind].
  rewrite (proj2 (try_each_ok _ _ tt)); [done|]. apply Forall_forall. intros f Hf.
  apply list_elem_of_In, filter_In in Hf as [Hf%list_elem_of_In Hreqd].
  apply fail_if_ok, bool_decide_eq_false. intros H. by apply H, Hreq.
Qed.

(** C7: a mutation is compiled only within its published authority: the caller's
    profile is named and may write the model, the model has a well-formed
    writable policy that enables the operation, the rows and bytes are within
    the policy's limits and those within the server's, every input field is a
    writable direct field whose value in every row has the field's type or is
    an admitted null, and every required field is present.  Conversely, on a
    sealed snapshot with distinct model names and under usable server limits,
    an accepted request that is allowed in this sense compiles, unless its
    parameters cannot be serialised. *)
Theorem compiled_mutation_is_authorised `{HC : Crates} normalized snapshot capabilities options :
  (forall c, compile_lsm normalized snapshot capabilities options = Ok c ->
     exists model w inputs updates,
       mutation_compiled normalized snapshot capabilities options c model w inputs updates)
  /\ (forall model w inputs updates,
      validate_mutation (NormalizedLsm.mutation normalized) = Ok tt ->
      NoDup (map Model.semantic_name (Snapshot.models snapshot)) ->
      validate_snapshot snapshot = Ok tt ->
      hard_row_limit options <> 0%N -> hard_request_byte_limit options <> 0%N ->
      mutation_allowed normalized snapshot capabilities options model w inputs updates ->
      (exists c, compile_lsm normalized snapshot capabilities options = Ok c)
      \/ compile_lsm normalized snapshot capabilities options
         = Err (Raised MutationCompileError.HashSerialization)).
Proof.
  split; [intros c; apply compile_lsm_inv|].
  intros model w inputs updates Hok%validate_mutation_spec Hnd Hs Hr Hb Hall.
  pose proof (compile_lsm_no_panic normalized snapshot capabilities options Hok) as Hnp.
  destruct (compile_lsm_renders _ _ _ _ _ _ _ _ Hnd Hs Hr Hb Hall) as [names Hren].
  rewrite Hren in *. destruct (render _ _ _ _ _ _ _ _ _) as [c|e] eqn:Hc; [by left; exists c|].
  right. destruct (fails_late_render normalized snapshot (Relation.schema (Model.source model))
    (Relation.relation (Model.source model)) w (by_name (Model.fields model)) inputs names
    (MutationCapabilities.profile capabilities)) with (e := e) as [-> | ->]; [|done|done|done].
  intros Hu. pose proof (mc_operation _ _ _ _ _ _ _ _ Hall) as H. by rewrite Hu in H.
Qed.

Lemma compiled_mutation_is_authorised_witness : exists c model w inputs updates,
  mutation_compiled (normalized_mutation insert_orders) commerce writer default_mutation_options
    c model w inputs updates.
Proof.
  destruct insert_orders_compiles as [c Hc]. exists c.
  exact (proj1 (compiled_mutation_is_authorised _ _ _ _) c Hc).
Defined.

(** The map and slice indexing of the mutation compiler never panics on a
    mutation that [validate_mutation] accepts, whatever the snapshot,
    capabilities and limits. *)
Theorem compile_lsm_never_panics `{HC : Crates} normalized snapshot capabilities options :
  validate_mutation (NormalizedLsm.mutation normalized) = Ok tt ->
  compile_lsm normalized snapshot capabilities options <> Err Panicked.
Proof. intros Hok%validate_mutation_spec. by apply compile_lsm_no_panic. Qed.

Lemma compile_lsm_never_panics_witness :
  compile_lsm (normalized_mutation insert_orders) commerce writer
    {| hard_row_limit := 1; hard_request_byte_limit := 100 |} <> Err Panicked.
Proof. apply compile_lsm_never_panics. vm_compute. reflexivity. Defined.

(** The policy check accepts exactly the policies that enable an operation,
    list distinct writable fields and distinct returned fields, all stored in
    the model's own relation, and whose conflict fields, if any, are distinct
    writable fields that an upsert may not update. *)
Theorem validate_writable_model_accepts_exactly (fields : list Field) (w : WritableModel) :
  validate_writable_model fields w = Ok tt <-> policy_ok fields w.
Proof. apply validate_writable_model_spec. Qed.
