(* ===== verification/DiffTheorems.v ===== *)
(** * Correctness of snapshot differences

    The theorems about [diff_snapshots], each with a concrete instance. *)

From S2P Require Import Prelude Ordered Text Json Lsq LsqSpec Semantic SemanticSpec LsmSpec Diff.
From S2P Require Import DiffSpec Compiler Fixtures SnapshotTheorems.

(** A difference of two snapshots is computed exactly when both have a
    supported version and distinct names; its changes are then exactly the
    additions, removals and modifications of models, fields, metrics and
    relationships between their canonical forms, each classified, sorted
    by path; and its summary counts them, with the whole difference breaking
    exactly when some change is. *)
Theorem diff_reports_exactly (before after : SemanticSnapshot) :
  ((exists d, diff_snapshots before after = Ok d) <-> comparable before /\ comparable after)
  /\ forall d, diff_snapshots before after = Ok d ->
     (forall c, c ∈ SemanticDiff.changes d <->
        models_change (Snapshot.models (normalized before)) (Snapshot.models (normalized after)) c)
     /\ StronglySorted change_le (SemanticDiff.changes d)
     /\ DiffSummary.total (SemanticDiff.summary d) = length (SemanticDiff.changes d)
     /\ DiffSummary.compatible (SemanticDiff.summary d)
        + DiffSummary.breaking (SemanticDiff.summary d) = length (SemanticDiff.changes d)
     /\ (SemanticDiff.compatibility d = Compatibility.Compatible <->
         Forall (fun c => Change.compatibility c = Compatibility.Compatible)
           (SemanticDiff.changes d)).
Proof.
  split.
  - split; [intros [d Hd]; by eapply diff_snapshots_ok|]. intros [Hb Ha].
    destruct (diff_snapshots_spec _ _ Hb Ha) as (cs & Hd & _). eauto.
  - intros d Hd. destruct (diff_snapshots_ok _ _ _ Hd) as [Hb Ha].
    destruct (diff_snapshots_spec _ _ Hb Ha) as (cs & Hd' & Hs & Hc). rewrite Hd in Hd'.
    apply Ok_inj in Hd'. subst d. simpl. pose proof (filter_length_le is_breaking cs).
    split_and!; try done; [lia|]. rewrite <- breaking_count. case_decide; naive_solver.
Qed.

(** The fixture after a release that adds a model, shows a hidden field and
    drops a visible one. *)
Definition shown_note : Field :=
  {| Field.semantic_name := "internal_note"; Field.data_type := DataType.Text;
     Field.column := "internal_note"; Field.relationship := None; Field.time_dimension := false;
     Field.entity_key := false; Field.visible := true; Field.nullable := true |}.

Definition with_fields (m : Model) (fs : list Field) : Model :=
  {| Model.semantic_name := Model.semantic_name m; Model.source := Model.source m;
     Model.timezone := Model.timezone m; Model.queryable := Model.queryable m;
     Model.writable := Model.writable m; Model.fields := fs;
     Model.metrics := Model.metrics m; Model.relationships := Model.relationships m |}.

Definition opened_orders : Model :=
  with_fields orders (shown_note :: List.filter (fun f =>
    negb (bool_decide (Field.semantic_name f = "internal_note"))) (Model.fields orders)).

Definition opened_commerce : SemanticSnapshot :=
  seal {| Snapshot.schema_version := "2"; Snapshot.revision_hash := EmptyString;
          Snapshot.models := [opened_orders; customers; order_items] |}.

Definition opened_is_compatible : bool :=
  match diff_snapshots commerce opened_commerce with
  | Ok d => negb (SemanticDiff.has_breaking_changes d)
            && bool_decide (length (SemanticDiff.changes d) = 1)
  | Err _ => false
  end.

Lemma diff_reports_exactly_witness :
  comparable commerce /\ comparable opened_commerce
  /\ exists d, diff_snapshots commerce opened_commerce = Ok d.
Proof.
  destruct (is_ok_true (diff_snapshots commerce opened_commerce)) as [d Hd];
    [vm_compute; reflexivity|].
  destruct (diff_reports_exactly commerce opened_commerce) as [H _].
  destruct (proj1 H (ex_intro _ d Hd)) as [H1 H2].
  exact (conj H1 (conj H2 (ex_intro _ d Hd))).
Defined.

(** A difference reported as compatible is safe for clients: every model of
    the old snapshot is still there with the same source relation and time
    zone, stays queryable, keeps an unchanged write policy, and keeps every
    visible field, every visible metric and every relationship unchanged. *)
Theorem compatible_diff_keeps_visible_objects (before after : SemanticSnapshot) (d : SemanticDiff) :
  diff_snapshots before after = Ok d ->
  SemanticDiff.has_breaking_changes d = false ->
  forall m, m ∈ Snapshot.models before -> exists m', m' ∈ Snapshot.models after /\ model_kept m m'.
Proof.
  intros Hd Hcomp m Hm. destruct (diff_snapshots_ok _ _ _ Hd) as [Hb Ha].
  destruct (diff_snapshots_spec _ _ Hb Ha) as (cs & Hd' & _ & Hc). rewrite Hd in Hd'.
  apply Ok_inj in Hd'. subst d. unfold SemanticDiff.has_breaking_changes in Hcomp.
  apply bool_decide_eq_false in Hcomp. simpl in Hcomp.
  assert (Hall : Forall (fun c => Change.compatibility c = Compatibility.Compatible) cs).
  { apply breaking_count. by case_decide. }
  rewrite Forall_forall in Hall. setoid_rewrite Hc in Hall. clear Hcomp Hd Hc.
  assert (Hm0 : normalize_model m ∈ Snapshot.models (normalized before))
    by (apply elem_of_normalized_models; eauto).
  destruct (decide (Model.semantic_name m
      ∈ map Model.semantic_name (Snapshot.models (normalized after)))) as [Hin|Hout].
  - apply list_elem_of_fmap in Hin as (n & Heq & Hn).
    pose proof Hn as (m' & Hm' & ->)%elem_of_normalized_models.
    exists m'. split; [done|]. apply model_change_kept; [done|].
    intros c Hch. apply Hall. by eapply SC_model.
  - specialize (Hall _ (SC_removed _ _ (normalize_model m) Hm0 Hout)). discriminate Hall.
Qed.

Lemma compatible_diff_keeps_visible_objects_witness : exists m',
  m' ∈ Snapshot.models opened_commerce /\ model_kept orders m'.
Proof.
  assert (H : opened_is_compatible = true) by (vm_compute; reflexivity).
  unfold opened_is_compatible in H.
  destruct (diff_snapshots commerce opened_commerce) as [d|e] eqn:Hd; [|discriminate H].
  apply andb_true_iff in H as [H _]. apply negb_true_iff in H.
  apply (compatible_diff_keeps_visible_objects commerce opened_commerce d Hd H).
  left.
Defined.

(** Reordering is not a change: snapshots with supported version and
    distinct names that differ only in the order of their collections have an
    empty difference. *)
Theorem reordered_snapshots_do_not_differ (s s' : SemanticSnapshot) :
  snapshot_distinct s -> snapshot_equiv s s' -> comparable s -> comparable s' ->
  exists d, diff_snapshots s s' = Ok d /\ SemanticDiff.changes d = []
    /\ SemanticDiff.compatibility d = Compatibility.Compatible.
Proof.
  intros Hdis Heq Hs Hs'. destruct (diff_snapshots_spec _ _ Hs Hs') as (cs & Hd & _ & Hc).
  pose proof (f_equal Snapshot.models (normalized_equiv _ _ Hdis Heq)) as Hn. simpl in Hn.
  assert (cs = []) as ->.
  { destruct (comparable_normalized _ Hs) as [H1 H2]. destruct cs as [|c cs]; [done|].
    destruct (models_change_self _ c H1 H2). unfold normalized in *. simpl in *.
    rewrite <- Hn in Hc. apply Hc. left. }
  eexists. split; [exact Hd|]. split; reflexivity.
Qed.

Lemma reordered_snapshots_do_not_differ_witness : exists d,
  diff_snapshots commerce shuffled_commerce = Ok d /\ SemanticDiff.changes d = [].
Proof.
  destruct (reordered_snapshots_do_not_differ commerce shuffled_commerce) as (d & H1 & H2 & _).
  - exact commerce_distinct.
  - exact commerce_shuffled.
  - apply validate_version_spec. vm_compute. reflexivity.
  - apply validate_version_spec. vm_compute. reflexivity.
  - exists d. exact (conj H1 H2).
Defined.

(** ** Nullability *)

(** The fixture with the [nullable] flag of one field changed. *)
Definition strict_orders : Model :=
  with_fields orders (map (fun f =>
    if bool_decide (Field.semantic_name f = "amount") then
      {| Field.semantic_name := Field.semantic_name f; Field.data_type := Field.data_type f;
         Field.column := Field.column f; Field.relationship := Field.relationship f;
         Field.time_dimension := Field.time_dimension f; Field.entity_key := Field.entity_key f;
         Field.visible := Field.visible f; Field.nullable := false |}
    else f) (Model.fields orders)).

Definition strict_commerce : SemanticSnapshot :=
  seal {| Snapshot.schema_version := "2"; Snapshot.revision_hash := EmptyString;
          Snapshot.models := [strict_orders; customers; order_items] |}.

(** Nullability is invisible to the revision hash but not to the
    difference: two snapshots that differ only in the [nullable] flag of a field
    have the same revision hash, and yet their difference is one breaking
    modification, whose reported values before and after are equal. *)
Theorem nullable_change_is_breaking_but_unhashed :
  calculate_revision_hash commerce = calculate_revision_hash strict_commerce
  /\ exists d c, diff_snapshots commerce strict_commerce = Ok d
     /\ SemanticDiff.changes d = [c]
     /\ Change.path c = "models.orders.fields.amount"
     /\ Change.compatibility c = Compatibility.Breaking
     /\ Change.before c = Change.after c.
Proof.
  split; [vm_compute; reflexivity|].
  eexists _, _. split; [vm_compute; reflexivity|]. repeat split; vm_compute; reflexivity.
Qed.
