(* ===== verification/CatalogTheorems.v ===== *)
(** * Correctness of catalog snapshots and their differences

    The theorems about [validated_normalized] and [diff_catalogs], each with a
    concrete instance. *)

From S2P Require Import Prelude Ordered Text Json Catalog CatalogDiff CatalogDiffSpec Fixtures.

(** ** A small catalog *)

Definition reader : CatalogRoleContext :=
  {| RoleContext.inherit := true; RoleContext.superuser := false; RoleContext.bypass_rls := false;
     RoleContext.effective_roles := ["reader"; "app"; "reader"];
     RoleContext.settable_roles := ["app"] |}.

Definition sku_column (comment : option string) : CatalogColumn :=
  {| Column.name := "sku"; Column.ordinal := 2; Column.data_type := "text";
     Column.nullable := false; Column.comment := comment; Column.select_grant := true |}.

Definition id_column : CatalogColumn :=
  {| Column.name := "a/b~c"; Column.ordinal := 1; Column.data_type := "bigint";
     Column.nullable := false; Column.comment := None; Column.select_grant := true |}.

Definition items_relation (columns : list CatalogColumn) : CatalogRelation :=
  {| Rel.schema := "public"; Rel.name := "items"; Rel.kind := RelationKind.Table;
     Rel.owner := "app"; Rel.view := None; Rel.comment := None;
     Rel.grants := {| Grants.schema_usage := true; Grants.table_select := true;
                      Grants.any_column_select := true |};
     Rel.rls := {| Rls.enabled := true; Rls.forced := false |};
     Rel.columns := columns;
     Rel.constraints :=
       [Constraint.Check_ "positive" ["a/b~c"] "sha256:00" false true true;
        Constraint.PrimaryKey "items_pkey" ["a/b~c"] true false false false true];
     Rel.policies := [{| Policy.name := "own_rows"; Policy.command := PolicyCommand.Select;
                         Policy.permissive := true; Policy.roles := ["reader"; "app"];
                         Policy.using_expression_hash := Some "sha256:01";
                         Policy.with_check_expression_hash := None |}] |}.

Definition sealed (relations : list CatalogRelation) : CatalogSnapshot :=
  let unsealed fingerprint :=
    {| Catalog.schema_version := "2"; Catalog.server_version_num := 170004;
       Catalog.current_database := "shop"; Catalog.current_role := "reader";
       Catalog.role_context := reader; Catalog.role_graph_fingerprint := "sha256:02";
       Catalog.object_privilege_fingerprint := "sha256:03";
       Catalog.functions :=
         [{| Func.schema := "public"; Func.name := "total"; Func.identity_arguments := "bigint";
             Func.kind := FunctionKind.Aggregate; Func.definition_hash := "sha256:04";
             Func.owner := "app"; Func.owner_authorization := Some reader;
             Func.grants := [{| FunctionGrant.grantor := "app"; FunctionGrant.grantee := "reader";
                                FunctionGrant.grantable := false |}] |}];
       Catalog.relations := relations; Catalog.fingerprint := fingerprint |} in
  match calculate_fingerprint (normalize (unsealed EmptyString)) with
  | Ok fingerprint => unsealed fingerprint
  | Err _ => unsealed EmptyString
  end.

Definition shop : CatalogSnapshot := sealed [items_relation [sku_column None; id_column]].
Definition shop_reordered : CatalogSnapshot := sealed [items_relation [id_column; sku_column None]].
Definition shop_without_sku : CatalogSnapshot := sealed [items_relation [id_column]].

Definition diff_or_empty (before after : CatalogSnapshot) : CatalogDiff :=
  match diff_catalogs before after with
  | Ok d => d
  | Err _ => {| CatalogDiff.schema_version := EmptyString;
                CatalogDiff.from_fingerprint := EmptyString;
                CatalogDiff.to_fingerprint := EmptyString;
                CatalogDiff.compatibility := CatalogCompatibility.Breaking;
                CatalogDiff.summary := summarize []; CatalogDiff.changes := [] |}
  end.

(** ** Validation *)

(** A catalog snapshot is accepted exactly when it has the supported
    version and records the digest of its own canonical text.  What validation
    returns is canonical: roles ascend strictly, grants ascend without
    repetition, functions, relations, columns, constraints, policies and policy
    roles are sorted; and it is itself accepted, unchanged. *)
Theorem validated_catalog_is_canonical `{Crates} (s : CatalogSnapshot) :
  ((exists c, validated_normalized s = Ok c) <->
   Catalog.schema_version s = CATALOG_SNAPSHOT_SCHEMA_VERSION
   /\ exists text, catalog_text s = Ok text /\ Catalog.fingerprint s = sha256 text)
  /\ forall c, validated_normalized s = Ok c ->
     c = normalize s /\ catalog_canonical c /\ validated_normalized c = Ok c.
Proof.
  setoid_rewrite validated_normalized_ok. split.
  - split; [naive_solver|]. intros [? ?]. eauto.
  - intros c (Hv & Ht & ->). split; [done|]. split; [apply normalize_canonical|].
    unfold catalog_text in *. rewrite normalize_idemp. done.
Qed.

Lemma validated_catalog_is_canonical_witness :
  validated_normalized shop = Ok (normalize shop)
  /\ validated_normalized (normalize shop) = Ok (normalize shop)
  /\ RoleContext.effective_roles (Catalog.role_context (normalize shop)) = ["app"; "reader"].
Proof.
  assert (Hok : is_ok (validated_normalized shop) = true) by (vm_compute; reflexivity).
  destruct (is_ok_true _ Hok) as [c Hc].
  destruct (proj2 (validated_catalog_is_canonical shop) c Hc) as (Heq & _ & Hv).
  subst c. refine (conj Hc (conj Hv _)). vm_compute. reflexivity.
Defined.

(** ** Differences *)

(** C38: two catalog snapshots are compared exactly when both are valid and they
    are of the same database and role.  The changes reported are then exactly
    the differences between the objects of the two canonical snapshots, location
    by location, each with its expected kind, classification and contents; and
    the JSON pointers that address them ascend strictly, so that no object is
    reported twice. *)
Theorem catalog_diff_reports_exactly `{Crates} (before after : CatalogSnapshot) :
  ((exists d, diff_catalogs before after = Ok d) <->
   (exists b a, validated_normalized before = Ok b /\ validated_normalized after = Ok a)
   /\ Catalog.current_database before = Catalog.current_database after
   /\ Catalog.current_role before = Catalog.current_role after)
  /\ forall d, diff_catalogs before after = Ok d ->
     (forall c, c ∈ CatalogDiff.changes d <->
        exists l, change_at (normalize before) (normalize after) l = Some c)
     /\ StronglySorted klt (map CatalogChange.path (CatalogDiff.changes d)).
Proof.
  split.
  - split; [intros [d Hd%diff_catalogs_ok]; naive_solver|].
    intros (Hv & Hdb & Hrole). eexists (CatalogDiff.mk _ _ _ _ _ _).
    apply diff_catalogs_ok. simpl. split_and!; done.
  - intros d (_ & _ & _ & _ & _ & _ & -> & _)%diff_catalogs_ok.
    split; [intros c; apply elem_of_sorted_changes|apply sorted_changes_paths].
Qed.

Lemma catalog_diff_reports_exactly_witness :
  exists d, diff_catalogs shop shop_without_sku = Ok d
  /\ StronglySorted klt (map CatalogChange.path (CatalogDiff.changes d))
  /\ map CatalogChange.path (CatalogDiff.changes d) = ["/relations/public/items/columns/sku"].
Proof.
  assert (Hd : diff_catalogs shop shop_without_sku = Ok (diff_or_empty shop shop_without_sku))
    by (vm_compute; reflexivity).
  destruct (proj2 (catalog_diff_reports_exactly shop shop_without_sku) _ Hd) as [_ Hs].
  refine (ex_intro _ _ (conj Hd (conj Hs _))). vm_compute. reflexivity.
Defined.

(** The verdict on a catalog difference is that of its worst change: the
    counts of the three classes add up to the number of changes, the whole is
    breaking exactly when some change is, and compatible exactly when every
    change is. *)
Theorem catalog_diff_verdict_is_worst `{Crates} (before after : CatalogSnapshot) (d : CatalogDiff) :
  diff_catalogs before after = Ok d ->
  CatalogDiffSummary.total (CatalogDiff.summary d) = length (CatalogDiff.changes d)
  /\ CatalogDiffSummary.compatible (CatalogDiff.summary d)
     + CatalogDiffSummary.review_required (CatalogDiff.summary d)
     + CatalogDiffSummary.breaking (CatalogDiff.summary d) = length (CatalogDiff.changes d)
  /\ (CatalogDiff.has_breaking_changes d = true <->
      CatalogDiff.compatibility d = CatalogCompatibility.Breaking)
  /\ (CatalogDiff.compatibility d = CatalogCompatibility.Breaking <->
      exists c, c ∈ CatalogDiff.changes d
                /\ CatalogChange.compatibility c = CatalogCompatibility.Breaking)
  /\ (CatalogDiff.compatibility d = CatalogCompatibility.Compatible <->
      forall c, c ∈ CatalogDiff.changes d ->
                CatalogChange.compatibility c = CatalogCompatibility.Compatible).
Proof.
  intros (_ & _ & _ & _ & _ & _ & _ & Hs & Hc)%diff_catalogs_ok.
  rewrite <- diff_compatible_iff by done. rewrite <- count_positive.
  unfold CatalogDiff.has_breaking_changes. rewrite bool_decide_eq_true.
  rewrite Hc, Hs. simpl. split; [done|]. split; [apply summarize_counts|].
  split; [|split]; repeat case_decide; naive_solver.
Qed.

Lemma catalog_diff_verdict_is_worst_witness :
  exists d, diff_catalogs shop shop_without_sku = Ok d
  /\ CatalogDiff.compatibility d = CatalogCompatibility.Breaking
  /\ exists c, c ∈ CatalogDiff.changes d
               /\ CatalogChange.compatibility c = CatalogCompatibility.Breaking.
Proof.
  assert (Hd : diff_catalogs shop shop_without_sku = Ok (diff_or_empty shop shop_without_sku))
    by (vm_compute; reflexivity).
  assert (Hb : CatalogDiff.compatibility (diff_or_empty shop shop_without_sku)
               = CatalogCompatibility.Breaking) by (vm_compute; reflexivity).
  destruct (catalog_diff_verdict_is_worst _ _ _ Hd) as (_ & _ & _ & H & _).
  exact (ex_intro _ _ (conj Hd (conj Hb (proj1 H Hb)))).
Defined.

(** No change of the catalog goes unreported.  For snapshots whose objects
    have distinct names, the difference is empty exactly when the two canonical
    snapshots agree on everything but their recorded fingerprints, and then the
    recorded fingerprints agree as well: two different fingerprints always come
    with a reported change. *)
Theorem empty_catalog_diff_iff_same_content `{Crates} (before after : CatalogSnapshot)
    (d : CatalogDiff) :
  diff_catalogs before after = Ok d -> catalog_distinct before -> catalog_distinct after ->
  (CatalogDiff.changes d = [] <->
   clear_fingerprint (normalize before) = clear_fingerprint (normalize after))
  /\ (CatalogDiff.changes d = [] ->
      CatalogDiff.from_fingerprint d = CatalogDiff.to_fingerprint d).
Proof.
  intros Hd Hdb Hda.
  destruct (proj1 (diff_catalogs_ok _ _ _) Hd)
    as ((b & a & Hb & Ha) & Hdata & Hrole & _ & Hf & Ht & Hc & _).
  apply validated_normalized_ok in Hb as (Hvb & (tb & Htb & Hfb) & _),
    Ha as (Hva & (ta & Hta & Hfa) & _).
  assert (Hiff : CatalogDiff.changes d = [] <->
    clear_fingerprint (normalize before) = clear_fingerprint (normalize after)).
  { rewrite Hc, no_changes_iff. split.
    - intros Hsame. pose proof (normalize_canonical before). pose proof (normalize_canonical after).
      apply normalize_distinct in Hdb, Hda.
      apply clear_fingerprint_ext; simpl; try done; [congruence|by apply same_context| |].
      + by apply (same_functions (normalize before) (normalize after)).
      + by apply (same_relations (normalize before) (normalize after)).
    - intros Heq l. unfold change_at, change_between.
      rewrite (object_at_clear _ _ l Heq), decide_True by done. by destruct (compared _ _ _). }
  split; [done|]. intros Hn%Hiff. unfold catalog_text in *. rewrite Hf, Ht, Hfb, Hfa. congruence.
Qed.

Lemma shop_distinct : catalog_distinct shop /\ catalog_distinct shop_reordered.
Proof.
  split; (split;
    [apply nodup_bool; vm_compute; reflexivity|apply nodup_bool; vm_compute; reflexivity|]);
    (apply Forall_cons; split; [|constructor]);
    split; apply nodup_bool; vm_compute; reflexivity.
Qed.

Lemma empty_catalog_diff_iff_same_content_witness :
  Catalog.relations shop <> Catalog.relations shop_reordered
  /\ clear_fingerprint (normalize shop) = clear_fingerprint (normalize shop_reordered)
  /\ CatalogDiff.changes (diff_or_empty shop shop_reordered) = [].
Proof.
  assert (Hd : diff_catalogs shop shop_reordered = Ok (diff_or_empty shop shop_reordered))
    by (vm_compute; reflexivity).
  destruct shop_distinct as [D1 D2].
  destruct (empty_catalog_diff_iff_same_content _ _ _ Hd D1 D2) as [H _].
  assert (Hn : CatalogDiff.changes (diff_or_empty shop shop_reordered) = [])
    by (vm_compute; reflexivity).
  refine (conj _ (conj (proj1 H Hn) Hn)). vm_compute. discriminate.
Defined.

(** A catalog difference reported as compatible only adds relations and
    columns.  Every relation of the old snapshot is still there with the same
    kind, owner, view, comment, grants, row-level security, constraints and
    policies, and every one of its columns is unchanged; functions and the role
    context are the same. *)
Theorem compatible_catalog_diff_only_adds `{Crates} (before after : CatalogSnapshot)
    (d : CatalogDiff) :
  diff_catalogs before after = Ok d ->
  CatalogDiff.compatibility d = CatalogCompatibility.Compatible ->
  let b := normalize before in
  let a := normalize after in
  (forall p, context_at b p = context_at a p)
  /\ (forall key, named function_key (Catalog.functions b) key
                  = named function_key (Catalog.functions a) key)
  /\ forall key r, relation_at b key = Some r ->
     exists r', relation_at a key = Some r'
     /\ (forall p, part_at r p = part_at r' p)
     /\ (forall n c, named Column.name (Rel.columns r) n = Some c ->
                     named Column.name (Rel.columns r') n = Some c)
     /\ (forall k, named constraint_key (Rel.constraints r) k
                   = named constraint_key (Rel.constraints r') k)
     /\ (forall n, named Policy.name (Rel.policies r) n
                   = named Policy.name (Rel.policies r') n).
Proof.
  intros (_ & _ & _ & _ & _ & _ & Hc & Hs & Hk)%diff_catalogs_ok Hcompat b a.
  apply (compatible_keeps b a). intros l c Hl.
  apply (proj1 (diff_compatible_iff d Hs Hk) Hcompat). rewrite Hc.
  apply elem_of_sorted_changes. eauto.
Qed.

Definition shop_with_more : CatalogSnapshot :=
  sealed [items_relation [sku_column None; id_column];
          {| Rel.schema := "public"; Rel.name := "audit"; Rel.kind := RelationKind.View;
             Rel.owner := "app"; Rel.view := None; Rel.comment := None;
             Rel.grants := {| Grants.schema_usage := true; Grants.table_select := true;
                              Grants.any_column_select := true |};
             Rel.rls := {| Rls.enabled := false; Rls.forced := false |};
             Rel.columns := []; Rel.constraints := []; Rel.policies := [] |}].

Lemma compatible_catalog_diff_only_adds_witness :
  CatalogDiff.compatibility (diff_or_empty shop_without_sku shop_with_more)
  = CatalogCompatibility.Compatible
  /\ length (CatalogDiff.changes (diff_or_empty shop_without_sku shop_with_more)) = 2
  /\ (forall p, context_at (normalize shop_without_sku) p = context_at (normalize shop_with_more) p).
Proof.
  assert (Hd : diff_catalogs shop_without_sku shop_with_more
               = Ok (diff_or_empty shop_without_sku shop_with_more)) by (vm_compute; reflexivity).
  assert (Hk : CatalogDiff.compatibility (diff_or_empty shop_without_sku shop_with_more)
               = CatalogCompatibility.Compatible) by (vm_compute; reflexivity).
  destruct (compatible_catalog_diff_only_adds _ _ _ Hd Hk) as [Hp _].
  refine (conj Hk (conj _ Hp)). vm_compute. reflexivity.
Defined.
