(* ===== verification/EdgeCases.v ===== *)
(** * Behaviour at the edges

    Concrete inputs on which the code does what its surroundings would not lead
    a reader to expect, evaluated on the definitions. *)

From S2P Require Import Prelude Ordered Text Json Lsq Semantic Compiler Diff Lsm Mutation.
From S2P Require Import Fixtures DiffTheorems.

Definition with_models (models : list Model) : SemanticSnapshot :=
  seal {| Snapshot.schema_version := "2"; Snapshot.revision_hash := EmptyString;
          Snapshot.models := models |}.

(** ** Dates against a timestamp with time zone *)

Definition without_timezone (m : Model) : Model :=
  {| Model.semantic_name := Model.semantic_name m; Model.source := Model.source m;
     Model.timezone := None; Model.queryable := Model.queryable m;
     Model.writable := Model.writable m; Model.fields := Model.fields m;
     Model.metrics := Model.metrics m; Model.relationships := Model.relationships m |}.

Definition orders_on (filter : Filter) : LogicalSemanticQuery :=
  {| Lsq.schema_version := "1"; Lsq.model := "orders"; Lsq.dimensions := [];
     Lsq.metrics := [MetricReference.mk "order_count"]; Lsq.filters := Some filter;
     Lsq.order_by := []; Lsq.limit := Some 10%N |}.

Definition new_year : Literal := Literal.Date "2026-01-01".

(** On a model without a time zone, comparing a timestamp-with-time-zone
    field with a date is refused for want of the time zone, but the membership
    test with that same date compiles, and casts the date in the time zone of
    the database session. *)
Theorem date_membership_needs_no_timezone :
  let snapshot := with_models [without_timezone orders; customers; order_items] in
  compile_lsq (normalized_sample (orders_on (Filter.Eq "ordered_at" new_year))) snapshot
    default_options = Err (CompileError.MissingTimezone "ordered_at")
  /\ exists c,
     compile_lsq (normalized_sample (orders_on (Filter.In "ordered_at" [new_year]))) snapshot
       default_options = Ok c
     /\ CompiledParameter.data_type <$> CompiledQuery.parameters c
        = [DataType.TimestampTz; DataType.Integer].
Proof. split; [vm_compute; reflexivity|]. eexists. vm_compute. split; reflexivity. Qed.

(** ** Line breaks in relation names *)

(** The fixture with a line break in the name of the joined table. *)
Definition broken_name : string := "order" +:+ nl +:+ "item".

Definition broken_items_relationship : Relationship :=
  {| Relationship.semantic_name := "order_items"; Relationship.target_model := "order_items";
     Relationship.target := Relation.mk "commerce" broken_name;
     Relationship.cardinality := Cardinality.OneToMany;
     Relationship.join_type := JoinType.Left;
     Relationship.from_column := "order_id"; Relationship.to_column := "order_id" |}.

Definition broken_snapshot : SemanticSnapshot :=
  with_models
    [{| Model.semantic_name := "orders"; Model.source := Model.source orders;
        Model.timezone := Model.timezone orders; Model.queryable := true; Model.writable := None;
        Model.fields := Model.fields orders; Model.metrics := Model.metrics orders;
        Model.relationships := [customer_relationship; broken_items_relationship] |};
     customers;
     {| Model.semantic_name := "order_items"; Model.source := Relation.mk "commerce" broken_name;
        Model.timezone := None; Model.queryable := false; Model.writable := None;
        Model.fields := Model.fields order_items; Model.metrics := [];
        Model.relationships := [] |}].

(** The indentation of an anchored query also reaches inside quoted
    identifiers.  With a line break in the name of the joined table, the
    compiled SQL does not contain that name; it names another table, with two
    spaces after the line break. *)
Theorem anchored_indentation_changes_names : exists c,
  compile_lsq (normalized_sample revenue_by_sku) broken_snapshot default_options = Ok c
  /\ String.index 0 (quote_identifier broken_name) (CompiledQuery.sql c) = None
  /\ is_Some (String.index 0 (quote_identifier ("order" +:+ nl +:+ "  item"))
                (CompiledQuery.sql c)).
Proof.
  eexists. split; [vm_compute; reflexivity|]. split; vm_compute; [reflexivity|]. by eexists.
Qed.

(** ** Hidden fields under visible metrics *)

Definition hidden_amount : Field :=
  {| Field.semantic_name := "amount"; Field.data_type := DataType.Numeric;
     Field.column := "amount"; Field.relationship := None; Field.time_dimension := false;
     Field.entity_key := false; Field.visible := false; Field.nullable := true |}.

Definition other_fields : list Field :=
  List.filter (fun f => negb (bool_decide (Field.semantic_name f = "amount")))
    (Model.fields orders).

Definition read_only (m : Model) (fields : list Field) : Model :=
  {| Model.semantic_name := Model.semantic_name m; Model.source := Model.source m;
     Model.timezone := Model.timezone m; Model.queryable := true; Model.writable := None;
     Model.fields := fields; Model.metrics := Model.metrics m;
     Model.relationships := Model.relationships m |}.

(** Removing a hidden field is reported as compatible even when a visible
    metric aggregates it; a request for that metric that compiled before the
    change is refused after it. *)
Theorem removed_hidden_field_breaks_metric :
  let before := with_models [read_only orders (hidden_amount :: other_fields); customers;
                             order_items] in
  let after := with_models [read_only orders other_fields; customers; order_items] in
  (exists d, diff_snapshots before after = Ok d
             /\ SemanticDiff.compatibility d = Compatibility.Compatible)
  /\ (exists c, compile_lsq (normalized_sample revenue_by_month) before default_options = Ok c)
  /\ compile_lsq (normalized_sample revenue_by_month) after default_options
     = Err (CompileError.InvalidMetricField "revenue").
Proof.
  cbn zeta. split; [|split].
  - eexists. split; [vm_compute; reflexivity|]. vm_compute. reflexivity.
  - apply is_ok_true. vm_compute. reflexivity.
  - vm_compute. reflexivity.
Qed.
