(* ===== verification/MutationExecutorSpec.v ===== *)
(** * The protocol of the mutation executor

    A monitor of the calls of a mutation: the write transaction with its claim,
    statement and atomic record, how it ended, and the failures recorded. *)

From S2P Require Import Prelude Ordered Text Json Lsq Semantic Compiler Lsm LsmSpec Mutation.
From S2P Require Import MutationSpec MutationTheorems CompilerSpec Effects Database.
From S2P Require Import PublishedModel PublishedModelSpec Executor Sessions MutationExecutor.

(** ** The monitor *)

(** A transaction on the source. *)
Record work : Type := {
  guard : session;
  claimed : option Claim;
  ran : bool;                             (** the statement was sent *)
  returned : option row_stream;           (** what it returned *)
  completed : option FinishMutation;      (** the record made with it *)
}.

Inductive ending : Type := Committed | CommitFailed | RolledBack.

Record monitor : Type := {
  recorded : list RecordMutationFailure;
  current : option work;
  ended : list (work * ending);           (** write transactions that are over *)
}.

Definition idle : monitor := {| recorded := []; current := None; ended := [] |}.

Definition begun (ro : bool) : work :=
  {| guard := opened ro; claimed := None; ran := false; returned := None; completed := None |}.

Definition set_current (w : option work) (m : monitor) : monitor :=
  {| recorded := recorded m; current := w; ended := ended m |}.

Definition set_guard (t : session) (w : work) : work :=
  {| guard := t; claimed := claimed w; ran := ran w; returned := returned w;
     completed := completed w |}.
Definition set_claimed (c : Claim) (w : work) : work :=
  {| guard := guard w; claimed := Some c; ran := ran w; returned := returned w;
     completed := completed w |}.
Definition set_returned (r : option row_stream) (w : work) : work :=
  {| guard := guard w; claimed := claimed w; ran := true; returned := r;
     completed := completed w |}.
Definition set_completed (a : FinishMutation) (w : work) : work :=
  {| guard := guard w; claimed := claimed w; ran := ran w; returned := returned w;
     completed := Some a |}.

(** The end of the current transaction; read-only ones are not remembered. *)
Definition close (e : ending) (m : monitor) : monitor :=
  match current m with
  | Some w =>
      {| recorded := recorded m; current := None;
         ended := if read_only (guard w) then ended m else ended m ++ [(w, e)] |}
  | None => m
  end.

Definition on_work (f : work -> work) (m : monitor) : monitor :=
  match current m with Some w => set_current (Some (f w)) m | None => m end.

Definition observe_source (m : monitor) (s : statement) : Prelude.result db_error (row_of s) -> monitor :=
  match s as s0 return Prelude.result db_error (row_of s0) -> monitor with
  | CLAIM_MUTATION _ => fun r =>
      match r with Ok c => on_work (set_claimed c) m | Err _ => m end
  | FINISH_MUTATION a => fun r =>
      match r with Ok _ => on_work (set_completed a) m | Err _ => m end
  | s => fun r => on_work (fun w => set_guard (observe_one (guard w) s r) w) m
  end.

Definition observe_audit (m : monitor) (s : statement) : monitor :=
  match s with
  | RECORD_MUTATION_FAILURE a =>
      {| recorded := recorded m ++ [a]; current := current m; ended := ended m |}
  | _ => m
  end.

Definition observe (m : monitor) (op : operation) : answer op -> monitor :=
  match op as op0 return answer op0 -> monitor with
  | Begin Source _ ro => fun r =>
      match r with Ok _ => set_current (Some (begun ro)) m | Err _ => m end
  | Commit Source => fun r =>
      close (match r with Ok _ => Committed | Err _ => CommitFailed end) m
  | Rollback Source => fun _ => close RolledBack m
  | QueryOne Source s => observe_source m s
  | QueryOne Audit s => fun _ => observe_audit m s
  | QueryRaw Source _ _ => fun r =>
      on_work (set_returned (match r with Ok s => Some s | Err _ => None end)) m
  | op => fun r => on_work (fun w => set_guard (observe_session (guard w) op r) w) m
  end.

Section protocol.
Context `{Crates, ModelParsers, Driver, LsmParser}.
Context (input project : string) (config : MutationExecutorConfig) (context : ExecutionContext).

(** The compiled form of the request under some published model. *)
Definition compiles (normalized : NormalizedLsm) (published : PublishedMutationModel)
    (compiled : CompiledMutation) : Prop :=
  normalize_lsm lsm_parse lsm_from_value input = Ok normalized
  /\ compile_lsm normalized
       (PublishedModel.snapshot (PublishedMutationModel.published published))
       (PublishedMutationModel.capabilities published) default_mutation_options = Ok compiled.

Definition required_settings : list (string * string) :=
  [("search_path", "pg_catalog"); ("TimeZone", "UTC")]
  ++ timeout_settings (MutationExecutorConfig.statement_timeout config)
       (MutationExecutorConfig.lock_timeout config)
       (MutationExecutorConfig.idle_transaction_timeout config).

(** A writing transaction that runs as the configured role, which is safe, may
    be assumed and does not own the target, a table, with every setting made. *)
Definition guarded (published : PublishedMutationModel) (compiled : CompiledMutation)
    (t : session) : Prop :=
  let role := MutationExecutorConfig.database_role config in
  read_only t = false
  /\ role ∈ members t
  /\ assumed t = Some (set_role_sql role)
  /\ required_settings ⊆ settings t
  /\ exists model,
       model ∈ Snapshot.models (PublishedModel.snapshot (PublishedMutationModel.published published))
       /\ Model.semantic_name model = CompiledMutation.model compiled
       /\ (role, (Relation.schema (Model.source model), Relation.relation (Model.source model)))
          ∈ foreign t.

(** The claim identifies the request, its author and the number of its rows. *)
Definition claim_allowed (m : monitor) (a : ClaimMutation) : Prop :=
  exists normalized published compiled w,
    compiles normalized published compiled /\ current m = Some w
    /\ guarded published compiled (guard w) /\ claimed w = None /\ ran w = false
    /\ cm_project a = project
    /\ cm_idempotency_key_hash a
       = sha256 (Lsm.idempotency_key (NormalizedLsm.mutation normalized))
    /\ cm_authority_hash a = sha256 (ExecutionContext.authority_id context)
    /\ cm_lsm_hash a = NormalizedLsm.hash normalized
    /\ cm_revision_hash a
       = Snapshot.revision_hash
           (PublishedModel.snapshot (PublishedMutationModel.published published))
    /\ cm_statement_hash a = CompiledMutation.statement_hash compiled
    /\ cm_requested_rows a = Z.of_nat (CompiledMutation.expected_rows compiled).

(** The statement is sent once, under a claim to execute it. *)
Definition source_statement_allowed (m : monitor) (sql : string)
    (parameters : list (option string)) : Prop :=
  exists normalized published compiled w c,
    compiles normalized published compiled /\ current m = Some w
    /\ guarded published compiled (guard w)
    /\ claimed w = Some c /\ Claim.disposition c = "execute" /\ ran w = false
    /\ sql = result_wrapper_sql compiled
    /\ parameters = map parameter_text (CompiledMutation.parameters compiled).

(** The record of an execution holds exactly the rows the statement returned,
    as many as the request has. *)
Definition completion_allowed (m : monitor) (a : FinishMutation) : Prop :=
  exists normalized published compiled w c s,
    compiles normalized published compiled /\ current m = Some w
    /\ claimed w = Some c /\ Claim.disposition c = "execute"
    /\ fm_mutation_id a = Claim.mutation_id c
    /\ Claim.attempt_id c = Some (fm_attempt_id a)
    /\ returned w = Some s /\ stream_error s = None
    /\ fm_result a = JArr (stream_rows s)
    /\ length (stream_rows s) = CompiledMutation.expected_rows compiled
    /\ fm_affected_rows a = Z.of_nat (length (stream_rows s))
    /\ completed w = None.

(** A write is committed only together with its record; a replay or a conflict
    only when nothing was executed. *)
Definition commit_allowed (m : monitor) : Prop :=
  exists w, current m = Some w
    /\ (read_only (guard w) = true
        \/ exists c, claimed w = Some c
           /\ ((Claim.disposition c = "conflict" \/ Claim.disposition c = "replay")
               /\ ran w = false
               \/ Claim.disposition c = "execute" /\ is_Some (completed w))).

(** What a recorded status says about the write transaction. *)
Definition status_holds (m : monitor) (status : string) : Prop :=
  if decide (status = "indeterminate") then exists w, ended m = [(w, CommitFailed)]
  else if decide (status = "rolled_back") then exists w, ended m = [(w, RolledBack)]
  else status = "rejected"
       /\ (ended m = [] \/ (exists w, ended m = [(w, RolledBack)])
           \/ exists w, ended m = [(w, Committed)] /\ ran w = false).

Definition failure_allowed (m : monitor) (a : RecordMutationFailure) : Prop :=
  recorded m = [] /\ current m = None /\ status_holds m (rf_status a).

Definition allowed (m : monitor) (op : operation) : Prop :=
  match op with
  | TlsConnectorNew | OnCancelHandle | Elapsed => True
  | Connect _ cfg => bounded_config cfg
  | Begin c _ ro => c = Source /\ current m = None /\ (ro = true \/ ended m = [])
  | Commit c => c = Source /\ commit_allowed m
  | Rollback c => c = Source /\ is_Some (current m)
  | Query c _ => c = Source
  | QueryOpt c _ => c = Source
  | QueryOne Source (CLAIM_MUTATION a) => claim_allowed m a
  | QueryOne Source (FINISH_MUTATION a) => completion_allowed m a
  | QueryOne Source
      (SET_CONFIG _ _ _ | AGGREGATION_ANCHOR_SCHEMA_AVAILABLE_SQL
       | MUTATION_SCHEMA_AVAILABLE_SQL) => True
  | QueryOne Audit (SET_CONFIG _ _ _) => True
  | QueryOne Audit (RECORD_MUTATION_FAILURE a) => failure_allowed m a
  | QueryOne _ _ => False
  | BatchExecute c sql =>
      c = Source /\ sql = set_role_sql (MutationExecutorConfig.database_role config)
  | QueryRaw c sql parameters => c = Source /\ source_statement_allowed m sql parameters
  end.

(** ** Outcomes *)

(** What a successful request did. *)
Definition succeeded (m : monitor) (q : MutationResult) : Prop :=
  recorded m = []
  /\ exists w c, ended m = [(w, Committed)] /\ claimed w = Some c
     /\ MutationResult.mutation_id q = Claim.mutation_id c
     /\ if MutationResult.replayed q
        then Claim.disposition c = "replay" /\ ran w = false
             /\ Claim.result c = Some (JArr (MutationResult.rows q))
             /\ Z.of_N (MutationResult.affected_rows q) = default 0%Z (Claim.affected_rows c)
        else Claim.disposition c = "execute"
             /\ (exists s, returned w = Some s /\ stream_error s = None
                 /\ MutationResult.rows q = stream_rows s)
             /\ (exists a, completed w = Some a /\ fm_result a = JArr (MutationResult.rows q))
             /\ MutationResult.affected_rows q = N.of_nat (length (MutationResult.rows q)).

(** The code under which an error is recorded. *)
Definition recorded_code (e : MutationExecuteError) : string :=
  match e with
  | MutationExecuteError.PublishedModel _ => "MUTATION_SEMANTIC_SNAPSHOT_UNAVAILABLE"
  | _ => mutation_error_code e
  end.

(** Errors that are not recorded: a conflict, which the database already knows
    and which executed nothing, and a failure to open or configure the audit
    connection, before any transaction. *)
Definition unrecorded (m : monitor) (e : MutationExecuteError) : Prop :=
  match e with
  | MutationExecuteError.IdempotencyConflict =>
      exists w c, ended m = [(w, Committed)] /\ claimed w = Some c
        /\ Claim.disposition c = "conflict" /\ ran w = false
  | MutationExecuteError.AuditConnect _
  | MutationExecuteError.TransactionConfiguration _ => ended m = []
  | _ => False
  end.

(** A failed request has no commit of anything it executed that succeeded, and
    its failure was recorded once, under the status and code of its error, where
    the status is true of how the transaction ended: [indeterminate] exactly if
    its commit failed. *)
Definition failed (m : monitor) (e : MutationExecuteError) : Prop :=
  e <> MutationExecuteError.Panic
  /\ Forall (fun '(w, how) => how = Committed -> ran w = false) (ended m)
  /\ ((recorded m = [] /\ unrecorded m e)
      \/ exists a, recorded m = [a] /\ status_holds m (rf_status a)
         /\ ((exists d, e = MutationExecuteError.FailureAudit d)
             \/ (rf_status a = failure_status e /\ rf_error_code a = recorded_code e))).

Definition concluded (m : monitor) (r : Prelude.result MutationExecuteError MutationResult) : Prop :=
  current m = None
  /\ match r with Ok q => succeeded m q | Err e => failed m e end.
End protocol.

(** ** The executor against the monitor *)

(** Errors that leave the outcome of a transaction certain. *)
Definition ordinary (e : MutationExecuteError) : Prop :=
  match e with
  | MutationExecuteError.CommitIndeterminate _ | MutationExecuteError.IdempotencyConflict
  | MutationExecuteError.FailureAudit _ | MutationExecuteError.PublishedModel _
  | MutationExecuteError.Panic => False
  | _ => True
  end.

Definition put_guard (t : session) (m : monitor) : monitor :=
  set_current (Some (set_guard t (default (begun false) (current m)))) m.

Section checks.
Context `{HC : Crates, HM : ModelParsers, HD : Driver, HL : LsmParser}.
Context (input project : string) (config : MutationExecutorConfig) (context : ExecutionContext).

Abbreviation role := (MutationExecutorConfig.database_role config).
Abbreviation checks p m Q :=
  (monitored (allowed input project config context) observe p m Q).
Abbreviation unmoved p m := (quiet (allowed input project config context) observe p m).
Abbreviation establish p m t P :=
  (monitored (allowed input project config context) observe p m
     (establishes (role := role) (put := put_guard) m t ordinary P)).

Lemma set_current_id m w : current m = w -> set_current w m = m.
Proof. destruct m. simpl. by intros <-. Qed.

Lemma on_work_id f m : (forall w, current m = Some w -> f w = w) -> on_work f m = m.
Proof.
  intros Hf. unfold on_work. destruct (current m) as [w|] eqn:Hw; [|done].
  rewrite Hf by done. by apply set_current_id.
Qed.

#[local] Instance mutation_calm : Calm (allowed input project config context) observe.
Proof.
  assert (Hstay : forall m, on_work (fun w => set_guard (guard w) w) m = m).
  { intros m. apply on_work_id. by intros []. }
  split; intros m [| | | | |c s|c s|c s| | | |]; try done; try (intros ? _; apply Hstay);
    destruct c, s; try done; try (intros ? _; apply Hstay); destruct is_local; try done;
    intros ? _; apply Hstay.
Qed.

#[local] Instance mutation_session :
  SessionMonitor role (allowed input project config context) observe
    (fun m => guard <$> current m) put_guard.
Proof.
  split; [| |done|done|].
  - intros m t [| | | | |c s|c s|c s|c sql| | |] Ht; try done; destruct c; try done;
      by case_statement s.
  - intros m t op r Ht Hop. destruct (current m) as [w|] eqn:Hw; [|done].
    simpl in Ht. simplify_eq. unfold put_guard. rewrite Hw. simpl.
    destruct op as [| | | | |c s|c s|c s|c sql| | |]; try done; destruct c; try done;
      try (cbn [observe]; unfold on_work; by rewrite Hw).
    case_statement s; try done.
    cbn [observe observe_source]. unfold on_work. by rewrite Hw.
  - intros t m Ht. unfold put_guard. destruct (current m) as [w|] eqn:Hw; [|done].
    simpl in *. simplify_eq. apply set_current_id. rewrite Hw. by destruct w.
Qed.

Lemma mutation_or_rollback_checks {E A} (body : io_result E A) m Q :
  checks body m (fun m' r =>
    match r with
    | Ok a => Q m' (Ok a)
    | Err e => is_Some (current m') /\ Q (close RolledBack m') (Err e)
    end) ->
  checks (or_rollback Source body) m Q.
Proof.
  intros Hb. unfold or_rollback. eapply monitored_seq; [exact Hb|].
  intros m' [a|e]; [done|]. intros [Ht HQ]. by split; [|intros []].
Qed.

(** Loading the semantic model leaves no trace. *)
Lemma load_unmoved database_role m :
  current m = None -> unmoved (load_published_for_mutation Source project database_role) m.
Proof.
  intros Hc. assert (Hm : forall e, close e (set_current (Some (begun true)) m) = m).
  { intros e. destruct m. simpl in *. by subst. }
  unfold load_published_for_mutation. apply quiet_try; [|by intros []].
  unfold load_published_internal, quiet. mcall; [by split_and!; auto| |done]. cbn [observe].
  apply monitored_bind, mutation_or_rollback_checks. eapply monitored_mono; [apply read_published_quiet|].
  intros m' [a'|e] ->; [|by split; [|apply Hm]].
  mcall; [|apply Hm..]. split; [done|]. eexists. split; [done|]. by left.
Qed.

(** Steps of the guard. *)
Lemma mutation_fix_search_path_checks m t :
  guard <$> current m = Some t ->
  establish fix_search_path m t (fun _ t' => ("search_path", "pg_catalog") ∈ settings t').
Proof.
  intros Ht. set (op := QueryOne Source (SET_CONFIG "search_path" "pg_catalog" true)).
  apply monitored_last_attempt. eapply monitored_mono; [exact (setup_step op m t Ht I)|].
  intros m' [[]|e] ->; eexists; (split; [done|]); split; try exact (grows_setup role t op _ I);
    [|done]. simpl. set_solver.
Qed.

Lemma mutation_verify_role_checks m t :
  guard <$> current m = Some t ->
  establish (verify_role role) m t (fun is_member t' => is_member = true -> role ∈ members t').
Proof.
  intros Ht. set (op := QueryOpt Source (ROLE_SQL role)).
  apply monitored_try_attempt. eapply monitored_mono; [exact (setup_step op m t Ht I)|].
  intros m' [row|e] ->.
  2: { eexists. split; [done|]. split; [exact (grows_setup role t op (Err e) I)|done]. }
  pose proof (grows_setup role t op (Ok row) I) as G.
  destruct row as [row|]; msimpl; [|eexists; by split_and!].
  simpl in G. unfold role_is_safe in *.
  destruct (RoleRow.rolsuper row || RoleRow.rolbypassrls row || RoleRow.can_assume_unsafe_role row);
    simpl in *; [eexists; by split_and!|].
  destruct (RoleRow.is_member row); simpl; (eexists; split; [done|]; split; [done|]);
    [simpl; set_solver|done].
Qed.

Lemma verify_target_checks published compiled m t :
  guard <$> current m = Some t ->
  establish (verify_target_relation published compiled role) m t (fun _ t' =>
    exists model, model ∈ Snapshot.models (PublishedModel.snapshot published)
      /\ Model.semantic_name model = CompiledMutation.model compiled
      /\ (role, (Relation.schema (Model.source model), Relation.relation (Model.source model)))
         ∈ foreign t').
Proof.
  intros Ht. unfold verify_target_relation. apply monitored_try_lift.
  2: { intros e [_ <-]%ok_or_err. by apply reaches_here. }
  intros model [Hm Hn%bool_decide_eq_true]%ok_or_ok%find_elem.
  set (op := QueryOpt Source (TARGET_RELATION_SQL role _ _)).
  apply monitored_try_attempt. eapply monitored_mono; [exact (setup_step op m t Ht I)|].
  intros m' [row|e] ->.
  2: { eexists. split; [done|]. split; [exact (grows_setup role t op (Err e) I)|done]. }
  pose proof (grows_setup role t op (Ok row) I) as G.
  destruct row as [[[] kind]|]; msimpl; try (eexists; by split_and!).
  simpl in G. fold (is_table kind). destruct (is_table kind); simpl; (eexists; split; [done|]);
    (split; [exact G|]); [|done].
  exists model. split_and!; [done..|]. simpl. set_solver.
Qed.

Lemma mutation_apply_configuration_checks m t :
  guard <$> current m = Some t ->
  establish (apply_transaction_configuration config) m t (fun _ t' =>
    assumed t' = Some (set_role_sql role)
    /\ ("TimeZone", "UTC") ∈ settings t'
    /\ timeout_settings (MutationExecutorConfig.statement_timeout config)
         (MutationExecutorConfig.lock_timeout config)
         (MutationExecutorConfig.idle_transaction_timeout config) ⊆ settings t').
Proof.
  intros Ht. unfold apply_transaction_configuration.
  apply (establishes_try _ _ m t ordinary (fun _ t1 => assumed t1 = Some (set_role_sql role))).
  { set (op := BatchExecute Source (set_role_sql role)). apply monitored_last_attempt.
    eapply monitored_mono; [exact (setup_step op m t Ht eq_refl)|].
    intros m' [[]|e] ->; eexists; (split; [done|]);
      split; try exact (grows_setup role t op _ eq_refl); done. }
  intros _ m1 t1 Ht1 Ha1 _.
  eapply establishes_try.
  { apply monitored_last_attempt. eapply monitored_mono; [by apply settings_step|].
    intros m' [[]|e] Hr; [exact Hr|]. destruct Hr as (t' & -> & G & _). by exists t'. }
  intros _ m2 t2 Ht2 [Hl Ha2] _.
  set (op := QueryOne Source (SET_CONFIG "TimeZone" "UTC" true)).
  apply monitored_last_attempt. eapply monitored_mono; [exact (setup_step op m2 t2 Ht2 I)|].
  intros m' [[]|e] ->; (eexists; split; [done|]); (split; [exact (grows_setup role t2 op _ I)|]);
    [|done].
  simpl. split_and!; [congruence|set_solver|]. etrans; [exact Hl|]. set_solver.
Qed.

Lemma guard_target_checks published compiled m t :
  guard <$> current m = Some t -> read_only t = false ->
  establish (guard_target published compiled config) m t
    (fun _ t' => guarded config published compiled t').
Proof.
  intros Ht Hro. unfold guard_target.
  eapply establishes_try; [by apply mutation_fix_search_path_checks|]. intros [] m1 t1 Ht1 Hpath G1.
  eapply establishes_try; [by apply mutation_verify_role_checks|]. intros member m2 t2 Ht2 Hmember G2.
  eapply establishes_try; [by apply verify_target_checks|].
  intros [] m3 t3 Ht3 (model & Hm & Hn & Hfor) G3.
  eapply (establishes_try _ _ _ _ _ (fun _ _ => member = true)).
  { apply establishes_lift; [done| |by intros e [_ <-]%fail_if_err].
    intros _ Hmem%fail_if_ok. by apply negb_false_iff. }
  intros _ m4 t4 Ht4 -> G4.
  eapply monitored_mono; [by apply mutation_apply_configuration_checks|].
  intros m5 [[]|e] Hr; [|done]. destruct Hr as (t5 & -> & G5 & Hassumed & Hzone & Htimeouts).
  exists t5. split_and!; [done..|]. assert (G35 : grows role t3 t5) by (by etrans).
  assert (G25 : grows role t2 t5) by (by etrans). assert (G15 : grows role t1 t5) by (by etrans).
  split_and!; [|by apply G25, Hmember|done| |].
  - rewrite <- Hro. destruct G15 as [-> _]. apply G1.
  - intros x [[->|[->|Hx%not_elem_of_nil]%elem_of_cons]%elem_of_cons|Hx]%elem_of_app; try done.
    + by apply G15.
    + by apply Htimeouts.
  - exists model. split_and!; [done..|]. by apply G35.
Qed.

(** ** The claim *)

Section claim.
Context (normalized : NormalizedLsm) (published : PublishedMutationModel)
  (compiled : CompiledMutation) (Hcomp : compiles input normalized published compiled).

(** The write transaction under guard [t], before and after the claim. *)
Definition guarded_work (t : session) : work := set_guard t (begun false).
Definition claimed_work (t : session) (c : Claim) : work := set_claimed c (guarded_work t).

Lemma claim_checks vd cd m t :
  current m = Some (guarded_work t) -> guarded config published compiled t ->
  checks (claim_mutation project published normalized compiled config context vd cd) m
    (fun m' r => match r with
      | Ok c => m' = set_current (Some (claimed_work t c)) m
      | Err e => m' = m /\ ordinary e
      end).
Proof using Hcomp.
  intros Hw Hg. unfold claim_mutation, legacy_mutation_authority_hash, i64_try_from.
  apply monitored_try_lift; [intros legacy _|].
  2: { intros e He. destruct (json_to_string _); simplify_eq/=. done. }
  apply monitored_try_lift; [intros rows Hrows|].
  2: { intros e He. case_bool_decide; simplify_eq/=. done. }
  mcall; [| |done].
  - exists normalized, published, compiled, (guarded_work t). simpl.
    destruct Hcomp as [Hn _]. pose proof (normalize_lsm_ok _ _ _ _ Hn) as (_ & _ & _ & _ & Hk & _).
    case_bool_decide; simplify_eq/=. split_and!; try done. by rewrite nat_N_Z.
  - cbn [observe observe_source]. unfold on_work. by rewrite Hw.
Qed.

Lemma guard_and_claim_checks vd cd m :
  current m = Some (begun false) ->
  checks (guard_and_claim project published normalized compiled config context vd cd) m
    (fun m' r => match r with
      | Ok c => exists t, m' = set_current (Some (claimed_work t c)) m
                  /\ guarded config published compiled t
      | Err e => ordinary e
                 /\ exists t, m' = set_current (Some (guarded_work t)) m /\ read_only t = false
      end).
Proof using Hcomp.
  intros Hw. assert (Ht : guard <$> current m = Some (opened false)) by (by rewrite Hw).
  assert (Hput : forall t, put_guard t m = set_current (Some (guarded_work t)) m)
    by (intros t; unfold put_guard; by rewrite Hw).
  unfold guard_and_claim.
  eapply monitored_try; [by apply guard_target_checks| |].
  - intros m1 [] (t & -> & _ & Hg). rewrite Hput.
    eapply monitored_mono; [by apply (claim_checks _ _ _ t)|].
    intros m2 [c|e].
    + intros ->. by exists t.
    + intros [-> He]. split; [done|]. exists t. split; [done|apply Hg].
  - intros m1 e (t & -> & G & He). rewrite Hput. split; [done|]. exists t. split; [done|].
    destruct G as [-> _]. done.
Qed.

(** ** The statement *)

Lemma query_error_ordinary d : ordinary (mutation_query_error d).
Proof. unfold mutation_query_error. by case_decide. Qed.

Lemma collect_rows_ok maximum s : forall rows n rows',
  collect_rows maximum s rows n = Ok rows' ->
  rows' = rows ++ stream_rows s /\ stream_error s = None.
Proof.
  induction s as [|e|value rest IH]; intros rows n rows'; simpl.
  - intros [= <-]. by rewrite app_nil_r.
  - done.
  - destruct (is_array value); [|done]. simpl. destruct (json_to_string value); [|done].
    case_decide; [done|]. intros [-> ->]%IH. by rewrite <- app_assoc.
Qed.

Lemma collect_rows_err maximum s : forall rows n e,
  collect_rows maximum s rows n = Err e -> ordinary e.
Proof.
  induction s as [|d|value rest IH]; intros rows n e; simpl.
  - done.
  - intros [= <-]. apply query_error_ordinary.
  - destruct (is_array value); simpl; [|by intros [= <-]].
    destruct (json_to_string value); [|by intros [= <-]]. case_decide; [by intros [= <-]|]. apply IH.
Qed.

Definition returned_work (t : session) (c : Claim) (r : option row_stream) : work :=
  set_returned r (claimed_work t c).
Definition completed_work (t : session) (c : Claim) (s : row_stream) (a : FinishMutation) : work :=
  set_completed a (returned_work t c (Some s)).

Lemma run_claimed_checks m t c :
  current m = Some (claimed_work t c) -> guarded config published compiled t ->
  Claim.disposition c = "execute" ->
  checks (run_claimed compiled config c) m (fun m' r => match r with
    | Ok (rows, n) => exists s a, m' = set_current (Some (completed_work t c s a)) m
        /\ rows = stream_rows s /\ stream_error s = None
        /\ fm_result a = JArr rows /\ n = Z.of_nat (length rows)
    | Err e => ordinary e /\ exists w, m' = set_current (Some w) m /\ read_only (guard w) = false
    end).
Proof using Hcomp.
  intros Hw Hg Hd. unfold run_claimed, run_statement.
  assert (Hro : read_only t = false) by apply Hg.
  assert (Hon : forall r, on_work (set_returned r) m = set_current (Some (returned_work t c r)) m)
    by (intros r; unfold on_work; by rewrite Hw).
  eapply (monitored_try _ _ _ _ _ (fun m' r => match r with
    | Ok rows => exists s, m' = set_current (Some (returned_work t c (Some s))) m
        /\ rows = stream_rows s /\ stream_error s = None
    | Err e => ordinary e /\ exists w, m' = set_current (Some w) m /\ read_only (guard w) = false
    end)); [| |done].
  { mcall; cbn [observe]; rewrite ?Hon.
    - split; [done|]. by exists normalized, published, compiled, (claimed_work t c), c.
    - destruct (collect_rows _ _ _ _) as [rows|e] eqn:Hrows.
      + apply collect_rows_ok in Hrows as [-> Hs]. by eexists.
      + apply collect_rows_err in Hrows. split; [done|]. by eexists.
    - split; [apply query_error_ordinary|]. by eexists. }
  intros m1 rows (s & -> & -> & Hs).
  assert (Herr : forall e, ordinary e -> ordinary e
    /\ exists w, set_current (Some (returned_work t c (Some s))) m = set_current (Some w) m
                 /\ read_only (guard w) = false) by (intros e He; split; [done|by eexists]).
  apply monitored_try_lift; [intros _ Hlen%fail_if_ok|by intros e [_ <-]%fail_if_err; apply Herr].
  apply bool_decide_eq_false, dec_stable in Hlen.
  unfold i64_try_from. apply monitored_try_lift; [intros n Hn|].
  2: { intros e He. case_bool_decide; simplify_eq/=.
       by apply (Herr MutationExecuteError.AffectedRowMismatch). }
  apply guard_then in Hn as [_ [= <-]].
  apply monitored_try_lift; [intros attempt_id Hat%ok_or_ok|by intros e [_ <-]%ok_or_err; apply Herr].
  mcalm. unfold finish_mutation. mcall; cbn [observe observe_source]; [| |by apply Herr].
  - exists normalized, published, compiled, (returned_work t c (Some s)), c, s. simpl.
    split_and!; try done. by rewrite nat_N_Z.
  - unfold on_work. simpl. eexists s, _. split_and!; [done..|]. by rewrite nat_N_Z.
Qed.

(** ** The transaction *)

(** Nothing that was executed was committed. *)
Definition no_effect (m : monitor) : Prop :=
  Forall (fun '(w, how) => how = Committed -> ran w = false) (ended m).

(** How [execute_compiled] ends. *)
Definition transacted (m : monitor) (r : Prelude.result MutationExecuteError MutationResult)
    : Prop :=
  current m = None /\ recorded m = []
  /\ match r with
     | Ok q => succeeded m q
     | Err e =>
         no_effect m
         /\ ((e = MutationExecuteError.IdempotencyConflict /\ unrecorded m e)
             \/ ((ordinary e \/ exists d, e = MutationExecuteError.CommitIndeterminate d)
                 /\ status_holds m (failure_status e)))
     end.

Lemma ordinary_status e :
  ordinary e -> failure_status e = "rolled_back" \/ failure_status e = "rejected".
Proof. by destruct e; simpl; auto. Qed.

Lemma rejected_holds m :
  (ended m = [] \/ (exists w, ended m = [(w, RolledBack)])
   \/ exists w, ended m = [(w, Committed)] /\ ran w = false) ->
  status_holds m "rejected".
Proof. intros Hm. unfold status_holds. by rewrite !decide_False by done. Qed.

(** A write transaction that is rolled back for an ordinary error. *)
Lemma rolled_back m w e :
  recorded m = [] -> ended m = [] -> read_only (guard w) = false -> ordinary e ->
  transacted (close RolledBack (set_current (Some w) m)) (Err e).
Proof.
  intros Hr He Hro Ho. unfold close. simpl. rewrite Hro, He. split_and!; [done..| |].
  - unfold no_effect. simpl. by repeat constructor.
  - right. split; [by left|]. destruct (ordinary_status e Ho) as [-> | ->].
    + unfold status_holds. rewrite decide_False, decide_True by done. simpl. by eexists.
    + apply rejected_holds. right. left. simpl. by eexists.
Qed.

Lemma begin_failed m d :
  current m = None -> recorded m = [] -> ended m = [] ->
  transacted m (Err (MutationExecuteError.StartTransaction d)).
Proof.
  intros Hc Hr He. split_and!; [done..| |].
  - unfold no_effect. rewrite He. constructor.
  - right. split; [by left|]. apply rejected_holds. by left.
Qed.

(** Committing the write transaction [w]. *)
Lemma commit_checks {A} m w (k : io_result MutationExecuteError A)
    (Q : monitor -> Prelude.result MutationExecuteError A -> Prop) :
  recorded m = [] -> ended m = [] -> read_only (guard w) = false ->
  commit_allowed (set_current (Some w) m) ->
  checks k {| recorded := []; current := None; ended := [(w, Committed)] |} Q ->
  (forall d, Q {| recorded := []; current := None; ended := [(w, CommitFailed)] |}
               (Err (MutationExecuteError.CommitIndeterminate d))) ->
  checks (commit_mutation ;;? k) (set_current (Some w) m) Q.
Proof.
  intros Hr He Hro Hall Hk Hfail. unfold commit_mutation.
  assert (Hclose : forall how, close how (set_current (Some w) m)
            = {| recorded := []; current := None; ended := [(w, how)] |}).
  { intros how. unfold close. simpl. by rewrite Hr, He, Hro. }
  mcall; cbn [observe]; rewrite ?Hclose; [by split|done|apply Hfail].
Qed.

Lemma indeterminate w d :
  transacted {| recorded := []; current := None; ended := [(w, CommitFailed)] |}
    (Err (MutationExecuteError.CommitIndeterminate d)).
Proof.
  split_and!; [done..| |].
  - unfold no_effect. simpl. by repeat constructor.
  - right. split; [by right; eexists|]. unfold status_holds. rewrite decide_True by done. by eexists.
Qed.

(** The two ways a claim succeeds. *)
Lemma replay_checks m t c :
  recorded m = [] -> ended m = [] -> read_only t = false -> Claim.disposition c = "replay" ->
  checks (rows ←? or_rollback Source (lift (replay_rows (Claim.result c)));
          commit_mutation ;;?
          affected_rows ←? lift (usize_try_from (default 0%Z (Claim.affected_rows c))
                                   MutationExecuteError.InvalidReplayResult);
          Ret (Ok (result normalized published compiled (Claim.mutation_id c) rows affected_rows
                     true))) (set_current (Some (claimed_work t c)) m) transacted.
Proof.
  intros Hr He Hro Hd. apply monitored_bind, mutation_or_rollback_checks. simpl.
  unfold replay_rows. destruct (Claim.result c) as [[| | | |rows|]|] eqn:Hres; simpl;
    try (split; [by eexists|by apply (rolled_back m (claimed_work t c))]).
  destruct (forallb is_array rows) eqn:Harr; simpl;
    [|split; [by eexists|by apply (rolled_back m (claimed_work t c))]].
  apply commit_checks; [done..| | |apply indeterminate].
  { eexists. split; [done|]. right. exists c. split; [done|]. left. by split; [right|]. }
  unfold usize_try_from. case_bool_decide as Hneg.
  - split_and!; [done..| |].
    + unfold no_effect. simpl. by repeat constructor.
    + right. split; [by left|]. apply rejected_holds. right. right. by eexists.
  - split_and!; [done..|]. split; [done|]. exists (claimed_work t c), c. simpl.
    split_and!; try done. rewrite Z2N.id; [done|lia].
Qed.

Lemma claimed_run_checks m t c :
  recorded m = [] -> ended m = [] -> guarded config published compiled t ->
  Claim.disposition c = "execute" ->
  checks ('(rows, affected_rows) ←? or_rollback Source (run_claimed compiled config c);
          commit_mutation ;;?
          affected_rows ←? lift (usize_try_from affected_rows
                                   MutationExecuteError.AffectedRowMismatch);
          Ret (Ok (result normalized published compiled (Claim.mutation_id c) rows affected_rows
                     false))) (set_current (Some (claimed_work t c)) m) transacted.
Proof using Hcomp.
  intros Hr He Hg Hd. assert (Hro : read_only t = false) by apply Hg.
  apply monitored_bind, mutation_or_rollback_checks.
  eapply monitored_mono; [by apply (run_claimed_checks (set_current (Some (claimed_work t c)) m) t c)|].
  intros m1 [[rows n]|e].
  2: { intros [Ho (w & -> & Hrow)]. split; [by eexists|]. by apply (rolled_back m w). }
  intros (s & a & -> & -> & Hs & Ha & ->).
  apply (commit_checks m (completed_work t c s a)); [done..| | |apply indeterminate].
  { eexists. split; [done|]. right. exists c. split; [done|]. right. by split; [|eexists]. }
  unfold usize_try_from. rewrite bool_decide_eq_false_2 by lia.
  split_and!; [done..|]. split; [done|]. exists (completed_work t c s a), c. simpl.
  split_and!; try done; [by eexists|by eexists|]. lia.
Qed.

Lemma execute_compiled_checks vd cd m :
  current m = None -> recorded m = [] -> ended m = [] ->
  checks (execute_compiled project published normalized compiled config context vd cd) m
    transacted.
Proof using Hcomp.
  intros Hc Hr He. unfold execute_compiled.
  mcall; [by split_and!; auto|cbn [observe]|by apply begin_failed].
  set (m0 := set_current _ m).
  eapply (monitored_try _ _ _ _ _ (fun m' r => match r with
    | Ok c => exists t, m' = set_current (Some (claimed_work t c)) m
                /\ guarded config published compiled t
    | Err e => transacted m' (Err e)
    end)); [| |done].
  { apply mutation_or_rollback_checks. eapply monitored_mono; [by apply (guard_and_claim_checks _ _ m0)|].
    intros m' [c|e]; [done|]. intros [Ho (t & -> & Hro)]. split; [by eexists|].
    apply (rolled_back m (guarded_work t)); done. }
  intros m1 c (t & -> & Hg). assert (Hro : read_only t = false) by apply Hg.
  case_decide as Hconf; [|case_decide as Hrep; [|case_decide as Hex]].
  - apply commit_checks; [done..| | |apply indeterminate].
    + eexists. split; [done|]. right. exists c. split; [done|]. left. by split; [left|].
    + split_and!; [done..| |].
      * unfold no_effect. simpl. by repeat constructor.
      * left. split; [done|]. by exists (claimed_work t c), c.
  - by apply replay_checks.
  - by apply claimed_run_checks.
  - apply mutation_or_rollback_checks. split; [by eexists|].
    by apply (rolled_back m (claimed_work t c)).
Qed.
End claim.

(** ** Recording failures *)

Lemma metadata_ok n :
  mutation_ok (NormalizedLsm.mutation n) ->
  (exists md, FailureMetadata.normalized n = Ok md)
  /\ (forall p, exists md, FailureMetadata.published n p = Ok md)
  /\ (forall p c, exists md, FailureMetadata.compiled n p c = Ok md).
Proof.
  intros Hok. pose proof (mu_count _ Hok) as Hc.
  unfold FailureMetadata.compiled, FailureMetadata.published, FailureMetadata.normalized.
  destruct (Lsm.rows (NormalizedLsm.mutation n)); simpl in *; [lia|].
  split_and!; intros; by eexists.
Qed.

Lemma reject_checks md status code vd cd dd e m :
  (exists d, md = Ok d) -> current m = None -> recorded m = [] -> no_effect m ->
  e <> MutationExecuteError.Panic -> status_holds m status ->
  status = failure_status e -> code = recorded_code e ->
  checks (reject project config context md status code vd cd dd e) m concluded.
Proof.
  intros [d ->] Hc Hr Hno Hp Hst Hs Hco. unfold reject. apply monitored_try_lift; [|done].
  intros d' [= ->]. unfold record_failure. apply monitored_bind.
  mcall; cbn [observe observe_audit]; [by rewrite Hs in *; split_and!|..];
    (split; [done|]); (split; [done|]); (split; [done|]); right; simpl; rewrite Hr;
    (eexists; split; [done|]); (split; [by rewrite Hs in *|]); [by right|left; by eexists].
Qed.

Lemma idle_rejects md code vd cd dd e :
  (exists d, md = Ok d) -> ordinary e \/ (exists d, e = MutationExecuteError.PublishedModel d) ->
  failure_status e = "rejected" -> code = recorded_code e ->
  checks (reject project config context md "rejected" code vd cd dd e) idle concluded.
Proof.
  intros Hmd He Hs Hc. apply reject_checks; [done..|constructor| | |done|done].
  - intros ->. by destruct He as [[]|[d Hd]].
  - apply rejected_holds. by left.
Qed.

Lemma run_recorded_checks normalized published compiled vd cd :
  compiles input normalized published compiled ->
  checks (run_recorded project config context published normalized compiled vd cd) idle concluded.
Proof.
  intros Hcomp. unfold run_recorded.
  assert (Hok : mutation_ok (NormalizedLsm.mutation normalized)).
  { destruct Hcomp as [Hn _]. by apply normalize_lsm_ok in Hn as (_ & Hok & _). }
  destruct (metadata_ok normalized Hok) as (_ & _ & Hall). destruct (Hall published compiled) as [md Hmd].
  rewrite Hmd. eapply monitored_seq; [by apply (execute_compiled_checks _ _ _ Hcomp)|].
  intros m [q|e] (Hc & Hr & Hout); [by split|]. destruct Hout as [Hno [[-> Hu]|[He Hst]]].
  { split; [done|]. split; [done|]. split; [done|]. by left. }
  assert (Hdefault : checks (metadata ←? lift (Ok md);
      database_duration ← call Elapsed;
      reject project config context (Ok metadata) (failure_status e) (mutation_error_code e)
        vd cd database_duration e) m concluded).
  { apply monitored_try_lift; [|done]. intros md' [= <-]. mcalm.
    apply reject_checks; try done; [by eexists|..].
    - intros ->. by destruct He as [[]|[d Hd]].
    - destruct He as [He|[d ->]]; [by destruct e|done]. }
  destruct e; try exact Hdefault. by destruct He as [[]|[d Hd]].
Qed.

(** The audit connection, whose failure cannot be recorded. *)
Definition audit_opened (m : monitor) (r : Prelude.result MutationExecuteError unit) : Prop :=
  m = idle /\ match r with Ok _ => True | Err e => unrecorded idle e /\ ordinary e end.

Lemma connect_audit_checks : checks (connect_audit config) idle audit_opened.
Proof.
  unfold connect_audit. eapply (monitored_try _ _ _ _ _ audit_opened); [| |done].
  - apply monitored_last_attempt. eapply monitored_mono; [apply connect_quiet|].
    by intros m [[]|e] ->.
  - intros m [] [-> _]. apply monitored_last_attempt.
    eapply monitored_mono; [apply session_timeouts_quiet|]. by intros m [[]|e] ->.
Qed.

(** The connection of mutations: its errors are recorded as rejections. *)
Definition mutation_opened (m : monitor) (r : Prelude.result MutationExecuteError unit) : Prop :=
  m = idle /\ match r with
              | Ok _ => True
              | Err e => ordinary e /\ failure_status e = "rejected"
              end.

Lemma connect_mutation_checks : checks (connect_mutation config) idle mutation_opened.
Proof.
  unfold connect_mutation. eapply (monitored_try _ _ _ _ _ mutation_opened); [| |done].
  - apply monitored_last_attempt. eapply monitored_mono; [apply connect_quiet|].
    by intros m [[]|e] ->.
  - intros m [] [-> _]. apply monitored_last_attempt.
    eapply monitored_mono; [apply session_timeouts_quiet|]. by intros m [[]|e] ->.
Qed.

Lemma ordinary_code e : ordinary e -> mutation_error_code e = recorded_code e.
Proof. by destruct e. Qed.

(** Every request follows the protocol and concludes. *)
Lemma execute_concludes :
  checks (execute_with_cancel project config context input) idle concluded.
Proof.
  unfold execute_with_cancel. eapply monitored_try; [apply connect_audit_checks| |].
  2: { intros m' e [-> [Hu Ho]]. split; [done|]. split; [by intros ->|]. split; [constructor|].
       by left. }
  intros m' [] [-> _]. destruct (normalize_lsm _ _ input) as [normalized|e] eqn:Hn.
  2: { mcalm. apply idle_rejects; [by eexists|by left|done..]. }
  destruct (normalize_lsm_ok _ _ _ _ Hn) as (_ & Hok & _).
  destruct (metadata_ok normalized Hok) as (Hmn & Hmp & Hmc). mcalm.
  eapply monitored_seq; [apply connect_mutation_checks|]. intros m' [[]|e] [-> He].
  2: { destruct He as [Ho Hs]. apply idle_rejects; [done|by left|done|by apply ordinary_code]. }
  apply monitored_quiet; [by apply load_unmoved|]. intros [published|e].
  2: { by apply idle_rejects; [|right; eexists|..]. }
  destruct (compile_lsm _ _ _ _) as [compiled|[e|]] eqn:Hc.
  - mcalm. mcalm. match goal with go_on : bool |- _ => destruct go_on end.
    + by apply run_recorded_checks.
    + apply idle_rejects; [by apply Hmc|by left|done..].
  - mcalm. apply idle_rejects; [by apply Hmp|by left|done..].
  - exfalso. by apply (compile_lsm_no_panic _ _ _ _ Hok) in Hc.
Qed.
End checks.

(** ** At most one statement *)

(** The statement was sent: in the write transaction that is open, or in one that
    is over, in which case only read-only transactions are opened. *)
Definition spent (m : monitor) : Prop :=
  (exists w, current m = Some w /\ ran w = true /\ read_only (guard w) = false)
  \/ (ended m <> [] /\ forall w, current m = Some w -> read_only (guard w) = true).

Lemma spent_on_work f m :
  (forall w, read_only (guard (f w)) = read_only (guard w)) ->
  (forall w, ran w = true -> ran (f w) = true) -> spent m -> spent (on_work f m).
Proof.
  intros Hro Hran [(w & Hw & Hr & Ho)|[He Hc]]; unfold spent, on_work.
  - left. rewrite Hw. simpl. exists (f w). rewrite Hro. auto.
  - right. destruct (current m) as [w|] eqn:Hw; simpl; [|by rewrite Hw].
    split; [done|]. intros w' [= <-]. rewrite Hro. by apply Hc.
Qed.

Lemma spent_close e m : spent m -> spent (close e m).
Proof.
  intros Hs. right. unfold close. destruct Hs as [(w & Hw & _ & Ho)|[He Hc]].
  - rewrite Hw, Ho. simpl. split; [by destruct (ended m)|done].
  - destruct (current m) as [w|] eqn:Hw; simpl; [|by rewrite Hw].
    split; [by rewrite (Hc w eq_refl)|done].
Qed.

Section once.
Context `{HC : Crates, HM : ModelParsers, HD : Driver, HL : LsmParser}.
Context (input project : string) (config : MutationExecutorConfig) (context : ExecutionContext).

Lemma spent_observe m op r :
  allowed input project config context m op -> spent m -> spent (observe m op r).
Proof.
  assert (Hsession : forall o (a : answer o), spent m ->
    spent (on_work (fun w => set_guard (observe_session (guard w) o a) w) m)).
  { intros o a. apply spent_on_work; [intros w; apply observe_session_read_only|done]. }
  intros Hall Hs. destruct op as [| |[] l ro|[]|[]|c s|c s|[] s|c sql|[] sql ps| |];
    cbn [observe]; try (by apply Hsession); try (by apply spent_close).
  - destruct r as [[]|e]; [|done]. destruct Hall as (_ & Hn & Hro). right.
    destruct Hs as [(w & Hw & _)|[He _]]; [congruence|]. split; [done|].
    intros w [= <-]. by destruct Hro as [->|Hro].
  - case_statement s; cbn [observe_source];
      try exact (Hsession (QueryOne Source _) r Hs);
      (destruct r; [by apply spent_on_work|done]).
  - by case_statement s.
  - by apply spent_on_work.
Qed.

Lemma spent_refuses m c sql parameters :
  spent m -> ~ allowed input project config context m (QueryRaw c sql parameters).
Proof.
  intros Hs [_ (n & p & d & w & cl & _ & Hw & [Hro _] & _ & _ & Hran & _)].
  destruct Hs as [(w' & Hw' & Hr & _)|[_ Hc]]; [congruence|].
  rewrite (Hc w Hw) in Hro. done.
Qed.

Lemma sent_is_spent m c sql parameters r :
  allowed input project config context m (QueryRaw c sql parameters) ->
  spent (observe m (QueryRaw c sql parameters) r).
Proof.
  intros [-> (n & p & d & w & cl & _ & Hw & [Hro _] & _)]. left.
  cbn [observe]. unfold on_work. rewrite Hw. by eexists.
Qed.

Lemma spent_accepts tr : forall m, spent m ->
  accepts (allowed input project config context) observe m tr ->
  Forall (fun e => forall c sql parameters, ev_op e <> QueryRaw c sql parameters) tr.
Proof.
  induction tr as [|e tr IH]; intros m Hs; [constructor|]. intros [Ha Htr]. constructor.
  - intros c sql parameters He. rewrite He in Ha. by apply spent_refuses in Ha.
  - eapply IH; [|exact Htr]. by apply spent_observe.
Qed.

(** No two statements in one request, whatever transactions it opens. *)
Lemma statement_sent_once m tr i j c sql parameters c' sql' parameters'
    (a : answer (QueryRaw c sql parameters)) (a' : answer (QueryRaw c' sql' parameters')) :
  accepts (allowed input project config context) observe m tr ->
  tr !! i = Some (Ev (QueryRaw c sql parameters) a) ->
  tr !! j = Some (Ev (QueryRaw c' sql' parameters') a') -> ~ i < j.
Proof.
  intros Hacc Hi Hj Hij. rewrite <- (take_drop_middle _ _ _ Hi), accepts_app in Hacc.
  destruct Hacc as [_ [Ha Hrest]].
  apply spent_accepts in Hrest; [|by apply sent_is_spent].
  assert (Hd : drop (S i) tr !! (j - S i) = Some (Ev (QueryRaw c' sql' parameters') a')).
  { rewrite lookup_drop, <- Hj. f_equal. lia. }
  by apply (Forall_lookup_1 _ _ _ _ Hrest Hd c' sql' parameters').
Qed.
End once.
