(* ===== verification/ExecutorFixtures.v ===== *)
(** * A database to run the executors against

    Instances of the driver and the deserialisers, the stored rows of a small
    published model with a write policy, and an environment that answers every
    call of a request, parameterised by what the source statement returns and
    by what a claim finds. *)

From S2P Require Import Prelude Ordered Text Json Lsq Semantic Compiler Lsm Mutation Fixtures.
From S2P Require Import Effects Database PublishedModel Executor MutationExecutor.

(** ** Driver and deserialisers *)

#[global] Instance sample_driver : Driver := {|
  parse_config conninfo :=
    Ok (Config.mk conninfo None Require None None true (from_secs 7200) None None);
|}.

#[global] Instance sample_parsers : ModelParsers := {|
  expression_from_str s :=
    if decide (s = "sum(amount)")
    then Ok (AggregationExpression.mk "1" AggregationExpression.Aggregation Aggregation.Sum
               "amount")
    else Err "expression";
  filter_from_str _ := Err "filter";
|}.

(** ** The published model *)

Definition total : Metric :=
  {| Metric.semantic_name := "total"; Metric.data_type := DataType.Numeric;
     Metric.aggregation := Aggregation.Sum; Metric.field := "amount"; Metric.filter := None;
     Metric.additivity := Some Additivity.Additive; Metric.aggregation_anchor := None;
     Metric.visible := true |}.

Definition sales_policy : WritableModel :=
  {| WritableModel.insert := true; WritableModel.upsert := None;
     WritableModel.max_rows := 10; WritableModel.max_request_bytes := 4096;
     WritableModel.fields := [WritableField.mk "amount" true true false];
     WritableModel.returning := ["sale_id"] |}.

Definition sales : Model :=
  {| Model.semantic_name := "sales"; Model.source := Relation.mk "shop" "sale";
     Model.timezone := None; Model.queryable := true; Model.writable := Some sales_policy;
     Model.fields := [plain_field "amount" DataType.Numeric; key_field "sale_id"];
     Model.metrics := [total]; Model.relationships := [] |}.

Definition shop : SemanticSnapshot :=
  seal {| Snapshot.schema_version := "2"; Snapshot.revision_hash := EmptyString;
          Snapshot.models := [sales] |}.

Definition shop_revision : RevisionRow.t :=
  RevisionRow.mk "revision-1" "2" (Snapshot.revision_hash shop).
Definition shop_models : list ModelRow.t :=
  [ModelRow.mk "m1" "sales" "app" "app" "shop" "sale" None true].
Definition shop_fields : list FieldRow.t :=
  [FieldRow.mk "m1" "amount" "dimension" "numeric" (Some "amount") None None None None false true;
   FieldRow.mk "m1" "sale_id" "entity_key" "integer" (Some "sale_id") None None None None
     false false].
Definition shop_metrics : list MetricRow.t :=
  [MetricRow.mk "m1" "total" "numeric" "sum(amount)" None "additive" None false].
Definition shop_mutation_models : list MutationModelRow.t :=
  [MutationModelRow.mk "m1" true false 10 4096].
Definition shop_mutation_fields : list MutationFieldRow.t :=
  [MutationFieldRow.mk "m1" "amount" true true false None None;
   MutationFieldRow.mk "m1" "sale_id" false false false None (Some 1%Z)].

(** ** Answers *)

Section answers.
Context (source : row_stream) (claim : Claim).

Definition no_role : RoleContextRow.t := RoleContextRow.mk true false false ["reader"] ["reader"].

Definition one_row (s : statement) : row_of s :=
  match s as s0 return row_of s0 with
  | SET_CONFIG _ _ _ => tt
  | ROLE_SQL _ => RoleRow.mk false false false true
  | RELATION_OWNER_SQL _ _ _ => false
  | TARGET_RELATION_SQL _ _ _ => (false, "r")
  | REVISION_SQL _ => shop_revision
  | MODELS_SQL _ => ModelRow.mk "" "" "" "" "" "" None false
  | FIELDS_SQL _ => FieldRow.mk "" "" "" "" None None None None None false false
  | AGGREGATION_ANCHOR_SCHEMA_AVAILABLE_SQL => true
  | METRICS_SQL _ => MetricRow.mk "" "" "" "" None "" None false
  | LEGACY_METRICS_SQL _ => MetricRow.mk "" "" "" "" None "" None false
  | RELATIONSHIPS_SQL _ => RelationshipRow.mk "" "" "" "" "" "" "" "" 0 None None None
  | MUTATION_SCHEMA_AVAILABLE_SQL => true
  | MUTATION_MODELS_SQL _ => MutationModelRow.mk "" false false 0 0
  | MUTATION_FIELDS_SQL _ => MutationFieldRow.mk "" "" false false false None None
  | MUTATION_CAPABILITIES_SQL _ _ => "sales"
  | START_QUERY_AUDIT _ => "query-1"
  | FINISH_QUERY_AUDIT _ => tt
  | CLAIM_MUTATION _ => claim
  | FINISH_MUTATION _ => tt
  | RECORD_MUTATION_FAILURE _ => "failure-1"
  | LOOKUP_IDEMPOTENCY _ => None
  | METADATA_SQL => MetadataRow.mk 160000 "shop" "reader"
  | ROLE_CONTEXT_SQL => no_role
  | ROLE_GRAPH_SQL => RoleGraphRow.mk "" false false false None None None None None
  | OBJECT_PRIVILEGES_SQL => ObjectPrivilegeRow.mk "" "" "" "" "" None None None None
  | FUNCTION_GRANTS_SQL => FunctionGrantRow.mk 0 "" None false
  | FUNCTIONS_SQL => FunctionRow.mk 0 "" "" "" None "" false "" no_role
  | COLUMNS_SQL => ColumnRow.mk "" "" "" 0 "" false None false
  | CONSTRAINTS_SQL =>
      ConstraintRow.mk "" "" "" "" [] None None [] [] None false false false false false false false
        None None None
  | POLICIES_SQL => PolicyRow.mk "" "" "" "" false [] None None
  | RELATIONS_SQL =>
      RelationRow.mk "" "" "" "" no_role None None None None false false false false false
  | OPERATIONAL_REPORT _ _ => Some (JArr [])
  end.

Definition all_rows (s : statement) : list (row_of s) :=
  match s as s0 return list (row_of s0) with
  | MODELS_SQL _ => shop_models
  | FIELDS_SQL _ => shop_fields
  | METRICS_SQL _ => shop_metrics
  | RELATIONSHIPS_SQL _ => []
  | MUTATION_MODELS_SQL _ => shop_mutation_models
  | MUTATION_FIELDS_SQL _ => shop_mutation_fields
  | MUTATION_CAPABILITIES_SQL _ _ => ["sales"]
  | _ => []
  end.

(** Every call succeeds; the clock shows a millisecond at every reading. *)
Definition respond (op : operation) : answer op :=
  match op as op0 return answer op0 with
  | TlsConnectorNew => Ok tt
  | Connect _ _ => Ok tt
  | Begin _ _ _ => Ok tt
  | Commit _ => Ok tt
  | Rollback _ => tt
  | Query _ s => Ok (all_rows s)
  | QueryOpt _ s => Ok (Some (one_row s))
  | QueryOne _ s => Ok (one_row s)
  | BatchExecute _ _ => Ok tt
  | QueryRaw _ _ _ => Ok source
  | OnCancelHandle => true
  | Elapsed => from_millis 1
  end.

Definition run {A} (p : io A) : list (event answer) * A :=
  execute_with (fun (_ : unit) op => (respond op, tt)) tt p.

Lemma run_runs {A} (p : io A) : runs p (run p).1 (run p).2.
Proof. apply execute_with_runs. Qed.
End answers.

(** ** Requests *)

Definition total_sales : LogicalSemanticQuery :=
  {| Lsq.schema_version := "1"; Lsq.model := "sales"; Lsq.dimensions := [];
     Lsq.metrics := [MetricReference.mk "total"]; Lsq.filters := None; Lsq.order_by := [];
     Lsq.limit := Some 10%N |}.

#[global] Instance sample_lsq_parser : LsqParser := {| lsq_from_slice _ := Ok total_sales |}.

Definition add_sale : LogicalSemanticMutation :=
  {| Lsm.schema_version := "1"; Lsm.operation := MutationOperation.Insert; Lsm.model := "sales";
     Lsm.idempotency_key := "sale-1";
     Lsm.rows := [[("amount", MutationValue.Numeric "12.50")]] |}.

#[global] Instance sample_lsm_parser : LsmParser := {|
  lsm_parse _ := Ok visit_unit;
  lsm_from_value _ := Ok add_sale;
|}.

Definition analyst_config : ExecutorConfig :=
  ExecutorConfig.mk "postgresql://runtime" "DATABASE_URL" None "postgresql://audit"
    "AUDIT_DATABASE_URL" None "analyst" 256 (from_millis 30000) (from_millis 5000)
    (from_millis 5000).

Definition writer_config : MutationExecutorConfig :=
  MutationExecutorConfig.mk "postgresql://writer" "DATABASE_URL" None "postgresql://audit"
    "AUDIT_DATABASE_URL" None "writer" 256 (from_millis 30000) (from_millis 5000)
    (from_millis 5000).

Definition someone : ExecutionContext := ExecutionContext.mk "subject" "profile" "authority".

(** One returned row, a claim to execute. *)
Definition one_sale : row_stream := Row (JArr [JStr "12.50"]) Done.
Definition fresh_claim : Claim := Claim.mk "execute" "mutation-1" (Some "attempt-1") None None.

Definition query_run : list (event answer) * Prelude.result ExecuteError QueryResult :=
  run one_sale fresh_claim (Executor.execute_with_cancel "request" "shop" analyst_config someone).

(** The source statement of that run. *)
Definition sent : operation :=
  match query_run.1 !! 34 with Some e => ev_op e | None => Elapsed end.
Definition sent_sql : string := match sent with QueryRaw _ sql _ => sql | _ => EmptyString end.
Definition sent_parameters : list (option string) :=
  match sent with QueryRaw _ _ parameters => parameters | _ => [] end.

Lemma source_sent :
  query_run.1 !! 34 = Some (Ev (QueryRaw Source sent_sql sent_parameters) (Ok one_sale)).
Proof. vm_compute. reflexivity. Qed.

(** A mutation that is executed, one that is replayed, and one whose statement
    returns no row. *)
Definition replay_claim : Claim :=
  Claim.mk "replay" "mutation-1" None (Some 1%Z) (Some (JArr [JArr [JInt 7]])).

Definition mutation_run (source : row_stream) (claim : Claim)
    : list (event answer) * Prelude.result MutationExecuteError MutationResult :=
  run source claim (MutationExecutor.execute_with_cancel "shop" writer_config someone "request").

(** The events of such a run by position. *)
Definition executed_run := mutation_run one_sale fresh_claim.
Definition empty_run := mutation_run Done fresh_claim.

Definition mutation_sent : operation :=
  match executed_run.1 !! 35 with Some e => ev_op e | None => Elapsed end.
Definition mutation_sql : string :=
  match mutation_sent with QueryRaw _ sql _ => sql | _ => EmptyString end.
Definition mutation_parameters : list (option string) :=
  match mutation_sent with QueryRaw _ _ parameters => parameters | _ => [] end.

Lemma mutation_statement_sent :
  executed_run.1 !! 35 = Some (Ev (QueryRaw Source mutation_sql mutation_parameters) (Ok one_sale)).
Proof. vm_compute. reflexivity. Qed.

Lemma failure_record_sent : exists f,
  empty_run.1 !! 38 = Some (Ev (QueryOne Audit (RECORD_MUTATION_FAILURE f)) (Ok "failure-1"))
  /\ rf_status f = "rolled_back".
Proof. eexists. split; vm_compute; reflexivity. Qed.
