(* ===== verification/PublishedModelTheorems.v ===== *)
(** * Correctness of the published model loader

    Every run of the loader reads one revision in one read-only transaction,
    and what it returns is exactly what the rows it read store. *)

From S2P Require Import Prelude Ordered Text Json Lsq Semantic SemanticSpec Compiler Lsm.
From S2P Require Import Mutation CompilerTheorems Fixtures Effects Database PublishedModel.
From S2P Require Import PublishedModelSpec Executor MutationExecutor ExecutorFixtures.

(** ** The monitor *)

Inductive phase : Type := Unopened | Open | Closed.

(** The rows read so far. *)
Record reading : Type := {
  at_phase : phase;
  revision : option RevisionRow.t;
  model_rows : list ModelRow.t;
  field_rows : list FieldRow.t;
  metric_rows : list MetricRow.t;
  relationship_rows : list RelationshipRow.t;
  policy_rows : list MutationModelRow.t;
  policy_field_rows : list MutationFieldRow.t;
  capability_rows : list string;
}.

Definition unread : reading :=
  {| at_phase := Unopened; revision := None; model_rows := []; field_rows := [];
     metric_rows := []; relationship_rows := []; policy_rows := []; policy_field_rows := [];
     capability_rows := [] |}.

Definition set_phase (p : phase) (m : reading) : reading :=
  Build_reading p (revision m) (model_rows m) (field_rows m) (metric_rows m)
    (relationship_rows m) (policy_rows m) (policy_field_rows m) (capability_rows m).
Definition set_revision (r : option RevisionRow.t) (m : reading) : reading :=
  Build_reading (at_phase m) r (model_rows m) (field_rows m) (metric_rows m)
    (relationship_rows m) (policy_rows m) (policy_field_rows m) (capability_rows m).

Definition observe_rows (m : reading) (s : statement) : list (row_of s) -> reading :=
  match s as s0 return list (row_of s0) -> reading with
  | MODELS_SQL _ => fun l =>
      Build_reading (at_phase m) (revision m) l (field_rows m) (metric_rows m)
        (relationship_rows m) (policy_rows m) (policy_field_rows m) (capability_rows m)
  | FIELDS_SQL _ => fun l =>
      Build_reading (at_phase m) (revision m) (model_rows m) l (metric_rows m)
        (relationship_rows m) (policy_rows m) (policy_field_rows m) (capability_rows m)
  | METRICS_SQL _ | LEGACY_METRICS_SQL _ => fun l =>
      Build_reading (at_phase m) (revision m) (model_rows m) (field_rows m) l
        (relationship_rows m) (policy_rows m) (policy_field_rows m) (capability_rows m)
  | RELATIONSHIPS_SQL _ => fun l =>
      Build_reading (at_phase m) (revision m) (model_rows m) (field_rows m) (metric_rows m)
        l (policy_rows m) (policy_field_rows m) (capability_rows m)
  | MUTATION_MODELS_SQL _ => fun l =>
      Build_reading (at_phase m) (revision m) (model_rows m) (field_rows m) (metric_rows m)
        (relationship_rows m) l (policy_field_rows m) (capability_rows m)
  | MUTATION_FIELDS_SQL _ => fun l =>
      Build_reading (at_phase m) (revision m) (model_rows m) (field_rows m) (metric_rows m)
        (relationship_rows m) (policy_rows m) l (capability_rows m)
  | MUTATION_CAPABILITIES_SQL _ _ => fun l =>
      Build_reading (at_phase m) (revision m) (model_rows m) (field_rows m) (metric_rows m)
        (relationship_rows m) (policy_rows m) (policy_field_rows m) l
  | _ => fun _ => m
  end.

Definition observe_revision (m : reading) (s : statement) : option (row_of s) -> reading :=
  match s as s0 return option (row_of s0) -> reading with
  | REVISION_SQL _ => fun r => set_revision r m
  | _ => fun _ => m
  end.

Definition observe_read (m : reading) (op : operation) : answer op -> reading :=
  match op as op0 return answer op0 -> reading with
  | Begin _ _ _ => fun r => match r with Ok _ => set_phase Open m | Err _ => m end
  | Commit _ | Rollback _ => fun _ => set_phase Closed m
  | Query _ s => fun r => match r with Ok l => observe_rows m s l | Err _ => m end
  | QueryOpt _ s => fun r => match r with Ok o => observe_revision m s o | Err _ => m end
  | _ => fun _ => m
  end.

(** One read-only transaction with a fixed view; the revision is looked up by
    project, everything else by the revision that was found. *)
Definition read_allowed (project : string) (role : option string) (m : reading) (op : operation)
    : Prop :=
  match op with
  | Begin c iso ro =>
      c = Source /\ at_phase m = Unopened /\ iso = Some RepeatableRead /\ ro = true
  | Commit c | Rollback c => c = Source /\ at_phase m = Open
  | QueryOpt c (REVISION_SQL p) => c = Source /\ at_phase m = Open /\ p = project
  | QueryOne c (AGGREGATION_ANCHOR_SCHEMA_AVAILABLE_SQL | MUTATION_SCHEMA_AVAILABLE_SQL) =>
      c = Source /\ at_phase m = Open
  | Query c (MODELS_SQL id | FIELDS_SQL id | METRICS_SQL id | LEGACY_METRICS_SQL id
             | RELATIONSHIPS_SQL id | MUTATION_MODELS_SQL id | MUTATION_FIELDS_SQL id) =>
      c = Source /\ at_phase m = Open /\ Some id = RevisionRow.revision_id <$> revision m
  | Query c (MUTATION_CAPABILITIES_SQL id r) =>
      c = Source /\ at_phase m = Open /\ Some id = RevisionRow.revision_id <$> revision m
      /\ Some r = role
  | _ => False
  end.

(** ** The contents *)

Section contents.
Context `{HC : Crates, HM : ModelParsers}.

Definition policy_installed (model : Model) (rows : list MutationModelRow.t)
    (own : list MutationFieldRow.t) : Prop :=
  match rows with
  | [] => Model.writable model = None /\ own = []
  | [row] => exists w, Model.writable model = Some w /\ policy_stored (Model.fields model) row own w
  | _ => False
  end.

(** A model is what its rows store, in the order of the rows. *)
Record model_stored (version : string) (m : reading) (row : ModelRow.t) (model : Model) : Prop := {
  st_name : Model.semantic_name model = ModelRow.semantic_name row;
  st_source : Model.source model
    = Relation.mk (ModelRow.source_schema row) (ModelRow.source_relation row);
  st_timezone : Model.timezone model = ModelRow.default_timezone row;
  st_queryable : Model.queryable model = ModelRow.queryable row;
  st_fields : Forall2 field_stored
    (rows_of FieldRow.model_id (ModelRow.model_id row) (field_rows m)) (Model.fields model);
  st_metrics : Forall2 (metric_stored version)
    (rows_of MetricRow.model_id (ModelRow.model_id row) (metric_rows m)) (Model.metrics model);
  st_relationships : Forall2 relationship_stored
    (rows_of RelationshipRow.from_model_id (ModelRow.model_id row) (relationship_rows m))
    (Model.relationships model);
  st_policy : policy_installed model
    (rows_of MutationModelRow.model_id (ModelRow.model_id row) (policy_rows m))
    (rows_of MutationFieldRow.model_id (ModelRow.model_id row) (policy_field_rows m));
}.

(** No row that belongs to a model refers to an unknown one. *)
Definition no_orphans (m : reading) (id : string) : Prop :=
  rows_of FieldRow.model_id id (field_rows m) = []
  /\ rows_of MetricRow.model_id id (metric_rows m) = []
  /\ rows_of RelationshipRow.from_model_id id (relationship_rows m) = [].

Definition models_stored (version : string) (m : reading) (models : Models) : Prop :=
  bt_wf models
  /\ Forall (fun row => ModelRow.source_database row = ModelRow.current_database row) (model_rows m)
  /\ forall id,
       match last (rows_of ModelRow.model_id id (model_rows m)) with
       | Some row => exists model, bt_get id models = Some model /\ model_stored version m row model
       | None => bt_get id models = None /\ no_orphans m id
       end.

(** The snapshot is canonical, has the hash recorded with the revision, and
    holds the stored models. *)
Definition snapshot_stored (m : reading) (row : RevisionRow.t) (snapshot : SemanticSnapshot) : Prop :=
  let version := RevisionRow.schema_version row in
  (version = "1" \/ version = "2")
  /\ calculate_revision_hash snapshot = Ok (RevisionRow.canonical_hash row)
  /\ exists models, models_stored version m models
       /\ snapshot = normalized {| Snapshot.schema_version := version;
                                   Snapshot.revision_hash := RevisionRow.canonical_hash row;
                                   Snapshot.models := map snd models |}.

Definition loaded (project : string) (m : reading)
    (r : Prelude.result PublishedModelError (PublishedModel * list string)) : Prop :=
  match r with
  | Ok (published, writable) =>
      at_phase m = Closed
      /\ PublishedModel.project published = project
      /\ (exists row, revision m = Some row
            /\ PublishedModel.revision_id published = RevisionRow.revision_id row
            /\ snapshot_stored m row (PublishedModel.snapshot published))
      /\ writable = bs_from_list (capability_rows m)
  | Err _ => at_phase m <> Open
  end.

(** ** The loops together *)

Lemma models_rebuilt version m ms1 ms2 ms3 ms4 ms5 :
  load_models (model_rows m) = Ok ms1 ->
  load_fields (field_rows m) ms1 = Ok ms2 ->
  load_metrics (metric_rows m) ms2 version = Ok ms3 ->
  load_relationships (relationship_rows m) ms3 = Ok ms4 ->
  load_writable_models (policy_rows m) (policy_field_rows m) ms4 = Ok ms5 ->
  models_stored version m ms5.
Proof.
  intros (Hwf & Hdb & H1)%load_models_ok [Hwf2 H2]%load_fields_ok [Hwf3 H3]%load_metrics_ok
    [Hwf4 H4]%load_relationships_ok [Hwf5 H5]%load_writable_models_ok.
  split_and!; [auto|done|]. intros id.
  specialize (H1 id); specialize (H2 id); specialize (H3 id); specialize (H4 id);
    specialize (H5 id).
  destruct (last (rows_of ModelRow.model_id id (model_rows m))) as [row|] eqn:Hrow; simpl in H1.
  - rewrite H1 in H2. destruct H2 as (m2 & Hm2 & fs & Hfs & ->). rewrite push_fields in Hm2.
    rewrite Hm2 in H3. destruct H3 as (m3 & Hm3 & xs & Hxs & ->). rewrite push_metrics in Hm3.
    rewrite Hm3 in H4. destruct H4 as (m4 & Hm4 & rs & Hrs & ->). rewrite push_relationships in Hm4.
    rewrite Hm4 in H5. destruct H5 as (m5 & Hm5 & Hpolicy). exists m5. split; [done|].
    assert (Hid : ModelRow.model_id row = id).
    { apply last_Some_elem_of in Hrow. by apply list_elem_of_filter in Hrow as [? _]. }
    unfold policy_added in Hpolicy.
    destruct (rows_of MutationModelRow.model_id id (policy_rows m)) as [|prow [|]] eqn:Hp; [| |done].
    + destruct Hpolicy as [-> Hown]. constructor; rewrite ?Hid; try done. rewrite Hp. by split.
    + destruct Hpolicy as (w & -> & Hw).
      constructor; rewrite ?Hid; try done. rewrite Hp. by exists w.
  - rewrite H1 in H2. destruct H2 as [Hn2 ?]. rewrite Hn2 in H3. destruct H3 as [Hn3 ?].
    rewrite Hn3 in H4. destruct H4 as [Hn4 ?]. by rewrite Hn4 in H5.
Qed.
End contents.

(** ** The transaction *)

Section load.
Context `{HC : Crates, HM : ModelParsers}.
Context (project : string) (role : option string).

Abbreviation reads p m Q := (monitored (read_allowed project role) observe_read p m Q).

(** While the transaction is open. *)
Definition read_so_far (m : reading)
    (r : Prelude.result PublishedModelError (PublishedModel * list string)) : Prop :=
  at_phase m = Open
  /\ match r with
     | Ok x => loaded project (set_phase Closed m) (Ok x)
     | Err _ => True
     end.

Lemma metric_rows_read version id m :
  at_phase m = Open -> Some id = RevisionRow.revision_id <$> revision m ->
  reads (load_metric_rows Source version id) m
    (fun m' r => match r with
                 | Ok l => m' = observe_rows m (METRICS_SQL id) l
                 | Err _ => at_phase m' = Open
                 end).
Proof.
  intros Ho Hid. unfold load_metric_rows. mcall; [done| |done].
  apply monitored_try_lift; [intros _ _|done].
  match goal with |- context [if ?b then _ else _] => destruct b end; by mcall.
Qed.

(** The policies of models, and what the role may write. *)
Definition metadata_read (m : reading) (ms : Models) (m' : reading)
    (r : Prelude.result PublishedModelError (Models * list string)) : Prop :=
  match r with
  | Ok (ms', names) =>
      m' = Build_reading Open (revision m) (model_rows m) (field_rows m) (metric_rows m)
             (relationship_rows m) (policy_rows m') (policy_field_rows m') (capability_rows m')
      /\ load_writable_models (policy_rows m') (policy_field_rows m') ms = Ok ms'
      /\ names = bs_from_list (capability_rows m')
  | Err _ => at_phase m' = Open
  end.

Lemma mutation_metadata_read id ms m :
  at_phase m = Open -> Some id = RevisionRow.revision_id <$> revision m ->
  policy_rows m = [] -> policy_field_rows m = [] -> capability_rows m = [] ->
  reads (load_mutation_metadata Source id role ms) m (metadata_read m ms).
Proof.
  destruct m as [ph rev mr fr xr rr pr pfr cr].
  cbn [at_phase revision policy_rows policy_field_rows capability_rows]. intros -> Hid -> -> ->.
  unfold load_mutation_metadata. mcall; [done| |done].
  match goal with b : row_of MUTATION_SCHEMA_AVAILABLE_SQL |- _ => destruct b end; [|done].
  apply monitored_bind. mcall; [done| |done]. mcall; [done| |done].
  msimpl. match goal with |- context [load_writable_models ?a ?b ms] =>
    destruct (load_writable_models a b ms) eqn:Hw end; [|done].
  destruct role as [r|] eqn:Hr; [|done]. split; [done|]. by intros [names|].
Qed.

Lemma read_published_reads :
  reads (read_published Source project role) (set_phase Open unread) read_so_far.
Proof.
  unfold read_published.
  mcall; [done| |done]. apply monitored_try_lift; [intros row ->%ok_or_ok|done].
  apply monitored_try_lift; [intros [] Hversion%fail_if_ok|done].
  mcall; [done| |done]. apply monitored_try_lift; [intros ms1 H1|done].
  mcall; [done| |done]. apply monitored_try_lift; [intros ms2 H2|done].
  eapply monitored_try; [by apply metric_rows_read|simpl; intros m' xr ->|done].
  apply monitored_try_lift; [intros ms3 H3|done].
  mcall; [done| |done]. apply monitored_try_lift; [intros ms4 H4|done].
  eapply monitored_try; [by apply mutation_metadata_read|simpl|done].
  intros m' [ms5 names] (Hm' & H5 & ->). apply monitored_try_lift; [|by rewrite Hm'].
  unfold verify_hash. intros [] Hhash. unbind. rewrite Hm'. split; [done|].
  split_and!; [done|done| |done]. exists row. split_and!; [done|done|].
  split_and!.
  - by rewrite orb_true_iff, !bool_decide_eq_true in Hversion.
  - match goal with H : ~ (_ <> _) |- _ => apply dec_stable in H; by subst end.
  - exists ms5. split; [|done].
    eapply (models_rebuilt _ (set_phase Closed _)); [exact H1|exact H2|exact H3|exact H4|exact H5].
Qed.

Lemma load_published_reads :
  reads (load_published_internal Source project role) unread (loaded project).
Proof.
  unfold load_published_internal. mcall; [done| |done].
  eapply (monitored_try _ _ _ _ _
    (fun m r => match r with Ok _ => read_so_far m r | Err _ => at_phase m = Closed end)).
  - unfold or_rollback. eapply monitored_seq; [exact read_published_reads|].
    intros m [x|e] [Ho Hx]; [by split|]. by mcall.
  - intros m x [Ho Hx]. mcall; [done| |].
    + destruct x. exact Hx.
    + done.
  - intros m e Hm. simpl. by rewrite Hm.
Qed.
End load.

(** C12: loading reads one revision consistently and returns exactly what is
    stored, whatever the environment answers.  All calls are inside one
    read-only, repeatable-read transaction on the source, which is closed at the
    end: the revision is looked up by the project and every other row by the
    revision found.  On success the snapshot is in canonical order, has the
    revision hash recorded with the revision, and holds exactly the models,
    fields, metrics, relationships and write policies that the rows store, with
    no row left out and none attached to an unknown model. *)
Theorem published_model_is_exact `{HC : Crates, HM : ModelParsers} project role tr r :
  runs (load_published_internal Source project role) tr r ->
  accepts (read_allowed project role) observe_read unread tr
  /\ loaded project (watch observe_read unread tr) r.
Proof. intros Hrun. exact (monitored_runs _ _ _ _ _ _ _ (load_published_reads project role) Hrun). Qed.

Definition shop_load :=
  run one_sale fresh_claim (load_published_internal Source "shop" (Some "writer")).

Lemma published_model_is_exact_witness :
  is_ok shop_load.2 = true
  /\ loaded "shop" (watch observe_read unread shop_load.1) shop_load.2
  /\ length (field_rows (watch observe_read unread shop_load.1)) = 2.
Proof.
  split_and!; [vm_compute; reflexivity| |vm_compute; reflexivity].
  exact (proj2 (published_model_is_exact "shop" (Some "writer") _ _ (run_runs _ _ _))).
Defined.

(** What is loaded can be compiled against: every snapshot that the loader
    returns passes the compiler's integrity check, and is in canonical order. *)
Theorem loaded_model_is_sealed `{HC : Crates} {HO : CratesOk} `{HM : ModelParsers}
    project role tr published writable :
  runs (load_published_internal Source project role) tr (Ok (published, writable)) ->
  check_snapshot (PublishedModel.snapshot published) = Ok tt
  /\ normalized (PublishedModel.snapshot published) = PublishedModel.snapshot published.
Proof.
  intros Hrun.
  destruct (monitored_runs _ _ _ _ _ _ _ (load_published_reads project role) Hrun)
    as [_ (_ & _ & (row & _ & _ & Hv & Hh & models & _ & Hs) & _)].
  rewrite Hs. split; [|apply normalized_idemp]. apply check_snapshot_spec. rewrite <- Hs, Hh, Hs.
  done.
Qed.

Lemma loaded_model_is_sealed_witness : exists published writable,
  shop_load.2 = Ok (published, writable)
  /\ check_snapshot (PublishedModel.snapshot published) = Ok tt.
Proof.
  destruct (is_ok_true shop_load.2) as [[published writable] Hload]; [vm_compute; reflexivity|].
  exists published, writable. split; [exact Hload|].
  refine (proj1 (loaded_model_is_sealed "shop" (Some "writer") shop_load.1 published writable _)).
  rewrite <- Hload. exact (run_runs _ _ _).
Defined.
