(* ===== verification/ExecutorTheorems.v ===== *)
(** * Correctness of the query executor

    The theorems about every run of [execute_with_cancel], whatever the
    database, the clock and the caller answer. *)

From S2P Require Import Prelude Ordered Text Json Lsq LsqSpec Semantic Compiler Lsm Mutation.
From S2P Require Import CompilerSpec CompilerSql CompilerTheorems Fixtures Effects Database.
From S2P Require Import PublishedModel PublishedModelSpec Executor ExecutorSpec Sessions.
From S2P Require Import ExecutorFixtures.

(** ** Guards and audit records *)

(** C3: the source statement of a query runs under guard, whatever the
    environment answers.  When it is sent, the request has been recorded as
    started and not yet as finished; a read-only transaction is open on the
    source, in which the login was found to be a member of the configured role,
    that role to have no superuser or row-security bypass, own or inherited, and
    to own none of the relations of the models in the query's lineage; the role
    was assumed and search path, time zone and timeouts were set; and the text
    and parameters are those of the compiled request. *)
Theorem source_statement_is_guarded `{HC : Crates, HM : ModelParsers, HD : Driver, HL : LsqParser}
    input project config context tr r i c sql parameters (a : answer (QueryRaw c sql parameters)) :
  runs (execute_with_cancel input project config context) tr r ->
  tr !! i = Some (Ev (QueryRaw c sql parameters) a) ->
  c = Source
  /\ source_statement_allowed input config (watch observe idle (take i tr)) sql parameters.
Proof.
  intros Hrun Hi.
  destruct (monitored_runs _ _ _ _ _ _ _ (execute_settles input config project context) Hrun)
    as [Hacc _].
  exact (accepts_lookup _ _ _ _ _ _ Hacc Hi).
Qed.

Lemma source_statement_is_guarded_witness :
  exists sql parameters (a : answer (QueryRaw Source sql parameters)),
    query_run.1 !! 34 = Some (Ev (QueryRaw Source sql parameters) a)
    /\ source_statement_allowed "request" analyst_config
         (watch observe idle (take 34 query_run.1)) sql parameters.
Proof.
  eexists _, _, _. split; [exact source_sent|].
  exact (proj2 (source_statement_is_guarded "request" "shop" analyst_config someone
                  query_run.1 query_run.2 34 _ _ _ _ (run_runs _ _ _) source_sent)).
Defined.

(** C11: every request follows the protocol and settles.  All calls are the
    allowed ones: connections with an explicit TLS mode and bounded waits,
    transactions that are read-only, statements that read the published model
    or the catalog, settings, the one source statement, and audit records.  At
    the end no transaction is open; if the start of the request was recorded,
    exactly one terminal record was sent, for the same query, and its status,
    error code, number of rows and truncation are those of what the caller
    gets (unless that very record failed); if it was not, nothing else was
    recorded and the caller gets an error. *)
Theorem started_queries_are_settled `{HC : Crates, HM : ModelParsers, HD : Driver, HL : LsqParser}
    input project config context tr r :
  runs (execute_with_cancel input project config context) tr r ->
  accepts (allowed input config) observe idle tr /\ settled (watch observe idle tr) r.
Proof.
  intros Hrun.
  exact (monitored_runs _ _ _ _ _ _ _ (execute_settles input config project context) Hrun).
Qed.

Lemma started_queries_are_settled_witness :
  settled (watch observe idle query_run.1) query_run.2 /\ started (watch observe idle query_run.1) = Some "query-1".
Proof.
  split; [|vm_compute; reflexivity].
  exact (proj2 (started_queries_are_settled "request" "shop" analyst_config someone _ _
                  (run_runs _ _ _))).
Defined.

(** ** Rows *)

Section rows.
Context `{HC : Crates, HM : ModelParsers, HD : Driver, HL : LsqParser}.
Context (config : ExecutorConfig)
  (Hmax : (ExecutorConfig.max_result_bytes config < USIZE_MAX)%N).

Abbreviation watches p m Q := (monitored (fun _ _ => True) observe_stream p m Q).
Abbreviation unmoved p m := (quiet (fun _ _ => True) observe_stream p m).

#[local] Instance stream_calm : Calm (fun _ _ => True) observe_stream.
Proof. split; intros m [] *; done. Qed.

Definition rows_kept (m : option row_stream) (r : result ExecuteError QueryResult) : Prop :=
  match r with
  | Ok q =>
      exists s, m = Some s
        /\ kept (ExecutorConfig.max_result_bytes config) s (QueryResult.rows q)
             (QueryResult.truncated q)
        /\ QueryResult.warnings q = result_warnings (QueryResult.truncated q)
  | Err _ => True
  end.

Lemma or_rollback_quiet {E A} c (body : io_result E A) m :
  unmoved body m -> unmoved (or_rollback c body) m.
Proof. intros Hb. unfold or_rollback. by quiet. Qed.

#[local] Hint Resolve or_rollback_quiet : quiet.

Lemma load_stream project m : unmoved (load_published Source project) m.
Proof. unfold load_published, load_published_internal. by quiet. Qed.

Lemma guard_stream snapshot compiled m : unmoved (guard_source snapshot compiled config) m.
Proof.
  unfold guard_source, fix_search_path, verify_role, verify_relation_ownership,
    verify_relation_owner, apply_transaction_configuration. by quiet.
Qed.
#[local] Hint Resolve load_stream guard_stream : quiet.

Lemma or_rollback_stream {E A} (body : io_result E A) m (Q : option row_stream -> result E A -> Prop) :
  watches body m (fun m' r => Q m' r) -> watches (or_rollback Source body) m Q.
Proof.
  intros Hb. unfold or_rollback. eapply monitored_seq; [exact Hb|].
  intros m' [a|e] HQ; [done|]. by mcall.
Qed.

Definition execution_kept (m : option row_stream) (r : result ExecuteError ExecutionRows) : Prop :=
  match r with
  | Ok execution =>
      exists s, m = Some s
        /\ kept (ExecutorConfig.max_result_bytes config) s (ExecutionRows.rows execution)
             (ExecutionRows.truncated execution)
  | Err _ => True
  end.

Lemma execute_compiled_keeps snapshot compiled m :
  watches (execute_compiled snapshot compiled config) m execution_kept.
Proof using Hmax.
  unfold execute_compiled. apply monitored_try_quiet; [by quiet|intros _|done].
  apply (monitored_try _ _ _ _ _ execution_kept); [apply or_rollback_stream|by intros; mcall|done].
  apply monitored_try_quiet; [by quiet|intros _|done]. mcall; [done| |done].
  eapply monitored_mono.
  - apply (fetch_keeps _ Hmax _ []). unfold result_size. simpl. lia.
  - intros m' [execution|e] [-> Hr]; [|done]. destruct Hr as [Hk _].
    eexists. split; [done|]. by apply kept_after_nil.
Qed.

Lemma execute_keeps input project context :
  watches (execute_with_cancel input project config context) None rows_kept.
Proof using Hmax.
  unfold execute_with_cancel, connect_runtime, connect_audit, write_started_audit.
  do 2 (apply monitored_try_quiet; [by quiet|intros ?|done]).
  apply monitored_try_lift; [intros normalized _|done]. mcall; [done|].
  apply monitored_try_lift; [intros compiled _|done]. mcall; [done|].
  do 2 (apply monitored_try_quiet; [by quiet|intros ?|done]).
  mcall; [done|]. match goal with go_on : answer OnCancelHandle |- _ => destruct go_on end.
  - unfold run_recorded. eapply monitored_seq; [apply execute_compiled_keeps|].
    intros m' outcome Hout. mcall; [done|]. unfold finish_audit.
    destruct outcome as [execution|e]; mcall; try done.
    destruct Hout as (s & -> & Hk). simpl. by exists s.
  - unfold finish_audit. by mcall.
Qed.
End rows.

(** C33: the rows a query returns are the longest prefix of the rows of the
    source statement whose JSON array fits in the configured number of bytes
    (an empty array is returned even under a limit of less than two bytes); the
    result is marked as truncated, and carries the warning, exactly when a row
    was left out, and otherwise the statement ended without an error. *)
Theorem returned_rows_fit `{HC : Crates, HM : ModelParsers, HD : Driver, HL : LsqParser}
    input project config context tr q :
  (ExecutorConfig.max_result_bytes config < USIZE_MAX)%N ->
  runs (execute_with_cancel input project config context) tr (Ok q) ->
  exists s, watch observe_stream None tr = Some s
    /\ kept (ExecutorConfig.max_result_bytes config) s (QueryResult.rows q)
         (QueryResult.truncated q)
    /\ QueryResult.warnings q = result_warnings (QueryResult.truncated q).
Proof.
  intros Hmax Hrun.
  exact (proj2 (monitored_runs _ _ _ _ _ _ _
                  (execute_keeps config Hmax input project context) Hrun)).
Qed.

Lemma returned_rows_fit_witness : exists q s,
  query_run.2 = Ok q /\ watch observe_stream None query_run.1 = Some s
  /\ kept 256 s (QueryResult.rows q) (QueryResult.truncated q).
Proof.
  assert (Hq : exists q, query_run.2 = Ok q) by (apply is_ok_true; vm_compute; reflexivity).
  destruct Hq as [q Hq]. assert (Hrun := run_runs one_sale fresh_claim
    (execute_with_cancel "request" "shop" analyst_config someone)).
  change (run _ _ _) with query_run in Hrun. rewrite Hq in Hrun.
  destruct (returned_rows_fit "request" "shop" analyst_config someone query_run.1 q
              ltac:(vm_compute; reflexivity) Hrun) as (s & Hs & Hk & _).
  exists q, s. split_and!; [exact Hq|exact Hs|exact Hk].
Defined.

(** ** The text of the source statement *)

(** The fragments of the statement around a compiled query. *)
Definition wrapper_vocabulary : list string :=
  ["SELECT jsonb_build_array("; ", "; ") AS row_data"; nl; "FROM ("; ") AS compiled_result";
   "compiled_result"; "."; "::text"].

Lemma output_names_known q snapshot options v column :
  validated_ok q snapshot options v -> column ∈ output_schema v ->
  known (vq_model v) (OutputColumn.name column).
Proof.
  intros Hv Hc. unfold output_schema in Hc.
  apply elem_of_app in Hc as [(d & -> & Hd)%list_elem_of_fmap|(m & -> & Hm)%list_elem_of_fmap]; simpl.
  - by eapply known_field_name, dimension_field.
  - destruct (metric_resolved _ _ _ _ Hv m Hm) as (r' & _ & Hok).
    eapply known_metric_name, Hok.
Qed.

Lemma wrapper_is_safe `{HC : Crates} normalized snapshot options c :
  compile_lsq normalized snapshot options = Ok c ->
  exists model, model ∈ Snapshot.models snapshot
    /\ Model.semantic_name model = Lsq.model (NormalizedLsq.query normalized)
    /\ Model.queryable model = true
    /\ sql_text (wrapper_vocabulary ++ query_vocabulary) (indented (known model))
         (length (CompiledQuery.parameters c)) (result_wrapper_sql c).
Proof.
  intros (v & st & _ & [Hv Hr Hps _] & Hout & _)%compile_inv. exists (vq_model v).
  destruct (render_sql_safe _ _ _ _ _ _ Hv Hr) as [_ Ht]. split_and!; [apply Hv..|].
  rewrite Hps. unfold result_wrapper_sql. rewrite Hout.
  apply (sql_vocabulary _ (wrapper_vocabulary ++ query_vocabulary)) in Ht; [|set_solver].
  assert (Hcols : sql_text (wrapper_vocabulary ++ query_vocabulary) (indented (known (vq_model v)))
            (length (parameters st))
            (join ", " (map (result_column "compiled_result") (output_schema v)))).
  { apply sql_join; [sql_part|]. apply Forall_fmap, Forall_forall. intros column Hc.
    pose proof (output_names_known _ _ _ _ _ Hv Hc) as Hk. unfold compose, result_column.
    assert (indented (known (vq_model v)) (OutputColumn.name column)) by (eexists; eauto).
    case_decide; sql. }
  sql.
Qed.

(** No text of the request reaches the statement that is executed: it is a
    sequence of fixed fragments, ordinals, identifiers the queried model
    declares (double-quoted), and placeholders that refer to the parameters sent
    with it. *)
Theorem executed_sql_is_injection_safe
    `{HC : Crates, HM : ModelParsers, HD : Driver, HL : LsqParser}
    input project config context tr r i c sql parameters (a : answer (QueryRaw c sql parameters)) :
  runs (execute_with_cancel input project config context) tr r ->
  tr !! i = Some (Ev (QueryRaw c sql parameters) a) ->
  exists normalized snapshot model,
    normalize_lsq lsq_from_slice input = Ok normalized
    /\ model ∈ Snapshot.models snapshot
    /\ Model.semantic_name model = Lsq.model (NormalizedLsq.query normalized)
    /\ Model.queryable model = true
    /\ sql_text (wrapper_vocabulary ++ query_vocabulary) (indented (known model))
         (length parameters) sql.
Proof.
  intros Hrun Hi.
  destruct (monitored_runs _ _ _ _ _ _ _ (execute_settles input config project context) Hrun)
    as [Hacc _].
  destruct (accepts_lookup _ _ _ _ _ _ Hacc Hi)
    as (_ & id & normalized & snapshot & compiled & t & _ & _ & _ & Hn & Hc & -> & -> & _).
  destruct (wrapper_is_safe _ _ _ _ Hc) as (model & Hm & Hname & Hq & Ht).
  exists normalized, snapshot, model. rewrite length_map. done.
Qed.

Lemma executed_sql_is_injection_safe_witness :
  exists sql model, sql_text (wrapper_vocabulary ++ query_vocabulary) (indented (known model)) 1 sql.
Proof.
  destruct (executed_sql_is_injection_safe "request" "shop" analyst_config someone query_run.1
              query_run.2 34 _ _ _ _ (run_runs _ _ _) source_sent) as (_ & _ & model & _ & _ & _ & _ & Ht).
  eexists _, model. exact Ht.
Defined.
