(* ===== verification/MutationExecutorTheorems.v ===== *)
(** * Correctness of the mutation executor

    The theorems about every run of [execute_with_cancel], whatever the
    database, the clock and the caller answer. *)

From S2P Require Import Prelude Ordered Text Json Lsq Semantic Compiler Lsm LsmSpec Mutation.
From S2P Require Import CompilerSql MutationSpec Fixtures Effects Database PublishedModel.
From S2P Require Import Executor Sessions MutationExecutor MutationExecutorSpec.
From S2P Require Import ExecutorFixtures.

Section runs.
Context `{HC : Crates, HM : ModelParsers, HD : Driver, HL : LsmParser}.
Context (input project : string) (config : MutationExecutorConfig) (context : ExecutionContext).

Lemma request_accepted tr r :
  runs (execute_with_cancel project config context input) tr r ->
  accepts (allowed input project config context) observe idle tr
  /\ concluded (watch observe idle tr) r.
Proof.
  intros Hrun.
  exact (monitored_runs _ _ _ _ _ _ _ (execute_concludes input project config context) Hrun).
Qed.

Lemma call_allowed tr r i op (a : answer op) :
  runs (execute_with_cancel project config context input) tr r ->
  tr !! i = Some (Ev op a) ->
  allowed input project config context (watch observe idle (take i tr)) op.
Proof.
  intros [Hacc _]%request_accepted Hi. exact (accepts_lookup _ _ _ _ _ _ Hacc Hi).
Qed.
End runs.

(** C8: the statement of a mutation runs at most once, under guard and under a
    claim, whatever the environment answers.  When it is sent, a write transaction
    is open on the source, in which the login was found to be a member of the
    configured role, that role to be safe and not the owner of the target,
    which is a table; the role was assumed and the settings were made; and the
    idempotency key was claimed with the disposition to execute.  Text and
    parameters are those of the compiled request.  No other statement is sent in
    the whole run of the request, before or after, in this transaction or in
    another. *)
Theorem mutation_statement_is_claimed
    `{HC : Crates, HM : ModelParsers, HD : Driver, HL : LsmParser}
    input project config context tr r i c sql parameters (a : answer (QueryRaw c sql parameters)) :
  runs (execute_with_cancel project config context input) tr r ->
  tr !! i = Some (Ev (QueryRaw c sql parameters) a) ->
  c = Source
  /\ source_statement_allowed input config (watch observe idle (take i tr)) sql parameters
  /\ forall j c' sql' parameters' (a' : answer (QueryRaw c' sql' parameters')),
       tr !! j = Some (Ev (QueryRaw c' sql' parameters') a') -> j = i.
Proof.
  intros Hrun Hi. destruct (call_allowed _ _ _ _ _ _ _ _ _ Hrun Hi) as [Hc Hs].
  split_and!; [done..|]. intros j c' sql' parameters' a' Hj.
  apply request_accepted in Hrun as [Hacc _].
  pose proof (statement_sent_once _ _ _ _ _ _ _ _ _ _ _ _ _ _ _ _ Hacc Hi Hj).
  pose proof (statement_sent_once _ _ _ _ _ _ _ _ _ _ _ _ _ _ _ _ Hacc Hj Hi). lia.
Qed.

Lemma mutation_statement_is_claimed_witness :
  source_statement_allowed "request" writer_config (watch observe idle (take 35 executed_run.1))
    mutation_sql mutation_parameters.
Proof.
  exact (proj1 (proj2 (mutation_statement_is_claimed "request" "shop" writer_config someone
                  executed_run.1 executed_run.2 35 _ _ _ _ (run_runs _ _ _)
                  mutation_statement_sent))).
Defined.

(** C9: a write is committed only together with its record.  When the source
    transaction is committed, it is either the read-only one that loaded the
    model, or one that claimed the key and was told of a conflict or a replay
    and executed nothing, or one that claimed the key to execute and has
    recorded the completion of the mutation in the same transaction. *)
Theorem mutation_commits_are_recorded
    `{HC : Crates, HM : ModelParsers, HD : Driver, HL : LsmParser}
    input project config context tr r i c (a : answer (Commit c)) :
  runs (execute_with_cancel project config context input) tr r ->
  tr !! i = Some (Ev (Commit c) a) ->
  c = Source /\ commit_allowed (watch observe idle (take i tr)).
Proof. intros Hrun Hi. exact (call_allowed _ _ _ _ _ _ _ _ _ Hrun Hi). Qed.

Lemma mutation_commits_are_recorded_witness :
  executed_run.1 !! 38 = Some (Ev (Commit Source) (Ok tt))
  /\ commit_allowed (watch observe idle (take 38 executed_run.1)).
Proof.
  assert (Hc : executed_run.1 !! 38 = Some (Ev (Commit Source) (Ok tt)))
    by (vm_compute; reflexivity).
  split; [exact Hc|].
  exact (proj2 (mutation_commits_are_recorded "request" "shop" writer_config someone
                  executed_run.1 executed_run.2 38 _ _ (run_runs _ _ _) Hc)).
Defined.

(** C10: every mutation concludes, and its outcome is what is reported.  No
    transaction is left open.  On success one write transaction was committed and
    no failure recorded; an executed mutation returns exactly the rows of its
    statement, which are the ones recorded with it and as many as it reports, a
    replayed one the stored rows, and executed nothing.  On failure no commit of
    an executed statement succeeded.  A failure is recorded exactly once, under
    the status and code of the error returned (or recording it failed, which is
    then the error), and the status is true: [indeterminate] means that the commit
    itself failed, so that the write may or may not be there, [rolled_back] that
    the transaction was rolled back, and [rejected] that nothing executed was
    committed.  Not recorded are idempotency conflicts, which executed nothing,
    and failures to open or configure the audit connection, before which no
    transaction was begun.  No index goes out of range. *)
Theorem mutations_conclude `{HC : Crates, HM : ModelParsers, HD : Driver, HL : LsmParser}
    input project config context tr r :
  runs (execute_with_cancel project config context input) tr r ->
  accepts (allowed input project config context) observe idle tr
  /\ concluded (watch observe idle tr) r.
Proof. apply request_accepted. Qed.

Lemma mutations_conclude_witness :
  is_ok executed_run.2 = true /\ concluded (watch observe idle executed_run.1) executed_run.2.
Proof.
  split; [vm_compute; reflexivity|].
  exact (proj2 (mutations_conclude "request" "shop" writer_config someone _ _ (run_runs _ _ _))).
Defined.

(** The status under which a failure is recorded is true.  When a failure
    is recorded, no other was, no transaction is open, and: [indeterminate]
    means that the commit of the write transaction was answered with an error,
    [rolled_back] that the transaction was rolled back, and [rejected] that no
    executed statement was committed. *)
Theorem recorded_status_is_true `{HC : Crates, HM : ModelParsers, HD : Driver, HL : LsmParser}
    input project config context tr r i f (a : answer (QueryOne Audit (RECORD_MUTATION_FAILURE f))) :
  runs (execute_with_cancel project config context input) tr r ->
  tr !! i = Some (Ev (QueryOne Audit (RECORD_MUTATION_FAILURE f)) a) ->
  failure_allowed (watch observe idle (take i tr)) f.
Proof. intros Hrun Hi. exact (call_allowed _ _ _ _ _ _ _ _ _ Hrun Hi). Qed.

Lemma recorded_status_is_true_witness : exists f,
  rf_status f = "rolled_back"
  /\ failure_allowed (watch observe idle (take 38 empty_run.1)) f.
Proof.
  destruct failure_record_sent as (f & Hf & Hs). exists f. split; [exact Hs|].
  exact (recorded_status_is_true "request" "shop" writer_config someone
           empty_run.1 empty_run.2 38 f _ (run_runs _ _ _) Hf).
Defined.
