(* ===== verification/Authority.v ===== *)
(** * Authority configuration ([mcp_http_auth.rs])

    The authority document, its validation, the loading of verification keys and
    of the pseudonym key, and the authority that is assembled from them.  The
    crates that parse URIs, tokens and key sets and that compute signatures and
    codes are the class [AuthCrates]. *)

From S2P Require Import Prelude Ordered Text StrOps Json Lsm Effects Database.

(** ** Bounds *)

Definition MAX_AUTHORITY_FILE_BYTES : N := 4 * 1024 * 1024.
Definition MAX_JWKS_FILE_BYTES : N := 1024 * 1024.
Definition MIN_HMAC_KEY_BYTES : nat := 32.
Definition MAX_HMAC_KEY_BYTES : nat := 4096.
Definition MAX_TOKEN_CLAIMS : nat := 64.
Definition MAX_AUDIENCE_ENTRIES : nat := 16.
Definition MAX_TOKEN_SCOPES : nat := 64.
Definition MAX_SUBJECT_BYTES : nat := 512.
Definition MAX_ISSUER_BYTES : nat := 2048.
Definition MAX_URI_BYTES : nat := 2048.
Definition MAX_PATH_BYTES : nat := 4096.
Definition MAX_JWKS_KEYS : nat := 64.
Definition PSEUDONYM_DOMAIN : string := "postgresem.mcp-http.principal-pseudonym.v1".

(** ** Errors *)

Module ConfigErrorKind.
Inductive ConfigErrorKind : Type := Io | Parse | Schema | Semantic | Key.

Definition code (k : ConfigErrorKind) : string :=
  match k with
  | Io => "authority_io" | Parse => "authority_parse" | Schema => "authority_schema"
  | Semantic => "authority_semantic" | Key => "authority_key"
  end.
End ConfigErrorKind.
Abbreviation ConfigErrorKind := ConfigErrorKind.ConfigErrorKind.

Module ConfigError.
Record ConfigError : Type := mk {
  kind : ConfigErrorKind;
  reason : string;
  index : option nat;
}.

Definition new (kind : ConfigErrorKind) (reason : string) : ConfigError := mk kind reason None.
Definition io : string -> ConfigError := new ConfigErrorKind.Io.
Definition parse : string -> ConfigError := new ConfigErrorKind.Parse.
Definition schema : string -> ConfigError := new ConfigErrorKind.Schema.
Definition semantic : string -> ConfigError := new ConfigErrorKind.Semantic.
Definition key : string -> ConfigError := new ConfigErrorKind.Key.
Definition at_ (e : ConfigError) (index : nat) : ConfigError :=
  mk (kind e) (reason e) (Some index).
End ConfigError.
Abbreviation ConfigError := ConfigError.ConfigError.

Abbreviation C := (result ConfigError).

(** ** The document *)

Module RateLimitConfig.
Record RateLimitConfig : Type := mk {
  requests_per_minute : N;
  burst : N;
  max_concurrent : N;
}.
End RateLimitConfig.
Abbreviation RateLimitConfig := RateLimitConfig.RateLimitConfig.

Module ServerLimits.
Record ServerLimits : Type := mk {
  max_request_body_bytes : N;
  max_token_bytes : N;
  max_header_bytes : N;
  max_execution_seconds : N;
  max_result_bytes : N;
  max_concurrent_requests : N;
  max_pre_auth_concurrent_requests : N;
  max_database_connections : N;
  sse_keepalive_seconds : N;
  max_sse_seconds : N;
}.
End ServerLimits.
Abbreviation ServerLimits := ServerLimits.ServerLimits.

Module PrincipalConfig.
Record PrincipalConfig : Type := mk {
  subject : string;
  authority_id : string;
  query_role : string;
  mutation_role : option string;
  allowed_scopes : list string;
  rate_limit : RateLimitConfig;
}.
End PrincipalConfig.
Abbreviation PrincipalConfig := PrincipalConfig.PrincipalConfig.

Module AuthorityDocument.
Record AuthorityDocument : Type := mk {
  schema_version : string;
  resource : string;
  issuer : string;
  audience : string;
  authorization_servers : list string;
  scopes_supported : list string;
  jwks_path : string;
  principal_hmac_key_path : string;
  allowed_token_types : list string;
  allowed_algorithms : list string;
  scope_claims : list string;
  clock_skew_seconds : N;
  max_token_age_seconds : N;
  allowed_hosts : list string;
  allowed_origins : list string;
  query_scope : string;
  mutation_scope : string;
  remote_mutation_enabled : bool;
  server_limits : ServerLimits;
  principals : list PrincipalConfig;
}.
End AuthorityDocument.
Abbreviation AuthorityDocument := AuthorityDocument.AuthorityDocument.

(** ** Types of the crates *)

(** [jsonwebtoken::Algorithm]. *)
Module Algorithm.
Inductive Algorithm : Type :=
| HS256 | HS384 | HS512 | ES256 | ES384 | RS256 | RS384 | RS512 | PS256 | PS384 | PS512 | EdDSA.
End Algorithm.
Abbreviation Algorithm := Algorithm.Algorithm.
#[export] Instance Algorithm_eq_dec : EqDecision Algorithm.
Proof. solve_decision. Defined.

(** [jsonwebtoken::jwk], as far as the code looks into it: [key_algorithm] is the
    text of the declared algorithm and [material] stands for everything else. *)
Module Jwk.
Inductive EllipticCurve : Type := P256 | P384 | P521 | Ed25519.
Inductive AlgorithmParameters : Type :=
| EllipticCurveKey (curve : EllipticCurve)
| RSA
| OctetKey
| OctetKeyPair.
Inductive PublicKeyUse : Type := Signature | Encryption | OtherUse (name : string).
Inductive KeyOperations : Type := Sign | Verify | OtherOperation (name : string).
Record Jwk : Type := mk {
  key_id : option string;
  public_key_use : option PublicKeyUse;
  key_operations : option (list KeyOperations);
  key_algorithm : option string;
  algorithm : AlgorithmParameters;
  material : string;
}.
End Jwk.
Abbreviation Jwk := Jwk.Jwk.
#[export] Instance PublicKeyUse_eq_dec : EqDecision Jwk.PublicKeyUse.
Proof. solve_decision. Defined.
#[export] Instance KeyOperations_eq_dec : EqDecision Jwk.KeyOperations.
Proof. solve_decision. Defined.

(** [jsonwebtoken::Header]: whether each way of naming a key in the token is
    present, the type, the algorithm and the key id. *)
Module Header.
Record Header : Type := mk {
  typ : option string;
  alg : Algorithm;
  kid : option string;
  jwk : bool;
  jku : bool;
  x5u : bool;
  x5c : bool;
  x5t : bool;
  x5t_s256 : bool;
}.
End Header.
Abbreviation Header := Header.Header.

(** [jsonwebtoken::Validation]. *)
Module Validation.
Record Validation : Type := mk {
  algorithms : list Algorithm;
  required_spec_claims : list string;
  validate_exp : bool;
  validate_nbf : bool;
  validate_aud : bool;
  leeway : N;
  aud : option (list string);
  iss : option (list string);
  sub : option string;
}.
End Validation.
Abbreviation Validation := Validation.Validation.

(** [url::Url], by its accessors. *)
Module Url.
Record Url : Type := mk {
  as_str : string;
  scheme : string;
  username : string;
  password : option string;
  host_str : option string;
  port : option N;
  path : string;
  query : option string;
  fragment : option string;
  (** [origin().ascii_serialization()] *)
  origin : string;
}.
End Url.
Abbreviation Url := Url.Url.

Class AuthCrates := {
  (** [serde_json::from_slice] of the two documents *)
  authority_from_slice : string -> option AuthorityDocument;
  jwks_from_slice : string -> option (list Jwk);
  url_parse : string -> option Url;
  (** [jsonwebtoken] *)
  DecodingKey : Type;
  from_jwk : Jwk -> option DecodingKey;
  decode_header : string -> option Header;
  decode : string -> DecodingKey -> Validation -> option Value;
  (** [Hmac<Sha256>]: [None] where a key cannot be used *)
  hmac_sha256 : string -> string -> option (list ascii);
  (** base64 *)
  url_safe_no_pad : list ascii -> string;
  standard_decode : string -> option string;
}.

(** ** Small predicates *)

Definition parse_algorithm (name : string) : option Algorithm :=
  if decide (name = "RS256") then Some Algorithm.RS256
  else if decide (name = "RS384") then Some Algorithm.RS384
  else if decide (name = "RS512") then Some Algorithm.RS512
  else if decide (name = "ES256") then Some Algorithm.ES256
  else if decide (name = "ES384") then Some Algorithm.ES384
  else if decide (name = "EdDSA") then Some Algorithm.EdDSA
  else None.

(** [value.is_empty() || value.len() > max] negated. *)
Definition sized (max : nat) (value : string) : bool :=
  negb (bool_decide (value = EmptyString)) && bool_decide (String.length value ≤ max).

Definition is_scope_token (value : string) : bool :=
  sized 128 value
  && all_bytes (fun c => is_char 33 c || in_range 35 91 c || in_range 93 126 c) value.

(** A first character of one class, the others of another. *)
Definition first_then (first rest : ascii -> bool) (value : string) : bool :=
  match value with
  | EmptyString => false
  | String c value' => first c && all_bytes rest value'
  end.

Definition is_claim_name (value : string) : bool :=
  sized 64 value
  && first_then (fun c => is_ascii_alphabetic c || is_char 95 c)
       (fun c => is_ascii_alphanumeric c || is_char 95 c || is_char 46 c || is_char 45 c) value.

Definition is_authority_id (value : string) : bool :=
  sized 128 value
  && first_then is_ascii_alphanumeric
       (fun c => is_ascii_alphanumeric c || is_char 46 c || is_char 95 c || is_char 58 c
                 || is_char 45 c) value.

Definition is_host_name (host : string) : bool :=
  negb (bool_decide (host = EmptyString))
  && all_bytes (fun c => is_ascii_alphanumeric c || is_char 46 c || is_char 45 c) host.

(** Five digits do not overflow the [u32] that is parsed. *)
Definition is_port (port : string) : bool :=
  sized 5 port && all_bytes is_ascii_digit port
  && match parse_decimal port with Some p => bool_decide (p ≤ 65535)%N | None => false end.

Definition is_host_pattern (value : string) : bool :=
  sized 255 value
  && match split_once ":"%char value with
     | Some (host, port) => is_host_name host && is_port port
     | None => is_host_name value
     end.

Definition is_base64url_byte (c : ascii) : bool :=
  is_ascii_alphanumeric c || is_char 45 c || is_char 95 c.

(** ** URIs *)

Section documents.
Context `{AuthCrates}.

(** A path is [/] or has no trailing slash and no empty or dot segment; the
    segments after the first are those behind a slash. *)
Definition check_path (path : string) (allow_path : bool) : result string unit :=
  if decide (path = "/") then Ok tt else
  fail_if (negb allow_path) "uri must not contain a path";;
  fail_if (ends_with "/" path) "uri path must not end with a slash";;
  try_each (fun segment =>
    fail_if (bool_decide (segment ∈ [EmptyString; "."; ".."])) "uri path is not normalized")
    (tail (split (is_char 47) path)).

(** The parsed URI is written the way it was given, up to the slash of an empty
    path. *)
Definition matches_raw (url : Url) (raw : string) : bool :=
  let canonical := Url.as_str url in
  bool_decide (canonical = raw)
  || (bool_decide (Url.path url = "/")
      && bool_decide (String.length canonical = String.length raw + 1)
      && starts_with raw canonical).

Definition canonical_https_uri (raw : string) (allow_path : bool) : result string Url :=
  fail_if (negb (sized MAX_URI_BYTES raw)) "uri must be 1 to 2048 bytes";;
  fail_if (negb (is_ascii raw)) "uri must be ASCII";;
  fail_if (any_byte (is_char 37) raw) "uri must not use percent-encoding";;
  url ← ok_or (url_parse raw) "uri is not a valid absolute URI";
  fail_if (bool_decide (Url.scheme url <> "https")) "uri must use https";;
  fail_if (bool_decide (Url.username url <> EmptyString)
           || bool_decide (is_Some (Url.password url))) "uri must not contain userinfo";;
  fail_if (bool_decide (is_Some (Url.query url))) "uri must not contain a query";;
  fail_if (bool_decide (is_Some (Url.fragment url))) "uri must not contain a fragment";;
  fail_if (bool_decide (default EmptyString (Url.host_str url) = EmptyString))
    "uri must contain a host";;
  check_path (Url.path url) allow_path;;
  fail_if (negb (matches_raw url raw)) "uri is not in canonical form";;
  Ok url.

(** ** Validation *)

(** A loop over entries with their positions that remembers the ones seen:
    [check] first, then no entry twice. *)
Definition check_unique_entries (check : nat -> string -> C unit) (duplicate : nat -> ConfigError)
    (entries : list string) : C (list string) :=
  try_fold (fun seen '(index, entry) =>
    check index entry;;
    fail_if (bool_decide (entry ∈ seen)) (duplicate index);;
    Ok (bs_insert entry seen)) [] (imap pair entries).

Definition not_between (lo hi : nat) {A} (l : list A) : bool :=
  bool_decide (length l < lo) || bool_decide (hi < length l).

Definition validate_scope_list (scopes : list string) (min max : nat) (what : string) : C unit :=
  let supported := bool_decide (what = "scopes_supported") in
  fail_if (not_between min max scopes)
    (ConfigError.schema
       (if supported then "scopes_supported must hold 1 to 32 entries"
        else "allowed_scopes must hold 1 to 32 entries"));;
  check_unique_entries
    (fun _ scope =>
       fail_if (negb (is_scope_token scope))
         (ConfigError.schema
            (if supported then "scopes_supported contains an invalid scope"
             else "allowed_scopes contains an invalid scope")))
    (fun _ => ConfigError.schema
                (if supported then "scopes_supported must be unique"
                 else "allowed_scopes must be unique")) scopes;;
  Ok tt.

(** The slice of the first three bytes is taken of an ASCII string. *)
Definition validate_role (role : string) : result string unit :=
  fail_if (negb (sized 63 role)) "database role must be 1 to 63 bytes";;
  '(first, rest) ← (match role with
                    | String first rest => Ok (first, rest)
                    | EmptyString => Err "database role must not be empty"
                    end);
  fail_if (negb (is_ascii_alphabetic first || is_char 95 first))
    "database role must start with a letter or underscore";;
  fail_if (negb (all_bytes (fun c => is_ascii_alphanumeric c || is_char 95 c) rest))
    "database role contains an invalid character";;
  fail_if (bool_decide (3 ≤ String.length role)
           && eq_ignore_ascii_case (String.substring 0 3 role) "pg_")
    "database role must not use the reserved pg_ prefix".

Definition outside (lo hi : N) (n : N) : bool := negb (bool_decide (lo ≤ n ≤ hi)%N).

Definition validate_rate_limit (limit : RateLimitConfig) : C unit :=
  fail_if (outside 1 1000000 (RateLimitConfig.requests_per_minute limit))
    (ConfigError.schema "requests_per_minute is out of range");;
  fail_if (outside 1 100000 (RateLimitConfig.burst limit))
    (ConfigError.schema "burst is out of range");;
  fail_if (outside 1 10000 (RateLimitConfig.max_concurrent limit))
    (ConfigError.schema "max_concurrent is out of range");;
  fail_if (bool_decide (RateLimitConfig.requests_per_minute limit < RateLimitConfig.burst limit)%N)
    (ConfigError.semantic "burst must not exceed requests_per_minute");;
  fail_if (bool_decide (RateLimitConfig.burst limit < RateLimitConfig.max_concurrent limit)%N)
    (ConfigError.semantic "max_concurrent must not exceed burst").

Definition validate_limits (limits : ServerLimits) : C unit :=
  fail_if (outside 1024 1048576 (ServerLimits.max_request_body_bytes limits))
    (ConfigError.schema "max_request_body_bytes is out of range");;
  fail_if (outside 256 65536 (ServerLimits.max_token_bytes limits))
    (ConfigError.schema "max_token_bytes is out of range");;
  fail_if (outside 1024 1048576 (ServerLimits.max_header_bytes limits))
    (ConfigError.schema "max_header_bytes is out of range");;
  fail_if (outside 1 3600 (ServerLimits.max_execution_seconds limits))
    (ConfigError.schema "max_execution_seconds is out of range");;
  fail_if (outside 1024 1073741824 (ServerLimits.max_result_bytes limits))
    (ConfigError.schema "max_result_bytes is out of range");;
  fail_if (outside 1 10000 (ServerLimits.max_concurrent_requests limits))
    (ConfigError.schema "max_concurrent_requests is out of range");;
  fail_if (outside 1 10000 (ServerLimits.max_pre_auth_concurrent_requests limits))
    (ConfigError.schema "max_pre_auth_concurrent_requests is out of range");;
  fail_if (outside 2 10000 (ServerLimits.max_database_connections limits))
    (ConfigError.schema "max_database_connections is out of range");;
  fail_if (outside 1 60 (ServerLimits.sse_keepalive_seconds limits))
    (ConfigError.schema "sse_keepalive_seconds is out of range");;
  fail_if (outside 1 3600 (ServerLimits.max_sse_seconds limits))
    (ConfigError.schema "max_sse_seconds is out of range");;
  fail_if (bool_decide (ServerLimits.max_concurrent_requests limits
                        < ServerLimits.max_pre_auth_concurrent_requests limits)%N)
    (ConfigError.semantic
       "max_pre_auth_concurrent_requests must not exceed max_concurrent_requests");;
  fail_if (bool_decide (ServerLimits.max_header_bytes limits
                        < ServerLimits.max_token_bytes limits)%N)
    (ConfigError.semantic "max_token_bytes must not exceed max_header_bytes");;
  fail_if (bool_decide (ServerLimits.max_sse_seconds limits
                        < ServerLimits.sse_keepalive_seconds limits)%N)
    (ConfigError.semantic "sse_keepalive_seconds must not exceed max_sse_seconds").

(** [host:port], or the host alone for the port of the scheme. *)
Definition url_authority (host : string) (port : option N) : string :=
  match port with Some port => host +:+ ":" +:+ pretty port | None => host end.

Definition validate_hosts (document : AuthorityDocument) (resource : Url) : C unit :=
  let hosts := AuthorityDocument.allowed_hosts document in
  fail_if (not_between 1 32 hosts) (ConfigError.schema "allowed_hosts must hold 1 to 32 entries");;
  seen ← check_unique_entries
    (fun index host =>
       fail_if (negb (is_host_pattern host))
         (ConfigError.at_ (ConfigError.schema "allowed_hosts contains an invalid host") index);;
       fail_if (bool_decide (host <> to_ascii_lowercase host))
         (ConfigError.at_ (ConfigError.schema "allowed_hosts must be lowercase") index))
    (fun index => ConfigError.at_ (ConfigError.schema "allowed_hosts must be unique") index) hosts;
  host ← ok_or (Url.host_str resource) (ConfigError.schema "resource has no host");
  fail_if (bool_decide (url_authority host (Url.port resource) ∉ seen))
    (ConfigError.semantic "allowed_hosts must contain the resource host").

Definition validate_origins (document : AuthorityDocument) : C unit :=
  let origins := AuthorityDocument.allowed_origins document in
  fail_if (bool_decide (32 < length origins))
    (ConfigError.schema "allowed_origins must hold at most 32 entries");;
  check_unique_entries
    (fun index origin =>
       fail_if (bool_decide (MAX_URI_BYTES < String.length origin))
         (ConfigError.at_ (ConfigError.schema "allowed_origins entry is too long") index);;
       parsed ← ok_or (url_parse origin)
         (ConfigError.at_ (ConfigError.schema "allowed_origins entry is not a URI") index);
       fail_if (bool_decide (Url.scheme parsed <> "https"))
         (ConfigError.at_ (ConfigError.schema "allowed_origins entry must be https") index);;
       fail_if (bool_decide (Url.origin parsed <> origin))
         (ConfigError.at_ (ConfigError.schema "allowed_origins entry must be a bare origin") index))
    (fun index => ConfigError.at_ (ConfigError.schema "allowed_origins must be unique") index)
    origins;;
  Ok tt.

(** What is checked of one principal, apart from its place among the others. *)
Definition validate_principal (document : AuthorityDocument) (supported : list string)
    (index : nat) (principal : PrincipalConfig) : C unit :=
  let schema reason := ConfigError.at_ (ConfigError.schema reason) index in
  let semantic reason := ConfigError.at_ (ConfigError.semantic reason) index in
  let scopes := PrincipalConfig.allowed_scopes principal in
  map_err schema (validate_role (PrincipalConfig.query_role principal));;
  transpose (fun role => map_err schema (validate_role role))
    (PrincipalConfig.mutation_role principal);;
  map_err (fun error => ConfigError.at_ error index)
    (validate_scope_list scopes 1 32 "allowed_scopes");;
  try_each (fun scope =>
    fail_if (bool_decide (scope ∉ supported))
      (semantic "allowed_scopes must be a subset of scopes_supported")) scopes;;
  let grants_mutation := bool_decide (AuthorityDocument.mutation_scope document ∈ scopes) in
  let grants_query := bool_decide (AuthorityDocument.query_scope document ∈ scopes) in
  fail_if (negb grants_query) (semantic "allowed_scopes must contain the query scope");;
  fail_if (negb (eqb grants_mutation
                   (bool_decide (is_Some (PrincipalConfig.mutation_role principal)))))
    (semantic "mutation_role must be present exactly when the mutation scope is allowed");;
  fail_if (grants_mutation
           && bool_decide (PrincipalConfig.mutation_role principal
                           = Some (PrincipalConfig.query_role principal)))
    (semantic "mutation_role must differ from query_role");;
  map_err (fun error => ConfigError.at_ error index)
    (validate_rate_limit (PrincipalConfig.rate_limit principal)).

(** The state of the loop: subjects and authority ids seen, and whether some
    principal may mutate. *)
Definition check_principal (document : AuthorityDocument) (supported : list string)
    (st : list string * list string * bool) (entry : nat * PrincipalConfig)
    : C (list string * list string * bool) :=
  let '(subjects, authority_ids, mutation_capable) := st in
  let '(index, principal) := entry in
  let subject := PrincipalConfig.subject principal in
  let authority_id := PrincipalConfig.authority_id principal in
  fail_if (negb (sized MAX_SUBJECT_BYTES subject))
    (ConfigError.at_ (ConfigError.schema "subject must be 1 to 512 bytes") index);;
  fail_if (contains_control subject)
    (ConfigError.at_ (ConfigError.schema "subject must not contain control characters") index);;
  fail_if (bool_decide (subject ∈ subjects))
    (ConfigError.at_ (ConfigError.semantic "principal subjects must be unique") index);;
  fail_if (negb (is_authority_id authority_id))
    (ConfigError.at_ (ConfigError.schema "authority_id has an invalid format") index);;
  fail_if (bool_decide (authority_id ∈ authority_ids))
    (ConfigError.at_ (ConfigError.semantic "authority_id values must be unique") index);;
  validate_principal document supported index principal;;
  Ok (bs_insert subject subjects, bs_insert authority_id authority_ids,
      mutation_capable
      || bool_decide (AuthorityDocument.mutation_scope document
                      ∈ PrincipalConfig.allowed_scopes principal)).

Definition validate_principals (document : AuthorityDocument) (supported : list string) : C unit :=
  let principals := AuthorityDocument.principals document in
  fail_if (bool_decide (principals = []) || bool_decide (10000 < N.of_nat (length principals))%N)
    (ConfigError.schema "principals must hold 1 to 10000 entries");;
  '(_, _, mutation_capable) ←
    try_fold (check_principal document supported) ([], [], false) (imap pair principals);
  fail_if (AuthorityDocument.remote_mutation_enabled document && negb mutation_capable)
    (ConfigError.semantic
       "remote_mutation_enabled requires at least one mutation capable principal").

(** The checks of the document itself, up to its hosts. *)
Definition validate_scopes (document : AuthorityDocument) : C unit :=
  let supported := bs_from_list (AuthorityDocument.scopes_supported document) in
  let query_scope := AuthorityDocument.query_scope document in
  let mutation_scope := AuthorityDocument.mutation_scope document in
  validate_scope_list (AuthorityDocument.scopes_supported document) 1 32 "scopes_supported";;
  fail_if (negb (is_scope_token query_scope) || negb (is_scope_token mutation_scope))
    (ConfigError.schema "query_scope and mutation_scope must be valid scopes");;
  fail_if (bool_decide (query_scope = mutation_scope))
    (ConfigError.semantic "query_scope must differ from mutation_scope");;
  fail_if (bool_decide (query_scope ∉ supported))
    (ConfigError.semantic "query_scope must appear in scopes_supported");;
  fail_if (bool_decide (mutation_scope ∉ supported))
    (ConfigError.semantic "mutation_scope must appear in scopes_supported").

Definition validate_tokens (document : AuthorityDocument) : C unit :=
  fail_if (negb (sized MAX_PATH_BYTES (AuthorityDocument.jwks_path document)))
    (ConfigError.schema "jwks_path must be 1 to 4096 bytes");;
  fail_if (negb (sized MAX_PATH_BYTES (AuthorityDocument.principal_hmac_key_path document)))
    (ConfigError.schema "principal_hmac_key_path must be 1 to 4096 bytes");;
  fail_if (not_between 1 3 (AuthorityDocument.allowed_token_types document))
    (ConfigError.schema "allowed_token_types must hold 1 to 3 entries");;
  check_unique_entries
    (fun index value =>
       fail_if (bool_decide (value ∉ ["at+jwt"; "application/at+jwt"; "JWT"]))
         (ConfigError.at_ (ConfigError.schema "allowed_token_types contains an unknown value")
            index))
    (fun index => ConfigError.at_ (ConfigError.schema "allowed_token_types must be unique") index)
    (AuthorityDocument.allowed_token_types document);;
  fail_if (not_between 1 6 (AuthorityDocument.allowed_algorithms document))
    (ConfigError.schema "allowed_algorithms must hold 1 to 6 entries");;
  check_unique_entries
    (fun index value =>
       fail_if (bool_decide (parse_algorithm value = None))
         (ConfigError.at_ (ConfigError.schema "allowed_algorithms contains an unknown value")
            index))
    (fun index => ConfigError.at_ (ConfigError.schema "allowed_algorithms must be unique") index)
    (AuthorityDocument.allowed_algorithms document);;
  fail_if (not_between 1 4 (AuthorityDocument.scope_claims document))
    (ConfigError.schema "scope_claims must hold 1 to 4 entries");;
  check_unique_entries
    (fun index value =>
       fail_if (negb (is_claim_name value))
         (ConfigError.at_ (ConfigError.schema "scope_claims contains an invalid claim name") index))
    (fun index => ConfigError.at_ (ConfigError.schema "scope_claims must be unique") index)
    (AuthorityDocument.scope_claims document);;
  fail_if (bool_decide (300 < AuthorityDocument.clock_skew_seconds document)%N)
    (ConfigError.schema "clock_skew_seconds must be 0 to 300");;
  fail_if (outside 1 86400 (AuthorityDocument.max_token_age_seconds document))
    (ConfigError.schema "max_token_age_seconds must be 1 to 86400").

Definition validate_document (document : AuthorityDocument) : C unit :=
  fail_if (bool_decide (AuthorityDocument.schema_version document <> "1"))
    (ConfigError.schema ("schema_version must be " +:+ dq +:+ "1" +:+ dq));;
  resource ← map_err ConfigError.schema
               (canonical_https_uri (AuthorityDocument.resource document) true);
  fail_if (bool_decide (AuthorityDocument.audience document
                        <> AuthorityDocument.resource document))
    (ConfigError.semantic "audience must equal resource");;
  map_err ConfigError.schema (canonical_https_uri (AuthorityDocument.issuer document) true);;
  fail_if (not_between 1 8 (AuthorityDocument.authorization_servers document))
    (ConfigError.schema "authorization_servers must hold 1 to 8 entries");;
  check_unique_entries
    (fun index server =>
       map_err (fun reason => ConfigError.at_ (ConfigError.schema reason) index)
         (canonical_https_uri server true);; Ok tt)
    (fun index =>
       ConfigError.at_ (ConfigError.schema "authorization_servers must be unique") index)
    (AuthorityDocument.authorization_servers document);;
  validate_scopes document;;
  validate_tokens document;;
  validate_hosts document resource;;
  validate_origins document;;
  validate_limits (AuthorityDocument.server_limits document);;
  validate_principals document (bs_from_list (AuthorityDocument.scopes_supported document)).
End documents.

(** ** Files and keys *)

(** What the file system has at a configured path: its kind and size, and what
    reading it gives afterwards. *)
Record file_entry : Type := {
  file_is_regular : bool;
  file_metadata_len : N;
  file_read : option string;
}.

Definition read_bounded (entry : option file_entry) (max : N) (what : string) : C string :=
  metadata ← ok_or entry
    (if decide (what = "jwks document") then ConfigError.io "jwks document is not readable"
     else if decide (what = "principal hmac key")
     then ConfigError.io "principal hmac key is not readable"
     else ConfigError.io "authority document is not readable");
  fail_if (negb (file_is_regular metadata))
    (ConfigError.io "configured path is not a regular file");;
  fail_if (bool_decide (max < file_metadata_len metadata)%N)
    (ConfigError.io "configured file exceeds its size bound");;
  bytes ← ok_or (file_read metadata) (ConfigError.io "configured file is not readable");
  fail_if (bool_decide (max < N.of_nat (String.length bytes))%N)
    (ConfigError.io "configured file exceeds its size bound");;
  Ok bytes.

Module VerificationKey.
Record VerificationKey `{AuthCrates} : Type := mk {
  key : DecodingKey;
  algorithms : list Algorithm;
}.
Arguments key {_}.
Arguments algorithms {_}.
End VerificationKey.
Abbreviation VerificationKey := VerificationKey.VerificationKey.

Module PrincipalRecord.
Record PrincipalRecord : Type := mk {
  authority_id : string;
  query_role : string;
  mutation_role : option string;
  allowed_scopes : list string;
  rate_limit : RateLimitConfig;
}.
End PrincipalRecord.
Abbreviation PrincipalRecord := PrincipalRecord.PrincipalRecord.

Section keys.
Context `{AuthCrates}.

Definition load_pseudonym_key (bytes_ : string) : C string :=
  fail_if (bool_decide (String.length bytes_ < MIN_HMAC_KEY_BYTES))
    (ConfigError.key "principal hmac key is shorter than 32 bytes");;
  fail_if (bool_decide (MAX_HMAC_KEY_BYTES < String.length bytes_))
    (ConfigError.key "principal hmac key exceeds 4096 bytes");;
  fail_if (all_bytes (is_char 0) bytes_)
    (ConfigError.key "principal hmac key is all zero bytes");;
  fail_if (bool_decide (hmac_sha256 bytes_ EmptyString = None))
    (ConfigError.key "principal hmac key is unusable");;
  Ok bytes_.

(** The algorithms a key can be used with. *)
Definition key_algorithms (jwk : Jwk) : result string (list Algorithm) :=
  match Jwk.algorithm jwk with
  | Jwk.RSA => Ok [Algorithm.RS256; Algorithm.RS384; Algorithm.RS512]
  | Jwk.EllipticCurveKey Jwk.P256 => Ok [Algorithm.ES256]
  | Jwk.EllipticCurveKey Jwk.P384 => Ok [Algorithm.ES384]
  | Jwk.EllipticCurveKey _ => Err "jwks entry uses an unsupported curve"
  | Jwk.OctetKeyPair => Ok [Algorithm.EdDSA]
  | Jwk.OctetKey => Err "jwks entry is a symmetric key"
  end.

(** The declared algorithm narrows the ones the key type allows. *)
Definition narrowed_algorithms (allowed : list Algorithm) (jwk : Jwk)
    : result string (list Algorithm) :=
  algorithms ← key_algorithms jwk;
  let algorithms := filter (fun a => a ∈ allowed) algorithms in
  fail_if (bool_decide (algorithms = [])) "jwks entry matches no allowed algorithm";;
  match Jwk.key_algorithm jwk with
  | Some declared =>
      declared ← ok_or (parse_algorithm declared) "jwks entry declares an unsupported alg";
      fail_if (bool_decide (declared ∉ algorithms)) "jwks entry alg conflicts with its key type";;
      Ok [declared]
  | None => Ok algorithms
  end.

(** One entry of the key set. *)
Definition load_key (allowed : list Algorithm) (jwk : Jwk)
    : result string (string * VerificationKey) :=
  kid ← ok_or (Jwk.key_id jwk) "jwks entry has no kid";
  fail_if (negb (sized 256 kid) || negb (is_ascii kid)) "jwks entry has an unusable kid";;
  fail_if (match Jwk.public_key_use jwk with
           | Some use_ => bool_decide (use_ <> Jwk.Signature)
           | None => false
           end) "jwks entry is not a signature key";;
  fail_if (match Jwk.key_operations jwk with
           | Some ops => bool_decide (Jwk.Verify ∉ ops)
           | None => false
           end) "jwks entry cannot be used to verify";;
  algorithms ← narrowed_algorithms allowed jwk;
  key ← ok_or (from_jwk jwk) "jwks entry is not a usable decoding key";
  Ok (kid, VerificationKey.mk _ key algorithms).

Definition add_key (allowed : list Algorithm) (keys : list (string * VerificationKey))
    (entry : nat * Jwk) : C (list (string * VerificationKey)) :=
  let '(index, jwk) := entry in
  '(kid, key) ← map_err (fun reason => ConfigError.at_ (ConfigError.key reason) index)
                  (load_key allowed jwk);
  fail_if (bt_contains kid keys)
    (ConfigError.at_ (ConfigError.key "jwks document contains a duplicate kid") index);;
  Ok (bt_insert kid key keys).

Definition load_keys (bytes_ : string) (allowed : list Algorithm)
    : C (list (string * VerificationKey)) :=
  set ← ok_or (jwks_from_slice bytes_)
          (ConfigError.parse "jwks document is not a valid JWK set");
  fail_if (bool_decide (set = [])) (ConfigError.key "jwks document contains no keys");;
  fail_if (bool_decide (MAX_JWKS_KEYS < length set))
    (ConfigError.key "jwks document contains too many keys");;
  try_fold (add_key allowed) [] (imap pair set).
End keys.

(** ** The authority *)

Module Authority.
Record Authority `{AuthCrates} : Type := mk {
  document : AuthorityDocument;
  algorithms : list Algorithm;
  token_types : list string;
  scope_claims : list string;
  scopes_supported : list string;
  allowed_hosts : list string;
  allowed_origins : list string;
  keys : list (string * VerificationKey);
  principals : list (string * PrincipalRecord);
  pseudonym_key : string;
}.
Arguments document {_}.
Arguments algorithms {_}.
Arguments token_types {_}.
Arguments scope_claims {_}.
Arguments scopes_supported {_}.
Arguments allowed_hosts {_}.
Arguments allowed_origins {_}.
Arguments keys {_}.
Arguments principals {_}.
Arguments pseudonym_key {_}.
End Authority.
Abbreviation Authority := Authority.Authority.

Section authority.
Context `{AuthCrates}.

Definition principal_record (p : PrincipalConfig) : PrincipalRecord :=
  PrincipalRecord.mk (PrincipalConfig.authority_id p) (PrincipalConfig.query_role p)
    (PrincipalConfig.mutation_role p) (bs_from_list (PrincipalConfig.allowed_scopes p))
    (PrincipalConfig.rate_limit p).

Definition principal_records (principals : list PrincipalConfig)
    : list (string * PrincipalRecord) :=
  foldl (fun m p => bt_insert (PrincipalConfig.subject p) (principal_record p) m) [] principals.

Definition assemble (document : AuthorityDocument) (jwks_bytes hmac_bytes : string)
    : C Authority :=
  let algorithms := omap parse_algorithm (AuthorityDocument.allowed_algorithms document) in
  fail_if (bool_decide (length algorithms
                        <> length (AuthorityDocument.allowed_algorithms document)))
    (ConfigError.schema "allowed_algorithms contains an unsupported value");;
  keys ← load_keys jwks_bytes algorithms;
  pseudonym_key ← load_pseudonym_key hmac_bytes;
  let token_types :=
    bs_from_list (map to_ascii_lowercase (AuthorityDocument.allowed_token_types document)) in
  fail_if (bool_decide (length token_types
                        <> length (AuthorityDocument.allowed_token_types document)))
    (ConfigError.schema "allowed_token_types contains a case-insensitive duplicate");;
  Ok (Authority.mk _ document algorithms token_types (AuthorityDocument.scope_claims document)
        (bs_from_list (AuthorityDocument.scopes_supported document))
        (bs_from_list (AuthorityDocument.allowed_hosts document))
        (bs_from_list (AuthorityDocument.allowed_origins document)) keys
        (principal_records (AuthorityDocument.principals document)) pseudonym_key).

(** [Path::join] of a base with a relative path. *)
Definition join_path (base path : string) : string :=
  if bool_decide (base = EmptyString) || ends_with "/" base then base +:+ path
  else base +:+ "/" +:+ path.

Definition resolve_path (base configured : string) : string :=
  if starts_with "/" configured then configured else join_path base configured.

(** A call of the file system: what it has at a path. *)
Definition FileRes (path : string) : Type := option file_entry.

(** Loading once the authority document, in the directory [base], was looked up. *)
Definition load_document (base : string) (authority_file : option file_entry)
    : prog FileRes (C Authority) :=
  raw ←? lift (read_bounded authority_file MAX_AUTHORITY_FILE_BYTES "authority document");
  document ←? lift (ok_or (authority_from_slice raw)
                      (ConfigError.parse "authority document is not schema valid JSON"));
  lift (validate_document document) ;;?
  jwks_file ← call (Res := FileRes) (resolve_path base (AuthorityDocument.jwks_path document));
  jwks_bytes ←? lift (read_bounded jwks_file MAX_JWKS_FILE_BYTES "jwks document");
  hmac_file ← call (Res := FileRes)
                (resolve_path base (AuthorityDocument.principal_hmac_key_path document));
  hmac_bytes ←? lift (read_bounded hmac_file (N.of_nat MAX_HMAC_KEY_BYTES) "principal hmac key");
  lift (assemble document jwks_bytes hmac_bytes).

Definition load_path (parent : string -> string) (path : string) : prog FileRes (C Authority) :=
  authority_file ← call (Res := FileRes) path;
  load_document (parent path) authority_file.

(** Loading from files that do not change meanwhile: [file_at] is what the file
    system has at a path. *)
Definition load (base : string) (authority_file : option file_entry)
    (file_at : string -> option file_entry) : C Authority :=
  (execute_with (fun (_ : unit) path => (file_at path, tt)) tt
     (load_document base authority_file)).2.

Definition query_roles (a : Authority) : list string :=
  bs_from_list (map (fun '(_, p) => PrincipalRecord.query_role p) (Authority.principals a)).

Definition mutation_roles (a : Authority) : list string :=
  bs_from_list (omap (fun '(_, p) => PrincipalRecord.mutation_role p) (Authority.principals a)).

Definition is_allowed_host (a : Authority) (host : string) : bool :=
  bool_decide (to_ascii_lowercase host ∈ Authority.allowed_hosts a).

Definition is_allowed_origin (a : Authority) (origin : string) : bool :=
  bool_decide (origin ∈ Authority.allowed_origins a).
End authority.
