(* ===== verification/Authentication.v ===== *)
(** * Verification of bearer tokens ([mcp_http_auth.rs])

    From the [Authorization] header to an authenticated principal: the shape of
    the token, the local key it names, its signature, its claims, the scopes it
    grants and the roles they select.  The clock is an argument. *)

From S2P Require Import Prelude Ordered Text StrOps Json Lsm Database Authority.

Module AuthError.
Inductive AuthError : Type :=
| MissingCredentials | MalformedRequest | TokenTooLarge | MalformedToken
| UnsupportedTokenType | UnsupportedAlgorithm | UnknownKey | InvalidSignature
| InvalidIssuer | InvalidAudience | TokenExpired | TokenNotYetValid | TokenTooOld
| InvalidClaims | UnknownPrincipal | InsufficientScope | Internal.

Definition code (e : AuthError) : string :=
  match e with
  | MissingCredentials => "missing_credentials"
  | MalformedRequest => "malformed_request"
  | TokenTooLarge => "token_too_large"
  | MalformedToken => "malformed_token"
  | UnsupportedTokenType => "unsupported_token_type"
  | UnsupportedAlgorithm => "unsupported_algorithm"
  | UnknownKey => "unknown_key"
  | InvalidSignature => "invalid_signature"
  | InvalidIssuer => "invalid_issuer"
  | InvalidAudience => "invalid_audience"
  | TokenExpired => "token_expired"
  | TokenNotYetValid => "token_not_yet_valid"
  | TokenTooOld => "token_too_old"
  | InvalidClaims => "invalid_claims"
  | UnknownPrincipal => "unknown_principal"
  | InsufficientScope => "insufficient_scope"
  | Internal => "internal_error"
  end.

Definition oauth_error (e : AuthError) : string :=
  match e with
  | MissingCredentials => EmptyString
  | MalformedRequest | TokenTooLarge => "invalid_request"
  | InsufficientScope => "insufficient_scope"
  | Internal => "server_error"
  | _ => "invalid_token"
  end.
End AuthError.
Abbreviation AuthError := AuthError.AuthError.
#[export] Instance AuthError_eq_dec : EqDecision AuthError.
Proof. solve_decision. Defined.

Abbreviation A := (result AuthError).

Module AuthenticatedPrincipal.
Record AuthenticatedPrincipal : Type := mk {
  authority_id : string;
  query_role : string;
  mutation_role : option string;
  granted_scopes : list string;
  rate_limit : RateLimitConfig;
  audit_pseudonym : string;
}.

Definition has_scope (p : AuthenticatedPrincipal) (scope : string) : bool :=
  bool_decide (scope ∈ granted_scopes p).
End AuthenticatedPrincipal.
Abbreviation AuthenticatedPrincipal := AuthenticatedPrincipal.AuthenticatedPrincipal.

(** ** Machine integers *)

Definition I64_MIN : Z := - 9223372036854775808.

Definition in_i64 (z : Z) : bool := bool_decide (I64_MIN ≤ z ≤ I64_MAX)%Z.

Definition clamp_i64 (z : Z) : Z := Z.max I64_MIN (Z.min z I64_MAX).
Definition i64_saturating_add (x y : Z) : Z := clamp_i64 (x + y).
Definition i64_saturating_sub (x y : Z) : Z := clamp_i64 (x - y).

(** [i64::try_from] of an unsigned number. *)
Definition i64_of_u64 (n : N) : A Z :=
  fail_if (bool_decide (I64_MAX < Z.of_N n)%Z) AuthError.Internal;;
  Ok (Z.of_N n).

(** ** Claims *)

(** [serde_json::Map<String, Value>]. *)
Abbreviation Claims := (list (string * Value)).

Definition value_as_str (v : Value) : option string :=
  match v with Value_String s => Some s | _ => None end.

Definition bounded_string (value : option Value) (max : nat) : A string :=
  text ← ok_or (value ≫= value_as_str) AuthError.InvalidClaims;
  fail_if (negb (sized max text) || contains_control text) AuthError.InvalidClaims;;
  Ok text.

(** A number is accepted where [as_i64] is defined on it. *)
Definition numeric_claim (claims : Claims) (name : string) : A (option Z) :=
  match bt_get name claims with
  | None | Some Value_Null => Ok None
  | Some (Value_Integer number) =>
      fail_if (negb (in_i64 number)) AuthError.InvalidClaims;; Ok (Some number)
  | Some _ => Err AuthError.InvalidClaims
  end.

Section authenticate.
Context `{AuthCrates} (self : Authority).

Abbreviation document := (Authority.document self).

Definition check_issuer (claims : Claims) : A unit :=
  issuer ← map_err (fun _ => AuthError.InvalidIssuer)
             (bounded_string (bt_get "iss" claims) MAX_ISSUER_BYTES);
  fail_if (bool_decide (issuer <> AuthorityDocument.issuer document)) AuthError.InvalidIssuer.

Definition check_audience (claims : Claims) : A unit :=
  let resource := AuthorityDocument.audience document in
  match bt_get "aud" claims with
  | Some (Value_String value) =>
      fail_if (bool_decide (value <> resource)) AuthError.InvalidAudience
  | Some (Value_Array values) =>
      fail_if (bool_decide (values = []) || bool_decide (MAX_AUDIENCE_ENTRIES < length values))
        AuthError.InvalidAudience;;
      matched ← try_fold (fun matched value =>
                  entry ← ok_or (value_as_str value) AuthError.InvalidAudience;
                  Ok (matched || bool_decide (entry = resource))) false values;
      fail_if (negb matched) AuthError.InvalidAudience
  | _ => Err AuthError.InvalidAudience
  end.

Definition check_time (claims : Claims) (now : Z) : A unit :=
  skew ← i64_of_u64 (AuthorityDocument.clock_skew_seconds document);
  max_age ← i64_of_u64 (AuthorityDocument.max_token_age_seconds document);
  exp ← numeric_claim claims "exp";
  exp ← ok_or exp AuthError.InvalidClaims;
  iat ← numeric_claim claims "iat";
  iat ← ok_or iat AuthError.InvalidClaims;
  nbf ← numeric_claim claims "nbf";
  fail_if (bool_decide (exp < iat)%Z) AuthError.InvalidClaims;;
  fail_if (bool_decide (exp ≤ i64_saturating_sub now skew)%Z) AuthError.TokenExpired;;
  fail_if (match nbf with
           | Some nbf => bool_decide (i64_saturating_add now skew < nbf)%Z
           | None => false
           end) AuthError.TokenNotYetValid;;
  fail_if (bool_decide (i64_saturating_add now skew < iat)%Z) AuthError.InvalidClaims;;
  fail_if (bool_decide (i64_saturating_add max_age skew < i64_saturating_sub now iat)%Z)
    AuthError.TokenTooOld.

Definition add_scope (scopes : list string) (token : string) : A (list string) :=
  fail_if (negb (is_scope_token token)) AuthError.InvalidClaims;;
  Ok (bs_insert token scopes).

(** The scopes of one claim, added to those found before. *)
Definition claim_scopes (claims : Claims) (scopes : list string) (claim : string)
    : A (list string) :=
  scopes ←
    match bt_get claim claims with
    | None | Some Value_Null => Ok scopes
    | Some (Value_String value) =>
        try_fold (fun scopes token =>
          if decide (token = EmptyString) then Ok scopes else add_scope scopes token)
          scopes (split (fun c => is_char 32 c || is_char 9 c) value)
    | Some (Value_Array values) =>
        fail_if (bool_decide (MAX_TOKEN_SCOPES < length values)) AuthError.InvalidClaims;;
        try_fold (fun scopes value =>
          token ← ok_or (value_as_str value) AuthError.InvalidClaims;
          add_scope scopes token) scopes values
    | Some _ => Err AuthError.InvalidClaims
    end;
  fail_if (bool_decide (MAX_TOKEN_SCOPES < length scopes)) AuthError.InvalidClaims;;
  Ok scopes.

Definition collect_scopes (claims : Claims) : A (list string) :=
  try_fold (claim_scopes claims) [] (Authority.scope_claims self).

(** ** The token *)

Definition is_jws (token : string) : bool :=
  match split (is_char 46) token with
  | [a; b; c] =>
      forallb (fun segment =>
        negb (bool_decide (segment = EmptyString)) && all_bytes is_base64url_byte segment)
        [a; b; c]
  | _ => false
  end.

Definition extract_bearer (header : string) : A string :=
  let trimmed := trim_matches (fun c => is_char 32 c || is_char 9 c) header in
  fail_if (bool_decide (trimmed = EmptyString)) AuthError.MissingCredentials;;
  '(scheme, rest) ←
    match split_once " "%char trimmed with
    | Some parts => Ok parts
    | None =>
        if eq_ignore_ascii_case trimmed "bearer" then Err AuthError.MissingCredentials
        else Err AuthError.MalformedRequest
    end;
  fail_if (negb (eq_ignore_ascii_case scheme "bearer")) AuthError.MalformedRequest;;
  let token := trim_start (is_char 32) rest in
  fail_if (bool_decide (token = EmptyString)) AuthError.MissingCredentials;;
  fail_if (any_byte is_ascii_whitespace token) AuthError.MalformedRequest;;
  let max := ServerLimits.max_token_bytes (AuthorityDocument.server_limits document) in
  fail_if (bool_decide (USIZE_MAX < max)%N) AuthError.Internal;;
  fail_if (bool_decide (max < N.of_nat (String.length token))%N) AuthError.TokenTooLarge;;
  fail_if (negb (is_ascii token)) AuthError.MalformedToken;;
  fail_if (negb (is_jws token)) AuthError.MalformedToken;;
  Ok token.

(** [u64::to_be_bytes]. *)
Definition be_bytes (n : N) : string :=
  foldr (fun i s => String (byte_of (N.land (N.shiftr n (8 * i)) 255)) s) EmptyString
    [7; 6; 5; 4; 3; 2; 1; 0]%N.

(** What the code of a pseudonym is computed from: each field with its length
    in front.  The length of a [str] always fits in 64 bits. *)
Definition pseudonym_message (issuer subject : string) : string :=
  PSEUDONYM_DOMAIN
  +:+ be_bytes (N.of_nat (String.length issuer)) +:+ issuer
  +:+ be_bytes (N.of_nat (String.length subject)) +:+ subject.

Definition pseudonym (subject : string) : A string :=
  mac ← ok_or (hmac_sha256 (Authority.pseudonym_key self)
                 (pseudonym_message (AuthorityDocument.issuer document) subject))
          AuthError.Internal;
  Ok (url_safe_no_pad mac).

(** Only the signature is left to the library. *)
Definition signature_only (alg : Algorithm) : Validation :=
  {| Validation.algorithms := [alg]; Validation.required_spec_claims := [];
     Validation.validate_exp := false; Validation.validate_nbf := false;
     Validation.validate_aud := false; Validation.leeway := 0; Validation.aud := None;
     Validation.iss := None; Validation.sub := None |}.

(** The key a header selects among the local ones. *)
Definition select_key (header : Header) : A VerificationKey :=
  fail_if (Header.jwk header || Header.jku header || Header.x5u header || Header.x5c header
           || Header.x5t header || Header.x5t_s256 header) AuthError.UnknownKey;;
  typ ← ok_or (Header.typ header) AuthError.UnsupportedTokenType;
  fail_if (bool_decide (to_ascii_lowercase typ ∉ Authority.token_types self))
    AuthError.UnsupportedTokenType;;
  fail_if (bool_decide (Header.alg header ∉ Authority.algorithms self))
    AuthError.UnsupportedAlgorithm;;
  kid ← ok_or (Header.kid header) AuthError.UnknownKey;
  fail_if (bool_decide (kid = EmptyString)) AuthError.UnknownKey;;
  key ← ok_or (bt_get kid (Authority.keys self)) AuthError.UnknownKey;
  fail_if (bool_decide (Header.alg header ∉ VerificationKey.algorithms key))
    AuthError.UnsupportedAlgorithm;;
  Ok key.

(** The claims of a token whose signature verifies. *)
Definition verified_claims (token : string) : A Claims :=
  header ← ok_or (decode_header token) AuthError.MalformedToken;
  key ← select_key header;
  data ← ok_or (decode token (VerificationKey.key key) (signature_only (Header.alg header)))
           AuthError.InvalidSignature;
  claims ← ok_or (match data with Value_Object claims => Some claims | _ => None end)
             AuthError.InvalidClaims;
  fail_if (bool_decide (claims = []) || bool_decide (MAX_TOKEN_CLAIMS < length claims))
    AuthError.InvalidClaims;;
  Ok claims.

Definition authenticate_at (authorization_header : string) (now_unix : Z)
    : A AuthenticatedPrincipal :=
  token ← extract_bearer authorization_header;
  claims ← verified_claims token;
  check_issuer claims;;
  check_audience claims;;
  check_time claims now_unix;;
  subject ← bounded_string (bt_get "sub" claims) MAX_SUBJECT_BYTES;
  token_scopes ← collect_scopes claims;
  record ← ok_or (bt_get subject (Authority.principals self)) AuthError.UnknownPrincipal;
  let granted := filter (fun s => s ∈ token_scopes) (PrincipalRecord.allowed_scopes record) in
  fail_if (bool_decide (granted = [])) AuthError.InsufficientScope;;
  let mutation_role :=
    if AuthorityDocument.remote_mutation_enabled document
       && bool_decide (AuthorityDocument.mutation_scope document ∈ granted)
    then PrincipalRecord.mutation_role record else None in
  audit_pseudonym ← pseudonym subject;
  Ok {| AuthenticatedPrincipal.authority_id := PrincipalRecord.authority_id record;
        AuthenticatedPrincipal.query_role := PrincipalRecord.query_role record;
        AuthenticatedPrincipal.mutation_role := mutation_role;
        AuthenticatedPrincipal.granted_scopes := granted;
        AuthenticatedPrincipal.rate_limit := PrincipalRecord.rate_limit record;
        AuthenticatedPrincipal.audit_pseudonym := audit_pseudonym |}.

(** [SystemTime::now()] as seconds since the epoch; [None] before it. *)
Definition authenticate (now : option N) (authorization_header : string)
    : A AuthenticatedPrincipal :=
  now ← ok_or now AuthError.Internal;
  now ← i64_of_u64 now;
  authenticate_at authorization_header now.
End authenticate.
