(* ===== verification/AuthSpec.v ===== *)
(** * What an authority accepts

    Declarative readings of the checks on a token: its presentation, the key it
    selects, its claims, the time it is valid and the scopes it carries.

    The second part says what a loaded authority guarantees. *)

From S2P Require Import Prelude Ordered Text StrOps Json Lsq Semantic Compiler Lsm Mutation.
From S2P Require Import Effects Database PublishedModel Executor Authority Authentication.

(** ** Claims *)

Lemma bounded_string_ok value max text :
  bounded_string value max = Ok text <->
  value = Some (Value_String text) /\ sized max text = true /\ contains_control text = false.
Proof.
  unfold bounded_string. rewrite bind_ok. setoid_rewrite guard_then. setoid_rewrite ok_or_ok.
  setoid_rewrite bind_Some. setoid_rewrite orb_false_iff. setoid_rewrite negb_false_iff. split.
  - intros (t & (v & -> & Hv) & [? ?] & [= ->]). destruct v; naive_solver.
  - intros (-> & ? & ?). exists text. split; [|done]. eexists. done.
Qed.

(** A number that is present, in the range of [i64]; [null] is absent. *)
Definition number_claim (claims : Claims) (name : string) (o : option Z) : Prop :=
  match o with
  | Some z => bt_get name claims = Some (Value_Integer z) /\ in_i64 z = true
  | None => bt_get name claims = None \/ bt_get name claims = Some Value_Null
  end.

Lemma numeric_claim_ok claims name o :
  numeric_claim claims name = Ok o <-> number_claim claims name o.
Proof.
  unfold numeric_claim, number_claim.
  destruct (bt_get name claims) as [[| |z| | | |]|]; try (destruct o; naive_solver).
  rewrite guard_then, negb_false_iff. destruct o; naive_solver.
Qed.

Section claims.
Context `{AuthCrates} (self : Authority).

Definition issuer_claimed (claims : Claims) : Prop :=
  bt_get "iss" claims = Some (Value_String (AuthorityDocument.issuer (Authority.document self)))
  /\ sized MAX_ISSUER_BYTES (AuthorityDocument.issuer (Authority.document self)) = true
  /\ contains_control (AuthorityDocument.issuer (Authority.document self)) = false.

Lemma check_issuer_ok claims u : check_issuer self claims = Ok u <-> issuer_claimed claims.
Proof.
  unfold check_issuer, issuer_claimed. rewrite bind_ok. setoid_rewrite map_err_ok.
  setoid_rewrite bounded_string_ok. setoid_rewrite fail_if_ok.
  setoid_rewrite bool_decide_eq_false. split.
  - intros (i & (? & ? & ?) & ->%dec_stable). done.
  - intros (? & ? & ?). eexists. split; [done|]. tauto.
Qed.

(** The audience is the resource, or lists it among at most sixteen strings. *)
Definition audience_claimed (claims : Claims) : Prop :=
  let resource := AuthorityDocument.audience (Authority.document self) in
  bt_get "aud" claims = Some (Value_String resource)
  \/ exists entries, bt_get "aud" claims = Some (Value_Array (map Value_String entries))
       /\ length entries <= MAX_AUDIENCE_ENTRIES /\ resource ∈ entries.

Lemma audience_loop resource values matched :
  forall b, try_fold (fun matched value =>
    entry ← ok_or (value_as_str value) AuthError.InvalidAudience;
    Ok (matched || bool_decide (entry = resource))) matched values = Ok b <->
  exists entries, values = map Value_String entries
    /\ b = matched || bool_decide (resource ∈ entries).
Proof.
  revert matched. induction values as [|v values IH]; intros matched b; simpl.
  - split; [intros [= ->]; exists []; by rewrite orb_false_r|].
    intros ([|e entries] & ? & ->); [|done]. by rewrite orb_false_r.
  - rewrite bind_ok. setoid_rewrite bind_ok. setoid_rewrite ok_or_ok. setoid_rewrite IH. split.
    + intros (m & (e & He & [= <-]) & entries & -> & ->). destruct v; simplify_eq/=.
      exists (e :: entries). split; [done|]. rewrite <- orb_assoc. f_equal.
      rewrite <- bool_decide_or. apply bool_decide_ext. rewrite elem_of_cons. naive_solver.
    + intros ([|e entries] & [= -> ->] & ->). eexists. split; [by exists e|].
      exists entries. split; [done|]. rewrite <- orb_assoc. f_equal.
      rewrite <- bool_decide_or. apply bool_decide_ext. rewrite elem_of_cons. naive_solver.
Qed.

Lemma check_audience_ok claims u : check_audience self claims = Ok u <-> audience_claimed claims.
Proof.
  unfold check_audience, audience_claimed.
  destruct (bt_get "aud" claims) as [[| | | |v|values|]|]; try naive_solver.
  - rewrite fail_if_ok, bool_decide_eq_false.
    split; [intros ->%dec_stable; by left|]. intros [[= ->]|(? & [=] & _)]. tauto.
  - rewrite guard_then, bind_ok. setoid_rewrite audience_loop. setoid_rewrite fail_if_ok.
    rewrite orb_false_iff, !bool_decide_eq_false. simpl. split.
    + intros ((Hne & Hlen) & b & (entries & -> & ->) & Hin). right. exists entries.
      rewrite length_map in Hlen. split_and!; [done|lia|]. by unbind.
    + intros [[=]|(entries & [= ->] & Hlen & Hin)]. rewrite length_map. split.
      { split; [|lia]. destruct entries; [by apply not_elem_of_nil in Hin|done]. }
      eexists. split; [by exists entries|]. by rewrite bool_decide_eq_true_2.
Qed.

(** The token is in its time window: issued before it expires and no later than
    now, not expired, valid by now and not too old, each up to the skew. *)
Definition in_time (claims : Claims) (now : Z) : Prop :=
  let skew := Z.of_N (AuthorityDocument.clock_skew_seconds (Authority.document self)) in
  let max_age := Z.of_N (AuthorityDocument.max_token_age_seconds (Authority.document self)) in
  exists exp iat nbf,
    number_claim claims "exp" (Some exp) /\ number_claim claims "iat" (Some iat)
    /\ number_claim claims "nbf" nbf
    /\ (iat <= exp)%Z /\ (now - skew < exp)%Z
    /\ (forall z, nbf = Some z -> z <= now + skew)%Z
    /\ (iat <= now + skew)%Z /\ (now - iat <= max_age + skew)%Z.

Lemma check_time_ok claims now u :
  (Z.of_N (AuthorityDocument.clock_skew_seconds (Authority.document self))
   + Z.of_N (AuthorityDocument.max_token_age_seconds (Authority.document self)) < I64_MAX)%Z ->
  (0 <= now <= I64_MAX)%Z ->
  check_time self claims now = Ok u <-> in_time claims now.
Proof.
  intros Hsum Hnow. unfold check_time, in_time, i64_of_u64.
  rewrite !(bool_decide_eq_false_2 (I64_MAX < _)%Z) by lia. simpl.
  assert (Hi : forall name z, number_claim claims name (Some z) -> (I64_MIN <= z <= I64_MAX)%Z).
  { intros name z [_ Hz]. by apply bool_decide_eq_true in Hz. }
  unfold i64_saturating_sub, i64_saturating_add, clamp_i64, I64_MIN, I64_MAX in *.
  split.
  - intros Hc. unbind. repeat match goal with
      | H : numeric_claim _ _ = Ok _ |- _ => apply numeric_claim_ok in H end. subst.
    match goal with
    | He : number_claim _ "exp" (Some ?e), Hia : number_claim _ "iat" (Some ?i),
      Hn : number_claim _ "nbf" ?n |- _ => exists e, i, n; pose proof (Hi _ _ He); pose proof (Hi _ _ Hia);
        refine (conj He (conj Hia (conj Hn _)))
    end.
    split_and!; [lia|lia| |lia|lia]. intros z ->. unbind. lia.
  - intros (exp & iat & nbf & He & Hia & Hn & H1 & H2 & H3 & H4 & H5).
    pose proof (Hi _ _ He). pose proof (Hi _ _ Hia). destruct u.
    rewrite (proj2 (numeric_claim_ok claims "exp" (Some exp)) He),
      (proj2 (numeric_claim_ok claims "iat" (Some iat)) Hia),
      (proj2 (numeric_claim_ok claims "nbf" nbf) Hn). simpl. rewrite !bool_decide_eq_false_2 by lia. simpl.
    destruct nbf as [z|]; [|done]. pose proof (Hi _ _ Hn). specialize (H3 z eq_refl).
    by rewrite bool_decide_eq_false_2 by lia.
Qed.
End claims.

(** ** Scopes *)

(** The scopes a claim carries: words of a text, or entries of a list. *)
Inductive scopes_in (claims : Claims) (claim : string) : list string -> Prop :=
| scopes_absent :
    bt_get claim claims = None \/ bt_get claim claims = Some Value_Null ->
    scopes_in claims claim []
| scopes_text text :
    bt_get claim claims = Some (Value_String text) ->
    Forall (fun s => is_scope_token s = true)
      (filter (.≠ EmptyString) (split (fun c => is_char 32 c || is_char 9 c) text)) ->
    scopes_in claims claim
      (filter (.≠ EmptyString) (split (fun c => is_char 32 c || is_char 9 c) text))
| scopes_list scopes :
    bt_get claim claims = Some (Value_Array (map Value_String scopes)) ->
    length scopes <= MAX_TOKEN_SCOPES ->
    Forall (fun s => is_scope_token s = true) scopes ->
    scopes_in claims claim scopes.

Abbreviation insert_all scopes acc := (foldl (fun s k => bs_insert k s) acc scopes).

Lemma add_scope_ok scopes token scopes' :
  add_scope scopes token = Ok scopes' <->
  is_scope_token token = true /\ scopes' = bs_insert token scopes.
Proof. unfold add_scope. rewrite guard_then, negb_false_iff. naive_solver. Qed.

Lemma text_scopes tokens acc acc' :
  try_fold (fun scopes token =>
    if decide (token = EmptyString) then Ok scopes else add_scope scopes token) acc tokens
  = Ok acc' <->
  Forall (fun s => is_scope_token s = true) (filter (.≠ EmptyString) tokens)
  /\ acc' = insert_all (filter (.≠ EmptyString) tokens) acc.
Proof.
  revert acc. induction tokens as [|t tokens IH]; intros acc; simpl; [naive_solver|].
  rewrite bind_ok, filter_cons. destruct (decide (t = EmptyString)) as [->|Ht].
  - rewrite decide_False by tauto. setoid_rewrite IH. naive_solver.
  - rewrite decide_True by done. setoid_rewrite add_scope_ok. setoid_rewrite IH.
    rewrite Forall_cons. naive_solver.
Qed.

Lemma list_scopes values acc acc' :
  try_fold (fun scopes value =>
    token ← ok_or (value_as_str value) AuthError.InvalidClaims; add_scope scopes token) acc values
  = Ok acc' <->
  exists scopes, values = map Value_String scopes
    /\ Forall (fun s => is_scope_token s = true) scopes /\ acc' = insert_all scopes acc.
Proof.
  revert acc. induction values as [|v values IH]; intros acc; simpl.
  - split; [intros [= ->]; by exists []|]. intros ([|? ?] & ? & _ & ->); done.
  - rewrite bind_ok. setoid_rewrite bind_ok. setoid_rewrite ok_or_ok. setoid_rewrite add_scope_ok.
    setoid_rewrite IH. split.
    + intros (acc1 & (t & Ht & Hok & ->) & scopes & -> & Hs & ->). destruct v; simplify_eq/=.
      exists (t :: scopes). by rewrite Forall_cons.
    + intros ([|t scopes] & [= -> ->] & [Ht Hs]%Forall_cons & ->). eauto 10.
Qed.

Lemma claim_scopes_ok claims acc claim acc' :
  claim_scopes claims acc claim = Ok acc' <->
  exists scopes, scopes_in claims claim scopes /\ acc' = insert_all scopes acc
    /\ length acc' <= MAX_TOKEN_SCOPES.
Proof.
  unfold claim_scopes. rewrite bind_ok. setoid_rewrite guard_then.
  setoid_rewrite bool_decide_eq_false. split.
  - intros (acc1 & Hacc & Hlen & [= ->]).
    destruct (bt_get claim claims) as [[| | | |text|values|]|] eqn:Hc; try done.
    + injection Hacc as ->. exists []. split_and!; [apply scopes_absent; auto|done|lia].
    + apply text_scopes in Hacc as [? ->]. eexists. split_and!; [by apply scopes_text|done|lia].
    + rewrite guard_then, bool_decide_eq_false, list_scopes in Hacc.
      destruct Hacc as (? & scopes & -> & ? & ->). rewrite length_map in *.
      exists scopes. split_and!; [apply scopes_list; [done|lia|done]|done|lia].
    + injection Hacc as ->. exists []. split_and!; [apply scopes_absent; auto|done|lia].
  - intros (scopes & Hs & -> & Hlen). eexists. split; [|split; [|done]; lia].
    destruct Hs as [[Hc|Hc]|text Hc Hall|scopes Hc Hl Hall]; rewrite Hc; [done|done| |].
    + by apply text_scopes.
    + rewrite guard_then, bool_decide_eq_false, length_map, list_scopes. split; [lia|eauto].
Qed.

Lemma bs_insert_length (k : string) s : length s <= length (bs_insert k s).
Proof.
  induction s as [|x s IH]; simpl; [lia|]. repeat case_decide; simpl; lia.
Qed.

Lemma insert_all_length (scopes acc : list string) : length acc <= length (insert_all scopes acc).
Proof.
  revert acc. induction scopes as [|s scopes IH]; intros acc; simpl; [done|].
  etrans; [apply (bs_insert_length s)|apply IH].
Qed.

(** All scopes of a token: those of each scope claim, at most sixty-four. *)
Definition token_scopes (names : list string) (claims : Claims) (scopes : list string) : Prop :=
  exists found, Forall2 (scopes_in claims) names found
    /\ scopes = bs_from_list (concat found) /\ length scopes <= MAX_TOKEN_SCOPES.

Lemma collect_scopes_fold claims names acc scopes :
  length acc <= MAX_TOKEN_SCOPES ->
  try_fold (claim_scopes claims) acc names = Ok scopes <->
  exists found, Forall2 (scopes_in claims) names found
    /\ scopes = insert_all (concat found) acc /\ length scopes <= MAX_TOKEN_SCOPES.
Proof.
  revert acc. induction names as [|name names IH]; intros acc Hacc; simpl.
  - split; [intros [= ->]; by exists []|]. by intros (found & ->%Forall2_nil_inv_l & -> & _).
  - rewrite bind_ok. setoid_rewrite claim_scopes_ok. split.
    + intros (acc1 & (own & Hown & -> & Hlen) & Hrest). apply IH in Hrest; [|done].
      destruct Hrest as (found & Hf & -> & Hl). exists (own :: found). simpl.
      rewrite foldl_app. split_and!; [by constructor|done|done].
    + intros (found & Hf & -> & Hl). apply Forall2_cons_inv_l in Hf as (own & found' & Hown & Hf & ->).
      simpl in *. rewrite foldl_app in *.
      assert (length (insert_all own acc) <= MAX_TOKEN_SCOPES).
      { etrans; [apply (insert_all_length (concat found'))|done]. }
      eexists. split; [by exists own|]. apply IH; [done|]. by exists found'.
Qed.

Lemma collect_scopes_ok `{AuthCrates} self claims scopes :
  collect_scopes self claims = Ok scopes <->
  token_scopes (Authority.scope_claims self) claims scopes.
Proof. apply collect_scopes_fold. unfold MAX_TOKEN_SCOPES. simpl. lia. Qed.

(** ** Presentation *)

Definition space_or_tab (c : ascii) : bool := is_char 32 c || is_char 9 c.

(** A compact JWS: three segments of base64url characters. *)
Definition compact_jws (token : string) : Prop :=
  exists a b c, token = a +:+ "." +:+ b +:+ "." +:+ c
    /\ Forall (fun s => s <> EmptyString /\ all_in is_base64url_byte s) [a; b; c].

Lemma base64url_no_dot s : all_in is_base64url_byte s -> no_byte (is_char 46) s.
Proof.
  unfold all_in, no_byte. intros Hs. eapply Forall_impl; [exact Hs|]. intros c Hc.
  unfold is_char. apply bool_decide_eq_false. intros Hd. revert Hc.
  unfold is_base64url_byte, is_ascii_alphanumeric, is_ascii_alphabetic, in_range, is_ascii_digit, is_char.
  rewrite Hd. by vm_compute.
Qed.

Lemma is_jws_ok token : is_jws token = true <-> compact_jws token.
Proof.
  unfold is_jws, compact_jws.
  assert (Hseg : forall l, forallb (fun s => negb (bool_decide (s = EmptyString))
                    && all_bytes is_base64url_byte s) l = true
                <-> Forall (fun s => s <> EmptyString /\ all_in is_base64url_byte s) l).
  { intros l. rewrite forallb_Forall. apply Forall_iff. intros s.
    rewrite andb_true_iff, negb_true_iff, bool_decide_eq_false, all_bytes_spec. done. }
  split.
  - destruct (join_split (is_char 46) "."%char token) as [Ht _].
    { intros c Hc%bool_decide_eq_true. by rewrite <- (ascii_N_embedding c), Hc. }
    destruct (split (is_char 46) token) as [|a [|b [|c [|d l]]]]; try done.
    rewrite Hseg. intros Hall. exists a, b, c. split; [exact Ht|done].
  - intros (a & b & c & -> & Hall).
    change (a +:+ "." +:+ b +:+ "." +:+ c) with (join "." [a; b; c]).
    rewrite split_join; [by apply Hseg|done|done|].
    eapply Forall_impl; [exact Hall|]. intros s [_ Hs]. by apply base64url_no_dot.
Qed.

Lemma bytes_lowercase s : bytes (to_ascii_lowercase s) = map lower (bytes s).
Proof. induction s as [|c s IH]; simpl; by rewrite ?IH. Qed.

(** A scheme that reads [bearer] has no blanks. *)
Lemma bearer_no_blank scheme c :
  eq_ignore_ascii_case scheme "bearer" = true -> c ∈ bytes scheme -> space_or_tab c = false.
Proof.
  unfold eq_ignore_ascii_case. intros Hs%bool_decide_eq_true Hc.
  apply (list_elem_of_fmap_2 lower) in Hc. change (lower <$> bytes scheme) with (map lower (bytes scheme)) in Hc.
  rewrite <- bytes_lowercase, Hs in Hc. apply not_true_iff_false. intros Hb.
  assert (Hl : lower c = c /\ code c = 32%N \/ lower c = c /\ code c = 9%N).
  { unfold space_or_tab, is_char in Hb. apply orb_true_iff in Hb as [Hb|Hb];
      apply bool_decide_eq_true in Hb; [left|right]; split; try done;
      unfold lower, is_ascii_uppercase, in_range; by rewrite Hb. }
  destruct Hl as [[Hl Hd]|[Hl Hd]]; rewrite Hl in Hc;
    rewrite <- (ascii_N_embedding c), Hd in Hc; vm_compute in Hc;
    repeat (apply elem_of_cons in Hc as [Hc|Hc]; [discriminate Hc|]); by apply not_elem_of_nil in Hc.
Qed.

Lemma base64url_plain c :
  is_base64url_byte c = true ->
  space_or_tab c = false /\ is_ascii_whitespace c = false /\ (code c < 128)%N.
Proof.
  unfold is_base64url_byte, is_ascii_alphanumeric, is_ascii_alphabetic, in_range, is_ascii_digit,
    space_or_tab, is_ascii_whitespace, is_char. intros Hc.
  repeat rewrite orb_true_iff in Hc. rewrite !bool_decide_eq_true in Hc.
  rewrite orb_false_iff, !bool_decide_eq_false, !not_elem_of_cons. split_and!; try lia.
  apply not_elem_of_nil.
Qed.

Lemma dot_plain : space_or_tab "."%char = false /\ is_ascii_whitespace "."%char = false.
Proof. by vm_compute. Qed.

Lemma jws_bytes token c :
  compact_jws token -> c ∈ bytes token -> is_base64url_byte c = true \/ c = "."%char.
Proof.
  unfold all_in. intros (x & y & z & -> & Hall) Hc. rewrite !bytes_app in Hc.
  rewrite !Forall_cons in Hall. setoid_rewrite Forall_forall in Hall.
  rewrite !elem_of_app in Hc. destruct Hall as ([_ Hx] & [_ Hy] & [_ Hz] & _).
  destruct Hc as [?|[[->|?%not_elem_of_nil]%elem_of_cons|[?|[[->|?%not_elem_of_nil]%elem_of_cons|?]]]];
    auto.
Qed.

Lemma jws_plain token c :
  compact_jws token -> c ∈ bytes token ->
  space_or_tab c = false /\ is_ascii_whitespace c = false /\ (code c < 128)%N.
Proof.
  intros Ht Hc. destruct (jws_bytes token c Ht Hc) as [?| ->]; [by apply base64url_plain|].
  by vm_compute.
Qed.

Lemma jws_nonempty token : compact_jws token -> token <> EmptyString.
Proof. intros ([|? ?] & y & z & -> & [[? _] _]%Forall_cons); done. Qed.

(** The header is the scheme and a token, with blanks around them. *)
Definition presented (header token : string) : Prop :=
  exists before scheme spaces after,
    header = before +:+ (scheme +:+ String " " (spaces +:+ token)) +:+ after
    /\ all_in space_or_tab before /\ all_in (is_char 32) spaces /\ all_in space_or_tab after
    /\ eq_ignore_ascii_case scheme "bearer" = true.

Lemma presented_trim before scheme spaces token after :
  all_in space_or_tab before -> all_in space_or_tab after ->
  eq_ignore_ascii_case scheme "bearer" = true -> compact_jws token ->
  trim_matches space_or_tab (before +:+ (scheme +:+ String " " (spaces +:+ token)) +:+ after)
  = scheme +:+ String " " (spaces +:+ token).
Proof.
  intros Hb Ha Hs Ht. unfold trim_matches. rewrite trim_start_app by done.
  rewrite trim_start_id.
  - apply trim_end_app; [|done]. unfold ends_without.
    rewrite bytes_app. simpl. rewrite bytes_app.
    destruct (last (bytes token)) as [c|] eqn:Hl.
    + exists c. split; [|eapply jws_plain; [exact Ht|by apply last_Some_elem_of]].
      rewrite last_app, last_cons, last_app, Hl. done.
    + apply last_None in Hl. apply jws_nonempty in Ht. by destruct token.
  - destruct scheme as [|c scheme]; [by vm_compute in Hs|]. simpl.
    eapply bearer_no_blank; [exact Hs|]. left.
Qed.

Lemma presented_parts scheme spaces token :
  eq_ignore_ascii_case scheme "bearer" = true -> all_in (is_char 32) spaces -> compact_jws token ->
  split_once " "%char (scheme +:+ String " " (spaces +:+ token)) = Some (scheme, spaces +:+ token)
  /\ trim_start (is_char 32) (spaces +:+ token) = token.
Proof.
  intros Hs Hsp Ht. split.
  - apply split_once_app. intros Hin. by apply (bearer_no_blank _ _ Hs) in Hin.
  - rewrite trim_start_app by done. apply trim_start_id. destruct token as [|c token]; [done|].
    destruct (jws_plain (String c token) c Ht) as [Hc _]; [left|]. simpl.
    by apply orb_false_iff in Hc as [? _].
Qed.

Section tokens.
Context `{AuthCrates} (self : Authority).

Abbreviation token_limit :=
  (ServerLimits.max_token_bytes (AuthorityDocument.server_limits (Authority.document self))).

Lemma extract_bearer_ok header token :
  (token_limit <= USIZE_MAX)%N ->
  extract_bearer self header = Ok token <->
  presented header token /\ compact_jws token /\ (N.of_nat (String.length token) <= token_limit)%N.
Proof.
  intros Hmax. unfold extract_bearer. change (fun c => is_char 32 c || is_char 9 c) with space_or_tab.
  split.
  - intros He. unbind.
    match goal with H : match split_once _ ?t with _ => _ end = Ok _ |- _ =>
      destruct (split_once _ t) as [[s' r']|] eqn:Hsplit; [|case_match; done]; simplify_eq end.
    apply split_once_some in Hsplit as [Hsplit _].
    match goal with H : is_jws _ = true |- _ => apply is_jws_ok in H; rename H into Hjws end.
    match goal with H : eq_ignore_ascii_case ?s "bearer" = true |- _ => rename H into Hbearer end.
    split_and!; [|done|lia].
    destruct (trim_start_split space_or_tab header) as (before & Hh & Hbefore & _).
    destruct (trim_end_split space_or_tab (trim_start space_or_tab header)) as (after & Ht & Hafter).
    destruct (trim_start_split (is_char 32) s0) as (spaces & Hr & Hspaces & _).
    exists before, s, spaces, after. split_and!; try done.
    rewrite Hh at 1. rewrite Ht at 1. f_equal. f_equal.
    unfold trim_matches in Hsplit. rewrite Hsplit. by rewrite Hr at 1.
  - intros ((before & scheme & spaces & after & -> & Hb & Hsp & Ha & Hs) & Ht & Hlen).
    rewrite presented_trim by done. destruct (presented_parts scheme spaces token) as [Hp1 Hp2]; [done..|].
    rewrite (bool_decide_eq_false_2 (_ = EmptyString)) by by destruct scheme. simpl.
    rewrite Hp1. simpl. rewrite Hs, Hp2. simpl.
    rewrite (bool_decide_eq_false_2 (token = EmptyString)) by by apply jws_nonempty. simpl.
    assert (any_byte is_ascii_whitespace token = false) as ->.
    { apply any_byte_false, Forall_forall. intros c Hc. by eapply jws_plain. }
    simpl. rewrite !bool_decide_eq_false_2 by lia. simpl.
    assert (is_ascii token = true) as ->.
    { apply all_bytes_spec, Forall_forall. intros c Hc. apply bool_decide_eq_true.
      by eapply jws_plain. }
    simpl. by rewrite (proj2 (is_jws_ok token) Ht).
Qed.

(** A local key that the header names by id, for an algorithm allowed both by the
    document and for the key; the token brings no key of its own. *)
Record trusted_key (header : Header) (key : VerificationKey) : Prop := {
  tk_own : Header.jwk header = false /\ Header.jku header = false /\ Header.x5u header = false
    /\ Header.x5c header = false /\ Header.x5t header = false /\ Header.x5t_s256 header = false;
  tk_type : exists typ, Header.typ header = Some typ
    /\ to_ascii_lowercase typ ∈ Authority.token_types self;
  tk_algorithm : Header.alg header ∈ Authority.algorithms self;
  tk_local : exists kid, Header.kid header = Some kid /\ kid <> EmptyString
    /\ bt_get kid (Authority.keys self) = Some key;
  tk_key_algorithm : Header.alg header ∈ VerificationKey.algorithms key;
}.

Lemma select_key_ok header key : select_key self header = Ok key <-> trusted_key header key.
Proof.
  unfold select_key. split.
  - intros Hk. unbind. constructor; repeat match goal with
      | H : ~ (_ ∉ _) |- _ => apply dec_stable in H end; eauto. done.
  - intros [(H1 & H2 & H3 & H4 & H5 & H6) (typ & Ht & Htt) Ha (kid & Hk & Hne & Hget) Hka].
    rewrite H1, H2, H3, H4, H5, H6, Ht. simpl. rewrite bool_decide_eq_false_2 by tauto. simpl.
    rewrite bool_decide_eq_false_2 by tauto. simpl. rewrite Hk. simpl.
    rewrite bool_decide_eq_false_2 by done. simpl. rewrite Hget. simpl.
    by rewrite bool_decide_eq_false_2 by tauto.
Qed.

(** The claims of a token that such a key verifies. *)
Definition verified (token : string) (claims : Claims) : Prop :=
  exists header key, decode_header token = Some header /\ trusted_key header key
    /\ decode token (VerificationKey.key key) (signature_only (Header.alg header))
       = Some (Value_Object claims)
    /\ 1 <= length claims <= MAX_TOKEN_CLAIMS.

Lemma verified_claims_ok token claims :
  verified_claims self token = Ok claims <-> verified token claims.
Proof.
  unfold verified_claims, verified. split.
  - intros Hc. unbind.
    match goal with H : select_key _ _ = Ok _ |- _ => apply select_key_ok in H end.
    match goal with H : match ?d with _ => _ end = Some _ |- _ => destruct d; simplify_eq end.
    eexists _, _. split_and!; try done; [|lia].
    destruct claims; [done|]. simpl. lia.
  - intros (header & key & Hh & Hk & Hd & Hlen). rewrite Hh. simpl.
    apply select_key_ok in Hk. rewrite Hk. simpl. rewrite Hd. simpl.
    rewrite !bool_decide_eq_false_2; [done|lia|]. intros ->. simpl in Hlen. lia.
Qed.
End tokens.

(** * What a loaded authority guarantees

    The consistency of an authority that was validated and assembled: its keys,
    its principals, their roles and scopes, and its bounds. *)

(** ** Roles *)

(** A role the executors accept, outside PostgreSQL's reserved names. *)
Definition usable_role (role : string) : Prop :=
  valid_database_role role = true
  /\ ~ (3 <= String.length role /\ to_ascii_lowercase (String.substring 0 3 role) = "pg_").

Lemma name_start c : is_ascii_alphabetic c || is_char 95 c = is_name_start c.
Proof. reflexivity. Qed.

Lemma name_rest c : is_ascii_alphanumeric c || is_char 95 c = is_name_start c || is_ascii_digit c.
Proof.
  unfold is_ascii_alphanumeric, is_name_start, is_ascii_alphabetic, in_range, is_char.
  destruct (bool_decide _), (bool_decide _), (bool_decide _), (is_ascii_digit c); done.
Qed.

Lemma validate_role_ok role : validate_role role = Ok tt <-> usable_role role.
Proof.
  unfold validate_role, usable_role, valid_database_role, sized, eq_ignore_ascii_case.
  destruct role as [|c role]; [naive_solver|].
  change (valid_environment_variable_name (String c role)) with
    (is_name_start c && all_bytes (fun c => is_name_start c || is_ascii_digit c) role).
  rewrite guard_then. simpl mbind. rewrite !guard_then, fail_if_ok, name_start.
  rewrite (all_bytes_ext _ _ role name_rest).
  rewrite bool_decide_eq_false_2 by done. rewrite !negb_false_iff, !andb_true_iff.
  rewrite andb_false_iff, !bool_decide_eq_false, !bool_decide_eq_true.
  change (to_ascii_lowercase "pg_") with "pg_". destruct (decide (3 <= String.length (String c role))); tauto.
Qed.

(** ** Loops *)

Lemma bool_decide_eq_iff (P Q : Prop) `{!Decision P, !Decision Q} :
  bool_decide P = bool_decide Q -> (P <-> Q).
Proof. destruct (bool_decide_reflect P), (bool_decide_reflect Q); naive_solver. Qed.

Lemma imap_pair_snd {B} (l : list B) : (imap pair l).*2 = l.
Proof.
  rewrite fmap_imap. induction l as [|x l IH] using rev_ind; [done|].
  by rewrite imap_app, IH.
Qed.

Lemma unique_entries check duplicate entries seen :
  check_unique_entries check duplicate entries = Ok seen ->
  NoDup entries /\ (forall s, s ∈ seen <-> s ∈ entries)
  /\ forall s, s ∈ entries -> exists i u, check i s = Ok u.
Proof.
  unfold check_unique_entries.
  enough (forall l acc, try_fold (fun seen '(index, entry) =>
      check index entry;; fail_if (bool_decide (entry ∈ seen)) (duplicate index);;
      Ok (bs_insert entry seen)) acc l = Ok seen ->
    (forall s, s ∈ l.*2 -> s ∉ acc) /\ NoDup l.*2 /\ (forall s, s ∈ seen <-> s ∈ acc \/ s ∈ l.*2)
    /\ forall s, s ∈ l.*2 -> exists i u, check i s = Ok u) as Hloop.
  { intros (_ & Hnd & Hs & Hc)%Hloop.
    assert (Hsnd : (imap pair entries).*2 = entries).
    { apply imap_pair_snd. }
    rewrite Hsnd in *. split_and!; [done| |done]. intros s. rewrite Hs. set_solver. }
  induction l as [|[i s] l IH]; intros acc; simpl.
  { intros [= ->]. split_and!; [set_solver|constructor|set_solver|].
    by intros s ?%not_elem_of_nil. }
  intros Hl. unbind.
  match goal with H : try_fold _ _ _ = Ok _ |- _ => apply IH in H as (Hnew & Hnd & Hseen & Hc) end.
  split_and!.
  - intros s' [->|Hs']%elem_of_cons; [done|]. apply Hnew in Hs'. rewrite elem_of_bs_insert in Hs'. tauto.
  - constructor; [|done]. intros Hs. apply Hnew in Hs. rewrite elem_of_bs_insert in Hs. tauto.
  - intros s'. rewrite Hseen, elem_of_bs_insert, elem_of_cons. tauto.
  - intros s' [->|Hs']%elem_of_cons; [eauto|auto].
Qed.

(** ** Principals *)

Section principals.
Context (document : AuthorityDocument).

Record principal_ok (p : PrincipalConfig) : Prop := {
  po_query : usable_role (PrincipalConfig.query_role p);
  po_mutation : forall role, PrincipalConfig.mutation_role p = Some role ->
    usable_role role /\ role <> PrincipalConfig.query_role p;
  po_scopes : PrincipalConfig.allowed_scopes p ⊆ AuthorityDocument.scopes_supported document;
  po_query_scope : AuthorityDocument.query_scope document ∈ PrincipalConfig.allowed_scopes p;
  po_mutation_scope :
    AuthorityDocument.mutation_scope document ∈ PrincipalConfig.allowed_scopes p
    <-> is_Some (PrincipalConfig.mutation_role p);
  po_limits : let limit := PrincipalConfig.rate_limit p in
    (1 <= RateLimitConfig.max_concurrent limit <= RateLimitConfig.burst limit
     /\ RateLimitConfig.burst limit <= RateLimitConfig.requests_per_minute limit
     /\ RateLimitConfig.requests_per_minute limit <= 1000000)%N;
  po_authority : is_authority_id (PrincipalConfig.authority_id p) = true;
}.

Lemma validate_principal_ok index p u :
  is_authority_id (PrincipalConfig.authority_id p) = true ->
  validate_principal document (bs_from_list (AuthorityDocument.scopes_supported document)) index p
  = Ok u -> principal_ok p.
Proof.
  unfold validate_principal, validate_rate_limit, outside. intros Hid Hp. unbind.
  repeat match goal with H : validate_role _ = Ok ?x |- _ => destruct x; apply validate_role_ok in H end.
  match goal with H : transpose _ _ = Ok _ |- _ =>
    rewrite transpose_ok in H; rename H into Hmutation end.
  match goal with H : try_each _ _ = Ok _ |- _ => apply try_each_ok in H; rename H into Hsub end.
  match goal with H : eqb _ _ = true |- _ => apply eqb_prop, bool_decide_eq_iff in H; rename H into Hexactly end.
  match goal with H : _ && _ = false |- _ =>
    rewrite andb_false_iff, !bool_decide_eq_false in H; rename H into Hdistinct end.
  constructor; try done; [| |cbv zeta; lia].
  - intros role Hrole. destruct Hmutation as [[Hn _]|(r & [] & Hr & _ & Hv)]; [congruence|].
    rewrite Hr in Hrole. injection Hrole as ->. apply map_err_ok, validate_role_ok in Hv.
    split; [done|]. intros ->. destruct Hdistinct as [Hd|Hd]; [|congruence].
    apply Hd, Hexactly. by eexists.
  - intros s Hs. rewrite Forall_forall in Hsub. apply Hsub, fail_if_ok in Hs. unbind.
    match goal with H : ~ (_ ∉ _) |- _ => apply dec_stable in H end.
    by apply elem_of_bs_from_list.
Qed.

Lemma check_principals_ok l st st' :
  try_fold (check_principal document (bs_from_list (AuthorityDocument.scopes_supported document)))
    st l = Ok st' ->
  Forall principal_ok (l.*2)
  /\ NoDup (map PrincipalConfig.subject (l.*2)) /\ NoDup (map PrincipalConfig.authority_id (l.*2))
  /\ forall p, p ∈ l.*2 ->
       ~ (PrincipalConfig.subject p ∈ (st.1).1) /\ ~ (PrincipalConfig.authority_id p ∈ (st.1).2).
Proof.
  revert st. induction l as [|[i p] l IH]; intros [[subjects ids] capable]; simpl.
  { intros _. split_and!; [constructor..|]. by intros p ?%not_elem_of_nil. }
  intros (st1 & Hp & Hl)%bind_ok. unbind.
  match goal with H : validate_principal _ _ _ _ = Ok _ |- _ =>
    apply validate_principal_ok in H; [|done] end.
  apply IH in Hl as (Hok & Hs & Hids & Hnew). simpl in Hnew. setoid_rewrite elem_of_bs_insert in Hnew. split_and!.
  - by constructor.
  - constructor; [|done]. intros (q & Hq & Hin)%list_elem_of_fmap. apply Hnew in Hin. naive_solver.
  - constructor; [|done]. intros (q & Hq & Hin)%list_elem_of_fmap. apply Hnew in Hin. naive_solver.
  - intros q [->|Hq]%elem_of_cons; [done|]. apply Hnew in Hq. naive_solver.
Qed.
End principals.

(** ** Keys *)

Section keys.
Context `{AuthCrates}.

(** A verification key comes from a signature key of the set, with algorithms
    that its type and the document allow. *)
Record key_from (allowed : list Algorithm) (set : list Jwk) (kid : string)
    (key : VerificationKey) : Prop := {
  kf_kid : kid <> EmptyString;
  kf_algorithms : VerificationKey.algorithms key <> [];
  kf_jwk : exists jwk supported, jwk ∈ set /\ Jwk.key_id jwk = Some kid
    /\ from_jwk jwk = Some (VerificationKey.key key)
    /\ key_algorithms jwk = Ok supported
    /\ VerificationKey.algorithms key ⊆ supported
    /\ VerificationKey.algorithms key ⊆ allowed;
}.

Lemma narrowed_ok allowed jwk algorithms :
  narrowed_algorithms allowed jwk = Ok algorithms ->
  algorithms <> [] /\ exists supported, key_algorithms jwk = Ok supported
    /\ algorithms ⊆ supported /\ algorithms ⊆ allowed.
Proof.
  unfold narrowed_algorithms. intros (supported & Hs & Hn)%bind_ok.
  set (fs := filter _ supported) in Hn.
  assert (fs ⊆ supported /\ fs ⊆ allowed) as [Hf1 Hf2].
  { split; intros a [? ?]%list_elem_of_filter; done. }
  unbind. destruct (Jwk.key_algorithm jwk) as [declared|]; unbind.
  - match goal with H : ~ (_ ∉ _) |- _ => apply dec_stable in H; rename H into Hin end.
    split; [done|]. exists supported. split_and!; [done| |]; intros a ->%list_elem_of_singleton; auto.
  - split; [done|]. by exists supported.
Qed.

Lemma load_key_ok allowed set jwk kid key :
  jwk ∈ set -> load_key allowed jwk = Ok (kid, key) -> key_from allowed set kid key.
Proof.
  unfold load_key. intros Hin Hk. unbind. simplify_eq.
  match goal with H : narrowed_algorithms _ _ = Ok _ |- _ =>
    apply narrowed_ok in H as (Hne & supported & Hs & Hsub & Hall) end.
  constructor; [|done|].
  - match goal with H : sized _ _ = true |- _ => apply andb_true_iff in H as [Hk _] end.
    by apply negb_true_iff, bool_decide_eq_false in Hk.
  - by exists jwk, supported.
Qed.

Lemma add_keys_ok allowed set l keys keys' :
  (forall e, e ∈ l -> e.2 ∈ set) ->
  try_fold (add_key allowed) keys l = Ok keys' ->
  (forall kid key, bt_get kid keys = Some key -> key_from allowed set kid key) ->
  forall kid key, bt_get kid keys' = Some key -> key_from allowed set kid key.
Proof.
  revert keys. induction l as [|[i jwk] l IH]; intros keys Hset; simpl; [by intros [= ->]|].
  intros (keys1 & Hk & Hl)%bind_ok Hkeys. apply (IH keys1); [|done|].
  { intros e He. apply Hset. by right. }
  unfold add_key in Hk. unbind. intros kid' key' Hget.
  match goal with H : load_key _ _ = Ok (?kid, ?key) |- _ =>
    apply (load_key_ok _ set) in H; [|apply (Hset (i, jwk)); left] end.
  match goal with Hg : bt_get kid' (bt_insert ?kid _ _) = _ |- _ =>
    destruct (decide (kid = kid')) as [->|Hne] end.
  - rewrite bt_get_insert_eq in Hget. by injection Hget as <-.
  - rewrite bt_get_insert_ne in Hget by done. by apply Hkeys.
Qed.

Lemma imap_pair_elem {B} (l : list B) e : e ∈ imap pair l -> e.2 ∈ l.
Proof. intros He. rewrite <- (imap_pair_snd l). by apply list_elem_of_fmap_2. Qed.

Lemma load_keys_ok bytes_ allowed keys :
  load_keys bytes_ allowed = Ok keys ->
  exists set, jwks_from_slice bytes_ = Some set
    /\ forall kid key, bt_get kid keys = Some key -> key_from allowed set kid key.
Proof.
  unfold load_keys. intros (set & Hset%ok_or_ok & Hk)%bind_ok. unbind. exists set. split; [done|].
  eapply add_keys_ok; [|done|done]. intros e. apply imap_pair_elem.
Qed.
End keys.

(** ** The authority *)

Section authority.
Context `{AuthCrates}.

(** The algorithms that can be configured are signatures with public keys. *)
Definition public_key_algorithms : list Algorithm :=
  [Algorithm.RS256; Algorithm.RS384; Algorithm.RS512; Algorithm.ES256; Algorithm.ES384;
   Algorithm.EdDSA].

Record consistent (self : Authority) : Prop := {
  co_skew : (AuthorityDocument.clock_skew_seconds (Authority.document self) <= 300)%N;
  co_age :
    (1 <= AuthorityDocument.max_token_age_seconds (Authority.document self) <= 86400)%N;
  co_token_bytes : (ServerLimits.max_token_bytes
      (AuthorityDocument.server_limits (Authority.document self)) <= 65536)%N;
  co_audience : AuthorityDocument.audience (Authority.document self)
    = AuthorityDocument.resource (Authority.document self);
  co_scopes : AuthorityDocument.query_scope (Authority.document self)
    <> AuthorityDocument.mutation_scope (Authority.document self);
  co_algorithms : Authority.algorithms self ⊆ public_key_algorithms;
  co_keys : exists jwks_bytes set, jwks_from_slice jwks_bytes = Some set
    /\ forall kid key, bt_get kid (Authority.keys self) = Some key ->
         key_from (Authority.algorithms self) set kid key;
  co_principals : forall subject record,
    bt_get subject (Authority.principals self) = Some record <->
    exists p, p ∈ AuthorityDocument.principals (Authority.document self)
      /\ PrincipalConfig.subject p = subject /\ record = principal_record p;
  co_principal_ok : Forall (principal_ok (Authority.document self))
    (AuthorityDocument.principals (Authority.document self));
  co_subjects : NoDup (map PrincipalConfig.subject
    (AuthorityDocument.principals (Authority.document self)));
  co_authorities : NoDup (map PrincipalConfig.authority_id
    (AuthorityDocument.principals (Authority.document self)));
  co_connections : (2 <= ServerLimits.max_database_connections
      (AuthorityDocument.server_limits (Authority.document self)))%N;
}.

Lemma parse_algorithm_public name a : parse_algorithm name = Some a -> a ∈ public_key_algorithms.
Proof.
  unfold parse_algorithm, public_key_algorithms. repeat case_decide; intros [= <-]; set_solver.
Qed.

Lemma principal_records_ok principals m subject record :
  NoDup (map PrincipalConfig.subject principals) ->
  (forall p, p ∈ principals -> bt_get (PrincipalConfig.subject p) m = None) ->
  bt_get subject (foldl (fun m p => bt_insert (PrincipalConfig.subject p) (principal_record p) m)
                    m principals) = Some record <->
  bt_get subject m = Some record
  \/ exists p, p ∈ principals /\ PrincipalConfig.subject p = subject /\ record = principal_record p.
Proof.
  revert m. induction principals as [|p principals IH]; intros m; simpl.
  - intros _ _. split; [by left|]. intros [?|(? & ?%not_elem_of_nil & _)]; done.
  - intros [Hp Hnd]%NoDup_cons Hnew. rewrite IH; [|done|].
    + destruct (decide (PrincipalConfig.subject p = subject)) as [<-|Hne].
      * rewrite bt_get_insert_eq, (Hnew p (list_elem_of_here _ _)). split.
        -- intros [[= <-]|(q & Hq & Heq & ->)]; right; [exists p|exists q]; split; try done; by constructor.
        -- intros [[=]|(q & [->|Hq]%elem_of_cons & Heq & ->)]; [by left|].
           destruct Hp. rewrite <- Heq. by apply (list_elem_of_fmap_2 PrincipalConfig.subject).
      * rewrite bt_get_insert_ne by done. setoid_rewrite elem_of_cons. naive_solver.
    + intros q Hq. rewrite bt_get_insert_ne; [apply Hnew; by right|].
      intros Heq. destruct Hp. rewrite Heq. by apply (list_elem_of_fmap_2 PrincipalConfig.subject).
Qed.

Lemma validate_document_ok document u :
  validate_document document = Ok u ->
  (AuthorityDocument.clock_skew_seconds document <= 300)%N
  /\ (1 <= AuthorityDocument.max_token_age_seconds document <= 86400)%N
  /\ (ServerLimits.max_token_bytes (AuthorityDocument.server_limits document) <= 65536)%N
  /\ AuthorityDocument.audience document = AuthorityDocument.resource document
  /\ AuthorityDocument.query_scope document <> AuthorityDocument.mutation_scope document
  /\ Forall (principal_ok document) (AuthorityDocument.principals document)
  /\ NoDup (map PrincipalConfig.subject (AuthorityDocument.principals document))
  /\ NoDup (map PrincipalConfig.authority_id (AuthorityDocument.principals document))
  /\ (2 <= ServerLimits.max_database_connections (AuthorityDocument.server_limits document))%N.
Proof.
  unfold validate_document, validate_scopes, validate_tokens, validate_limits, validate_principals,
    outside. intros Hd. unbind.
  match goal with H : try_fold (check_principal _ _) _ _ = Ok _ |- _ =>
    apply check_principals_ok in H as (Hok & Hs & Hids & _) end.
  rewrite imap_pair_snd in Hok, Hs, Hids.
  split_and!; try done; try lia. by apply dec_stable.
Qed.

(** Whatever the file system has, what is loaded is consistent. *)
Lemma load_document_consistent base authority_file tr self :
  runs (load_document base authority_file) tr (Ok self) -> consistent self.
Proof.
  intros (raw & _ & (document & _ & ([] & Hvalid & (jwks_file & tr1 & -> & Hr))
    %runs_try_lift)%runs_try_lift)%runs_try_lift.
  apply runs_try_lift in Hr as (jwks_bytes & _ & (hmac_file & tr2 & -> & Hr)).
  apply runs_try_lift in Hr as (hmac_bytes & _ & [_ Hl]). symmetry in Hl.
  unfold assemble in Hl. unbind. cbv zeta in *. unbind.
  apply validate_document_ok in Hvalid as (? & ? & ? & ? & ? & ? & Hnd & ? & ?).
  match goal with H : load_keys _ _ = Ok _ |- _ => apply load_keys_ok in H end.
  constructor; simpl; try done; [|eauto|].
  - intros a (name & _ & Ha)%list_elem_of_omap. by eapply parse_algorithm_public.
  - intros subject record. unfold principal_records. rewrite principal_records_ok by done. naive_solver.
Qed.

Lemma load_consistent base authority_file file_at self :
  load base authority_file file_at = Ok self -> consistent self.
Proof.
  unfold load. intros Hl. eapply (load_document_consistent base authority_file).
  rewrite <- Hl. apply execute_with_runs.
Qed.

Lemma load_path_consistent parent path tr self :
  runs (load_path parent path) tr (Ok self) -> consistent self.
Proof. intros (entry & tr' & -> & Hr). by eapply load_document_consistent. Qed.
End authority.
