(* ===== verification/AuthTheorems.v ===== *)
(** * A gateway to authenticate against

    An authority document with an analyst and a writer, a key set with one key,
    instances of the crates that accept one token of the writer, and the files
    they are loaded from.

    The second part has the theorems on authentication. *)

From S2P Require Import Prelude Ordered Text StrOps Json Lsq Semantic Compiler Lsm Mutation.
From S2P Require Import Effects Database PublishedModel Executor MutationExecutor Authority.
From S2P Require Import Authentication AuthSpec.

Definition sample_limits : ServerLimits :=
  ServerLimits.mk 65536 4096 16384 30 1048576 64 16 8 15 60.

Definition sample_rate : RateLimitConfig := RateLimitConfig.mk 60 10 2.

Definition writer_principal : PrincipalConfig :=
  PrincipalConfig.mk "writer@example" "team-a" "analyst" (Some "writer")
    ["semantic:query"; "semantic:mutate"] sample_rate.
Definition analyst_principal : PrincipalConfig :=
  PrincipalConfig.mk "analyst@example" "team-b" "analyst" None ["semantic:query"] sample_rate.

Definition sample_document : AuthorityDocument :=
  {| AuthorityDocument.schema_version := "1";
     AuthorityDocument.resource := "https://gw.example/mcp";
     AuthorityDocument.issuer := "https://id.example";
     AuthorityDocument.audience := "https://gw.example/mcp";
     AuthorityDocument.authorization_servers := ["https://id.example"];
     AuthorityDocument.scopes_supported := ["semantic:query"; "semantic:mutate"];
     AuthorityDocument.jwks_path := "jwks.json";
     AuthorityDocument.principal_hmac_key_path := "/etc/pseudonym.key";
     AuthorityDocument.allowed_token_types := ["at+jwt"];
     AuthorityDocument.allowed_algorithms := ["RS256"];
     AuthorityDocument.scope_claims := ["scope"];
     AuthorityDocument.clock_skew_seconds := 30;
     AuthorityDocument.max_token_age_seconds := 3600;
     AuthorityDocument.allowed_hosts := ["gw.example"];
     AuthorityDocument.allowed_origins := [];
     AuthorityDocument.query_scope := "semantic:query";
     AuthorityDocument.mutation_scope := "semantic:mutate";
     AuthorityDocument.remote_mutation_enabled := true;
     AuthorityDocument.server_limits := sample_limits;
     AuthorityDocument.principals := [writer_principal; analyst_principal] |}.

Definition sample_jwk : Jwk :=
  {| Jwk.key_id := Some "k1"; Jwk.public_key_use := Some Jwk.Signature;
     Jwk.key_operations := None; Jwk.key_algorithm := Some "RS256"; Jwk.algorithm := Jwk.RSA;
     Jwk.material := "modulus" |}.

Definition sample_url (raw host path origin : string) (as_str : string) : Url :=
  Url.mk as_str "https" EmptyString None (Some host) None path None None origin.

Definition sample_header : Header :=
  Header.mk (Some "at+JWT") Algorithm.RS256 (Some "k1") false false false false false false.

Definition sample_claims : Claims :=
  bt_from_list
    [("iss", Value_String "https://id.example");
     ("aud", Value_Array [Value_String "https://gw.example/mcp"; Value_String "other"]);
     ("sub", Value_String "writer@example");
     ("exp", Value_Integer 2000); ("iat", Value_Integer 1000);
     ("scope", Value_String "semantic:query semantic:mutate openid")].

#[global] Instance sample_auth_crates : AuthCrates := {|
  authority_from_slice s := if decide (s = "authority") then Some sample_document else None;
  jwks_from_slice s := if decide (s = "jwks") then Some [sample_jwk] else None;
  url_parse s :=
    if decide (s = "https://gw.example/mcp")
    then Some (sample_url s "gw.example" "/mcp" "https://gw.example" s)
    else if decide (s = "https://id.example")
    then Some (sample_url s "id.example" "/" s "https://id.example/")
    else None;
  DecodingKey := string;
  from_jwk jwk := Some (Jwk.material jwk);
  decode_header token := if decide (token = "aGVh.ZGVy.c2ln") then Some sample_header else None;
  decode token key validation :=
    if decide (token = "aGVh.ZGVy.c2ln" /\ key = "modulus"
               /\ Validation.algorithms validation = [Algorithm.RS256])
    then Some (Value_Object sample_claims) else None;
  hmac_sha256 key message := Some ("m"%char :: bytes message);
  url_safe_no_pad mac := String.string_of_list_ascii mac;
  standard_decode _ := None;
|}.

Definition regular (contents : string) : option file_entry :=
  Some {| file_is_regular := true; file_metadata_len := N.of_nat (String.length contents);
          file_read := Some contents |}.

Definition sample_file_at (path : string) : option file_entry :=
  if decide (path = "conf/jwks.json") then regular "jwks"
  else if decide (path = "/etc/pseudonym.key") then regular "0123456789abcdef0123456789abcdef"
  else None.

Definition sample_load : C Authority := load "conf" (regular "authority") sample_file_at.

Definition sample_authority : Authority :=
  match sample_load with
  | Ok a => a
  | Err _ => Authority.mk _ sample_document [] [] [] [] [] [] [] [] EmptyString
  end.

Lemma sample_loaded : sample_load = Ok sample_authority.
Proof. vm_compute. reflexivity. Qed.

Definition sample_authorization : string := "Bearer  aGVh.ZGVy.c2ln ".

Definition sample_principal : AuthenticatedPrincipal :=
  match authenticate_at sample_authority sample_authorization 1500 with
  | Ok p => p
  | Err _ => AuthenticatedPrincipal.mk EmptyString EmptyString None [] sample_rate EmptyString
  end.

Lemma sample_authenticated :
  authenticate_at sample_authority sample_authorization 1500 = Ok sample_principal.
Proof. vm_compute. reflexivity. Qed.

(** * Correctness of authentication

    What a loaded authority guarantees, exactly which credentials it accepts, and
    which roles and pseudonyms they get. *)

(** ** Accepted credentials *)

Section admitted.
Context `{AuthCrates} (self : Authority).

(** The scopes, role and pseudonym a verified subject gets. *)
Definition principal_of (record : PrincipalRecord) (scopes : list string) (pseudonym_ : string)
    : AuthenticatedPrincipal :=
  let granted := filter (fun s => s ∈ scopes) (PrincipalRecord.allowed_scopes record) in
  {| AuthenticatedPrincipal.authority_id := PrincipalRecord.authority_id record;
     AuthenticatedPrincipal.query_role := PrincipalRecord.query_role record;
     AuthenticatedPrincipal.mutation_role :=
       if decide (AuthorityDocument.remote_mutation_enabled (Authority.document self) = true
                  /\ AuthorityDocument.mutation_scope (Authority.document self) ∈ granted)
       then PrincipalRecord.mutation_role record else None;
     AuthenticatedPrincipal.granted_scopes := granted;
     AuthenticatedPrincipal.rate_limit := PrincipalRecord.rate_limit record;
     AuthenticatedPrincipal.audit_pseudonym := pseudonym_ |}.

Definition admitted (header : string) (now : Z) (p : AuthenticatedPrincipal) : Prop :=
  exists token claims subject scopes record mac,
    presented header token /\ compact_jws token
    /\ (N.of_nat (String.length token) <= ServerLimits.max_token_bytes
          (AuthorityDocument.server_limits (Authority.document self)))%N
    /\ verified self token claims
    /\ issuer_claimed self claims /\ audience_claimed self claims /\ in_time self claims now
    /\ bt_get "sub" claims = Some (Value_String subject)
    /\ sized MAX_SUBJECT_BYTES subject = true /\ contains_control subject = false
    /\ token_scopes (Authority.scope_claims self) claims scopes
    /\ bt_get subject (Authority.principals self) = Some record
    /\ (exists s, s ∈ PrincipalRecord.allowed_scopes record /\ s ∈ scopes)
    /\ hmac_sha256 (Authority.pseudonym_key self)
         (pseudonym_message (AuthorityDocument.issuer (Authority.document self)) subject) = Some mac
    /\ p = principal_of record scopes (url_safe_no_pad mac).

Lemma some_granted (scopes allowed : list string) :
  filter (fun s => s ∈ scopes) allowed <> [] <-> exists s, s ∈ allowed /\ s ∈ scopes.
Proof.
  split.
  - intros Hne. destruct (filter _ allowed) as [|s l] eqn:Hf; [done|]. exists s.
    assert (s ∈ filter (fun s => s ∈ scopes) allowed) as Hs by (rewrite Hf; left).
    by apply list_elem_of_filter in Hs as [? ?].
  - intros (s & Ha & Hs) Hnil. apply (not_elem_of_nil s). rewrite <- Hnil.
    by apply list_elem_of_filter.
Qed.

Lemma authenticate_at_ok header now p :
  consistent self -> (0 <= now <= I64_MAX)%Z ->
  authenticate_at self header now = Ok p <-> admitted header now p.
Proof.
  intros Hc Hnow. destruct Hc as [Hskew Hage Htok _ _ _ _ _ _ _ _ _].
  assert (Hsum : (Z.of_N (AuthorityDocument.clock_skew_seconds (Authority.document self))
    + Z.of_N (AuthorityDocument.max_token_age_seconds (Authority.document self)) < I64_MAX)%Z)
    by (unfold I64_MAX; lia).
  assert (Husize : (ServerLimits.max_token_bytes
    (AuthorityDocument.server_limits (Authority.document self)) <= USIZE_MAX)%N)
    by (unfold USIZE_MAX; lia).
  unfold authenticate_at, admitted, pseudonym.
  assert (Hrole : forall (b : bool) (P : Prop) `{!Decision P} (o : option string),
    (if b && bool_decide P then o else None) = if decide (b = true /\ P) then o else None).
  { intros b P ? o. destruct b, (bool_decide_reflect P), (decide _); naive_solver. }
  split.
  - intros Ha. unbind.
    repeat match goal with
    | H : extract_bearer _ _ = Ok _ |- _ => apply extract_bearer_ok in H as (? & ? & ?); [|done]
    | H : verified_claims _ _ = Ok _ |- _ => apply verified_claims_ok in H
    | H : check_issuer _ _ = Ok _ |- _ => apply check_issuer_ok in H
    | H : check_audience _ _ = Ok _ |- _ => apply check_audience_ok in H
    | H : check_time _ _ _ = Ok _ |- _ => apply check_time_ok in H; [|done|done]
    | H : bounded_string _ _ = Ok _ |- _ => apply bounded_string_ok in H as (? & ? & ?)
    | H : collect_scopes _ _ = Ok _ |- _ => apply collect_scopes_ok in H
    | H : filter _ _ <> [] |- _ => apply some_granted in H
    end.
    eexists _, _, _, _, _, _. split_and!; try done. unfold principal_of. by rewrite Hrole.
  - intros (token & claims & subject & scopes & record & mac & Hp & Hj & Hl & Hv & Hi & Ha & Ht
      & Hs & Hz & Hn & Hsc & Hr & Hg & Hmac & ->).
    rewrite (proj2 (extract_bearer_ok self header token Husize) (conj Hp (conj Hj Hl))). simpl.
    rewrite (proj2 (verified_claims_ok self token claims) Hv). simpl.
    rewrite (proj2 (check_issuer_ok self claims tt) Hi). simpl.
    rewrite (proj2 (check_audience_ok self claims tt) Ha). simpl.
    rewrite (proj2 (check_time_ok self claims now tt Hsum Hnow) Ht). simpl.
    rewrite (proj2 (bounded_string_ok _ _ subject) (conj Hs (conj Hz Hn))). simpl.
    rewrite (proj2 (collect_scopes_ok self claims scopes) Hsc). simpl. rewrite Hr. simpl.
    rewrite (bool_decide_eq_false_2 _ (proj2 (some_granted _ _) Hg)). simpl. rewrite Hmac. simpl.
    unfold principal_of. by rewrite Hrole.
Qed.
End admitted.

(** C16: a credential is accepted exactly when it is a bearer token of an accepted
    shape and size that a locally configured key verifies, under an algorithm that
    is allowed both in general and for that key, with the configured issuer and
    audience, inside its time window up to the clock skew, with well-formed scope
    claims, for a subject that is mapped to a principal and shares a scope with
    it.  The principal then has exactly the scopes that the token carries and its
    entry allows, and the mutation role only if remote mutation is enabled and
    the mutation scope was granted. *)
Theorem authentication_accepts_exactly `{HA : AuthCrates}
    base authority_file file_at self header now p :
  load base authority_file file_at = Ok self ->
  (0 <= now <= I64_MAX)%Z ->
  authenticate_at self header now = Ok p <-> admitted self header now p.
Proof. intros Hl%load_consistent Hnow. by apply authenticate_at_ok. Qed.

Lemma authentication_accepts_exactly_witness :
  admitted sample_authority sample_authorization 1500 sample_principal.
Proof.
  apply (authentication_accepts_exactly "conf" (regular "authority") sample_file_at).
  - exact sample_loaded.
  - unfold I64_MAX. lia.
  - exact sample_authenticated.
Defined.

(** An authority that loads is consistent.  Its algorithms are signatures with
    public keys; every verification key comes from a key of the configured set
    with the same id, for algorithms that its type and the document allow;
    subjects and authority ids are distinct, and the map of principals holds
    exactly the configured ones; every principal has the query scope and usable
    roles, has a mutation role exactly when the mutation scope is allowed to it,
    and that role is not its query role; skew, age and token size are bounded, and
    there are connections for at least one request. *)
Theorem loaded_authority_is_consistent `{HA : AuthCrates} base authority_file file_at self :
  load base authority_file file_at = Ok self -> consistent self.
Proof. apply load_consistent. Qed.

Lemma loaded_authority_is_consistent_witness : consistent sample_authority.
Proof.
  exact (loaded_authority_is_consistent "conf" (regular "authority") sample_file_at sample_authority
           sample_loaded).
Defined.

(** ** Roles *)

Lemma principal_config `{HA : AuthCrates} self subject record :
  consistent self -> bt_get subject (Authority.principals self) = Some record ->
  exists p, record = principal_record p /\ principal_ok (Authority.document self) p.
Proof.
  intros Hc (p & Hp & _ & ->)%(co_principals _ Hc). exists p. split; [done|].
  pose proof (co_principal_ok _ Hc) as Hall. rewrite Forall_forall in Hall. auto.
Qed.

(** An authenticated principal can be executed as: its roles are accepted by
    the executors and are not reserved ones.  A mutation role is given only where
    remote mutation is enabled and the token carries the mutation scope, and it
    differs from the query role; scopes are supported ones. *)
Theorem authenticated_roles_are_usable `{HA : AuthCrates}
    base authority_file file_at self header now p query_base mutation_base :
  load base authority_file file_at = Ok self ->
  (0 <= now <= I64_MAX)%Z ->
  authenticate_at self header now = Ok p ->
  is_ok (Executor.with_database_role query_base (AuthenticatedPrincipal.query_role p)) = true
  /\ AuthenticatedPrincipal.granted_scopes p
     ⊆ AuthorityDocument.scopes_supported (Authority.document self)
  /\ forall role, AuthenticatedPrincipal.mutation_role p = Some role ->
       is_ok (MutationExecutor.with_database_role mutation_base role) = true
       /\ role <> AuthenticatedPrincipal.query_role p
       /\ AuthorityDocument.remote_mutation_enabled (Authority.document self) = true
       /\ AuthorityDocument.mutation_scope (Authority.document self)
          ∈ AuthenticatedPrincipal.granted_scopes p.
Proof.
  intros Hl%load_consistent Hnow (token & claims & subject & scopes & record & mac & _ & _ & _ & _
    & _ & _ & _ & _ & _ & _ & _ & Hr & _ & _ & ->)%authenticate_at_ok; [|done..].
  destruct (principal_config self subject record Hl Hr) as (p & -> & [Hq Hm Hs _ _ _ _]).
  unfold principal_of, Executor.with_database_role, MutationExecutor.with_database_role. simpl.
  destruct Hq as [Hq _]. split_and!.
  - by rewrite Hq.
  - intros s [_ Ha]%list_elem_of_filter. by apply elem_of_bs_from_list, Hs in Ha.
  - intros role Hrole. case_decide as Hgrant; [|done]. destruct Hgrant as [He Hg].
    apply Hm in Hrole as [[Hv _] Hne]. by rewrite Hv.
Qed.

Lemma authenticated_roles_are_usable_witness : forall query_base mutation_base,
  is_ok (Executor.with_database_role query_base "analyst") = true
  /\ is_ok (MutationExecutor.with_database_role mutation_base "writer") = true.
Proof.
  intros query_base mutation_base.
  destruct (authenticated_roles_are_usable "conf" (regular "authority") sample_file_at sample_authority
              sample_authorization 1500 sample_principal query_base mutation_base sample_loaded
              ltac:(unfold I64_MAX; lia) sample_authenticated) as (Hq & _ & Hm).
  split; [exact Hq|]. apply (Hm "writer"). vm_compute. reflexivity.
Defined.

(** ** Pseudonyms *)

Lemma sapp_inj (a b c d : string) :
  String.length a = String.length c -> a +:+ b = c +:+ d -> a = c /\ b = d.
Proof.
  revert c. induction a as [|x a IH]; intros [|y c]; simpl; [by rewrite !sapp_nil_l|done|done|].
  rewrite !sapp_cons. intros [= Hl] [= -> H]. destruct (IH c Hl H). by subst.
Qed.

Lemma length_be_bytes n : String.length (be_bytes n) = 8.
Proof. reflexivity. Qed.

Lemma byte_of_inj m n : (m < 256)%N -> (n < 256)%N -> byte_of m = byte_of n -> m = n.
Proof. intros Hm Hn Heq. by rewrite <- (N_ascii_embedding m), <- (N_ascii_embedding n), Heq. Qed.

Lemma land_255 n : (N.land n 255 < 256)%N.
Proof. change 255%N with (N.ones 8). rewrite N.land_ones. by apply N.mod_lt. Qed.

Lemma foldr_byte_inj (f g : N -> ascii) (l : list N) :
  foldr (fun i s => String (f i) s) EmptyString l = foldr (fun i s => String (g i) s) EmptyString l ->
  forall i, i ∈ l -> f i = g i.
Proof.
  induction l as [|j l IH]; simpl; [by intros _ i ?%not_elem_of_nil|].
  intros [= Hj Hl] i [->|Hi]%elem_of_cons; [done|auto].
Qed.

Lemma be_bytes_at m n k :
  be_bytes m = be_bytes n -> (k < 8)%N ->
  byte_of (N.land (N.shiftr m (8 * k)) 255) = byte_of (N.land (N.shiftr n (8 * k)) 255).
Proof.
  intros Heq Hk. unfold be_bytes in Heq.
  apply (foldr_byte_inj (fun i => byte_of (N.land (N.shiftr m (8 * i)) 255))
           (fun i => byte_of (N.land (N.shiftr n (8 * i)) 255)) _ Heq).
  rewrite !elem_of_cons. lia.
Qed.

Lemma be_bytes_inj m n :
  (m < 2 ^ 64)%N -> (n < 2 ^ 64)%N -> be_bytes m = be_bytes n -> m = n.
Proof.
  intros Hm Hn Heq.
  assert (Hbytes : forall k, (k < 8)%N ->
    N.land (N.shiftr m (8 * k)) 255 = N.land (N.shiftr n (8 * k)) 255).
  { intros k Hk. apply byte_of_inj; [apply land_255..|].
    by apply be_bytes_at. }
  apply N.bits_inj. intros j. destruct (decide (j < 64)%N) as [Hj|Hj].
  - specialize (Hbytes (j / 8)%N ltac:(apply N.Div0.div_lt_upper_bound; lia)).
    apply (f_equal (fun x => N.testbit x (j mod 8))) in Hbytes.
    rewrite !N.land_spec, !N.shiftr_spec' in Hbytes.
    change 255%N with (N.ones 8) in Hbytes.
    rewrite N.ones_spec_low, !andb_true_r in Hbytes by (apply N.mod_lt; lia).
    replace (j mod 8 + 8 * (j / 8))%N with j in Hbytes by (pose proof (N.div_mod' j 8); lia). done.
  - assert (Hhigh : forall x, (x < 2 ^ 64)%N -> N.testbit x j = false).
    { intros x Hx. destruct (decide (x = 0%N)) as [->|Hne]; [apply N.bits_0|].
      apply N.bits_above_log2. apply N.log2_lt_pow2 in Hx; lia. }
    by rewrite !Hhigh.
Qed.

(** What a pseudonym is computed from determines the issuer and the subject:
    no two pairs of them share a message, however their texts run together. *)
Theorem pseudonym_message_is_unambiguous issuer subject issuer' subject' :
  (N.of_nat (String.length issuer) < 2 ^ 64)%N -> (N.of_nat (String.length issuer') < 2 ^ 64)%N ->
  pseudonym_message issuer subject = pseudonym_message issuer' subject' ->
  issuer = issuer' /\ subject = subject'.
Proof.
  intros Hi Hi' Heq. unfold pseudonym_message in Heq.
  apply sapp_inj in Heq as [_ Heq]; [|done].
  apply sapp_inj in Heq as [Hlen Heq]; [|done]. apply be_bytes_inj in Hlen; [|done..].
  apply sapp_inj in Heq as [-> Heq]; [|lia].
  by apply sapp_inj in Heq as [_ ->].
Qed.

Lemma pseudonym_message_is_unambiguous_witness :
  pseudonym_message "ab" "c" <> pseudonym_message "a" "bc".
Proof.
  intros H. destruct (pseudonym_message_is_unambiguous "ab" "c" "a" "bc"
    ltac:(vm_compute; reflexivity) ltac:(vm_compute; reflexivity) H) as [H1 _]. discriminate H1.
Defined.
