(* ===== verification/Mcp.v ===== *)
(** * Messages of the MCP server ([mcp.rs])

    The configuration a request is served with, failures of the protocol, and the
    JSON values they are reported as.  JSON values are those of the mutation
    parser; [json!] builds objects in the order of their keys. *)

From S2P Require Import Prelude Ordered Text StrOps Json Lsq Semantic Compiler Lsm Mutation.
From S2P Require Import Effects Database PublishedModel Executor MutationExecutor.

(** ** Configuration *)

Module McpConfig.
Record McpConfig : Type := mk {
  project : string;
  executor : Executor.ExecutorConfig;
  mutation_executor : option MutationExecutor.MutationExecutorConfig;
  execution_context : ExecutionContext;
}.
End McpConfig.
Abbreviation McpConfig := McpConfig.McpConfig.

(** [McpServer] holds its configuration and nothing else. *)
Definition configured (project : string) (executor : Executor.ExecutorConfig)
    (mutation_executor : option MutationExecutor.MutationExecutorConfig)
    (execution_context : ExecutionContext) : McpConfig :=
  McpConfig.mk project executor mutation_executor execution_context.

(** ** Failures *)

Module RpcFailure.
Record RpcFailure : Type := mk {
  rpc_code : Z;
  public_code : string;
  message : string;
}.

Definition method_not_found : RpcFailure :=
  mk (-32601) "MCP_METHOD_NOT_FOUND" "method not found".
Definition invalid_params : RpcFailure :=
  mk (-32602) "MCP_INVALID_PARAMS" "invalid method parameters".
Definition invalid_tool_arguments : RpcFailure :=
  mk (-32602) "MCP_INVALID_TOOL_ARGUMENTS" "tool arguments do not match the declared schema".
Definition tool_not_found : RpcFailure :=
  mk (-32602) "MCP_TOOL_NOT_FOUND" "requested tool is not available".
Definition resource (public_code message : string) : RpcFailure := mk (-32002) public_code message.
End RpcFailure.
Abbreviation RpcFailure := RpcFailure.RpcFailure.

(** ** Values *)

(** [serde_json]: parsing and writing of values. *)
Class JsonText := {
  value_from_slice : string -> option Value;
  value_to_vec : Value -> option string;
}.

(** [json!] of an object. *)
Definition json_object (fields : list (string * Value)) : Value := Value_Object (bt_from_list fields).

Definition rpc_error (id : Value) (rpc_code : Z) (message public_code : string) : Value :=
  json_object
    [("jsonrpc", Value_String "2.0"); ("id", id);
     ("error", json_object
        [("code", Value_Integer rpc_code); ("message", Value_String message);
         ("data", json_object [("code", Value_String public_code)])])].

Definition rpc_result (id result_ : Value) : Value :=
  json_object [("jsonrpc", Value_String "2.0"); ("id", id); ("result", result_)].

Definition U64_MAX : Z := 18446744073709551615.

(** A string or a number that is an [i64] or a [u64]. *)
Definition valid_request_id (id : Value) : bool :=
  match id with
  | Value_String _ => true
  | Value_Integer number => bool_decide (- 9223372036854775808 ≤ number ≤ U64_MAX)%Z
  | _ => false
  end.

Definition as_object (v : Value) : option (list (string * Value)) :=
  match v with Value_Object fields => Some fields | _ => None end.

Definition as_str (v : Value) : option string :=
  match v with Value_String s => Some s | _ => None end.

Definition str_field (name : string) (object : list (string * Value)) : option string :=
  bt_get name object ≫= as_str.
