(* ===== verification/Http.v ===== *)
(** * HTTP messages ([mcp_http.rs])

    Headers, responses, and the validation of a request against its headers.
    Header maps are lists of names and values, names in lower case; the headers
    of a response are those this code sets.  The crates behind them are the class
    [HttpCrates]. *)

From S2P Require Import RateLimit Database PublishedModel Executor MutationExecutor Prelude.
From S2P Require Import Ordered Text StrOps Json Lsq Semantic Compiler Lsm Mutation Effects.
From S2P Require Import Authority Authentication Mcp.

Definition MODERN_PROTOCOL_VERSION : string := "2026-07-28".
Definition RATE_LIMITED_RPC_CODE : Z := -33001.
Definition CONCURRENCY_LIMITED_RPC_CODE : Z := -33002.
Definition AUTHORITY_DENIED_RPC_CODE : Z := -33003.
Definition EXECUTION_TIMEOUT_RPC_CODE : Z := -33004.
Definition RESULT_TOO_LARGE_RPC_CODE : Z := -33005.
Definition REQUEST_BODY_TIMEOUT_RPC_CODE : Z := -33006.

Class HttpCrates := {
  http_json_text :: JsonText;
  (** [HeaderValue::to_str] and [HeaderValue::from_str] *)
  header_to_str : string -> option string;
  header_from_str : string -> option string;
}.

Abbreviation HeaderMap := (list (string * string)).

(** ** UTF-8 *)

Definition continuation (c : ascii) : bool := in_range 128 191 c.

(** The number of bytes of the well-formed character a string starts with. *)
Definition utf8_width (s : string) : option nat :=
  match bytes s with
  | a :: rest =>
      if in_range 0 127 a then Some 1 else
      match rest with
      | b :: rest =>
          if in_range 194 223 a && continuation b then Some 2 else
          match rest with
          | c :: rest =>
              if (is_char 224 a && in_range 160 191 b && continuation c)
                 || (in_range 225 236 a && continuation b && continuation c)
                 || (is_char 237 a && in_range 128 159 b && continuation c)
                 || (in_range 238 239 a && continuation b && continuation c)
              then Some 3 else
              match rest with
              | d :: _ =>
                  if (is_char 240 a && in_range 144 191 b && continuation c && continuation d)
                     || (in_range 241 243 a && continuation b && continuation c && continuation d)
                     || (is_char 244 a && in_range 128 143 b && continuation c && continuation d)
                  then Some 4 else None
              | [] => None
              end
          | [] => None
          end
      | [] => None
      end
  | [] => None
  end.

(** [skip] bytes of the current character are still to come. *)
Fixpoint utf8_from (skip : nat) (s : string) : bool :=
  match s with
  | EmptyString => bool_decide (skip = 0)
  | String _ rest =>
      match skip with
      | S skip' => utf8_from skip' rest
      | 0 => match utf8_width s with Some n => utf8_from (pred n) rest | None => false end
      end
  end.

Definition from_utf8 (s : string) : option string := if utf8_from 0 s then Some s else None.

(** ** Responses *)

Module Response.
(** What a stream needs: the id it answers, the bound on the size of a result,
    its lifetime and its keepalive interval, in seconds. *)
Record Stream : Type := mkStream {
  id : Value;
  maximum_result : N;
  maximum_duration : N;
  keep_alive : N;
}.
Inductive Body : Type := Empty | Json (value : Value) | Events (stream : Stream).
Record Response : Type := mk {
  status : N;
  headers : HeaderMap;
  body : Body;
}.
End Response.
Abbreviation Response := Response.Response.

(** [HeaderMap::insert] replaces the values of a name. *)
Definition header_insert (name value : string) (headers : HeaderMap) : HeaderMap :=
  filter (fun h => h.1 <> name) headers ++ [(name, value)].

Definition apply_private_headers (headers : HeaderMap) : HeaderMap :=
  header_insert "vary" "Authorization" (header_insert "cache-control" "no-store" headers).

Definition json_response (status : N) (value : Value) : Response :=
  Response.mk status (apply_private_headers []) (Response.Json value).

Definition empty_response (status : N) : Response :=
  Response.mk status (apply_private_headers []) Response.Empty.

Definition json_error_response (status : N) (id : Value) (code : Z) (message public_code : string)
    : Response := json_response status (rpc_error id code message public_code).

Definition header_mismatch (id : Value) : Response :=
  json_error_response 400 id (-32020) "request headers do not match the request body"
    "MCP_HEADER_MISMATCH".

Definition unsupported_protocol_response (status : N) (id : Value) (requested : string)
    : Response :=
  json_response status
    (json_object
       [("jsonrpc", Value_String "2.0"); ("id", id);
        ("error", json_object
           [("code", Value_Integer (-32022));
            ("message", Value_String "unsupported protocol version");
            ("data", json_object
               [("code", Value_String "MCP_UNSUPPORTED_PROTOCOL_VERSION");
                ("supported", Value_Array [Value_String MODERN_PROTOCOL_VERSION]);
                ("requested", Value_String requested)])])]).

Definition limit_response (error : LimitError) : Response :=
  let '(rpc_code, code) :=
    match error with
    | LimitError.Rate => (RATE_LIMITED_RPC_CODE, "MCP_RATE_LIMITED")
    | LimitError.Concurrency => (CONCURRENCY_LIMITED_RPC_CODE, "MCP_CONCURRENCY_LIMITED")
    | LimitError.Unavailable => (CONCURRENCY_LIMITED_RPC_CODE, "MCP_LIMITER_UNAVAILABLE")
    end in
  json_error_response 429 Value_Null rpc_code "request limit exceeded" code.

Definition rpc_failure_response (id : Value) (error : RpcFailure) : Response :=
  let status := if decide (RpcFailure.rpc_code error = -32601)%Z then 404%N else 200%N in
  json_error_response status id (RpcFailure.rpc_code error) (RpcFailure.message error)
    (RpcFailure.public_code error).

Definition bearer_challenge (metadata_url scope error : string) : string :=
  "Bearer resource_metadata=" +:+ dq +:+ metadata_url +:+ dq +:+ ", scope=" +:+ dq +:+ scope +:+ dq
  +:+ (if decide (error = EmptyString) then EmptyString else ", error=" +:+ dq +:+ error +:+ dq).

(** ** Requests *)

(** [params] is an object. *)
Module ModernRequest.
Record ModernRequest : Type := mk {
  id : Value;
  method : string;
  params : list (string * Value);
  name : option string;
}.
End ModernRequest.
Abbreviation ModernRequest := ModernRequest.ModernRequest.

Section messages.
Context `{HttpCrates} `{AuthCrates}.

(** ** Headers *)

Definition get_all (headers : HeaderMap) (name : string) : list string :=
  (filter (fun h => h.1 = name) headers).*2.

Definition single_header (headers : HeaderMap) (name : string) : result unit (option string) :=
  match get_all headers name with
  | [] => Ok None
  | value :: more =>
      first ← ok_or (header_to_str value) tt;
      fail_if (negb (bool_decide (more = []))) tt;;
      Ok (Some first)
  end.

Definition required_header (headers : HeaderMap) (name : string) (id : Value)
    : result Response string :=
  value ← map_err (fun _ => header_mismatch id) (single_header headers name);
  ok_or value (header_mismatch id).

(** [.ok().flatten()]. *)
Definition header_value (headers : HeaderMap) (name : string) : option string :=
  match single_header headers name with Ok value => value | Err _ => None end.

Definition decode_header_value (value : string) : option string :=
  match strip_prefix "=?base64?" value ≫= strip_suffix "?=" with
  | Some encoded => standard_decode encoded ≫= from_utf8
  | None =>
      if starts_with "=?base64?" value || ends_with "?=" value then None else Some value
  end.

(** The part before the first parameter; a text always has one. *)
Definition before_semicolon (s : string) : string :=
  default EmptyString (head (split (is_char 59) s)).

(** A header value has ASCII white space only. *)
Definition accepts_modern_response (headers : HeaderMap) : bool :=
  match header_value headers "accept" with
  | Some value =>
      let values :=
        map (fun part => before_semicolon (trim_matches is_ascii_ws part))
          (split (is_char 44) value) in
      existsb (fun v => eq_ignore_ascii_case v "application/json") values
      && existsb (fun v => eq_ignore_ascii_case v "text/event-stream") values
  | None => false
  end.

Definition has_json_content_type (headers : HeaderMap) : bool :=
  match header_value headers "content-type" with
  | Some value =>
      eq_ignore_ascii_case (trim_matches is_ascii_ws (before_semicolon value)) "application/json"
  | None => false
  end.

(** The sum saturates at every step. *)
Definition header_bytes (headers : HeaderMap) : N :=
  foldl (fun total h => saturating_add (saturating_add total (N.of_nat (String.length h.1)))
                          (N.of_nat (String.length h.2))) 0%N headers.

(** [value.len()] of a vector fits in 64 bits. *)
Definition serialized_size (value : Value) : N :=
  match value_to_vec value with
  | Some text => N.of_nat (String.length text)
  | None => Z.to_N U64_MAX
  end.

Definition validate_network_headers (authority : Authority) (headers : HeaderMap)
    : result Response unit :=
  host ← map_err (fun _ => empty_response 400) (single_header headers "host");
  host ← ok_or host (empty_response 400);
  fail_if (negb (is_allowed_host authority host)) (empty_response 403);;
  origin ← map_err (fun _ => empty_response 400) (single_header headers "origin");
  fail_if (match origin with
           | Some origin => negb (is_allowed_origin authority origin)
           | None => false
           end) (empty_response 403).

(** ** Validation of requests *)

(** The name a request is about. *)
Definition request_name (method : string) (params : list (string * Value)) : option string :=
  if decide (method = "tools/call") then str_field "name" params
  else if decide (method = "resources/read") then str_field "uri" params
  else None.

Definition no_text (o : option string) : bool :=
  match o with Some s => bool_decide (s = EmptyString) | None => true end.

Definition validate_request_meta (headers : HeaderMap) (params : list (string * Value)) (id : Value)
    : result Response unit :=
  header_version ← required_header headers "mcp-protocol-version" id;
  metadata ← ok_or (bt_get "_meta" params ≫= as_object) (header_mismatch id);
  body_version ← ok_or (str_field "io.modelcontextprotocol/protocolVersion" metadata)
                   (header_mismatch id);
  fail_if (bool_decide (header_version <> body_version)) (header_mismatch id);;
  fail_if (bool_decide (body_version <> MODERN_PROTOCOL_VERSION))
    (unsupported_protocol_response 400 id body_version);;
  client ← ok_or (bt_get "io.modelcontextprotocol/clientInfo" metadata ≫= as_object)
             (header_mismatch id);
  fail_if (no_text (str_field "name" client) || no_text (str_field "version" client))
    (header_mismatch id);;
  fail_if (bool_decide (bt_get "io.modelcontextprotocol/clientCapabilities" metadata ≫= as_object
                        = None))
    (json_error_response 400 id (-32021) "required client capability is missing"
       "MCP_MISSING_REQUIRED_CLIENT_CAPABILITY").

Definition validate_method_headers (headers : HeaderMap) (method : string)
    (params : list (string * Value)) (id : Value) : result Response unit :=
  header_method ← required_header headers "mcp-method" id;
  fail_if (bool_decide (header_method <> method)) (header_mismatch id);;
  match request_name method params with
  | Some expected =>
      encoded ← required_header headers "mcp-name" id;
      decoded ← ok_or (decode_header_value encoded) (header_mismatch id);
      fail_if (bool_decide (decoded <> expected)) (header_mismatch id)
  | None => fail_if (negb (bool_decide (get_all headers "mcp-name" = []))) (header_mismatch id)
  end.

Definition parse_modern_request (headers : HeaderMap) (body : string)
    : result Response ModernRequest :=
  message ← ok_or (value_from_slice body)
    (json_error_response 400 Value_Null (-32700) "parse error" "MCP_PARSE_ERROR");
  object ← ok_or (as_object message)
    (json_error_response 400 Value_Null (-32600) "invalid request" "MCP_INVALID_REQUEST");
  id ← ok_or (bt_get "id" object)
    (json_error_response 400 Value_Null (-32600) "notifications are not supported"
       "MCP_NOTIFICATION_UNSUPPORTED");
  fail_if (negb (valid_request_id id) || bool_decide (str_field "jsonrpc" object <> Some "2.0"))
    (json_error_response 400 Value_Null (-32600) "invalid request" "MCP_INVALID_REQUEST");;
  method ← ok_or (str_field "method" object)
    (json_error_response 400 id (-32600) "invalid request" "MCP_INVALID_REQUEST");
  params ← ok_or (as_object (default (json_object []) (bt_get "params" object)))
    (json_error_response 400 id (-32602) "invalid method parameters" "MCP_INVALID_PARAMS");
  validate_request_meta headers params id;;
  validate_method_headers headers method params id;;
  Ok (ModernRequest.mk id method params (request_name method params)).

Definition known_method (method : string) : bool :=
  bool_decide (method ∈ ["server/discover"; "ping"; "tools/list"; "tools/call"; "resources/list";
                         "resources/read"]).

Definition method_uses_database (method : string) : bool :=
  bool_decide (method ∈ ["tools/call"; "resources/list"; "resources/read"]).

Definition is_streaming_execution (request : ModernRequest) : bool :=
  bool_decide (ModernRequest.method request = "tools/call")
  && bool_decide (ModernRequest.name request ∈ [Some "query_semantic_model"; Some "mutate_semantic_model"]).
End messages.
