(* ===== verification/HttpServer.v ===== *)
(** * The HTTP server ([mcp_http.rs])

    The handlers of the two endpoints and the blocking worker of a request, as
    programs over calls to what they share: three semaphores, the limiter, the
    clock, the connection and the pool of blocking tasks.  Permits are owned
    values; the places where they are dropped are explicit.

    The last part is the preparation of a server ([prepare_server]). *)

From S2P Require Import RateLimit Database PublishedModel Executor MutationExecutor Prelude.
From S2P Require Import Ordered Text StrOps Json Lsq Semantic Compiler Lsm Mutation Effects.
From S2P Require Import Authority Authentication Mcp Http.

(** ** State *)

(** The fields of [HttpState] that never change; the limiter and the semaphores
    are reached by calls. *)
Module HttpState.
Record HttpState `{AuthCrates} : Type := mk {
  authority : Authority;
  project : string;
  query_base : Executor.ExecutorConfig;
  mutation_base : option MutationExecutor.MutationExecutorConfig;
  limits : ServerLimits;
  metadata_url : string;
}.
Arguments authority {_}.
Arguments project {_}.
Arguments query_base {_}.
Arguments mutation_base {_}.
Arguments limits {_}.
Arguments metadata_url {_}.
End HttpState.
Abbreviation HttpState := HttpState.HttpState.

Inductive Semaphore : Type := Authenticated | PreAuth | DatabaseConnections.
#[export] Instance Semaphore_eq_dec : EqDecision Semaphore.
Proof. solve_decision. Defined.

(** Owned permits: of a semaphore, or of the limiter for an authority. *)
Inductive permit : Type :=
| SemaphorePermit (s : Semaphore) (n : nat)
| PrincipalPermit (authority_id : string).
#[export] Instance permit_eq_dec : EqDecision permit.
Proof. solve_decision. Defined.

(** [ExecutionPermits], by its fields in the order they are dropped. *)
Definition execution_permits (authority_id : string) (database : bool) : list permit :=
  [PrincipalPermit authority_id; SemaphorePermit Authenticated 1]
  ++ (if database then [SemaphorePermit DatabaseConnections 2] else []).

(** What is moved into a blocking task. *)
Module Job.
Record Job : Type := mk {
  server : McpConfig;
  method : string;
  params : list (string * Value);
  permits : list permit;
  streaming : bool;
}.
End Job.
Abbreviation Job := Job.Job.

(** ** Calls *)

(** A handler whose client leaves while it waits is dropped, and drops what it
    owns as where the body cannot be read or the wait for the task is over. *)
Inductive BodyRead : Type := BodyBytes (body : string) | BodyFailed | BodyTimedOut.

(** A dispatch returns or panics. *)
Inductive TaskResult : Type := Finished (r : result RpcFailure Value) | Panicked.

Inductive TaskOutcome : Type := Joined (r : TaskResult) | TaskTimedOut.

Inductive HttpOp : Type :=
| TryAcquire (s : Semaphore) (n : nat)
| LimiterAcquire (authority_id : string) (limit : RateLimitConfig)
| Drop (p : permit)
| Clock
| ReadBody (maximum : N) (seconds : N)
| Spawn (job : Job)
| AwaitTask (seconds : N)
(** calls of the blocking task *)
| Dispatch (job : Job)
| SendResult (r : result RpcFailure Value)
| Finish.

Definition HttpRes (op : HttpOp) : Type :=
  match op with
  | TryAcquire _ _ => bool
  | LimiterAcquire _ _ => result LimitError unit
  | Clock => option N
  | ReadBody _ _ => BodyRead
  | AwaitTask _ => TaskOutcome
  | Dispatch _ => TaskResult
  | _ => unit
  end.

Abbreviation http := (prog HttpRes).

Definition drop_all : list permit -> http unit :=
  foldr (fun p rest => call (Drop p : HttpOp) ≫= fun _ => rest) (Ret tt).

(** An early return drops what the function owns; [owned] lists the values in
    the order they are dropped. *)
Definition leave {A} (owned : list permit) (response : Response) : http (result Response A) :=
  drop_all owned ≫= fun _ => Ret (Err response).

Definition or_leave {A} (owned : list permit) (m : result Response A)
    : http (result Response A) :=
  match m with Ok a => Ret (Ok a) | Err response => leave owned response end.

(** The value of a function whose early returns are responses. *)
Definition respond (p : http (result Response Response)) : http Response :=
  r ← p; Ret (match r with Ok response => response | Err response => response end).

Definition REQUEST_BODY_TIMEOUT : N := 5.

(** ** Responses that depend on the state *)

Section server.
Context `{HttpCrates} `{AuthCrates} (state : HttpState).

Abbreviation authority := (HttpState.authority state).
Abbreviation document := (Authority.document authority).

(** A challenge that is not a header value is left out. *)
Definition challenge (response : Response) (value : string) : Response :=
  match header_from_str value with
  | Some value =>
      Response.mk (Response.status response)
        (header_insert "www-authenticate" value (Response.headers response))
        (Response.body response)
  | None => response
  end.

Definition insufficient_scope_response (scope : string) : Response :=
  challenge (empty_response 403)
    (bearer_challenge (HttpState.metadata_url state) scope "insufficient_scope").

Definition authentication_response (error : AuthError) : Response :=
  if decide (error = AuthError.UnknownPrincipal) then empty_response 403
  else if decide (error = AuthError.InsufficientScope)
  then insufficient_scope_response (AuthorityDocument.query_scope document)
  else challenge (empty_response 401)
         (bearer_challenge (HttpState.metadata_url state) (AuthorityDocument.query_scope document)
            (AuthError.oauth_error error)).

Definition internal_error (id : Value) : Response :=
  json_error_response 500 id (-32603) "internal error" "MCP_INTERNAL_ERROR".

Definition complete_json_response (id result_ : Value) : Response :=
  let response := rpc_result id result_ in
  if bool_decide (ServerLimits.max_result_bytes (HttpState.limits state)
                  < serialized_size response)%N
  then json_error_response 500 id RESULT_TOO_LARGE_RPC_CODE "result is too large"
         "MCP_RESULT_TOO_LARGE"
  else json_response 200 response.

(** ** Handlers *)

Definition server_for_principal (principal : AuthenticatedPrincipal) : result unit McpConfig :=
  query ← map_err (fun _ => tt)
            (Executor.with_database_role (HttpState.query_base state)
               (AuthenticatedPrincipal.query_role principal));
  mutation ←
    (if AuthorityDocument.remote_mutation_enabled document
        && AuthenticatedPrincipal.has_scope principal (AuthorityDocument.mutation_scope document)
     then match HttpState.mutation_base state, AuthenticatedPrincipal.mutation_role principal with
          | Some base, Some role =>
              config ← map_err (fun _ => tt) (MutationExecutor.with_database_role base role);
              Ok (Some config)
          | _, _ => Ok None
          end
     else Ok None);
  context ← map_err (fun _ => tt)
              (new_with_authority (AuthenticatedPrincipal.audit_pseudonym principal) "mcp-http"
                 (AuthenticatedPrincipal.authority_id principal));
  Ok (configured (HttpState.project state) query mutation context).

Definition handle_metadata (headers : HeaderMap) : http Response :=
  pre_auth ← call (TryAcquire PreAuth 1);
  if negb pre_auth then Ret (empty_response 429) else
  let owned := [SemaphorePermit PreAuth 1] in
  respond
    (or_leave owned (validate_network_headers authority headers) ;;?
     leave owned
       (json_response 200
          (json_object
             [("resource", Value_String (AuthorityDocument.resource document));
              ("authorization_servers",
                Value_Array (map Value_String (AuthorityDocument.authorization_servers document)));
              ("scopes_supported",
                Value_Array (map Value_String (Authority.scopes_supported authority)));
              ("bearer_methods_supported", Value_Array [Value_String "header"])]))).

(** The checks of a request before its credentials. *)
Definition validate_headers (headers : HeaderMap) : result Response unit :=
  validate_network_headers authority headers;;
  fail_if (bool_decide (ServerLimits.max_header_bytes (HttpState.limits state)
                        < header_bytes headers)%N)
    (json_error_response 431 Value_Null (-32600) "request headers are too large"
       "MCP_HEADERS_TOO_LARGE");;
  fail_if (negb (accepts_modern_response headers) || negb (has_json_content_type headers))
    (json_error_response 400 Value_Null (-32600) "invalid request" "MCP_INVALID_HTTP_HEADERS").

Definition authenticated_principal (headers : HeaderMap) (now : option N)
    : result Response AuthenticatedPrincipal :=
  authorization ←
    match single_header headers "authorization" with
    | Ok (Some value) => Ok value
    | Ok None => Ok EmptyString
    | Err _ => Err (authentication_response AuthError.MalformedRequest)
    end;
  principal ← map_err authentication_response (authenticate authority now authorization);
  fail_if (negb (AuthenticatedPrincipal.has_scope principal
                   (AuthorityDocument.query_scope document)))
    (insufficient_scope_response (AuthorityDocument.query_scope document));;
  Ok principal.

Definition read_body : http (result Response string) :=
  let maximum_body := ServerLimits.max_request_body_bytes (HttpState.limits state) in
  if bool_decide (USIZE_MAX < maximum_body)%N then Ret (Err (internal_error Value_Null)) else
  outcome ← call (ReadBody maximum_body REQUEST_BODY_TIMEOUT);
  Ret (match outcome with
       | BodyBytes body => Ok body
       | BodyFailed =>
           Err (json_error_response 413 Value_Null (-32600) "request is too large"
                  "MCP_REQUEST_TOO_LARGE")
       | BodyTimedOut =>
           Err (json_error_response 408 Value_Null REQUEST_BODY_TIMEOUT_RPC_CODE
                  "request body timed out" "MCP_REQUEST_BODY_TIMEOUT")
       end).

Definition simple_response (id : Value) (job : Job) : http Response :=
  call (Spawn job) ≫= fun _ =>
  outcome ← call (AwaitTask (ServerLimits.max_execution_seconds (HttpState.limits state)));
  Ret (match outcome with
       | Joined (Finished (Ok result_)) => complete_json_response id result_
       | Joined (Finished (Err error)) => rpc_failure_response id error
       | Joined Panicked => internal_error id
       | TaskTimedOut =>
           json_error_response 504 id EXECUTION_TIMEOUT_RPC_CODE "request timed out"
             "MCP_EXECUTION_TIMEOUT"
       end).

Definition stream_of (id : Value) : Response.Stream :=
  let limits := HttpState.limits state in
  Response.mkStream id (ServerLimits.max_result_bytes limits)
    (N.min (ServerLimits.max_execution_seconds limits) (ServerLimits.max_sse_seconds limits))
    (ServerLimits.sse_keepalive_seconds limits).

Definition streaming_response (id : Value) (job : Job) : http Response :=
  call (Spawn job) ≫= fun _ =>
  Ret (Response.mk 200 (header_insert "x-accel-buffering" "no" (apply_private_headers []))
         (Response.Events (stream_of id))).

(** [handle_mcp] once the body is read and the permit for requests that are not
    authenticated is dropped. *)
Definition execute_request (principal : AuthenticatedPrincipal) (headers : HeaderMap)
    (body : string) : http (result Response Response) :=
  let authority_id := AuthenticatedPrincipal.authority_id principal in
  let owned := [SemaphorePermit Authenticated 1; PrincipalPermit authority_id] in
  request ←? or_leave owned (parse_modern_request headers body);
  let id := ModernRequest.id request in
  let method := ModernRequest.method request in
  or_leave owned
    (fail_if (negb (known_method method))
       (json_error_response 404 id (-32601) "method not found" "MCP_METHOD_NOT_FOUND")) ;;?
  database ←?
    (if method_uses_database method
     then acquired ← call (TryAcquire DatabaseConnections 2);
          if acquired : bool then Ret (Ok true)
          else leave owned (limit_response LimitError.Concurrency)
     else Ret (Ok false));
  let permits := execution_permits authority_id database in
  server ←? or_leave permits
              (map_err (fun _ => json_error_response 403 id AUTHORITY_DENIED_RPC_CODE
                                   "request is not authorized" "MCP_AUTHORITY_DENIED")
                 (server_for_principal principal));
  let streaming := is_streaming_execution request in
  let job := Job.mk server method (ModernRequest.params request) permits streaming in
  response ← (if streaming then streaming_response id job else simple_response id job);
  Ret (Ok response).

Definition handle_mcp (headers : HeaderMap) : http Response :=
  pre_auth ← call (TryAcquire PreAuth 1);
  if negb pre_auth then Ret (empty_response 429) else
  let pre_auth := SemaphorePermit PreAuth 1 in
  respond
    (or_leave [pre_auth] (validate_headers headers) ;;?
     now ← call Clock;
     principal ←? or_leave [pre_auth] (authenticated_principal headers now);
     let authority_id := AuthenticatedPrincipal.authority_id principal in
     admitted ← call (LimiterAcquire authority_id (AuthenticatedPrincipal.rate_limit principal));
     or_leave [pre_auth] (map_err limit_response admitted) ;;?
     let owned := [PrincipalPermit authority_id; pre_auth] in
     authenticated ← call (TryAcquire Authenticated 1);
     or_leave owned
       (fail_if (negb authenticated) (limit_response LimitError.Concurrency)) ;;?
     let owned := SemaphorePermit Authenticated 1 :: owned in
     read ← read_body;
     body ←? or_leave owned read;
     call (Drop pre_auth) ≫= fun _ =>
     execute_request principal headers body).
End server.

(** ** The blocking task *)

Definition send_result (outcome : TaskResult) : http unit :=
  match outcome with Finished r => call (SendResult r) | Panicked => Ret tt end.

(** The closure that is spawned.  A stream gets the result before the permits
    are dropped; otherwise the value of the closure is the result. *)
Definition worker (job : Job) : http unit :=
  outcome ← call (Dispatch job);
  if Job.streaming job then
    send_result outcome ≫= fun _ =>
    drop_all (Job.permits job) ≫= fun _ => call Finish
  else drop_all (Job.permits job).

(** ** Streams *)

(** What ends the wait of a stream: a result or the loss of its sender, the
    deadline, or the client, which drops the stream. *)
Inductive StreamEnd : Type :=
| Received (r : result unit (result RpcFailure Value))
| DeadlineReached
| ClientGone.

Section streams.
Context `{HttpCrates}.

Definition streaming_result_value (id : Value) (r : result unit (result RpcFailure Value))
    (maximum_result : N) : Value :=
  match r with
  | Ok (Ok value) =>
      let response := rpc_result id value in
      if bool_decide (serialized_size response ≤ maximum_result)%N then response
      else rpc_error id RESULT_TOO_LARGE_RPC_CODE "result is too large" "MCP_RESULT_TOO_LARGE"
  | Ok (Err error) =>
      rpc_error id (RpcFailure.rpc_code error) (RpcFailure.message error)
        (RpcFailure.public_code error)
  | Err _ => rpc_error id (-32603) "internal error" "MCP_INTERNAL_ERROR"
  end.

(** The event a stream ends with, and whether its guard is still armed when the
    stream is dropped. *)
Definition stream_end (stream : Response.Stream) (e : StreamEnd) : option Value * bool :=
  match e with
  | Received r =>
      (Some (streaming_result_value (Response.id stream) r (Response.maximum_result stream)), false)
  | DeadlineReached =>
      (Some (rpc_error (Response.id stream) EXECUTION_TIMEOUT_RPC_CODE "request timed out"
               "MCP_EXECUTION_TIMEOUT"), true)
  | ClientGone => (None, true)
  end.
End streams.

(** * Preparation of the HTTP server ([mcp_http.rs])

    From the environment, the authority and the database to a server that can be
    bound: the address, the routes and the state.  Every role that a request may
    run as is checked against the database before. *)

Module HttpServerError.
Inductive HttpServerError : Type :=
| MissingEnvironment (variable : string)
| InvalidEnvironment (variable : string)
| InvalidProject
| InvalidBind
| Authority (source : ConfigError)
| Executor (source : ExecuteError)
| MutationExecutor (source : MutationExecuteError)
| Listener
| Runtime.
End HttpServerError.
Abbreviation HttpServerError := HttpServerError.HttpServerError.

Abbreviation setup_result := (Prelude.result HttpServerError).

(** ** Addresses *)

Inductive IpAddr : Type :=
| V4 (a b c d : N)
| V6 (segments : list N).

Record SocketAddr : Type := mkSocketAddr { ip : IpAddr; port : N }.

Definition is_loopback (a : IpAddr) : bool :=
  match a with
  | V4 a _ _ _ => bool_decide (a = 127%N)
  | V6 segments => bool_decide (segments = [0; 0; 0; 0; 0; 0; 0; 1]%N)
  end.

Definition is_unspecified (a : IpAddr) : bool :=
  match a with
  | V4 a b c d => bool_decide ([a; b; c; d] = [0; 0; 0; 0]%N)
  | V6 segments => bool_decide (segments = [0; 0; 0; 0; 0; 0; 0; 0]%N)
  end.

(** ** Paths of the metadata *)

Definition protected_resource_metadata_path (resource_path : string) : string :=
  if decide (resource_path = "/") then "/.well-known/oauth-protected-resource"
  else "/.well-known/oauth-protected-resource" +:+ resource_path.

Definition protected_resource_metadata_url (resource : Url) (metadata_path : string)
    : option string :=
  host ← Url.host_str resource;
  Some (Url.scheme resource +:+ "://" +:+ url_authority host (Url.port resource) +:+ metadata_path).

(** What is bound and served. *)
Module Setup.
Record Setup `{AuthCrates} : Type := mk {
  bind : SocketAddr;
  endpoint_path : string;
  metadata_path : string;
  maximum_body : N;
  state : HttpState;
}.
Arguments bind {_}.
Arguments endpoint_path {_}.
Arguments metadata_path {_}.
Arguments maximum_body {_}.
Arguments state {_}.
End Setup.
Abbreviation Setup := Setup.Setup.

(** ** Calls of the preparation: files and the database *)

Inductive SetupOp : Type :=
(** [fs::metadata] and [fs::read] of a configured file *)
| LookUp (path : string)
| Prepare (op : operation).

Definition SetupRes (op : SetupOp) : Type :=
  match op with LookUp _ => option file_entry | Prepare op => answer op end.

Fixpoint on_files {A} (p : prog FileRes A) : prog SetupRes A :=
  match p with
  | Ret a => Ret a
  | Call path k => Call (LookUp path : SetupOp) (fun r => on_files (k r))
  end.

Fixpoint on_roles {A} (p : io A) : prog SetupRes A :=
  match p with
  | Ret a => Ret a
  | Call op k => Call (Prepare op : SetupOp) (fun r => on_roles (k r))
  end.

Section setup.
Context `{Driver} `{AuthCrates}.
(** The environment, the parsing of addresses and the directory of a path. *)
Context (var : environment) (parse_socket_addr : string -> option SocketAddr).
Context (parent : string -> string).

Definition required_environment (variable : string) : setup_result string :=
  map_err (fun error => match error with
           | NotPresent => HttpServerError.MissingEnvironment variable
           | NotUnicode => HttpServerError.InvalidEnvironment variable
           end) (var variable).

Definition environment_or (variable default : string) : setup_result string :=
  match var variable with
  | Ok value => Ok value
  | Err NotPresent => Ok default
  | Err NotUnicode => Err (HttpServerError.InvalidEnvironment variable)
  end.

Definition bind_address : setup_result SocketAddr :=
  text ← environment_or "POSTGRESEM_MCP_HTTP_BIND" "127.0.0.1:8080";
  bind ← ok_or (parse_socket_addr text) HttpServerError.InvalidBind;
  fail_if (negb (is_loopback (ip bind))
           || match ip bind with V6 _ => is_unspecified (ip bind) | V4 _ _ _ _ => false end)
    HttpServerError.InvalidBind;;
  Ok bind.

(** The executors' configurations under the first role of each kind, and the
    project. *)
Definition base_configurations (authority : Authority)
    : setup_result (ExecutorConfig * option MutationExecutorConfig) :=
  runtime_url ← environment_or "POSTGRESEM_MCP_RUNTIME_URL_ENV" "DATABASE_URL";
  audit_url ← environment_or "POSTGRESEM_MCP_AUDIT_URL_ENV" "POSTGRESEM_AUDIT_DATABASE_URL";
  runtime_password ←
    environment_or "POSTGRESEM_MCP_RUNTIME_PASSWORD_ENV" "POSTGRESEM_RUNTIME_PASSWORD";
  audit_password ←
    environment_or "POSTGRESEM_MCP_AUDIT_PASSWORD_ENV" "POSTGRESEM_AUDIT_WRITER_PASSWORD";
  first_query_role ← ok_or (head (query_roles authority)) HttpServerError.InvalidProject;
  query_base ← map_err HttpServerError.Executor
    (Executor.from_environment_with_passwords_and_role var runtime_url (Some runtime_password)
       audit_url (Some audit_password) first_query_role);
  mutation_base ←
    (if AuthorityDocument.remote_mutation_enabled (Authority.document authority) then
       mutation_url ← required_environment "POSTGRESEM_MCP_MUTATION_URL_ENV";
       mutation_password ← environment_or "POSTGRESEM_MCP_MUTATION_PASSWORD_ENV"
                             "POSTGRESEM_MUTATION_RUNTIME_PASSWORD";
       first_mutation_role ← ok_or (head (mutation_roles authority)) HttpServerError.InvalidProject;
       base ← map_err HttpServerError.MutationExecutor
         (MutationExecutor.from_environment_with_passwords_and_role var mutation_url
            (Some mutation_password) audit_url (Some audit_password) first_mutation_role);
       Ok (Some base)
     else Ok None);
  Ok (query_base, mutation_base).

Definition preflight_query (base : ExecutorConfig) (role : string)
    : io_result HttpServerError unit :=
  config ←? lift (map_err HttpServerError.Executor (Executor.with_database_role base role));
  attempt HttpServerError.Executor (Executor.preflight_role config).

Definition preflight_mutation (base : MutationExecutorConfig) (role : string)
    : io_result HttpServerError unit :=
  config ←? lift (map_err HttpServerError.MutationExecutor
                    (MutationExecutor.with_database_role base role));
  attempt HttpServerError.MutationExecutor (MutationExecutor.preflight_role config).

(** Conversions from 32 bits to [usize] do not fail; the one from 64 bits is
    explicit. *)
Definition prepare_with (authority : Authority) : io_result HttpServerError Setup :=
  let limits := AuthorityDocument.server_limits (Authority.document authority) in
  bind ←? lift bind_address;
  project ←? lift (required_environment "POSTGRESEM_MCP_PROJECT");
  lift (fail_if (trim_is_empty project) HttpServerError.InvalidProject) ;;?
  '(query_base, mutation_base) ←? lift (base_configurations authority);
  each (preflight_query query_base) (query_roles authority) ;;?
  match mutation_base with
  | Some base => each (preflight_mutation base) (mutation_roles authority)
  | None => Ret (Ok tt)
  end ;;?
  resource ←? lift (ok_or (url_parse (AuthorityDocument.resource (Authority.document authority)))
                      HttpServerError.InvalidProject);
  let metadata_path := protected_resource_metadata_path (Url.path resource) in
  metadata_url ←? lift (ok_or (protected_resource_metadata_url resource metadata_path)
                          HttpServerError.InvalidProject);
  let maximum_body := ServerLimits.max_request_body_bytes limits in
  lift (fail_if (bool_decide (USIZE_MAX < maximum_body)%N) HttpServerError.InvalidProject) ;;?
  Ret (Ok (Setup.mk _ bind (Url.path resource) metadata_path maximum_body
             (HttpState.mk _ authority project query_base mutation_base limits metadata_url))).

Definition AUTHORITY_FILE_ENV : string := "POSTGRESEM_MCP_HTTP_AUTHORITY_FILE".

Definition prepare_server : prog SetupRes (setup_result Setup) :=
  authority_path ←? lift (required_environment AUTHORITY_FILE_ENV);
  authority ←? attempt HttpServerError.Authority (on_files (load_path parent authority_path));
  on_roles (prepare_with authority).
End setup.
