(* ===== verification/HttpPool.v ===== *)
(** * Requests that run side by side

    The semaphores and the limiter are shared by every handler and every blocking
    task.  A pool steps one of its programs at a time, answers its call from the
    shared state, and adds the tasks that are spawned.  A program logic of owned
    permits shows that each program returns what it took, and that it owns what
    it needs where it dispatches; the pool then never exceeds its bounds. *)

From stdpp Require Import relations gmap.
From S2P Require Import RateLimit Database PublishedModel Executor MutationExecutor Prelude.
From S2P Require Import Ordered Text StrOps Json Lsq Semantic Compiler Lsm Mutation Effects.
From S2P Require Import Authority Authentication Mcp Http HttpServer AuthSpec.

(** ** The pool *)

Record Shared : Type := mkShared {
  available : Semaphore -> nat;
  limiter : LimiterState;
}.

Definition set_available (s : Semaphore) (n : nat) (sh : Shared) : Shared :=
  mkShared (fun s' => if decide (s' = s) then n else available sh s') (limiter sh).

Definition capacity (limits : ServerLimits) (s : Semaphore) : nat :=
  N.to_nat
    match s with
    | Authenticated => ServerLimits.max_concurrent_requests limits
    | PreAuth => ServerLimits.max_pre_auth_concurrent_requests limits
    | DatabaseConnections => ServerLimits.max_database_connections limits
    end.

Definition idle (limits : ServerLimits) : Shared := mkShared (capacity limits) ∅.

(** The answer of the limiter at a time. *)
Definition limiter_answer (s : LimiterState) (authority_id : string) (limit : RateLimitConfig)
    (now : Z) : LimiterState * result LimitError unit :=
  let '(s', r) :=
    RateLimit.acquire s authority_id (Z.of_N (RateLimitConfig.requests_per_minute limit))
      (Z.of_N (RateLimitConfig.burst limit)) (Z.of_N (RateLimitConfig.max_concurrent limit)) now in
  (s', match r with Ok _ => Ok tt | Err e => Err e end).

(** The effect of a call on the shared state, its answer and what it spawns.  The
    other calls are answered by the outside: anything. *)
Definition answered (sh : Shared) (op : HttpOp) : HttpRes op -> Shared -> list (http unit) -> Prop :=
  match op with
  | TryAcquire s n => fun r sh' new =>
      r = bool_decide (n <= available sh s) /\ new = []
      /\ sh' = (if r : bool then set_available s (available sh s - n) sh else sh)
  | LimiterAcquire id limit => fun r sh' new =>
      exists now, limiter_answer (limiter sh) id limit now = (limiter sh', r)
                  /\ available sh' = available sh /\ new = []
  | Drop (SemaphorePermit s n) => fun _ sh' new =>
      sh' = set_available s (available sh s + n) sh /\ new = []
  | Drop (PrincipalPermit id) => fun _ sh' new =>
      sh' = mkShared (available sh) (drop_permit (limiter sh) id) /\ new = []
  | Spawn job => fun _ sh' new => sh' = sh /\ new = [worker job]
  | _ => fun _ sh' new => sh' = sh /\ new = []
  end.

Section pool.
Context `{HttpCrates} `{AuthCrates} (state : HttpState).

Definition handler (metadata : bool) (headers : HeaderMap) : http Response :=
  if metadata then handle_metadata state headers else handle_mcp state headers.

Inductive pool_step : Shared * list (http unit) -> Shared * list (http unit) -> Prop :=
| pool_accept sh ts metadata headers :
    pool_step (sh, ts) (sh, (handler metadata headers ≫= fun _ => Ret tt) :: ts)
| pool_call sh ts1 op k ts2 r sh' new :
    answered sh op r sh' new ->
    pool_step (sh, ts1 ++ Call op k :: ts2) (sh', ts1 ++ k r :: ts2 ++ new)
| pool_return sh ts1 ts2 : pool_step (sh, ts1 ++ Ret tt :: ts2) (sh, ts1 ++ ts2).

Definition pool_reachable (limits : ServerLimits) : Shared * list (http unit) -> Prop :=
  rtc pool_step (idle limits, []).
End pool.

(** ** Owned permits *)

Fixpoint remove_one (p : permit) (l : list permit) : list permit :=
  match l with
  | [] => []
  | q :: l' => if decide (p = q) then l' else q :: remove_one p l'
  end.

Lemma remove_one_perm p l : p ∈ l -> l ≡ₚ p :: remove_one p l.
Proof.
  induction l as [|q l IH]; simpl; [by intros ?%not_elem_of_nil|].
  case_decide as Hq; [by subst|]. intros [?|Hl]%elem_of_cons; [done|].
  rewrite (IH Hl) at 1. apply perm_swap.
Qed.

Definition take_away (l owned : list permit) : list permit := foldr remove_one owned l.

Lemma take_away_perm l owned : l ⊆+ owned -> owned ≡ₚ l ++ take_away l owned.
Proof.
  revert owned. induction l as [|p l IH]; intros owned Hl; [done|].
  assert (Hp : p :: l ⊆+ owned) by done.
  apply submseteq_cons_l in Hl as (owned' & Hperm & Hl').
  assert (l ⊆+ owned) as Hl by (etrans; [|exact Hp]; by apply submseteq_cons).
  simpl. pose proof (IH _ Hl) as Heq.
  assert (p ∈ take_away l owned) as Hin.
  { apply submseteq_Permutation in Hp as [k Hk]. rewrite Heq in Hk.
    assert (take_away l owned ≡ₚ p :: k) as ->
      by (apply (Permutation_app_inv_l l); rewrite Hk; simpl; apply Permutation_middle).
    left. }
  rewrite Heq at 1. rewrite (remove_one_perm p _ Hin) at 1.
  symmetry. apply Permutation_middle.
Qed.

Definition permit_count (s : Semaphore) (p : permit) : nat :=
  match p with
  | SemaphorePermit s' n => if decide (s' = s) then n else 0
  | PrincipalPermit _ => 0
  end.

(** Permits of a semaphore, and authorities of the limiter, in a list of owned
    permits. *)
Definition held (s : Semaphore) (l : list permit) : nat := sum_list_with (permit_count s) l.

Definition principals_of (l : list permit) : list string :=
  omap (fun p => match p with PrincipalPermit id => Some id | _ => None end) l.

Lemma held_app s l l' : held s (l ++ l') = held s l + held s l'.
Proof. apply sum_list_with_app. Qed.

#[export] Instance held_perm s : Proper ((≡ₚ) ==> (=)) (held s).
Proof. intros l l' Hl. unfold held. induction Hl; simpl; lia. Qed.

#[export] Instance principals_of_perm : Proper ((≡ₚ) ==> (≡ₚ)) principals_of.
Proof. intros l l' Hl. unfold principals_of. by rewrite Hl. Qed.

Lemma principals_of_app l l' : principals_of (l ++ l') = principals_of l ++ principals_of l'.
Proof. apply omap_app. Qed.

(** The authority a job runs for. *)
Definition job_authority (job : Job) : string :=
  ExecutionContext.authority_id (McpConfig.execution_context (Job.server job)).

(** A job owns what its method needs. *)
Definition equipped (job : Job) : Prop :=
  Job.permits job
  = execution_permits (job_authority job) (method_uses_database (Job.method job)).

Section ownership.
Context (principals : list PrincipalConfig).

Definition limit_of (authority_id : string) (limit : RateLimitConfig) : Prop :=
  exists p, p ∈ principals /\ PrincipalConfig.authority_id p = authority_id
            /\ PrincipalConfig.rate_limit p = limit.

Definition may_call (owned : list permit) (op : HttpOp) : Prop :=
  match op with
  | Drop p => p ∈ owned
  | LimiterAcquire id limit => limit_of id limit
  | ReadBody _ _ => SemaphorePermit PreAuth 1 ∈ owned
  | Spawn job | Dispatch job => equipped job /\ Job.permits job ⊆+ owned
  | _ => True
  end.

Definition owned_after (owned : list permit) (op : HttpOp) : HttpRes op -> list permit :=
  match op with
  | TryAcquire s n => fun r => if r : bool then SemaphorePermit s n :: owned else owned
  | LimiterAcquire id _ => fun r => match r with Ok _ => PrincipalPermit id :: owned | Err _ => owned end
  | Drop p => fun _ => remove_one p owned
  | Spawn job => fun _ => take_away (Job.permits job) owned
  | _ => fun _ => owned
  end.

(** The program gives back or hands over everything it owns or acquires. *)
Definition balanced {A} (p : http A) (owned : list permit) : Prop :=
  monitored may_call owned_after p owned (fun m _ => m = []).

Lemma balanced_drop_all l owned : owned ≡ₚ l -> balanced (drop_all l) owned.
Proof.
  revert owned. induction l as [|p l IH]; intros owned Hl.
  - apply Permutation_nil_r in Hl as ->. done.
  - split; simpl; [rewrite Hl; left|]. intros _. apply IH.
    apply (Permutation_cons_inv (a := p)). rewrite <- Hl. symmetry. apply remove_one_perm.
    rewrite Hl. left.
Qed.

Lemma monitored_leave {A} l owned response (Q : list permit -> result Response A -> Prop) :
  owned ≡ₚ l -> Q [] (Err response) -> monitored may_call owned_after (leave l response) owned Q.
Proof.
  intros Hl HQ. eapply monitored_seq; [by apply balanced_drop_all|]. by intros m a ->.
Qed.

(** A fallible step whose failure drops everything. *)
Lemma balanced_or_leave {A B} l owned (m : result Response A) (k : A -> http (result Response B)) :
  owned ≡ₚ l -> (forall a, m = Ok a -> balanced (k a) owned) ->
  balanced (try_bind (or_leave l m) k) owned.
Proof.
  intros Hl Hk. destruct m as [a|response]; [by apply Hk|].
  apply (monitored_seq _ _ _ _ _ (fun m r => m = [] /\ exists e, r = Err e)).
  - apply monitored_leave; eauto.
  - intros m' r [-> [e ->]]. done.
Qed.

Lemma balanced_bind {A B} (p : http A) (f : A -> http B) owned :
  balanced p owned -> (forall a, balanced (f a) []) -> balanced (p ≫= f) owned.
Proof. intros Hp Hf. eapply monitored_seq; [exact Hp|]. intros m a ->. apply Hf. Qed.

Lemma balanced_respond p owned : balanced p owned -> balanced (respond p) owned.
Proof. intros Hp. by apply balanced_bind. Qed.

Lemma balanced_call {B} op (k : HttpRes op -> http B) owned :
  may_call owned op -> (forall r, balanced (k r) (owned_after owned op r)) ->
  balanced (call op ≫= k) owned.
Proof. intros Ha Hk. split; [done|]. apply Hk. Qed.
End ownership.

(** ** The programs are balanced *)

Section handlers.
Context `{HttpCrates} `{AuthCrates} (state : HttpState).
Hypothesis Hconsistent : consistent (HttpState.authority state).

Abbreviation principals :=
  (AuthorityDocument.principals (Authority.document (HttpState.authority state))).

Lemma authenticated_limit headers now p :
  authenticated_principal state headers now = Ok p ->
  limit_of principals (AuthenticatedPrincipal.authority_id p) (AuthenticatedPrincipal.rate_limit p).
Proof.
  unfold authenticated_principal, authenticate, authenticate_at. intros Ha. unbind.
  repeat match goal with
  | Hr : bt_get _ (Authority.principals _) = Some _ |- _ =>
      apply (co_principals _ Hconsistent) in Hr as (c & Hc & _ & ->)
  end.
  simpl. exists c. done.
Qed.

Lemma server_authority principal server :
  server_for_principal state principal = Ok server ->
  ExecutionContext.authority_id (McpConfig.execution_context server)
  = AuthenticatedPrincipal.authority_id principal.
Proof.
  unfold server_for_principal, new_with_authority. intros Hs. unbind. done.
Qed.

Lemma balanced_spawn {A} job (k : unit -> http A) owned :
  equipped job -> owned ≡ₚ Job.permits job ->
  (forall u, balanced principals (k u) []) -> balanced principals (call (Spawn job) ≫= k) owned.
Proof.
  intros He Ho Hk. apply balanced_call; [split; [done|]; by rewrite Ho|]. intros u. simpl.
  assert (take_away (Job.permits job) owned = []) as ->; [|apply Hk].
  apply Permutation_nil_r, (Permutation_app_inv_l (Job.permits job)).
  rewrite app_nil_r, <- take_away_perm, Ho; [done|]. by rewrite Ho.
Qed.

Lemma balanced_execute principal headers body :
  balanced principals (execute_request state principal headers body)
    [SemaphorePermit Authenticated 1; PrincipalPermit (AuthenticatedPrincipal.authority_id principal)].
Proof.
  unfold execute_request. cbv zeta.
  apply balanced_or_leave; [done|]. intros request _.
  apply balanced_or_leave; [done|]. intros _ _.
  apply (monitored_seq _ _ _ _ _ (fun m r =>
    match r with
    | Ok database => database = method_uses_database (ModernRequest.method request)
        /\ m ≡ₚ execution_permits (AuthenticatedPrincipal.authority_id principal) database
    | Err _ => m = []
    end)).
  { destruct (method_uses_database _).
    - apply monitored_bind. split; [done|]. intros [|].
      + simpl. split; [done|]. rewrite Permutation_cons_append. apply perm_swap.
      + by apply monitored_leave.
    - simpl. split; [done|]. apply perm_swap. }
  intros m [database|e] Hm; [|done]. destruct Hm as [-> Hm].
  apply balanced_or_leave; [done|]. intros server Hs%map_err_ok.
  assert (Hspawn : forall streaming (k : unit -> http Response),
    (forall u, balanced principals (k u) []) ->
    balanced principals
      (call (Spawn (Job.mk server (ModernRequest.method request) (ModernRequest.params request)
         (execution_permits (AuthenticatedPrincipal.authority_id principal)
            (method_uses_database (ModernRequest.method request))) streaming)) ≫= k) m).
  { intros streaming k Hk. apply balanced_spawn; [|done|done]. unfold equipped, job_authority. simpl.
    by rewrite (server_authority _ _ Hs). }
  apply balanced_bind; [|done].
  destruct (is_streaming_execution request); apply Hspawn; intros []; done.
Qed.

Lemma quiet_read_body owned :
  SemaphorePermit PreAuth 1 ∈ owned ->
  quiet (may_call principals) owned_after (read_body state) owned.
Proof. intros Ho. unfold read_body. cbv zeta. destruct (bool_decide _); [done|]. by split. Qed.

Lemma balanced_handler metadata headers :
  balanced principals (handler state metadata headers) [].
Proof.
  unfold handler. destruct metadata.
  - unfold handle_metadata. apply balanced_call; [done|]. intros [|]; [|done]. simpl.
    apply balanced_respond, balanced_or_leave; [done|]. intros _ _. by apply monitored_leave.
  - unfold handle_mcp. apply balanced_call; [done|]. intros [|]; [|done]. simpl.
    apply balanced_respond, balanced_or_leave; [done|]. intros _ _.
    apply balanced_call; [done|]. intros now.
    apply balanced_or_leave; [done|]. intros principal Hp%authenticated_limit.
    apply balanced_call; [done|]. intros [[]|e]; [|by apply balanced_or_leave].
    apply balanced_call; [done|]. intros [|]; [|by apply balanced_or_leave].
    apply monitored_bind. cbn [owned_after negb fail_if or_leave]. apply monitored_quiet; [apply quiet_read_body; set_solver|]. intros read. apply balanced_or_leave; [done|]. intros body _.
    apply balanced_call; [set_solver|]. intros []. simpl. apply balanced_execute.
Qed.

Lemma balanced_worker job : equipped job -> balanced principals (worker job) (Job.permits job).
Proof.
  intros He. unfold worker. apply balanced_call; [by split|]. intros outcome. simpl.
  destruct (Job.streaming job); [|by apply balanced_drop_all].
  eapply (monitored_seq _ _ _ _ _ (fun m _ => m = Job.permits job)).
  { by destruct outcome. }
  intros m [] ->. apply balanced_bind; [by apply balanced_drop_all|done].
Qed.
End handlers.

(** ** The invariant of the pool *)

Section invariant.
Context `{HttpCrates} `{AuthCrates} (state : HttpState) (limits : ServerLimits).
Hypothesis Hconsistent : consistent (HttpState.authority state).

Abbreviation principals :=
  (AuthorityDocument.principals (Authority.document (HttpState.authority state))).

(** Every running program owns permits that together with the available ones
    make up the capacity, and that the limiter has counted. *)
Record pool_inv (sh : Shared) (owned : list permit) : Prop := {
  pi_semaphores : forall s, available sh s + held s owned = capacity limits s;
  pi_limiter : counted (limiter sh, principals_of owned);
  pi_limits : forall id limit, limit_of principals id limit ->
    (outstanding (principals_of owned) id <= Z.of_N (RateLimitConfig.max_concurrent limit))%Z;
}.

#[local] Instance outstanding_perm id : Proper ((≡ₚ) ==> (=)) (fun l => outstanding l id).
Proof. intros l l' Hl. unfold outstanding. by rewrite Hl. Qed.

#[local] Instance pool_inv_perm sh : Proper ((≡ₚ) ==> iff) (pool_inv sh).
Proof.
  enough (forall l l', l ≡ₚ l' -> pool_inv sh l -> pool_inv sh l') as Himp
    by (intros l l' Hl; split; apply Himp; done).
  intros l l' Hl [Hs Hc Hb]. constructor.
  - intros s. by rewrite <- Hl.
  - intros id. pose proof (Hc id) as Hid. simpl in *.
    by rewrite <- (outstanding_perm id _ _ (principals_of_perm _ _ Hl)).
  - intros id limit Hlim. rewrite <- (outstanding_perm id _ _ (principals_of_perm _ _ Hl)). eauto.
Qed.

Lemma limit_unique id limit limit' :
  limit_of principals id limit -> limit_of principals id limit' -> limit = limit'.
Proof.
  intros (p & Hp & Hid & <-) (q & Hq & Hid' & <-). f_equal.
  apply (NoDup_map_inj PrincipalConfig.authority_id principals); [apply Hconsistent|done..|congruence].
Qed.

Lemma limit_bounds id limit :
  limit_of principals id limit ->
  (RateLimitConfig.requests_per_minute limit < 4294967296
   /\ RateLimitConfig.burst limit < 4294967296
   /\ RateLimitConfig.max_concurrent limit < 4294967296)%N.
Proof.
  intros (p & Hp & _ & <-).
  pose proof (co_principal_ok _ Hconsistent) as Hall. rewrite Forall_forall in Hall.
  pose proof (po_limits _ _ (Hall p Hp)) as Hlim. cbv zeta in Hlim. lia.
Qed.

Lemma pool_inv_limiter sh owned id limit now s' r :
  pool_inv sh owned -> limit_of principals id limit ->
  limiter_answer (limiter sh) id limit now = (s', r) ->
  pool_inv (mkShared (available sh) s')
    (owned_after owned (LimiterAcquire id limit) r).
Proof.
  intros [Hs Hc Hb] Hlim Ha. unfold limiter_answer in Ha.
  set (q := Build_request id (Z.of_N (RateLimitConfig.requests_per_minute limit))
              (Z.of_N (RateLimitConfig.burst limit))
              (Z.of_N (RateLimitConfig.max_concurrent limit)) now).
  destruct (RateLimit.acquire _ _ _ _ _ _) as [s'' r'] eqn:Hacq.
  change (acquire_for (limiter sh) q = (s'', r')) in Hacq. injection Ha as <- <-.
  pose proof (limit_bounds _ _ Hlim) as (Hr1 & Hr2 & Hr3).
  assert (Hu : limits_u32 q) by (unfold limits_u32, q; simpl; lia).
  pose proof (acquire_for_spec _ _ _ _ Hacq) as Hspec. destruct r' as [p|e]; simpl in *.
  - destruct Hspec as (-> & Hlt & _). simpl in Hlt. constructor; simpl.
    + intros s. apply Hs.
    + eapply counted_step; [|exact Hc]. by eapply (step_admit _ _ _ q).
    + intros id' limit' Hlim'. rewrite outstanding_cons. case_decide as Hid; [|rewrite Z.add_0_r; eauto].
      subst id'. rewrite (limit_unique _ _ _ Hlim' Hlim).
      destruct (Hc id) as [Hact _]. simpl in Hact. lia.
  - constructor; simpl; [apply Hs| |apply Hb].
    eapply counted_step; [|exact Hc]. by eapply (step_reject _ _ _ q).
Qed.

Lemma pool_inv_available sh owned s n p rest :
  pool_inv sh owned ->
  (owned ≡ₚ rest /\ p = SemaphorePermit s n /\ n <= available sh s ->
   pool_inv (set_available s (available sh s - n) sh) (p :: rest))
  /\ (owned ≡ₚ p :: rest /\ p = SemaphorePermit s n ->
      pool_inv (set_available s (available sh s + n) sh) rest).
Proof.
  intros Hinv. split.
  - intros (Ho & -> & Hn). rewrite Ho in Hinv. destruct Hinv as [Hs Hc Hb].
    constructor; [|done|done]. intros s'. pose proof (Hs s') as Hcap. simpl.
    unfold held in *. simpl. destruct (decide (s' = s)) as [->|].
    + rewrite decide_True by done. lia.
    + rewrite decide_False by congruence. lia.
  - intros (Ho & ->). rewrite Ho in Hinv. destruct Hinv as [Hs Hc Hb].
    constructor; [|done|done]. intros s'. pose proof (Hs s') as Hcap. simpl in *.
    unfold held in *. simpl in *. destruct (decide (s' = s)) as [->|].
    + rewrite decide_True in Hcap by done. lia.
    + rewrite decide_False in Hcap by congruence. lia.
Qed.

Lemma pool_inv_principal sh id rest :
  pool_inv sh (PrincipalPermit id :: rest) ->
  pool_inv (mkShared (available sh) (drop_permit (limiter sh) id)) rest.
Proof.
  intros [Hs Hc Hb]. constructor; simpl.
  - intros s. apply (Hs s).
  - eapply counted_step; [|exact Hc]. by apply step_drop.
  - intros id' limit Hlim. pose proof (Hb id' limit Hlim) as Hout.
    change (principals_of (PrincipalPermit id :: rest)) with (id :: principals_of rest) in Hout.
    rewrite outstanding_cons in Hout. case_decide; lia.
Qed.

(** A call of one program. *)
Lemma pool_inv_call sh o rest op r sh' new :
  pool_inv sh (o ++ rest) -> may_call principals o op -> answered sh op r sh' new ->
  exists news, Forall2 (fun o t => balanced principals t o) news new
    /\ pool_inv sh' (owned_after o op r ++ rest ++ concat news).
Proof.
  intros Hinv Hmay Hans.
  assert (Hquiet : sh' = sh /\ new = [] -> owned_after o op r = o ->
    exists news, Forall2 (fun o t => balanced principals t o) news new
      /\ pool_inv sh' (owned_after o op r ++ rest ++ concat news)).
  { intros [-> ->] ->. exists []. simpl. rewrite app_nil_r. split; [constructor|done]. }
  destruct op as [s n|id limit|[s n|id]| |max secs|job|secs|job|res|];
    simpl in *; try by apply Hquiet.
  - destruct Hans as (-> & -> & ->). exists []. simpl. rewrite app_nil_r.
    split; [constructor|]. case_bool_decide; [|done].
    by apply (pool_inv_available sh (o ++ rest) s n).
  - destruct Hans as (now & Ha & Hav & ->). exists []. rewrite app_nil_r. split; [constructor|].
    pose proof (pool_inv_limiter _ _ _ _ _ _ _ Hinv Hmay Ha) as Hinv'. rewrite <- Hav in Hinv'.
    destruct sh'. simpl in *. by destruct r.
  - destruct Hans as [-> ->]. exists []. rewrite app_nil_r. split; [constructor|].
    eapply pool_inv_available; [exact Hinv|]. split; [|done].
    rewrite (remove_one_perm _ _ Hmay) at 1. done.
  - destruct Hans as [-> ->]. exists []. rewrite app_nil_r. split; [constructor|].
    apply pool_inv_principal. by rewrite (remove_one_perm _ _ Hmay) in Hinv.
  - destruct Hans as [-> ->], Hmay as [He Hsub]. exists [Job.permits job]. split.
    + constructor; [|constructor]. by apply balanced_worker.
    + simpl. rewrite app_nil_r. rewrite (take_away_perm _ _ Hsub) in Hinv.
      by rewrite (Permutation_app_comm rest), app_assoc, (Permutation_app_comm (take_away _ _)).
Qed.

Lemma pool_reachable_inv sh ts :
  pool_reachable state limits (sh, ts) ->
  exists owned, Forall2 (fun o t => balanced principals t o) owned ts /\ pool_inv sh (concat owned).
Proof.
  intros Hr.
  enough (forall c, pool_reachable state limits c -> exists owned,
    Forall2 (fun o t => balanced principals t o) owned c.2 /\ pool_inv c.1 (concat owned)) as Hall
    by exact (Hall _ Hr).
  clear sh ts Hr. apply (rtc_ind_r _ (idle limits, [])).
  { exists []. split; [constructor|]. constructor; simpl.
    - intros s. unfold held. simpl. lia.
    - intros id. by unfold active_of, outstanding.
    - intros id limit _. unfold outstanding. simpl. lia. }
  intros c c' _ Hstep (owned & Hts & Hinv).
  destruct Hstep as [sh ts metadata headers|sh ts1 op k ts2 r sh' new Hans|sh ts1 ts2]; simpl in *.
  - exists ([] :: owned). split; [|done]. constructor; [|done].
    apply balanced_bind; [by apply balanced_handler|done].
  - apply Forall2_app_inv_r in Hts as (o1 & oo & Ho1 & Hoo & ->).
    apply Forall2_cons_inv_r in Hoo as (o & o2 & [Hmay Hk] & Ho2 & ->).
    rewrite concat_app in Hinv. simpl in Hinv.
    rewrite (Permutation_app_comm (concat o1)), <- app_assoc in Hinv.
    destruct (pool_inv_call _ _ _ _ _ _ _ Hinv Hmay Hans) as (news & Hnews & Hinv').
    exists (o1 ++ owned_after o op r :: o2 ++ news). split.
    + apply Forall2_app; [done|]. constructor; [apply Hk|]. by apply Forall2_app.
    + rewrite concat_app. simpl. rewrite concat_app.
      by rewrite Permutation_app_swap_app, (app_assoc (concat o1)),
        (Permutation_app_comm (concat o1)).
  - apply Forall2_app_inv_r in Hts as (o1 & oo & Ho1 & Hoo & ->).
    apply Forall2_cons_inv_r in Hoo as (o & o2 & Ho & Ho2 & ->). assert (o = []) as -> by exact Ho.
    exists (o1 ++ o2). split; [by apply Forall2_app|]. by rewrite concat_app in *.
Qed.
End invariant.

(** ** Counting *)

(** A program at a call. *)
Definition dispatches (t : http unit) : option Job :=
  match t with Call (Dispatch job) _ => Some job | _ => None end.

Definition is_dispatching (t : http unit) : bool := bool_decide (is_Some (dispatches t)).

Definition is_dispatching_database (t : http unit) : bool :=
  match dispatches t with Some job => method_uses_database (Job.method job) | None => false end.

Definition is_dispatching_for (id : string) (t : http unit) : bool :=
  match dispatches t with Some job => bool_decide (job_authority job = id) | None => false end.

Definition is_reading (t : http unit) : bool :=
  match t with Call (ReadBody _ _) _ => true | _ => false end.

Definition count (test : http unit -> bool) (ts : list (http unit)) : nat :=
  length (filter (fun t => test t = true) ts).

Section counting.
Context (principals : list PrincipalConfig).

(** Programs that own at least [n] of something are at most as many as it. *)
Lemma count_owned (test : http unit -> bool) (f : list permit -> nat) n owned ts :
  (forall o o', f (o ++ o') = f o + f o') ->
  (forall o t, balanced principals t o -> test t = true -> n <= f o) ->
  Forall2 (fun o t => balanced principals t o) owned ts ->
  n * count test ts <= f (concat owned).
Proof.
  intros Happ Htest Hts. unfold count. induction Hts as [|o t owned ts Ho Hts IH]; simpl; [lia|].
  rewrite Happ, filter_cons. case_decide as Ht; simpl; [|lia].
  pose proof (Htest _ _ Ho Ht). lia.
Qed.

Definition running_for (id : string) (l : list permit) : nat :=
  length (filter (fun p => p = id) (principals_of l)).

Lemma running_for_app id l l' : running_for id (l ++ l') = running_for id l + running_for id l'.
Proof. unfold running_for. by rewrite principals_of_app, filter_app, length_app. Qed.

Lemma additive_mono (f : list permit -> nat) l l' :
  (forall o o', f (o ++ o') = f o + f o') -> Proper ((≡ₚ) ==> (=)) f -> l ⊆+ l' -> f l <= f l'.
Proof. intros Happ Hp (k & ->)%submseteq_Permutation. rewrite Happ. lia. Qed.

#[local] Instance running_for_perm id : Proper ((≡ₚ) ==> (=)) (running_for id).
Proof. intros l l' Hl. unfold running_for. by rewrite Hl. Qed.

Lemma dispatching_owns t o job :
  balanced principals t o -> dispatches t = Some job ->
  held Authenticated o >= 1 /\ running_for (job_authority job) o >= 1
  /\ (method_uses_database (Job.method job) = true -> held DatabaseConnections o >= 2).
Proof.
  intros Hb Hd. destruct t as [|op k]; [done|]. destruct op; try done. injection Hd as ->.
  destruct Hb as [[He Hsub] _]. rewrite He in Hsub.
  pose proof (additive_mono _ _ _ (held_app Authenticated) _ Hsub) as H1.
  pose proof (additive_mono _ _ _ (held_app DatabaseConnections) _ Hsub) as H2.
  pose proof (additive_mono _ _ _ (running_for_app (job_authority job)) _ Hsub) as H3.
  unfold execution_permits in *. rewrite held_app in H1, H2. rewrite running_for_app in H3.
  split_and!; [unfold held in *; simpl in *; lia| |].
  - unfold running_for in H3 at 1.
    change (principals_of [PrincipalPermit ?id; _]) with [id] in H3.
    rewrite filter_cons_True in H3 by done. simpl in H3. lia.
  - intros Hm. rewrite Hm in H2. unfold held in *. simpl in *. lia.
Qed.

Lemma reading_owns t o : balanced principals t o -> is_reading t = true -> 1 <= held PreAuth o.
Proof.
  intros Hb Hr. destruct t as [|op k]; [done|]. destruct op; try done. destruct Hb as [Hin _].
  simpl in Hin. rewrite (remove_one_perm _ _ Hin). unfold held. simpl. lia.
Qed.
End counting.
