(* ===== verification/Cancellation.v ===== *)
(** * Cancellation of streamed requests ([mcp_http.rs])

    A stream and the worker behind it share a [CancellationControl].  The worker
    registers the connection it is about to use; the end of the stream drops a
    guard that asks for that connection to be cancelled; the steps of the two
    interleave.  A canceller thread repeats the request until the worker is done
    or its time is up. *)

From stdpp Require Import relations.
From S2P Require Import RateLimit Database PublishedModel Executor MutationExecutor Prelude.
From S2P Require Import Ordered Text StrOps Json Lsq Semantic Compiler Lsm Mutation Effects.
From S2P Require Import Authority Authentication Mcp Http HttpServer.

Section cancellation.
Context (CancelHandle : Type).

(** ** The control *)

Record CancellationControl : Type := mkControl {
  handle : option CancelHandle;
  disconnected : bool;
  worker_finished : bool;
}.

Definition new_control : CancellationControl := mkControl None false false.

Definition register (c : CancellationControl) (h : CancelHandle) : CancellationControl * bool :=
  if disconnected c then (c, false)
  else (mkControl (Some h) (disconnected c) (worker_finished c), true).

Definition disconnect (c : CancellationControl) : CancellationControl * option CancelHandle :=
  (mkControl (handle c) true (worker_finished c), handle c).

Definition finish (c : CancellationControl) : CancellationControl :=
  mkControl (handle c) (disconnected c) true.

(** [Drop for CancelOnDrop]: the handle the canceller gets, if one is started. *)
Definition drop_guard (armed : bool) (c : CancellationControl)
    : CancellationControl * option CancelHandle :=
  if armed then disconnect c else (c, None).

(** ** A worker and its stream *)

(** What the worker is doing: it has not got a connection, is using one it
    registered, has stopped because a registration was refused, or is done. *)
Inductive Worker : Type :=
| Starting
| Using (h : CancelHandle)
| Stopped
| Done.

(** How the stream ended, with the handle of its canceller. *)
Inductive Stream : Type :=
| Open
| Closed (e : StreamEnd) (target : option CancelHandle).

Record Run : Type := mkRun {
  control : CancellationControl;
  worker_state : Worker;
  sent : option (result RpcFailure Value);
  stream : Stream;
}.

Definition new_run : Run := mkRun new_control Starting None Open.

(** A result can be received once it is sent, and the loss of its sender once
    the worker is done without it. *)
Definition can_end (r : Run) (e : StreamEnd) : Prop :=
  match e with
  | Received (Ok res) => sent r = Some res
  | Received (Err _) => worker_state r = Done /\ sent r = None
  | DeadlineReached | ClientGone => True
  end.

Inductive run_step `{HttpCrates} (s : Response.Stream) : Run -> Run -> Prop :=
| run_register r h c ok :
    worker_state r <> Done ->
    register (control r) h = (c, ok) ->
    run_step s r (mkRun c (if ok : bool then Using h else Stopped) (sent r) (stream r))
| run_send r res :
    worker_state r <> Done -> sent r = None ->
    run_step s r (mkRun (control r) (worker_state r) (Some res) (stream r))
| run_finish r :
    worker_state r <> Done ->
    run_step s r (mkRun (finish (control r)) Done (sent r) (stream r))
| run_end r e c target :
    stream r = Open -> can_end r e ->
    drop_guard (stream_end s e).2 (control r) = (c, target) ->
    run_step s r (mkRun c (worker_state r) (sent r) (Closed e target)).

(** ** The canceller *)

(** One turn of the retry loop after another.  Times are in milliseconds since
    the canceller started; [finished t] says whether the worker has finished at
    [t], and turn [i] takes [extra i] besides its sleep.  The result is when
    requests were sent and when the loop ended. *)
Fixpoint cancel_loop (fuel : nat) (finished : N -> bool) (extra : nat -> N) (deadline : N)
    (i : nat) (now retry_delay : N) : list N * option N :=
  match fuel with
  | 0 => ([], None)
  | S fuel' =>
      if negb (finished now) && bool_decide (now < deadline)%N then
        let '(sent, ended) :=
          cancel_loop fuel' finished extra deadline (S i) (now + extra i + retry_delay)
            (N.min (2 * retry_delay) 250) in
        (now :: sent, ended)
      else ([], Some now)
  end.

(** The loop of a canceller whose stream may last [maximum_duration] seconds. *)
Definition canceller (finished : N -> bool) (extra : nat -> N) (maximum_duration : N)
    : list N * option N :=
  let deadline := (maximum_duration * 1000)%N in
  cancel_loop (N.to_nat (deadline / 10) + 2) finished extra deadline 0 0 10.

(** ** Facts *)

Definition is_received (e : StreamEnd) : bool := match e with Received _ => true | _ => false end.
Definition is_done (w : Worker) : bool := match w with Done => true | _ => false end.

Record run_inv (r : Run) : Prop := {
  ri_using : forall h, worker_state r = Using h -> handle (control r) = Some h;
  ri_finished : worker_finished (control r) = is_done (worker_state r);
  ri_open : stream r = Open -> disconnected (control r) = false;
  ri_received : forall e target, stream r = Closed e target -> is_received e = true ->
    target = None /\ (is_Some (sent r) \/ worker_state r = Done);
  ri_cancelled : forall e target, stream r = Closed e target -> is_received e = false ->
    disconnected (control r) = true /\ (forall h, worker_state r = Using h -> target = Some h);
}.

Lemma run_inv_step `{HttpCrates} s r r' : run_step s r r' -> run_inv r -> run_inv r'.
Proof.
  intros Hstep [Hu Hf Hop Hr Hc].
  destruct Hstep as [r h c ok Hw Hreg|r res Hw Hs|r Hw|r e c target Ho He Hd].
  - assert (Hrec : forall e target, stream r = Closed e target -> is_received e = true ->
      target = None /\ is_Some (sent r)).
    { intros e target He Hrec. by destruct (Hr e target He Hrec) as [-> [?|?]]. }
    assert (Hnd : is_done (worker_state r) = false) by (by destruct (worker_state r)).
    unfold register in Hreg. destruct (disconnected (control r)) eqn:Hdis;
      injection Hreg as <- <-; constructor; simpl; rewrite ?Hdis; try done; try congruence;
      intros e target He Ht; first [destruct (Hrec e target He Ht); by auto
                                   |by destruct (Hc e target He Ht)].
  - constructor; simpl; [done..| |done]. intros e target He Ht. destruct (Hr e target He Ht). eauto.
  - constructor; simpl; try done.
    + intros e target He Ht. destruct (Hr e target He Ht). auto.
    + intros e target He Ht. by destruct (Hc e target He Ht).
  - unfold drop_guard, disconnect in Hd.
    destruct e as [res| |]; simpl in *; injection Hd as <- <-; constructor; simpl; try done;
      intros e' target' [= <- <-]; try done; intros _; split; try done.
    destruct res as [res|[]]; simpl in He; [left; eauto|right; by destruct He].
Qed.

Lemma run_reachable_inv `{HttpCrates} s r : rtc (run_step s) new_run r -> run_inv r.
Proof.
  intros Hr. apply (rtc_ind_r run_inv new_run) in Hr; [done| |].
  - constructor; simpl; congruence.
  - intros y z _ Hstep Hy. by apply (run_inv_step s y).
Qed.

Lemma cancel_loop_turn finished extra deadline fuel i now delay :
  cancel_loop (S fuel) finished extra deadline i now delay
  = if negb (finished now) && bool_decide (now < deadline)%N then
      let '(sent, ended) := cancel_loop fuel finished extra deadline (S i) (now + extra i + delay)
                              (N.min (2 * delay) 250) in (now :: sent, ended)
    else ([], Some now).
Proof. reflexivity. Qed.

(** The pause after turn [i]: ten milliseconds, doubled every time, at most 250. *)
Definition pause (i : nat) : N := N.min (10 * 2 ^ N.of_nat i) 250.

(** When turn [i] begins. *)
Fixpoint wakes (extra : nat -> N) (i : nat) : N :=
  match i with 0 => 0 | S i => wakes extra i + extra i + pause i end.

Lemma pause_step i : N.min (2 * pause i) 250 = pause (S i).
Proof. unfold pause. rewrite Nat2N.inj_succ, N.pow_succ_r'. lia. Qed.

Lemma pause_bound i : (10 <= pause i <= 250)%N.
Proof. unfold pause. pose proof (N.pow_nonzero 2 (N.of_nat i) ltac:(lia)). lia. Qed.

(** From turn [i] on, a request is sent at the beginning of every turn until one
    begins when the worker is finished or the time is up, which ends the loop. *)
Lemma cancel_loop_repeats finished extra deadline fuel : forall i,
  (deadline <= wakes extra i + 10 * N.of_nat fuel)%N ->
  exists n, cancel_loop (S fuel) finished extra deadline i (wakes extra i) (pause i)
      = (map (wakes extra) (seq i n), Some (wakes extra (i + n)))
    /\ (finished (wakes extra (i + n)) = true \/ (deadline <= wakes extra (i + n))%N)
    /\ forall k, i <= k < i + n ->
         finished (wakes extra k) = false /\ (wakes extra k < deadline)%N.
Proof.
  assert (Hend : forall i, (finished (wakes extra i) = true \/ (deadline <= wakes extra i)%N) ->
    exists n, ([], Some (wakes extra i)) = (map (wakes extra) (seq i n), Some (wakes extra (i + n)))
      /\ (finished (wakes extra (i + n)) = true \/ (deadline <= wakes extra (i + n))%N)
      /\ forall k, i <= k < i + n ->
           finished (wakes extra k) = false /\ (wakes extra k < deadline)%N).
  { intros i Hi. exists 0. rewrite Nat.add_0_r. split_and!; [done..|lia]. }
  induction fuel as [|fuel IH]; intros i Hfuel; rewrite cancel_loop_turn;
    destruct (finished (wakes extra i)) eqn:Hf; cbn [negb andb]; try (apply Hend; by left).
  - rewrite bool_decide_eq_false_2 by lia. apply Hend. right. lia.
  - case_bool_decide as Hnow; [|apply Hend; right; lia].
    rewrite pause_step. destruct (IH (S i)) as (n & Hn & Ht & Hall).
    { simpl. pose proof (pause_bound i). lia. }
    change (wakes extra i + extra i + pause i)%N with (wakes extra (S i)). rewrite Hn.
    exists (S n). rewrite <- Nat.add_succ_comm in *. split_and!; [done..|].
    intros k Hk. destruct (decide (k = i)) as [->|]; [done|]. apply Hall. lia.
Qed.
End cancellation.
