(* ===== verification/HttpSpec.v ===== *)
(** * What an accepted HTTP request is

    Declarative conditions on headers and body, and that the checks of the server
    accept exactly the requests that satisfy them.

    The second part is a sample request. *)

From stdpp Require Import relations gmap.
From S2P Require Import RateLimit Database PublishedModel Executor MutationExecutor Prelude.
From S2P Require Import Ordered Text StrOps Json Lsq Semantic Compiler Lsm Mutation Effects.
From S2P Require Import Authority Authentication AuthTheorems Mcp Http HttpServer HttpPool.

Section requests.
Context `{HttpCrates} `{AuthCrates}.

(** ** Headers *)

(** The header is given once, with this text. *)
Definition the_header (headers : HeaderMap) (name value : string) : Prop :=
  exists raw, get_all headers name = [raw] /\ header_to_str raw = Some value.

Lemma single_header_some headers name value :
  single_header headers name = Ok (Some value) <-> the_header headers name value.
Proof.
  unfold single_header, the_header. destruct (get_all headers name) as [|raw more].
  { split; [done|]. by intros (raw & [=] & _). }
  rewrite bind_ok. setoid_rewrite guard_then. setoid_rewrite ok_or_ok. split.
  - intros (first & Hf & Hmore & [= <-]). apply negb_false_iff, bool_decide_eq_true in Hmore as ->.
    eauto.
  - intros (raw' & [= -> ->] & Hf). eauto.
Qed.

Lemma single_header_none headers name :
  single_header headers name = Ok None <-> get_all headers name = [].
Proof.
  unfold single_header. destruct (get_all headers name) as [|raw more]; [done|].
  rewrite bind_ok. setoid_rewrite guard_then. split; [|done]. by intros (? & _ & _ & [=]).
Qed.

Lemma required_header_ok headers name id value :
  required_header headers name id = Ok value <-> the_header headers name value.
Proof.
  unfold required_header. rewrite bind_ok. setoid_rewrite map_err_ok. setoid_rewrite ok_or_ok.
  rewrite <- single_header_some. split; [by intros (? & ? & ->)|eauto].
Qed.

(** A header value stands for a name: as it is, or as base64 of UTF-8. *)
Definition stands_for (encoded name : string) : Prop :=
  (encoded = name /\ ~ (exists rest, encoded = "=?base64?" +:+ rest)
   /\ ~ (exists rest, encoded = rest +:+ "?="))
  \/ exists text, encoded = "=?base64?" +:+ text +:+ "?="
       /\ standard_decode text = Some name /\ utf8_from 0 name = true.

Lemma decode_header_value_some encoded name :
  decode_header_value encoded = Some name <-> stands_for encoded name.
Proof.
  unfold decode_header_value, stands_for.
  destruct (strip_prefix "=?base64?" encoded ≫= strip_suffix "?=") as [text|] eqn:Htext.
  - apply bind_Some in Htext as (rest & Hp%strip_prefix_some & Hs%strip_suffix_some). subst.
    rewrite bind_Some. unfold from_utf8. split.
    + intros (x & Hd & Hu). destruct (utf8_from 0 x) eqn:Hx; [|done]. injection Hu as <-.
      right. by exists text.
    + intros [(_ & Hn & _)|(text' & Heq & Hd & Hu)]; [by destruct Hn; eexists|].
      assert (text = text') as <-.
      { apply Some_inj. rewrite <- (strip_suffix_app "?=" text), <- (strip_suffix_app "?=" text').
        f_equal. by injection Heq. }
      exists name. by rewrite Hu.
  - assert (Hno : forall text, encoded <> "=?base64?" +:+ text +:+ "?=").
    { intros text ->. by rewrite (proj2 (strip_prefix_some _ _ _) eq_refl) in Htext;
        simpl in Htext; rewrite strip_suffix_app in Htext. }
    assert (He : ends_with "?=" encoded = true <-> exists rest, encoded = rest +:+ "?=").
    { unfold ends_with. rewrite bool_decide_eq_true. split.
      - intros [rest Hr%strip_suffix_some]. eauto.
      - intros (rest & ->). rewrite strip_suffix_app. eauto. }
    rewrite <- starts_with_spec, <- He.
    destruct (starts_with _ encoded), (ends_with _ encoded); simpl; naive_solver.
Qed.

(** ** Requests *)

(** The metadata of a request of the supported protocol version. *)
Record meta_ok (headers : HeaderMap) (params : list (string * Value)) : Prop := {
  mo_header : the_header headers "mcp-protocol-version" MODERN_PROTOCOL_VERSION;
  mo_metadata : exists metadata client,
    bt_get "_meta" params = Some (Value_Object metadata)
    /\ bt_get "io.modelcontextprotocol/protocolVersion" metadata
       = Some (Value_String MODERN_PROTOCOL_VERSION)
    /\ bt_get "io.modelcontextprotocol/clientInfo" metadata = Some (Value_Object client)
    /\ (exists name, bt_get "name" client = Some (Value_String name) /\ name <> EmptyString)
    /\ (exists version, bt_get "version" client = Some (Value_String version)
                        /\ version <> EmptyString)
    /\ exists capabilities, bt_get "io.modelcontextprotocol/clientCapabilities" metadata
                            = Some (Value_Object capabilities);
}.

(** The headers repeat the method and the name of the request. *)
Definition method_headers_ok (headers : HeaderMap) (method : string) (name : option string)
    : Prop :=
  the_header headers "mcp-method" method
  /\ match name with
     | Some name => exists encoded, the_header headers "mcp-name" encoded /\ stands_for encoded name
     | None => get_all headers "mcp-name" = []
     end.

Record request_ok (headers : HeaderMap) (body : string) (r : ModernRequest) : Prop := {
  ro_object : exists object, value_from_slice body = Some (Value_Object object)
    /\ bt_get "jsonrpc" object = Some (Value_String "2.0")
    /\ bt_get "id" object = Some (ModernRequest.id r)
    /\ bt_get "method" object = Some (Value_String (ModernRequest.method r))
    /\ (bt_get "params" object = Some (Value_Object (ModernRequest.params r))
        \/ (bt_get "params" object = None /\ ModernRequest.params r = []));
  ro_id : valid_request_id (ModernRequest.id r) = true;
  ro_name : ModernRequest.name r
    = request_name (ModernRequest.method r) (ModernRequest.params r);
  ro_meta : meta_ok headers (ModernRequest.params r);
  ro_headers : method_headers_ok headers (ModernRequest.method r) (ModernRequest.name r);
}.

Lemma as_object_some v fields : as_object v = Some fields <-> v = Value_Object fields.
Proof. destruct v; naive_solver. Qed.

Lemma object_field_some (name : string) object fields :
  bt_get name object ≫= as_object = Some fields <-> bt_get name object = Some (Value_Object fields).
Proof. rewrite bind_Some. setoid_rewrite as_object_some. naive_solver. Qed.

Lemma str_field_some name object s :
  str_field name object = Some s <-> bt_get name object = Some (Value_String s).
Proof.
  unfold str_field. rewrite bind_Some. split; [|by eexists].
  intros (v & Hv & Hs). destruct v; naive_solver.
Qed.

Lemma no_text_false name object :
  no_text (str_field name object) = false
  <-> exists s, bt_get name object = Some (Value_String s) /\ s <> EmptyString.
Proof.
  setoid_rewrite <- str_field_some. unfold no_text. destruct (str_field name object); [|naive_solver].
  rewrite bool_decide_eq_false. naive_solver.
Qed.

Lemma validate_request_meta_ok headers params id u :
  validate_request_meta headers params id = Ok u <-> meta_ok headers params.
Proof.
  unfold validate_request_meta. split.
  - intros Hm. unbind.
    repeat match goal with
    | Hx : required_header _ _ _ = Ok _ |- _ => apply required_header_ok in Hx
    | Hx : bt_get _ _ ≫= as_object = Some _ |- _ => apply object_field_some in Hx
    | Hx : str_field _ _ = Some _ |- _ => apply str_field_some in Hx
    | Hx : no_text _ = false |- _ => apply no_text_false in Hx
    | Hx : ~ (_ <> _) |- _ => apply dec_stable in Hx; subst
    | Hx : bt_get _ _ ≫= as_object <> None |- _ =>
        apply not_eq_None_Some in Hx as [? Hx%object_field_some]
    end.
    constructor; [done|]. eauto 12.
  - intros [Hh (metadata & client & Hm & Hv & Hc & Hn & Hver & caps & Hcaps)]. destruct u.
    rewrite (proj2 (required_header_ok _ _ _ _) Hh). simpl.
    rewrite Hm. simpl. rewrite (proj2 (str_field_some _ _ _) Hv). simpl.
    rewrite Hc. simpl.
    rewrite (proj2 (no_text_false _ _) Hn), (proj2 (no_text_false _ _) Hver). simpl.
    by rewrite Hcaps.
Qed.

Lemma validate_method_headers_ok headers method params id u :
  validate_method_headers headers method params id = Ok u
  <-> method_headers_ok headers method (request_name method params).
Proof.
  unfold validate_method_headers, method_headers_ok. rewrite bind_ok.
  setoid_rewrite required_header_ok. setoid_rewrite guard_then.
  setoid_rewrite bool_decide_eq_false.
  assert (Hname : match request_name method params with
    | Some expected =>
        encoded ← required_header headers "mcp-name" id;
        decoded ← ok_or (decode_header_value encoded) (header_mismatch id);
        fail_if (bool_decide (decoded <> expected)) (header_mismatch id)
    | None => fail_if (negb (bool_decide (get_all headers "mcp-name" = []))) (header_mismatch id)
    end = Ok u <-> match request_name method params with
    | Some name => exists encoded, the_header headers "mcp-name" encoded /\ stands_for encoded name
    | None => get_all headers "mcp-name" = []
    end).
  { destruct (request_name method params) as [expected|].
    - rewrite bind_ok. setoid_rewrite required_header_ok. setoid_rewrite bind_ok.
      setoid_rewrite ok_or_ok. setoid_rewrite fail_if_ok. setoid_rewrite bool_decide_eq_false.
      setoid_rewrite decode_header_value_some. split.
      + intros (encoded & He & decoded & Hd & Hn%dec_stable). subst. eauto.
      + intros (encoded & He & Hs). exists encoded. split; [done|]. exists expected. auto.
    - rewrite fail_if_ok, negb_false_iff, bool_decide_eq_true. done. }
  split.
  - intros (m & Hm & Hn%dec_stable & Hrest%Hname). by subst.
  - intros [Hm Hrest%Hname]. exists method. auto.
Qed.

Lemma parse_modern_request_ok headers body r :
  parse_modern_request headers body = Ok r <-> request_ok headers body r.
Proof.
  unfold parse_modern_request. split.
  - intros Hp. unbind.
    repeat match goal with
    | Hx : as_object _ = Some _ |- _ => apply as_object_some in Hx; subst
    | Hx : str_field _ _ = Some _ |- _ => apply str_field_some in Hx
    | Hx : ~ (_ <> _) |- _ => apply dec_stable in Hx; subst
    | Hx : validate_request_meta _ _ _ = Ok _ |- _ => apply validate_request_meta_ok in Hx
    | Hx : validate_method_headers _ _ _ _ = Ok _ |- _ => apply validate_method_headers_ok in Hx
    end.
    constructor; simpl; try done. eexists. split_and!; try done.
    match goal with Hx : default _ ?o = _ |- ?o = _ \/ _ => destruct o; simpl in Hx; [by subst; left|] end.
    match goal with Hx : _ = Value_Object _ |- _ => injection Hx as <- end. by right.
  - intros [(object & Hb & Hj & Hid & Hm & Hp) Hi Hn Hmeta Hh].
    destruct r as [id method params name]. simpl in *. rewrite Hb. simpl. rewrite Hid. simpl.
    rewrite Hi, (proj2 (str_field_some _ _ _) Hj). simpl.
    rewrite (proj2 (str_field_some _ _ _) Hm). simpl.
    assert (as_object (default (json_object []) (bt_get "params" object)) = Some params) as ->
      by (by destruct Hp as [->|[-> ->]]).
    simpl. rewrite (proj2 (validate_request_meta_ok _ _ _ tt) Hmeta). simpl. subst name.
    by rewrite (proj2 (validate_method_headers_ok _ _ _ _ tt) Hh).
Qed.

(** ** Hosts and origins *)

Definition network_ok (authority : Authority) (headers : HeaderMap) : Prop :=
  (exists host, the_header headers "host" host
     /\ to_ascii_lowercase host ∈ Authority.allowed_hosts authority)
  /\ (get_all headers "origin" = []
      \/ exists origin, the_header headers "origin" origin
           /\ origin ∈ Authority.allowed_origins authority).

Lemma validate_network_headers_ok authority headers u :
  validate_network_headers authority headers = Ok u <-> network_ok authority headers.
Proof.
  unfold validate_network_headers, network_ok, is_allowed_host, is_allowed_origin. split.
  - intros Hv. unbind. subst.
    repeat match goal with
    | Hx : single_header _ _ = Ok (Some _) |- _ => apply single_header_some in Hx
    end.
    split; [by eexists|].
    match goal with Hx : single_header _ "origin" = Ok ?o |- _ => destruct o as [origin|] end.
    + right. exists origin. unbind. split; [by apply single_header_some|done].
    + left. by apply single_header_none.
  - intros [(host & Hh%single_header_some & Hin) Ho]. rewrite Hh. simpl.
    rewrite bool_decide_eq_true_2 by done. simpl. destruct u.
    destruct Ho as [Hn%single_header_none|(origin & Ho%single_header_some & Hoin)].
    + by rewrite Hn.
    + rewrite Ho. simpl. by rewrite bool_decide_eq_true_2.
Qed.

(** ** Responses *)

(** Caches must not keep a response, and it varies with the credentials. *)
Definition private (r : Response) : Prop :=
  ("cache-control", "no-store") ∈ Response.headers r
  /\ ("vary", "Authorization") ∈ Response.headers r.

(** A result fits, and errors carry no result. *)
Definition fits (max : N) (r : Response) : Prop :=
  forall v, Response.body r = Response.Json v ->
  forall fields, v = Value_Object fields -> is_Some (bt_get "result" fields) ->
  (serialized_size v <= max)%N.
End requests.

(** * A request over HTTP

    A query of the writer of the sample gateway, with the headers, the body and
    the answers it gets. *)

Definition sample_params : list (string * Value) :=
  bt_from_list
    [("name", Value_String "query_semantic_model");
     ("arguments", json_object [("schema_version", Value_String "1"); ("lsq", json_object [])]);
     ("_meta", json_object
        [("io.modelcontextprotocol/protocolVersion", Value_String MODERN_PROTOCOL_VERSION);
         ("io.modelcontextprotocol/clientInfo", json_object
            [("name", Value_String "client"); ("version", Value_String "1")]);
         ("io.modelcontextprotocol/clientCapabilities", json_object [])])].

Definition sample_message : Value :=
  json_object
    [("jsonrpc", Value_String "2.0"); ("id", Value_Integer 7);
     ("method", Value_String "tools/call"); ("params", Value_Object sample_params)].

Definition sample_request : ModernRequest :=
  ModernRequest.mk (Value_Integer 7) "tools/call" sample_params (Some "query_semantic_model").

#[global] Instance sample_json_text : JsonText := {|
  value_from_slice body := if decide (body = "request") then Some sample_message else None;
  value_to_vec _ := Some "serialised";
|}.

#[global] Instance sample_http_crates : HttpCrates := {|
  http_json_text := sample_json_text;
  header_to_str := Some;
  header_from_str := Some;
|}.

Definition sample_headers : HeaderMap :=
  [("host", "GW.example"); ("accept", "application/json, text/event-stream;q=0.5");
   ("content-type", "application/json; charset=utf-8"); ("authorization", sample_authorization);
   ("mcp-protocol-version", MODERN_PROTOCOL_VERSION); ("mcp-method", "tools/call");
   ("mcp-name", "query_semantic_model")].

Definition sample_query_base : ExecutorConfig :=
  ExecutorConfig.mk "postgresql://source" "DATABASE_URL" None "postgresql://audit" "AUDIT_URL"
    None "analyst" 1048576 (from_secs 30) (from_secs 5) (from_secs 60).

Definition sample_state : HttpState :=
  HttpState.mk _ sample_authority "shop" sample_query_base None sample_limits
    "https://gw.example/.well-known/oauth-protected-resource/mcp".

Definition sample_answer (op : HttpOp) : HttpRes op :=
  match op with
  | TryAcquire _ _ => true
  | LimiterAcquire _ _ => Ok tt
  | Clock => Some 1500%N
  | ReadBody _ _ => BodyBytes "request"
  | AwaitTask _ => TaskTimedOut
  | Dispatch _ => Panicked
  | Drop _ | Spawn _ | SendResult _ | Finish => tt
  end.

Definition sample_run : list (event HttpRes) * Response :=
  execute_with (fun (s : unit) op => (sample_answer op, s)) tt
    (handle_mcp sample_state sample_headers).

Lemma sample_run_runs : runs (handle_mcp sample_state sample_headers) sample_run.1 sample_run.2.
Proof. apply execute_with_runs. Qed.

(** The job that is spawned, after seven calls. *)
Definition sample_job : Job :=
  match nth_error sample_run.1 7 with
  | Some (Ev (Spawn job) _) => job
  | _ => Job.mk (configured EmptyString sample_query_base None
                   (ExecutionContext.mk EmptyString EmptyString EmptyString))
           EmptyString [] [] false
  end.

Lemma sample_trace : sample_run.1 = take 7 sample_run.1 ++ Ev (Spawn sample_job) tt :: [].
Proof. vm_compute. reflexivity. Qed.
