(* ===== verification/HttpTheorems.v ===== *)
(** * Correctness of the HTTP server

    Only authenticated requests reach a worker, requests that run side by side
    stay within the configured bounds, every response is private and bounded, a
    cancellation is never lost.

    The last part is about the preparation of a server. *)

From stdpp Require Import relations gmap.
From S2P Require Import ExecutorFixtures RateLimit Database PublishedModel Executor.
From S2P Require Import MutationExecutor Prelude Ordered Text StrOps Json Lsq Semantic Compiler.
From S2P Require Import Lsm Mutation Effects Authority Authentication AuthSpec Mcp Http.
From S2P Require Import HttpServer HttpPool Cancellation AuthTheorems HttpSpec.

(** ** Authenticated dispatch *)

Section dispatch.
Context `{HttpCrates} `{AuthCrates} (state : HttpState) (headers : HeaderMap).

Abbreviation authority := (HttpState.authority state).
Abbreviation document := (Authority.document authority).

(** The credentials of a request: its header, or none. *)
Definition credentials (authorization : string) : Prop :=
  the_header headers "authorization" authorization
  \/ (get_all headers "authorization" = [] /\ authorization = EmptyString).

(** The configuration a principal is served with: its own roles over the
    configured connections, and a mutation executor only where it may mutate. *)
Record serves (principal : AuthenticatedPrincipal) (server : McpConfig) : Prop := {
  sv_project : McpConfig.project server = HttpState.project state;
  sv_query : Executor.with_database_role (HttpState.query_base state)
      (AuthenticatedPrincipal.query_role principal) = Ok (McpConfig.executor server);
  sv_mutation : forall config, McpConfig.mutation_executor server = Some config ->
    AuthorityDocument.remote_mutation_enabled document = true
    /\ AuthorityDocument.mutation_scope document ∈ AuthenticatedPrincipal.granted_scopes principal
    /\ exists base role, HttpState.mutation_base state = Some base
         /\ AuthenticatedPrincipal.mutation_role principal = Some role
         /\ MutationExecutor.with_database_role base role = Ok config;
  sv_context : McpConfig.execution_context server
    = ExecutionContext.mk (AuthenticatedPrincipal.audit_pseudonym principal) "mcp-http"
        (AuthenticatedPrincipal.authority_id principal);
}.

(** What has happened before a job is spawned. *)
Definition authenticated_before (before : list (event HttpRes)) (job : Job) : Prop :=
  exists seconds authorization principal body request,
    network_ok authority headers
    /\ Ev Clock (Some seconds) ∈ before
    /\ credentials authorization
    /\ authenticate_at authority authorization (Z.of_N seconds) = Ok principal
    /\ (Z.of_N seconds <= I64_MAX)%Z
    /\ AuthorityDocument.query_scope document ∈ AuthenticatedPrincipal.granted_scopes principal
    /\ Ev (LimiterAcquire (AuthenticatedPrincipal.authority_id principal)
             (AuthenticatedPrincipal.rate_limit principal)) (Ok tt) ∈ before
    /\ Ev (TryAcquire Authenticated 1) true ∈ before
    /\ Ev (ReadBody (ServerLimits.max_request_body_bytes (HttpState.limits state))
             REQUEST_BODY_TIMEOUT) (BodyBytes body) ∈ before
    /\ request_ok headers body request
    /\ known_method (ModernRequest.method request) = true
    /\ Job.method job = ModernRequest.method request
    /\ Job.params job = ModernRequest.params request
    /\ serves principal (Job.server job).

Definition may_spawn (before : list (event HttpRes)) (op : HttpOp) : Prop :=
  match op with Spawn job => authenticated_before before job | _ => True end.

Definition record (before : list (event HttpRes)) (op : HttpOp) (r : HttpRes op)
    : list (event HttpRes) := before ++ [Ev op r].

Definition supervised {A} (p : http A) (before : list (event HttpRes)) : Prop :=
  monitored may_spawn record p before (fun _ _ => True).

Lemma supervised_bind {A B} (p : http A) (f : A -> http B) before :
  supervised p before -> (forall m a, supervised (f a) m) -> supervised (p ≫= f) before.
Proof. intros Hp Hf. eapply monitored_seq; [exact Hp|]. intros m a _. apply Hf. Qed.

Lemma leave_supervised {A} l response before (Q : _ -> result Response A -> Prop) :
  (forall m, Q m (Err response)) -> monitored may_spawn record (leave l response) before Q.
Proof.
  intros HQ. revert before. induction l as [|p l IH]; intros before; [apply HQ|].
  split; [done|]. intros []. apply IH.
Qed.

Lemma leave_drops_supervised {A} l response before m :
  before ⊆ m ->
  monitored may_spawn record (leave (A := A) l response) m (fun m' _ => before ⊆ m').
Proof.
  revert m. induction l as [|p l IH]; intros m Hm; [done|].
  split; [done|]. intros []. apply IH. unfold record. set_solver.
Qed.

Lemma supervised_or_leave {A B} l (m : result Response A) (k : A -> http (result Response B)) before
  :
  (forall a, m = Ok a -> supervised (k a) before) -> supervised (try_bind (or_leave l m) k) before.
Proof.
  intros Hk. destruct m as [a|response]; [by apply Hk|].
  apply (monitored_try _ _ _ _ _ (fun _ r => r = Err response)); [by apply leave_supervised|done..].
Qed.

Lemma server_serves principal server :
  server_for_principal state principal = Ok server -> serves principal server.
Proof.
  unfold server_for_principal, new_with_authority, AuthenticatedPrincipal.has_scope.
  intros Hs. unbind. constructor; simpl; try done. intros config Hc.
  match goal with Hx : (if ?b then _ else _) = Ok _ |- _ => destruct b eqn:Hb; unbind; [|done] end.
  apply andb_true_iff in Hb as [? ?%bool_decide_eq_true]. split_and!; [done..|].
  destruct (HttpState.mutation_base state) as [base|]; [|by unbind].
  destruct (AuthenticatedPrincipal.mutation_role principal) as [role|]; [|by unbind].
  unbind. exists base, role. simplify_eq. done.
Qed.

Lemma authenticated_principal_ok now principal :
  authenticated_principal state headers now = Ok principal ->
  exists seconds authorization, now = Some seconds /\ (Z.of_N seconds <= I64_MAX)%Z
    /\ credentials authorization
    /\ authenticate_at authority authorization (Z.of_N seconds) = Ok principal
    /\ AuthorityDocument.query_scope document ∈ AuthenticatedPrincipal.granted_scopes principal.
Proof.
  unfold authenticated_principal, authenticate, i64_of_u64, AuthenticatedPrincipal.has_scope.
  intros Ha. unbind. eexists _, _. split_and!; [done|lia| |done|done].
  unfold credentials. destruct (single_header headers "authorization") as [[a|]|e] eqn:Hh; unbind.
  - left. by apply single_header_some.
  - right. split; [|done]. by apply single_header_none.
Qed.

Lemma supervised_execute before seconds authorization principal body :
  network_ok authority headers -> Ev Clock (Some seconds) ∈ before -> credentials authorization ->
  authenticate_at authority authorization (Z.of_N seconds) = Ok principal ->
  (Z.of_N seconds <= I64_MAX)%Z ->
  AuthorityDocument.query_scope document ∈ AuthenticatedPrincipal.granted_scopes principal ->
  Ev (LimiterAcquire (AuthenticatedPrincipal.authority_id principal)
        (AuthenticatedPrincipal.rate_limit principal)) (Ok tt) ∈ before ->
  Ev (TryAcquire Authenticated 1) true ∈ before ->
  Ev (ReadBody (ServerLimits.max_request_body_bytes (HttpState.limits state))
        REQUEST_BODY_TIMEOUT) (BodyBytes body) ∈ before ->
  supervised (execute_request state principal headers body) before.
Proof.
  intros Hnet Hclock Hcred Hauth Hsec Hscope Hlim Hsem Hbody. unfold execute_request. cbv zeta.
  apply supervised_or_leave. intros request Hreq%parse_modern_request_ok.
  apply supervised_or_leave. intros _ Hknown%fail_if_ok%negb_false_iff.
  apply (monitored_seq _ _ _ _ _ (fun m _ => before ⊆ m)).
  { destruct (method_uses_database _); [|simpl; reflexivity]. apply monitored_bind. split; [done|].
    intros [|]; [|apply leave_drops_supervised]; apply list_subseteq_app_l; reflexivity. }
  intros m [database|e] Hm; [|done]. apply supervised_or_leave.
    intros server Hs%map_err_ok%server_serves.
  apply supervised_bind; [|done].
  assert (Hspawn : forall permits streaming (k : unit -> http Response),
    (forall u m, supervised (k u) m) ->
    supervised (call (Spawn (Job.mk server (ModernRequest.method request)
      (ModernRequest.params request) permits streaming)) ≫= k) m).
  { intros permits streaming k Hk. split; [|intros u; apply Hk].
    exists seconds, authorization, principal, body, request. split_and!; auto. }
  destruct (is_streaming_execution request); apply Hspawn; by intros [].
Qed.

Lemma supervised_call {B} op (k : HttpRes op -> http B) before :
  may_spawn before op -> (forall r, supervised (k r) (record before op r)) ->
  supervised (call op ≫= k) before.
Proof. intros Ha Hk. split; [done|]. apply Hk. Qed.

Lemma supervised_handle_mcp : supervised (handle_mcp state headers) [].
Proof.
  unfold handle_mcp. apply supervised_call; [done|]. intros [|]; [|done]. simpl.
  apply supervised_bind; [|done].
  apply supervised_or_leave. intros [] Hh.
  assert (network_ok authority headers) as Hnet.
  { unfold validate_headers in Hh. unbind. by eapply validate_network_headers_ok. }
  apply supervised_call; [done|]. intros now.
  apply supervised_or_leave.
  intros principal (seconds & authorization & -> & Hsec & Hcred & Hauth &
    Hscope)%authenticated_principal_ok.
  apply supervised_call; [done|]. intros [[]|e]; [|by apply supervised_or_leave].
  apply supervised_call; [done|]. intros [|]; [|by apply supervised_or_leave].
  apply monitored_bind. cbn [negb fail_if or_leave]. unfold read_body. cbv zeta.
  destruct (bool_decide _); [by apply supervised_or_leave|].
  apply monitored_bind, supervised_call; [done|]. intros outcome.
  apply supervised_or_leave. intros body Hbody.
  destruct outcome as [body'| |]; try done. injection Hbody as ->.
  apply supervised_call; [done|]. intros [].
  eapply supervised_execute; try done; unfold record; set_solver.
Qed.
Lemma spawned_authenticated before job u after response :
  runs (handle_mcp state headers) (before ++ Ev (Spawn job) u :: after) response ->
  authenticated_before before job.
Proof.
  intros Hr.
  destruct (monitored_runs _ _ _ _ _ _ _ supervised_handle_mcp Hr) as [Hacc _].
  apply accepts_at in Hacc. simpl in Hacc.
  assert (Hw : watch record [] before = before).
  { clear. induction before as [|e l IH] using rev_ind; [done|].
    rewrite watch_app, IH. unfold watch, record. simpl. by destruct e. }
  by rewrite Hw in Hacc.
Qed.
End dispatch.

(** C15: a request reaches a worker only if its host and origin are allowed, its
    credentials were accepted at the time read from the clock, with the scope for
    queries, the limiter and the semaphore of authenticated requests admitted it,
    and its body is a request of the supported protocol that its headers repeat.
    The worker runs as the roles of that principal over the configured
    connections, under its pseudonym and authority id, and with a mutation
    executor only if remote mutation is enabled and its scope was granted. *)
Theorem dispatched_requests_are_authenticated `{HC : HttpCrates} `{HA : AuthCrates}
    base authority_file file_at (state : HttpState) headers before job u after response :
  load base authority_file file_at = Ok (HttpState.authority state) ->
  runs (handle_mcp state headers) (before ++ Ev (Spawn job) u :: after) response ->
  exists seconds authorization principal body request,
    network_ok (HttpState.authority state) headers
    /\ Ev Clock (Some seconds) ∈ before
    /\ credentials headers authorization
    /\ admitted (HttpState.authority state) authorization (Z.of_N seconds) principal
    /\ AuthorityDocument.query_scope (Authority.document (HttpState.authority state))
       ∈ AuthenticatedPrincipal.granted_scopes principal
    /\ Ev (LimiterAcquire (AuthenticatedPrincipal.authority_id principal)
             (AuthenticatedPrincipal.rate_limit principal)) (Ok tt) ∈ before
    /\ Ev (TryAcquire Authenticated 1) true ∈ before
    /\ Ev (ReadBody (ServerLimits.max_request_body_bytes (HttpState.limits state))
             REQUEST_BODY_TIMEOUT) (BodyBytes body) ∈ before
    /\ request_ok headers body request
    /\ known_method (ModernRequest.method request) = true
    /\ Job.method job = ModernRequest.method request
    /\ Job.params job = ModernRequest.params request
    /\ serves state principal (Job.server job).
Proof.
  intros Hl%load_consistent Hr%spawned_authenticated.
  destruct Hr as (seconds & authorization & principal & body & request & ? & ? & ? & Ha & ? & ?).
  exists seconds, authorization, principal, body, request. split_and!; try naive_solver.
  apply (authenticate_at_ok _ authorization _ _ Hl); [|done]. lia.
Qed.

Lemma dispatched_requests_are_authenticated_witness :
  exists principal, serves sample_state principal (Job.server sample_job).
Proof.
  pose proof sample_run_runs as Hr. rewrite sample_trace in Hr.
  destruct (dispatched_requests_are_authenticated "conf" (regular "authority") sample_file_at
    sample_state sample_headers _ _ _ _ _ sample_loaded Hr)
    as (_ & _ & principal & _ & _ & _ & _ & _ & _ & _ & _ & _ & _ & _ & _ & _ & _ & Hs).
  by exists principal.
Defined.

(** A body is accepted exactly when it is a JSON-RPC request with an id, of the
    supported protocol version, with the metadata of its client, and when its
    headers, each given once, repeat its version, its method and the name it is
    about, as it is or in base64. *)
Theorem parse_modern_request_accepts_exactly `{HC : HttpCrates} `{HA : AuthCrates} headers body r :
  parse_modern_request headers body = Ok r <-> request_ok headers body r.
Proof. apply parse_modern_request_ok. Qed.

(** ** Requests side by side *)

(** C17: whatever requests arrive and however handlers, workers and the outside
    interleave, at most the configured number of bodies are read at a time, at
    most the configured number of requests execute, in total and for every
    principal, and those that use the database never need more connections than
    there are; once nothing runs, all permits are back. *)
Theorem executions_are_bounded `{HC : HttpCrates} `{HA : AuthCrates}
    base authority_file file_at (state : HttpState) sh ts :
  load base authority_file file_at = Ok (HttpState.authority state) ->
  pool_reachable state (HttpState.limits state) (sh, ts) ->
  let limits := HttpState.limits state in
  count is_reading ts <= N.to_nat (ServerLimits.max_pre_auth_concurrent_requests limits)
  /\ count is_dispatching ts <= N.to_nat (ServerLimits.max_concurrent_requests limits)
  /\ 2 * count is_dispatching_database ts
     <= N.to_nat (ServerLimits.max_database_connections limits)
  /\ (forall p, p ∈ AuthorityDocument.principals (Authority.document (HttpState.authority state)) ->
       count (is_dispatching_for (PrincipalConfig.authority_id p)) ts
       <= N.to_nat (RateLimitConfig.max_concurrent (PrincipalConfig.rate_limit p)))
  /\ (ts = [] -> (forall s, available sh s = capacity limits s)
                 /\ forall id, active_of (limiter sh) id = 0%Z).
Proof.
  intros Hl%load_consistent (owned & Hts & [Hs Hc Hb])%pool_reachable_inv; [|done].
  cbv zeta. split_and!.
  - pose proof (count_owned _ is_reading _ 1 _ _ (held_app PreAuth)
      (fun o t Ho Ht => reading_owns _ t o Ho Ht) Hts) as Hn. specialize (Hs PreAuth).
    unfold capacity in Hs. lia.
  - assert (1 * count is_dispatching ts <= held Authenticated (concat owned)) as Hn.
    { eapply count_owned; [apply held_app| |exact Hts]. intros o t Ho Ht.
      apply bool_decide_eq_true in Ht as [job Hj]. destruct (dispatching_owns _ t o job Ho Hj) as (?
        & ? & _). lia. }
    specialize (Hs Authenticated). unfold capacity in Hs. lia.
  - assert (2 * count is_dispatching_database ts <= held DatabaseConnections (concat owned)) as Hn.
    { eapply count_owned; [apply held_app| |exact Hts]. intros o t Ho Ht.
      unfold is_dispatching_database in Ht. destruct (dispatches t) as [job|] eqn:Hj; [|done].
      destruct (dispatching_owns _ t o job Ho Hj) as (_ & _ & Hd). by apply Hd. }
    specialize (Hs DatabaseConnections). unfold capacity in Hs. lia.
  - intros p Hp. set (id := PrincipalConfig.authority_id p).
    assert (1 * count (is_dispatching_for id) ts <= running_for id (concat owned)) as Hn.
    { eapply count_owned; [apply running_for_app| |exact Hts]. intros o t Ho Ht.
      unfold is_dispatching_for in Ht. destruct (dispatches t) as [job|] eqn:Hj; [|done].
      apply bool_decide_eq_true in Ht as <-. destruct (dispatching_owns _ t o job Ho Hj) as (? & ? &
        _). lia. }
    assert (limit_of (AuthorityDocument.principals (Authority.document (HttpState.authority state)))
      id (PrincipalConfig.rate_limit p)) as Hlim by (by exists p).
    specialize (Hb _ _ Hlim). unfold outstanding in Hb. unfold running_for in Hn. lia.
  - intros ->. apply Forall2_nil_inv_r in Hts as ->. split.
    + intros s. rewrite <- Hs. unfold held. simpl. lia.
    + intros id. destruct (Hc id) as [Ha _]. simpl in Ha. by rewrite Ha.
Qed.

Lemma executions_are_bounded_witness :
  exists sh t, pool_reachable sample_state sample_limits (sh, [t])
    /\ count is_dispatching [t] <= 64 /\ available sh PreAuth = 15.
Proof.
  eexists _, _. assert (Hr : pool_reachable sample_state sample_limits _) by
    (eapply rtc_l; [exact (pool_accept _ _ [] false sample_headers)|];
     eapply rtc_l; [|apply rtc_refl];
     exact (pool_call _ (idle sample_limits) [] (TryAcquire PreAuth 1) _ [] true
              (set_available PreAuth 15 (idle sample_limits)) []
              (conj eq_refl (conj eq_refl eq_refl)))).
  split; [exact Hr|]. split; [|reflexivity].
  exact (proj1 (proj2 (executions_are_bounded "conf" (regular "authority") sample_file_at
    sample_state _ _ sample_loaded Hr))).
Defined.

(** ** Responses *)

Section responses.
Context `{HttpCrates} `{AuthCrates} (state : HttpState).

(** What holds of the value of a program, whatever its calls are answered. *)
Definition returns {A} (p : http A) (Q : A -> Prop) : Prop :=
  monitored (fun _ _ => True) (fun m _ _ => m) p tt (fun _ a => Q a).

Lemma returns_runs {A} (p : http A) Q tr a : returns p Q -> runs p tr a -> Q a.
Proof. intros Hp Hr. by destruct (monitored_runs _ _ _ _ _ _ _ Hp Hr). Qed.

Lemma returns_bind {A B} (p : http A) (f : A -> http B) R Q :
  returns p R -> (forall a, R a -> returns (f a) Q) -> returns (p ≫= f) Q.
Proof. intros Hp Hf. eapply monitored_seq; [exact Hp|]. intros []. apply Hf. Qed.

Lemma returns_any {A} (p : http A) : returns p (fun _ => True).
Proof. induction p as [|op k IH]; [done|]. split; [done|]. apply IH. Qed.

(** A stream is given the bound on results. *)
Definition bounded (r : Response) : Prop :=
  private r /\ fits (ServerLimits.max_result_bytes (HttpState.limits state)) r
  /\ forall stream, Response.body r = Response.Events stream ->
       Response.maximum_result stream = ServerLimits.max_result_bytes (HttpState.limits state).

Definition bounded_result (r : result Response Response) : Prop :=
  match r with Ok response | Err response => bounded response end.

Lemma bounded_json status fields :
  bt_get "result" (bt_from_list fields) = None -> bounded (json_response status (json_object
    fields)).
Proof.
  intros Hn. split_and!; [split; simpl; set_solver| |done].
  intros v [= <-] fields' [= <-]. rewrite Hn. by intros [? [=]].
Qed.

Lemma bounded_error status id code message public_code :
  bounded (json_error_response status id code message public_code).
Proof. by apply bounded_json. Qed.

Lemma bounded_empty status : bounded (empty_response status).
Proof. split_and!; [split; simpl; set_solver|by intros v [=]|by intros ? [=]]. Qed.

Lemma bounded_challenge status value : bounded (challenge (empty_response status) value).
Proof.
  unfold challenge. destruct (header_from_str value); [|apply bounded_empty].
  split_and!; [split; simpl; set_solver|by intros v [=]|by intros ? [=]].
Qed.

#[local] Hint Resolve bounded_json bounded_error bounded_empty bounded_challenge : core.

Lemma bounded_complete id value : bounded (complete_json_response state id value).
Proof.
  unfold complete_json_response. cbv zeta. case_bool_decide as Hsize; [done|].
  split_and!; [split; simpl; set_solver| |done]. intros v [= <-] fields _ _. lia.
Qed.

Lemma bounded_authentication error : bounded (authentication_response state error).
Proof. unfold authentication_response, insufficient_scope_response. repeat case_decide; auto. Qed.

Lemma bounded_limit error : bounded (limit_response error).
Proof. destruct error; apply bounded_error. Qed.

#[local] Hint Resolve bounded_complete bounded_authentication bounded_limit : core.

Lemma bounded_mismatch id : bounded (header_mismatch id).
Proof. apply bounded_error. Qed.

Lemma bounded_protocol status id requested :
  bounded (unsupported_protocol_response status id requested).
Proof. by apply bounded_json. Qed.

#[local] Hint Resolve bounded_mismatch bounded_protocol : core.

(** Finds the response an early return gives. *)
Ltac early_return :=
  cbn [bounded_result];
  repeat match goal with
  | Hx : mbind _ _ = Err _ |- _ => apply bind_err in Hx as [Hx|(? & _ & Hx)]
  | Hx : fail_if _ _ = Err _ |- _ => apply fail_if_err in Hx as [_ <-]
  | Hx : ok_or _ _ = Err _ |- _ => apply ok_or_err in Hx as [_ <-]
  | Hx : map_err _ ?m = Err _ |- _ => destruct m; [done|]; injection Hx as <-
  | Hx : Err _ = Err _ |- _ => injection Hx as <-
  | Hx : Ok _ = Err _ |- _ => discriminate Hx
  | Hx : match ?m with _ => _ end = Err _ |- _ => destruct m
  end; auto.

Lemma validate_headers_bounded headers e : validate_headers state headers = Err e -> bounded e.
Proof. unfold validate_headers, validate_network_headers. intros He. early_return. Qed.

Lemma authenticated_principal_bounded headers now e :
  authenticated_principal state headers now = Err e -> bounded e.
Proof. unfold authenticated_principal, insufficient_scope_response. intros He. early_return. Qed.

Lemma parse_modern_request_bounded headers body e :
  parse_modern_request headers body = Err e -> bounded e.
Proof.
  unfold parse_modern_request, validate_request_meta, validate_method_headers, required_header.
  intros He. early_return.
Qed.

Lemma returns_or_leave {A B} l (m : result Response A) (k : A -> http (result Response B)) Q :
  (forall e, m = Err e -> Q (Err e)) -> (forall a, m = Ok a -> returns (k a) Q) ->
  returns (try_bind (or_leave l m) k) Q.
Proof.
  intros He Hk. destruct m as [a|e]; [by apply Hk|].
  apply (returns_bind _ _ (fun r => r = Err e)); [|intros r ->; by apply He].
  apply (returns_bind _ _ (fun _ => True)); [apply returns_any|done].
Qed.

Lemma returns_leave {A} l response (Q : result Response A -> Prop) :
  Q (Err response) -> returns (leave l response) Q.
Proof. intros HQ. apply (returns_bind _ _ (fun _ => True)); [apply returns_any|done]. Qed.

Lemma returns_execute principal headers body :
  returns (execute_request state principal headers body) bounded_result.
Proof.
  unfold execute_request. cbv zeta.
  apply returns_or_leave; [apply parse_modern_request_bounded|]. intros request _.
  apply returns_or_leave; [intros e [_ <-]%fail_if_err; apply bounded_error|]. intros _ _.
  apply (returns_bind _ _ (fun r => forall e, r = Err e -> bounded e)).
  { destruct (method_uses_database _); [|done]. split; [done|].
    intros [|]; [done|]. apply returns_leave. intros e [= <-]. apply bounded_limit. }
  intros [database|e] He; [|by apply He].
  apply returns_or_leave.
  { intros e Hs. destruct (server_for_principal state principal); [done|]. injection Hs as <-.
    apply bounded_error. }
  intros server _. apply (returns_bind _ _ bounded); [|by intros].
  destruct (is_streaming_execution request); (split; [done|]); intros [].
  - split_and!; [split; simpl; set_solver|by intros v [=]|by intros ? [= <-]].
  - split; [done|]. intros [[[value|error]|]|]; simpl; auto; apply bounded_error.
Qed.

Lemma returns_handler metadata headers : returns (handler state metadata headers) bounded.
Proof.
  assert (Hrespond : forall p, returns p bounded_result -> returns (respond p) bounded).
  { intros p Hp. eapply returns_bind; [exact Hp|]. by intros [r|r]. }
  destruct metadata; (split; [done|]); (intros [|]; [|apply bounded_empty]); simpl; apply Hrespond.
  - apply returns_or_leave; [intros e|].
    + unfold validate_network_headers. intros He. early_return.
    + intros _ _. apply returns_leave. by apply bounded_json.
  - apply returns_or_leave; [apply validate_headers_bounded|]. intros _ _. split; [done|].
      intros now.
    apply returns_or_leave; [apply authenticated_principal_bounded|]. intros principal _.
    split; [done|]. intros admitted.
    apply returns_or_leave; [intros e He; early_return|]. intros _ _.
    split; [done|]. intros authenticated.
    apply returns_or_leave; [intros e He; early_return|]. intros _ _.
    apply (returns_bind _ _ (fun r => forall e, r = Err e -> bounded e)).
    { unfold read_body. cbv zeta. destruct (bool_decide _); [intros e [= <-]; apply bounded_error|].
      split; [done|]. intros [| |] e [=]; subst; apply bounded_error. }
    intros read Hread. apply returns_or_leave; [done|]. intros body _.
    split; [done|]. intros []. apply returns_execute.
Qed.
End responses.

(** C36: every response of both endpoints, an error or not, forbids caching and
    varies with the credentials, and a result is never larger than the configured
    size, in a response or in the event that ends a stream. *)
Theorem responses_are_private_and_bounded `{HC : HttpCrates} `{HA : AuthCrates}
    (state : HttpState) metadata headers tr response :
  runs (handler state metadata headers) tr response ->
  private response
  /\ fits (ServerLimits.max_result_bytes (HttpState.limits state)) response
  /\ forall stream e value fields,
       Response.body response = Response.Events stream ->
       (stream_end stream e).1 = Some value -> value = Value_Object fields ->
       is_Some (bt_get "result" fields) ->
       (serialized_size value <= ServerLimits.max_result_bytes (HttpState.limits state))%N.
Proof.
  intros Hr. pose proof (returns_runs _ _ _ _ (returns_handler state metadata headers) Hr)
    as (Hp & Hf & Hmax).
  split_and!; [done|done|]. intros stream e value fields Hbody He -> Hres.
  apply Hmax in Hbody.
  destruct e as [r| |]; simpl in He; [|injection He as <-; by destruct Hres|done].
  injection He as He. unfold streaming_result_value in He. destruct r as [[v|error]|[]].
  - cbv zeta in He. case_bool_decide as Hs; [rewrite <- He; lia|].
    injection He as <-. by destruct Hres.
  - injection He as <-. by destruct Hres.
  - injection He as <-. by destruct Hres.
Qed.

Lemma responses_are_private_and_bounded_witness : private sample_run.2.
Proof.
  exact (proj1 (responses_are_private_and_bounded sample_state false sample_headers _ _
    sample_run_runs)).
Defined.

(** ** Cancellation *)

(** C18: however the steps of a worker, its stream and its client interleave, a
    cancellation is never lost.  When the client leaves or the deadline passes,
    the canceller gets the connection the worker is using, or, where it is not
    using one, every later attempt to register one is refused; a stream that
    delivered its result starts no canceller.  The canceller repeats its request:
    it asks at once, then after every pause, of 10 milliseconds at first, doubled
    every time up to 250, besides the time that asking takes, and it goes on
    asking at the beginning of every turn until a turn begins at which the worker
    has finished or the time is up, which comes and ends it. *)
Theorem cancellation_is_never_lost `{HC : HttpCrates} (CancelHandle : Type) (s : Response.Stream)
    (r : Run CancelHandle) (finished : N -> bool) (extra : nat -> N) (maximum_duration : N) :
  rtc (run_step CancelHandle s) (new_run CancelHandle) r ->
  match stream _ r with
  | Open _ => True
  | Closed _ e target =>
      if is_received e then target = None
      else (forall h, worker_state _ r = Using _ h -> target = Some h)
           /\ forall h, (register _ (control _ r) h).2 = false
  end
  /\ worker_finished _ (control _ r) = is_done _ (worker_state _ r)
  /\ exists turns, canceller finished extra maximum_duration
         = (map (wakes extra) (seq 0 turns), Some (wakes extra turns))
       /\ (finished (wakes extra turns) = true
           \/ (maximum_duration * 1000 <= wakes extra turns)%N)
       /\ forall k, k < turns ->
            finished (wakes extra k) = false /\ (wakes extra k < maximum_duration * 1000)%N.
Proof.
  intros [Hu Hf Hop Hr Hc]%run_reachable_inv. split; [|split; [done|]].
  - destruct (stream _ r) as [|e target] eqn:Hs; [done|]. destruct (is_received e) eqn:He.
    + by destruct (Hr e target eq_refl He).
    + destruct (Hc e target eq_refl He) as [Hd Ht]. split; [done|]. intros h.
      unfold register. by rewrite Hd.
  - unfold canceller. rewrite Nat.add_succ_r.
    destruct (cancel_loop_repeats finished extra (maximum_duration * 1000)
      (N.to_nat (maximum_duration * 1000 / 10) + 1) 0) as (n & Heq & Ht & Hall).
    + pose proof (N.div_mod (maximum_duration * 1000) 10 ltac:(lia)).
      pose proof (N.mod_lt (maximum_duration * 1000) 10 ltac:(lia)). lia.
    + exists n. split_and!; [exact Heq|done|]. intros k Hk. apply Hall. lia.
Qed.

Lemma cancellation_is_never_lost_witness :
  let s := Response.mkStream (Value_Integer 7) 100 30 15 in
  exists r : Run string, rtc (run_step string s) (new_run string) r
    /\ stream _ r = Closed _ ClientGone (Some "backend")
    /\ (register _ (control _ r) "other").2 = false.
Proof.
  intros s.
  set (used := mkRun string (mkControl string (Some "backend") false false) (Using string "backend")
                 None (Open string)).
  set (left := mkRun string (mkControl string (Some "backend") true false) (Using string "backend")
                 None (Closed string ClientGone (Some "backend"))).
  assert (Hr : rtc (run_step string s) (new_run string) left).
  { apply (rtc_l _ _ used).
    - by apply (run_register _ s (new_run string) "backend" (control _ used) true).
    - apply rtc_once. by apply (run_end _ s used ClientGone (control _ left)). }
  exists left. split; [exact Hr|]. split; [reflexivity|].
  exact (proj2 (proj1 (cancellation_is_never_lost string s left (fun _ => true) (fun _ => 0%N) 30
    Hr))
           "other").
Defined.

(** * What a prepared server guarantees

    A server that was prepared listens on the loopback interface, has checked
    every role against the database, and can serve every principal that
    authenticates. *)

Section prepared.
Context `{Driver} `{AuthCrates}.
Context (var : environment) (parse_socket_addr : string -> option SocketAddr).
Context (parent : string -> string).

Record ready (setup : Setup) (tr : list (event answer)) : Prop := {
  rd_bind : is_loopback (ip (Setup.bind setup)) = true;
  rd_authority : consistent (HttpState.authority (Setup.state setup));
  rd_limits : HttpState.limits (Setup.state setup)
    = AuthorityDocument.server_limits (Authority.document (HttpState.authority (Setup.state
      setup)));
  rd_query : forall p,
    p ∈ AuthorityDocument.principals (Authority.document (HttpState.authority (Setup.state setup)))
      ->
    exists config,
      Executor.with_database_role (HttpState.query_base (Setup.state setup))
        (PrincipalConfig.query_role p) = Ok config
      /\ occurs (Executor.preflight_role config) tr;
  rd_mutation : forall p role,
    AuthorityDocument.remote_mutation_enabled
      (Authority.document (HttpState.authority (Setup.state setup))) = true ->
    p ∈ AuthorityDocument.principals (Authority.document (HttpState.authority (Setup.state setup)))
      ->
    PrincipalConfig.mutation_role p = Some role ->
    exists base config, HttpState.mutation_base (Setup.state setup) = Some base
      /\ MutationExecutor.with_database_role base role = Ok config
      /\ occurs (MutationExecutor.preflight_role config) tr;
  rd_disabled :
    AuthorityDocument.remote_mutation_enabled
      (Authority.document (HttpState.authority (Setup.state setup))) = false ->
    HttpState.mutation_base (Setup.state setup) = None;
}.

Lemma principal_record_in authority p :
  consistent authority -> p ∈ AuthorityDocument.principals (Authority.document authority) ->
  (PrincipalConfig.subject p, principal_record p) ∈ Authority.principals authority.
Proof.
  intros Hc Hp. apply bt_get_elem, (co_principals _ Hc). eauto.
Qed.

Lemma query_role_listed authority p :
  consistent authority -> p ∈ AuthorityDocument.principals (Authority.document authority) ->
  PrincipalConfig.query_role p ∈ query_roles authority.
Proof.
  intros Hc Hp%principal_record_in; [|done]. apply elem_of_bs_from_list, list_elem_of_fmap.
  by exists (PrincipalConfig.subject p, principal_record p).
Qed.

Lemma mutation_role_listed authority p role :
  consistent authority -> p ∈ AuthorityDocument.principals (Authority.document authority) ->
  PrincipalConfig.mutation_role p = Some role -> role ∈ mutation_roles authority.
Proof.
  intros Hc Hp%principal_record_in Hr; [|done]. apply elem_of_bs_from_list, list_elem_of_omap.
  by exists (PrincipalConfig.subject p, principal_record p).
Qed.

Lemma preflight_query_occurs base role tr :
  occurs (preflight_query base role) tr ->
  exists config, Executor.with_database_role base role = Ok config
    /\ occurs (Executor.preflight_role config) tr.
Proof.
  intros (pre & part & post & -> & (config & Hc%map_err_ok & Hr%runs_attempt)%runs_try_lift).
  exists config. split; [done|]. by exists pre, part, post.
Qed.

Lemma preflight_mutation_occurs base role tr :
  occurs (preflight_mutation base role) tr ->
  exists config, MutationExecutor.with_database_role base role = Ok config
    /\ occurs (MutationExecutor.preflight_role config) tr.
Proof.
  intros (pre & part & post & -> & (config & Hc%map_err_ok & Hr%runs_attempt)%runs_try_lift).
  exists config. split; [done|]. by exists pre, part, post.
Qed.

(** The calls on the database of a preparation. *)
Definition setup_database (tr : list (event SetupRes)) : list (event answer) :=
  omap (fun e : event SetupRes =>
          match e with Ev (Prepare op) r => Some (Ev op r) | _ => None end) tr.

Lemma on_files_runs {A} (p : prog FileRes A) tr a :
  runs (on_files p) tr a -> setup_database tr = [] /\ exists tr', runs p tr' a.
Proof.
  revert tr. induction p as [b|path k IH]; intros tr; simpl.
  - intros [-> ->]. split; [done|]. by exists [].
  - intros (r & tr' & -> & [Hd (tr'' & Hr)]%IH). split; [done|]. by exists (Ev path r :: tr''), r, tr''.
Qed.

Lemma on_roles_runs {A} (p : io A) tr a :
  runs (on_roles p) tr a -> runs p (setup_database tr) a.
Proof.
  revert tr. induction p as [b|op k IH]; intros tr; simpl; [by intros [-> ->]|].
  intros (r & tr' & -> & Hr%IH). by exists r, (setup_database tr').
Qed.

Lemma prepare_server_runs tr setup :
  runs (prepare_server var parse_socket_addr parent) tr (Ok setup) ->
  exists authority, consistent authority
    /\ runs (prepare_with var parse_socket_addr authority) (setup_database tr) (Ok setup).
Proof.
  intros (path & _ & (tr1 & authority & tr2 & -> & Hl%runs_attempt%on_files_runs & Hr)%runs_try)
    %runs_try_lift.
  destruct Hl as (Hd & tr' & Hl%load_path_consistent). exists authority. split; [done|].
  unfold setup_database in *. rewrite omap_app, Hd. by apply on_roles_runs.
Qed.

Lemma prepared_ready tr setup :
  runs (prepare_server var parse_socket_addr parent) tr (Ok setup) ->
  ready setup (setup_database tr).
Proof.
  intros (authority & Hl & Hr)%prepare_server_runs. revert Hr.
  generalize (setup_database tr). clear tr. intros tr. unfold prepare_with. cbv zeta.
  intros (bind & Hbind &
    (project & _ & ([] & _ & ([query_base mutation_base] & Hbase &
     (tr1 & [] & tr2 & -> & Hq%runs_each & (tr3 & [] & tr4 & -> & Hm & Hr)%runs_try)%runs_try)
       %runs_try_lift)%runs_try_lift)%runs_try_lift)%runs_try_lift.
  apply runs_try_lift in Hr as (resource & _ & (url & _ & ([]
    & _ & Hr)%runs_try_lift)%runs_try_lift).
  destruct Hr as [-> Hr]. injection Hr as ->. rewrite app_nil_r.
  rewrite Forall_forall in Hq. constructor; simpl; try done.
  - unfold bind_address in Hbind. unbind. done.
  - intros p Hp%query_role_listed; [|done]. apply Hq, preflight_query_occurs in Hp as (config & Hc &
      Ho).
    exists config. split; [done|]. by apply (occurs_within _ [] tr1 tr3).
  - intros p role Hen Hp Hrole. unfold base_configurations in Hbase. rewrite Hen in Hbase. unbind.
    simplify_eq. apply runs_each in Hm. rewrite Forall_forall in Hm.
    apply (mutation_role_listed authority) in Hrole; [|done..].
    apply Hm, preflight_mutation_occurs in Hrole as (config & Hc & Ho).
    eexists _, config. split_and!; [done..|]. rewrite <- (app_nil_r (tr1 ++ tr3)), <- app_assoc.
    by apply occurs_within.
  - intros Hen. unfold base_configurations in Hbase. rewrite Hen in Hbase. unbind. by simplify_eq.
Qed.
End prepared.

(** ** The sample gateway *)

Definition sample_var (variable : string) : Prelude.result VarError string :=
  match List.find (fun v => bool_decide (v.1 = variable))
    [("POSTGRESEM_MCP_HTTP_AUTHORITY_FILE", "conf/authority.json");
     ("POSTGRESEM_MCP_PROJECT", "shop"); ("DATABASE_URL", "postgresql://source");
     ("POSTGRESEM_AUDIT_DATABASE_URL", "postgresql://audit");
     ("POSTGRESEM_RUNTIME_PASSWORD", "p1"); ("POSTGRESEM_AUDIT_WRITER_PASSWORD", "p2");
     ("POSTGRESEM_MCP_MUTATION_URL_ENV", "MUTATION_URL"); ("MUTATION_URL", "postgresql://writer");
     ("POSTGRESEM_MUTATION_RUNTIME_PASSWORD", "p3")] with
  | Some (_, value) => Ok value
  | None => Err NotPresent
  end.

Definition sample_parse_addr (text : string) : option SocketAddr :=
  if decide (text = "127.0.0.1:8080") then Some (mkSocketAddr (V4 127 0 0 1) 8080) else None.

Definition sample_gateway_files (path : string) : option file_entry :=
  if decide (path = "conf/authority.json") then regular "authority" else sample_file_at path.

Definition sample_prepare : prog SetupRes (setup_result Setup) :=
  prepare_server sample_var sample_parse_addr (fun _ => "conf").

Definition setup_respond (op : SetupOp) : SetupRes op :=
  match op with
  | LookUp path => sample_gateway_files path
  | Prepare op => ExecutorFixtures.respond one_sale fresh_claim op
  end.

Definition sample_prepared : list (event SetupRes) * setup_result Setup :=
  execute_with (fun (_ : unit) op => (setup_respond op, tt)) tt sample_prepare.

Definition sample_setup : Setup :=
  match sample_prepared.2 with
  | Ok setup => setup
  | Err _ => Setup.mk _ (mkSocketAddr (V4 127 0 0 1) 0) EmptyString EmptyString 0
               (HttpState.mk _ sample_authority EmptyString analyst_config None sample_limits
                  EmptyString)
  end.

Lemma sample_prepared_runs : runs sample_prepare sample_prepared.1 (Ok sample_setup).
Proof.
  assert (Ok sample_setup = sample_prepared.2) as -> by (vm_compute; reflexivity).
  apply execute_with_runs.
Qed.

(** ** Theorems *)

(** C35: a server is prepared only if its address is a loopback address, its
    authority is consistent, and for every principal each role that requests may
    run as was checked in the database, in the run that prepared it, with the
    connection that requests use: mutation roles where remote mutation is
    enabled, and otherwise there is no connection for mutations. *)
Theorem prepared_server_is_ready `{HD : Driver} `{HA : AuthCrates}
    var parse_socket_addr parent tr setup :
  runs (prepare_server var parse_socket_addr parent) tr (Ok setup) ->
  ready setup (setup_database tr).
Proof. apply prepared_ready. Qed.

Lemma prepared_server_is_ready_witness : ready sample_setup (setup_database sample_prepared.1).
Proof.
  exact (prepared_server_is_ready sample_var sample_parse_addr (fun _ => "conf") _ _
           sample_prepared_runs).
Defined.

Lemma alphanumeric_not_blank c s :
  is_ascii_alphanumeric c = true -> trim_is_empty (String c s) = false.
Proof.
  unfold is_ascii_alphanumeric, is_ascii_alphabetic, is_ascii_digit, in_range. intros Hc.
  assert (Hr : (48 <= code c <= 122)%N).
  { repeat match goal with Hx : _ || _ = true |- _ => apply orb_true_iff in Hx as [Hx|Hx] end;
      apply bool_decide_eq_true in Hc; lia. }
  simpl. unfold is_ascii_ws, is_ws2, is_ws3.
  rewrite !(bool_decide_eq_false_2 (code c = _)) by lia.
  rewrite (bool_decide_eq_false_2 (_ <= code c <= _)%N) by lia. simpl.
  by destruct s as [|? [|? ?]].
Qed.

(** A prepared server serves every principal that authenticates: its roles
    are accepted over the configured connections, so that the request is never
    denied for the configuration, and the worker can mutate exactly when remote
    mutation is enabled and the mutation scope was granted.  Base64 of a code is
    never blank. *)
Theorem authenticated_principals_are_served `{HD : Driver} `{HA : AuthCrates}
    var parse_socket_addr parent tr setup header now principal :
  (forall key message mac, hmac_sha256 key message = Some mac ->
     trim_is_empty (url_safe_no_pad mac) = false) ->
  runs (prepare_server var parse_socket_addr parent) tr (Ok setup) ->
  (0 <= now <= I64_MAX)%Z ->
  authenticate_at (HttpState.authority (Setup.state setup)) header now = Ok principal ->
  exists server, server_for_principal (Setup.state setup) principal = Ok server
    /\ (is_Some (McpConfig.mutation_executor server) <->
        AuthorityDocument.remote_mutation_enabled
          (Authority.document (HttpState.authority (Setup.state setup))) = true
        /\ AuthorityDocument.mutation_scope
             (Authority.document (HttpState.authority (Setup.state setup)))
           ∈ AuthenticatedPrincipal.granted_scopes principal).
Proof.
  intros Hmac Hr Hnow Ha. pose proof (prepared_ready _ _ _ _ _ Hr) as [_ Hc _ Hq Hm _].
  apply authenticate_at_ok in Ha as (token & claims & subject & scopes & record & mac & Ha);
    [|done..].
  destruct Ha as (_ & _ & _ & _ & _ & _ & _ & _ & _ & _ & _ & Hrec & _ & Hp%Hmac & ->).
  apply (co_principals _ Hc) in Hrec as (p & Hin & _ & ->).
  pose proof (co_principal_ok _ Hc) as Hall. rewrite Forall_forall in Hall. specialize (Hall p Hin).
  destruct (Hq p Hin) as (config & Hconf & _).
  assert (Hid : trim_is_empty (PrincipalConfig.authority_id p) = false).
  { pose proof (po_authority _ _ Hall) as Hi. unfold is_authority_id, first_then in Hi.
    destruct (PrincipalConfig.authority_id p); [by rewrite andb_false_r in Hi|].
    apply andb_true_iff in Hi as [_ [Hi _]%andb_true_iff]. by apply alphanumeric_not_blank. }
  unfold server_for_principal, principal_of, new_with_authority, AuthenticatedPrincipal.has_scope.
  simpl. rewrite Hconf. simpl. rewrite Hp, Hid. simpl.
  destruct (AuthorityDocument.remote_mutation_enabled _) eqn:Hen; simpl;
    [|eexists; split; [done|]; split; [by intros [? [=]]|by intros [[=] _]]].
  case_bool_decide as Hg; [|eexists; split; [done|]; split; [by intros [? [=]]|by intros [_ ?]]].
  rewrite decide_True by done.
  assert (is_Some (PrincipalConfig.mutation_role p)) as [role Hrole].
  { apply (po_mutation_scope _ _ Hall). apply list_elem_of_filter in Hg as [_ Hg].
    exact (proj1 (elem_of_bs_from_list _ _) Hg). }
  destruct (Hm p role eq_refl Hin Hrole) as (base & mconfig & Hb & Hmc & _).
  rewrite Hb, Hrole. simpl. rewrite Hmc. simpl. eexists. split; [done|]. simpl. split; eauto.
Qed.

Lemma sample_mac_not_blank (key message : string) mac :
  hmac_sha256 key message = Some mac -> trim_is_empty (url_safe_no_pad mac) = false.
Proof. simpl. intros [= <-]. by apply (alphanumeric_not_blank "m"%char). Qed.

Lemma authenticated_principals_are_served_witness :
  exists server, server_for_principal (Setup.state sample_setup) sample_principal = Ok server
    /\ is_Some (McpConfig.mutation_executor server).
Proof.
  destruct (authenticated_principals_are_served sample_var sample_parse_addr (fun _ => "conf") _ _
    sample_authorization 1500 sample_principal sample_mac_not_blank sample_prepared_runs
    ltac:(unfold I64_MAX; lia) ltac:(vm_compute; reflexivity)) as (server & Hs & Hm).
  exists server. split; [exact Hs|]. apply Hm. split; [vm_compute; reflexivity|].
  apply (bool_decide_eq_true_1 _). vm_compute. reflexivity.
Defined.
