(* ===== verification/McpParams.v ===== *)
(** * Parameters and failures of the MCP methods ([mcp.rs])

    The structs [serde] decodes the parameters of a method and the arguments of a
    tool into, the failures of a tool and the texts they are reported with.  A
    derived decoder takes an object, or an array with the fields in their order;
    [deny_unknown_fields] rejects an object with a key that is not a field. *)

From S2P Require Import RateLimit Database PublishedModel Executor MutationExecutor Prelude.
From S2P Require Import Ordered Text StrOps Json Lsq Semantic Compiler Lsm Mutation Effects Mcp.

Definition MCP_PROTOCOL_VERSION : string := "2024-11-05".
Definition TOOL_SCHEMA_VERSION : string := "1".

(** ** Decoders *)

Class FromValue (A : Type) := from_value : Value -> option A.

#[export] Instance from_value_string : FromValue string := as_str.
#[export] Instance from_value_value : FromValue Value := Some.
(** [serde_json::Map<String, Value>] *)
#[export] Instance from_value_map : FromValue (list (string * Value)) := as_object.
#[export] Instance from_value_usize : FromValue N := fun v =>
  match v with
  | Value_Integer z => if decide (0 ≤ z ≤ Z.of_N USIZE_MAX)%Z then Some (Z.to_N z) else None
  | _ => None
  end.
#[export] Instance from_value_option {A} `{FromValue A} : FromValue (option A) := fun v =>
  match v with Value_Null => Some None | _ => Some <$> from_value v end.

(** The fields of a struct, by name. *)
Definition struct_fields (deny_unknown : bool) (names : list string) (v : Value)
    : option (list (string * Value)) :=
  match v with
  | Value_Object object =>
      if deny_unknown && existsb (fun '(k, _) => negb (bool_decide (k ∈ names))) object
      then None else Some object
  | Value_Array values =>
      if decide (length values <= length names) then Some (zip names values) else None
  | _ => None
  end.

Definition struct_field {A} `{FromValue A} (name : string) (fields : list (string * Value)) : option A :=
  bt_get name fields ≫= from_value.

(** A field with [#[serde(default)]]. *)
Definition struct_field_or {A} `{FromValue A} (default : A) (name : string)
    (fields : list (string * Value)) : option A :=
  match bt_get name fields with Some v => from_value v | None => Some default end.

Definition empty_object : Value := json_object [].

(** ** Parameters of methods *)

Module ClientInfo.
Record ClientInfo : Type := mk { name : string; version : string }.
Definition decode (v : Value) : option ClientInfo :=
  fields ← struct_fields false ["name"; "version"] v;
  name ← struct_field "name" fields;
  version ← struct_field "version" fields;
  Some (mk name version).
End ClientInfo.
Abbreviation ClientInfo := ClientInfo.ClientInfo.
#[export] Instance from_value_client_info : FromValue ClientInfo := ClientInfo.decode.

Module InitializeParams.
Record InitializeParams : Type := mk {
  protocol_version : string;
  capabilities : list (string * Value);
  client_info : ClientInfo;
}.
Definition decode (v : Value) : option InitializeParams :=
  fields ← struct_fields false ["protocolVersion"; "capabilities"; "clientInfo"] v;
  protocol_version ← struct_field "protocolVersion" fields;
  capabilities ← struct_field "capabilities" fields;
  client_info ← struct_field "clientInfo" fields;
  Some (mk protocol_version capabilities client_info).
Definition validate (p : InitializeParams) : result RpcFailure unit :=
  fail_if (trim_is_empty (ClientInfo.name (client_info p))
           || trim_is_empty (ClientInfo.version (client_info p))) RpcFailure.invalid_params.
End InitializeParams.
Abbreviation InitializeParams := InitializeParams.InitializeParams.
#[export] Instance from_value_initialize : FromValue InitializeParams := InitializeParams.decode.

Record EmptyParams : Type := mkEmptyParams {}.
#[export] Instance from_value_empty : FromValue EmptyParams := fun v =>
  (fun _ => mkEmptyParams) <$> struct_fields false [] v.

Module PaginationParams.
Record PaginationParams : Type := mk { cursor : option string }.
Definition decode (v : Value) : option PaginationParams :=
  fields ← struct_fields false ["cursor"] v;
  cursor ← struct_field_or None "cursor" fields;
  Some (mk cursor).
End PaginationParams.
Abbreviation PaginationParams := PaginationParams.PaginationParams.
#[export] Instance from_value_pagination : FromValue PaginationParams := PaginationParams.decode.

Module ToolCallParams.
Record ToolCallParams : Type := mk { name : string; arguments : Value }.
Definition decode (v : Value) : option ToolCallParams :=
  fields ← struct_fields false ["name"; "arguments"] v;
  name ← struct_field "name" fields;
  arguments ← struct_field_or empty_object "arguments" fields;
  Some (mk name arguments).
End ToolCallParams.
Abbreviation ToolCallParams := ToolCallParams.ToolCallParams.
#[export] Instance from_value_tool_call : FromValue ToolCallParams := ToolCallParams.decode.

Module ResourceReadParams.
Record ResourceReadParams : Type := mk { uri : string }.
Definition decode (v : Value) : option ResourceReadParams :=
  fields ← struct_fields false ["uri"] v;
  uri ← struct_field "uri" fields;
  Some (mk uri).
End ResourceReadParams.
Abbreviation ResourceReadParams := ResourceReadParams.ResourceReadParams.
#[export] Instance from_value_resource_read : FromValue ResourceReadParams :=
  ResourceReadParams.decode.

Definition parse_params {A} `{FromValue A} (params : Value) : result RpcFailure A :=
  ok_or (from_value params) RpcFailure.invalid_params.

Definition reject_protocol_cursor (cursor : option string) : result RpcFailure unit :=
  fail_if (bool_decide (is_Some cursor)) RpcFailure.invalid_params.

(** ** Arguments of tools *)

Module ListModelsParams.
Record ListModelsParams : Type := mk {
  schema_version : string;
  cursor : option string;
  limit : option N;
}.
Definition decode (v : Value) : option ListModelsParams :=
  fields ← struct_fields true ["schema_version"; "cursor"; "limit"] v;
  schema_version ← struct_field "schema_version" fields;
  cursor ← struct_field_or None "cursor" fields;
  limit ← struct_field_or None "limit" fields;
  Some (mk schema_version cursor limit).
End ListModelsParams.
Abbreviation ListModelsParams := ListModelsParams.ListModelsParams.
#[export] Instance from_value_list_models : FromValue ListModelsParams := ListModelsParams.decode.

Module DescribeModelParams.
Record DescribeModelParams : Type := mk { schema_version : string; model : string }.
Definition decode (v : Value) : option DescribeModelParams :=
  fields ← struct_fields true ["schema_version"; "model"] v;
  schema_version ← struct_field "schema_version" fields;
  model ← struct_field "model" fields;
  Some (mk schema_version model).
End DescribeModelParams.
Abbreviation DescribeModelParams := DescribeModelParams.DescribeModelParams.
#[export] Instance from_value_describe_model : FromValue DescribeModelParams :=
  DescribeModelParams.decode.

Module QueryToolParams.
Record QueryToolParams : Type := mk { schema_version : string; lsq : Value }.
Definition decode (v : Value) : option QueryToolParams :=
  fields ← struct_fields true ["schema_version"; "lsq"] v;
  schema_version ← struct_field "schema_version" fields;
  lsq ← struct_field "lsq" fields;
  Some (mk schema_version lsq).
End QueryToolParams.
Abbreviation QueryToolParams := QueryToolParams.QueryToolParams.
#[export] Instance from_value_query_tool : FromValue QueryToolParams := QueryToolParams.decode.

Module MutationToolParams.
Record MutationToolParams : Type := mk { schema_version : string; lsm : Value }.
Definition decode (v : Value) : option MutationToolParams :=
  fields ← struct_fields true ["schema_version"; "lsm"] v;
  schema_version ← struct_field "schema_version" fields;
  lsm ← struct_field "lsm" fields;
  Some (mk schema_version lsm).
End MutationToolParams.
Abbreviation MutationToolParams := MutationToolParams.MutationToolParams.
#[export] Instance from_value_mutation_tool : FromValue MutationToolParams :=
  MutationToolParams.decode.

Module ReconcileMutationParams.
Record ReconcileMutationParams : Type := mk { schema_version : string; idempotency_key : string }.
Definition decode (v : Value) : option ReconcileMutationParams :=
  fields ← struct_fields true ["schema_version"; "idempotency_key"] v;
  schema_version ← struct_field "schema_version" fields;
  idempotency_key ← struct_field "idempotency_key" fields;
  Some (mk schema_version idempotency_key).
End ReconcileMutationParams.
Abbreviation ReconcileMutationParams := ReconcileMutationParams.ReconcileMutationParams.
#[export] Instance from_value_reconcile : FromValue ReconcileMutationParams :=
  ReconcileMutationParams.decode.

(** * Failures of the MCP tools ([mcp.rs])

    A tool fails with a code and a text that are chosen by the kind of the error
    only: nothing of the error's own content is part of them.  A run can also
    end in a panic, which the source inherits from indexing. *)

(** ** Texts *)

Definition public_lsq_message (error : LsqError) : string :=
  match error with
  | LsqError.InvalidJson _ => "LSQ document is invalid"
  | LsqError.UnsupportedSchemaVersion _ => "LSQ schema version is not supported"
  | LsqError.EmptyModel => "semantic model is required"
  | LsqError.EmptyProjection => "at least one semantic output is required"
  | LsqError.EmptyReference => "semantic references must not be empty"
  | LsqError.DuplicateReference _ => "semantic references must be unique"
  | LsqError.DuplicateOrderReference _ => "order references must be unique"
  | LsqError.InvalidLiteralValue _ => "literal value is invalid"
  | LsqError.InvalidLimit => "query limit is invalid"
  | LsqError.FilterTooDeep => "filter is too deeply nested"
  | LsqError.FilterTooLarge => "filter is too large"
  | LsqError.EmptyLogicalFilter => "logical filter requires arguments"
  | LsqError.InvalidInFilterSize => "IN filter size is invalid"
  end.

Definition public_compile_message (error : CompileError) : string :=
  match error with
  | CompileError.UnknownModel => "semantic model is not available"
  | CompileError.UnknownField _ | CompileError.HiddenField _ =>
      "semantic field is not available"
  | CompileError.UnknownMetric _ | CompileError.HiddenMetric _ =>
      "semantic metric is not available"
  | CompileError.UnknownRelationship _ => "semantic relationship is not available"
  | CompileError.InvalidTimeGrain _ => "time grain is not valid for the semantic field"
  | CompileError.LiteralTypeMismatch _ =>
      "literal type is not compatible with the semantic field"
  | CompileError.UnknownOrderReference _ =>
      "order reference is not a projected semantic output"
  | CompileError.LimitExceeded => "query limit exceeds the configured maximum"
  | _ => "semantic query is not valid for the current revision"
  end.

Definition public_lsm_message (error : LsmError) : string :=
  match error with
  | LsmError.InputTooLarge => "semantic mutation document is too large"
  | LsmError.InvalidJson _ => "LSM document is invalid"
  | LsmError.UnsupportedSchemaVersion _ => "LSM schema version is not supported"
  | LsmError.InvalidModel => "semantic mutation model is invalid"
  | LsmError.InvalidIdempotencyKey => "idempotency key is invalid"
  | LsmError.InvalidRowCount => "mutation row count is invalid"
  | LsmError.InvalidFieldCount => "mutation field count is invalid"
  | LsmError.InvalidFieldName => "semantic mutation field name is invalid"
  | LsmError.InconsistentRowFields => "mutation rows must contain the same fields"
  | LsmError.InvalidValue => "mutation value is invalid"
  end.

Definition public_mutation_compile_message (error : MutationCompileError) : string :=
  match error with
  | MutationCompileError.ModelNotWritable => "semantic model is not writable"
  | MutationCompileError.OperationNotEnabled => "mutation operation is not enabled"
  | MutationCompileError.RowLimitExceeded => "mutation row limit was exceeded"
  | MutationCompileError.RequestByteLimitExceeded => "mutation byte limit was exceeded"
  | MutationCompileError.FieldNotWritable _ => "semantic mutation field is not writable"
  | MutationCompileError.RequiredFieldMissing _ => "required semantic mutation field is missing"
  | MutationCompileError.FieldTypeMismatch _ =>
      "mutation value is not compatible with the semantic field"
  | MutationCompileError.NullNotAllowed _ => "semantic mutation field does not accept null"
  | MutationCompileError.ConflictFieldMissing _ => "approved upsert conflict field is missing"
  | MutationCompileError.NoUpdatableField => "upsert requires an approved mutable field"
  | _ => "semantic mutation is not valid for the current revision"
  end.

(** ** Failures *)

Module ToolFailure.
Record ToolFailure : Type := new { code : string; message : string }.

Definition internal : ToolFailure := new "MCP_INTERNAL_ERROR" "tool operation failed".

Definition from_lsq (error : LsqError) : ToolFailure :=
  new (LsqError.code error) (public_lsq_message error).

Definition from_compile (error : CompileError) : ToolFailure :=
  new (CompileError.code error) (public_compile_message error).

Definition from_execute (error : ExecuteError) : ToolFailure :=
  match error with
  | ExecuteError.Lsq error => from_lsq error
  | ExecuteError.Compile error => from_compile error
  | ExecuteError.SourceCancelled _ | ExecuteError.SourceCancellationRequested =>
      new "EXECUTOR_QUERY_CANCELLED" "semantic query was cancelled"
  | ExecuteError.RowSerialization _ | ExecuteError.InvalidRowShape =>
      new "EXECUTOR_RESULT_SERIALIZATION_FAILED" "semantic query result could not be serialized"
  | _ => new "EXECUTOR_QUERY_FAILED" "semantic query execution failed"
  end.

(** The executor's [Panic] is not an error of the source but a run that unwinds. *)
Definition from_mutation_execute (error : MutationExecuteError) : Thrown ToolFailure :=
  match error with
  | MutationExecuteError.Panic => Thrown.Panic
  | MutationExecuteError.Lsm error =>
      Thrown.Raised (new (LsmError.code error) (public_lsm_message error))
  | MutationExecuteError.Compile error =>
      Thrown.Raised (new (MutationCompileError.code error) (public_mutation_compile_message error))
  | MutationExecuteError.IdempotencyConflict =>
      Thrown.Raised (new "MUTATION_IDEMPOTENCY_CONFLICT"
        "idempotency key was already used for a different mutation")
  | MutationExecuteError.CommitIndeterminate _ =>
      Thrown.Raised (new "MUTATION_COMMIT_INDETERMINATE"
        "mutation outcome is indeterminate; retry with the same idempotency key")
  | MutationExecuteError.Cancelled _ | MutationExecuteError.CancellationRequested =>
      Thrown.Raised (new "MUTATION_CANCELLED" "semantic mutation was cancelled")
  | error => Thrown.Raised (new (mutation_error_code error) "semantic mutation failed")
  end.
End ToolFailure.
Abbreviation ToolFailure := ToolFailure.ToolFailure.

Definition parse_tool_arguments {A} `{FromValue A} (arguments : Value) : result ToolFailure A :=
  ok_or (from_value arguments)
    (ToolFailure.new "MCP_INVALID_TOOL_ARGUMENTS"
       "tool arguments do not match the declared schema").

Definition validate_tool_version (version : string) : result ToolFailure unit :=
  fail_if (bool_decide (version <> TOOL_SCHEMA_VERSION))
    (ToolFailure.new "MCP_TOOL_SCHEMA_VERSION_UNSUPPORTED" "tool schema version is not supported").

(** ** Results of tools *)

Section results.
Context `{JsonText}.

(** The text that stands for a value that cannot be written. *)
Definition fallback_text : string :=
  "{" +:+ dq +:+ "error" +:+ dq +:+ ":{" +:+ dq +:+ "code" +:+ dq +:+ ":" +:+ dq
  +:+ "MCP_INTERNAL_ERROR" +:+ dq +:+ "," +:+ dq +:+ "message" +:+ dq +:+ ":" +:+ dq
  +:+ "tool operation failed" +:+ dq +:+ "}}".

Definition tool_result (data : Value) (is_error : bool) : Value :=
  let text := default fallback_text (value_to_vec data) in
  json_object
    [("content", Value_Array
        [json_object [("type", Value_String "text"); ("text", Value_String text)]]);
     ("structuredContent", data); ("isError", Value_Bool is_error)].

Definition tool_success (data : Value) : Value := tool_result data false.

Definition tool_error (error : ToolFailure) : Value :=
  tool_result
    (json_object [("error", json_object
       [("code", Value_String (ToolFailure.code error));
        ("message", Value_String (ToolFailure.message error))])]) true.
End results.
