(* ===== verification/McpPublic.v ===== *)
(** * What the MCP server publishes ([mcp.rs])

    Cursors and resource identifiers, the public form of results, lineages and
    models, and the outcome of a validation.

    The second part declares the tools. *)

From S2P Require Import RateLimit Database PublishedModel Executor MutationExecutor Prelude.
From S2P Require Import Ordered Text StrOps Json Lsq Semantic Compiler Lsm Mutation Effects Mcp.
From S2P Require Import McpParams.

(** ** Values *)

(** [json!] of a value with a derived serialiser. *)
Fixpoint value_of_json (j : json) : Value :=
  match j with
  | JNull => Value_Null
  | JBool b => Value_Bool b
  | JInt z => Value_Integer z
  | JStr s => Value_String s
  | JArr l => Value_Array (map value_of_json l)
  | JObj fields => Value_Object (bt_from_list (map (fun '(k, v) => (k, value_of_json v)) fields))
  end.

Definition strings (l : list string) : Value := Value_Array (map Value_String l).
Definition value_of_N (n : N) : Value := Value_Integer (Z.of_N n).
Definition nullable_value {A} (enc : A -> Value) (o : option A) : Value :=
  match o with Some a => enc a | None => Value_Null end.

(** ** Cursors *)

Definition DEFAULT_PAGE_LIMIT : N := 50.
Definition MAX_PAGE_LIMIT : N := 100.
Definition MAX_MODEL_CURSOR_LENGTH : N := 128.

Definition invalid_cursor : ToolFailure :=
  ToolFailure.new "MCP_INVALID_CURSOR" "cursor is not valid".

Section cursor.
Context `{Crates}.

Definition model_cursor (revision authority_id : string) (offset : N) : string :=
  "v2|" +:+ revision +:+ "|" +:+ sha256 authority_id +:+ "|" +:+ pretty offset.

Definition parse_cursor (cursor : option string) (revision authority_id : string)
    : result ToolFailure N :=
  match cursor with
  | None => Ok 0%N
  | Some cursor =>
      let expected_authority := sha256 authority_id in
      match split (is_char 124) cursor with
      | [version; cursor_revision; cursor_authority; offset] =>
          fail_if (bool_decide (version <> "v2")) invalid_cursor;;
          fail_if (bool_decide (cursor_revision <> revision)
                   || bool_decide (cursor_authority <> expected_authority)) invalid_cursor;;
          ok_or (parse_u64 offset) invalid_cursor
      | _ => Err invalid_cursor
      end
  end.
End cursor.

(** ** Documents *)

Section documents.
Context `{Crates, JsonText, LsqParser, LsmParser}.

(** The text of the error of a writer. *)
Definition write_error : string := "value cannot be written".

Definition normalize_value (value : Value) : result LsqError NormalizedLsq :=
  bytes ← ok_or (value_to_vec value) (LsqError.InvalidJson write_error);
  normalize_lsq lsq_from_slice bytes.

Definition normalize_mutation_value (value : Value) : result LsmError NormalizedLsm :=
  bytes ← ok_or (value_to_vec value) (LsmError.InvalidJson write_error);
  normalize_lsm lsm_parse lsm_from_value bytes.
End documents.

Definition validation_failure (code message : string) (normalized_lsq_hash : option string)
    (semantic_revision : string) : Value :=
  json_object
    [("schema_version", Value_String TOOL_SCHEMA_VERSION); ("valid", Value_Bool false);
     ("normalized_lsq_hash", nullable_value Value_String normalized_lsq_hash);
     ("semantic_revision", Value_String semantic_revision);
     ("output_schema", Value_Array []); ("lineage", Value_Null);
     ("error", json_object [("code", Value_String code); ("message", Value_String message)]);
     ("warnings", Value_Array [])].

Definition mutation_validation_failure (code message : string)
    (normalized_lsm_hash : option string) (semantic_revision : string) : Value :=
  json_object
    [("schema_version", Value_String TOOL_SCHEMA_VERSION); ("valid", Value_Bool false);
     ("normalized_lsm_hash", nullable_value Value_String normalized_lsm_hash);
     ("semantic_revision", Value_String semantic_revision);
     ("operation", Value_Null); ("model", Value_Null); ("expected_rows", Value_Integer 0);
     ("returning_schema", Value_Array []); ("lineage", Value_Null);
     ("error", json_object [("code", Value_String code); ("message", Value_String message)]);
     ("warnings", Value_Array [])].

(** ** Lineages *)

Module PublicLineage.
Record PublicLineage : Type := mk {
  models : list string;
  metrics : list string;
  aggregation_anchors : list (string * string);
  relationships : list string;
  fields : list string;
}.
Definition to_value (l : PublicLineage) : Value :=
  json_object
    ([("models", strings (models l)); ("metrics", strings (metrics l))]
     ++ (if decide (aggregation_anchors l = []) then []
         else [("aggregation_anchors", Value_Object
                  (map (fun '(k, v) => (k, Value_String v)) (aggregation_anchors l)))])
     ++ [("relationships", strings (relationships l)); ("fields", strings (fields l))]).
End PublicLineage.
Abbreviation PublicLineage := PublicLineage.PublicLineage.

Fixpoint collect_filter_fields (filter : Filter) (fields : list string) : list string :=
  match filter with
  | Filter.And args | Filter.Or args =>
      fold_left (fun fields arg => collect_filter_fields arg fields) args fields
  | Filter.Not arg => collect_filter_fields arg fields
  | Filter.Eq field _ | Filter.NotEq field _ | Filter.Gt field _ | Filter.Gte field _
  | Filter.Lt field _ | Filter.Lte field _ | Filter.In field _
  | Filter.IsNull field | Filter.IsNotNull field => bs_insert field fields
  end.

Definition public_lineage (query : LogicalSemanticQuery) (compiled : Lineage) : PublicLineage :=
  let fields := fold_left (fun fields dimension => bs_insert (Dimension.field dimension) fields)
                  (Lsq.dimensions query) [] in
  let fields := match Lsq.filters query with
                | Some filter => collect_filter_fields filter fields
                | None => fields
                end in
  {| PublicLineage.models := [Lsq.model query];
     PublicLineage.metrics := Lineage.metrics compiled;
     PublicLineage.aggregation_anchors :=
       bt_from_list (map (fun anchor => (anchor_metric anchor, anchor_field anchor))
                       (Lineage.aggregation_anchors compiled));
     PublicLineage.relationships := Lineage.relationships compiled;
     PublicLineage.fields := fields |}.

Definition public_mutation_lineage (mutation : LogicalSemanticMutation) : option Value :=
  first ← head (Lsm.rows mutation);
  Some (json_object [("model", Value_String (Lsm.model mutation)); ("fields", strings first.*1)]).

(** ** Results *)

Definition public_output_schema (columns : list OutputColumn) : Value :=
  Value_Array (map (fun column =>
    json_object [("name", Value_String (OutputColumn.name column));
                 ("type", value_of_json (DataType.to_json (OutputColumn.data_type column)))])
    columns).

Definition public_query_result (result : QueryResult) (query : LogicalSemanticQuery) : Value :=
  json_object
    [("schema_version", Value_String (QueryResult.schema_version result));
     ("query_id", Value_String (QueryResult.query_id result));
     ("semantic_revision", Value_String (QueryResult.semantic_revision result));
     ("columns", public_output_schema (QueryResult.columns result));
     ("rows", Value_Array (map value_of_json (QueryResult.rows result)));
     ("truncated", Value_Bool (QueryResult.truncated result));
     ("lineage", PublicLineage.to_value (public_lineage query (QueryResult.lineage result)));
     ("warnings", strings (QueryResult.warnings result))].

Definition public_mutation_result (result : MutationResult) : Value :=
  json_object
    [("schema_version", Value_String (MutationResult.schema_version result));
     ("mutation_id", Value_String (MutationResult.mutation_id result));
     ("semantic_revision", Value_String (MutationResult.semantic_revision result));
     ("operation", value_of_json (MutationOperation.to_json (MutationResult.operation result)));
     ("model", Value_String (MutationResult.model result));
     ("columns", public_output_schema (MutationResult.columns result));
     ("rows", Value_Array (map value_of_json (MutationResult.rows result)));
     ("affected_rows", value_of_N (MutationResult.affected_rows result));
     ("replayed", Value_Bool (MutationResult.replayed result));
     ("lineage", json_object
        [("model", Value_String (MutationLineage.model (MutationResult.lineage result)));
         ("fields", strings (MutationLineage.fields (MutationResult.lineage result)));
         ("returning_fields",
            strings (MutationLineage.returning_fields (MutationResult.lineage result)))]);
     ("warnings", strings (MutationResult.warnings result))].

(** ** Models *)

Definition queryable_models (snapshot : SemanticSnapshot) : list Model :=
  List.filter Model.queryable (Snapshot.models snapshot).

Definition find_queryable_model (snapshot : SemanticSnapshot) (name : string)
    : result ToolFailure Model :=
  ok_or (List.find (fun model => Model.queryable model
                                 && bool_decide (Model.semantic_name model = name))
           (Snapshot.models snapshot))
    (ToolFailure.new "SEMANTIC_MODEL_NOT_AVAILABLE" "semantic model is not available").

Definition supported_time_grains (data_type : DataType) (time_dimension : bool) : list string :=
  if time_dimension
     && match data_type with
        | DataType.Date | DataType.Timestamp | DataType.TimestampTz => true
        | _ => false
        end
  then ["day"; "week"; "month"; "quarter"; "year"]
  else [].

Definition describe_field (field : Field) : Value :=
  json_object
    [("name", Value_String (Field.semantic_name field));
     ("type", value_of_json (DataType.to_json (Field.data_type field)));
     ("time_dimension", Value_Bool (Field.time_dimension field));
     ("entity_key", Value_Bool (Field.entity_key field));
     ("relationship", nullable_value Value_String (Field.relationship field));
     ("supported_time_grains",
        strings (supported_time_grains (Field.data_type field) (Field.time_dimension field)))].

Definition describe_metric (metric : Metric) : Value :=
  json_object
    [("name", Value_String (Metric.semantic_name metric));
     ("type", value_of_json (DataType.to_json (Metric.data_type metric)));
     ("aggregation", value_of_json (Aggregation.to_json (Metric.aggregation metric)));
     ("additivity",
        nullable_value (fun a => value_of_json (Additivity.to_json a)) (Metric.additivity metric));
     ("aggregation_anchor", nullable_value Value_String (Metric.aggregation_anchor metric))].

Definition describe_relationship (relationship : Relationship) : Value :=
  json_object
    [("name", Value_String (Relationship.semantic_name relationship));
     ("cardinality",
        value_of_json (Cardinality.to_json (Relationship.cardinality relationship)));
     ("join_type", value_of_json (JoinType.to_json (Relationship.join_type relationship)))].

Definition visible_fields (model : Model) : list Field :=
  List.filter Field.visible (Model.fields model).
Definition visible_metrics (model : Model) : list Metric :=
  List.filter Metric.visible (Model.metrics model).

(** The [BTreeSet] of the relationships a visible field or metric goes through. *)
Definition usable_relationships (model : Model) : list string :=
  bs_from_list
    (omap Field.relationship (visible_fields model)
     ++ omap (fun metric =>
          List.find (fun field => bool_decide (Field.semantic_name field = Metric.field metric))
            (Model.fields model) ≫= Field.relationship) (visible_metrics model)).

Definition describe_model (revision : string) (model : Model) (max_result_bytes : N) : Value :=
  let relationships :=
    List.filter (fun relationship =>
      bool_decide (Relationship.semantic_name relationship ∈ usable_relationships model))
      (Model.relationships model) in
  json_object
    [("schema_version", Value_String TOOL_SCHEMA_VERSION);
     ("semantic_revision", Value_String revision);
     ("model", json_object
        [("name", Value_String (Model.semantic_name model));
         ("timezone", nullable_value Value_String (Model.timezone model));
         ("fields", Value_Array (map describe_field (visible_fields model)));
         ("metrics", Value_Array (map describe_metric (visible_metrics model)));
         ("relationships", Value_Array (map describe_relationship relationships))]);
     ("query_limits", json_object
        [("default", value_of_N (default_limit default_options));
         ("hard", value_of_N (hard_limit default_options));
         ("max_result_bytes", value_of_N max_result_bytes)])].

(** ** Resources *)

(** A digit of [{:X}]. *)
Definition upper_hex (nibble : N) : ascii :=
  if decide (nibble < 10)%N then byte_of (48 + nibble) else byte_of (55 + nibble).

Definition is_unreserved (c : ascii) : bool :=
  is_ascii_alphanumeric c || is_char 45 c || is_char 46 c || is_char 95 c || is_char 126 c.

Fixpoint percent_encode (value : string) : string :=
  match value with
  | EmptyString => EmptyString
  | String byte rest =>
      if is_unreserved byte then String byte (percent_encode rest)
      else String (byte_of 37) (String (upper_hex (N.shiftr (code byte) 4))
             (String (upper_hex (N.land (code byte) 15)) (percent_encode rest)))
  end.

Definition current_revision_uri (project : string) : string :=
  "semantic://projects/" +:+ percent_encode project +:+ "/revisions/current".

Definition model_uri (project model : string) : string :=
  "semantic://projects/" +:+ percent_encode project +:+ "/models/" +:+ percent_encode model.

Definition resource_contents `{JsonText} (uri mime_type : string) (value : Value)
    : result RpcFailure Value :=
  text ← ok_or (value_to_vec value)
           (RpcFailure.resource "MCP_INTERNAL_ERROR" "resource is unavailable");
  Ok (json_object [("contents", Value_Array [json_object
        [("uri", Value_String uri); ("mimeType", Value_String mime_type);
         ("text", Value_String text)]])]).

(** * Declarations of the MCP tools ([mcp.rs])

    The tools a server lists and the schemas of their arguments, and the names
    that are written to its log.  The documents [LSQ_SCHEMA] and [LSM_SCHEMA]
    are data of the build, given by the class [Schemas]. *)

(** [include_str!] of the published JSON schemas, and the version of the package. *)
Class Schemas := {
  LSQ_SCHEMA : string;
  LSM_SCHEMA : string;
  CARGO_PKG_VERSION : string;
}.

(** ** Schemas *)

(** A reference to a definition of a document that is moved under a property. *)
Definition rewrite_reference (property : string) (value : Value) : Value :=
  match value with
  | Value_String reference =>
      match strip_prefix "#/$defs/" reference with
      | Some suffix => Value_String ("#/properties/" +:+ property +:+ "/$defs/" +:+ suffix)
      | None => value
      end
  | _ => value
  end.

(** The reference of an object is a string, which the recursion leaves alone, so
    it may be rewritten after the children. *)
Fixpoint rewrite_schema_references (property : string) (value : Value) : Value :=
  match value with
  | Value_Object object =>
      Value_Object (map (fun '(key, child) =>
        (key, if decide (key = "$ref")
              then rewrite_reference property (rewrite_schema_references property child)
              else rewrite_schema_references property child)) object)
  | Value_Array values => Value_Array (map (rewrite_schema_references property) values)
  | _ => value
  end.

(** [Map::remove]. *)
Definition map_remove (key : string) (object : list (string * Value)) : list (string * Value) :=
  filter (fun entry => entry.1 <> key) object.

Definition const_version : Value := json_object [("const", Value_String TOOL_SCHEMA_VERSION)].

Section definitions.
Context `{Schemas, JsonText}.

Definition embedded_document_tool_schema (schema property : string) : Value :=
  let document_schema :=
    default (json_object [("type", Value_String "object")]) (value_from_slice schema) in
  let document_schema :=
    match document_schema with
    | Value_Object object => Value_Object (map_remove "$id" (map_remove "$schema" object))
    | _ => document_schema
    end in
  let document_schema := rewrite_schema_references property document_schema in
  json_object
    [("type", Value_String "object"); ("additionalProperties", Value_Bool false);
     ("required", strings ["schema_version"; property]);
     ("properties", json_object
        [("schema_version", const_version); (property, document_schema)])].

Definition query_tool_schema : Value := embedded_document_tool_schema LSQ_SCHEMA "lsq".
Definition mutation_tool_schema : Value := embedded_document_tool_schema LSM_SCHEMA "lsm".

(** ** Tools *)

Definition query_tool_definition (name description : string) : Value :=
  json_object [("name", Value_String name); ("description", Value_String description);
               ("inputSchema", query_tool_schema)].

Definition mutation_tool_definition (name description : string) : Value :=
  json_object [("name", Value_String name); ("description", Value_String description);
               ("inputSchema", mutation_tool_schema)].

Definition object_schema (required : list string) (properties : list (string * Value)) : Value :=
  json_object
    [("type", Value_String "object"); ("additionalProperties", Value_Bool false);
     ("required", strings required); ("properties", json_object properties)].

Definition list_models_definition : Value :=
  json_object
    [("name", Value_String "list_semantic_models");
     ("description",
        Value_String "List queryable semantic models in the current published revision.");
     ("inputSchema", object_schema ["schema_version"]
        [("schema_version", const_version);
         ("cursor", json_object [("type", Value_String "string");
                                 ("maxLength", value_of_N MAX_MODEL_CURSOR_LENGTH)]);
         ("limit", json_object [("type", Value_String "integer"); ("minimum", Value_Integer 1);
                                ("maximum", value_of_N MAX_PAGE_LIMIT)])])].

Definition describe_model_definition : Value :=
  json_object
    [("name", Value_String "describe_semantic_model");
     ("description",
        Value_String "Describe visible fields and metrics for a queryable semantic model.");
     ("inputSchema", object_schema ["schema_version"; "model"]
        [("schema_version", const_version);
         ("model", json_object [("type", Value_String "string"); ("minLength", Value_Integer 1);
                                ("maxLength", Value_Integer 255)])])].

Definition reconcile_definition : Value :=
  json_object
    [("name", Value_String "reconcile_semantic_mutation");
     ("description",
        Value_String "Read idempotency state for the authenticated mutation authority.");
     ("inputSchema", object_schema ["schema_version"; "idempotency_key"]
        [("schema_version", const_version);
         ("idempotency_key", json_object
            [("type", Value_String "string"); ("minLength", Value_Integer 1);
             ("maxLength", Value_Integer 256)])])].

Definition tool_definitions (mutation_enabled : bool) : list Value :=
  [list_models_definition; describe_model_definition;
   query_tool_definition "validate_semantic_query"
     "Validate and type-check an LSQ against the current published revision.";
   query_tool_definition "query_semantic_model"
     "Execute an LSQ through the guarded semantic query executor.";
   query_tool_definition "explain_semantic_query"
     "Explain normalized semantic references, output shape, and limits for an LSQ."]
  ++ (if mutation_enabled then
        [mutation_tool_definition "validate_semantic_mutation"
           "Validate and type-check an LSM against the current writable revision.";
         mutation_tool_definition "mutate_semantic_model"
           "Execute an LSM through the guarded semantic mutation executor.";
         reconcile_definition]
      else []).
End definitions.

(** ** Names for the log *)

Definition public_method_name (method : string) : string :=
  if bool_decide (method ∈ ["initialize"; "notifications/initialized"; "ping"; "tools/list";
                            "tools/call"; "resources/list"; "resources/read"])
  then method else "unknown".

Definition tool_names : list string :=
  ["list_semantic_models"; "describe_semantic_model"; "validate_semantic_query";
   "query_semantic_model"; "explain_semantic_query"; "validate_semantic_mutation";
   "mutate_semantic_model"; "reconcile_semantic_mutation"].

(** [Value::get] with a key: only objects have entries. *)
Definition value_get (key : string) (v : Value) : option Value := as_object v ≫= bt_get key.

Definition as_bool (v : Value) : option bool :=
  match v with Value_Bool b => Some b | _ => None end.

Definition public_tool_name (method : string) (params : Value) : option string :=
  if decide (method <> "tools/call") then None else
  name ← value_get "name" params ≫= as_str;
  Some (if bool_decide (name ∈ tool_names) then name else "unknown").

(** The status and the code of a result. *)
Definition tool_result_status (result : Value) : string * string :=
  if decide (value_get "isError" result ≫= as_bool = Some true)
  then ("error", default "MCP_TOOL_ERROR"
          (content ← value_get "structuredContent" result;
           error ← value_get "error" content;
           code ← value_get "code" error;
           as_str code))
  else ("success", "OK").
