(* ===== verification/McpTools.v ===== *)
(** * Tools and methods of the MCP server ([mcp.rs])

    The eight tools, the resources, and the dispatch of a method, as programs
    over the calls of the executors.  A program ends in a value, in a failure of
    the protocol or of the tool, or in a panic. *)

From S2P Require Import RateLimit Database PublishedModel Executor MutationExecutor Prelude.
From S2P Require Import Ordered Text StrOps Json Lsq Semantic Compiler Lsm Mutation Effects Mcp.
From S2P Require Import McpParams McpPublic.

Abbreviation tool A := (io_result (Thrown ToolFailure) A).
Abbreviation rpc A := (io_result (Thrown RpcFailure) A).

(** Code that cannot panic. *)
Definition raising {E A} (m : result E A) : io_result (Thrown E) A := lift (map_err Thrown.Raised m).

(** [&v[a..b]] panics unless [a <= b <= v.len()]. *)
Definition slice_of {E A} (a b : N) (l : list A) : result (Thrown E) (list A) :=
  fail_if (negb (bool_decide (a ≤ b)%N && bool_decide (b ≤ N.of_nat (length l))%N)) Thrown.Panic;;
  Ok (take (N.to_nat b - N.to_nat a) (drop (N.to_nat a) l)).

Definition snapshot_unavailable : ToolFailure :=
  ToolFailure.new "SEMANTIC_SNAPSHOT_UNAVAILABLE" "current semantic snapshot is unavailable".

Definition mutation_disabled : ToolFailure :=
  ToolFailure.new "MUTATION_CAPABILITY_DISABLED" "semantic mutation capability is not enabled".

Section server.
Context `{Crates, ModelParsers, Driver, LsqParser, LsmParser, JsonText, Schemas}.
Context (config : McpConfig).

Definition load_published : tool PublishedModel :=
  attempt (fun _ => Thrown.Raised snapshot_unavailable)
    (connect_runtime (McpConfig.executor config)) ;;?
  attempt (fun _ => Thrown.Raised snapshot_unavailable)
    (PublishedModel.load_published Source (McpConfig.project config)).

Definition mutation_config : result ToolFailure MutationExecutorConfig :=
  ok_or (McpConfig.mutation_executor config) mutation_disabled.

Definition load_published_mutation : tool PublishedMutationModel :=
  mutation ←? raising mutation_config;
  attempt (fun _ => Thrown.Raised snapshot_unavailable) (connect_mutation mutation) ;;?
  attempt (fun _ => Thrown.Raised snapshot_unavailable)
    (load_published_for_mutation Source (McpConfig.project config)
       (MutationExecutorConfig.database_role mutation)).

(** ** Tools *)

Definition list_entry (model : Model) : Value :=
  json_object
    [("name", Value_String (Model.semantic_name model));
     ("field_count", value_of_N (N.of_nat (length (visible_fields model))));
     ("metric_count", value_of_N (N.of_nat (length (visible_metrics model))))].

(** A page of the queryable models and the cursor of the next one. *)
Definition list_page (published : PublishedModel) (cursor : option string) (limit : N)
    : result (Thrown ToolFailure) Value :=
  let snapshot := PublishedModel.snapshot published in
  let revision := Snapshot.revision_hash snapshot in
  let authority_id := ExecutionContext.authority_id (McpConfig.execution_context config) in
  offset ← map_err Thrown.Raised (parse_cursor cursor revision authority_id);
  let models := queryable_models snapshot in
  let count := N.of_nat (length models) in
  fail_if (bool_decide (count < offset)%N) (Thrown.Raised invalid_cursor);;
  let end_ := N.min (saturating_add offset limit) count in
  page ← slice_of offset end_ models;
  Ok (json_object
        [("schema_version", Value_String TOOL_SCHEMA_VERSION);
         ("semantic_revision", Value_String revision);
         ("models", Value_Array (map list_entry page));
         ("next_cursor",
            if decide (end_ < count)%N
            then Value_String (model_cursor revision authority_id end_) else Value_Null)]).

Definition list_semantic_models (params : ListModelsParams) : tool Value :=
  raising (validate_tool_version (ListModelsParams.schema_version params)) ;;?
  let limit := default DEFAULT_PAGE_LIMIT (ListModelsParams.limit params) in
  raising (fail_if (negb (bool_decide (1 ≤ limit ≤ MAX_PAGE_LIMIT)%N))
             (ToolFailure.new "MCP_INVALID_PAGINATION" "limit must be between 1 and 100")) ;;?
  published ←? load_published;
  lift (list_page published (ListModelsParams.cursor params) limit).

Definition describe_semantic_model (params : DescribeModelParams) : tool Value :=
  raising (validate_tool_version (DescribeModelParams.schema_version params)) ;;?
  published ←? load_published;
  let snapshot := PublishedModel.snapshot published in
  model ←? raising (find_queryable_model snapshot (DescribeModelParams.model params));
  Ret (Ok (describe_model (Snapshot.revision_hash snapshot) model
             (ExecutorConfig.max_result_bytes (McpConfig.executor config)))).

Definition validated_query (snapshot : SemanticSnapshot) (lsq : Value) : Value :=
  let revision := Snapshot.revision_hash snapshot in
  match normalize_value lsq with
  | Err error => validation_failure (LsqError.code error) (public_lsq_message error) None revision
  | Ok normalized =>
      match compile_lsq normalized snapshot default_options with
      | Ok compiled =>
          json_object
            [("schema_version", Value_String TOOL_SCHEMA_VERSION); ("valid", Value_Bool true);
             ("normalized_lsq_hash", Value_String (NormalizedLsq.hash normalized));
             ("semantic_revision", Value_String revision);
             ("output_schema", public_output_schema (CompiledQuery.output_schema compiled));
             ("lineage", PublicLineage.to_value
                (public_lineage (NormalizedLsq.query normalized)
                   (CompiledQuery.lineage compiled)));
             ("warnings", Value_Array [])]
      | Err error =>
          validation_failure (CompileError.code error) (public_compile_message error)
            (Some (NormalizedLsq.hash normalized)) revision
      end
  end.

Definition validate_semantic_query (params : QueryToolParams) : tool Value :=
  raising (validate_tool_version (QueryToolParams.schema_version params)) ;;?
  published ←? load_published;
  Ret (Ok (validated_query (PublishedModel.snapshot published) (QueryToolParams.lsq params))).

Definition explained_query (snapshot : SemanticSnapshot) (lsq : Value)
    : result ToolFailure Value :=
  normalized ← map_err ToolFailure.from_lsq (normalize_value lsq);
  compiled ← map_err ToolFailure.from_compile (compile_lsq normalized snapshot default_options);
  normalized_lsq ← ok_or (value_from_slice (NormalizedLsq.canonical_json normalized))
                     ToolFailure.internal;
  let query := NormalizedLsq.query normalized in
  let lineage := public_lineage query (CompiledQuery.lineage compiled) in
  Ok (json_object
        [("schema_version", Value_String TOOL_SCHEMA_VERSION);
         ("normalized_lsq", normalized_lsq);
         ("normalized_lsq_hash", Value_String (NormalizedLsq.hash normalized));
         ("semantic_revision", Value_String (Snapshot.revision_hash snapshot));
         ("semantic_models", strings (PublicLineage.models lineage));
         ("semantic_relationships", strings (PublicLineage.relationships lineage));
         ("source_lineage", PublicLineage.to_value lineage);
         ("output_schema", public_output_schema (CompiledQuery.output_schema compiled));
         ("limits", json_object
            [("requested", nullable_value value_of_N (Lsq.limit query));
             ("effective",
                value_of_N (default (default_limit default_options) (Lsq.limit query)));
             ("maximum", value_of_N (hard_limit default_options))]);
         ("warnings", Value_Array [])]).

Definition explain_semantic_query (params : QueryToolParams) : tool Value :=
  raising (validate_tool_version (QueryToolParams.schema_version params)) ;;?
  published ←? load_published;
  raising (explained_query (PublishedModel.snapshot published) (QueryToolParams.lsq params)).

Definition query_semantic_model_with_cancel (params : QueryToolParams) : tool Value :=
  raising (validate_tool_version (QueryToolParams.schema_version params)) ;;?
  normalized ←? raising (map_err ToolFailure.from_lsq (normalize_value (QueryToolParams.lsq params)));
  input ←? raising (ok_or (value_to_vec (QueryToolParams.lsq params)) ToolFailure.internal);
  result ←? attempt (fun error => Thrown.Raised (ToolFailure.from_execute error))
              (Executor.execute_with_cancel input (McpConfig.project config)
                 (McpConfig.executor config) (McpConfig.execution_context config));
  Ret (Ok (public_query_result result (NormalizedLsq.query normalized))).

Definition validated_mutation (published : PublishedMutationModel) (lsm : Value)
    : result (Thrown ToolFailure) Value :=
  let snapshot := PublishedModel.snapshot (PublishedMutationModel.published published) in
  let revision := Snapshot.revision_hash snapshot in
  match normalize_mutation_value lsm with
  | Err error =>
      Ok (mutation_validation_failure (LsmError.code error) (public_lsm_message error) None
            revision)
  | Ok normalized =>
      match compile_lsm normalized snapshot (PublishedMutationModel.capabilities published)
              default_mutation_options with
      | Ok compiled =>
          lineage ← ok_or (public_mutation_lineage (NormalizedLsm.mutation normalized))
                      Thrown.Panic;
          Ok (json_object
                [("schema_version", Value_String TOOL_SCHEMA_VERSION); ("valid", Value_Bool true);
                 ("normalized_lsm_hash", Value_String (NormalizedLsm.hash normalized));
                 ("semantic_revision", Value_String revision);
                 ("operation",
                    value_of_json (MutationOperation.to_json (CompiledMutation.operation compiled)));
                 ("model", Value_String (CompiledMutation.model compiled));
                 ("expected_rows",
                    value_of_N (N.of_nat (CompiledMutation.expected_rows compiled)));
                 ("returning_schema",
                    public_output_schema (CompiledMutation.returning_schema compiled));
                 ("lineage", lineage); ("warnings", Value_Array [])])
      | Err (Raised error) =>
          Ok (mutation_validation_failure (MutationCompileError.code error)
                (public_mutation_compile_message error) (Some (NormalizedLsm.hash normalized))
                revision)
      | Err Panicked => Err Thrown.Panic
      end
  end.

Definition validate_semantic_mutation (params : MutationToolParams) : tool Value :=
  raising (validate_tool_version (MutationToolParams.schema_version params)) ;;?
  published ←? load_published_mutation;
  lift (validated_mutation published (MutationToolParams.lsm params)).

Definition mutate_semantic_model_with_cancel (params : MutationToolParams) : tool Value :=
  raising (validate_tool_version (MutationToolParams.schema_version params)) ;;?
  input ←? raising (ok_or (value_to_vec (MutationToolParams.lsm params)) ToolFailure.internal);
  mutation ←? raising mutation_config;
  result ←? attempt ToolFailure.from_mutation_execute
              (MutationExecutor.execute_with_cancel (McpConfig.project config) mutation
                 (McpConfig.execution_context config) input);
  Ret (Ok (public_mutation_result result)).

Definition reconcile_semantic_mutation (params : ReconcileMutationParams) : tool Value :=
  raising (validate_tool_version (ReconcileMutationParams.schema_version params)) ;;?
  mutation ←? raising mutation_config;
  state ←? attempt ToolFailure.from_mutation_execute
             (reconcile (McpConfig.project config) mutation (McpConfig.execution_context config)
                (ReconcileMutationParams.idempotency_key params));
  Ret (Ok (json_object
             [("schema_version", Value_String TOOL_SCHEMA_VERSION);
              ("idempotency_key_hash",
                 Value_String (sha256 (ReconcileMutationParams.idempotency_key params)));
              ("state", nullable_value value_of_json state)])).

(** ** Calls of tools *)

(** The arguments of a tool, and its result as the value of the call. *)
Definition run_tool {P} `{FromValue P} (body : P -> tool Value) (arguments : Value)
    : rpc Value :=
  params ←? raising (map_err (fun _ => RpcFailure.invalid_tool_arguments)
                       (parse_tool_arguments arguments));
  outcome ← body params;
  Ret (match outcome with
       | Ok data => Ok (tool_success data)
       | Err (Thrown.Raised error) => Ok (tool_error error)
       | Err Thrown.Panic => Err Thrown.Panic
       end).

Definition call_tool_with_cancel (request : ToolCallParams) : rpc Value :=
  let name := ToolCallParams.name request in
  let arguments := ToolCallParams.arguments request in
  if decide (name = "list_semantic_models") then run_tool list_semantic_models arguments
  else if decide (name = "describe_semantic_model") then
    run_tool describe_semantic_model arguments
  else if decide (name = "validate_semantic_query") then
    run_tool validate_semantic_query arguments
  else if decide (name = "query_semantic_model") then
    run_tool query_semantic_model_with_cancel arguments
  else if decide (name = "explain_semantic_query") then run_tool explain_semantic_query arguments
  else if decide (name = "validate_semantic_mutation") then
    run_tool validate_semantic_mutation arguments
  else if decide (name = "mutate_semantic_model") then
    run_tool mutate_semantic_model_with_cancel arguments
  else if decide (name = "reconcile_semantic_mutation") then
    run_tool reconcile_semantic_mutation arguments
  else raising (Err RpcFailure.tool_not_found).

Definition call_tool (request : ToolCallParams) : rpc Value :=
  uncancelled (call_tool_with_cancel request).

(** ** Resources *)

Definition mutation_enabled : bool := bool_decide (is_Some (McpConfig.mutation_executor config)).

Definition resource_entry (uri name mime_type : string) : Value :=
  json_object [("uri", Value_String uri); ("name", Value_String name);
               ("mimeType", Value_String mime_type)].

Definition LSQ_SCHEMA_URI : string := "semantic://schemas/lsq/v1".
Definition LSM_SCHEMA_URI : string := "semantic://schemas/lsm/v1".

Definition load_for_resource : rpc PublishedModel :=
  attempt (Thrown.map_raised (fun error =>
             RpcFailure.resource (ToolFailure.code error) (ToolFailure.message error)))
    load_published.

Definition resource_entries (snapshot : SemanticSnapshot) : list Value :=
  [resource_entry (current_revision_uri (McpConfig.project config)) "Current semantic revision"
     "application/json";
   resource_entry LSQ_SCHEMA_URI "Logical Semantic Query v1 schema" "application/schema+json"]
  ++ (if mutation_enabled then
        [resource_entry LSM_SCHEMA_URI "Logical Semantic Mutation v1 schema"
           "application/schema+json"]
      else [])
  ++ map (fun model =>
       resource_entry (model_uri (McpConfig.project config) (Model.semantic_name model))
         ("Semantic model " +:+ Model.semantic_name model) "application/json")
       (queryable_models snapshot).

Definition list_resources : rpc Value :=
  published ←? load_for_resource;
  Ret (Ok (json_object
             [("resources", Value_Array (resource_entries (PublishedModel.snapshot published)))])).

Definition read_schema (uri schema : string) : result RpcFailure Value :=
  schema ← ok_or (value_from_slice schema)
             (RpcFailure.resource "MCP_INTERNAL_ERROR" "resource is unavailable");
  resource_contents uri "application/schema+json" schema.

(** The resources that depend on the published model. *)
Definition read_published_resource (snapshot : SemanticSnapshot) (uri : string)
    : result RpcFailure Value :=
  let project := McpConfig.project config in
  if decide (uri = current_revision_uri project) then
    resource_contents uri "application/json"
      (json_object
         [("schema_version", Value_String TOOL_SCHEMA_VERSION); ("project", Value_String project);
          ("semantic_revision", Value_String (Snapshot.revision_hash snapshot));
          ("models", strings (map Model.semantic_name (queryable_models snapshot)))])
  else
    match List.find (fun model =>
            bool_decide (uri = model_uri project (Model.semantic_name model)))
            (queryable_models snapshot) with
    | Some model =>
        resource_contents uri "application/json"
          (describe_model (Snapshot.revision_hash snapshot) model
             (ExecutorConfig.max_result_bytes (McpConfig.executor config)))
    | None => Err (RpcFailure.resource "MCP_RESOURCE_NOT_FOUND" "resource is not available")
    end.

Definition read_resource (params : ResourceReadParams) : rpc Value :=
  let uri := ResourceReadParams.uri params in
  if decide (uri = LSQ_SCHEMA_URI) then raising (read_schema uri LSQ_SCHEMA)
  else if bool_decide (uri = LSM_SCHEMA_URI) && mutation_enabled then
    raising (read_schema uri LSM_SCHEMA)
  else
    published ←? load_for_resource;
    raising (read_published_resource (PublishedModel.snapshot published) uri).

(** ** Methods *)

Definition server_capabilities : Value :=
  json_object
    [("tools", json_object [("listChanged", Value_Bool false)]);
     ("resources",
        json_object [("subscribe", Value_Bool false); ("listChanged", Value_Bool false)])].

Definition server_info : Value :=
  json_object [("name", Value_String "postgresem"); ("version", Value_String CARGO_PKG_VERSION)].

Definition dispatch (method : string) (params : Value) : rpc Value :=
  if decide (method = "initialize") then
    raising (params ← parse_params params;
             InitializeParams.validate params;;
             Ok (json_object
                   [("protocolVersion", Value_String MCP_PROTOCOL_VERSION);
                    ("capabilities", server_capabilities); ("serverInfo", server_info)]))
  else if decide (method = "notifications/initialized") then
    raising ((parse_params params : result RpcFailure EmptyParams);; Ok (json_object []))
  else if decide (method = "ping") then
    raising ((parse_params params : result RpcFailure EmptyParams);; Ok (json_object []))
  else if decide (method = "tools/list") then
    raising (params ← parse_params params;
             reject_protocol_cursor (PaginationParams.cursor params);;
             Ok (json_object [("tools", Value_Array (tool_definitions mutation_enabled))]))
  else if decide (method = "tools/call") then
    request ←? raising (parse_params params);
    call_tool request
  else if decide (method = "resources/list") then
    raising (params ← parse_params params;
             reject_protocol_cursor (PaginationParams.cursor params)) ;;?
    list_resources
  else if decide (method = "resources/read") then
    request ←? raising (parse_params params);
    read_resource request
  else raising (Err RpcFailure.method_not_found).

(** [object.insert] where the value is an object. *)
Definition value_insert (key : string) (v : Value) (value : Value) : Value :=
  match value with
  | Value_Object object => Value_Object (bt_insert key v object)
  | _ => value
  end.

Definition private_ttl (value : Value) : Value :=
  value_insert "cacheScope" (Value_String "private")
    (value_insert "ttlMs" (Value_Integer 0) value).

Definition complete (value : Value) : Value :=
  value_insert "resultType" (Value_String "complete") value.

Definition discovery : Value :=
  json_object
    [("supportedVersions", strings ["2026-07-28"]); ("capabilities", server_capabilities);
     ("_meta", json_object [("io.modelcontextprotocol/serverInfo", server_info)]);
     ("instructions", Value_String ("Use semantic names and typed LSQ/LSM documents; "
        +:+ "raw SQL and request-selected database authority are not supported."));
     ("ttlMs", Value_Integer 0); ("cacheScope", Value_String "private")].

(** [dispatch_modern] on the parameters without [_meta]. *)
Definition modern_result (method : string) (params : Value) : rpc Value :=
  if decide (method = "server/discover") then
    raising ((parse_params params : result RpcFailure EmptyParams);; Ok discovery)
  else if decide (method = "ping") then
    raising ((parse_params params : result RpcFailure EmptyParams);; Ok (json_object []))
  else if decide (method = "tools/list") then
    raising (params ← parse_params params;
             reject_protocol_cursor (PaginationParams.cursor params);;
             Ok (json_object
                   [("tools", Value_Array (tool_definitions mutation_enabled));
                    ("ttlMs", Value_Integer 0); ("cacheScope", Value_String "private")]))
  else if decide (method = "tools/call") then
    request ←? raising (parse_params params);
    uncancelled (call_tool_with_cancel request)
  else if decide (method = "resources/list") then
    raising (params ← parse_params params;
             reject_protocol_cursor (PaginationParams.cursor params)) ;;?
    result ←? list_resources;
    Ret (Ok (private_ttl result))
  else if decide (method = "resources/read") then
    request ←? raising (parse_params params);
    read_resource request
  else raising (Err RpcFailure.method_not_found).

Definition dispatch_modern (method : string) (params : Value) : rpc Value :=
  match params with
  | Value_Object parameters =>
      result ←? modern_result method (Value_Object (map_remove "_meta" parameters));
      Ret (Ok (complete result))
  | _ => raising (Err RpcFailure.invalid_params)
  end.

Definition dispatch_modern_with_cancel (method : string) (params : Value) : rpc Value :=
  match params with
  | Value_Object parameters =>
      let params := Value_Object (map_remove "_meta" parameters) in
      if decide (method = "tools/call") then
        request ←? raising (parse_params params);
        result ←? call_tool_with_cancel request;
        Ret (Ok (complete result))
      else dispatch_modern method params
  | _ => raising (Err RpcFailure.invalid_params)
  end.
End server.
