(* ===== verification/McpStdio.v ===== *)
(** * The MCP server over standard input and output ([mcp.rs])

    Lines are read with a bound on their length, each is answered by at most one
    message, and every request is logged.  A reader is what the successive reads
    of the stream behind it yield; the loops take fuel, and [reader_size] bounds
    what they need. *)

From S2P Require Import RateLimit Database PublishedModel Executor MutationExecutor Prelude.
From S2P Require Import Ordered Text StrOps Json Lsq Semantic Compiler Lsm Mutation Effects Mcp.
From S2P Require Import McpParams McpPublic McpTools.

(** ** Buffered reading *)

(** [io::Error]. *)
Definition io_error : Type := string.

(** [BufReader]: the bytes that are buffered and what the reads to come yield; a
    read of no bytes, or none at all, is the end of the file. *)
Module Reader.
Record Reader : Type := mk {
  buffer : list ascii;
  reads : list (result io_error (list ascii));
}.

Definition fill_buf (r : Reader) : result io_error (list ascii) * Reader :=
  match buffer r, reads r with
  | [], [] => (Ok [], r)
  | [], Ok bytes :: reads => (Ok bytes, mk bytes reads)
  | [], Err e :: reads => (Err e, mk [] reads)
  | buffer, _ => (Ok buffer, r)
  end.

Definition consume (n : nat) (r : Reader) : Reader := mk (drop n (buffer r)) (reads r).
End Reader.
Abbreviation Reader := Reader.Reader.

(** [iter().position(..)] of the first line feed. *)
Fixpoint newline_position (bytes : list ascii) : option nat :=
  match bytes with
  | [] => None
  | c :: rest => if decide (c = newline) then Some 0 else S <$> newline_position rest
  end.

Module LineRead.
Inductive LineRead : Type := Eof | Line (line : list ascii) | Oversized.
End LineRead.
Abbreviation LineRead := LineRead.LineRead.

Definition carriage_return : ascii := byte_of 13.

(** [if line.last() == Some(&b'\r') { line.pop(); }]. *)
Definition pop_carriage_return (line : list ascii) : list ascii :=
  if decide (last line = Some carriage_return) then removelast line else line.

Definition finish_line (line : list ascii) (oversized : bool) : LineRead :=
  if oversized then LineRead.Oversized else LineRead.Line line.

(** The loop of [read_bounded_line]; [None] is a loop that goes on. *)
Fixpoint read_line_loop (fuel : nat) (maximum_bytes : N) (line : list ascii)
    (oversized read_any : bool) (reader : Reader) : option (result io_error LineRead * Reader) :=
  match fuel with
  | 0 => None
  | S fuel =>
      match Reader.fill_buf reader with
      | (Err e, reader) => Some (Err e, reader)
      | (Ok [], reader) =>
          Some (Ok (if negb read_any then LineRead.Eof else finish_line line oversized), reader)
      | (Ok buffer, reader) =>
          let newline := newline_position buffer in
          let consumed := match newline with Some p => p + 1 | None => length buffer end in
          let content_length := default (length buffer) newline in
          let too_long := bool_decide
            (maximum_bytes < saturating_add (N.of_nat (length line)) (N.of_nat content_length))%N in
          let '(line, oversized) :=
            if oversized then (line, true)
            else if too_long then ([], true) else (line ++ take content_length buffer, false) in
          let reader := Reader.consume consumed reader in
          match newline with
          | Some _ => Some (Ok (finish_line (pop_carriage_return line) oversized), reader)
          | None => read_line_loop fuel maximum_bytes line oversized true reader
          end
      end
  end.

(** Bytes and reads to come. *)
Definition reads_size (reads : list (result io_error (list ascii))) : nat :=
  list_sum (map (fun read => match read with Ok bytes => S (length bytes) | Err _ => 1 end) reads).
Definition reader_size (r : Reader) : nat := length (Reader.buffer r) + reads_size (Reader.reads r).

Definition read_bounded_line (reader : Reader) (maximum_bytes : N)
    : option (result io_error LineRead * Reader) :=
  read_line_loop (S (reader_size reader)) maximum_bytes [] false false reader.

(** ** Calls of the server *)

Inductive StdioOp : Type :=
| Db (op : operation)
(** [eprintln!] *)
| Eprintln (log : Value)
(** [serde_json::to_writer], [write_all] and [flush] on standard output *)
| ToWriter (message : Value)
| WriteAll (bytes : string)
| Flush.

Definition StdioRes (op : StdioOp) : Type :=
  match op with
  | Db op => answer op
  | Eprintln _ => result io_error unit
  | ToWriter _ => result string unit
  | WriteAll _ | Flush => result io_error unit
  end.

Abbreviation stdio := (prog StdioRes).

(** A program of the executors, run by the server. *)
Fixpoint on_database {A} (p : io A) : stdio A :=
  match p with
  | Ret a => Ret a
  | Call op k => Call (Db op : StdioOp) (fun r => on_database (k r))
  end.

Module McpServerError.
Inductive McpServerError : Type :=
| MissingEnvironment (variable : string)
| InvalidEnvironment (variable : string)
| InvalidProject
| ExecutorConfiguration (source : ExecuteError)
| MutationExecutorConfiguration (source : MutationExecuteError)
| Io (source : io_error)
| Serialization (source : string).
End McpServerError.
Abbreviation McpServerError := McpServerError.McpServerError.

(** [u64::try_from(millis).unwrap_or(u64::MAX)]; [eprintln!] panics where standard
    error cannot be written, which is [false]. *)
Definition log_request (method : string) (tool : option string) (status code : string)
    : stdio bool :=
  elapsed ← on_database (call Elapsed);
  printed ← call (Res := StdioRes) (Eprintln (json_object
    [("event", Value_String "mcp_request"); ("method", Value_String method);
     ("tool", nullable_value Value_String tool); ("status", Value_String status);
     ("code", Value_String code);
     ("elapsed_ms", value_of_N (N.min (as_millis elapsed) USIZE_MAX))]));
  Ret (is_ok printed).

(** What is returned once the request is logged; [None] is a panic. *)
Definition then_return {A} (log : stdio bool) (a : A) : stdio (option A) :=
  logged ← log; Ret (if logged : bool then Some a else None).

Definition write_message (message : Value) : stdio (result McpServerError unit) :=
  attempt McpServerError.Serialization (call (ToWriter message)) ;;?
  attempt McpServerError.Io (call (WriteAll nl)) ;;?
  attempt McpServerError.Io (call Flush).

(** ** Requests *)

Definition invalid_request (id : Value) : Value :=
  rpc_error id (-32600) "invalid request" "MCP_INVALID_REQUEST".

(** A request that is rejected before it is dispatched. *)
Definition reject_request (code : string) (response : Value) : stdio (option (option Value)) :=
  then_return (log_request "unknown" None "error" code) (Some response).

Section server.
Context `{Crates, ModelParsers, Driver, LsqParser, LsmParser, JsonText, Schemas}.
Context (config : McpConfig).

(** The answer to a dispatched request: none to a notification. *)
Definition answer_request (id : option Value) (method : string) (params : Value)
    : stdio (option (option Value)) :=
  let public_method := public_method_name method in
  let public_tool := public_tool_name method params in
  dispatched ← on_database (dispatch config method params);
  match dispatched with
  | Err Thrown.Panic => Ret None
  | Ok result =>
      match id with
      | None => then_return (log_request public_method public_tool "success" "OK") None
      | Some id =>
          let '(status, code) := tool_result_status result in
          then_return (log_request public_method public_tool status code)
            (Some (rpc_result id result))
      end
  | Err (Thrown.Raised error) =>
      then_return (log_request public_method public_tool "error" (RpcFailure.public_code error))
        (match id with
         | None => None
         | Some id => Some (rpc_error id (RpcFailure.rpc_code error)
                              (RpcFailure.message error) (RpcFailure.public_code error))
         end)
  end.

(** [Some] of the response, if any; [None] is a panic. *)
Definition handle_line (line : string) : stdio (option (option Value)) :=
  match value_from_slice line with
  | None =>
      reject_request "MCP_PARSE_ERROR" (rpc_error Value_Null (-32700) "parse error" "MCP_PARSE_ERROR")
  | Some message =>
  match as_object message with
  | None => reject_request "MCP_INVALID_REQUEST" (invalid_request Value_Null)
  | Some object =>
  if decide ((valid_request_id <$> bt_get "id" object) = Some false) then
    reject_request "MCP_INVALID_REQUEST" (invalid_request Value_Null)
  else
  let id := bt_get "id" object in
  match str_field "method" object with
  | Some method =>
      if decide (str_field "jsonrpc" object = Some "2.0") then
        let params := default (json_object []) (bt_get "params" object) in
        answer_request id method params
      else reject_request "MCP_INVALID_REQUEST" (invalid_request (default Value_Null id))
  | None => reject_request "MCP_INVALID_REQUEST" (invalid_request (default Value_Null id))
  end end end.

(** ** The loop *)

Definition MAX_REQUEST_LINE_BYTES : N := 1048576.

(** How serving ends: the value of the function, a panic, or no fuel. *)
Inductive Served : Type :=
| Returned (r : result McpServerError unit)
| Unwound
| OutOfFuel.

(** A response is written before the next line is read. *)
Definition then_write (message : Value) (rest : stdio Served) : stdio Served :=
  written ← write_message message;
  match written with Ok _ => rest | Err e => Ret (Returned (Err e)) end.

Fixpoint serve_io (fuel : nat) (reader : Reader) : stdio Served :=
  match fuel with
  | 0 => Ret OutOfFuel
  | S fuel =>
      match read_bounded_line reader MAX_REQUEST_LINE_BYTES with
      | None => Ret OutOfFuel
      | Some (Err e, _) => Ret (Returned (Err (McpServerError.Io e)))
      | Some (Ok LineRead.Eof, _) => Ret (Returned (Ok tt))
      | Some (Ok LineRead.Oversized, reader) =>
          logged ← log_request "unknown" None "error" "MCP_REQUEST_TOO_LARGE";
          if logged : bool
          then then_write (rpc_error Value_Null (-32600) "request line is too large"
                             "MCP_REQUEST_TOO_LARGE") (serve_io fuel reader)
          else Ret Unwound
      | Some (Ok (LineRead.Line line), reader) =>
          if forallb is_ascii_whitespace line then serve_io fuel reader else
          handled ← handle_line (String.string_of_list_ascii line);
          match handled with
          | None => Ret Unwound
          | Some None => serve_io fuel reader
          | Some (Some response) => then_write response (serve_io fuel reader)
          end
      end
  end.

(** Serving until the input ends. *)
Definition serve_reader (reader : Reader) : stdio Served :=
  serve_io (S (reader_size reader)) reader.
End server.

(** ** Configuration *)

Section configuration.
Context (var : environment).

Definition required_environment (variable : string) : result McpServerError string :=
  map_err (fun error => match error with
           | NotPresent => McpServerError.MissingEnvironment variable
           | NotUnicode => McpServerError.InvalidEnvironment variable
           end) (var variable).

Definition environment_or (variable default : string) : result McpServerError string :=
  match var variable with
  | Ok value => Ok value
  | Err NotPresent => Ok default
  | Err NotUnicode => Err (McpServerError.InvalidEnvironment variable)
  end.

Definition mutation_executor_from_environment (audit_url audit_password : string)
    : result McpServerError (option MutationExecutorConfig) :=
  match var "POSTGRESEM_MCP_MUTATION_URL_ENV" with
  | Ok mutation_url =>
      mutation_password ← environment_or "POSTGRESEM_MCP_MUTATION_PASSWORD_ENV"
                            "POSTGRESEM_MUTATION_RUNTIME_PASSWORD";
      mutation_role ← environment_or "POSTGRESEM_MCP_MUTATION_DB_ROLE_ENV"
                        "POSTGRESEM_MUTATION_DB_ROLE";
      mutation ← map_err McpServerError.MutationExecutorConfiguration
                   (MutationExecutor.from_environment_with_passwords var mutation_url
                      (Some mutation_password) audit_url (Some audit_password) mutation_role);
      Ok (Some mutation)
  | Err NotPresent => Ok None
  | Err NotUnicode =>
      Err (McpServerError.InvalidEnvironment "POSTGRESEM_MCP_MUTATION_URL_ENV")
  end.

Definition from_environment : result McpServerError McpConfig :=
  project ← required_environment "POSTGRESEM_MCP_PROJECT";
  fail_if (trim_is_empty project) McpServerError.InvalidProject;;
  runtime_url ← environment_or "POSTGRESEM_MCP_RUNTIME_URL_ENV" "DATABASE_URL";
  audit_url ← environment_or "POSTGRESEM_MCP_AUDIT_URL_ENV" "POSTGRESEM_AUDIT_DATABASE_URL";
  database_role ← environment_or "POSTGRESEM_MCP_DB_ROLE_ENV" "POSTGRESEM_DB_ROLE";
  runtime_password ← environment_or "POSTGRESEM_MCP_RUNTIME_PASSWORD_ENV"
                       "POSTGRESEM_RUNTIME_PASSWORD";
  audit_password ← environment_or "POSTGRESEM_MCP_AUDIT_PASSWORD_ENV"
                     "POSTGRESEM_AUDIT_WRITER_PASSWORD";
  executor ← map_err McpServerError.ExecutorConfiguration
               (Executor.from_environment_with_passwords var runtime_url (Some runtime_password)
                  audit_url (Some audit_password) database_role);
  mutation_executor ← mutation_executor_from_environment audit_url audit_password;
  execution_context ← map_err McpServerError.ExecutorConfiguration
                        (new "mcp:stdio" "mcp-stdio");
  Ok (McpConfig.mk project executor mutation_executor execution_context).
End configuration.

(** [serve]: the configuration of the process, then the loop on its input. *)
Definition serve `{Crates, ModelParsers, Driver, LsqParser, LsmParser, JsonText, Schemas}
    (var : environment) (stdin : Reader) : stdio Served :=
  match from_environment var with
  | Err e => Ret (Returned (Err e))
  | Ok config => serve_reader config stdin
  end.
