(* ===== verification/McpSpec.v ===== *)
(** * What the MCP methods promise

    The failures a client can see, the calls a method makes that executes no
    statement, and how the runs of a dispatched method are those of its tool. *)

From S2P Require Import ExecutorSpec MutationExecutorSpec RateLimit PublishedModel Executor.
From S2P Require Import MutationExecutor Prelude Ordered Text StrOps Json Lsq Semantic Compiler.
From S2P Require Import Lsm LsqSpec LsmSpec Mutation Effects Database PublishedModelSpec MutationSpec.
From S2P Require Import MutationTheorems Mcp McpParams McpPublic McpTools.

(** ** What a program can return *)

Section ends.
Context {Op : Type} {Res : Op -> Type}.

(** Whatever is answered, the value satisfies [P]. *)
Definition ends {A} (p : prog Res A) (P : A -> Prop) : Prop := forall tr a, runs p tr a -> P a.

Lemma ends_ret {A} (a : A) (P : A -> Prop) : P a -> ends (Ret a) P.
Proof. intros Ha tr b [_ ->]. done. Qed.

Lemma ends_bind {A B} (p : prog Res A) (f : A -> prog Res B) P Q :
  ends p P -> (forall a, P a -> ends (f a) Q) -> ends (p ≫= f) Q.
Proof. intros Hp Hf tr b (tr1 & a & tr2 & _ & H1%Hp & H2)%runs_bind. by eapply Hf. Qed.

Lemma ends_any {A} (p : prog Res A) : ends p (fun _ => True).
Proof. done. Qed.

(** [F] holds of the errors a program can end in. *)
Definition fails {E A} (p : prog Res (result E A)) (F : E -> Prop) : Prop :=
  ends p (fun r => forall e, r = Err e -> F e).

Lemma fails_try {E A B} (p : prog Res (result E A)) (f : A -> prog Res (result E B)) F :
  fails p F -> (forall a, fails (f a) F) -> fails (try_bind p f) F.
Proof.
  intros Hp Hf. eapply ends_bind; [exact Hp|]. intros [a|e] Hr; [apply Hf|].
  apply ends_ret. intros e' [= <-]. by apply Hr.
Qed.

Lemma fails_lift {E A} (m : result E A) F : (forall e, m = Err e -> F e) -> fails (lift m) F.
Proof. intros Hm. by apply ends_ret. Qed.

Lemma fails_ok {E A} (a : A) (F : E -> Prop) : fails (Ret (Ok a)) F.
Proof. by apply ends_ret. Qed.

Lemma fails_attempt {D E A} (err : D -> E) (p : prog Res (result D A)) F G :
  fails p G -> (forall d, G d -> F (err d)) -> fails (attempt err p) F.
Proof.
  intros Hp Hd. eapply ends_bind; [exact Hp|]. intros [a|d] Hr; apply ends_ret; intros e [= <-].
  by apply Hd, Hr.
Qed.

Lemma fails_attempt_any {D E A} (err : D -> E) (p : prog Res (result D A)) F :
  (forall d, F (err d)) -> fails (attempt err p) F.
Proof. intros Hd. apply (fails_attempt _ _ _ (fun _ => True)); [by intros tr a|by intros d _]. Qed.

(** [P] holds of the values a program can succeed with. *)
Definition gives {E A} (p : prog Res (result E A)) (P : A -> Prop) : Prop :=
  ends p (fun r => forall a, r = Ok a -> P a).

Lemma gives_ok {E A} (a : A) (P : A -> Prop) : P a -> gives (E := E) (Ret (Ok a)) P.
Proof. intros Ha. apply ends_ret. by intros ? [= <-]. Qed.

Lemma gives_try {E A B} (p : prog Res (result E A)) (f : A -> prog Res (result E B)) P Q :
  gives p P -> (forall a, P a -> gives (f a) Q) -> gives (try_bind p f) Q.
Proof.
  intros Hp Hf. eapply ends_bind; [exact Hp|]. intros [a|e] Hr; [by apply Hf, Hr|].
  by apply ends_ret.
Qed.

Lemma gives_any {E A} (p : prog Res (result E A)) : gives p (fun _ => True).
Proof. by intros tr a _. Qed.

Lemma gives_lift {E A} (m : result E A) : gives (lift m) (fun a => m = Ok a).
Proof. by apply ends_ret. Qed.

Lemma gives_attempt {D E A} (err : D -> E) (p : prog Res (result D A)) P :
  gives p P -> gives (attempt err p) P.
Proof.
  intros Hp. eapply ends_bind; [exact Hp|]. intros [a|d] Hr; apply ends_ret; intros b [= <-].
  by apply Hr.
Qed.
End ends.

(** ** Failures *)

(** One error of each kind. *)
Definition lsq_errors : list LsqError :=
  [LsqError.InvalidJson ""; LsqError.UnsupportedSchemaVersion ""; LsqError.EmptyModel;
   LsqError.EmptyProjection; LsqError.EmptyReference; LsqError.DuplicateReference "";
   LsqError.DuplicateOrderReference ""; LsqError.InvalidLiteralValue ""; LsqError.InvalidLimit;
   LsqError.FilterTooDeep; LsqError.FilterTooLarge; LsqError.EmptyLogicalFilter;
   LsqError.InvalidInFilterSize].

Definition compile_errors : list CompileError :=
  [CompileError.UnsupportedSnapshotVersion ""; CompileError.InvalidRevisionHash;
   CompileError.UnknownModel; CompileError.UnknownField ""; CompileError.UnknownMetric "";
   CompileError.HiddenField ""; CompileError.HiddenMetric ""; CompileError.InvalidTimeGrain "";
   CompileError.LiteralTypeMismatch ""; CompileError.UnknownOrderReference "";
   CompileError.UnknownRelationship ""; CompileError.UnsafeRelationship "";
   CompileError.MissingMetricMetadata ""; CompileError.InvalidAggregationAnchor "";
   CompileError.MissingAggregationAnchor ""; CompileError.MixedAggregationAnchors;
   CompileError.JoinedMetricFilter ""; CompileError.UnsupportedFanoutAdditivity "";
   CompileError.InvalidMetricField ""; CompileError.JoinedMetricField "";
   CompileError.CountDistinctRequiresEntityKey ""; CompileError.CountRequiresEntityKey "";
   CompileError.InvalidMetricType ""; CompileError.InvalidRelationshipTarget "";
   CompileError.RelationshipTargetNotEntityKey ""; CompileError.MissingTimezone "";
   CompileError.HashSerialization; CompileError.InvalidLimitConfiguration;
   CompileError.LimitExceeded].

Definition lsm_errors : list LsmError :=
  [LsmError.InputTooLarge; LsmError.InvalidJson ""; LsmError.UnsupportedSchemaVersion "";
   LsmError.InvalidModel; LsmError.InvalidIdempotencyKey; LsmError.InvalidRowCount;
   LsmError.InvalidFieldCount; LsmError.InvalidFieldName; LsmError.InconsistentRowFields;
   LsmError.InvalidValue].

Definition mutation_compile_errors : list MutationCompileError :=
  [MutationCompileError.UnsupportedSnapshotVersion ""; MutationCompileError.InvalidRevisionHash;
   MutationCompileError.InvalidLimitConfiguration; MutationCompileError.ModelNotWritable;
   MutationCompileError.OperationNotEnabled; MutationCompileError.RowLimitExceeded;
   MutationCompileError.RequestByteLimitExceeded; MutationCompileError.InvalidWritableModel;
   MutationCompileError.FieldNotWritable ""; MutationCompileError.RequiredFieldMissing "";
   MutationCompileError.FieldTypeMismatch ""; MutationCompileError.NullNotAllowed "";
   MutationCompileError.ConflictFieldMissing ""; MutationCompileError.NoUpdatableField;
   MutationCompileError.HashSerialization].

(** The codes of the mutation executor with a general text. *)
Definition mutation_failure_codes : list string :=
  ["MUTATION_DATABASE_ROLE_NOT_FOUND"; "MUTATION_DATABASE_ROLE_MEMBERSHIP_DENIED";
   "MUTATION_UNSAFE_DATABASE_ROLE"; "MUTATION_TARGET_RELATION_NOT_FOUND";
   "MUTATION_TARGET_RELATION_OWNER"; "MUTATION_UNSAFE_TARGET_RELATION";
   "MUTATION_DATABASE_REJECTED"; "MUTATION_INVALID_ROW_SHAPE"; "MUTATION_RESULT_BYTES_EXCEEDED";
   "MUTATION_AFFECTED_ROWS_MISMATCH"; "MUTATION_ATOMIC_AUDIT_FAILED";
   "MUTATION_INVALID_REPLAY_RESULT"; "MUTATION_RECONCILIATION_FAILED";
   "MUTATION_INVALID_IDEMPOTENCY_KEY"; "MUTATION_GUARD_CONFIGURATION_FAILED"].

(** Every failure of a tool: a fixed list, whatever was requested or answered. *)
Definition public_failures : list ToolFailure :=
  map ToolFailure.from_lsq lsq_errors
  ++ map ToolFailure.from_compile compile_errors
  ++ map (fun e => ToolFailure.new (LsmError.code e) (public_lsm_message e)) lsm_errors
  ++ map (fun e => ToolFailure.new (MutationCompileError.code e)
                     (public_mutation_compile_message e)) mutation_compile_errors
  ++ map (fun code => ToolFailure.new code "semantic mutation failed") mutation_failure_codes
  ++ [ToolFailure.internal; snapshot_unavailable; mutation_disabled; invalid_cursor;
      ToolFailure.new "EXECUTOR_QUERY_CANCELLED" "semantic query was cancelled";
      ToolFailure.new "EXECUTOR_RESULT_SERIALIZATION_FAILED"
        "semantic query result could not be serialized";
      ToolFailure.new "EXECUTOR_QUERY_FAILED" "semantic query execution failed";
      ToolFailure.new "MUTATION_IDEMPOTENCY_CONFLICT"
        "idempotency key was already used for a different mutation";
      ToolFailure.new "MUTATION_COMMIT_INDETERMINATE"
        "mutation outcome is indeterminate; retry with the same idempotency key";
      ToolFailure.new "MUTATION_CANCELLED" "semantic mutation was cancelled";
      ToolFailure.new "SEMANTIC_MODEL_NOT_AVAILABLE" "semantic model is not available";
      ToolFailure.new "MCP_INVALID_PAGINATION" "limit must be between 1 and 100";
      ToolFailure.new "MCP_TOOL_SCHEMA_VERSION_UNSUPPORTED" "tool schema version is not supported"].

(** An error of the list, and no panic. *)
Definition is_public (t : Thrown ToolFailure) : Prop :=
  exists f, t = Thrown.Raised f /\ f ∈ public_failures.

#[export] Instance ToolFailure_eq_dec : EqDecision ToolFailure.
Proof. solve_decision. Defined.

(** Membership of a closed failure. *)
Ltac listed := apply (bool_decide_unpack _); vm_compute; exact I.

Lemma raised_public f : f ∈ public_failures -> is_public (Thrown.Raised f).
Proof. intros Hf. by exists f. Qed.

(** Finds the element of a list that evaluates to a given one. *)
Ltac find_in_list := repeat first [by apply list_elem_of_here | apply list_elem_of_further].

Lemma from_lsq_public e : ToolFailure.from_lsq e ∈ public_failures.
Proof. apply elem_of_app. left. destruct e; simpl; find_in_list. Qed.

Lemma from_compile_public e : ToolFailure.from_compile e ∈ public_failures.
Proof. apply elem_of_app. right. apply elem_of_app. left. destruct e; simpl; find_in_list. Qed.

Lemma from_lsm_public e :
  ToolFailure.new (LsmError.code e) (public_lsm_message e) ∈ public_failures.
Proof. do 2 (apply elem_of_app; right). apply elem_of_app. left. destruct e; simpl; find_in_list. Qed.

Lemma from_mutation_compile_public e :
  ToolFailure.new (MutationCompileError.code e) (public_mutation_compile_message e)
  ∈ public_failures.
Proof. do 3 (apply elem_of_app; right). apply elem_of_app. left. destruct e; simpl; find_in_list. Qed.

Lemma mutation_code_public code :
  code ∈ mutation_failure_codes ->
  ToolFailure.new code "semantic mutation failed" ∈ public_failures.
Proof.
  intros Hc. do 4 (apply elem_of_app; right). apply elem_of_app. left.
  by apply (list_elem_of_fmap_2 (fun c => ToolFailure.new c _)).
Qed.

Lemma from_execute_public e : ToolFailure.from_execute e ∈ public_failures.
Proof. destruct e; simpl; auto using from_lsq_public, from_compile_public; listed. Qed.

Lemma from_mutation_execute_public e :
  e <> MutationExecuteError.Panic -> is_public (ToolFailure.from_mutation_execute e).
Proof.
  intros He. destruct e; try done; simpl; apply raised_public;
    first [apply from_lsm_public | apply from_mutation_compile_public
          | apply mutation_code_public; simpl; find_in_list | listed].
Qed.

Create HintDb public.
#[export] Hint Resolve from_lsq_public from_compile_public from_execute_public
  raised_public : public.
#[export] Hint Extern 2 (_ ∈ public_failures) => listed : public.

(** ** Tools fail publicly *)

Section tools.
Context `{HC : Crates, HM : ModelParsers, HD : Driver, HL : LsqParser, HLm : LsmParser}.
Context `{HJ : JsonText, HS : Schemas} (config : McpConfig).

Lemma raising_fails {A} (m : result ToolFailure A) :
  (forall e, m = Err e -> e ∈ public_failures) -> fails (raising m : tool A) is_public.
Proof.
  intros Hm. apply fails_lift. intros t Ht. destruct m as [a|e]; [done|]. simplify_eq/=.
  apply raised_public. by apply Hm.
Qed.

Lemma raising_guard_fails (b : bool) e :
  e ∈ public_failures -> fails (raising (fail_if b e) : tool unit) is_public.
Proof. intros He. apply raising_fails. by intros e' [_ <-]%fail_if_err. Qed.

Lemma raising_ok_or_fails {A} (o : option A) e :
  e ∈ public_failures -> fails (raising (ok_or o e) : tool A) is_public.
Proof. intros He. apply raising_fails. by intros e' [_ <-]%ok_or_err. Qed.

Lemma load_published_fails : fails (load_published config) is_public.
Proof.
  apply fails_try; [|intros _]; apply fails_attempt_any; intros; auto with public.
Qed.

Lemma load_published_mutation_fails : fails (load_published_mutation config) is_public.
Proof.
  apply fails_try; [apply raising_ok_or_fails; auto with public|]. intros mutation.
  apply fails_try; [|intros _]; apply fails_attempt_any; intros; auto with public.
Qed.

Lemma parse_u64_bound s n : parse_u64 s = Some n -> (n <= USIZE_MAX)%N.
Proof.
  unfold parse_u64. cbv zeta. case_decide; [done|]. intros (k & _ & Hk)%bind_Some.
  case_decide; [|done]. by simplify_eq.
Qed.

Lemma parse_cursor_err cursor revision authority_id e :
  parse_cursor cursor revision authority_id = Err e -> e = invalid_cursor.
Proof.
  destruct cursor as [cursor|]; [|done]. unfold parse_cursor.
  destruct (split _ cursor) as [|v [|r [|a [|o [|x l]]]]]; try (by intros [= <-]).
  intros [He|(_ & _ & [He|(_ & _ & He)]%bind_err)]%bind_err.
  1,2: by apply fail_if_err in He as [_ <-].
  by apply ok_or_err in He as [_ <-].
Qed.

Lemma parse_cursor_bound cursor revision authority_id n :
  parse_cursor cursor revision authority_id = Ok n -> (n <= USIZE_MAX)%N.
Proof.
  destruct cursor as [cursor|]; [|by intros [= <-]]. unfold parse_cursor.
  destruct (split _ cursor) as [|v [|r [|a [|o [|x l]]]]]; try done.
  intros Hn. unbind. by eapply parse_u64_bound.
Qed.

(** The page is a slice in range. *)
Lemma page_in_range {E A} (offset limit : N) (l : list A) :
  (offset <= USIZE_MAX)%N -> (offset <= N.of_nat (length l))%N ->
  slice_of (E := E) offset (N.min (saturating_add offset limit) (N.of_nat (length l))) l
  = Ok (take (N.to_nat (N.min (saturating_add offset limit) (N.of_nat (length l)))
              - N.to_nat offset) (drop (N.to_nat offset) l)).
Proof.
  intros Ho Hl. unfold slice_of, saturating_add.
  rewrite !bool_decide_true by lia. done.
Qed.

Lemma list_page_fails published cursor limit t :
  list_page config published cursor limit = Err t -> is_public t.
Proof.
  unfold list_page. cbv zeta. intros [He|(offset & Ho & He)]%bind_err.
  - destruct (parse_cursor _ _ _) eqn:Hp; simplify_eq/=. apply parse_cursor_err in Hp as ->.
    auto with public.
  - apply map_err_ok, parse_cursor_bound in Ho. apply bind_err in He as [He|([] & Hg & He)].
    + apply fail_if_err in He as [_ <-]. auto with public.
    + apply fail_if_ok, bool_decide_eq_false in Hg. rewrite page_in_range in He by lia. done.
Qed.

Lemma list_semantic_models_fails params : fails (list_semantic_models config params) is_public.
Proof.
  unfold list_semantic_models, validate_tool_version. cbv zeta.
  do 2 (apply fails_try; [apply raising_guard_fails; auto with public|intros _]).
  apply fails_try; [apply load_published_fails|intros published].
  apply fails_lift. apply list_page_fails.
Qed.

Lemma describe_semantic_model_fails params :
  fails (describe_semantic_model config params) is_public.
Proof.
  unfold describe_semantic_model, validate_tool_version, find_queryable_model. cbv zeta.
  apply fails_try; [apply raising_guard_fails; auto with public|intros _].
  apply fails_try; [apply load_published_fails|intros published].
  apply fails_try; [apply raising_ok_or_fails; auto with public|intros model]. apply fails_ok.
Qed.

Lemma validate_semantic_query_fails params :
  fails (validate_semantic_query config params) is_public.
Proof.
  unfold validate_semantic_query, validate_tool_version.
  apply fails_try; [apply raising_guard_fails; auto with public|intros _].
  apply fails_try; [apply load_published_fails|intros published]. apply fails_ok.
Qed.

Lemma map_err_public {E A} (f : E -> ToolFailure) (m : result E A) e :
  (forall e, f e ∈ public_failures) -> map_err f m = Err e -> e ∈ public_failures.
Proof. intros Hf. by destruct m; intros [= <-]. Qed.

Lemma explained_query_fails snapshot lsq e :
  explained_query snapshot lsq = Err e -> e ∈ public_failures.
Proof.
  unfold explained_query. intros [He|(? & _ & [He|(? & _ & [He|(? & _ & He)]%bind_err)]%bind_err)]%bind_err.
  - eapply map_err_public; [|exact He]. auto with public.
  - eapply map_err_public; [|exact He]. auto with public.
  - apply ok_or_err in He as [_ <-]. auto with public.
  - done.
Qed.

Lemma explain_semantic_query_fails params :
  fails (explain_semantic_query config params) is_public.
Proof.
  unfold explain_semantic_query, validate_tool_version.
  apply fails_try; [apply raising_guard_fails; auto with public|intros _].
  apply fails_try; [apply load_published_fails|intros published].
  apply raising_fails, explained_query_fails.
Qed.

Lemma query_semantic_model_fails params :
  fails (query_semantic_model_with_cancel config params) is_public.
Proof.
  unfold query_semantic_model_with_cancel, validate_tool_version.
  apply fails_try; [apply raising_guard_fails; auto with public|intros _].
  apply fails_try; [apply raising_fails; intros e; apply map_err_public; auto with public|].
  intros normalized. apply fails_try; [apply raising_ok_or_fails; auto with public|intros input].
  apply fails_try; [|intros result; apply fails_ok].
  apply fails_attempt_any. auto with public.
Qed.

(** Validation cannot panic: the rows of a normalised mutation are not empty. *)
Lemma validated_mutation_ok published lsm : exists v, validated_mutation published lsm = Ok v.
Proof.
  unfold validated_mutation. cbv zeta. destruct (normalize_mutation_value lsm) as [n|e] eqn:Hn; [|eauto].
  unfold normalize_mutation_value in Hn. unbind.
  match goal with H : normalize_lsm _ _ _ = Ok _ |- _ =>
    destruct (normalize_lsm_ok _ _ _ _ H) as (_ & Hok & _) end.
  destruct (compile_lsm _ _ _ _) as [compiled|[e|]] eqn:Hc; [|eauto|].
  - unfold public_mutation_lineage. pose proof (mu_count _ Hok) as Hrows.
    destruct (Lsm.rows _) as [|first rest]; simpl in *; [lia|eauto].
  - by apply (compile_lsm_no_panic _ _ _ _ Hok) in Hc.
Qed.

Lemma validate_semantic_mutation_fails params :
  fails (validate_semantic_mutation config params) is_public.
Proof.
  unfold validate_semantic_mutation, validate_tool_version.
  apply fails_try; [apply raising_guard_fails; auto with public|intros _].
  apply fails_try; [apply load_published_mutation_fails|intros published].
  apply fails_lift. destruct (validated_mutation_ok published (MutationToolParams.lsm params)) as [v ->].
  done.
Qed.

(** The mutation executor never panics. *)
Lemma mutation_executor_fails project mutation context input :
  fails (MutationExecutor.execute_with_cancel project mutation context input)
    (fun e => e <> MutationExecuteError.Panic).
Proof.
  intros tr r Hrun e ->.
  destruct (monitored_runs _ _ _ _ _ _ _
              (execute_concludes input project mutation context) Hrun) as (_ & _ & Hf & _).
  exact Hf.
Qed.

Lemma mutate_semantic_model_fails params :
  fails (mutate_semantic_model_with_cancel config params) is_public.
Proof.
  unfold mutate_semantic_model_with_cancel, validate_tool_version, mutation_config.
  apply fails_try; [apply raising_guard_fails; auto with public|intros _].
  do 2 (apply fails_try; [apply raising_ok_or_fails; auto with public|intros ?]).
  apply fails_try; [|intros result; apply fails_ok].
  eapply fails_attempt; [apply mutation_executor_fails|apply from_mutation_execute_public].
Qed.

Lemma reconcile_fails project mutation context key :
  fails (reconcile project mutation context key) (fun e => e <> MutationExecuteError.Panic).
Proof.
  unfold reconcile, connect_audit, legacy_mutation_authority_hash.
  apply fails_try; [apply fails_lift; by intros e [_ <-]%fail_if_err|intros _].
  apply fails_try; [apply fails_try; [|intros _]; by apply fails_attempt_any|intros _].
  apply fails_try; [|intros legacy; by apply fails_attempt_any].
  apply fails_lift. intros e. by destruct (json_to_string _); intros [= <-].
Qed.

Lemma reconcile_semantic_mutation_fails params :
  fails (reconcile_semantic_mutation config params) is_public.
Proof.
  unfold reconcile_semantic_mutation, validate_tool_version, mutation_config.
  apply fails_try; [apply raising_guard_fails; auto with public|intros _].
  apply fails_try; [apply raising_ok_or_fails; auto with public|intros mutation].
  apply fails_try; [|intros state; apply fails_ok].
  eapply fails_attempt; [apply reconcile_fails|apply from_mutation_execute_public].
Qed.
End tools.

(** ** Answers *)

(** Failures of the protocol: a fixed list too. *)
Definition rpc_failures : list RpcFailure :=
  [RpcFailure.method_not_found; RpcFailure.invalid_params; RpcFailure.invalid_tool_arguments;
   RpcFailure.tool_not_found;
   RpcFailure.resource (ToolFailure.code snapshot_unavailable)
     (ToolFailure.message snapshot_unavailable);
   RpcFailure.resource "MCP_INTERNAL_ERROR" "resource is unavailable";
   RpcFailure.resource "MCP_RESOURCE_NOT_FOUND" "resource is not available"].

Definition is_rpc_failure (t : Thrown RpcFailure) : Prop :=
  exists f, t = Thrown.Raised f /\ f ∈ rpc_failures.

Definition is_digest `{Crates} (hash : string) : Prop := exists text, hash = sha256 text.

(** The two tools that validate report what they reject as data: a failure of the
    list, and besides it only digests, of the document and of the model. *)
Definition reports_publicly `{Crates} (name : string) (data : Value) : Prop :=
  match (if decide (name = "validate_semantic_query") then Some validation_failure
         else if decide (name = "validate_semantic_mutation") then Some mutation_validation_failure
         else None) with
  | None => True
  | Some rejected =>
      value_get "valid" data = Some (Value_Bool true)
      \/ exists f hash revision, f ∈ public_failures
         /\ (forall h, hash = Some h -> is_digest h) /\ is_digest revision
         /\ data = rejected (ToolFailure.code f) (ToolFailure.message f) hash revision
  end.

(** The value of a tool call: a result, or a listed failure. *)
Definition tool_answer `{Crates, JsonText} (name : string) (v : Value) : Prop :=
  (exists data, v = tool_success data /\ reports_publicly name data)
  \/ exists f, f ∈ public_failures /\ v = tool_error f.

Definition answers_publicly `{Crates, JsonText} (name : string)
    (r : result (Thrown RpcFailure) Value) : Prop :=
  match r with Ok v => tool_answer name v | Err t => is_rpc_failure t end.

Section answers.
Context `{HC : Crates, HM : ModelParsers, HD : Driver, HL : LsqParser, HLm : LsmParser}.
Context `{HJ : JsonText, HS : Schemas} (config : McpConfig).

Lemma rpc_raised f : f ∈ rpc_failures -> is_rpc_failure (Thrown.Raised f).
Proof. intros Hf. by exists f. Qed.

Lemma run_tool_answers {P} `{FromValue P} name (body : P -> tool Value) arguments :
  (forall p, fails (body p) is_public) -> (forall p, gives (body p) (reports_publicly name)) ->
  ends (run_tool body arguments) (answers_publicly name).
Proof.
  intros Hbody Hdata. unfold run_tool, parse_tool_arguments. eapply ends_bind.
  - apply (ends_ret _ (fun r => forall t, r = Err t ->
      t = Thrown.Raised RpcFailure.invalid_tool_arguments)).
    intros t. by destruct (from_value arguments); intros [= <-].
  - intros [p|t] Ht; [|rewrite (Ht t eq_refl); apply ends_ret, rpc_raised; find_in_list].
    intros tr r (tr1 & m & tr2 & _ & Hm & [_ ->])%runs_bind. destruct m as [data|t]; simpl.
    + left. exists data. split; [done|]. by eapply Hdata.
    + destruct (Hbody _ _ _ Hm t eq_refl) as (f & -> & Hf). right. eauto.
Qed.

(** A model is returned only under the digest of its content. *)
Lemma read_published_digest c project role :
  gives (read_published c project role) (fun loaded =>
    is_digest (Snapshot.revision_hash (PublishedModel.snapshot loaded.1))).
Proof.
  unfold read_published. cbv zeta. do 11 (eapply gives_try; [apply gives_any|intros ? _]).
  eapply gives_try; [apply gives_any|intros [models writable] _]. eapply gives_try; [apply gives_lift|intros [] Hv].
  apply gives_ok. unfold verify_hash, calculate_revision_hash in Hv. unbind.
  match goal with H : ~ _ <> _ |- _ => apply dec_stable in H; by eexists end.
Qed.

Lemma load_internal_digest c project role :
  gives (load_published_internal c project role) (fun loaded =>
    is_digest (Snapshot.revision_hash (PublishedModel.snapshot loaded.1))).
Proof.
  eapply gives_try; [apply gives_any|intros _ _].
  apply (gives_try _ _ (fun loaded =>
    is_digest (Snapshot.revision_hash (PublishedModel.snapshot loaded.1)))).
  - unfold or_rollback. eapply ends_bind; [apply read_published_digest|]. intros [l|e] Hl.
    + by apply ends_ret.
    + eapply ends_bind; [apply ends_any|]. intros [] _. by apply ends_ret.
  - intros l Hl. eapply gives_try; [apply gives_any|intros _ _]. by apply gives_ok.
Qed.

Lemma load_published_digest :
  gives (load_published config) (fun published =>
    is_digest (Snapshot.revision_hash (PublishedModel.snapshot published))).
Proof.
  eapply gives_try; [apply gives_any|intros _ _]. apply gives_attempt.
  eapply gives_try; [apply load_internal_digest|]. intros l Hl. by apply gives_ok.
Qed.

Lemma load_published_mutation_digest :
  gives (load_published_mutation config) (fun published =>
    is_digest (Snapshot.revision_hash
                 (PublishedModel.snapshot (PublishedMutationModel.published published)))).
Proof.
  do 2 (eapply gives_try; [apply gives_any|intros ? _]). apply gives_attempt.
  eapply gives_try; [apply load_internal_digest|]. intros [p w] Hl. by apply gives_ok.
Qed.

Lemma validate_semantic_query_reports params :
  gives (validate_semantic_query config params) (reports_publicly "validate_semantic_query").
Proof.
  eapply gives_try; [apply gives_any|intros _ _].
  eapply gives_try; [apply load_published_digest|intros published Hp]. apply gives_ok.
  unfold reports_publicly. rewrite decide_True by done. unfold validated_query. cbv zeta.
  destruct (normalize_value _) as [n|e] eqn:Hn.
  - unfold normalize_value in Hn. unbind.
    match goal with H : normalize_lsq _ _ = Ok _ |- _ =>
      apply normalize_lsq_ok in H as (_ & _ & _ & Hh) end.
    destruct (compile_lsq _ _ _) as [compiled|e]; [by left|]. right.
    exists (ToolFailure.from_compile e), (Some (NormalizedLsq.hash n)). eexists.
    split_and!; [apply from_compile_public| |exact Hp|reflexivity]. intros h [= <-]. by eexists.
  - right. exists (ToolFailure.from_lsq e), None. eexists.
    split_and!; [apply from_lsq_public|done|exact Hp|reflexivity].
Qed.

Lemma validate_semantic_mutation_reports params :
  gives (validate_semantic_mutation config params)
    (reports_publicly "validate_semantic_mutation").
Proof.
  eapply gives_try; [apply gives_any|intros _ _].
  eapply gives_try; [apply load_published_mutation_digest|intros published Hp].
  intros tr r [_ ->] data Hd. unfold reports_publicly.
  rewrite decide_False, decide_True by done. unfold validated_mutation in Hd. cbv zeta in Hd.
  destruct (normalize_mutation_value _) as [n|e] eqn:Hn.
  - unfold normalize_mutation_value in Hn. unbind.
    match goal with H : normalize_lsm _ _ _ = Ok _ |- _ =>
      apply normalize_lsm_ok in H as (_ & _ & _ & Hh & _) end.
    destruct (compile_lsm _ _ _ _) as [compiled|[e|]]; [unbind; by left| |done]. right.
    injection Hd as <-.
    exists (ToolFailure.new (MutationCompileError.code e) (public_mutation_compile_message e)).
    exists (Some (NormalizedLsm.hash n)). eexists.
    split_and!; [apply from_mutation_compile_public| |exact Hp|reflexivity].
    intros h [= <-]. by eexists.
  - right. injection Hd as <-.
    exists (ToolFailure.new (LsmError.code e) (public_lsm_message e)), None. eexists.
    split_and!; [apply from_lsm_public|done|exact Hp|reflexivity].
Qed.

Lemma call_tool_answers request :
  ends (call_tool_with_cancel config request) (answers_publicly (ToolCallParams.name request)).
Proof.
  unfold call_tool_with_cancel. cbv zeta.
  assert (Hany : forall {A} (p : tool A) (P : A -> Prop), (forall a, P a) -> gives p P)
    by (intros A p P HP tr r _ a _; apply HP).
  repeat case_decide; try match goal with H : ToolCallParams.name _ = _ |- _ => rewrite H end.
  - apply run_tool_answers; [apply list_semantic_models_fails|intros; by apply Hany].
  - apply run_tool_answers; [apply describe_semantic_model_fails|intros; by apply Hany].
  - apply run_tool_answers;
      [apply validate_semantic_query_fails|apply validate_semantic_query_reports].
  - apply run_tool_answers; [apply query_semantic_model_fails|intros; by apply Hany].
  - apply run_tool_answers; [apply explain_semantic_query_fails|intros; by apply Hany].
  - apply run_tool_answers;
      [apply validate_semantic_mutation_fails|apply validate_semantic_mutation_reports].
  - apply run_tool_answers; [apply mutate_semantic_model_fails|intros; by apply Hany].
  - apply run_tool_answers; [apply reconcile_semantic_mutation_fails|intros; by apply Hany].
  - apply ends_ret. apply rpc_raised. find_in_list.
Qed.

Lemma uncancelled_ends {A} (p : io A) P : ends p P -> ends (uncancelled p) P.
Proof. intros Hp tr a (tr' & Hr & _)%uncancelled_runs. by eapply Hp. Qed.

(** *** Failures of the other methods *)

Lemma raising_rpc_fails {A} (m : result RpcFailure A) :
  (forall e, m = Err e -> e ∈ rpc_failures) -> fails (raising m : rpc A) is_rpc_failure.
Proof.
  intros Hm. apply fails_lift. intros t Ht. destruct m as [a|e]; [done|]. simplify_eq/=.
  apply rpc_raised. by apply Hm.
Qed.

Lemma parse_params_fails {P} `{FromValue P} params e :
  (parse_params params : result RpcFailure P) = Err e -> e ∈ rpc_failures.
Proof. intros [_ <-]%ok_or_err. find_in_list. Qed.

Lemma reject_cursor_fails cursor e : reject_protocol_cursor cursor = Err e -> e ∈ rpc_failures.
Proof. intros [_ <-]%fail_if_err. find_in_list. Qed.

Lemma load_for_resource_fails : fails (load_for_resource config) is_rpc_failure.
Proof.
  apply (fails_attempt _ _ _ (fun t => t = Thrown.Raised snapshot_unavailable)).
  - apply fails_try; [|intros _]; by apply fails_attempt_any.
  - intros t ->. apply rpc_raised. find_in_list.
Qed.

Lemma list_resources_fails : fails (list_resources config) is_rpc_failure.
Proof. apply fails_try; [apply load_for_resource_fails|intros p; apply fails_ok]. Qed.

Lemma resource_contents_fails uri mime v e :
  resource_contents uri mime v = Err e -> e ∈ rpc_failures.
Proof. intros [He|(? & _ & He)]%bind_err; [|done]. apply ok_or_err in He as [_ <-]. find_in_list. Qed.

Lemma read_schema_fails uri schema e : read_schema uri schema = Err e -> e ∈ rpc_failures.
Proof.
  intros [He|(? & _ & He)]%bind_err; [|by eapply resource_contents_fails].
  apply ok_or_err in He as [_ <-]. find_in_list.
Qed.

Lemma read_published_resource_fails snapshot uri e :
  read_published_resource config snapshot uri = Err e -> e ∈ rpc_failures.
Proof.
  unfold read_published_resource. cbv zeta. case_decide; [apply resource_contents_fails|].
  destruct (List.find _ _); [apply resource_contents_fails|]. intros [= <-]. find_in_list.
Qed.

Lemma read_resource_fails params : fails (read_resource config params) is_rpc_failure.
Proof.
  unfold read_resource. cbv zeta. case_decide; [apply raising_rpc_fails, read_schema_fails|].
  destruct (bool_decide _ && _); [apply raising_rpc_fails, read_schema_fails|].
  apply fails_try; [apply load_for_resource_fails|intros published].
  apply raising_rpc_fails, read_published_resource_fails.
Qed.

Lemma call_tool_fails request :
  fails (call_tool_with_cancel config request) is_rpc_failure.
Proof. intros tr r Hr e ->. exact (call_tool_answers _ _ _ Hr). Qed.
End answers.
