(* ===== verification/McpRuns.v ===== *)
(** * What a dispatched method does

    A method makes the calls of one executor, or only reads the published model
    and the state of an idempotency key.  Failures of a method are listed. *)

From S2P Require Import ExecutorSpec MutationExecutorSpec RateLimit PublishedModel Executor.
From S2P Require Import MutationExecutor Prelude Ordered Text StrOps Json Lsq Semantic Compiler.
From S2P Require Import Lsm LsmSpec Mutation Effects Database PublishedModelSpec MutationSpec.
From S2P Require Import MutationTheorems Mcp McpParams McpPublic McpTools McpSpec.

(** ** Calls that execute no statement *)

Definition metadata_call (op : operation) : Prop :=
  match op with
  | Begin Source _ ro => ro = true
  | Commit Source | Rollback Source => True
  | QueryOne Audit (LOOKUP_IDEMPOTENCY _) => True
  | _ => calm_call op
  end.

Definition metadata_trace (tr : list (event answer)) : Prop :=
  Forall (fun e => metadata_call (ev_op e)) tr.

Abbreviation reads p :=
  (quiet (M := unit) (fun _ op => metadata_call op) (fun _ _ _ => tt) p tt).

#[export] Instance metadata_calm :
  Calm (M := unit) (fun _ op => metadata_call op) (fun _ _ _ => tt).
Proof. split; [|by intros []]. by intros [] [| |[]|[]|[]|c s|c s|[] []| | | |]. Qed.

Lemma reads_runs {A} (p : io A) tr a : reads p -> runs p tr a -> metadata_trace tr.
Proof. apply quiet_runs. Qed.

Lemma reads_raising {E A} (m : result E A) : reads (raising m).
Proof. done. Qed.

Lemma or_rollback_reads {E A} (body : io_result E A) : reads body -> reads (or_rollback Source body).
Proof. intros Hb. unfold or_rollback. by quiet. Qed.
#[export] Hint Resolve reads_raising or_rollback_reads : quiet.

Section runs.
Context `{HC : Crates, HM : ModelParsers, HD : Driver, HL : LsqParser, HLm : LsmParser}.
Context `{HJ : JsonText, HS : Schemas} (config : McpConfig).

Lemma load_published_internal_reads project role :
  reads (load_published_internal Source project role).
Proof. unfold load_published_internal. by quiet. Qed.
#[local] Hint Resolve load_published_internal_reads : quiet.

Lemma published_tool_reads : reads (load_published config).
Proof. unfold load_published, connect_runtime, PublishedModel.load_published. by quiet. Qed.

Lemma load_published_mutation_reads : reads (load_published_mutation config).
Proof.
  unfold load_published_mutation, connect_mutation, load_published_for_mutation. by quiet.
Qed.
#[local] Hint Resolve published_tool_reads load_published_mutation_reads : quiet.

Lemma list_semantic_models_reads params : reads (list_semantic_models config params).
Proof. unfold list_semantic_models. by quiet. Qed.

Lemma describe_semantic_model_reads params : reads (describe_semantic_model config params).
Proof. unfold describe_semantic_model. by quiet. Qed.

Lemma validate_semantic_query_reads params : reads (validate_semantic_query config params).
Proof. unfold validate_semantic_query. by quiet. Qed.

Lemma explain_semantic_query_reads params : reads (explain_semantic_query config params).
Proof. unfold explain_semantic_query. by quiet. Qed.

Lemma validate_semantic_mutation_reads params : reads (validate_semantic_mutation config params).
Proof. unfold validate_semantic_mutation. by quiet. Qed.

Lemma reconcile_semantic_mutation_reads params :
  reads (reconcile_semantic_mutation config params).
Proof. unfold reconcile_semantic_mutation, reconcile, connect_audit. by quiet. Qed.

Lemma load_for_resource_reads : reads (load_for_resource config).
Proof. unfold load_for_resource. by quiet. Qed.
#[local] Hint Resolve load_for_resource_reads : quiet.

Lemma list_resources_reads : reads (list_resources config).
Proof. unfold list_resources. by quiet. Qed.

Lemma read_resource_reads params : reads (read_resource config params).
Proof. unfold read_resource. by quiet. Qed.

(** ** Runs of a tool *)

(** The calls of a tool: those of an executor on the document of the request, or
    calls that execute no statement. *)
Definition performs (request : ToolCallParams) (tr : list (event answer)) : Prop :=
  metadata_trace tr
  \/ (ToolCallParams.name request = "query_semantic_model"
      /\ exists params input r,
           from_value (ToolCallParams.arguments request) = Some params
           /\ value_to_vec (QueryToolParams.lsq params) = Some input
           /\ runs (Executor.execute_with_cancel input (McpConfig.project config)
                      (McpConfig.executor config) (McpConfig.execution_context config)) tr r)
  \/ (ToolCallParams.name request = "mutate_semantic_model"
      /\ exists params input mutation r,
           from_value (ToolCallParams.arguments request) = Some params
           /\ value_to_vec (MutationToolParams.lsm params) = Some input
           /\ McpConfig.mutation_executor config = Some mutation
           /\ runs (MutationExecutor.execute_with_cancel (McpConfig.project config) mutation
                      (McpConfig.execution_context config) input) tr r).

(** A step without calls either fails or is passed. *)
Lemma runs_raising {E A B} (m : result E A) (f : A -> io_result (Thrown E) B) tr r :
  runs (try_bind (raising m) f) tr r -> tr = [] \/ exists a, m = Ok a /\ runs (f a) tr r.
Proof.
  unfold raising. intros (tr1 & [a|t] & tr2 & -> & [-> Hm] & H2)%runs_bind.
  - right. exists a. by destruct m; simplify_eq/=.
  - left. by destruct H2 as [-> _].
Qed.

(** A program whose value is only converted. *)
Lemma runs_converted {D E A B} (err : D -> E) (p : io_result D A) (g : A -> B) tr r :
  runs (try_bind (attempt err p) (fun a => Ret (Ok (g a)))) tr r -> exists r', runs p tr r'.
Proof.
  intros (tr1 & a & tr2 & -> & (tr3 & b & tr4 & -> & H1 & [-> _])%runs_bind & H2)%runs_bind.
  assert (tr2 = []) as -> by (by destruct a, H2). rewrite !app_nil_r. eauto.
Qed.

Lemma run_tool_runs {P} `{FromValue P} (body : P -> tool Value) arguments tr r :
  runs (run_tool body arguments) tr r ->
  tr = [] \/ exists params r', from_value arguments = Some params /\ runs (body params) tr r'.
Proof.
  unfold run_tool, parse_tool_arguments. intros [->|(params & Hp & Hr)]%runs_raising; [by left|].
  right. apply map_err_ok, ok_or_ok in Hp.
  apply runs_bind in Hr as (tr1 & r' & tr2 & -> & H1 & [-> _]). rewrite app_nil_r. eauto.
Qed.

Lemma run_tool_reads {P} `{FromValue P} (body : P -> tool Value) arguments tr r :
  (forall p, reads (body p)) -> runs (run_tool body arguments) tr r -> metadata_trace tr.
Proof.
  intros Hb [->|(params & r' & _ & Hr)]%run_tool_runs; [constructor|].
  by eapply reads_runs; [apply Hb|].
Qed.

Lemma query_tool_performs params tr r :
  runs (query_semantic_model_with_cancel config params) tr r ->
  tr = [] \/ exists input r',
    value_to_vec (QueryToolParams.lsq params) = Some input
    /\ runs (Executor.execute_with_cancel input (McpConfig.project config)
               (McpConfig.executor config) (McpConfig.execution_context config)) tr r'.
Proof.
  unfold query_semantic_model_with_cancel.
  intros [->|(? & _ & [->|(? & _ & [->|(input & Hi & Hr)]%runs_raising)]%runs_raising)]%runs_raising;
    [by left..|]. right. apply ok_or_ok in Hi. apply runs_converted in Hr as [r' Hr]. eauto.
Qed.

Lemma mutation_tool_performs params tr r :
  runs (mutate_semantic_model_with_cancel config params) tr r ->
  tr = [] \/ exists input mutation r',
    value_to_vec (MutationToolParams.lsm params) = Some input
    /\ McpConfig.mutation_executor config = Some mutation
    /\ runs (MutationExecutor.execute_with_cancel (McpConfig.project config) mutation
               (McpConfig.execution_context config) input) tr r'.
Proof.
  unfold mutate_semantic_model_with_cancel, mutation_config.
  intros [->|(? & _ & [->|(input & Hi & [->|(mutation & Hm & Hr)]%runs_raising)]%runs_raising)]%runs_raising;
    [by left..|]. right. apply ok_or_ok in Hi, Hm. apply runs_converted in Hr as [r' Hr]. eauto 10.
Qed.

Lemma call_tool_performs request tr r :
  runs (call_tool_with_cancel config request) tr r -> performs request tr.
Proof.
  unfold call_tool_with_cancel. cbv zeta. repeat case_decide; intros Hr.
  - left. exact (run_tool_reads (list_semantic_models config) _ _ _ list_semantic_models_reads Hr).
  - left. exact (run_tool_reads (describe_semantic_model config) _ _ _ describe_semantic_model_reads Hr).
  - left. exact (run_tool_reads (validate_semantic_query config) _ _ _ validate_semantic_query_reads Hr).
  - apply run_tool_runs in Hr as [->|(params & r' & Hp & [->|Hr]%query_tool_performs)];
      [left; constructor..|]. right; left. naive_solver.
  - left. exact (run_tool_reads (explain_semantic_query config) _ _ _ explain_semantic_query_reads Hr).
  - left. exact (run_tool_reads (validate_semantic_mutation config) _ _ _ validate_semantic_mutation_reads Hr).
  - apply run_tool_runs in Hr as [->|(params & r' & Hp & [->|Hr]%mutation_tool_performs)];
      [left; constructor..|]. right; right. naive_solver.
  - left. exact (run_tool_reads (reconcile_semantic_mutation config) _ _ _ reconcile_semantic_mutation_reads Hr).
  - left. destruct Hr as [-> _]. constructor.
Qed.

(** ** Runs of a method *)

(** A method that names a tool makes the calls of the tool, with the callback of
    the caller or with [|_| true]; the others execute no statement. *)
Definition serves (method : string) (params : Value) (tr : list (event answer)) : Prop :=
  metadata_trace tr
  \/ (method = "tools/call"
      /\ exists request, from_value params = Some request /\ performs request tr).

Lemma raising_then_reads {E A B} (m : result E A) (f : A -> io_result (Thrown E) B) tr r :
  (forall a, reads (f a)) -> runs (try_bind (raising m) f) tr r -> metadata_trace tr.
Proof. intros Hf Hr. eapply reads_runs; [|exact Hr]. by quiet. Qed.

Lemma modern_result_reads method params tr r :
  method <> "tools/call" -> runs (modern_result config method params) tr r -> metadata_trace tr.
Proof.
  intros Hm. unfold modern_result. repeat case_decide; try done; intros Hr;
    try (eapply reads_runs; [|exact Hr]; apply reads_raising).
  - eapply raising_then_reads; [|exact Hr]. intros ?.
    apply quiet_try; [apply list_resources_reads|done].
  - eapply raising_then_reads; [|exact Hr]. intros p. apply read_resource_reads.
Qed.

Lemma completed_runs {B} (p : rpc Value) (g : Value -> B) tr r :
  runs (try_bind p (fun v => Ret (Ok (g v)))) tr r -> exists r', runs p tr r'.
Proof.
  intros (tr1 & a & tr2 & -> & H1 & H2)%runs_bind.
  assert (tr2 = []) as -> by (by destruct a, H2). rewrite app_nil_r. eauto.
Qed.

Lemma dispatch_modern_serves method parameters tr r :
  runs (dispatch_modern_with_cancel config method (Value_Object parameters)) tr r ->
  serves method (Value_Object (map_remove "_meta" parameters)) tr.
Proof.
  unfold dispatch_modern_with_cancel, dispatch_modern. cbv zeta. case_decide as Hm; intros Hr.
  - apply runs_raising in Hr as [->|(request & Hp & Hr)]; [left; constructor|].
    right. split; [done|]. exists request. apply ok_or_ok in Hp. split; [done|].
    apply completed_runs in Hr as [r' Hr]. by eapply call_tool_performs.
  - left. apply completed_runs in Hr as [r' Hr]. by eapply modern_result_reads.
Qed.

(** Over standard input the callback is [|_| true], and its call is not made. *)
Lemma dispatch_serves method params tr r :
  runs (dispatch config method params) tr r ->
  metadata_trace tr
  \/ (method = "tools/call"
      /\ exists request tr', from_value params = Some request /\ performs request tr'
         /\ tr = List.filter (fun e => negb (is_cancel_handle e)) tr').
Proof.
  unfold dispatch, call_tool. repeat case_decide; intros Hr;
    try (left; eapply reads_runs; [|exact Hr]; apply reads_raising).
  - apply runs_raising in Hr as [->|(request & Hp & Hr)]; [left; constructor|].
    right. split; [done|]. apply ok_or_ok in Hp.
    apply uncancelled_runs in Hr as (tr' & Hr & ->). exists request, tr'.
    split_and!; [done| |done]. by eapply call_tool_performs.
  - left. eapply raising_then_reads; [|exact Hr]. intros ?. apply list_resources_reads.
  - left. eapply raising_then_reads; [|exact Hr]. intros p. apply read_resource_reads.
Qed.

(** ** Failures of a method *)

(** The instance is that of the hypothesis. *)
Ltac params_fail :=
  intros; match goal with H : parse_params _ = Err _ |- _ => exact (parse_params_fails _ _ H) end.

Lemma complete_fails (p : rpc Value) (g : Value -> Value) :
  fails p is_rpc_failure -> fails (try_bind p (fun v => Ret (Ok (g v)))) is_rpc_failure.
Proof. intros Hp. apply fails_try; [done|]. intros v. apply fails_ok. Qed.

Lemma raising_then_fails {A} (m : result RpcFailure A) (f : A -> rpc Value) :
  (forall e, m = Err e -> e ∈ rpc_failures) -> (forall a, fails (f a) is_rpc_failure) ->
  fails (try_bind (raising m) f) is_rpc_failure.
Proof. intros Hm Hf. apply fails_try; [by apply raising_rpc_fails|done]. Qed.

Lemma paginated_fails {A} params (k : result RpcFailure A) e :
  (forall e, k = Err e -> e ∈ rpc_failures) ->
  ((params ← parse_params params; reject_protocol_cursor (PaginationParams.cursor params);; k)
   : result RpcFailure A) = Err e -> e ∈ rpc_failures.
Proof.
  intros Hk [He|(p & _ & [He|(_ & _ & He)]%bind_err)]%bind_err; [|by eapply reject_cursor_fails|auto].
  params_fail.
Qed.

Lemma then_value_fails {P} `{FromValue P} params (v : Value) e :
  (((parse_params params : result RpcFailure P);; Ok v) : result RpcFailure Value) = Err e ->
  e ∈ rpc_failures.
Proof. intros [He|(p & _ & He)]%bind_err; [params_fail|done]. Qed.

Lemma initialize_fails params (v : Value) e :
  (params ← parse_params params; InitializeParams.validate params;; Ok v) = Err e ->
  e ∈ rpc_failures.
Proof.
  intros [He|(p & _ & [He|(_ & _ & He)]%bind_err)]%bind_err; [params_fail| |done].
  apply fail_if_err in He as [_ <-]. find_in_list.
Qed.

Lemma cursor_fails params e :
  (params ← parse_params params; reject_protocol_cursor (PaginationParams.cursor params)) = Err e ->
  e ∈ rpc_failures.
Proof.
  intros [He|(p & _ & He)]%bind_err; [params_fail|by eapply reject_cursor_fails].
Qed.

Lemma not_found_fails : fails (raising (Err RpcFailure.method_not_found) : rpc Value) is_rpc_failure.
Proof. apply raising_rpc_fails. intros e [= <-]. find_in_list. Qed.

Lemma dispatch_fails method params : fails (dispatch config method params) is_rpc_failure.
Proof.
  unfold dispatch, call_tool. repeat case_decide.
  - apply raising_rpc_fails, initialize_fails.
  - apply raising_rpc_fails; intros e He; exact (then_value_fails _ _ _ He).
  - apply raising_rpc_fails; intros e He; exact (then_value_fails _ _ _ He).
  - apply raising_rpc_fails. intros e. by apply paginated_fails.
  - apply raising_then_fails; [params_fail|intros request].
    apply uncancelled_ends, call_tool_fails.
  - apply raising_then_fails; [apply cursor_fails|intros _]. apply list_resources_fails.
  - apply raising_then_fails; [params_fail|intros p]. apply read_resource_fails.
  - apply not_found_fails.
Qed.

Lemma modern_result_fails method params : fails (modern_result config method params) is_rpc_failure.
Proof.
  unfold modern_result. repeat case_decide.
  - apply raising_rpc_fails; intros e He; exact (then_value_fails _ _ _ He).
  - apply raising_rpc_fails; intros e He; exact (then_value_fails _ _ _ He).
  - apply raising_rpc_fails. intros e. by apply paginated_fails.
  - apply raising_then_fails; [params_fail|intros request].
    apply uncancelled_ends, call_tool_fails.
  - apply raising_then_fails; [apply cursor_fails|intros _].
    apply complete_fails, list_resources_fails.
  - apply raising_then_fails; [params_fail|intros p]. apply read_resource_fails.
  - apply not_found_fails.
Qed.

Lemma uncancelled_modern_fails method params :
  fails (dispatch_modern config method params) is_rpc_failure.
Proof.
  unfold dispatch_modern. destruct params;
    try (apply raising_rpc_fails; intros e [= <-]; find_in_list).
  apply complete_fails, modern_result_fails.
Qed.

Lemma dispatch_modern_fails method params :
  fails (dispatch_modern_with_cancel config method params) is_rpc_failure.
Proof.
  assert (Hinvalid : fails (raising (Err RpcFailure.invalid_params) : rpc Value) is_rpc_failure).
  { apply raising_rpc_fails. intros e [= <-]. find_in_list. }
  unfold dispatch_modern_with_cancel, dispatch_modern. destruct params; try exact Hinvalid.
  cbv zeta. case_decide.
  - apply raising_then_fails; [params_fail|intros request].
    apply complete_fails, call_tool_fails.
  - apply complete_fails, modern_result_fails.
Qed.

(** ** Both entry points *)

Lemma metadata_uncancelled tr :
  metadata_trace tr -> metadata_trace (List.filter (fun e => negb (is_cancel_handle e)) tr).
Proof.
  unfold metadata_trace. rewrite !Forall_forall. intros Htr e He. apply Htr.
  apply list_elem_of_In, filter_In in He as [He _]. by apply list_elem_of_In.
Qed.

(** The request names a tool and has arguments that decode. *)
Definition calls_tool {P} `{FromValue P} (method : string) (params : Value) (tool_name : string)
    (arguments : P) : Prop :=
  method = "tools/call"
  /\ exists request, from_value params = Some request
     /\ ToolCallParams.name request = tool_name
     /\ from_value (ToolCallParams.arguments request) = Some arguments.

(** What a method does, whichever way it was dispatched: only calls that execute
    no statement, the protocol of a query, or that of a mutation. *)
Definition conforms (method : string) (params : Value) (tr : list (event answer)) : Prop :=
  metadata_trace tr
  \/ (exists arguments input,
        calls_tool method params "query_semantic_model" arguments
        /\ value_to_vec (QueryToolParams.lsq arguments) = Some input
        /\ accepts (ExecutorSpec.allowed input (McpConfig.executor config))
             ExecutorSpec.observe ExecutorSpec.idle tr)
  \/ (exists arguments input mutation,
        calls_tool method params "mutate_semantic_model" arguments
        /\ value_to_vec (MutationToolParams.lsm arguments) = Some input
        /\ McpConfig.mutation_executor config = Some mutation
        /\ accepts (MutationExecutorSpec.allowed input (McpConfig.project config) mutation
                      (McpConfig.execution_context config))
             MutationExecutorSpec.observe MutationExecutorSpec.idle tr).

Lemma query_accepted input tr r :
  runs (Executor.execute_with_cancel input (McpConfig.project config) (McpConfig.executor config)
          (McpConfig.execution_context config)) tr r ->
  accepts (ExecutorSpec.allowed input (McpConfig.executor config)) ExecutorSpec.observe
    ExecutorSpec.idle tr.
Proof. intros Hr. exact (proj1 (monitored_runs _ _ _ _ _ _ _ (execute_settles _ _ _ _) Hr)). Qed.

Lemma mutation_accepted input mutation tr r :
  runs (MutationExecutor.execute_with_cancel (McpConfig.project config) mutation
          (McpConfig.execution_context config) input) tr r ->
  accepts (MutationExecutorSpec.allowed input (McpConfig.project config) mutation
             (McpConfig.execution_context config))
    MutationExecutorSpec.observe MutationExecutorSpec.idle tr.
Proof. intros Hr. exact (proj1 (monitored_runs _ _ _ _ _ _ _ (execute_concludes _ _ _ _) Hr)). Qed.

Lemma query_callback_unmoved m r : ExecutorSpec.observe m OnCancelHandle r = m.
Proof. destruct m as [st fin [t|]]; done. Qed.

Lemma mutation_callback_unmoved m r : MutationExecutorSpec.observe m OnCancelHandle r = m.
Proof. by destruct m as [rec [[]|] en]. Qed.

Lemma performs_conforms method params request tr :
  method = "tools/call" -> from_value params = Some request -> performs request tr ->
  conforms method params tr
  /\ conforms method params (List.filter (fun e => negb (is_cancel_handle e)) tr).
Proof.
  intros Hm Hp [Hr|[(Hn & a & i & r & Ha & Hi & Hr)|(Hn & a & i & mu & r & Ha & Hi & Hmu & Hr)]].
  - split; left; [done|by apply metadata_uncancelled].
  - apply query_accepted in Hr. assert (Hc : calls_tool method params "query_semantic_model" a)
      by (split; [done|by exists request]).
    split; right; left; exists a, i; (split_and!; [done..|]); [done|].
    apply accepts_uncancelled; [apply query_callback_unmoved|done].
  - apply mutation_accepted in Hr. assert (Hc : calls_tool method params "mutate_semantic_model" a)
      by (split; [done|by exists request]).
    split; right; right; exists a, i, mu; (split_and!; [done..|]); [done|].
    apply accepts_uncancelled; [apply mutation_callback_unmoved|done].
Qed.

Lemma bt_get_remove key k (o : list (string * Value)) :
  k <> key -> bt_get k (map_remove key o) = bt_get k o.
Proof.
  intros Hk. unfold map_remove. induction o as [|[k' v] o IH]; [done|].
  rewrite filter_cons. cbn [fst]. destruct (decide (k' <> key)) as [Hne|He].
  - cbn [bt_get]. by rewrite IH.
  - apply dec_stable in He as ->. rewrite IH. cbn [bt_get]. by rewrite decide_False.
Qed.

Lemma tool_call_meta parameters :
  ToolCallParams.decode (Value_Object (map_remove "_meta" parameters))
  = ToolCallParams.decode (Value_Object parameters).
Proof.
  unfold ToolCallParams.decode, struct_field, struct_field_or. simpl.
  by rewrite !bt_get_remove.
Qed.

(** A dispatched method conforms. *)
Lemma dispatched_conforms method params tr :
  (exists r, runs (dispatch config method params) tr r)
  \/ (exists r, runs (dispatch_modern config method params) tr r)
  \/ (exists r, runs (dispatch_modern_with_cancel config method params) tr r) ->
  conforms method params tr.
Proof.
  intros [[r Hr]|[[r Hr]|[r Hr]]].
  - apply dispatch_serves in Hr as [Hr|(Hm & request & tr' & Hp & Hf & ->)]; [by left|].
    by eapply performs_conforms.
  - destruct params as [| | | | | |values]; try (left; destruct Hr as [-> _]; constructor).
    apply completed_runs in Hr as [r' Hr]. destruct (decide (method = "tools/call")) as [->|Hm];
      [|left; by eapply modern_result_reads].
    apply runs_raising in Hr as [->|(request & Hp & Hr)]; [left; constructor|].
    apply ok_or_ok in Hp. apply uncancelled_runs in Hr as (tr' & Hr%call_tool_performs & ->).
    eapply performs_conforms; [done| |done].
    change (ToolCallParams.decode (Value_Object values) = Some request).
    rewrite <- tool_call_meta. exact Hp.
  - destruct params as [| | | | | |values]; try (left; destruct Hr as [-> _]; constructor).
    apply dispatch_modern_serves in Hr as [Hr|(Hm & request & Hp & Hf)]; [by left|].
    eapply performs_conforms; [done| |done].
    change (ToolCallParams.decode (Value_Object values) = Some request).
    rewrite <- tool_call_meta. exact Hp.
Qed.
End runs.
