(* ===== verification/McpFixtures.v ===== *)
(** * Requests to the MCP server

    A server over the sample database, calls of its tools, and the lines of a
    session. *)

From S2P Require Import RateLimit Database PublishedModel Executor MutationExecutor Prelude.
From S2P Require Import Ordered Text StrOps Json Lsq Semantic Compiler Lsm Mutation Effects.
From S2P Require Import Fixtures ExecutorFixtures Mcp McpParams McpPublic McpTools McpStdio.

Definition ping_message : Value :=
  json_object [("jsonrpc", Value_String "2.0"); ("id", Value_Integer 1);
               ("method", Value_String "ping")].
Definition initialized_message : Value :=
  json_object [("jsonrpc", Value_String "2.0");
               ("method", Value_String "notifications/initialized")].

(** A reader and a writer of JSON for the texts of the samples. *)
#[global] Instance mcp_json_text : JsonText := {|
  value_from_slice text :=
    if decide (text = "ping") then Some ping_message
    else if decide (text = "note") then Some initialized_message
    else if decide (text = "schema") then Some (json_object [("type", Value_String "object")])
    else None;
  value_to_vec _ := Some "request";
|}.

#[global] Instance mcp_schemas : Schemas := {|
  LSQ_SCHEMA := "schema"; LSM_SCHEMA := "schema"; CARGO_PKG_VERSION := "0.1.0";
|}.

Definition shop_server : McpConfig :=
  McpConfig.mk "shop" analyst_config (Some writer_config) someone.
Definition read_only_server : McpConfig := McpConfig.mk "shop" analyst_config None someone.

(** The parameters of a call of a tool with a document. *)
Definition tool_parameters (name document : string) : list (string * Value) :=
  bt_from_list
    [("name", Value_String name);
     ("arguments", json_object
        [("schema_version", Value_String "1"); (document, json_object [])])].

Definition query_parameters : list (string * Value) := tool_parameters "query_semantic_model" "lsq".
Definition mutate_parameters : list (string * Value) :=
  tool_parameters "mutate_semantic_model" "lsm".

Definition served (server : McpConfig) (parameters : list (string * Value))
    : list (event answer) * result (Thrown RpcFailure) Value :=
  run one_sale fresh_claim
    (dispatch_modern_with_cancel server "tools/call" (Value_Object parameters)).

Definition served_runs server parameters :
  runs (dispatch_modern_with_cancel server "tools/call" (Value_Object parameters))
    (served server parameters).1 (served server parameters).2 :=
  run_runs _ _ _.

Lemma query_served_sent :
  (served shop_server query_parameters).1 !! 34
  = Some (Ev (QueryRaw Source sent_sql sent_parameters) (Ok one_sale)).
Proof. vm_compute. reflexivity. Qed.

(** ** A session *)

(** A request, a notification that ends in a carriage return, and a blank line,
    read in pieces. *)
Definition sample_input : Reader :=
  Reader.mk []
    [Ok (bytes "pi"); Ok (bytes "ng" ++ [newline] ++ bytes "no");
     Ok (bytes "te" ++ [carriage_return; newline]); Ok (bytes "  ")].

Definition stdio_respond (op : StdioOp) : StdioRes op :=
  match op as op0 return StdioRes op0 with
  | Db op => respond one_sale fresh_claim op
  | Eprintln _ => Ok tt
  | ToWriter _ => Ok tt
  | WriteAll _ => Ok tt
  | Flush => Ok tt
  end.

Definition session : list (event StdioRes) * Served :=
  execute_with (fun (_ : unit) op => (stdio_respond op, tt)) tt
    (serve_reader shop_server sample_input).

Lemma session_runs : runs (serve_reader shop_server sample_input) session.1 session.2.
Proof. apply execute_with_runs. Qed.
