(* ===== verification/McpTheorems.v ===== *)
(** * Correctness of the MCP methods

    What any client can make the server do, whatever it sends and whatever the
    database answers. *)

From S2P Require Import Sessions ExecutorSpec MutationExecutorSpec RateLimit PublishedModel.
From S2P Require Import Executor MutationExecutor Prelude Ordered Text StrOps Json Lsq Semantic Compiler.
From S2P Require Import Lsm LsmSpec Mutation Effects Database PublishedModelSpec Fixtures.
From S2P Require Import ExecutorFixtures Mcp McpParams McpPublic McpTools McpSpec McpRuns.
From S2P Require Import McpFixtures.

(** ** Statements *)

(** A run of a method, dispatched over HTTP or over standard input. *)
Definition dispatched `{Crates, ModelParsers, Driver, LsqParser, LsmParser, JsonText, Schemas}
    (config : McpConfig) (method : string) (params : Value) (tr : list (event answer)) : Prop :=
  (exists r, runs (dispatch config method params) tr r)
  \/ (exists r, runs (dispatch_modern config method params) tr r)
  \/ exists r, runs (dispatch_modern_with_cancel config method params) tr r.

Lemma served_dispatched server parameters :
  dispatched server "tools/call" (Value_Object parameters) (served server parameters).1.
Proof. right. right. eexists. apply served_runs. Qed.

(** Whether a transaction is open on a connection, and a read-only one. *)
Definition transaction_after (c : connection) (state : option bool) (e : event answer)
    : option bool :=
  match e with
  | Ev (Begin c' _ ro) (Ok _) => if decide (c' = c) then Some ro else state
  | Ev (Commit c') _ | Ev (Rollback c') _ => if decide (c' = c) then None else state
  | _ => state
  end.

Definition open_transaction (c : connection) (tr : list (event answer)) : option bool :=
  foldl (transaction_after c) None tr.

(** Statements that read tables or make settings of the session, and records. *)
Definition record_statement (s : statement) : bool :=
  match s with
  | START_QUERY_AUDIT _ | FINISH_QUERY_AUDIT _ | CLAIM_MUTATION _ | FINISH_MUTATION _
  | RECORD_MUTATION_FAILURE _ => true
  | _ => false
  end.

Definition query_record (s : statement) : bool :=
  match s with START_QUERY_AUDIT _ | FINISH_QUERY_AUDIT _ => true | _ => false end.

(** A call that leaves the data as it is, after the calls [before]: transactions
    are read-only, a generated statement runs inside of one, the only other text
    that is executed assumes the role of the executor, and of the fixed
    statements none makes a record, unless [audited] allows the two of a query,
    on the connection for audit records. *)
Definition read_only_call (role : string) (audited : Prop) (before : list (event answer))
    (op : operation) : Prop :=
  match op with
  | TlsConnectorNew | Connect _ _ | Commit _ | Rollback _ | OnCancelHandle | Elapsed => True
  | Begin _ _ ro => ro = true
  | Query _ s | QueryOpt _ s => record_statement s = false
  | QueryOne c s =>
      record_statement s = false \/ (audited /\ c = Audit /\ query_record s = true)
  | BatchExecute c sql => c = Source /\ sql = set_role_sql role
  | QueryRaw c _ _ => c = Source /\ open_transaction Source before = Some true
  end.

Lemma metadata_no_statement tr i c sql parameters (a : answer (QueryRaw c sql parameters)) :
  metadata_trace tr -> tr !! i = Some (Ev (QueryRaw c sql parameters) a) -> False.
Proof. intros Htr Hi. exact (Forall_lookup_1 _ _ _ _ Htr Hi). Qed.

Lemma metadata_read_only role audited before op :
  metadata_call op -> read_only_call role audited before op.
Proof.
  destruct op as [| |[]| | |[] s|[] s|[] s| | | |]; simpl; try done; case_statement s; simpl;
    done || auto.
Qed.

(** The monitor of a query knows of the transaction what the trace says. *)
Lemma query_transaction tr :
  read_only <$> ExecutorSpec.transaction (watch ExecutorSpec.observe ExecutorSpec.idle tr)
  = open_transaction Source tr.
Proof.
  induction tr as [|[op r] tr IH] using rev_ind; [done|]. rewrite watch_app.
  unfold open_transaction in *. rewrite foldl_app, <- IH.
  set (m := watch ExecutorSpec.observe ExecutorSpec.idle tr). clearbody m. clear IH.
  unfold watch. simpl.
  assert (Hs : forall o (a : answer o),
    read_only <$> ExecutorSpec.transaction
      match ExecutorSpec.transaction m with
      | Some t => ExecutorSpec.set_transaction (Some (observe_session t o a)) m
      | None => m
      end = read_only <$> ExecutorSpec.transaction m).
  { intros o a. destruct (ExecutorSpec.transaction m) as [t|] eqn:Ht; [|by rewrite Ht].
    simpl. by rewrite observe_session_read_only. }
  destruct op as [| |[] l ro|[]|[]|c s|c s|[] s|c sql|c sql ps| |]; cbn [ExecutorSpec.observe];
    try (rewrite Hs); try done; try (by destruct r).
  case_statement s; try done. all: by destruct r.
Qed.

Lemma query_read_only `{Crates, LsqParser} input config before op (audited : Prop) :
  audited ->
  ExecutorSpec.allowed input config (watch ExecutorSpec.observe ExecutorSpec.idle before) op ->
  read_only_call (ExecutorConfig.database_role config) audited before op.
Proof.
  intros Ha. destruct op as [| | | | |c s|c s|c s| |c sql ps| |]; simpl; try done.
  - naive_solver.
  - intros [_ Hs]. by case_statement s.
  - intros [_ Hs]. by case_statement s.
  - case_statement s; simpl; destruct c; try done; auto.
  - intros [-> (id & n & sn & cp & t & _ & _ & Ht & _ & _ & _ & _ & Hro & _)]. split; [done|].
    rewrite <- query_transaction, Ht. simpl. by rewrite Hro.
Qed.

(** C4: whatever a client sends, the only statements with generated text that
    the server executes are those of a query or of a mutation that the request
    asks for by the tool's name, with the document of its arguments.  The
    statement of a query is sent in a read-only transaction, and that of a
    mutation under its claim, each guarded as its executor promises: role,
    ownership, settings and audit records are checked before it is sent, and its
    text and parameters are the compiled form of that document.  A mutation is
    executed only by a server configured for mutations. *)
Theorem requests_execute_guarded_statements
    `{HC : Crates, HM : ModelParsers, HD : Driver, HL : LsqParser, HLm : LsmParser}
    `{HJ : JsonText, HS : Schemas} config method params tr i c sql parameters
    (a : answer (QueryRaw c sql parameters)) :
  dispatched config method params tr ->
  tr !! i = Some (Ev (QueryRaw c sql parameters) a) ->
  c = Source
  /\ ((exists (arguments : QueryToolParams) input,
         calls_tool method params "query_semantic_model" arguments
         /\ value_to_vec (QueryToolParams.lsq arguments) = Some input
         /\ ExecutorSpec.source_statement_allowed input (McpConfig.executor config)
              (watch ExecutorSpec.observe ExecutorSpec.idle (take i tr)) sql parameters)
      \/ exists (arguments : MutationToolParams) input mutation,
           calls_tool method params "mutate_semantic_model" arguments
           /\ value_to_vec (MutationToolParams.lsm arguments) = Some input
           /\ McpConfig.mutation_executor config = Some mutation
           /\ MutationExecutorSpec.source_statement_allowed input mutation
                (watch MutationExecutorSpec.observe MutationExecutorSpec.idle (take i tr))
                sql parameters).
Proof.
  intros Hd Hi. apply dispatched_conforms in Hd
    as [Hr|[(p & input & Hc & Hv & Hacc)|(p & input & mutation & Hc & Hv & Hm & Hacc)]].
  - by destruct (metadata_no_statement _ _ _ _ _ _ Hr Hi).
  - destruct (accepts_lookup _ _ _ _ _ _ Hacc Hi) as [-> Hs]. split; [done|]. left. eauto.
  - destruct (accepts_lookup _ _ _ _ _ _ Hacc Hi) as [-> Hs]. split; [done|]. right. eauto 10.
Qed.

Lemma requests_execute_guarded_statements_witness :
  exists arguments : QueryToolParams,
    calls_tool "tools/call" (Value_Object query_parameters) "query_semantic_model" arguments
    /\ ExecutorSpec.source_statement_allowed "request" analyst_config
         (watch ExecutorSpec.observe ExecutorSpec.idle
            (take 34 (served shop_server query_parameters).1)) sent_sql sent_parameters.
Proof.
  destruct (requests_execute_guarded_statements shop_server "tools/call"
      (Value_Object query_parameters) _ 34 Source sent_sql sent_parameters (Ok one_sale)
      (served_dispatched shop_server query_parameters) query_served_sent)
    as [_ [(p & input & Hc & [= <-] & Hs)|(p & input & mu & (_ & request & Hp & Hn & _) & _)]].
  - exists p. split; [exact Hc|exact Hs].
  - vm_compute in Hp. injection Hp as <-. discriminate Hn.
Defined.

(** C5: nothing is written but by a mutation.  Whatever a client sends, either it
    calls the tool [mutate_semantic_model] on a server configured for mutations,
    or every call on the database is read-only: transactions are opened read-only,
    a statement with generated text is sent only inside of one, the only other
    text that is executed assumes the role of the query executor, and of the fixed
    statements only [query_semantic_model] makes records, the two audit records
    of its query. *)
Theorem only_mutations_write
    `{HC : Crates, HM : ModelParsers, HD : Driver, HL : LsqParser, HLm : LsmParser}
    `{HJ : JsonText, HS : Schemas} config method params tr :
  dispatched config method params tr ->
  (is_Some (McpConfig.mutation_executor config)
   /\ exists arguments : MutationToolParams,
        calls_tool method params "mutate_semantic_model" arguments)
  \/ forall i op (a : answer op), tr !! i = Some (Ev op a) ->
       read_only_call (ExecutorConfig.database_role (McpConfig.executor config))
         (exists arguments : QueryToolParams,
            calls_tool method params "query_semantic_model" arguments) (take i tr) op.
Proof.
  intros [Hr|[(p & input & Hc & _ & Hacc)|(p & input & mutation & Hc & _ & Hm & _)]]
    %dispatched_conforms.
  - right. intros i op a Hi. apply metadata_read_only. exact (Forall_lookup_1 _ _ _ _ Hr Hi).
  - right. intros i op a Hi. eapply query_read_only; [by exists p|].
    exact (accepts_lookup _ _ _ _ _ _ Hacc Hi).
  - left. rewrite Hm. eauto.
Qed.

(** The statement of a query was sent inside a read-only transaction. *)
Lemma only_mutations_write_witness :
  open_transaction Source (take 34 (served shop_server query_parameters).1) = Some true.
Proof.
  destruct (only_mutations_write shop_server "tools/call" (Value_Object query_parameters) _
              (served_dispatched shop_server query_parameters))
    as [(_ & p & _ & request & Hp & Hn & _)|Hro].
  - vm_compute in Hp. injection Hp as <-. discriminate Hn.
  - exact (proj2 (Hro 34 _ _ query_served_sent)).
Defined.

(** ** Failures *)

(** A result of a method: the value of a tool call, as [wrap] returns it, is an
    answer of that tool, and a failure is listed. *)
Definition answered_publicly `{Crates, JsonText} (method : string) (params : Value)
    (wrap : Value -> Value) (r : result (Thrown RpcFailure) Value) : Prop :=
  match r with
  | Ok v => method = "tools/call" ->
      exists request w, from_value params = Some request /\ v = wrap w
        /\ tool_answer (ToolCallParams.name request) w
  | Err t => exists f, t = Thrown.Raised f /\ f ∈ rpc_failures
  end.

Lemma tool_call_answered `{HC : Crates, HJ : JsonText} (params : Value)
    (call : ToolCallParams -> rpc Value) tr v :
  (forall request, ends (call request) (answers_publicly (ToolCallParams.name request))) ->
  runs (request ←? raising (parse_params params); call request) tr (Ok v) ->
  exists request, from_value params = Some request
    /\ tool_answer (ToolCallParams.name request) v.
Proof.
  intros Hcall (tr1 & request & tr2 & -> & [_ Hp] & Hr)%runs_try.
  exists request. split; [|exact (Hcall _ _ _ Hr)]. unfold parse_params in Hp.
  by destruct (from_value params) as [x|]; simplify_eq/=.
Qed.

Lemma modern_parameters parameters request :
  from_value (Value_Object (map_remove "_meta" parameters)) = Some request ->
  (from_value (Value_Object parameters) : option ToolCallParams) = Some request.
Proof. intros Hr. rewrite <- Hr. symmetry. apply tool_call_meta. Qed.

(** C26: no method panics, and what a client learns of a failure is one of a fixed
    list of codes and texts: neither a name of the model nor a message of the
    database, of a parser or of the operating system is part of it.  A tool that
    is called answers with its data or with a failure of the list; the tools that
    validate, which report what they reject as data, report a failure of the list
    and besides it only digests of the document and of the model.  This holds over
    standard input and over HTTP, with and without a callback for cancellation. *)
Theorem failures_are_public
    `{HC : Crates, HM : ModelParsers, HD : Driver, HL : LsqParser, HLm : LsmParser}
    `{HJ : JsonText, HS : Schemas} config method params tr r :
  (runs (dispatch config method params) tr r -> answered_publicly method params id r)
  /\ (runs (dispatch_modern config method params) tr r ->
      answered_publicly method params complete r)
  /\ (runs (dispatch_modern_with_cancel config method params) tr r ->
      answered_publicly method params complete r).
Proof.
  assert (Hplain : forall request,
    ends (call_tool config request) (answers_publicly (ToolCallParams.name request)))
    by (intros request; apply uncancelled_ends, call_tool_answers).
  split_and!; intros Hr; (destruct r as [v|t]; [intros ->|]).
  - change (runs (request ←? raising (parse_params params); call_tool config request) tr (Ok v))
      in Hr. apply tool_call_answered in Hr as (request & Hp & Ha); [|done]. by exists request, v.
  - exact (dispatch_fails _ _ _ _ _ Hr t eq_refl).
  - destruct params as [| | | | | |parameters]; try (by destruct Hr).
    apply runs_try in Hr as (tr1 & w & tr2 & -> & Hr & [_ [= ->]]).
    apply (tool_call_answered _ (call_tool config)) in Hr as (request & Hp & Ha); [|done].
    exists request, w. split_and!; [by apply modern_parameters|done..].
  - exact (uncancelled_modern_fails _ _ _ _ _ Hr t eq_refl).
  - destruct params as [| | | | | |parameters]; try (by destruct Hr).
    apply runs_try in Hr as (tr1 & request & tr2 & -> & [_ Hp] & Hr).
    apply runs_try in Hr as (tr3 & w & tr4 & -> & Hw & [_ [= ->]]).
    exists request, w. split_and!; [|done|exact (call_tool_answers _ _ _ _ Hw)].
    apply modern_parameters. unfold parse_params in Hp.
    by destruct (from_value _) as [x|]; simplify_eq/=.
  - exact (dispatch_modern_fails _ _ _ _ _ Hr t eq_refl).
Qed.

Lemma failures_are_public_witness :
  exists v, (served shop_server query_parameters).2 = Ok v
    /\ exists request w, from_value (Value_Object query_parameters) = Some request
         /\ v = complete w /\ tool_answer (ToolCallParams.name request) w.
Proof.
  assert (Hr := proj2 (proj2 (failures_are_public shop_server "tools/call"
                  (Value_Object query_parameters) _ _)) (served_runs shop_server query_parameters)).
  destruct (served shop_server query_parameters).2 as [v|t] eqn:Hv;
    [|vm_compute in Hv; discriminate].
  exists v. split; [reflexivity|exact (Hr eq_refl)].
Defined.
