(* ===== verification/McpSessionTheorems.v ===== *)
(** * Lines of the standard input

    The lines of a byte sequence, and that the bounded reader yields them,
    however the bytes arrive.

    Then sessions over these lines, and the theorems on the server. *)

From S2P Require Import ExecutorSpec MutationExecutorSpec RateLimit PublishedModel Executor.
From S2P Require Import MutationExecutor Prelude Ordered Text StrOps Json Lsq Semantic Compiler.
From S2P Require Import Lsm LsmSpec Mutation Effects Database Fixtures ExecutorFixtures Mcp.
From S2P Require Import McpParams McpPublic McpTools McpStdio McpSpec McpRuns McpFixtures.

(** ** Lines *)

(** The bytes before the first line feed and those after it. *)
Fixpoint split_line (s : list ascii) : option (list ascii * list ascii) :=
  match s with
  | [] => None
  | c :: rest =>
      if decide (c = newline) then Some ([], rest)
      else '(content, rest) ← split_line rest; Some (c :: content, rest)
  end.

(** What is read of a line: its content, without the carriage return before a
    line feed, or that it is too long. *)
Definition frame (maximum : N) (terminated : bool) (content : list ascii) : LineRead :=
  if bool_decide (maximum < N.of_nat (length content))%N then LineRead.Oversized
  else LineRead.Line (if terminated then pop_carriage_return content else content).

(** The lines of the input; the last one may lack its line feed. *)
Fixpoint frames_of (fuel : nat) (maximum : N) (s : list ascii) : list LineRead :=
  match fuel, split_line s with
  | S fuel, Some (content, rest) => frame maximum true content :: frames_of fuel maximum rest
  | _, _ => if decide (s = []) then [] else [frame maximum false s]
  end.

Definition frames (maximum : N) (s : list ascii) : list LineRead := frames_of (length s) maximum s.

Lemma split_line_some s content rest :
  split_line s = Some (content, rest) -> s = content ++ newline :: rest /\ newline ∉ content.
Proof.
  revert content rest. induction s as [|c s IH]; intros content rest; simpl; [done|].
  case_decide as Hc.
  - intros [= <- <-]. subst c. split; [done|]. apply not_elem_of_nil.
  - intros ([content' rest'] & Hs & [= <- <-])%bind_Some. apply IH in Hs as [-> Hn].
    split; [done|]. apply not_elem_of_cons. done.
Qed.

Lemma split_line_app pre s :
  newline ∉ pre ->
  split_line (pre ++ s) = '(content, rest) ← split_line s; Some (pre ++ content, rest).
Proof.
  induction pre as [|c pre IH]; simpl.
  - intros _. by destruct (split_line s) as [[]|].
  - intros [Hc Hpre]%not_elem_of_cons. rewrite decide_False by done. rewrite IH by done.
    by destruct (split_line s) as [[]|].
Qed.

Lemma split_line_here pre rest :
  newline ∉ pre -> split_line (pre ++ newline :: rest) = Some (pre, rest).
Proof.
  intros Hp. rewrite split_line_app by done. cbn [split_line]. rewrite decide_True by done.
  cbn. by rewrite app_nil_r.
Qed.

Lemma split_line_none s : newline ∉ s -> split_line s = None.
Proof. intros Hs. rewrite <- (app_nil_r s), split_line_app by done. done. Qed.

(** The fuel of [frames] is enough for any input as long. *)
Lemma frames_of_enough maximum : forall fuel fuel' s,
  length s <= fuel -> length s <= fuel' -> frames_of fuel maximum s = frames_of fuel' maximum s.
Proof.
  induction fuel as [|fuel IH]; intros [|fuel'] s Hf Hf'; simpl.
  - done.
  - assert (s = []) as -> by (destruct s; simpl in *; [done|lia]). done.
  - assert (s = []) as -> by (destruct s; simpl in *; [done|lia]). done.
  - destruct (split_line s) as [[content rest]|] eqn:Hs; [|done]. f_equal.
    apply split_line_some in Hs as [-> _]. rewrite length_app in Hf, Hf'. simpl in Hf, Hf'.
    apply IH; lia.
Qed.

Lemma frames_unfold maximum s :
  frames maximum s =
  match split_line s with
  | Some (content, rest) => frame maximum true content :: frames maximum rest
  | None => if decide (s = []) then [] else [frame maximum false s]
  end.
Proof.
  unfold frames. destruct s as [|c s]; [done|]. cbn [length frames_of].
  destruct (split_line (c :: s)) as [[content rest]|] eqn:Hs; [|done]. f_equal.
  apply split_line_some in Hs as [He _]. apply (f_equal length) in He. rewrite length_app in He.
  simpl in He. apply frames_of_enough; lia.
Qed.

(** ** Readers *)

(** A stream that does not fail: every read yields some bytes, and then it ends. *)
Definition flows (r : Reader) : Prop :=
  Forall (fun read => exists bytes, read = Ok bytes /\ bytes <> []) (Reader.reads r).

Definition read_bytes (read : result io_error (list ascii)) : list ascii :=
  match read with Ok bytes => bytes | Err _ => [] end.

(** The bytes that are still to be read. *)
Definition stream (r : Reader) : list ascii :=
  Reader.buffer r ++ concat (map read_bytes (Reader.reads r)).

Lemma stream_size r : flows r -> length (stream r) <= reader_size r.
Proof.
  unfold flows, stream, reader_size. rewrite length_app. destruct r as [buffer reads]. simpl.
  intros Hr. induction Hr as [|read reads (bytes & -> & _) _ IH]; simpl; [lia|].
  rewrite length_app. unfold reads_size in *. simpl. lia.
Qed.

Lemma fill_buf_end r : flows r -> stream r = [] -> Reader.fill_buf r = (Ok [], r).
Proof.
  destruct r as [[|] [|read reads]]; unfold flows, stream; simpl; try done.
  intros [(bytes & -> & Hb) _]%Forall_cons. by destruct bytes.
Qed.

Lemma fill_buf_more r :
  flows r -> stream r <> [] ->
  exists buffer reads, Reader.fill_buf r = (Ok buffer, Reader.mk buffer reads) /\ buffer <> []
    /\ flows (Reader.mk [] reads) /\ stream r = buffer ++ stream (Reader.mk [] reads)
    /\ length buffer + reads_size reads <= reader_size r.
Proof.
  destruct r as [[|c buffer] [|read reads]]; unfold flows, stream, reader_size; simpl.
  - done.
  - intros [(bytes & -> & Hb) Hr]%Forall_cons _. exists bytes, reads. split_and!; try done.
    unfold reads_size. simpl. lia.
  - intros Hr _. by exists (c :: buffer), [].
  - intros Hr _. by exists (c :: buffer), (read :: reads).
Qed.

Lemma newline_position_some bytes p :
  newline_position bytes = Some p ->
  bytes = take p bytes ++ (newline :: drop (p + 1) bytes) /\ (newline ∉ take p bytes)
  /\ p < length bytes.
Proof.
  revert p. induction bytes as [|c bytes IH]; intros p; simpl; [done|]. case_decide as Hc.
  - intros [= <-]. subst c. simpl. split_and!; [done|apply not_elem_of_nil|lia].
  - intros (q & Hq & ->)%fmap_Some. apply IH in Hq as (He & Hn & Hl). simpl.
    split_and!; [by f_equal|by apply not_elem_of_cons|lia].
Qed.

Lemma newline_position_none bytes : newline_position bytes = None -> newline ∉ bytes.
Proof.
  induction bytes as [|c bytes IH]; simpl; [by intros _ ?%not_elem_of_nil|]. case_decide; [done|].
  intros Hn%fmap_None. apply not_elem_of_cons. split; [done|by apply IH].
Qed.

(** ** The loop *)

(** What is read of a line of which [line] was collected, or too much. *)
Definition gathered (maximum : N) (line : list ascii) (oversized terminated : bool)
    (content : list ascii) : LineRead :=
  if oversized then LineRead.Oversized else frame maximum terminated (line ++ content).

(** One chunk of a line that is not over. *)
Definition collect (maximum : N) (line : list ascii) (oversized : bool) (chunk : list ascii)
    : list ascii * bool :=
  if oversized then (line, true)
  else if bool_decide (maximum < saturating_add (N.of_nat (length line))
                                   (N.of_nat (length chunk)))%N
  then ([], true) else (line ++ chunk, false).

Lemma saturating_too_long maximum a b :
  (maximum < USIZE_MAX)%N ->
  bool_decide (maximum < saturating_add (N.of_nat a) (N.of_nat b))%N
  = bool_decide (maximum < N.of_nat (a + b))%N.
Proof. intros Hm. unfold saturating_add. apply bool_decide_ext. lia. Qed.

Section loop.
Context (maximum : N) (Hmax : (maximum < USIZE_MAX)%N).

Lemma collect_gathers line oversized chunk content terminated :
  gathered maximum (collect maximum line oversized chunk).1
    (collect maximum line oversized chunk).2 terminated content
  = gathered maximum line oversized terminated (chunk ++ content).
Proof using Hmax.
  unfold collect, gathered. destruct oversized; [done|]. rewrite saturating_too_long by done.
  case_bool_decide as Hl; simpl.
  - unfold frame. rewrite bool_decide_true; [done|]. rewrite !length_app. lia.
  - by rewrite app_assoc.
Qed.

(** A line that ends within a chunk. *)
Lemma collect_ends line oversized chunk :
  finish_line (pop_carriage_return (collect maximum line oversized chunk).1)
    (collect maximum line oversized chunk).2
  = gathered maximum line oversized true chunk.
Proof using Hmax.
  unfold collect, gathered, frame. destruct oversized; [done|].
  rewrite saturating_too_long, length_app by done. by case_bool_decide.
Qed.

(** The line that is read and the bytes that are left. *)
Definition line_of (line : list ascii) (oversized read_any : bool) (s : list ascii)
    : LineRead * list ascii :=
  match split_line s with
  | Some (content, rest) => (gathered maximum line oversized true content, rest)
  | None =>
      (if bool_decide (s = []) && negb read_any then LineRead.Eof
       else gathered maximum line oversized false s, [])
  end.

Lemma read_line_loop_spec : forall fuel reader line oversized read_any,
  flows reader -> reader_size reader < fuel ->
  (oversized = false -> (N.of_nat (length line) <= maximum)%N) ->
  exists reader',
    read_line_loop fuel maximum line oversized read_any reader
      = Some (Ok (line_of line oversized read_any (stream reader)).1, reader')
    /\ flows reader' /\ stream reader' = (line_of line oversized read_any (stream reader)).2.
Proof using Hmax.
  induction fuel as [|fuel IH]; intros reader line oversized read_any Hr Hf Hl; [lia|].
  cbn [read_line_loop]. destruct (decide (stream reader = [])) as [Hs|Hs].
  { rewrite fill_buf_end, Hs by done. exists reader. split_and!; [|done|done].
    unfold line_of. simpl. destruct read_any; [|done]. simpl. do 3 f_equal.
    unfold gathered, finish_line, frame. destruct oversized; [done|].
    rewrite app_nil_r, bool_decide_false; [done|]. specialize (Hl eq_refl). lia. }
  destruct (fill_buf_more _ Hr Hs) as (buffer & reads & -> & Hb & Hr' & -> & Hsize).
  destruct buffer as [|c buffer]; [done|]. set (chunk := c :: buffer) in *.
  destruct (newline_position chunk) as [p|] eqn:Hp; cbv zeta; cbn [default from_option id].
  - apply newline_position_some in Hp as (He & Hn & Hp).
    assert (Hlen : length (take p chunk) = p) by (rewrite length_take; lia).
    assert (Hsplit : split_line (chunk ++ stream (Reader.mk [] reads))
              = Some (take p chunk, drop (p + 1) chunk ++ stream (Reader.mk [] reads))).
    { rewrite He at 1. rewrite <- app_assoc. by apply split_line_here. }
    unfold line_of. rewrite Hsplit. cbn [fst snd]. rewrite <- (collect_ends line oversized).
    unfold collect. rewrite Hlen. exists (Reader.mk (drop (p + 1) chunk) reads).
    split_and!; [|done|done]. destruct oversized; [done|]. by case_bool_decide.
  - apply newline_position_none in Hp. rewrite firstn_all.
    set (next := Reader.mk [] reads) in *.
    assert (Hnext : Reader.consume (length chunk) (Reader.mk chunk reads) = next).
    { unfold Reader.consume, next. cbn [Reader.buffer Reader.reads]. by rewrite drop_all. }
    rewrite Hnext.
    destruct (IH next (collect maximum line oversized chunk).1
                (collect maximum line oversized chunk).2 true) as (reader' & Hrun & Hfl & Hst).
    { done. }
    { unfold reader_size, next in *. simpl in *. lia. }
    { unfold collect. destruct oversized; [done|]. rewrite saturating_too_long by done.
      case_bool_decide; [done|]. simpl. rewrite length_app. simpl in *. lia. }
    exists reader'. unfold line_of in *. rewrite split_line_app by done.
    destruct (split_line (stream next)) as [[content rest]|] eqn:Hsp; cbn [fst snd mbind option_bind] in *.
    + rewrite <- collect_gathers. split_and!; [|done|done]. rewrite <- Hrun. unfold collect.
      destruct oversized; [done|]. by case_bool_decide.
    + rewrite (bool_decide_false (chunk ++ stream next = [])) by done. cbn [andb]. rewrite <- collect_gathers.
      rewrite andb_false_r in Hrun. split_and!; [|done|done]. rewrite <- Hrun. unfold collect.
      destruct oversized; [done|]. by case_bool_decide.
Qed.
End loop.

(** Reading a line of the input, or its end. *)
Lemma read_bounded_line_spec maximum reader :
  (maximum < USIZE_MAX)%N -> flows reader ->
  exists reader',
    read_bounded_line reader maximum
      = Some (Ok match split_line (stream reader) with
                 | Some (content, _) => frame maximum true content
                 | None => if decide (stream reader = []) then LineRead.Eof
                           else frame maximum false (stream reader)
                 end, reader')
    /\ flows reader'
    /\ stream reader' = match split_line (stream reader) with Some (_, rest) => rest | None => [] end.
Proof.
  intros Hmax Hr. unfold read_bounded_line.
  destruct (read_line_loop_spec maximum Hmax (S (reader_size reader)) reader [] false false)
    as (reader' & -> & Hfl & Hst); [done|lia|simpl; lia|].
  exists reader'. rewrite Hst. unfold line_of, gathered.
  destruct (split_line (stream reader)) as [[content rest]|]; simpl; [done|].
  rewrite andb_true_r. by case_bool_decide; case_decide.
Qed.

(** * Sessions over standard input

    The server as a function of the lines of its input, and the answers it
    writes: one to every request, in order, with the identifier of the request. *)

(** ** Line by line *)

Section server.
Context `{HC : Crates, HM : ModelParsers, HD : Driver, HL : LsqParser, HLm : LsmParser}.
Context `{HJ : JsonText, HS : Schemas} (config : McpConfig).

(** The server as a function of the lines it reads. *)
Fixpoint serve_frames (lines : list LineRead) : stdio Served :=
  match lines with
  | [] | LineRead.Eof :: _ => Ret (Returned (Ok tt))
  | LineRead.Oversized :: rest =>
      logged ← log_request "unknown" None "error" "MCP_REQUEST_TOO_LARGE";
      if logged : bool
      then then_write (rpc_error Value_Null (-32600) "request line is too large"
                         "MCP_REQUEST_TOO_LARGE") (serve_frames rest)
      else Ret Unwound
  | LineRead.Line line :: rest =>
      if forallb is_ascii_whitespace line then serve_frames rest else
      handled ← handle_line config (String.string_of_list_ascii line);
      match handled with
      | None => Ret Unwound
      | Some None => serve_frames rest
      | Some (Some response) => then_write response (serve_frames rest)
      end
  end.

Lemma serve_io_frames : forall fuel reader,
  flows reader -> length (stream reader) < fuel ->
  serve_io config fuel reader = serve_frames (frames MAX_REQUEST_LINE_BYTES (stream reader)).
Proof.
  induction fuel as [|fuel IH]; intros reader Hr Hf; [lia|]. cbn [serve_io].
  destruct (read_bounded_line_spec MAX_REQUEST_LINE_BYTES reader) as (reader' & -> & Hr' & Hs);
    [done..|]. rewrite frames_unfold.
  assert (IH' : length (stream reader') < length (stream reader) ->
    serve_io config fuel reader' = serve_frames (frames MAX_REQUEST_LINE_BYTES (stream reader')))
    by (intros; apply IH; [done|lia]).
  destruct (split_line (stream reader)) as [[content rest]|] eqn:Hsplit.
  - apply split_line_some in Hsplit as [He _].
    assert (Hlt : length (stream reader') < length (stream reader)).
    { rewrite Hs, He, length_app. simpl. lia. }
    rewrite (IH' Hlt), Hs. unfold frame. case_bool_decide; done.
  - case_decide as Hd; [done|]. rewrite Hs in *.
    assert (Hlt : 0 < length (stream reader)) by (destruct (stream reader); [done|simpl; lia]).
    rewrite (IH' Hlt). unfold frame. case_bool_decide; done.
Qed.

(** ** Answers *)

(** The messages of a trace. *)
Definition written (tr : list (event StdioRes)) : list Value :=
  omap (fun e => match ev_op e with ToWriter message => Some message | _ => None end) tr.

(** A response to a request: its result or an error. *)
Definition response_to (id : Value) (message : Value) : Prop :=
  (exists result, message = rpc_result id result)
  \/ exists code text public_code, message = rpc_error id code text public_code.

(** A call of a method, without its identifier. *)
Definition well_formed_call (object : list (string * Value)) : bool :=
  bool_decide (str_field "jsonrpc" object = Some "2.0")
  && bool_decide (is_Some (str_field "method" object)).

(** The identifier a text is answered with; [None] is a notification. *)
Definition answer_id (text : string) : option Value :=
  match value_from_slice text ≫= as_object with
  | None => Some Value_Null
  | Some object =>
      match bt_get "id" object with
      | Some id => Some (if valid_request_id id then id else Value_Null)
      | None => if well_formed_call object then None else Some Value_Null
      end
  end.

(** A blank line is not answered. *)
Definition frame_id (line : LineRead) : option Value :=
  match line with
  | LineRead.Eof => None
  | LineRead.Oversized => Some Value_Null
  | LineRead.Line line =>
      if forallb is_ascii_whitespace line then None
      else answer_id (String.string_of_list_ascii line)
  end.

Lemma written_app tr tr' : written (tr ++ tr') = written tr ++ written tr'.
Proof. apply omap_app. Qed.

Lemma on_database_runs {A} (p : io A) tr a :
  runs (on_database p) tr a -> exists tr', runs p tr' a /\ written tr = [].
Proof.
  revert tr. induction p as [b|op k IH]; intros tr; simpl.
  - intros [-> ->]. by exists [].
  - intros (r & tr' & -> & (tr'' & Hr & Hw)%IH). exists (Ev op r :: tr''). split; [eauto|exact Hw].
Qed.

(** What was printed last could not be. *)
Definition log_failed (tr : list (event StdioRes)) : Prop :=
  exists before log error, tr = before ++ [Ev (Eprintln log) (Err error)].

Lemma log_failed_app tr tr' : log_failed tr' -> log_failed (tr ++ tr').
Proof. intros (before & log & error & ->). exists (tr ++ before), log, error. apply app_assoc. Qed.

Lemma log_request_runs method tool status code tr logged :
  runs (log_request method tool status code) tr logged ->
  written tr = [] /\ (logged = false -> log_failed tr).
Proof.
  intros (r & tr' & -> & (r' & tr'' & -> & [-> ->])). split; [done|]. destruct r' as [|error]; [done|].
  intros _. by eexists [_], _, error.
Qed.

Lemma logged_runs {A} method tool status code (a : A) tr b :
  runs (then_return (log_request method tool status code) a) tr b ->
  written tr = [] /\ (b = Some a \/ b = None /\ log_failed tr).
Proof.
  intros (tr1 & logged & tr2 & -> & [Hw Hl]%log_request_runs & [-> ->])%runs_bind.
  rewrite app_nil_r. split; [done|]. destruct logged; auto.
Qed.

(** The outcome of a line: nothing is written by it, and a response is due exactly
    to a request that is not a notification, unless the log could not be printed. *)
Definition outcome_ok (due : option Value) (tr : list (event StdioRes))
    (handled : option (option Value)) : Prop :=
  written tr = []
  /\ match handled with
     | None => log_failed tr
     | Some (Some message) => exists id, due = Some id /\ response_to id message
     | Some None => due = None
     end.

Lemma logged_outcome method tool status code due response tr handled :
  runs (then_return (log_request method tool status code) response) tr handled ->
  match response with
  | Some message => exists id, due = Some id /\ response_to id message
  | None => due = None
  end ->
  outcome_ok due tr handled.
Proof. intros [Hw [->|[-> Hl]]]%logged_runs Hresp; by split. Qed.

Lemma reject_outcome code id rpc_code text public_code tr handled :
  runs (reject_request code (rpc_error id rpc_code text public_code)) tr handled ->
  outcome_ok (Some id) tr handled.
Proof.
  intros Hr. eapply logged_outcome; [exact Hr|]. exists id. split; [done|]. right. eauto.
Qed.

Lemma outcome_after tr1 tr2 due handled :
  written tr1 = [] -> outcome_ok due tr2 handled -> outcome_ok due (tr1 ++ tr2) handled.
Proof.
  intros Hw [Hw2 Hh]. split; [by rewrite written_app, Hw|].
  destruct handled as [[message|]|]; [done..|]. by apply log_failed_app.
Qed.

Lemma answer_request_outcome id method params tr handled :
  runs (answer_request config id method params) tr handled -> outcome_ok id tr handled.
Proof.
  unfold answer_request. cbv zeta.
  intros (tr1 & dispatched & tr2 & -> & (tr' & Hd & Hw1)%on_database_runs & Hr)%runs_bind.
  apply outcome_after; [done|]. destruct dispatched as [result|[error|]].
  - destruct id as [id|].
    + destruct (tool_result_status result) as [status code].
      eapply logged_outcome; [exact Hr|]. exists id. split; [done|]. left. eauto.
    + by eapply logged_outcome.
  - eapply logged_outcome; [exact Hr|]. destruct id as [id|]; [|done].
    exists id. split; [done|]. right. eauto.
  - destruct (dispatch_fails _ _ _ _ _ Hd _ eq_refl) as (f & [=] & _).
Qed.

Lemma handle_line_outcome text tr handled :
  runs (handle_line config text) tr handled -> outcome_ok (answer_id text) tr handled.
Proof.
  unfold handle_line, answer_id, well_formed_call, invalid_request.
  destruct (value_from_slice text) as [message|]; simpl; [|apply reject_outcome].
  destruct (as_object message) as [object|]; [|apply reject_outcome].
  destruct (bt_get "id" object) as [id|] eqn:Hid.
  - simpl. destruct (valid_request_id id); simpl; [|apply reject_outcome].
    destruct (str_field "method" object) as [method|]; [|apply reject_outcome].
    case_decide; [apply answer_request_outcome|apply reject_outcome].
  - simpl. destruct (str_field "method" object) as [method|]; simpl.
    + case_decide as Hv.
      * rewrite bool_decide_true by done. apply answer_request_outcome.
      * rewrite (bool_decide_false _ Hv). apply reject_outcome.
    + rewrite andb_false_r. apply reject_outcome.
Qed.

(** ** Sessions *)

(** The last call was a failed write, of a message, of its line feed or of what is
    buffered, with this error. *)
Definition write_failed (tr : list (event StdioRes)) (e : McpServerError) : Prop :=
  exists before,
    (exists message error, tr = before ++ [Ev (ToWriter message) (Err error)]
       /\ e = McpServerError.Serialization error)
    \/ (exists error, (tr = before ++ [Ev (WriteAll nl) (Err error)]
                       \/ tr = before ++ [Ev Flush (Err error)])
          /\ e = McpServerError.Io error).

Lemma write_failed_app tr tr' e : write_failed tr' e -> write_failed (tr ++ tr') e.
Proof.
  intros (before & [(m & error & -> & ->)|(error & [->| ->] & ->)]); exists (tr ++ before).
  - left. exists m, error. split; [apply app_assoc|done].
  - right. exists error. split; [left; apply app_assoc|done].
  - right. exists error. split; [right; apply app_assoc|done].
Qed.

(** A message is written, then the rest is served. *)
Lemma then_write_runs message rest tr served :
  runs (then_write message rest) tr served ->
  exists tr1 tr2, tr = tr1 ++ tr2 /\ written tr1 = [message]
    /\ (runs rest tr2 served
        \/ tr2 = [] /\ exists e, served = Returned (Err e) /\ write_failed tr1 e).
Proof.
  unfold then_write, write_message.
  intros (tr1 & r & tr2 & -> & (r1 & tr3 & -> & H1) & H2)%runs_bind.
  assert (Hstop : forall e, r = Err e -> tr2 = [] /\ served = Returned (Err e))
    by (intros e ->; exact H2).
  destruct r1 as [[]|error].
  2: { destruct H1 as [-> ->]. destruct (Hstop _ eq_refl) as [-> ->].
       eexists _, []. split_and!; [done..|]. right. split; [done|]. eexists. split; [done|].
       exists []. left. eauto. }
  destruct H1 as (r2 & tr4 & -> & H1). destruct r2 as [[]|error].
  2: { destruct H1 as [-> ->]. destruct (Hstop _ eq_refl) as [-> ->].
       eexists _, []. split_and!; [done..|]. right. split; [done|]. eexists. split; [done|].
       exists [Ev (ToWriter message) (Ok tt)]. right. eauto. }
  destruct H1 as (r3 & tr5 & -> & [-> ->]). destruct r3 as [[]|error].
  - eexists _, tr2. split_and!; [done..|]. by left.
  - destruct (Hstop _ eq_refl) as [-> ->].
    eexists _, []. split_and!; [done..|]. right. split; [done|]. eexists. split; [done|].
    exists [Ev (ToWriter message) (Ok tt); Ev (WriteAll nl) (Ok tt)]. right. eauto.
Qed.

(** How a session goes: the messages are the responses to the first requests that
    are due one, and to all of them if serving ends with the input; otherwise the
    last call failed, a write or the log. *)
Definition session_ok (lines : list LineRead) (tr : list (event StdioRes)) (served : Served) : Prop :=
  let due := omap frame_id lines in
  (exists n, Forall2 response_to (take n due) (written tr))
  /\ match served with
     | Returned (Ok _) => Forall2 response_to due (written tr)
     | Returned (Err e) => write_failed tr e
     | Unwound => log_failed tr
     | OutOfFuel => False
     end.

(** What comes before a session and writes nothing. *)
Lemma session_after lines tr1 tr2 served :
  written tr1 = [] -> session_ok lines tr2 served -> session_ok lines (tr1 ++ tr2) served.
Proof.
  intros Hw [Hn Hs]. unfold session_ok. cbv zeta. rewrite written_app, Hw. split; [done|].
  destruct served as [[|e]| |]; [done|by apply write_failed_app|by apply log_failed_app|done].
Qed.

(** A line that is not answered. *)
Lemma session_skip line lines tr served :
  frame_id line = None -> session_ok lines tr served -> session_ok (line :: lines) tr served.
Proof. intros Hid. unfold session_ok. simpl. by rewrite Hid. Qed.

Lemma session_stops lines tr served :
  written tr = [] ->
  match served with
  | Returned (Ok _) | OutOfFuel => False
  | Returned (Err e) => write_failed tr e
  | Unwound => log_failed tr
  end -> session_ok lines tr served.
Proof.
  intros Hw Hs. split; [exists 0; by rewrite Hw; constructor|]. by destruct served as [[]| |].
Qed.

Lemma write_session line lines message rest id tr served :
  runs (then_write message rest) tr served ->
  frame_id line = Some id -> response_to id message ->
  (forall tr', runs rest tr' served -> session_ok lines tr' served) ->
  session_ok (line :: lines) tr served.
Proof.
  intros (tr1 & tr2 & -> & Hw & [Hr|(-> & e & -> & He)])%then_write_runs Hid Hresp Hrest;
    unfold session_ok; simpl; rewrite Hid, written_app, Hw.
  - destruct (Hrest _ Hr) as [[n Hn] Hs]. split.
    + exists (S n). by constructor.
    + destruct served as [[|e]| |]; [by constructor|by apply write_failed_app
                                    |by apply log_failed_app|done].
  - rewrite (app_nil_r tr1). split; [|done]. exists 1. simpl. rewrite take_0.
    by apply Forall2_cons; split; [|apply Forall2_nil].
Qed.

Lemma serve_frames_session lines : forall tr served,
  Forall (fun line => line <> LineRead.Eof) lines ->
  runs (serve_frames lines) tr served -> session_ok lines tr served.
Proof.
  induction lines as [|line lines IH]; intros tr served Hl.
  { intros [-> ->]. split; [exists 0|]; constructor. }
  apply Forall_cons in Hl as [Hne Hl]. destruct line as [|line|]; [done| |]; cbn [serve_frames].
  - destruct (forallb is_ascii_whitespace line) eqn:Hb.
    + intros Hr. apply session_skip; [simpl; by rewrite Hb|]. by apply IH.
    + intros (tr1 & handled & tr2 & -> & [Hw Hh]%handle_line_outcome & Hr)%runs_bind.
      assert (Hid : frame_id (LineRead.Line line) = answer_id (String.string_of_list_ascii line))
        by (simpl; by rewrite Hb).
      destruct handled as [[message|]|].
      * apply session_after; [done|]. destruct Hh as (id & Hdue & Hresp).
        eapply write_session; [exact Hr|by rewrite Hid|done|]. auto.
      * apply session_after; [done|]. apply session_skip; [by rewrite Hid|]. by apply IH.
      * destruct Hr as [-> ->]. rewrite app_nil_r. by apply session_stops.
  - intros (tr1 & logged & tr2 & -> & [Hw Hlog]%log_request_runs & Hr)%runs_bind.
    destruct logged.
    + apply session_after; [done|]. eapply write_session; [exact Hr|done| |auto]. right. eauto.
    + destruct Hr as [-> ->]. rewrite app_nil_r. apply session_stops; [done|]. by apply Hlog.
Qed.

Lemma frames_are_lines maximum : forall fuel s,
  Forall (fun line => line <> LineRead.Eof) (frames_of fuel maximum s).
Proof.
  assert (Hf : forall b c, frame maximum b c <> LineRead.Eof)
    by (intros b c; unfold frame; by case_bool_decide).
  induction fuel as [|fuel IH]; intros s; simpl.
  - case_decide; auto.
  - destruct (split_line s) as [[content rest]|]; [auto|]. case_decide; auto.
Qed.
End server.

(** * Correctness of the server over standard input *)

Lemma sample_input_flows : flows sample_input.
Proof. repeat constructor; eexists; split; done. Qed.

Lemma sample_frames :
  frames MAX_REQUEST_LINE_BYTES (stream sample_input)
  = [LineRead.Line (bytes "ping"); LineRead.Line (bytes "note"); LineRead.Line (bytes "  ")].
Proof. vm_compute. reflexivity. Qed.

Lemma sample_ids :
  omap frame_id (frames MAX_REQUEST_LINE_BYTES (stream sample_input)) = [Value_Integer 1].
Proof. vm_compute. reflexivity. Qed.

(** C21: the loop ends on every input, and serves its lines one by one.  However
    the bytes arrive, with as many steps as there are bytes, and with any more,
    the server is the one that handles the lines of the whole input in order: the
    bytes between line feeds without the carriage return at their end, a last
    line without a line feed, and, for a line of more than 1048576 bytes, an
    error instead of its content, after which reading goes on with the next
    line. *)
Theorem input_is_served_line_by_line
    `{HC : Crates, HM : ModelParsers, HD : Driver, HL : LsqParser, HLm : LsmParser}
    `{HJ : JsonText, HS : Schemas} config reader fuel :
  flows reader -> reader_size reader < fuel ->
  serve_io config fuel reader
  = serve_frames config (frames MAX_REQUEST_LINE_BYTES (stream reader)).
Proof. intros Hr Hf. apply serve_io_frames; [done|]. pose proof (stream_size _ Hr). lia. Qed.

Lemma input_is_served_line_by_line_witness :
  serve_reader shop_server sample_input
  = serve_frames shop_server
      [LineRead.Line (bytes "ping"); LineRead.Line (bytes "note"); LineRead.Line (bytes "  ")].
Proof.
  refine (eq_trans (input_is_served_line_by_line shop_server sample_input
    (S (reader_size sample_input)) sample_input_flows (Nat.lt_succ_diag_r _)) _).
  exact (f_equal (serve_frames shop_server) sample_frames).
Defined.

(** C20: every request is answered exactly once, in the order of the requests and
    with its identifier.  Over an input that can be read, what is written is, one
    for one, the results or errors for the lines that are due an answer, from the
    first one on: all but blank lines and well-formed notifications.  A line that
    cannot be read as a request is answered with the identifier [null].  If
    serving succeeds, every line was answered; if it fails, the last call was the
    failed write of a message, whose error it returns; and it panics only if the
    last call failed to print the log. *)
Theorem requests_are_answered_in_order
    `{HC : Crates, HM : ModelParsers, HD : Driver, HL : LsqParser, HLm : LsmParser}
    `{HJ : JsonText, HS : Schemas} config reader tr served :
  flows reader -> runs (serve_reader config reader) tr served ->
  let due := omap frame_id (frames MAX_REQUEST_LINE_BYTES (stream reader)) in
  (exists n, Forall2 response_to (take n due) (written tr))
  /\ match served with
     | Returned (Ok _) => Forall2 response_to due (written tr)
     | Returned (Err e) => write_failed tr e
     | Unwound => log_failed tr
     | OutOfFuel => False
     end.
Proof.
  intros Hr Hrun. unfold serve_reader in Hrun.
  rewrite serve_io_frames in Hrun; [|done|by pose proof (stream_size _ Hr); lia].
  eapply serve_frames_session; [apply frames_are_lines|exact Hrun].
Qed.

Lemma requests_are_answered_in_order_witness :
  session.2 = Returned (Ok tt) /\ Forall2 response_to [Value_Integer 1] (written session.1).
Proof.
  assert (Hr := proj2 (requests_are_answered_in_order shop_server sample_input session.1
                         session.2 sample_input_flows session_runs)).
  assert (Hs : session.2 = Returned (Ok tt)) by (vm_compute; reflexivity).
  split; [exact Hs|]. rewrite <- sample_ids. exact Hr.
Defined.
