(* ===== verification/McpResourceTheorems.v ===== *)
(** * Cursors and identifiers of resources

    A cursor decodes to the offset it was made of, for the revision and the
    authority it was made for; pages follow one another without a gap; and the
    identifiers of resources tell them apart.

    Then the theorems on listings and resources. *)

From S2P Require Import RateLimit Database PublishedModel Executor MutationExecutor Prelude.
From S2P Require Import Ordered Text StrOps Json Lsq Semantic Compiler Lsm Mutation Effects.
From S2P Require Import Fixtures ExecutorFixtures Mcp McpParams McpPublic McpTools McpSpec.
From S2P Require Import McpFixtures.

(** ** Numbers in decimal *)

Lemma pretty_N_digits x : forall s, all_in is_ascii_digit s -> all_in is_ascii_digit (pretty_N_go x s).
Proof.
  induction (N.lt_wf_0 x) as [x _ IH]. intros s Hs. destruct (decide (x = 0)%N) as [->|Hx].
  { by rewrite pretty_N_go_0. }
  rewrite pretty_N_go_step by lia. apply IH; [apply N.div_lt; lia|]. constructor; [|exact Hs].
  by apply pretty_N_char_digit, N.mod_lt.
Qed.

Lemma pretty_digits (n : N) : all_in is_ascii_digit (pretty n) /\ pretty n <> EmptyString.
Proof.
  unfold pretty, pretty_N. case_decide; [split; [by repeat constructor|done]|].
  split; [apply pretty_N_digits; constructor|]. intros He.
  pose proof (decimal_go n EmptyString) as Hg. rewrite He in Hg. by injection Hg as <-.
Qed.

Lemma parse_u64_pretty n : (n <= USIZE_MAX)%N -> parse_u64 (pretty n) = Some n.
Proof.
  intros Hn. destruct (pretty_digits n) as [Hd Hne].
  pose proof (parse_decimal_pretty n) as Hp.
  unfold parse_u64. destruct (pretty n) as [|c s] eqn:Hs; [done|].
  assert (c <> "+"%char).
  { unfold all_in in Hd. apply Forall_cons in Hd as [Hc _]. by intros ->. }
  assert (Hm : match String c s with String "+" s' => s' | _ => String c s end = String c s).
  { destruct c as [[] [] [] [] [] [] [] []]; try done. }
  rewrite Hm. rewrite decide_False by done. rewrite Hp. simpl. by rewrite decide_True.
Qed.

(** ** Cursors *)

Abbreviation no_bar := (no_byte (is_char 124)).

Lemma hex_no_bar c : is_hex_lower c = true -> is_char 124 c = false.
Proof.
  unfold is_hex_lower, is_char. intros [Hc|Hc]%orb_true_iff; apply bool_decide_eq_false;
    [unfold is_ascii_digit in Hc|]; apply bool_decide_eq_true in Hc; lia.
Qed.

Lemma sha256_no_bar `{Crates} value : no_bar (sha256 value).
Proof.
  unfold no_byte, sha256. rewrite bytes_app. apply Forall_app. split; [by repeat constructor|].
  destruct (encode_hex_spec (sha256_digest value)) as [_ Hh]. apply forallb_Forall in Hh.
  eapply Forall_impl; [exact Hh|]. apply hex_no_bar.
Qed.

Lemma is_sha256_no_bar value : is_sha256 value = true -> no_bar value.
Proof.
  unfold is_sha256. intros [[Hl Hp]%andb_true_iff Hh]%andb_true_iff. unfold no_byte.
  apply starts_with_spec in Hp as [t ->]. rewrite bytes_app in *. apply Forall_app.
  split; [by repeat constructor|]. apply forallb_Forall in Hh.
  eapply Forall_impl; [exact Hh|]. apply hex_no_bar.
Qed.

Lemma split_cursor `{Crates} revision authority_id offset :
  no_bar revision ->
  split (is_char 124) (model_cursor revision authority_id offset)
  = ["v2"; revision; sha256 authority_id; pretty offset].
Proof.
  intros Hr. unfold model_cursor.
  change ("v2|" +:+ ?x) with ("v2" +:+ String (byte_of 124) x).
  change ("|" +:+ pretty offset) with (String (byte_of 124) (pretty offset)).
  change ("|" +:+ ?x) with (String (byte_of 124) x).
  assert (Ho : no_bar (pretty offset)).
  { destruct (pretty_digits offset) as [Hd _]. unfold all_in in Hd. eapply Forall_impl; [exact Hd|].
    intros c Hc. apply hex_no_bar. unfold is_hex_lower. by rewrite Hc. }
  rewrite !split_cons by first [done | apply sha256_no_bar | by repeat constructor].
  unfold split. by rewrite split_parts_none.
Qed.

(** A cursor is read back for its own revision and authority. *)
Lemma parse_model_cursor `{Crates} revision authority_id offset :
  no_bar revision -> (offset <= USIZE_MAX)%N ->
  parse_cursor (Some (model_cursor revision authority_id offset)) revision authority_id = Ok offset.
Proof.
  intros Hr Ho. unfold parse_cursor. rewrite split_cursor by done.
  rewrite !bool_decide_false by auto. simpl. by rewrite parse_u64_pretty.
Qed.

(** ** Pages *)

Lemma value_get_object key v fields :
  NoDup fields.*1 -> (key, v) ∈ fields -> value_get key (json_object fields) = Some v.
Proof. intros Hnd Hin. by apply bt_from_list_get_nodup. Qed.

(** Looks a key up in an object that is written out. *)
Ltac json_get :=
  apply value_get_object; [apply nodup_bool; vm_compute; reflexivity | find_in_list].

(** What a client gets that asks for the first page and then follows the cursors:
    the models of all pages, if the last page is reached within [fuel] requests. *)
Section paging.
Context `{Crates} (config : McpConfig) (published : PublishedModel) (limit : N).

Fixpoint pages (fuel : nat) (cursor : option string) : option (list Value) :=
  match fuel, list_page config published cursor limit with
  | S fuel, Ok page =>
      match value_get "models" page, value_get "next_cursor" page with
      | Some (Value_Array models), Some Value_Null => Some models
      | Some (Value_Array models), Some (Value_String cursor) =>
          app models <$> pages fuel (Some cursor)
      | _, _ => None
      end
  | _, _ => None
  end.

Abbreviation snapshot := (PublishedModel.snapshot published).
Abbreviation authority := (ExecutionContext.authority_id (McpConfig.execution_context config)).
Abbreviation models := (queryable_models snapshot).

(** The cursor of an offset: the start has none. *)
Definition at_offset (cursor : option string) (offset : N) : Prop :=
  (cursor = None /\ offset = 0%N)
  \/ cursor = Some (model_cursor (Snapshot.revision_hash snapshot) authority offset).

Lemma pages_from : forall fuel cursor offset,
  no_bar (Snapshot.revision_hash snapshot) ->
  (1 <= limit)%N -> (N.of_nat (length models) <= USIZE_MAX)%N ->
  at_offset cursor offset -> (offset <= N.of_nat (length models))%N ->
  length models - N.to_nat offset < fuel ->
  pages fuel cursor = Some (map list_entry (drop (N.to_nat offset) models)).
Proof.
  induction fuel as [|fuel IH]; intros cursor offset Hbar Hlimit Hmax Hat Ho Hf; [lia|].
  assert (Hparse : parse_cursor cursor (Snapshot.revision_hash snapshot) authority = Ok offset).
  { destruct Hat as [[-> ->]| ->]; [done|]. apply parse_model_cursor; [done|lia]. }
  cbn [pages]. unfold list_page. rewrite Hparse. cbn [mbind result_bind map_err]. cbv zeta.
  rewrite bool_decide_false by lia. cbn [fail_if mbind result_bind].
  rewrite page_in_range by lia. cbn [mbind result_bind].
  set (count := N.of_nat (length models)) in *.
  set (end_ := N.min (saturating_add offset limit) count).
  assert (Hend : (end_ = N.min (offset + limit) count)%N) by (unfold end_, saturating_add; lia).
  match goal with |- context [json_object ?fields] => set (page := json_object fields) end.
  assert (value_get "models" page = Some (Value_Array (map list_entry
    (take (N.to_nat end_ - N.to_nat offset) (drop (N.to_nat offset) models))))) as ->
    by (unfold page; json_get).
  assert (value_get "next_cursor" page = Some (if decide (end_ < count)%N
    then Value_String (model_cursor (Snapshot.revision_hash snapshot) authority end_)
    else Value_Null)) as -> by (unfold page; json_get).
  clearbody page. case_decide as Hlast.
  - rewrite (IH _ end_); [|done..|by right|lia|lia]. cbn. f_equal. rewrite <- map_app. f_equal.
    rewrite <- (take_drop (N.to_nat end_ - N.to_nat offset) (drop (N.to_nat offset) models)) at 2.
    f_equal. rewrite drop_drop. f_equal. lia.
  - f_equal. rewrite take_ge; [done|]. rewrite length_drop. lia.
Qed.
End paging.

(** ** Identifiers of resources *)

Lemma upper_hex_inj m n : (m < 16)%N -> (n < 16)%N -> upper_hex m = upper_hex n -> m = n.
Proof.
  unfold upper_hex. intros Hm Hn He. assert (Hb : forall k, (k < 256)%N -> code (byte_of k) = k)
    by apply N_ascii_embedding.
  apply (f_equal code) in He. repeat case_decide; rewrite !Hb in He by lia; lia.
Qed.

Lemma nibbles_inj a b :
  N.shiftr (code a) 4 = N.shiftr (code b) 4 -> N.land (code a) 15 = N.land (code b) 15 -> a = b.
Proof.
  intros Hh Hl. rewrite <- (ascii_N_embedding a), <- (ascii_N_embedding b). f_equal.
  change 15%N with (N.ones 4) in Hl. rewrite !N.land_ones in Hl. rewrite !N.shiftr_div_pow2 in Hh.
  change (2 ^ 4)%N with 16%N in *.
  rewrite (N.div_mod (code a) 16), (N.div_mod (code b) 16) by done. congruence.
Qed.

Lemma percent_encode_inj s : forall t, percent_encode s = percent_encode t -> s = t.
Proof.
  induction s as [|a s IH]; intros [|b t]; cbn [percent_encode].
  { done. }
  { destruct (is_unreserved b); discriminate. }
  { destruct (is_unreserved a); discriminate. }
  destruct (is_unreserved a) eqn:Ha, (is_unreserved b) eqn:Hb.
  - intros [= -> Hst]. by rewrite (IH t).
  - intros [= -> _]. vm_compute in Ha. done.
  - intros [= <- _]. vm_compute in Hb. done.
  - intros [= H1 H2 Hst]. rewrite (IH t Hst). f_equal.
    destruct (nibbles_bound a), (nibbles_bound b).
    apply nibbles_inj; by apply upper_hex_inj.
Qed.

Lemma sapp_cancel (s t u : string) : s +:+ t = s +:+ u -> t = u.
Proof. induction s as [|c s IH]; [done|]. rewrite !sapp_cons. intros [= He]. by apply IH. Qed.

Lemma model_uri_inj project a b : model_uri project a = model_uri project b -> a = b.
Proof. unfold model_uri. intros ->%sapp_cancel%sapp_cancel%sapp_cancel%percent_encode_inj. done. Qed.

Lemma model_uri_revision project model : model_uri project model <> current_revision_uri project.
Proof. unfold model_uri, current_revision_uri. by intros ?%sapp_cancel%sapp_cancel. Qed.

(** * Correctness of listings and resources *)

(** ** Listings *)

(** C28: following the cursors of [list_semantic_models] from the start yields
    every queryable model of the revision exactly once and in order, and ends:
    with at most one request more than there are models, whatever the page size
    between 1 and 100. *)
Theorem listing_is_exhaustive `{HC : Crates} config published limit :
  is_sha256 (Snapshot.revision_hash (PublishedModel.snapshot published)) = true ->
  (N.of_nat (length (queryable_models (PublishedModel.snapshot published))) <= USIZE_MAX)%N ->
  (1 <= limit <= MAX_PAGE_LIMIT)%N ->
  pages config published limit
    (S (length (queryable_models (PublishedModel.snapshot published)))) None
  = Some (map list_entry (queryable_models (PublishedModel.snapshot published))).
Proof.
  intros Hrev%is_sha256_no_bar Hmax [Hl _].
  rewrite (pages_from _ _ _ _ _ 0%N); [done|done|done|done|by left|lia|simpl; lia].
Qed.

Definition shop_published : PublishedModel := PublishedModel.mk "shop" "revision-1" shop.

Lemma listing_is_exhaustive_witness :
  pages shop_server shop_published 1 2 None = Some (map list_entry [sales]).
Proof.
  exact (listing_is_exhaustive shop_server shop_published 1 ltac:(vm_compute; reflexivity)
           ltac:(vm_compute; discriminate) ltac:(split; vm_compute; discriminate)).
Defined.

(** A cursor is accepted exactly for the revision and the authority it was
    issued for, and then stands for the offset it was issued with. *)
Theorem cursors_are_bound `{HC : Crates} revision authority_id offset revision' authority_id' n :
  is_sha256 revision = true -> (offset <= USIZE_MAX)%N ->
  parse_cursor (Some (model_cursor revision authority_id offset)) revision' authority_id' = Ok n
  <-> revision' = revision /\ sha256 authority_id' = sha256 authority_id /\ n = offset.
Proof.
  intros Hrev%is_sha256_no_bar Ho. unfold parse_cursor. rewrite split_cursor by done.
  rewrite (bool_decide_false ("v2" <> "v2")) by auto. cbn [fail_if mbind result_bind].
  rewrite parse_u64_pretty by done. split.
  - intros Hn. unbind. split_and!; [by symmetry; apply dec_stable..|congruence].
  - intros (-> & -> & ->). by rewrite !bool_decide_false by auto.
Qed.

Lemma cursors_are_bound_witness :
  parse_cursor (Some (model_cursor (Snapshot.revision_hash shop) "authority" 7))
    (Snapshot.revision_hash shop) "authority" = Ok 7%N.
Proof.
  exact (proj2 (cursors_are_bound (Snapshot.revision_hash shop) "authority" 7
           (Snapshot.revision_hash shop) "authority" 7 ltac:(vm_compute; reflexivity)
           ltac:(vm_compute; discriminate)) ltac:(split_and!; reflexivity)).
Defined.

(** The [maxLength] that the schema of [list_semantic_models] declares for a
    cursor. *)
Definition declared_cursor_length : option Z :=
  schema ← value_get "inputSchema" list_models_definition;
  properties ← value_get "properties" schema;
  cursor ← value_get "cursor" properties;
  match value_get "maxLength" cursor with Some (Value_Integer z) => Some z | _ => None end.

(** C40: no cursor that the server issues satisfies the schema that the server
    publishes for it: the schema allows 128 characters, and a cursor, which holds
    two SHA-256 identifiers, has at least 148. *)
Theorem issued_cursors_violate_schema `{HC : Crates} `{HO : !CratesOk} revision authority_id offset :
  is_sha256 revision = true ->
  exists declared, declared_cursor_length = Some declared
    /\ (declared < Z.of_nat (String.length (model_cursor revision authority_id offset)))%Z.
Proof.
  intros Hrev. exists 128%Z. split; [vm_compute; reflexivity|].
  pose proof (is_sha256_sha256 authority_id) as Ha. unfold is_sha256 in Hrev, Ha.
  do 2 (apply andb_true_iff in Hrev as [Hrev _]; apply andb_true_iff in Ha as [Ha _]).
  apply bool_decide_eq_true in Hrev, Ha. unfold model_cursor. rewrite !slength_app, Hrev, Ha.
  simpl. lia.
Qed.

Lemma issued_cursors_violate_schema_witness : exists declared,
  declared_cursor_length = Some declared
  /\ (declared < Z.of_nat (String.length (model_cursor (Snapshot.revision_hash shop) "authority" 50)))%Z.
Proof.
  exact (issued_cursors_violate_schema (Snapshot.revision_hash shop) "authority" 50
           ltac:(vm_compute; reflexivity)).
Defined.

(** ** Resources *)

(** The identifiers of [resources/list]. *)
Definition listed_uris (config : McpConfig) (snapshot : SemanticSnapshot) : list string :=
  omap (fun entry => value_get "uri" entry ≫= as_str) (resource_entries config snapshot).

Lemma resource_entry_uri uri name mime_type :
  value_get "uri" (resource_entry uri name mime_type) ≫= as_str = Some uri.
Proof.
  assert (value_get "uri" (resource_entry uri name mime_type) = Some (Value_String uri)) as ->
    by json_get. done.
Qed.

Lemma listed_uris_spec config snapshot uri :
  uri ∈ listed_uris config snapshot <->
  uri = current_revision_uri (McpConfig.project config) \/ uri = LSQ_SCHEMA_URI
  \/ (uri = LSM_SCHEMA_URI /\ mutation_enabled config = true)
  \/ exists model, model ∈ queryable_models snapshot
       /\ uri = model_uri (McpConfig.project config) (Model.semantic_name model).
Proof.
  unfold listed_uris, resource_entries. rewrite !omap_app, !elem_of_app.
  assert (Hm : forall l, uri ∈ omap (fun entry => value_get "uri" entry ≫= as_str)
      (map (fun model => resource_entry (model_uri (McpConfig.project config)
         (Model.semantic_name model)) ("Semantic model " +:+ Model.semantic_name model)
         "application/json") l)
    <-> exists model, model ∈ l
       /\ uri = model_uri (McpConfig.project config) (Model.semantic_name model)).
  { intros l. rewrite list_elem_of_omap. setoid_rewrite list_elem_of_fmap. split.
    - intros (v & (model & -> & Hin) & Hv). rewrite resource_entry_uri in Hv. by simplify_eq; eauto.
    - intros (model & Hin & ->). eexists. split; [by eexists|apply resource_entry_uri]. }
  rewrite Hm. cbn [omap list_omap]. rewrite !resource_entry_uri, !elem_of_cons, elem_of_nil.
  destruct (mutation_enabled config); cbn [omap list_omap];
    rewrite ?resource_entry_uri, ?elem_of_cons, ?elem_of_nil; naive_solver.
Qed.

Section resources.
Context `{HC : Crates, HM : ModelParsers, HD : Driver, HJ : JsonText, HS : Schemas}.
Context (config : McpConfig).

Lemma read_published_resource_listed snapshot uri v :
  read_published_resource config snapshot uri = Ok v -> uri ∈ listed_uris config snapshot.
Proof.
  rewrite listed_uris_spec. unfold read_published_resource. cbv zeta. case_decide; [auto|].
  destruct (List.find _ _) as [model|] eqn:Hf; [|done]. intros _. do 3 right. exists model.
  apply find_some in Hf as [Hin Hu]. apply bool_decide_eq_true in Hu. split; [|done].
  by apply list_elem_of_In.
Qed.

(** Only listed identifiers can be read. *)
Lemma read_resource_listed uri tr v :
  runs (read_resource config (ResourceReadParams.mk uri)) tr (Ok v) ->
  uri = LSQ_SCHEMA_URI \/ (uri = LSM_SCHEMA_URI /\ mutation_enabled config = true)
  \/ exists published, runs (load_for_resource config) tr (Ok published)
       /\ uri ∈ listed_uris config (PublishedModel.snapshot published).
Proof.
  unfold read_resource. cbv zeta. cbn [ResourceReadParams.uri]. case_decide; [auto|].
  destruct (bool_decide (uri = LSM_SCHEMA_URI) && mutation_enabled config) eqn:Hlsm.
  { apply andb_true_iff in Hlsm as [?%bool_decide_eq_true ?]. auto. }
  intros (tr1 & published & tr2 & -> & Hl & [-> Hv])%runs_try. do 2 right. exists published.
  rewrite app_nil_r. split; [done|]. symmetry in Hv. apply map_err_ok in Hv.
  by eapply read_published_resource_listed.
Qed.

Context (Hwrite : forall v, is_Some (value_to_vec v)).

Lemma resource_contents_ok uri mime v : exists w, resource_contents uri mime v = Ok w.
Proof using Hwrite. unfold resource_contents. destruct (Hwrite v) as [t ->]. simpl. eauto. Qed.

Lemma read_model_found snapshot model :
  NoDup (map Model.semantic_name (queryable_models snapshot)) ->
  model ∈ queryable_models snapshot ->
  read_published_resource config snapshot
    (model_uri (McpConfig.project config) (Model.semantic_name model))
  = resource_contents (model_uri (McpConfig.project config) (Model.semantic_name model))
      "application/json"
      (describe_model (Snapshot.revision_hash snapshot) model
         (ExecutorConfig.max_result_bytes (McpConfig.executor config))).
Proof.
  intros Hnd Hin. unfold read_published_resource. cbv zeta.
  rewrite decide_False by apply model_uri_revision.
  destruct (List.find _ _) as [model'|] eqn:Hf.
  - apply find_some in Hf as [Hin'%list_elem_of_In Hu%bool_decide_eq_true].
    apply model_uri_inj in Hu. by rewrite (NoDup_map_inj _ _ _ _ Hnd Hin Hin' Hu).
  - apply list_elem_of_In in Hin. eapply find_none in Hf; [|exact Hin].
    by apply bool_decide_eq_false in Hf.
Qed.

Lemma model_uri_no_schema model uri :
  uri = model_uri (McpConfig.project config) model
  \/ uri = current_revision_uri (McpConfig.project config) ->
  uri <> LSQ_SCHEMA_URI /\ uri <> LSM_SCHEMA_URI.
Proof. intros [-> | ->]; by split; intros [=]. Qed.

Lemma read_resource_published uri tr published :
  uri <> LSQ_SCHEMA_URI -> uri <> LSM_SCHEMA_URI ->
  runs (load_for_resource config) tr (Ok published) ->
  runs (read_resource config (ResourceReadParams.mk uri)) tr
    (map_err Thrown.Raised
       (read_published_resource config (PublishedModel.snapshot published) uri)).
Proof.
  intros Hq Hm Hl. unfold read_resource. cbv zeta. cbn [ResourceReadParams.uri].
  rewrite decide_False, bool_decide_false by done. cbn [andb].
  apply runs_bind. exists tr, (Ok published), []. rewrite app_nil_r. by split_and!.
Qed.

Lemma read_current_runs tr published :
  runs (load_for_resource config) tr (Ok published) ->
  exists v, runs (read_resource config
    (ResourceReadParams.mk (current_revision_uri (McpConfig.project config)))) tr (Ok v).
Proof using Hwrite.
  intros Hload. destruct (model_uri_no_schema "" _ (or_intror eq_refl)) as [Hq Hm].
  pose proof (read_resource_published _ _ _ Hq Hm Hload) as Hr.
  unfold read_published_resource in Hr. cbv zeta in Hr. rewrite decide_True in Hr by done.
  match type of Hr with context [resource_contents ?u ?m ?v] =>
    destruct (resource_contents_ok u m v) as [w Hw]; rewrite Hw in Hr end. by exists w.
Qed.

Lemma read_schema_ok uri schema :
  is_Some (value_from_slice schema) -> exists v, read_schema uri schema = Ok v.
Proof using Hwrite.
  intros [document Hd]. unfold read_schema. rewrite Hd. cbn. apply resource_contents_ok.
Qed.

Lemma read_lsq_runs :
  is_Some (value_from_slice LSQ_SCHEMA) ->
  exists v, runs (read_resource config (ResourceReadParams.mk LSQ_SCHEMA_URI)) [] (Ok v).
Proof using Hwrite.
  intros [v Hv]%(read_schema_ok LSQ_SCHEMA_URI). exists v. split; [done|].
  cbn [ResourceReadParams.uri]. by rewrite Hv.
Qed.

Lemma read_lsm_runs :
  is_Some (value_from_slice LSM_SCHEMA) -> mutation_enabled config = true ->
  exists v, runs (read_resource config (ResourceReadParams.mk LSM_SCHEMA_URI)) [] (Ok v).
Proof using Hwrite.
  intros [v Hv]%(read_schema_ok LSM_SCHEMA_URI) Hen. exists v. unfold read_resource. cbv zeta.
  cbn [ResourceReadParams.uri]. rewrite Hen. split; [done|]. by rewrite Hv.
Qed.
End resources.

(** C29: the resources that can be read are exactly the ones that are listed.
    When the published model can be loaded, every listed identifier can be read,
    and that of a model, although names are percent-encoded, yields the
    description of that very model; and nothing can be read that is not listed.
    (serde_json can write every value, and the embedded schemas are JSON.) *)
Theorem listed_resources_are_readable
    `{HC : Crates, HM : ModelParsers, HD : Driver, HJ : JsonText, HS : Schemas} config :
  (forall v, is_Some (value_to_vec v)) ->
  is_Some (value_from_slice LSQ_SCHEMA) -> is_Some (value_from_slice LSM_SCHEMA) ->
  (forall tr published uri,
     runs (load_for_resource config) tr (Ok published) ->
     NoDup (map Model.semantic_name (queryable_models (PublishedModel.snapshot published))) ->
     uri ∈ listed_uris config (PublishedModel.snapshot published) ->
     exists tr' v, runs (read_resource config (ResourceReadParams.mk uri)) tr' (Ok v)
       /\ forall model, model ∈ queryable_models (PublishedModel.snapshot published) ->
            uri = model_uri (McpConfig.project config) (Model.semantic_name model) ->
            resource_contents uri "application/json"
              (describe_model (Snapshot.revision_hash (PublishedModel.snapshot published)) model
                 (ExecutorConfig.max_result_bytes (McpConfig.executor config))) = Ok v)
  /\ forall tr uri v,
       runs (read_resource config (ResourceReadParams.mk uri)) tr (Ok v) ->
       uri = LSQ_SCHEMA_URI \/ (uri = LSM_SCHEMA_URI /\ mutation_enabled config = true)
       \/ exists published, runs (load_for_resource config) tr (Ok published)
            /\ uri ∈ listed_uris config (PublishedModel.snapshot published).
Proof.
  intros Hwrite Hlsq Hlsm. split; [|intros tr uri v; apply read_resource_listed].
  intros tr published uri Hload Hnd.
  intros [->|[->|[[-> Hen]|(model & Hin & ->)]]]%listed_uris_spec.
  - destruct (read_current_runs config Hwrite _ _ Hload) as [v Hv]. exists tr, v.
    split; [done|]. intros model _ He. symmetry in He. by apply model_uri_revision in He.
  - destruct (read_lsq_runs config Hwrite Hlsq) as [v Hv]. exists [], v. split; [done|].
    intros model _ He. by destruct (model_uri_no_schema config _ _ (or_introl He)).
  - destruct (read_lsm_runs config Hwrite Hlsm Hen) as [v Hv]. exists [], v. split; [done|].
    intros model _ He. by destruct (model_uri_no_schema config _ _ (or_introl He)).
  - destruct (model_uri_no_schema config (Model.semantic_name model) _ (or_introl eq_refl)) as [Hq Hm].
    pose proof (read_resource_published config _ _ _ Hq Hm Hload) as Hr.
    rewrite (read_model_found config _ _ Hnd Hin) in Hr.
    match type of Hr with context [resource_contents ?u ?m ?v] =>
      destruct (resource_contents_ok Hwrite u m v) as [w Hw]; rewrite Hw in Hr end.
    exists tr, w. split; [done|]. intros model' Hin' He%model_uri_inj.
    by rewrite <- (NoDup_map_inj _ _ _ _ Hnd Hin Hin' He).
Qed.

Definition shop_load : list (event answer) * result (Thrown RpcFailure) PublishedModel :=
  run one_sale fresh_claim (load_for_resource shop_server).

Lemma shop_loads : exists published, shop_load.2 = Ok published
  /\ PublishedModel.snapshot published = shop.
Proof. eexists. split; vm_compute; reflexivity. Qed.

Lemma listed_resources_are_readable_witness : exists tr v,
  runs (read_resource shop_server (ResourceReadParams.mk "semantic://projects/shop/models/sales"))
    tr (Ok v).
Proof.
  destruct shop_loads as (published & Hp & Hs).
  assert (Hload : runs (load_for_resource shop_server) shop_load.1 (Ok published))
    by (rewrite <- Hp; apply run_runs).
  destruct (proj1 (listed_resources_are_readable shop_server
      ltac:(intros v; exists "request"; reflexivity) ltac:(eexists; reflexivity)
      ltac:(eexists; reflexivity)) _ _ "semantic://projects/shop/models/sales" Hload)
    as (tr & v & Hr & _).
  - rewrite Hs. apply nodup_bool. vm_compute. reflexivity.
  - rewrite Hs. apply listed_uris_spec. do 3 right. exists sales.
    split; [apply list_elem_of_here|vm_compute; reflexivity].
  - exists tr, v. exact Hr.
Defined.
