(* ===== verification/Authoring.v ===== *)
(** * Scaffolding of semantic models ([authoring.rs])

    A request selects relations of one schema of a catalog snapshot; each becomes
    a model with a field per readable column and, where the primary key is a
    single readable column, a metric that counts rows. *)

From S2P Require Import Database Prelude Ordered Text StrOps Json Lsq Semantic Compiler Catalog.

(** ** Requests *)

Definition AUTHORING_SCHEMA_VERSION : string := "1".
Definition MAX_SCAFFOLD_MODELS : N := 1000.

Module ScaffoldRequest.
Record ScaffoldRequest : Type := mk {
  schema_version : string;
  schema : string;
  relations : list string;
  relation_prefix : option string;
  max_models : N;
  timezone : option string;
}.
End ScaffoldRequest.
Abbreviation ScaffoldRequest := ScaffoldRequest.ScaffoldRequest.

Module ScaffoldReport.
Record ScaffoldReport : Type := mk {
  schema_version : string;
  catalog_fingerprint : string;
  source_database : string;
  source_schema : string;
  selected_relations : N;
  omitted_unselectable_columns : N;
  snapshot : SemanticSnapshot;
}.
End ScaffoldReport.
Abbreviation ScaffoldReport := ScaffoldReport.ScaffoldReport.

Module ScaffoldError.
Inductive ScaffoldError : Type :=
| Parse (source : string)
| UnsupportedSchemaVersion (version : string)
| AmbiguousSelection
| InvalidModelLimit
| InvalidIdentifier (identifier : string)
| InvalidTimezone
| DuplicateRelation
| RelationNotFound (relation : string)
| EmptySelection
| ModelLimitExceeded
| RelationNotSelectable (relation : string)
| UnsupportedRelationKind (relation : string)
| UnsupportedPostgresType (path value : string)
| MissingTimezone (path : string)
| InvalidCatalog (source : CatalogError)
| SnapshotHash (source : string).
End ScaffoldError.
Abbreviation ScaffoldError := ScaffoldError.ScaffoldError.

(** serde_json's typed deserialiser of requests. *)
Class AuthoringParser := { request_from_slice : string -> result string ScaffoldRequest }.

(** The loop over the relations, with the set of names seen. *)
Definition check_relation_name (names : list string) (relation : string)
    : result ScaffoldError (list string) :=
  fail_if (negb (portable_identifier relation)) (ScaffoldError.InvalidIdentifier relation);;
  fail_if (bool_decide (relation ∈ names)) ScaffoldError.DuplicateRelation;;
  Ok (bs_insert relation names).

Definition validate_request (request : ScaffoldRequest) : result ScaffoldError unit :=
  let version := ScaffoldRequest.schema_version request in
  let schema := ScaffoldRequest.schema request in
  let prefix := ScaffoldRequest.relation_prefix request in
  fail_if (bool_decide (version <> AUTHORING_SCHEMA_VERSION))
    (ScaffoldError.UnsupportedSchemaVersion version);;
  fail_if (negb (portable_identifier schema)) (ScaffoldError.InvalidIdentifier schema);;
  fail_if (bool_decide (ScaffoldRequest.max_models request = 0%N)
           || bool_decide (MAX_SCAFFOLD_MODELS < ScaffoldRequest.max_models request)%N)
    ScaffoldError.InvalidModelLimit;;
  let has_relations := negb (bool_decide (ScaffoldRequest.relations request = [])) in
  let has_prefix :=
    match prefix with Some p => negb (bool_decide (p = EmptyString)) | None => false end in
  fail_if (Bool.eqb has_relations has_prefix) ScaffoldError.AmbiguousSelection;;
  fail_if (bool_decide (prefix = Some EmptyString)) ScaffoldError.AmbiguousSelection;;
  try_fold check_relation_name [] (ScaffoldRequest.relations request);;
  match prefix with
  | Some prefix =>
      fail_if (negb (portable_identifier prefix)) (ScaffoldError.InvalidIdentifier prefix)
  | None => Ok tt
  end;;
  fail_if (match ScaffoldRequest.timezone request with
           | Some timezone => bool_decide (timezone <> "UTC")
           | None => false
           end) ScaffoldError.InvalidTimezone.

(** ** Selection *)

Definition require_selected (selected : list CatalogRelation) (name : string)
    : result ScaffoldError unit :=
  fail_if (negb (existsb (fun relation => bool_decide (Rel.name relation = name)) selected))
    (ScaffoldError.RelationNotFound name).

Definition select_relations (request : ScaffoldRequest) (catalog : CatalogSnapshot)
    : result ScaffoldError (list CatalogRelation) :=
  let in_schema :=
    List.filter (fun relation => bool_decide (Rel.schema relation = ScaffoldRequest.schema request))
      (Catalog.relations catalog) in
  selected ←
    match ScaffoldRequest.relation_prefix request with
    | Some prefix => Ok (List.filter (fun relation => starts_with prefix (Rel.name relation)) in_schema)
    | None =>
        let names := bs_from_list (ScaffoldRequest.relations request) in
        let selected :=
          List.filter (fun relation => bool_decide (Rel.name relation ∈ names)) in_schema in
        try_each (require_selected selected) (ScaffoldRequest.relations request);;
        Ok selected
    end;
  fail_if (bool_decide (selected = [])) ScaffoldError.EmptySelection;;
  Ok selected.

(** ** Models *)

(** The columns of the first primary key that is enforced and validated, as a
    [BTreeSet]. *)
Definition usable_primary_key (constraint : CatalogConstraint) : option (list string) :=
  match constraint with
  | Constraint.PrimaryKey _ columns enforced _ _ _ validated =>
      if enforced && validated then Some (bs_from_list columns) else None
  | _ => None
  end.

Definition primary_key_of (relation : CatalogRelation) : list string :=
  default [] (find_map usable_primary_key (Rel.constraints relation)).

Definition needs_timezone (data_type : DataType) : bool :=
  match data_type with DataType.Timestamp | DataType.TimestampTz => true | _ => false end.

Definition is_time_type (data_type : DataType) : bool :=
  match data_type with
  | DataType.Date | DataType.Timestamp | DataType.TimestampTz => true
  | _ => false
  end.

Section model.
Context (relation : CatalogRelation) (timezone : option string).

Definition column_path (column : CatalogColumn) : string :=
  "/relations/" +:+ Rel.schema relation +:+ "/" +:+ Rel.name relation +:+ "/columns/"
  +:+ Column.name column.

Definition scaffold_field (primary_key : list string) (column : CatalogColumn)
    : result ScaffoldError Field :=
  fail_if (negb (portable_identifier (Column.name column)))
    (ScaffoldError.InvalidIdentifier (Column.name column));;
  let path := column_path column in
  data_type ← ok_or (postgres_data_type (Column.data_type column))
                (ScaffoldError.UnsupportedPostgresType path (Column.data_type column));
  fail_if (needs_timezone data_type && bool_decide (timezone = None))
    (ScaffoldError.MissingTimezone path);;
  Ok {| Field.semantic_name := Column.name column;
        Field.data_type := data_type;
        Field.column := Column.name column;
        Field.relationship := None;
        Field.time_dimension := is_time_type data_type;
        Field.entity_key := bool_decide (length primary_key = 1)
                            && bool_decide (Column.name column ∈ primary_key);
        Field.visible := true;
        Field.nullable := Column.nullable column |}.

(** The loop over the columns: the fields and the number of columns left out. *)
Definition add_column (primary_key : list string) (state : list Field * N) (column : CatalogColumn)
    : result ScaffoldError (list Field * N) :=
  let '(fields, omitted) := state in
  if negb (Column.select_grant column) then Ok (fields, wrapping_add omitted 1) else
  field ← scaffold_field primary_key column;
  Ok (fields ++ [field], omitted).

Definition row_count (key : string) : Metric :=
  {| Metric.semantic_name := "row_count";
     Metric.data_type := DataType.Integer;
     Metric.aggregation := Aggregation.Count;
     Metric.field := key;
     Metric.filter := None;
     Metric.additivity := Some Additivity.Additive;
     Metric.aggregation_anchor := Some key;
     Metric.visible := true |}.

Definition scaffold_metrics (primary_key : list string) (fields : list Field) : list Metric :=
  match primary_key with
  | [key] =>
      if existsb (fun field => bool_decide (Field.column field = key)) fields
      then [row_count key] else []
  | _ => []
  end.

Definition scaffold_model (omitted_unselectable_columns : N)
    : result ScaffoldError (Model * N) :=
  fail_if (negb (portable_identifier (Rel.name relation)))
    (ScaffoldError.InvalidIdentifier (Rel.name relation));;
  fail_if (bool_decide (Rel.kind relation = RelationKind.ForeignTable))
    (ScaffoldError.UnsupportedRelationKind (Rel.name relation));;
  fail_if (negb (Grants.schema_usage (Rel.grants relation))
           || negb (Grants.any_column_select (Rel.grants relation)))
    (ScaffoldError.RelationNotSelectable (Rel.name relation));;
  let primary_key := primary_key_of relation in
  '(fields, omitted) ← try_fold (add_column primary_key) ([], omitted_unselectable_columns)
                         (Rel.columns relation);
  fail_if (bool_decide (fields = [])) (ScaffoldError.RelationNotSelectable (Rel.name relation));;
  Ok ({| Model.semantic_name := Rel.name relation;
         Model.source := Relation.mk (Rel.schema relation) (Rel.name relation);
         Model.timezone := timezone;
         Model.queryable := true;
         Model.writable := None;
         Model.fields := fields;
         Model.metrics := scaffold_metrics primary_key fields;
         Model.relationships := [] |}, omitted).
End model.

(** The loop over the selected relations. *)
Definition add_model (timezone : option string) (state : list Model * N)
    (relation : CatalogRelation) : result ScaffoldError (list Model * N) :=
  let '(models, omitted) := state in
  '(model, omitted) ← scaffold_model relation timezone omitted;
  Ok (models ++ [model], omitted).

Section scaffold.
Context `{Crates, AuthoringParser}.

Definition seal (models : list Model) : result ScaffoldError SemanticSnapshot :=
  let snapshot := {| Snapshot.schema_version := "2"; Snapshot.revision_hash := EmptyString;
                     Snapshot.models := models |} in
  revision_hash ← map_err ScaffoldError.SnapshotHash (calculate_revision_hash snapshot);
  Ok {| Snapshot.schema_version := "2"; Snapshot.revision_hash := revision_hash;
        Snapshot.models := models |}.

Definition scaffold (request : string) (catalog : CatalogSnapshot)
    : result ScaffoldError ScaffoldReport :=
  request ← map_err ScaffoldError.Parse (request_from_slice request);
  validate_request request;;
  catalog ← map_err ScaffoldError.InvalidCatalog (validated_normalized catalog);
  selected ← select_relations request catalog;
  fail_if (bool_decide (ScaffoldRequest.max_models request < N.of_nat (length selected))%N)
    ScaffoldError.ModelLimitExceeded;;
  '(models, omitted) ← try_fold (add_model (ScaffoldRequest.timezone request)) ([], 0%N) selected;
  snapshot ← seal models;
  Ok {| ScaffoldReport.schema_version := AUTHORING_SCHEMA_VERSION;
        ScaffoldReport.catalog_fingerprint := Catalog.fingerprint catalog;
        ScaffoldReport.source_database := Catalog.current_database catalog;
        ScaffoldReport.source_schema := ScaffoldRequest.schema request;
        ScaffoldReport.selected_relations := N.of_nat (length models);
        ScaffoldReport.omitted_unselectable_columns := omitted;
        ScaffoldReport.snapshot := snapshot |}.
End scaffold.
