(* ===== verification/AuthoringTheorems.v ===== *)
(** * What a scaffold promises ([authoring.rs])

    The relations a request selects, the model of a relation and the field of a
    column, stated without the loops of the code, and that the code produces
    exactly them.

    Then the theorems on scaffolding. *)

From S2P Require Import Database Prelude Ordered Text StrOps Json Lsq Semantic SemanticSpec.
From S2P Require Import Compiler CompilerSpec CompilerSql CompilerComplete CompilerTheorems.
From S2P Require Import Catalog Authoring Fixtures.

(** ** The selected relations *)

Definition requests_relation (request : ScaffoldRequest) (name : string) : Prop :=
  match ScaffoldRequest.relation_prefix request with
  | Some prefix => starts_with prefix name = true
  | None => name ∈ ScaffoldRequest.relations request
  end.

#[export] Instance requests_relation_dec request name : Decision (requests_relation request name).
Proof. unfold requests_relation. destruct (ScaffoldRequest.relation_prefix request); apply _. Defined.

Definition selects (request : ScaffoldRequest) (relation : CatalogRelation) : Prop :=
  Rel.schema relation = ScaffoldRequest.schema request
  /\ requests_relation request (Rel.name relation).

#[export] Instance selects_dec request relation : Decision (selects request relation).
Proof. apply _. Defined.

Definition selection (request : ScaffoldRequest) (catalog : CatalogSnapshot)
    : list CatalogRelation :=
  filter (selects request) (Catalog.relations catalog).

Lemma filter_twice {A} (p q : A -> bool) (P : A -> Prop) `{HP : !forall x, Decision (P x)} l :
  (forall x, P x <-> p x = true /\ q x = true) ->
  List.filter q (List.filter p l) = filter P l.
Proof.
  intros H. induction l as [|a l IH]; [done|]. rewrite filter_cons. simpl.
  specialize (H a). destruct (p a) eqn:Hp; simpl; [destruct (q a) eqn:Hq|].
  - rewrite decide_True by tauto. by f_equal.
  - rewrite decide_False by (intros []%H; congruence). done.
  - rewrite decide_False by (intros []%H; congruence). done.
Qed.

Lemma select_relations_ok request catalog selected :
  select_relations request catalog = Ok selected ->
  selected = selection request catalog /\ selected <> []
  /\ (ScaffoldRequest.relation_prefix request = None ->
      forall name, name ∈ ScaffoldRequest.relations request ->
      exists relation, relation ∈ selected /\ Rel.name relation = name).
Proof.
  unfold select_relations. intros H. apply bind_ok in H as (s & Hs & H). apply bind_ok in H as (? & Hne%fail_if_ok & H).
  apply bool_decide_eq_false in Hne. simplify_eq.
  destruct (ScaffoldRequest.relation_prefix request) as [prefix|] eqn:Hp.
  - simplify_eq. split_and!; [|done|done].
    apply filter_twice. intros r. rewrite bool_decide_eq_true. unfold selects, requests_relation.
    by rewrite Hp.
  - apply bind_ok in Hs as (u & Hu & Hs). simplify_eq.
    split_and!; [|done|].
    + apply filter_twice. intros r. rewrite !bool_decide_eq_true, elem_of_bs_from_list.
      unfold selects, requests_relation. by rewrite Hp.
    + intros _ name Hname. apply try_each_ok in Hu. rewrite Forall_forall in Hu.
      specialize (Hu _ Hname). apply fail_if_ok, negb_false_iff, existsb_exists in Hu.
      destruct Hu as (r & Hr & Hn). exists r. split; [by apply list_elem_of_In|].
      by apply bool_decide_eq_true in Hn.
Qed.

(** ** Fields and models *)

Record column_field (timezone : option string) (key : list string) (column : CatalogColumn)
    (field : Field) : Prop := {
  cf_name : Field.semantic_name field = Column.name column;
  cf_column : Field.column field = Column.name column;
  cf_type : postgres_data_type (Column.data_type column) = Some (Field.data_type field);
  cf_direct : Field.relationship field = None;
  cf_time : Field.time_dimension field = is_temporal (Field.data_type field);
  cf_key : Field.entity_key field = true <-> key = [Column.name column];
  cf_visible : Field.visible field = true;
  cf_nullable : Field.nullable field = Column.nullable column;
  cf_timezone : Field.data_type field = DataType.TimestampTz -> is_Some timezone;
}.

Definition granted_columns (relation : CatalogRelation) : list CatalogColumn :=
  filter (fun column => Column.select_grant column = true) (Rel.columns relation).

Definition hidden_columns (relation : CatalogRelation) : list CatalogColumn :=
  filter (fun column => Column.select_grant column = false) (Rel.columns relation).

Record relation_model (timezone : option string) (relation : CatalogRelation) (model : Model)
    : Prop := {
  rl_name : Model.semantic_name model = Rel.name relation;
  rl_source : Model.source model = Relation.mk (Rel.schema relation) (Rel.name relation);
  rl_timezone : Model.timezone model = timezone;
  rl_queryable : Model.queryable model = true;
  rl_writable : Model.writable model = None;
  rl_fields : Forall2 (column_field timezone (primary_key_of relation))
                (granted_columns relation) (Model.fields model);
  rl_metrics : forall metric, metric ∈ Model.metrics model <->
    exists key, primary_key_of relation = [key] /\ metric = row_count key
      /\ key ∈ map Column.name (granted_columns relation);
  rl_metric_once : NoDup (map Metric.semantic_name (Model.metrics model));
  rl_relationships : Model.relationships model = [];
  rl_nonempty : Model.fields model <> [];
  rl_local : Rel.kind relation <> RelationKind.ForeignTable;
  rl_granted : Grants.schema_usage (Rel.grants relation) = true
    /\ Grants.any_column_select (Rel.grants relation) = true;
}.

Lemma singleton_key (key : list string) name :
  bool_decide (length key = 1) && bool_decide (name ∈ key) = true <-> key = [name].
Proof.
  rewrite andb_true_iff, !bool_decide_eq_true. destruct key as [|k [|]]; set_solver.
Qed.

Lemma scaffold_field_ok relation timezone key column field :
  scaffold_field relation timezone key column = Ok field ->
  column_field timezone key column field.
Proof.
  unfold scaffold_field. intros H. apply bind_ok in H as (? & _ & H).
  apply bind_ok in H as (data_type & Ht%ok_or_ok & H).
  apply bind_ok in H as (? & Hz%fail_if_ok & H). simplify_eq.
  split; simpl; try done.
  - apply singleton_key.
  - intros ->. simpl in Hz. apply bool_decide_eq_false in Hz. by apply not_eq_None_Some.
Qed.

Lemma wrapping_add_mod (a b : N) :
  wrapping_add (a mod (USIZE_MAX + 1)) b = ((a + b) mod (USIZE_MAX + 1))%N.
Proof. unfold wrapping_add. rewrite N.Div0.add_mod_idemp_l. done. Qed.

Lemma add_columns_ok relation timezone key columns fields omitted fields' omitted' :
  try_fold (add_column relation timezone key) (fields, (omitted mod (USIZE_MAX + 1))%N) columns
    = Ok (fields', omitted') ->
  exists added, fields' = fields ++ added
    /\ Forall2 (column_field timezone key)
         (filter (fun column => Column.select_grant column = true) columns) added
    /\ omitted' = ((omitted + N.of_nat (length (filter
         (fun column => Column.select_grant column = false) columns))) mod (USIZE_MAX + 1))%N.
Proof.
  revert fields omitted. induction columns as [|c columns IH]; intros fields omitted H; simpl in H.
  - simplify_eq. exists []. rewrite app_nil_r, N.add_0_r. by split_and!.
  - apply bind_ok in H as ([fs om] & Hc & H). rewrite !filter_cons. unfold add_column in Hc.
    destruct (Column.select_grant c); simpl in Hc |- *.
    + apply bind_ok in Hc as (f & Hf & Hc). simplify_eq. apply scaffold_field_ok in Hf.
      apply IH in H as (added & -> & Hadd & ->). exists (f :: added).
      rewrite <- app_assoc. split_and!; [done|by constructor|done].
    + simplify_eq. rewrite wrapping_add_mod in H.
      apply IH in H as (added & -> & Hadd & ->). exists added. split_and!; [done..|].
      f_equal. lia.
Qed.

Lemma column_field_columns timezone key columns fields :
  Forall2 (column_field timezone key) columns fields ->
  map Field.column fields = map Column.name columns.
Proof. induction 1 as [|c f cs fs H _ IH]; simpl; [done|]. f_equal; [apply H|done]. Qed.

Lemma scaffold_metrics_ok key fields metric :
  metric ∈ scaffold_metrics key fields <->
  exists k, key = [k] /\ metric = row_count k /\ k ∈ map Field.column fields.
Proof.
  unfold scaffold_metrics. destruct key as [|k [|k' key]];
    [split; [set_solver|naive_solver]| |split; [set_solver|naive_solver]].
  destruct (existsb _ fields) eqn:He.
  - apply existsb_exists in He as (f & Hf & Hk). apply bool_decide_eq_true in Hk as <-.
    split; [|intros (k & [= ->] & -> & _); set_solver]. intros ->%list_elem_of_singleton. eexists. split_and!; [done..|].
    apply list_elem_of_fmap. exists f. split; [done|by apply list_elem_of_In].
  - split; [set_solver|]. intros (k' & [= <-] & -> & Hin).
    apply list_elem_of_fmap in Hin as (f & -> & Hf%list_elem_of_In).
    rewrite (proj2 (existsb_exists _ _)) in He; [done|]. exists f.
    by rewrite bool_decide_eq_true.
Qed.

Lemma scaffold_metrics_once key fields :
  NoDup (map Metric.semantic_name (scaffold_metrics key fields)).
Proof.
  unfold scaffold_metrics. destruct key as [|k [|]]; simpl; try constructor.
  destruct (existsb _ _); simpl; [apply NoDup_singleton|constructor].
Qed.

Lemma scaffold_model_ok relation timezone omitted model omitted' :
  scaffold_model relation timezone (omitted mod (USIZE_MAX + 1))%N = Ok (model, omitted') ->
  relation_model timezone relation model
  /\ omitted' = ((omitted + N.of_nat (length (hidden_columns relation))) mod (USIZE_MAX + 1))%N.
Proof.
  unfold scaffold_model. intros H.
  apply bind_ok in H as (? & _ & H). apply bind_ok in H as (? & Hk%fail_if_ok & H).
  apply bind_ok in H as (? & Hg%fail_if_ok & H). apply bind_ok in H as ([fs om] & Hf & H).
  apply bind_ok in H as (? & Hne%fail_if_ok & H). simplify_eq.
  apply add_columns_ok in Hf as (added & Heq & Hadd & ->). simpl in Heq. subst fs.
  split; [|done]. apply orb_false_iff in Hg as [Hu%negb_false_iff Hs%negb_false_iff].
  apply bool_decide_eq_false in Hk, Hne.
  split; simpl; try done; [|apply scaffold_metrics_once].
  intros metric. rewrite scaffold_metrics_ok.
  by rewrite (column_field_columns _ _ _ _ Hadd).
Qed.

Lemma add_models_ok timezone relations models omitted models' omitted' :
  try_fold (add_model timezone) (models, (omitted mod (USIZE_MAX + 1))%N) relations
    = Ok (models', omitted') ->
  exists added, models' = models ++ added
    /\ Forall2 (relation_model timezone) relations added
    /\ omitted' = ((omitted + N.of_nat (length (concat (map hidden_columns relations))))
                   mod (USIZE_MAX + 1))%N.
Proof.
  revert models omitted. induction relations as [|r relations IH]; intros models omitted H;
    simpl in H.
  - simplify_eq. exists []. rewrite app_nil_r, N.add_0_r. by split_and!.
  - apply bind_ok in H as ([ms om] & Hr & H). unfold add_model in Hr.
    apply bind_ok in Hr as ([m om'] & Hm & Hr). simplify_eq.
    apply scaffold_model_ok in Hm as [Hm ->]. apply IH in H as (added & -> & Hadd & ->).
    exists (m :: added). rewrite <- app_assoc. split_and!; [done|by constructor|].
    simpl. rewrite length_app. f_equal. lia.
Qed.

(** ** Reports *)

Record scaffolded `{Crates} (request : ScaffoldRequest) (catalog : CatalogSnapshot)
    (report : ScaffoldReport) : Prop := {
  sc_models : Forall2 (relation_model (ScaffoldRequest.timezone request))
                (selection request (normalize catalog))
                (Snapshot.models (ScaffoldReport.snapshot report));
  sc_nonempty : Snapshot.models (ScaffoldReport.snapshot report) <> [];
  sc_found : ScaffoldRequest.relation_prefix request = None ->
    forall name, name ∈ ScaffoldRequest.relations request ->
    name ∈ map Model.semantic_name (Snapshot.models (ScaffoldReport.snapshot report));
  sc_version : Snapshot.schema_version (ScaffoldReport.snapshot report) = "2";
  sc_sealed : calculate_revision_hash (ScaffoldReport.snapshot report)
    = Ok (Snapshot.revision_hash (ScaffoldReport.snapshot report));
  sc_bound : (ScaffoldReport.selected_relations report ≤ ScaffoldRequest.max_models request
              ≤ MAX_SCAFFOLD_MODELS)%N;
  sc_selected : ScaffoldReport.selected_relations report
    = N.of_nat (length (selection request (normalize catalog)));
  sc_omitted : ScaffoldReport.omitted_unselectable_columns report
    = (N.of_nat (length (concat (map hidden_columns (selection request (normalize catalog)))))
       mod (USIZE_MAX + 1))%N;
  sc_evidence : ScaffoldReport.catalog_fingerprint report = Catalog.fingerprint catalog
    /\ ScaffoldReport.source_database report = Catalog.current_database catalog
    /\ ScaffoldReport.source_schema report = ScaffoldRequest.schema request;
}.

Lemma relation_model_names timezone relations models :
  Forall2 (relation_model timezone) relations models ->
  map Model.semantic_name models = map Rel.name relations.
Proof. induction 1 as [|r m rs ms H _ IH]; simpl; [done|]. f_equal; [apply H|done]. Qed.

(** The hash covers everything but itself. *)
Lemma revision_hash_ignores_itself `{Crates} version models hash :
  calculate_revision_hash {| Snapshot.schema_version := version; Snapshot.revision_hash := hash;
                             Snapshot.models := models |}
  = calculate_revision_hash {| Snapshot.schema_version := version;
                               Snapshot.revision_hash := EmptyString; Snapshot.models := models |}.
Proof. done. Qed.

Lemma scaffold_ok `{Crates, AuthoringParser} input catalog report :
  scaffold input catalog = Ok report ->
  exists request, request_from_slice input = Ok request /\ validate_request request = Ok tt
    /\ validated_normalized catalog = Ok (normalize catalog) /\ scaffolded request catalog report.
Proof.
  unfold scaffold. intros Hs. apply bind_ok in Hs as (request & Hr%map_err_ok & Hs).
  apply bind_ok in Hs as ([] & Hv & Hs). apply bind_ok in Hs as (c & Hc%map_err_ok & Hs).
  pose proof Hc as (_ & _ & ->)%validated_normalized_ok.
  apply bind_ok in Hs as (selected & Hsel & Hs). apply bind_ok in Hs as (? & Hmax%fail_if_ok & Hs).
  apply bind_ok in Hs as ([models omitted] & Hm & Hs).
  apply bind_ok in Hs as (snapshot & Hseal & Hs). simplify_eq.
  exists request. split_and!; [done..|]. apply bool_decide_eq_false in Hmax.
  apply select_relations_ok in Hsel as (-> & Hne & Hfound).
  apply (add_models_ok _ _ [] 0) in Hm as (added & -> & Hadd & ->). simpl in *.
  unfold seal in Hseal. apply bind_ok in Hseal as (hash & Hh%map_err_ok & Hseal). simplify_eq.
  pose proof (Forall2_length _ _ _ Hadd) as Hlen.
  pose proof (relation_model_names _ _ _ Hadd) as Hnames.
  split; simpl; try done.
  - intros ->. by apply Forall2_nil_inv_r in Hadd.
  - intros Hp name Hname. rewrite Hnames. destruct (Hfound Hp name Hname) as (r & Hin & <-).
    by apply list_elem_of_fmap_2.
  - unfold validate_request in Hv. apply bind_ok in Hv as (? & _ & Hv).
    apply bind_ok in Hv as (? & _ & Hv). apply bind_ok in Hv as (? & Hl%fail_if_ok & _).
    apply orb_false_iff in Hl as [_ Hl%bool_decide_eq_false]. split; lia.
  - lia.
Qed.

(** * Correctness of scaffolding

    A scaffold is exactly the granted part of the selected relations, and what
    it publishes can be queried. *)

(** ** Names and joins of scaffolded models *)

Lemma column_field_names timezone key columns fields :
  Forall2 (column_field timezone key) columns fields ->
  map Field.semantic_name fields = map Column.name columns.
Proof. induction 1 as [|c f cs fs H _ IH]; simpl; [done|]. f_equal; [apply H|done]. Qed.

Lemma column_fields_forall timezone key columns fields (P : Field -> Prop) :
  Forall2 (column_field timezone key) columns fields ->
  (forall c f, column_field timezone key c f -> P f) -> Forall P fields.
Proof. intros H HP. induction H; constructor; eauto. Qed.

Lemma NoDup_map_filter {A B} (f : A -> B) (P : A -> Prop) `{HP : !forall x, Decision (P x)} l :
  NoDup (map f l) -> NoDup (map f (filter P l)).
Proof.
  intros H. eapply sublist_NoDup; [exact H|]. apply (fmap_sublist f), sublist_filter.
Qed.

Lemma relation_model_distinct timezone relation model :
  relation_distinct relation -> relation_model timezone relation model -> model_distinct model.
Proof.
  intros [Hc _ _] Hm. split.
  - rewrite (column_field_names _ _ _ _ (rl_fields _ _ _ Hm)). by apply NoDup_map_filter.
  - apply Hm.
  - rewrite (rl_relationships _ _ _ Hm). constructor.
  - intros w Hw. by rewrite (rl_writable _ _ _ Hm) in Hw.
Qed.

Lemma selection_names request catalog :
  catalog_distinct catalog -> NoDup (map Rel.name (selection request catalog)).
Proof.
  intros [_ Hr _]. unfold selection.
  apply (NoDup_map_filter _ (selects request)) in Hr.
  rewrite <- (map_map (fun r => (Rel.schema r, Rel.name r)) snd) .
  apply (NoDup_fmap_2_strong snd); [|exact Hr].
  intros [s n] [s' n'] H1 H2 Heq. simpl in Heq. subst n'.
  apply list_elem_of_fmap in H1 as (r & [= -> ->] & (Hr1 & _)%list_elem_of_filter).
  apply list_elem_of_fmap in H2 as (r' & [= -> Hn] & (Hr2 & _)%list_elem_of_filter).
  destruct Hr1 as [-> _], Hr2 as [-> _]. done.
Qed.

Lemma scaffolded_distinct `{Crates} request catalog report :
  catalog_distinct catalog -> scaffolded request catalog report ->
  snapshot_distinct (ScaffoldReport.snapshot report).
Proof.
  intros Hd%normalize_distinct Hs. pose proof (sc_models _ _ _ Hs) as Hm. split.
  - rewrite (relation_model_names _ _ _ Hm). by apply selection_names.
  - pose proof (relations_distinct _ Hd) as Hr.
    assert (Hsel : Forall relation_distinct (selection request (normalize catalog))).
    { rewrite Forall_forall in *. intros r (_ & Hin)%list_elem_of_filter. auto. }
    clear -Hm Hsel. induction Hm as [|r m rs ms H _ IH]; inversion_clear Hsel; constructor; auto.
    by eapply relation_model_distinct.
Qed.

Lemma scaffolded_sealed `{CratesOk} request catalog report :
  scaffolded request catalog report -> check_snapshot (ScaffoldReport.snapshot report) = Ok tt.
Proof.
  intros Hs. unfold check_snapshot. rewrite (sc_version _ _ _ Hs), (sc_sealed _ _ _ Hs).
  pose proof (sc_sealed _ _ _ Hs) as Hh. unfold calculate_revision_hash in Hh.
  apply bind_ok in Hh as (t & _ & [= Hh]). rewrite <- Hh, is_sha256_sha256. simpl.
  by rewrite bool_decide_eq_false_2 by naive_solver.
Qed.

Lemma key_field timezone relation model key :
  relation_model timezone relation model -> primary_key_of relation = [key] ->
  key ∈ map Column.name (granted_columns relation) ->
  exists f, f ∈ Model.fields model /\ Field.semantic_name f = key
    /\ Field.relationship f = None /\ Field.entity_key f = true.
Proof.
  intros Hm Hk Hin. apply list_elem_of_fmap in Hin as (c & -> & Hc).
  apply list_elem_of_lookup_1 in Hc as [i Hi].
  destruct (Forall2_lookup_l _ _ _ _ _ (rl_fields _ _ _ Hm) Hi) as (f & Hf & Hcf).
  exists f. split_and!; [by eapply list_elem_of_lookup_2|apply Hcf..|].
  by apply (cf_key _ _ _ _ Hcf).
Qed.

Lemma relation_model_serviceable snapshot timezone relation model :
  Snapshot.schema_version snapshot = "2" -> relation_model timezone relation model ->
  serviceable snapshot model.
Proof.
  intros Hversion Hm. pose proof (rl_fields _ _ _ Hm) as Hf. split.
  - apply Hm.
  - eapply column_fields_forall; [exact Hf|]. intros c f H. apply H.
  - eapply column_fields_forall; [exact Hf|]. intros c f H Ht.
    by rewrite <- (cf_time _ _ _ _ H).
  - intros metric Hin. pose proof Hin as (key & Hk & -> & Hg)%(rl_metrics _ _ _ Hm).
    destruct (key_field _ _ _ _ Hm Hk Hg) as (f & Hfin & Hn & Hd & He).
    exists {| rm_metric := row_count key; rm_field := f; rm_filter := None;
              rm_aggregation_anchor := Some f |}.
    split_and!; [done..|]. split; simpl; try done; [|congruence].
    by rewrite Hn.
  - intros f r Hin Hr. exfalso.
    assert (H : Forall (fun f => Field.relationship f = None) (Model.fields model)).
    { eapply column_fields_forall; [exact Hf|]. intros c f' H. apply H. }
    rewrite Forall_forall in H. specialize (H _ Hin). congruence.
Qed.

Lemma relation_model_timezone timezone relation model e :
  relation_model timezone relation model -> ~ timezone_error model e.
Proof.
  intros Hm (Hz & f & Hin & Ht & _). rewrite (rl_timezone _ _ _ Hm) in Hz.
  apply list_elem_of_lookup_1 in Hin as [i Hi].
  destruct (Forall2_lookup_r _ _ _ _ _ (rl_fields _ _ _ Hm) Hi) as (c & _ & Hc).
  apply (cf_timezone _ _ _ _ Hc) in Ht as [z Hz']. congruence.
Qed.

(** ** A request and a catalog *)

Definition orders_column (name data_type : string) (ordinal : N) (granted : bool)
    : CatalogColumn :=
  {| Column.name := name; Column.ordinal := ordinal; Column.data_type := data_type;
     Column.nullable := false; Column.comment := None; Column.select_grant := granted |}.

Definition orders_table : CatalogRelation :=
  {| Rel.schema := "app"; Rel.name := "orders"; Rel.kind := RelationKind.Table;
     Rel.owner := "app"; Rel.view := None; Rel.comment := None;
     Rel.grants := {| Grants.schema_usage := true; Grants.table_select := false;
                      Grants.any_column_select := true |};
     Rel.rls := {| Rls.enabled := true; Rls.forced := false |};
     Rel.columns := [orders_column "id" "bigint" 1 true; orders_column "card" "text" 2 false;
                     orders_column "total" "numeric(18,2)" 3 true;
                     orders_column "placed_at" "timestamp with time zone" 4 true];
     Rel.constraints := [Constraint.PrimaryKey "orders_pkey" ["id"] true false false false true];
     Rel.policies := [] |}.

Definition app_catalog_unsealed (fingerprint : string) : CatalogSnapshot :=
  {| Catalog.schema_version := "2"; Catalog.server_version_num := 170004;
     Catalog.current_database := "shop"; Catalog.current_role := "reader";
     Catalog.role_context := {| RoleContext.inherit := true; RoleContext.superuser := false;
                                RoleContext.bypass_rls := false;
                                RoleContext.effective_roles := ["reader"];
                                RoleContext.settable_roles := [] |};
     Catalog.role_graph_fingerprint := "sha256:02";
     Catalog.object_privilege_fingerprint := "sha256:03"; Catalog.functions := [];
     Catalog.relations := [orders_table]; Catalog.fingerprint := fingerprint |}.

Definition app_catalog : CatalogSnapshot :=
  match calculate_fingerprint (normalize (app_catalog_unsealed EmptyString)) with
  | Ok fingerprint => app_catalog_unsealed fingerprint
  | Err _ => app_catalog_unsealed EmptyString
  end.

Definition orders_request : ScaffoldRequest :=
  {| ScaffoldRequest.schema_version := "1"; ScaffoldRequest.schema := "app";
     ScaffoldRequest.relations := ["orders"]; ScaffoldRequest.relation_prefix := None;
     ScaffoldRequest.max_models := 10; ScaffoldRequest.timezone := Some "UTC" |}.

#[export] Instance sample_authoring : AuthoringParser :=
  {| request_from_slice := fun input =>
       if bool_decide (input = "orders") then Ok orders_request else Err "expected value" |}.

Definition orders_report : ScaffoldReport :=
  match scaffold "orders" app_catalog with
  | Ok report => report
  | Err _ => {| ScaffoldReport.schema_version := EmptyString;
                ScaffoldReport.catalog_fingerprint := EmptyString;
                ScaffoldReport.source_database := EmptyString;
                ScaffoldReport.source_schema := EmptyString;
                ScaffoldReport.selected_relations := 0;
                ScaffoldReport.omitted_unselectable_columns := 0;
                ScaffoldReport.snapshot := commerce |}
  end.

Lemma orders_scaffolded : scaffold "orders" app_catalog = Ok orders_report.
Proof. vm_compute. reflexivity. Qed.

Lemma app_catalog_distinct : catalog_distinct app_catalog.
Proof.
  split; [apply nodup_bool; vm_compute; reflexivity..|].
  apply Forall_cons. split; [|constructor]. split; apply nodup_bool; vm_compute; reflexivity.
Qed.

(** ** Theorems *)

(** A scaffold publishes exactly the granted part of the catalog.  When it
    succeeds, the catalog evidence was valid and the models are, in order, those
    of the relations of the requested schema that the request names (or whose
    names have its prefix): each has one field per column the role may select,
    with the column's name, type and nullability, no relationship and no write
    access, and a row count exactly when its primary key is one granted column;
    foreign tables and relations without grants never appear; every relation
    named is there; the report counts the relations and the columns left out and
    stays within the requested bound; and the snapshot is sealed. *)
Theorem scaffold_publishes_granted_columns `{HC : Crates} `{HA : AuthoringParser}
    (input : string) (catalog : CatalogSnapshot) (report : ScaffoldReport) :
  scaffold input catalog = Ok report ->
  exists request, request_from_slice input = Ok request /\ validate_request request = Ok tt
    /\ validated_normalized catalog = Ok (normalize catalog) /\ scaffolded request catalog report.
Proof. apply scaffold_ok. Qed.

Lemma scaffold_publishes_granted_columns_witness :
  scaffolded orders_request app_catalog orders_report
  /\ map Field.semantic_name
       (concat (map Model.fields (Snapshot.models (ScaffoldReport.snapshot orders_report))))
     = ["id"; "total"; "placed_at"]
  /\ ScaffoldReport.omitted_unselectable_columns orders_report = 1%N.
Proof.
  destruct (scaffold_publishes_granted_columns _ _ _ orders_scaffolded)
    as (request & Hr & _ & _ & Hs).
  vm_compute in Hr. injection Hr as <-.
  split; [exact Hs|]. split; vm_compute; reflexivity.
Defined.

(** C27: what is scaffolded can be queried.  Over a catalog with distinct names,
    every query that names a scaffolded model, fields and metrics of it (with a
    time grain only on date and timestamp fields), a filter over those fields
    with literals of their types, and an order over its own outputs, compiles:
    no scaffold produces a model on which such a query fails, in particular
    never for want of a time zone. *)
Theorem scaffolded_models_are_queryable `{HC : Crates} `{HO : !CratesOk} `{HA : AuthoringParser}
    (input : string) (catalog : CatalogSnapshot) (report : ScaffoldReport) (model : Model)
    (options : CompilerOptions) (query : NormalizedLsq) :
  scaffold input catalog = Ok report -> catalog_distinct catalog ->
  model ∈ Snapshot.models (ScaffoldReport.snapshot report) ->
  options_ok options -> (forall j, is_ok (json_to_string j) = true) ->
  asks (ScaffoldReport.snapshot report) options model (NormalizedLsq.query query) ->
  exists compiled, compile_lsq query (ScaffoldReport.snapshot report) options = Ok compiled.
Proof.
  intros (request & _ & _ & _ & Hs)%scaffold_ok Hd Hin Ho Hjson Hasks.
  pose proof Hin as [i Hi]%list_elem_of_lookup_1.
  destruct (Forall2_lookup_r _ _ _ _ _ (sc_models _ _ _ Hs) Hi) as (r & _ & Hm).
  pose proof (relation_model_serviceable _ _ _ _ (sc_version _ _ _ Hs) Hm) as Hserves.
  pose proof (asked_compiles _ _ _ Hserves _ Hasks query (scaffolded_distinct _ _ _ Hd Hs)
                (scaffolded_sealed _ _ _ Hs) Ho Hin eq_refl Hjson) as H.
  destruct (compile_lsq query _ _) as [c|e]; [by exists c|].
  by apply (relation_model_timezone _ _ _ _ Hm) in H.
Qed.

Definition orders_by_month : LogicalSemanticQuery :=
  {| Lsq.schema_version := "1"; Lsq.model := "orders";
     Lsq.dimensions := [Dimension.mk "placed_at" (Some TimeGrain.Month)];
     Lsq.metrics := [MetricReference.mk "row_count"];
     Lsq.filters := None; Lsq.order_by := []; Lsq.limit := None |}.

Lemma scaffolded_models_are_queryable_witness : exists compiled,
  compile_lsq (normalized_sample orders_by_month) (ScaffoldReport.snapshot orders_report)
    default_options = Ok compiled.
Proof.
  assert (Hm : exists m, Snapshot.models (ScaffoldReport.snapshot orders_report) = [m]
             /\ map Metric.semantic_name (Model.metrics m) = ["row_count"]
             /\ map Field.semantic_name (Model.fields m) = ["id"; "total"; "placed_at"]
             /\ map Field.time_dimension (Model.fields m) = [false; false; true]
             /\ Model.semantic_name m = "orders")
    by (eexists; split_and!; vm_compute; reflexivity).
  destruct Hm as (m & Hm & Hmetrics & Hfields & Htimes & Hname).
  apply (scaffolded_models_are_queryable "orders" app_catalog orders_report m).
  - exact orders_scaffolded.
  - exact app_catalog_distinct.
  - rewrite Hm. left.
  - split_and!; vm_compute; discriminate.
  - reflexivity.
  - destruct m as [name source timezone queryable writable fields metrics relationships].
    simpl in Hmetrics, Hfields, Htimes, Hname. subst name.
    destruct fields as [|f1 [|f2 [|f3 [|]]]]; try discriminate Hfields.
    destruct metrics as [|m1 [|]]; try discriminate Hmetrics.
    injection Hfields as Hf1 Hf2 Hf3. injection Hmetrics as Hm1. injection Htimes as Ht1 Ht2 Ht3.
    split; [reflexivity|vm_compute; discriminate|..].
    + repeat constructor. exists f3. simpl. split_and!; [set_solver|exact Hf3|intros _; exact Ht3].
    + repeat constructor. exists m1. simpl. split; [set_solver|exact Hm1].
    + exists None. split; [constructor|discriminate].
    + constructor.
Defined.
