(* ===== verification/Osi.v ===== *)
(** * OSI documents ([osi.rs]): data and import

    An OSI (Apache Ossie) document describes datasets, relationships and
    metrics; importing it resolves each against a catalog snapshot and yields a
    semantic snapshot.  YAML values and the YAML reader and writer are
    serde_yaml_ng's and are parameters. *)

From S2P Require Import Prelude Ordered Text StrOps Json Lsq Lsm Semantic Catalog.

Definition OSI_VERSION : string := "0.1.1".
Definition IMPORT_SCHEMA_VERSION : string := "1".

(** ** Documents *)

(** [serde_yaml_ng::Value]: the code only asks whether there is one. *)
Class YamlValue := { YValue : Type }.

Module OsiExtension.
Record OsiExtension `{YamlValue} : Type := mk { vendor_name : string; data : YValue }.
End OsiExtension.
Abbreviation OsiExtension := OsiExtension.OsiExtension.

Module OsiDialect.
Inductive OsiDialect : Type := AnsiSql | Snowflake | Mdx | Tableau | Databricks | Maql.
#[global] Instance eq_dec : EqDecision OsiDialect.
Proof. solve_decision. Defined.
End OsiDialect.
Abbreviation OsiDialect := OsiDialect.OsiDialect.

Module OsiDialectExpression.
Record OsiDialectExpression : Type := mk { dialect : OsiDialect; expression : string }.
End OsiDialectExpression.
Abbreviation OsiDialectExpression := OsiDialectExpression.OsiDialectExpression.

Module OsiExpression.
Record OsiExpression : Type := mk { dialects : list OsiDialectExpression }.
Definition ansi (expression : string) : OsiExpression :=
  mk [OsiDialectExpression.mk OsiDialect.AnsiSql expression].
End OsiExpression.
Abbreviation OsiExpression := OsiExpression.OsiExpression.

Module OsiDimension.
Record OsiDimension : Type := mk { is_time : option bool }.
End OsiDimension.
Abbreviation OsiDimension := OsiDimension.OsiDimension.

Module OsiField.
Record OsiField `{YamlValue} : Type := mk {
  name : string;
  expression : OsiExpression;
  dimension : option OsiDimension;
  label : option string;
  description : option string;
  ai_context : option YValue;
  custom_extensions : list OsiExtension;
}.
End OsiField.
Abbreviation OsiField := OsiField.OsiField.

Module OsiMetric.
Record OsiMetric `{YamlValue} : Type := mk {
  name : string;
  expression : OsiExpression;
  description : option string;
  ai_context : option YValue;
  custom_extensions : list OsiExtension;
}.
End OsiMetric.
Abbreviation OsiMetric := OsiMetric.OsiMetric.

Module OsiRelationship.
Record OsiRelationship `{YamlValue} : Type := mk {
  name : string;
  from : string;
  to : string;
  from_columns : list string;
  to_columns : list string;
  ai_context : option YValue;
  custom_extensions : list OsiExtension;
}.
End OsiRelationship.
Abbreviation OsiRelationship := OsiRelationship.OsiRelationship.

Module OsiDataset.
Record OsiDataset `{YamlValue} : Type := mk {
  name : string;
  source : string;
  primary_key : list string;
  unique_keys : list (list string);
  description : option string;
  ai_context : option YValue;
  fields : list OsiField;
  custom_extensions : list OsiExtension;
}.
End OsiDataset.
Abbreviation OsiDataset := OsiDataset.OsiDataset.

Module OsiSemanticModel.
Record OsiSemanticModel `{YamlValue} : Type := mk {
  name : string;
  description : option string;
  ai_context : option YValue;
  datasets : list OsiDataset;
  relationships : list OsiRelationship;
  metrics : list OsiMetric;
  custom_extensions : list OsiExtension;
}.
End OsiSemanticModel.
Abbreviation OsiSemanticModel := OsiSemanticModel.OsiSemanticModel.

Module OsiDocument.
Record OsiDocument `{YamlValue} : Type := mk {
  semantic_model : list OsiSemanticModel;
  custom_extensions : list OsiExtension;
}.
End OsiDocument.
Abbreviation OsiDocument := OsiDocument.OsiDocument.

(** [serde_yaml_ng::from_slice] and [to_string] of documents. *)
Class OsiYaml := {
  osi_value :: YamlValue;
  document_from_slice : string -> result string OsiDocument;
  document_to_string : OsiDocument -> result string string;
}.

(** ** Reports *)

Module OsiImportWarning.
Record OsiImportWarning : Type := mk { code : string; path : string; message : string }.
End OsiImportWarning.
Abbreviation OsiImportWarning := OsiImportWarning.OsiImportWarning.

Module OsiImportReport.
Record OsiImportReport : Type := mk {
  schema_version : string;
  source_format : string;
  source_version : string;
  source_hash : string;
  catalog_fingerprint : string;
  semantic_model : string;
  warnings : list OsiImportWarning;
  snapshot : SemanticSnapshot;
}.
End OsiImportReport.
Abbreviation OsiImportReport := OsiImportReport.OsiImportReport.

Module OsiImportError.
Inductive OsiImportError : Type :=
| Parse (source : string)
| AmbiguousSemanticModel
| SemanticModelNotFound
| InvalidIdentifier (path value : string)
| DuplicateName (kind name : string)
| UnsupportedExtension (path : string)
| UnsupportedUniqueKeys (path : string)
| InvalidSource (path : string)
| DatabaseMismatch (path : string)
| RelationNotFound (path : string)
| RelationNotSelectable (path : string)
| UnsupportedExpression (path : string)
| UnsupportedPostgresType (path value : string)
| ColumnNotAvailable (path : string)
| InvalidTimeDimension (path : string)
| PrimaryKeyMismatch (path : string)
| CompositePrimaryKey (path : string)
| CompositeRelationship (path : string)
| InvalidRelationship (path : string)
| UnsupportedMetricExpression (path : string)
| CountRequiresEntityKey (path : string)
| InvalidCatalog (source : CatalogError)
| SnapshotHash (source : string).
End OsiImportError.
Abbreviation OsiImportError := OsiImportError.OsiImportError.

Abbreviation I A := (result OsiImportError A).
Abbreviation Warnings := (list OsiImportWarning).

(** ** [str::trim]

    Whitespace at the end is a suffix that trims to nothing; no suffix of a
    character does. *)

Fixpoint trim_start_ws (s : string) : string :=
  match s with
  | EmptyString => EmptyString
  | String c1 s1 =>
      if is_ascii_ws c1 then trim_start_ws s1 else
      match s1 with
      | EmptyString => s
      | String c2 s2 =>
          if is_ws2 c1 c2 then trim_start_ws s2 else
          match s2 with
          | EmptyString => s
          | String c3 s3 => if is_ws3 c1 c2 c3 then trim_start_ws s3 else s
          end
      end
  end.

Fixpoint trim_end_ws (s : string) : string :=
  if trim_is_empty s then EmptyString else
  match s with
  | EmptyString => EmptyString
  | String c rest => String c (trim_end_ws rest)
  end.

Definition trim (s : string) : string := trim_end_ws (trim_start_ws s).

(** The first [n] bytes and the rest, if there are so many. *)
Fixpoint split_at (n : nat) (s : string) : option (string * string) :=
  match n, s with
  | 0, _ => Some (EmptyString, s)
  | S n, EmptyString => None
  | S n, String c rest => '(a, b) ← split_at n rest; Some (String c a, b)
  end.

(** ** Checks *)

Fixpoint ensure_unique (kind : string) (seen : list string) (names : list string) : I unit :=
  match names with
  | [] => Ok tt
  | name :: names =>
      fail_if (bool_decide (name ∈ seen)) (OsiImportError.DuplicateName kind name);;
      ensure_unique kind (bs_insert name seen) names
  end.

Definition ensure_unique_names (kind : string) (names : list string) : I unit :=
  ensure_unique kind [] names.

Definition validate_identifier (path value : string) : I unit :=
  if portable_identifier value then Ok tt
  else Err (OsiImportError.InvalidIdentifier path value).

Definition reject_extensions `{YamlValue} (path : string) (extensions : list OsiExtension)
    : I unit :=
  match extensions with
  | _ :: _ => Err (OsiImportError.UnsupportedExtension path)
  | [] => Ok tt
  end.

Definition dropped_context_warning (path : string) : OsiImportWarning :=
  {| OsiImportWarning.code := "OSI_CONTEXT_REQUIRES_REVIEW";
     OsiImportWarning.path := path;
     OsiImportWarning.message :=
       "description or AI context is not part of the executable snapshot projection" |}.

Definition is_some {A} (o : option A) : bool := match o with Some _ => true | None => false end.

Definition warn_context `{YamlValue} (path : string) (description : option string)
    (ai_context : option YValue) (warnings : Warnings) : Warnings :=
  if is_some description || is_some ai_context
  then warnings ++ [dropped_context_warning path] else warnings.

Definition select_semantic_model `{YamlValue} (models : list OsiSemanticModel)
    (selected : option string) : I OsiSemanticModel :=
  match selected with
  | Some selected =>
      ok_or (List.find (fun model => bool_decide (OsiSemanticModel.name model = selected)) models)
        OsiImportError.SemanticModelNotFound
  | None =>
      match models with
      | [model] => Ok model
      | _ => Err OsiImportError.AmbiguousSemanticModel
      end
  end.

(** ** Sources, types and expressions *)

Definition parse_source (source current_database path : string) : I (string * string) :=
  '(database, schema, relation) ←
    match split (is_char 46) source with
    | [schema; relation] => Ok (None, schema, relation)
    | [database; schema; relation] => Ok (Some database, schema, relation)
    | _ => Err (OsiImportError.InvalidSource path)
    end;
  fail_if (negb (portable_identifier schema) || negb (portable_identifier relation))
    (OsiImportError.InvalidSource path);;
  fail_if (match database with
           | Some database => bool_decide (database <> current_database)
           | None => false
           end) (OsiImportError.DatabaseMismatch path);;
  Ok (schema, relation).

Definition ansi_expression (expression : OsiExpression) (path : string) : I string :=
  match OsiExpression.dialects expression with
  | [{| OsiDialectExpression.dialect := OsiDialect.AnsiSql;
        OsiDialectExpression.expression := expression |}] => Ok expression
  | _ => Err (OsiImportError.UnsupportedExpression path)
  end.

Definition direct_ansi_expression (expression : OsiExpression) (path : string) : I string :=
  value ← ansi_expression expression path;
  let value := trim value in
  fail_if (negb (portable_identifier value)) (OsiImportError.UnsupportedExpression path);;
  Ok value.

(** [postgres_data_type] of this module. *)
Definition imported_data_type (value path : string) : I DataType :=
  ok_or (postgres_data_type value)
    (OsiImportError.UnsupportedPostgresType path (to_ascii_lowercase value)).

Definition usable_key (constraint : CatalogConstraint) : option (list string) :=
  match constraint with
  | Constraint.PrimaryKey _ columns enforced period _ _ validated =>
      if enforced && negb period && validated then Some columns else None
  | _ => None
  end.

Definition catalog_primary_key (relation : CatalogRelation) : list string :=
  default [] (find_map usable_key (Rel.constraints relation)).

Module ImportedForeignKey.
Record ImportedForeignKey : Type := mk {
  columns : list string;
  target : Relation;
  referenced_columns : list string;
}.
End ImportedForeignKey.
Abbreviation ImportedForeignKey := ImportedForeignKey.ImportedForeignKey.

Definition usable_foreign_key (constraint : CatalogConstraint) : option ImportedForeignKey :=
  match constraint with
  | Constraint.ForeignKey _ columns referenced_relation referenced_columns _ _ _ _ enforced period
      _ _ validated =>
      if enforced && negb period && validated
      then Some {| ImportedForeignKey.columns := columns;
                   ImportedForeignKey.target :=
                     Relation.mk (RelationReference.schema referenced_relation)
                       (RelationReference.name referenced_relation);
                   ImportedForeignKey.referenced_columns := referenced_columns |}
      else None
  | _ => None
  end.

Definition catalog_foreign_keys (relation : CatalogRelation) : list ImportedForeignKey :=
  omap usable_foreign_key (Rel.constraints relation).

(** ** Aggregates *)

(** [expected_metric_type] of this module. *)
Definition imported_metric_type (aggregation : Aggregation) (field_type : DataType) : DataType :=
  match aggregation with
  | Aggregation.Count | Aggregation.CountDistinct => DataType.Integer
  | Aggregation.Avg => DataType.Numeric
  | Aggregation.Sum =>
      match field_type with DataType.Integer => DataType.Numeric | _ => field_type end
  | Aggregation.Min | Aggregation.Max => field_type
  end.

Definition aggregate_supports_type (aggregation : Aggregation) (field_type : DataType) : bool :=
  match aggregation with
  | Aggregation.Count | Aggregation.CountDistinct => true
  | Aggregation.Sum | Aggregation.Avg =>
      match field_type with DataType.Integer | DataType.Numeric => true | _ => false end
  | Aggregation.Min | Aggregation.Max =>
      match field_type with DataType.Boolean => false | _ => true end
  end.

Module ParsedMetric.
Record ParsedMetric : Type := mk { aggregation : Aggregation; dataset : string; field : string }.
End ParsedMetric.
Abbreviation ParsedMetric := ParsedMetric.ParsedMetric.

(** The leading [DISTINCT] of an argument: what is left and whether it was there. *)
Definition parse_distinct (argument : string) : option (string * bool) :=
  match split_at 8 argument with
  | Some (prefix, rest) =>
      if eq_ignore_ascii_case prefix "distinct" then
        match rest with
        | String c _ => if is_ascii_whitespace c then Some (trim rest, true) else None
        | EmptyString => None
        end
      else Some (argument, false)
  | None => Some (argument, false)
  end.

Definition parse_aggregation (function : string) (distinct : bool) : option Aggregation :=
  if eq_ignore_ascii_case function "count"
  then Some (if distinct then Aggregation.CountDistinct else Aggregation.Count)
  else if distinct then None
  else if eq_ignore_ascii_case function "sum" then Some Aggregation.Sum
  else if eq_ignore_ascii_case function "min" then Some Aggregation.Min
  else if eq_ignore_ascii_case function "max" then Some Aggregation.Max
  else if eq_ignore_ascii_case function "avg" then Some Aggregation.Avg
  else None.

(** The expression ends with the closing parenthesis; what the opening one
    leaves of it, without the closing one, is the argument. *)
Definition parse_metric_expression (expression : string) : option ParsedMetric :=
  let expression := trim expression in
  '(function, rest) ← split_once "("%char expression;
  argument ← strip_suffix ")" rest;
  '(argument, distinct) ← parse_distinct (trim argument);
  '(dataset, field) ← split_once "."%char argument;
  if any_byte (is_char 46) field || negb (portable_identifier dataset)
     || negb (portable_identifier field)
  then None else
  aggregation ← parse_aggregation (trim function) distinct;
  Some {| ParsedMetric.aggregation := aggregation; ParsedMetric.dataset := dataset;
          ParsedMetric.field := field |}.

(** ** Imported models *)

Module ImportedField.
Record ImportedField : Type := mk {
  column : string;
  data_type : DataType;
  entity_key : bool;
  time_dimension : bool;
  nullable : bool;
}.
End ImportedField.
Abbreviation ImportedField := ImportedField.ImportedField.

Module ImportedModel.
Record ImportedModel : Type := mk {
  model : Model;
  fields : list (string * ImportedField);
  foreign_keys : list ImportedForeignKey;
}.
End ImportedModel.
Abbreviation ImportedModel := ImportedModel.ImportedModel.

(** [BTreeMap<String, ImportedModel>] *)
Abbreviation Imported := (list (string * ImportedModel)).
Abbreviation RelationIndex := (list ((string * string) * CatalogRelation)).

Section import.
Context `{YamlValue}.

(** *** Datasets *)

Section dataset.
Context (path : string) (entity_keys : list string) (columns : list (string * CatalogColumn)).

(** The state of the loop over the fields. *)
Record FieldLoop : Type := {
  fl_names : list string;
  fl_fields : list Field;
  fl_imported : list (string * ImportedField);
  fl_warnings : Warnings;
}.

Definition import_field (loop : FieldLoop) (field : OsiField) : I FieldLoop :=
  let name := OsiField.name field in
  let field_path := path +:+ "/fields/" +:+ name in
  validate_identifier (field_path +:+ "/name") name;;
  fail_if (bool_decide (name ∈ fl_names loop)) (OsiImportError.DuplicateName "field" name);;
  reject_extensions field_path (OsiField.custom_extensions field);;
  let description :=
    match OsiField.description field with Some d => Some d | None => OsiField.label field end in
  let warnings := warn_context field_path description (OsiField.ai_context field)
                    (fl_warnings loop) in
  column_name ← direct_ansi_expression (OsiField.expression field) field_path;
  column ← ok_or (bt_get column_name columns) (OsiImportError.ColumnNotAvailable field_path);
  fail_if (negb (Column.select_grant column)) (OsiImportError.ColumnNotAvailable field_path);;
  data_type ← imported_data_type (Column.data_type column) field_path;
  let is_time := default false (OsiField.dimension field ≫= OsiDimension.is_time) in
  fail_if (is_time && negb (bool_decide (data_type = DataType.Date)
                            || bool_decide (data_type = DataType.Timestamp)))
    (OsiImportError.InvalidTimeDimension field_path);;
  let entity_key := bool_decide (column_name ∈ entity_keys) in
  Ok {| fl_names := bs_insert name (fl_names loop);
        fl_fields := fl_fields loop ++
          [{| Field.semantic_name := name; Field.data_type := data_type;
              Field.column := column_name; Field.relationship := None;
              Field.time_dimension := is_time; Field.entity_key := entity_key;
              Field.visible := true; Field.nullable := Column.nullable column |}];
        fl_imported := bt_insert name
          {| ImportedField.column := column_name; ImportedField.data_type := data_type;
             ImportedField.entity_key := entity_key; ImportedField.time_dimension := is_time;
             ImportedField.nullable := Column.nullable column |} (fl_imported loop);
        fl_warnings := warnings |}.
End dataset.

Definition key_is_imported (path : string) (fields : list (string * ImportedField)) (key : string)
    : I unit :=
  fail_if (negb (existsb (fun '(_, field) => bool_decide (ImportedField.column field = key)
                                             && ImportedField.entity_key field) fields))
    (OsiImportError.PrimaryKeyMismatch path).

(** The key in force, and the warning that it comes from the catalog alone. *)
Definition effective_key (path : string) (declared catalog_key : list string)
    (warnings : Warnings) : list string * Warnings :=
  match declared with
  | [] =>
      (catalog_key,
       if bool_decide (catalog_key = []) then warnings
       else warnings ++
         [{| OsiImportWarning.code := "OSI_PRIMARY_KEY_DERIVED_FROM_CATALOG";
             OsiImportWarning.path := path;
             OsiImportWarning.message :=
               "primary key was omitted and derived from validated PostgreSQL evidence" |}])
  | _ => (declared, warnings)
  end.

Definition import_dataset (current_database : string) (catalog : RelationIndex)
    (state : Imported * Warnings) (dataset : OsiDataset) : I (Imported * Warnings) :=
  let '(imported, warnings) := state in
  let name := OsiDataset.name dataset in
  let path := "/datasets/" +:+ name in
  validate_identifier (path +:+ "/name") name;;
  fail_if (bt_contains name imported) (OsiImportError.DuplicateName "dataset" name);;
  reject_extensions path (OsiDataset.custom_extensions dataset);;
  fail_if (negb (bool_decide (OsiDataset.unique_keys dataset = [])))
    (OsiImportError.UnsupportedUniqueKeys path);;
  let warnings := warn_context path (OsiDataset.description dataset)
                    (OsiDataset.ai_context dataset) warnings in
  '(schema, relation_name) ← parse_source (OsiDataset.source dataset) current_database path;
  relation ← ok_or (bt_get (schema, relation_name) catalog) (OsiImportError.RelationNotFound path);
  let grants := Rel.grants relation in
  fail_if (negb (Grants.schema_usage grants)
           || (negb (Grants.table_select grants) && negb (Grants.any_column_select grants)))
    (OsiImportError.RelationNotSelectable path);;
  let catalog_key := catalog_primary_key relation in
  fail_if (negb (bool_decide (OsiDataset.primary_key dataset = []))
           && bool_decide (OsiDataset.primary_key dataset <> catalog_key))
    (OsiImportError.PrimaryKeyMismatch path);;
  let '(key, warnings) :=
    effective_key path (OsiDataset.primary_key dataset) catalog_key warnings in
  fail_if (bool_decide (1 < length key)) (OsiImportError.CompositePrimaryKey path);;
  let columns :=
    bt_from_list (map (fun column => (Column.name column, column)) (Rel.columns relation)) in
  loop ← try_fold (import_field path (bs_from_list key) columns)
           {| fl_names := []; fl_fields := []; fl_imported := []; fl_warnings := warnings |}
           (OsiDataset.fields dataset);
  try_each (key_is_imported path (fl_imported loop)) key;;
  Ok (bt_insert name
        {| ImportedModel.model :=
             {| Model.semantic_name := name;
                Model.source := Relation.mk schema relation_name;
                Model.timezone := None; Model.queryable := true; Model.writable := None;
                Model.fields := fl_fields loop; Model.metrics := [];
                Model.relationships := [] |};
           ImportedModel.fields := fl_imported loop;
           ImportedModel.foreign_keys := catalog_foreign_keys relation |} imported,
      fl_warnings loop).

(** *** Relationships *)

Definition projected_field (relationship : string) (field : string * ImportedField) : Field :=
  let '(name, field) := field in
  {| Field.semantic_name := relationship +:+ "_" +:+ name;
     Field.data_type := ImportedField.data_type field;
     Field.column := ImportedField.column field;
     Field.relationship := Some relationship;
     Field.time_dimension := ImportedField.time_dimension field;
     Field.entity_key := false; Field.visible := true;
     Field.nullable := ImportedField.nullable field |}.

(** The loop over the projected fields. *)
Definition push_projected (path : string) (fields : list Field) (field : Field)
    : I (list Field) :=
  fail_if (existsb (fun f => bool_decide (Field.semantic_name f = Field.semantic_name field)) fields)
    (OsiImportError.InvalidRelationship path);;
  Ok (fields ++ [field]).

Definition with_column (column : string) (field : string * ImportedField) : bool :=
  bool_decide (ImportedField.column field.2 = column).

Definition backs (from_column : string) (target : Relation) (to_column : string)
    (key : ImportedForeignKey) : bool :=
  bool_decide (ImportedForeignKey.columns key = [from_column])
  && bool_decide (ImportedForeignKey.target key = target)
  && bool_decide (ImportedForeignKey.referenced_columns key = [to_column]).

Definition set_fields (fields : list Field) (m : Model) : Model :=
  {| Model.semantic_name := Model.semantic_name m; Model.source := Model.source m;
     Model.timezone := Model.timezone m; Model.queryable := Model.queryable m;
     Model.writable := Model.writable m; Model.fields := fields;
     Model.metrics := Model.metrics m; Model.relationships := Model.relationships m |}.

Definition push_relationship (r : Relationship) (m : Model) : Model :=
  {| Model.semantic_name := Model.semantic_name m; Model.source := Model.source m;
     Model.timezone := Model.timezone m; Model.queryable := Model.queryable m;
     Model.writable := Model.writable m; Model.fields := Model.fields m;
     Model.metrics := Model.metrics m; Model.relationships := Model.relationships m ++ [r] |}.

Definition push_metric (metric : Metric) (m : Model) : Model :=
  {| Model.semantic_name := Model.semantic_name m; Model.source := Model.source m;
     Model.timezone := Model.timezone m; Model.queryable := Model.queryable m;
     Model.writable := Model.writable m; Model.fields := Model.fields m;
     Model.metrics := Model.metrics m ++ [metric]; Model.relationships := Model.relationships m |}.

Definition set_model (m : Model) (entry : ImportedModel) : ImportedModel :=
  {| ImportedModel.model := m; ImportedModel.fields := ImportedModel.fields entry;
     ImportedModel.foreign_keys := ImportedModel.foreign_keys entry |}.

Definition import_relationship (state : Imported * Warnings) (relationship : OsiRelationship)
    : I (Imported * Warnings) :=
  let '(imported, warnings) := state in
  let name := OsiRelationship.name relationship in
  let path := "/relationships/" +:+ name in
  let invalid := OsiImportError.InvalidRelationship path in
  validate_identifier (path +:+ "/name") name;;
  reject_extensions path (OsiRelationship.custom_extensions relationship);;
  let warnings := if is_some (OsiRelationship.ai_context relationship)
                  then warnings ++ [dropped_context_warning path] else warnings in
  '(from_field_name, to_field_name) ←
    match OsiRelationship.from_columns relationship, OsiRelationship.to_columns relationship with
    | [from], [to] => Ok (from, to)
    | _, _ => Err (OsiImportError.CompositeRelationship path)
    end;
  to_model ← ok_or (bt_get (OsiRelationship.to relationship) imported) invalid;
  let target := Model.source (ImportedModel.model to_model) in
  let projected_fields := map (projected_field name) (ImportedModel.fields to_model) in
  to_column ←
    match List.find (with_column to_field_name) (ImportedModel.fields to_model) with
    | Some (_, field) =>
        if ImportedField.entity_key field then Ok (ImportedField.column field) else Err invalid
    | None => Err invalid
    end;
  from_model ← ok_or (bt_get (OsiRelationship.from relationship) imported) invalid;
  let model := ImportedModel.model from_model in
  fail_if (existsb (fun existing => bool_decide (Relationship.semantic_name existing = name))
             (Model.relationships model)) (OsiImportError.DuplicateName "relationship" name);;
  from_column ←
    ok_or ((fun field => ImportedField.column field.2) <$>
             List.find (with_column from_field_name) (ImportedModel.fields from_model)) invalid;
  fail_if (negb (existsb (backs from_column target to_column)
                   (ImportedModel.foreign_keys from_model))) invalid;;
  let model := push_relationship
    {| Relationship.semantic_name := name;
       Relationship.target_model := OsiRelationship.to relationship;
       Relationship.target := target; Relationship.cardinality := Cardinality.ManyToOne;
       Relationship.join_type := JoinType.Left; Relationship.from_column := from_column;
       Relationship.to_column := to_column |} model in
  fields ← try_fold (push_projected path) (Model.fields model) projected_fields;
  Ok (bt_insert (OsiRelationship.from relationship) (set_model (set_fields fields model) from_model)
        imported, warnings).

(** *** Metrics *)

Definition import_metric (state : Imported * Warnings) (metric : OsiMetric)
    : I (Imported * Warnings) :=
  let '(imported, warnings) := state in
  let name := OsiMetric.name metric in
  let path := "/metrics/" +:+ name in
  let unsupported := OsiImportError.UnsupportedMetricExpression path in
  validate_identifier (path +:+ "/name") name;;
  reject_extensions path (OsiMetric.custom_extensions metric);;
  let warnings := warn_context path (OsiMetric.description metric) (OsiMetric.ai_context metric)
                    warnings in
  expression ← ansi_expression (OsiMetric.expression metric) path;
  parsed ← ok_or (parse_metric_expression expression) unsupported;
  imported_model ← ok_or (bt_get (ParsedMetric.dataset parsed) imported) unsupported;
  let model := ImportedModel.model imported_model in
  fail_if (existsb (fun existing => bool_decide (Metric.semantic_name existing = name))
             (Model.metrics model)) (OsiImportError.DuplicateName "metric" name);;
  field ← ok_or (bt_get (ParsedMetric.field parsed) (ImportedModel.fields imported_model))
            unsupported;
  let aggregation := ParsedMetric.aggregation parsed in
  fail_if ((bool_decide (aggregation = Aggregation.Count)
            || bool_decide (aggregation = Aggregation.CountDistinct))
           && negb (ImportedField.entity_key field)) (OsiImportError.CountRequiresEntityKey path);;
  fail_if (negb (aggregate_supports_type aggregation (ImportedField.data_type field))) unsupported;;
  Ok (bt_insert (ParsedMetric.dataset parsed)
        (set_model (push_metric
           {| Metric.semantic_name := name;
              Metric.data_type := imported_metric_type aggregation (ImportedField.data_type field);
              Metric.aggregation := aggregation; Metric.field := ParsedMetric.field parsed;
              Metric.filter := None; Metric.additivity := None; Metric.aggregation_anchor := None;
              Metric.visible := true |} model) imported_model) imported, warnings).
End import.

(** ** Import *)

Definition relation_index (catalog : CatalogSnapshot) : RelationIndex :=
  bt_from_list (map (fun relation => ((Rel.schema relation, Rel.name relation), relation))
                  (Catalog.relations catalog)).

(** The models of a semantic model, and the warnings on the way. *)
Definition import_models `{YamlValue} (catalog : CatalogSnapshot) (model : OsiSemanticModel)
    (warnings : Warnings) : I (Imported * Warnings) :=
  state ← try_fold (import_dataset (Catalog.current_database catalog) (relation_index catalog))
            ([], warnings) (OsiSemanticModel.datasets model);
  ensure_unique_names "relationship"
    (map OsiRelationship.name (OsiSemanticModel.relationships model));;
  ensure_unique_names "metric" (map OsiMetric.name (OsiSemanticModel.metrics model));;
  state ← try_fold import_relationship state (OsiSemanticModel.relationships model);
  try_fold import_metric state (OsiSemanticModel.metrics model).

(** The snapshot of the imported models, sealed. *)
Definition imported_snapshot `{Crates} (models : list Model) : I SemanticSnapshot :=
  let snapshot := normalized {| Snapshot.schema_version := "1";
                                Snapshot.revision_hash := EmptyString;
                                Snapshot.models := models |} in
  revision_hash ← map_err OsiImportError.SnapshotHash (calculate_revision_hash snapshot);
  Ok {| Snapshot.schema_version := Snapshot.schema_version snapshot;
        Snapshot.revision_hash := revision_hash; Snapshot.models := Snapshot.models snapshot |}.

Definition warning_key (w : OsiImportWarning) : string * string :=
  (OsiImportWarning.path w, OsiImportWarning.code w).

Definition import_osi `{Crates, OsiYaml} (input : string) (catalog : CatalogSnapshot)
    (selected_model : option string) : I OsiImportReport :=
  document ← map_err OsiImportError.Parse (document_from_slice input);
  reject_extensions "/" (OsiDocument.custom_extensions document);;
  ensure_unique_names "semantic model"
    (map OsiSemanticModel.name (OsiDocument.semantic_model document));;
  model ← select_semantic_model (OsiDocument.semantic_model document) selected_model;
  let path := "/semantic_model/" +:+ OsiSemanticModel.name model in
  validate_identifier "/semantic_model/name" (OsiSemanticModel.name model);;
  reject_extensions path (OsiSemanticModel.custom_extensions model);;
  catalog ← map_err OsiImportError.InvalidCatalog (validated_normalized catalog);
  let warnings := warn_context path (OsiSemanticModel.description model)
                    (OsiSemanticModel.ai_context model) [] in
  '(imported, warnings) ← import_models catalog model warnings;
  snapshot ← imported_snapshot (map ImportedModel.model imported.*2);
  Ok {| OsiImportReport.schema_version := IMPORT_SCHEMA_VERSION;
        OsiImportReport.source_format := "apache-ossie";
        OsiImportReport.source_version := OSI_VERSION;
        OsiImportReport.source_hash := sha256 input;
        OsiImportReport.catalog_fingerprint := Catalog.fingerprint catalog;
        OsiImportReport.semantic_model := OsiSemanticModel.name model;
        OsiImportReport.warnings := sort_by_key warning_key warnings;
        OsiImportReport.snapshot := snapshot |}.
