(* ===== verification/OsiExport.v ===== *)
(** * OSI documents ([osi.rs]): export

    A snapshot is written as a document, the document is imported again against
    the catalog, and it is returned only when that gives the snapshot back. *)

From S2P Require Import Prelude Ordered Text StrOps Json Lsq Lsm Semantic Catalog Osi.

Definition EXPORT_SCHEMA_VERSION : string := "1".

Module OsiExportError.
Inductive OsiExportError : Type :=
| Parse (source : string)
| UnsupportedSnapshotVersion
| InvalidRevisionHash
| UnsupportedSemantics (path reason : string)
| Validation (source : OsiImportError)
| RoundTripMismatch (model : string)
| SnapshotHash (source : string)
| Serialize (source : string).
End OsiExportError.
Abbreviation OsiExportError := OsiExportError.OsiExportError.

Abbreviation X A := (result OsiExportError A).

Section document.
Context `{YamlValue}.

(** ** Datasets *)

(** The loop over the fields: the exported fields and the primary key, a
    [BTreeSet]. *)
Definition export_field (path : string) (state : list OsiField * list string) (field : Field)
    : X (list OsiField * list string) :=
  let '(fields, primary_key) := state in
  fail_if (negb (Field.visible field))
    (OsiExportError.UnsupportedSemantics (path +:+ "/fields/" +:+ Field.semantic_name field)
       "hidden fields");;
  if is_some (Field.relationship field) then Ok (fields, primary_key) else
  let primary_key :=
    if Field.entity_key field then bs_insert (Field.column field) primary_key else primary_key in
  Ok (fields ++
        [{| OsiField.name := Field.semantic_name field;
            OsiField.expression := OsiExpression.ansi (Field.column field);
            OsiField.dimension := Some (OsiDimension.mk (Some (Field.time_dimension field)));
            OsiField.label := None; OsiField.description := None; OsiField.ai_context := None;
            OsiField.custom_extensions := [] |}], primary_key).

Definition export_dataset (path : string) (model : Model) : X OsiDataset :=
  '(fields, primary_key) ← try_fold (export_field path) ([], []) (Model.fields model);
  Ok {| OsiDataset.name := Model.semantic_name model;
        OsiDataset.source := Relation.schema (Model.source model) +:+ "."
                             +:+ Relation.relation (Model.source model);
        OsiDataset.primary_key := primary_key; OsiDataset.unique_keys := [];
        OsiDataset.description := None; OsiDataset.ai_context := None;
        OsiDataset.fields := fields; OsiDataset.custom_extensions := [] |}.

(** ** Relationships and metrics *)

Definition export_relationship (path : string) (model : Model) (relationships : list OsiRelationship)
    (relationship : Relationship) : X (list OsiRelationship) :=
  fail_if (bool_decide (Relationship.cardinality relationship <> Cardinality.ManyToOne)
           || bool_decide (Relationship.join_type relationship <> JoinType.Left))
    (OsiExportError.UnsupportedSemantics
       (path +:+ "/relationships/" +:+ Relationship.semantic_name relationship)
       "relationships other than many-to-one left joins");;
  Ok (relationships ++
        [{| OsiRelationship.name := Relationship.semantic_name relationship;
            OsiRelationship.from := Model.semantic_name model;
            OsiRelationship.to := Relationship.target_model relationship;
            OsiRelationship.from_columns := [Relationship.from_column relationship];
            OsiRelationship.to_columns := [Relationship.to_column relationship];
            OsiRelationship.ai_context := None; OsiRelationship.custom_extensions := [] |}]).

(** [(function, modifier)] *)
Definition aggregate_text (aggregation : Aggregation) : string * string :=
  match aggregation with
  | Aggregation.Count => ("COUNT", EmptyString)
  | Aggregation.CountDistinct => ("COUNT", "DISTINCT ")
  | Aggregation.Sum => ("SUM", EmptyString)
  | Aggregation.Min => ("MIN", EmptyString)
  | Aggregation.Max => ("MAX", EmptyString)
  | Aggregation.Avg => ("AVG", EmptyString)
  end.

Definition metric_expression (aggregation : Aggregation) (dataset field : string) : string :=
  let '(function, modifier) := aggregate_text aggregation in
  function +:+ "(" +:+ modifier +:+ dataset +:+ "." +:+ field +:+ ")".

Definition export_metric (path : string) (model : Model) (metrics : list OsiMetric)
    (metric : Metric) : X (list OsiMetric) :=
  fail_if (negb (Metric.visible metric) || is_some (Metric.filter metric)
           || is_some (Metric.additivity metric) || is_some (Metric.aggregation_anchor metric))
    (OsiExportError.UnsupportedSemantics (path +:+ "/metrics/" +:+ Metric.semantic_name metric)
       "hidden metrics, filters, additivity, or aggregation anchors");;
  Ok (metrics ++
        [{| OsiMetric.name := Metric.semantic_name metric;
            OsiMetric.expression := OsiExpression.ansi
              (metric_expression (Metric.aggregation metric) (Model.semantic_name model)
                 (Metric.field metric));
            OsiMetric.description := None; OsiMetric.ai_context := None;
            OsiMetric.custom_extensions := [] |}]).

(** ** Documents *)

(** The body of the loop over the models. *)
Definition export_model (exported : OsiSemanticModel) (model : Model) : X OsiSemanticModel :=
  let path := "/models/" +:+ Model.semantic_name model in
  fail_if (negb (Model.queryable model) || is_some (Model.writable model)
           || is_some (Model.timezone model))
    (OsiExportError.UnsupportedSemantics path
       "nonqueryable models, writable projections, or model timezones");;
  dataset ← export_dataset path model;
  relationships ← try_fold (export_relationship path model)
                    (OsiSemanticModel.relationships exported) (Model.relationships model);
  metrics ← try_fold (export_metric path model) (OsiSemanticModel.metrics exported)
              (Model.metrics model);
  Ok {| OsiSemanticModel.name := OsiSemanticModel.name exported;
        OsiSemanticModel.description := OsiSemanticModel.description exported;
        OsiSemanticModel.ai_context := OsiSemanticModel.ai_context exported;
        OsiSemanticModel.datasets := OsiSemanticModel.datasets exported ++ [dataset];
        OsiSemanticModel.relationships := relationships;
        OsiSemanticModel.metrics := metrics;
        OsiSemanticModel.custom_extensions := OsiSemanticModel.custom_extensions exported |}.

Definition empty_semantic_model (name : string) : OsiSemanticModel :=
  {| OsiSemanticModel.name := name; OsiSemanticModel.description := None;
     OsiSemanticModel.ai_context := None; OsiSemanticModel.datasets := [];
     OsiSemanticModel.relationships := []; OsiSemanticModel.metrics := [];
     OsiSemanticModel.custom_extensions := [] |}.
End document.

(** ** Nullability *)

(** The nullability the reimported model gives to a field. *)
Definition reimported_nullable (reimported : list Model) (model field : string) : option bool :=
  actual ← List.find (fun actual => bool_decide (Model.semantic_name actual = model)) reimported;
  Field.nullable <$>
    List.find (fun actual => bool_decide (Field.semantic_name actual = field)) (Model.fields actual).

Definition set_nullable (nullable : bool) (f : Field) : Field :=
  {| Field.semantic_name := Field.semantic_name f; Field.data_type := Field.data_type f;
     Field.column := Field.column f; Field.relationship := Field.relationship f;
     Field.time_dimension := Field.time_dimension f; Field.entity_key := Field.entity_key f;
     Field.visible := Field.visible f; Field.nullable := nullable |}.

Definition resolve_nullable (omitted : list (string * string)) (reimported : list Model)
    (model : string) (field : Field) : X Field :=
  if bool_decide ((model, Field.semantic_name field) ∈ omitted) then
    nullable ← ok_or (reimported_nullable reimported model (Field.semantic_name field))
                 (OsiExportError.RoundTripMismatch model);
    Ok (set_nullable nullable field)
  else Ok field.

Definition resolve_model (omitted : list (string * string)) (reimported : list Model)
    (model : Model) : X Model :=
  fields ← try_map (resolve_nullable omitted reimported (Model.semantic_name model))
             (Model.fields model);
  Ok (set_fields fields model).

(** ** Export *)

Section export.
Context `{Crates, OsiYaml}.

(** The name of a model that did not come back, for the error. *)
Definition changed_model (expected actual : list Model) : string :=
  match List.find (fun e => negb (existsb (fun a => bool_decide (a = e)) actual)) expected with
  | Some model => Model.semantic_name model
  | None => "/models"
  end.

Definition export_with_catalog_nullability (snapshot : SemanticSnapshot)
    (catalog : CatalogSnapshot) (semantic_model : string)
    (omitted_nullability : list (string * string)) : X string :=
  fail_if (bool_decide (Snapshot.schema_version snapshot <> "1"))
    OsiExportError.UnsupportedSnapshotVersion;;
  calculated ← map_err OsiExportError.SnapshotHash (calculate_revision_hash snapshot);
  fail_if (bool_decide (calculated <> Snapshot.revision_hash snapshot))
    OsiExportError.InvalidRevisionHash;;
  let snapshot := normalized snapshot in
  fail_if (bool_decide (Snapshot.models snapshot = []))
    (OsiExportError.UnsupportedSemantics "/models" "an empty model collection");;
  exported ← try_fold export_model (empty_semantic_model semantic_model) (Snapshot.models snapshot);
  let document := {| OsiDocument.semantic_model := [exported];
                     OsiDocument.custom_extensions := [] |} in
  yaml ← map_err OsiExportError.Serialize (document_to_string document);
  reimported ← map_err OsiExportError.Validation (import_osi yaml catalog None);
  let actual := OsiImportReport.snapshot reimported in
  models ← try_map (resolve_model omitted_nullability (Snapshot.models actual))
             (Snapshot.models snapshot);
  let snapshot := {| Snapshot.schema_version := Snapshot.schema_version snapshot;
                     Snapshot.revision_hash := Snapshot.revision_hash snapshot;
                     Snapshot.models := models |} in
  fail_if (bool_decide (snapshot <> actual))
    (OsiExportError.RoundTripMismatch
       (changed_model (Snapshot.models snapshot) (Snapshot.models actual)));;
  Ok yaml.

Definition export (snapshot : SemanticSnapshot) (catalog : CatalogSnapshot)
    (semantic_model : string) : X string :=
  export_with_catalog_nullability snapshot catalog semantic_model [].

(** [&value[key]] and [&value[index]] of [serde_json::Value]: [Null] when absent. *)
Definition index_key (key : string) (v : Value) : Value :=
  match v with
  | Value_Object fields => default Value_Null (bt_get key fields)
  | _ => Value_Null
  end.

Definition index_position (i : nat) (v : Value) : Value :=
  match v with
  | Value_Array values => default Value_Null (values !! i)
  | _ => Value_Null
  end.

Definition has_key (key : string) (v : Value) : bool :=
  match v with Value_Object fields => bt_contains key fields | _ => false end.

Definition omits_nullable (document : Value) (model field : nat) : bool :=
  negb (has_key "nullable"
          (index_position field (index_key "fields"
             (index_position model (index_key "models" document))))).

(** The loops over the models and their fields: the set of the fields whose
    nullability the text does not state. *)
Definition omitted_nullability (document : Value) (snapshot : SemanticSnapshot)
    : list (string * string) :=
  bs_from_list
    (concat (imap (fun model_index model =>
       concat (imap (fun field_index field =>
         if omits_nullable document model_index field_index
         then [(Model.semantic_name model, Field.semantic_name field)] else [])
         (Model.fields model))) (Snapshot.models snapshot))).

(** serde_json's readers of snapshots and of values. *)
Context (snapshot_from_slice : string -> result string SemanticSnapshot).
Context (json_from_slice : string -> result string Value).

Definition export_json (input : string) (catalog : CatalogSnapshot) (semantic_model : string)
    : X string :=
  snapshot ← map_err OsiExportError.Parse (snapshot_from_slice input);
  document ← map_err OsiExportError.Parse (json_from_slice input);
  export_with_catalog_nullability snapshot catalog semantic_model
    (omitted_nullability document snapshot).
End export.
