(* ===== verification/OsiSpec.v ===== *)
(** * What an OSI import accepts ([osi.rs])

    The import of datasets, relationships and metrics, stated without the loops
    and the order of the checks: which documents are accepted, and which models
    they give.

    The second part is about the texts inside documents. *)

From S2P Require Import Prelude Ordered Text StrOps Json Lsq Lsm Semantic Catalog Osi OsiExport.

(** ** Maps *)

Section maps.
Context {K V : Type} `{!EqDecision K, !Ordered K}.
Implicit Types m l : list (K * V).

(** Replacing the value of a key that is bound. *)
Lemma bt_insert_bound k v w m :
  bt_wf m -> bt_get k m = Some v ->
  bt_insert k w m = map (fun '(k', v') => (k', if decide (k' = k) then w else v')) m.
Proof.
  unfold bt_wf. induction m as [|[k' v'] m IH]; simpl; [done|]. intros Hwf Hget.
  apply StronglySorted_inv in Hwf as [Hwf Hhd].
  destruct (decide (k = k')) as [->|Hne].
  - rewrite decide_True by done. f_equal. rewrite <- (map_id m) at 1. apply map_ext_in.
    intros [k2 v2] Hin. rewrite decide_False; [done|]. intros ->.
    rewrite Forall_forall in Hhd. apply (klt_irrefl k'), Hhd.
    apply list_elem_of_fmap. exists (k', v2). split; [done|by apply list_elem_of_In].
  - rewrite (decide_False (P := k' = k)) by congruence. rewrite decide_False; [by f_equal; auto|].
    intros Hle. apply bt_get_elem in Hget. rewrite Forall_forall in Hhd.
    assert (Hk : k ∈ m.*1) by (apply list_elem_of_fmap; by exists (k, v)).
    destruct (Hhd _ Hk) as [Hle' _]. by apply Hne, (anti_symm kle).
Qed.

Lemma bt_get_map {W} (f : K -> V -> W) m k :
  bt_get k (map (fun '(k, v) => (k, f k v)) m) = f k <$> bt_get k m.
Proof. induction m as [|[k' v] m IH]; simpl; [done|]. case_decide; subst; [done|apply IH]. Qed.

Lemma bt_keys_map {W} (f : K -> V -> W) m : (map (fun '(k, v) => (k, f k v)) m).*1 = m.*1.
Proof. induction m as [|[k v] m IH]; simpl; [done|]. by f_equal. Qed.

(** A map is determined by its bindings. *)
Lemma bt_ext m1 m2 : bt_wf m1 -> bt_wf m2 -> (forall k v, (k, v) ∈ m1 <-> (k, v) ∈ m2) -> m1 = m2.
Proof.
  intros H1 H2 Heq.
  apply (sorted_perm_unique (fun x y => klt x.1 y.1)).
  - intros x y _ _ [Hxy Hne] [Hyx _]. by destruct Hne; apply (anti_symm kle).
  - clear -H1. unfold bt_wf, bs_wf in H1. induction m1 as [|x m IH]; [constructor|].
    simpl in H1. apply StronglySorted_inv in H1 as [Hs Hx]. constructor; [auto|].
    by rewrite Forall_fmap in Hx.
  - clear -H2. unfold bt_wf, bs_wf in H2. induction m2 as [|x m IH]; [constructor|].
    simpl in H2. apply StronglySorted_inv in H2 as [Hs Hx]. constructor; [auto|].
    by rewrite Forall_fmap in Hx.
  - apply NoDup_Permutation; [by eapply NoDup_fmap_1, bs_wf_nodup..|]. intros []. apply Heq.
Qed.

Lemma bt_from_list_nodup_ext (l1 l2 : list (K * V)) :
  NoDup l1.*1 -> l1 ≡ₚ l2 -> bt_from_list l1 = bt_from_list l2.
Proof.
  intros Hn Hp. assert (Hn2 : NoDup l2.*1) by (by rewrite <- Hp).
  apply bt_ext; auto using bt_from_list_wf. intros k v.
  split; intros Hin; apply bt_elem_get in Hin; auto using bt_from_list_wf;
    apply bt_from_list_get_elem in Hin; apply bt_get_elem, bt_from_list_get_nodup; try done.
  - by rewrite <- Hp.
  - by rewrite Hp.
Qed.

Lemma elem_of_bt_from_list l k v : NoDup l.*1 -> (k, v) ∈ bt_from_list l <-> (k, v) ∈ l.
Proof.
  intros Hn. split.
  - intros Hin. apply bt_elem_get, bt_from_list_get_elem in Hin; auto using bt_from_list_wf.
  - intros Hin. by apply bt_get_elem, bt_from_list_get_nodup.
Qed.
End maps.

(** ** Fields *)

Section spec.
Context `{YamlValue}.

Definition imported_of (f : Field) : ImportedField :=
  {| ImportedField.column := Field.column f; ImportedField.data_type := Field.data_type f;
     ImportedField.entity_key := Field.entity_key f;
     ImportedField.time_dimension := Field.time_dimension f;
     ImportedField.nullable := Field.nullable f |}.

(** A field stands for a column of the catalog that may be selected. *)
Record column_backed (key : list string) (columns : list (string * CatalogColumn)) (f : Field)
    : Prop := {
  cb_portable : portable_identifier (Field.semantic_name f) = true;
  cb_portable_column : portable_identifier (Field.column f) = true;
  cb_column : exists c, bt_get (Field.column f) columns = Some c /\ Column.select_grant c = true
    /\ postgres_data_type (Column.data_type c) = Some (Field.data_type f)
    /\ Field.nullable f = Column.nullable c;
  cb_time : Field.time_dimension f = true ->
    Field.data_type f = DataType.Date \/ Field.data_type f = DataType.Timestamp;
  cb_key : Field.entity_key f = bool_decide (Field.column f ∈ key);
  cb_direct : Field.relationship f = None;
  cb_visible : Field.visible f = true;
}.

Definition ansi_text (expression : OsiExpression) (text : string) : Prop :=
  expression = OsiExpression.ansi text.

Lemma ansi_expression_ok expression path text :
  ansi_expression expression path = Ok text <-> ansi_text expression text.
Proof.
  unfold ansi_expression, ansi_text. destruct expression as [[|[[] e] [|]]]; simpl;
    try (split; [discriminate|]; by intros [=]).
  split; [by intros [= ->]|]. by intros [= ->].
Qed.

(** The document describes the field. *)
Record describes_field (o : OsiField) (f : Field) : Prop := {
  df_name : OsiField.name o = Field.semantic_name f;
  df_plain : OsiField.custom_extensions o = [];
  df_column : exists text, ansi_text (OsiField.expression o) text /\ trim text = Field.column f;
  df_time : default false (OsiField.dimension o ≫= OsiDimension.is_time) = Field.time_dimension f;
}.

Definition push_field (path : string) (loop : FieldLoop) (o : OsiField) (f : Field) : FieldLoop :=
  {| fl_names := bs_insert (Field.semantic_name f) (fl_names loop);
     fl_fields := fl_fields loop ++ [f];
     fl_imported := bt_insert (Field.semantic_name f) (imported_of f) (fl_imported loop);
     fl_warnings := warn_context (path +:+ "/fields/" +:+ OsiField.name o)
       match OsiField.description o with Some d => Some d | None => OsiField.label o end
       (OsiField.ai_context o) (fl_warnings loop) |}.

Lemma reject_extensions_ok path l u : reject_extensions path l = Ok u <-> l = [].
Proof. destruct l, u; split; try done. Qed.

Lemma validate_identifier_ok path name u :
  validate_identifier path name = Ok u <-> portable_identifier name = true.
Proof. unfold validate_identifier. destruct (portable_identifier name), u; split; done. Qed.

Lemma import_field_ok path key columns loop o loop' :
  import_field path (bs_from_list key) columns loop o = Ok loop' <->
  exists f, describes_field o f /\ column_backed key columns f
    /\ (Field.semantic_name f ∉ fl_names loop) /\ loop' = push_field path loop o f.
Proof.
  unfold import_field. split.
  - intros Hi. apply bind_ok in Hi as (? & Hp%validate_identifier_ok & Hi).
    apply bind_ok in Hi as (? & Hn%fail_if_ok%bool_decide_eq_false & Hi).
    apply bind_ok in Hi as (? & Hx%reject_extensions_ok & Hi).
    apply bind_ok in Hi as (column & He & Hi). unfold direct_ansi_expression in He.
    apply bind_ok in He as (text & Ht%ansi_expression_ok & He).
    apply bind_ok in He as (? & Hc%fail_if_ok%negb_false_iff & [= <-]).
    apply bind_ok in Hi as (c & Hg%ok_or_ok & Hi).
    apply bind_ok in Hi as (? & Hs%fail_if_ok%negb_false_iff & Hi).
    apply bind_ok in Hi as (t & Hty%ok_or_ok & Hi).
    apply bind_ok in Hi as (? & Htime%fail_if_ok & [= <-]).
    exists {| Field.semantic_name := OsiField.name o; Field.data_type := t;
              Field.column := trim text; Field.relationship := None;
              Field.time_dimension := default false (OsiField.dimension o ≫= OsiDimension.is_time);
              Field.entity_key := bool_decide (trim text ∈ bs_from_list key);
              Field.visible := true; Field.nullable := Column.nullable c |}.
    split_and!; [..|reflexivity].
    + split; simpl; try done. by exists text.
    + split; simpl; try done; [by exists c| |].
      * intros Hd. rewrite Hd in Htime. simpl in Htime.
        apply negb_false_iff, orb_true_iff in Htime. by rewrite !bool_decide_eq_true in Htime.
      * apply bool_decide_ext. by rewrite elem_of_bs_from_list.
    + done.
  - intros (f & [Hname Hx (text & Ht & Htrim) Htime] & [Hp Hpc (c & Hg & Hs & Hty & Hnull) Hd Hk Hr Hv]
              & Hn & ->).
    rewrite Hname, (proj2 (validate_identifier_ok _ _ tt)) by done. cbn [mbind result_bind].
    rewrite bool_decide_eq_false_2 by done. cbn [mbind result_bind fail_if].
    rewrite (proj2 (reject_extensions_ok _ _ tt)) by done. cbn [mbind result_bind].
    unfold direct_ansi_expression. rewrite (proj2 (ansi_expression_ok _ _ _)) by exact Ht.
    cbn [mbind result_bind]. rewrite Htrim, Hpc. cbn [mbind result_bind fail_if negb].
    rewrite Hg. cbn [mbind result_bind ok_or]. rewrite Hs. cbn [mbind result_bind fail_if negb].
    unfold imported_data_type. rewrite Hty. cbn [mbind result_bind ok_or]. rewrite Htime.
    assert (Field.time_dimension f && negb (bool_decide (Field.data_type f = DataType.Date)
              || bool_decide (Field.data_type f = DataType.Timestamp)) = false) as ->.
    { destruct (Field.time_dimension f); [|done]. simpl. apply negb_false_iff, orb_true_iff.
      rewrite !bool_decide_eq_true. auto. }
    cbn [mbind result_bind fail_if]. unfold push_field. rewrite Hname.
    assert (bool_decide (Field.column f ∈ bs_from_list key) = Field.entity_key f) as ->.
    { rewrite Hk. apply bool_decide_ext. by rewrite elem_of_bs_from_list. }
    rewrite <- Hnull. unfold imported_of. destruct f. simpl in *. by subst.
Qed.

Definition named_fields (fs : list Field) : list (string * ImportedField) :=
  map (fun f => (Field.semantic_name f, imported_of f)) fs.

Lemma named_fields_keys fs : (named_fields fs).*1 = map Field.semantic_name fs.
Proof. unfold named_fields. induction fs; simpl; [done|]. by f_equal. Qed.

Lemma import_fields_ok path key columns os loop loop' :
  try_fold (import_field path (bs_from_list key) columns) loop os = Ok loop' ->
  exists fs, Forall2 describes_field os fs /\ Forall (column_backed key columns) fs
    /\ NoDup (map Field.semantic_name fs)
    /\ Forall (fun f => Field.semantic_name f ∉ fl_names loop) fs
    /\ fl_fields loop' = fl_fields loop ++ fs
    /\ fl_imported loop'
       = foldl (fun m '(k, v) => bt_insert k v m) (fl_imported loop) (named_fields fs).
Proof.
  revert loop. induction os as [|o os IH]; intros loop Hf; simpl in Hf.
  - simplify_eq. exists []. rewrite app_nil_r. split_and!; constructor || done.
  - apply bind_ok in Hf as (loop1 & (f & Hd & Hb & Hn & ->)%import_field_ok & Hf).
    apply IH in Hf as (fs & Hds & Hbs & Hnd & Hns & Hfs & Him). exists (f :: fs). simpl in *.
    rewrite Forall_forall in Hns. split_and!; try by constructor.
    + constructor; [|done]. intros (f' & Heq & Hin)%list_elem_of_fmap.
      apply (Hns _ Hin). rewrite elem_of_bs_insert. by left.
    + constructor; [done|]. apply Forall_forall. intros f' Hin Hx. apply (Hns _ Hin).
      rewrite elem_of_bs_insert. by right.
    + by rewrite Hfs, <- app_assoc.
    + done.
Qed.

Lemma import_fields_complete path key columns os fs loop :
  Forall2 describes_field os fs -> Forall (column_backed key columns) fs ->
  NoDup (map Field.semantic_name fs) ->
  Forall (fun f => Field.semantic_name f ∉ fl_names loop) fs ->
  exists loop', try_fold (import_field path (bs_from_list key) columns) loop os = Ok loop'
    /\ fl_fields loop' = fl_fields loop ++ fs
    /\ fl_imported loop'
       = foldl (fun m '(k, v) => bt_insert k v m) (fl_imported loop) (named_fields fs).
Proof.
  intros Hd. revert loop. induction Hd as [|o f os fs Ho _ IH]; intros loop Hb Hnd Hns.
  - exists loop. by rewrite app_nil_r.
  - inversion_clear Hb as [|?? Hbf Hbs]. inversion_clear Hns as [|?? Hn Hns'].
    simpl in Hnd. apply NoDup_cons in Hnd as [Hnf Hnd].
    destruct (IH (push_field path loop o f) Hbs Hnd) as (loop' & Hf & Hfs & Him).
    { rewrite Forall_forall in Hns' |- *. intros f' Hin. simpl. rewrite elem_of_bs_insert.
      intros [Heq|Hx]; [|by apply (Hns' _ Hin)]. apply Hnf. rewrite <- Heq.
      by apply list_elem_of_fmap_2. }
    exists loop'. simpl. rewrite (proj2 (import_field_ok path key columns loop o _)) by eauto.
    cbn [mbind result_bind]. rewrite Hf. split_and!; [done|rewrite Hfs; simpl; by rewrite <- app_assoc|].
    done.
Qed.

(** ** Datasets *)

Definition columns_of (relation : CatalogRelation) : list (string * CatalogColumn) :=
  bt_from_list (map (fun column => (Column.name column, column)) (Rel.columns relation)).

Definition dataset_entry (name schema relation_name : string) (relation : CatalogRelation)
    (fs : list Field) : ImportedModel :=
  {| ImportedModel.model :=
       {| Model.semantic_name := name; Model.source := Relation.mk schema relation_name;
          Model.timezone := None; Model.queryable := true; Model.writable := None;
          Model.fields := fs; Model.metrics := []; Model.relationships := [] |};
     ImportedModel.fields := bt_from_list (named_fields fs);
     ImportedModel.foreign_keys := catalog_foreign_keys relation |}.

(** What the catalog must say of the relation and the fields of a dataset. *)
Record relation_backed (index : RelationIndex) (schema relation_name : string)
    (relation : CatalogRelation) (fs : list Field) : Prop := {
  rb_relation : bt_get (schema, relation_name) index = Some relation;
  rb_granted : Grants.schema_usage (Rel.grants relation) = true
    /\ (Grants.table_select (Rel.grants relation) = true
        \/ Grants.any_column_select (Rel.grants relation) = true);
  rb_single_key : length (catalog_primary_key relation) <= 1;
  rb_fields : Forall (column_backed (catalog_primary_key relation) (columns_of relation)) fs;
  rb_distinct : NoDup (map Field.semantic_name fs);
  rb_key : Forall (fun key => key ∈ map Field.column fs) (catalog_primary_key relation);
}.

Record dataset_imported (database : string) (index : RelationIndex) (d : OsiDataset)
    (e : ImportedModel) : Prop := {
  di_portable : portable_identifier (OsiDataset.name d) = true;
  di_plain : OsiDataset.custom_extensions d = [];
  di_unique : OsiDataset.unique_keys d = [];
  di_source : exists schema relation_name relation fs,
    parse_source (OsiDataset.source d) database ("/datasets/" +:+ OsiDataset.name d)
      = Ok (schema, relation_name)
    /\ relation_backed index schema relation_name relation fs
    /\ (OsiDataset.primary_key d = [] \/ OsiDataset.primary_key d = catalog_primary_key relation)
    /\ Forall2 describes_field (OsiDataset.fields d) fs
    /\ e = dataset_entry (OsiDataset.name d) schema relation_name relation fs;
}.

Lemma granted_guard (g : RelationGrantHints) :
  negb (Grants.schema_usage g) || (negb (Grants.table_select g) && negb (Grants.any_column_select g))
    = false <->
  Grants.schema_usage g = true
  /\ (Grants.table_select g = true \/ Grants.any_column_select g = true).
Proof. destruct g as [[] [] []]; simpl; naive_solver. Qed.

Lemma effective_key_eq path declared key warnings :
  declared = [] \/ declared = key -> exists w, effective_key path declared key warnings = (key, w).
Proof. unfold effective_key. intros [->| ->]; [by eexists|]. destruct key; by eexists. Qed.

Lemma key_is_imported_ok path (key : list string) fs k :
  NoDup (map Field.semantic_name fs) ->
  Forall (fun f => Field.entity_key f = bool_decide (Field.column f ∈ key)) fs -> k ∈ key ->
  key_is_imported path (bt_from_list (named_fields fs)) k = Ok tt <-> k ∈ map Field.column fs.
Proof.
  intros Hnd Hk Hin. unfold key_is_imported. rewrite fail_if_ok, negb_false_iff, existsb_exists.
  rewrite <- named_fields_keys in Hnd. rewrite Forall_forall in Hk. split.
  - intros ([n i] & Hi%list_elem_of_In & Hc).
    apply (elem_of_bt_from_list _ _ _ Hnd) in Hi. apply list_elem_of_fmap in Hi as (f & [= -> ->] & Hf).
    apply andb_true_iff in Hc as [Hc%bool_decide_eq_true _]. subst k. by apply (list_elem_of_fmap_2 Field.column).
  - intros (f & -> & Hf)%list_elem_of_fmap. exists (Field.semantic_name f, imported_of f).
    split; [|simpl; rewrite (Hk _ Hf), !bool_decide_eq_true_2; done].
    apply list_elem_of_In, elem_of_bt_from_list; [done|]. apply list_elem_of_fmap. by exists f.
Qed.

Lemma keys_are_imported_ok path (key : list string) fs u :
  NoDup (map Field.semantic_name fs) ->
  Forall (fun f => Field.entity_key f = bool_decide (Field.column f ∈ key)) fs ->
  try_each (key_is_imported path (bt_from_list (named_fields fs))) key = Ok u <->
  Forall (fun k => k ∈ map Field.column fs) key.
Proof.
  intros Hnd Hk. rewrite try_each_ok, !Forall_forall.
  split; intros Hall k Hin; specialize (Hall k Hin); by apply (key_is_imported_ok path key fs k).
Qed.

Definition keys_backed key columns fs (Hb : Forall (column_backed key columns) fs) :
  Forall (fun f => Field.entity_key f = bool_decide (Field.column f ∈ key)) fs :=
  Forall_impl _ _ _ Hb (fun f Hf => cb_key key columns f Hf).

Lemma import_dataset_ok database index imported warnings d imported' warnings' :
  import_dataset database index (imported, warnings) d = Ok (imported', warnings') ->
  bt_get (OsiDataset.name d) imported = None
  /\ exists e, dataset_imported database index d e
      /\ imported' = bt_insert (OsiDataset.name d) e imported.
Proof.
  unfold import_dataset. intros Hi. apply bind_ok in Hi as (? & Hp%validate_identifier_ok & Hi).
  apply bind_ok in Hi as (? & Hn%fail_if_ok%bool_decide_eq_false & Hi).
  apply eq_None_not_Some in Hn. apply bind_ok in Hi as (? & Hx%reject_extensions_ok & Hi).
  apply bind_ok in Hi as (? & Hu%fail_if_ok%negb_false_iff%bool_decide_eq_true & Hi).
  apply bind_ok in Hi as ([schema relation_name] & Hs & Hi).
  apply bind_ok in Hi as (relation & Hr%ok_or_ok & Hi).
  apply bind_ok in Hi as (? & Hg%fail_if_ok%granted_guard & Hi).
  apply bind_ok in Hi as (? & Hk%fail_if_ok & Hi).
  assert (Hkey : OsiDataset.primary_key d = []
                 \/ OsiDataset.primary_key d = catalog_primary_key relation).
  { apply andb_false_iff in Hk as [Hk|Hk%bool_decide_eq_false]; [left|right].
    - by apply negb_false_iff, bool_decide_eq_true in Hk.
    - by apply dec_stable. }
  destruct (effective_key_eq ("/datasets/" +:+ OsiDataset.name d) _ _
              (warn_context ("/datasets/" +:+ OsiDataset.name d) (OsiDataset.description d)
                 (OsiDataset.ai_context d) warnings) Hkey) as [w Hw].
  rewrite Hw in Hi. apply bind_ok in Hi as (? & Hl%fail_if_ok%bool_decide_eq_false & Hi).
  apply bind_ok in Hi as (loop & Hf & Hi).
  apply import_fields_ok in Hf as (fs & Hd & Hb & Hnd & _ & Hfs & Him). simpl in Hfs, Him.
  apply bind_ok in Hi as (? & Hkeys & Hi). injection Hi as <- <-. rewrite Him in Hkeys.
  apply keys_are_imported_ok in Hkeys; [|done|by eapply keys_backed].
  split; [done|]. eexists. split; [|reflexivity]. split; try done.
  exists schema, relation_name, relation, fs. rewrite Hfs, Him. split_and!; try done.
  split; try done. lia.
Qed.

Lemma import_dataset_complete database index imported warnings d e :
  bt_get (OsiDataset.name d) imported = None -> dataset_imported database index d e ->
  exists warnings', import_dataset database index (imported, warnings) d
    = Ok (bt_insert (OsiDataset.name d) e imported, warnings').
Proof.
  intros Hn [Hp Hx Hu (schema & relation_name & relation & fs & Hs & [Hr Hg Hl Hb Hnd Hk] & Hkey
                       & Hd & ->)].
  unfold import_dataset. rewrite (proj2 (validate_identifier_ok _ _ tt)) by done.
  cbn [mbind result_bind]. unfold bt_contains. rewrite Hn.
  rewrite (bool_decide_eq_false_2 (is_Some None)) by (by intros []).
  cbn [mbind result_bind fail_if]. rewrite (proj2 (reject_extensions_ok _ _ tt)) by done.
  cbn [mbind result_bind]. rewrite (bool_decide_eq_true_2 (OsiDataset.unique_keys d = [])) by done.
  cbn [mbind result_bind fail_if negb]. rewrite Hs. cbn [mbind result_bind].
  rewrite Hr. cbn [mbind result_bind ok_or]. rewrite (proj2 (granted_guard _)) by done.
  cbn [mbind result_bind fail_if].
  assert (negb (bool_decide (OsiDataset.primary_key d = []))
          && bool_decide (OsiDataset.primary_key d <> catalog_primary_key relation) = false) as ->.
  { destruct Hkey as [Hkey|Hkey]; rewrite Hkey.
    - done.
    - apply andb_false_iff. right. apply bool_decide_eq_false. naive_solver. }
  cbn [mbind result_bind fail_if].
  destruct (effective_key_eq ("/datasets/" +:+ OsiDataset.name d) _ _
              (warn_context ("/datasets/" +:+ OsiDataset.name d) (OsiDataset.description d)
                 (OsiDataset.ai_context d) warnings) Hkey) as [w Hw].
  rewrite Hw, bool_decide_eq_false_2 by lia. cbn [mbind result_bind fail_if].
  destruct (import_fields_complete ("/datasets/" +:+ OsiDataset.name d) _ _ _ _
              {| fl_names := []; fl_fields := []; fl_imported := []; fl_warnings := w |} Hd Hb Hnd)
    as (loop & Hf & Hfs & Him); [by apply Forall_forall; intros; apply not_elem_of_nil|].
  unfold columns_of in Hf. rewrite Hf. cbn [mbind result_bind]. simpl in Hfs, Him.
  rewrite Hfs, Him. fold (bt_from_list (named_fields fs)).
  rewrite (proj2 (keys_are_imported_ok _ _ _ tt Hnd (keys_backed _ _ _ Hb))) by done.
  cbn [mbind result_bind]. by eexists.
Qed.

Lemma import_datasets_ok database index ds imported warnings imported' warnings' :
  try_fold (import_dataset database index) (imported, warnings) ds = Ok (imported', warnings') ->
  exists es, Forall2 (dataset_imported database index) ds es
    /\ NoDup (map OsiDataset.name ds)
    /\ Forall (fun d => OsiDataset.name d ∉ imported.*1) ds
    /\ imported' = foldl (fun m '(k, v) => bt_insert k v m) imported
                     (zip (map OsiDataset.name ds) es).
Proof.
  revert imported warnings. induction ds as [|d ds IH]; intros imported warnings Hf; simpl in Hf.
  - simplify_eq. exists []. split_and!; constructor || done.
  - apply bind_ok in Hf as ([im w] & (Hn & e & He & ->)%import_dataset_ok & Hf).
    apply IH in Hf as (es & Hes & Hnd & Hns & ->). exists (e :: es).
    rewrite Forall_forall in Hns. setoid_rewrite bt_insert_keys in Hns.
    setoid_rewrite elem_of_bs_insert in Hns. apply bt_get_none in Hn.
    split_and!; [by constructor| |constructor|done].
    + simpl. constructor; [|done]. intros (d' & Heq & Hin)%list_elem_of_fmap.
      apply (Hns _ Hin). by left.
    + done.
    + apply Forall_forall. intros d' Hin Hx. apply (Hns _ Hin). by right.
Qed.

Lemma import_datasets_complete database index ds es imported warnings :
  Forall2 (dataset_imported database index) ds es -> NoDup (map OsiDataset.name ds) ->
  Forall (fun d => OsiDataset.name d ∉ imported.*1) ds ->
  exists warnings', try_fold (import_dataset database index) (imported, warnings) ds
    = Ok (foldl (fun m '(k, v) => bt_insert k v m) imported (zip (map OsiDataset.name ds) es),
          warnings').
Proof.
  intros Hes. revert imported warnings. induction Hes as [|d e ds es He _ IH];
    intros imported warnings Hnd Hns; cbn [try_fold map zip zip_with foldl]; [by eexists|].
  inversion_clear Hns as [|?? Hn Hns']. simpl in Hnd. apply NoDup_cons in Hnd as [Hnf Hnd].
  destruct (import_dataset_complete database index imported warnings d e) as [w Hd];
    [by apply bt_get_none|done|]. rewrite Hd. cbn [mbind result_bind]. apply IH; [done|].
  rewrite Forall_forall in Hns' |- *. intros d' Hin. rewrite bt_insert_keys, elem_of_bs_insert.
  intros [Heq|Hx]; [|by apply (Hns' _ Hin)]. apply Hnf. rewrite <- Heq.
  by apply list_elem_of_fmap_2.
Qed.
End spec.

(** * The texts of OSI documents ([osi.rs])

    Sources and metric expressions: what is written is read back. *)

(** ** Bytes of portable identifiers *)

Definition word_byte (c : ascii) : bool := is_ascii_alphanumeric c || is_char 95 c.

(** Neither part of whitespace nor of a longer character. *)
Definition solid (c : ascii) : Prop := is_ascii_ws c = false /\ (code c < 128)%N.

Lemma word_byte_code c : word_byte c = true ->
  (65 ≤ code c ≤ 90 \/ 97 ≤ code c ≤ 122 \/ 48 ≤ code c ≤ 57 \/ code c = 95)%N.
Proof.
  unfold word_byte, is_ascii_alphanumeric, is_ascii_alphabetic, is_ascii_digit, in_range, is_char.
  rewrite !orb_true_iff, !bool_decide_eq_true. tauto.
Qed.

Lemma word_byte_solid c : word_byte c = true -> solid c.
Proof.
  intros Hc%word_byte_code. unfold solid, is_ascii_ws. split; [|lia].
  rewrite orb_false_iff, !bool_decide_eq_false. lia.
Qed.

Lemma word_byte_not_char n c :
  word_byte c = true -> word_byte (byte_of n) = false -> c <> byte_of n.
Proof. intros Hc Hn ->. congruence. Qed.

Lemma portable_word s : portable_identifier s = true -> s <> EmptyString /\ all_in word_byte s.
Proof.
  destruct s as [|c s]; [done|]. simpl. rewrite andb_true_iff, all_bytes_spec. intros [Hc Hs].
  split; [done|]. unfold all_in. simpl. constructor; [|done].
  unfold word_byte, is_ascii_alphanumeric. apply orb_true_iff in Hc as [-> | ->]; [done|].
  apply orb_true_r.
Qed.

Lemma word_no_byte n s : all_in word_byte s -> word_byte (byte_of n) = false -> byte_of n ∉ bytes s.
Proof.
  unfold all_in. rewrite Forall_forall. intros Hs Hn Hin. specialize (Hs _ Hin). congruence.
Qed.

Lemma word_no_dot s : all_in word_byte s -> no_byte (is_char 46) s.
Proof.
  unfold all_in, no_byte. intros Hs. eapply Forall_impl; [exact Hs|]. intros c Hc%word_byte_code.
  apply bool_decide_eq_false. lia.
Qed.

(** ** Trimming *)

Lemma solid_not_ws2 c1 c2 : (code c1 < 128 \/ code c2 < 128)%N -> is_ws2 c1 c2 = false.
Proof.
  intros H. unfold is_ws2. apply andb_false_iff. rewrite orb_false_iff, !bool_decide_eq_false. lia.
Qed.

Lemma solid_not_ws3 c1 c2 c3 :
  (code c1 < 128 \/ code c2 < 128 \/ code c3 < 128)%N -> is_ws3 c1 c2 c3 = false.
Proof.
  intros H. unfold is_ws3. rewrite !orb_false_iff, !andb_false_iff, !orb_false_iff,
    !bool_decide_eq_false. lia.
Qed.

Lemma trim_start_solid c s : solid c -> trim_start_ws (String c s) = String c s.
Proof.
  intros [Hc Ha]. cbn [trim_start_ws]. rewrite Hc. destruct s as [|c2 [|c3 s]]; [done|..].
  - by rewrite solid_not_ws2 by tauto.
  - by rewrite solid_not_ws2, solid_not_ws3 by tauto.
Qed.

Lemma solid_not_empty s c : solid c -> trim_is_empty (s +:+ String c EmptyString) = false.
Proof.
  intros [Hc Ha]. remember (String.length s) as n eqn:Hn. revert s Hn.
  induction n as [n IH] using lt_wf_ind. intros s ->.
  destruct s as [|c1 s].
  - rewrite sapp_nil_l. simpl. by rewrite Hc.
  - rewrite sapp_cons. cbn [trim_is_empty]. destruct (is_ascii_ws c1).
    { apply (IH (String.length s)); simpl; lia || done. }
    destruct s as [|c2 s].
    + rewrite sapp_nil_l. by rewrite solid_not_ws2 by tauto.
    + rewrite sapp_cons. destruct (is_ws2 c1 c2).
      { apply (IH (String.length s)); simpl; lia || done. }
      destruct s as [|c3 s].
      * rewrite sapp_nil_l. by rewrite solid_not_ws3 by tauto.
      * rewrite sapp_cons. destruct (is_ws3 c1 c2 c3); [|done].
        apply (IH (String.length s)); simpl; lia || done.
Qed.

Lemma trim_end_solid s c : solid c -> trim_end_ws (s +:+ String c EmptyString) = s +:+ String c EmptyString.
Proof.
  intros Hc. induction s as [|d s IH].
  - rewrite sapp_nil_l. destruct Hc as [Hc Ha]. simpl. by rewrite Hc.
  - rewrite sapp_cons. cbn [trim_end_ws]. rewrite <- sapp_cons, solid_not_empty by done.
    by rewrite IH, sapp_cons.
Qed.

(** Text that starts and ends with solid bytes is not trimmed. *)
Lemma trim_solid c s d : solid c -> solid d ->
  trim (String c (s +:+ String d EmptyString)) = String c (s +:+ String d EmptyString).
Proof.
  intros Hc Hd. unfold trim. rewrite trim_start_solid by done.
  rewrite <- sapp_cons. by apply trim_end_solid.
Qed.

Lemma word_split s : s <> EmptyString -> all_in word_byte s ->
  exists c t, s = String c t /\ solid c /\ exists u d, s = u +:+ String d EmptyString /\ solid d.
Proof.
  destruct s as [|c t]; [done|]. intros _ Hs. exists c, t. unfold all_in in Hs. simpl in Hs.
  apply Forall_cons in Hs as [Hc Ht]. split_and!; [done|by apply word_byte_solid|].
  revert c Hc. induction t as [|c' t IH]; intros c Hc.
  - exists EmptyString, c. rewrite sapp_nil_l. split; [done|by apply word_byte_solid].
  - simpl in Ht. apply Forall_cons in Ht as [Hc' Ht].
    destruct (IH Ht c' Hc') as (u & d & Heq & Hd). exists (String c u), d.
    rewrite sapp_cons, <- Heq. done.
Qed.

(** Text that starts with [s] and ends with [t], both portable. *)
Lemma trim_words s mid t :
  portable_identifier s = true -> portable_identifier t = true ->
  trim (s +:+ mid +:+ t) = s +:+ mid +:+ t.
Proof.
  intros (Hs1 & Hs2)%portable_word (Ht1 & Ht2)%portable_word.
  destruct (word_split s Hs1 Hs2) as (c & s' & -> & Hc & _).
  destruct (word_split t Ht1 Ht2) as (_ & _ & _ & _ & u & d & -> & Hd).
  rewrite sapp_cons. rewrite <- (sapp_assoc mid u), <- (sapp_assoc s'). by apply trim_solid.
Qed.

Lemma trim_word s : portable_identifier s = true -> trim s = s.
Proof.
  intros (Hs1 & Hs2)%portable_word. destruct (word_split s Hs1 Hs2) as (c & t & -> & Hc & u & d & Heq & Hd).
  unfold trim. rewrite trim_start_solid by done. rewrite Heq. by apply trim_end_solid.
Qed.

(** ** Sources *)

Lemma parse_source_text schema relation database path :
  portable_identifier schema = true -> portable_identifier relation = true ->
  parse_source (schema +:+ "." +:+ relation) database path = Ok (schema, relation).
Proof.
  intros Hs Hr. unfold parse_source.
  assert (split (is_char 46) (schema +:+ "." +:+ relation) = [schema; relation]) as ->.
  { change ("." +:+ relation) with (String (byte_of 46) relation).
    rewrite split_cons; [|by apply word_no_dot, portable_word|done].
    f_equal. unfold split. by rewrite split_parts_none by (apply word_no_dot, portable_word; done). }
  cbn [mbind result_bind]. by rewrite Hs, Hr.
Qed.

(** ** Metric expressions *)

(** The name begins with the keyword. *)
Definition distinct_prefix (s : string) : bool :=
  match split_at 8 s with
  | Some (prefix, _) => eq_ignore_ascii_case prefix "distinct"
  | None => false
  end.

Lemma split_at_long n s t : n <= String.length s ->
  exists a b, split_at n s = Some (a, b) /\ split_at n (s +:+ t) = Some (a, b +:+ t) /\ s = a +:+ b.
Proof.
  revert s. induction n as [|n IH]; intros s Hn; simpl; [by exists EmptyString, s|].
  destruct s as [|c s]; simpl in Hn; [lia|]. destruct (IH s) as (a & b & H1 & H2 & ->); [lia|].
  exists (String c a), b. rewrite sapp_cons. simpl. by rewrite H1, H2.
Qed.

Lemma split_at_short n s c t a b : String.length s < n ->
  split_at n (s +:+ String c t) = Some (a, b) -> c ∈ bytes a.
Proof.
  revert s a. induction n as [|n IH]; intros s a Hn H; [lia|]. destruct s as [|d s].
  - rewrite sapp_nil_l in H. simpl in H. destruct (split_at n t) as [[a' b']|]; [|done].
    injection H as <- <-. left.
  - rewrite sapp_cons in H. simpl in H, Hn.
    destruct (split_at n (s +:+ String c t)) as [[a' b']|] eqn:He; [|done].
    injection H as <- <-. right. eapply IH; [|exact He]. lia.
Qed.

Lemma split_at_none n s : split_at n s = None <-> String.length s < n.
Proof.
  revert s. induction n as [|n IH]; intros s; simpl; [split; [done|lia]|].
  destruct s as [|c s]; simpl; [split; [lia|done]|]. specialize (IH s).
  destruct (split_at n s) as [[a b]|]; simpl; split; intros H; try done.
  - exfalso. assert (Some (a, b) = None) by (apply IH; lia). done.
  - assert (String.length s < n) by (by apply IH). lia.
Qed.

Lemma dot_lowercase s : byte_of 46 ∈ bytes s -> byte_of 46 ∈ bytes (to_ascii_lowercase s).
Proof.
  induction s as [|c s IH]; simpl; [done|]. intros [<-|Hin]%elem_of_cons; [left|right; auto].
Qed.

Lemma dotted_prefix ds f :
  match split_at 8 (ds +:+ String (byte_of 46) f) with
  | Some (prefix, _) => eq_ignore_ascii_case prefix "distinct"
  | None => false
  end = distinct_prefix ds.
Proof.
  unfold distinct_prefix. destruct (decide (8 <= String.length ds)) as [Hl|Hl].
  - destruct (split_at_long 8 ds (String (byte_of 46) f) Hl) as (a & b & -> & -> & _). done.
  - rewrite (proj2 (split_at_none 8 ds)) by lia.
    destruct (split_at 8 (ds +:+ _)) as [[a b]|] eqn:Hs; [|done].
    apply split_at_short in Hs; [|lia]. unfold eq_ignore_ascii_case. apply bool_decide_eq_false.
    intros Heq. apply dot_lowercase in Hs. rewrite Heq in Hs. revert Hs.
    apply (bool_decide_eq_false_1 _). vm_compute. reflexivity.
Qed.

Lemma word_not_whitespace c : word_byte c = true -> is_ascii_whitespace c = false.
Proof.
  intros Hc%word_byte_code. unfold is_ascii_whitespace. apply bool_decide_eq_false.
  rewrite !elem_of_cons, elem_of_nil. lia.
Qed.

(** The argument of an aggregate without [DISTINCT]. *)
Lemma parse_plain_argument ds f : all_in word_byte ds ->
  parse_distinct (ds +:+ String (byte_of 46) f)
  = if distinct_prefix ds then None else Some (ds +:+ String (byte_of 46) f, false).
Proof.
  intros Hw. unfold parse_distinct. pose proof (dotted_prefix ds f) as Hp.
  destruct (split_at 8 (ds +:+ String (byte_of 46) f)) as [[a b]|] eqn:Hs; rewrite <- Hp; [|done].
  destruct (eq_ignore_ascii_case a "distinct"); [|done].
  symmetry in Hp. unfold distinct_prefix in Hp.
  destruct (decide (8 <= String.length ds)) as [Hl|Hl];
    [|by rewrite (proj2 (split_at_none 8 ds)) in Hp by lia].
  destruct (split_at_long 8 ds (String (byte_of 46) f) Hl) as (a' & b' & _ & Hs' & ->).
  rewrite Hs in Hs'. injection Hs' as -> ->. unfold all_in in Hw. rewrite bytes_app in Hw.
  apply Forall_app in Hw as [_ Hb]. destruct b' as [|c b']; [done|]. rewrite sapp_cons.
  simpl in Hb. apply Forall_cons in Hb as [Hc _]. by rewrite word_not_whitespace.
Qed.

Lemma parse_distinct_argument ds f :
  portable_identifier ds = true -> portable_identifier f = true ->
  parse_distinct ("DISTINCT " +:+ ds +:+ String (byte_of 46) f)
  = Some (ds +:+ String (byte_of 46) f, true).
Proof.
  intros Hd Hf. unfold parse_distinct.
  change (split_at 8 ("DISTINCT " +:+ ds +:+ String (byte_of 46) f))
    with (Some ("DISTINCT", String " " (ds +:+ String (byte_of 46) f))).
  change (eq_ignore_ascii_case "DISTINCT" "distinct") with true.
  change (is_ascii_whitespace " ") with true. cbn iota. do 2 f_equal.
  change (trim (String " " (ds +:+ String (byte_of 46) f)))
    with (trim (ds +:+ String (byte_of 46) EmptyString +:+ f)).
  by apply trim_words.
Qed.

Lemma trim_call fn mid : portable_identifier fn = true ->
  trim (fn +:+ mid +:+ ")") = fn +:+ mid +:+ ")".
Proof.
  intros (H1 & H2)%portable_word. destruct (word_split fn H1 H2) as (c & t & -> & Hc & _).
  rewrite sapp_cons, <- (sapp_assoc t mid). by apply trim_solid.
Qed.

(** What the reader makes of a function applied to an argument. *)
Lemma parse_call fn mid :
  portable_identifier fn = true -> trim mid = mid ->
  parse_metric_expression (fn +:+ String (byte_of 40) (mid +:+ ")")) =
  '(argument, distinct) ← parse_distinct mid;
  '(dataset, field) ← split_once "."%char argument;
  if any_byte (is_char 46) field || negb (portable_identifier dataset)
     || negb (portable_identifier field)
  then None else
  aggregation ← parse_aggregation fn distinct;
  Some {| ParsedMetric.aggregation := aggregation; ParsedMetric.dataset := dataset;
          ParsedMetric.field := field |}.
Proof.
  intros Hfn Hmid. unfold parse_metric_expression.
  change (fn +:+ String (byte_of 40) (mid +:+ ")"))
    with (fn +:+ String (byte_of 40) mid +:+ ")").
  rewrite trim_call by done.
  change (fn +:+ String (byte_of 40) mid +:+ ")") with (fn +:+ String "(" (mid +:+ ")")).
  rewrite split_once_app by (apply (word_no_byte 40); [by apply portable_word|done]).
  cbn [mbind option_bind]. rewrite strip_suffix_app. cbn [mbind option_bind].
  by rewrite Hmid, (trim_word fn) by done.
Qed.

Definition call_function (a : Aggregation) : string := (aggregate_text a).1.

Lemma metric_expression_call a ds f :
  metric_expression a ds f
  = call_function a +:+ String (byte_of 40)
      (((aggregate_text a).2 +:+ ds +:+ String (byte_of 46) f) +:+ ")").
Proof.
  unfold metric_expression, call_function. destruct (aggregate_text a) as [fn modifier]. simpl.
  rewrite !sapp_assoc. done.
Qed.

Lemma parse_aggregation_text a :
  parse_aggregation (call_function a) (bool_decide (a = Aggregation.CountDistinct)) = Some a.
Proof. destruct a; vm_compute; reflexivity. Qed.

(** Exactly which written expressions are read back. *)
Lemma metric_expression_parses a ds f :
  portable_identifier ds = true -> portable_identifier f = true ->
  parse_metric_expression (metric_expression a ds f)
  = if negb (bool_decide (a = Aggregation.CountDistinct)) && distinct_prefix ds then None
    else Some (ParsedMetric.mk a ds f).
Proof.
  intros Hd Hf. pose proof (portable_word _ Hd) as [_ Hwd]. pose proof (portable_word _ Hf) as [_ Hwf].
  assert (Hfn : portable_identifier (call_function a) = true) by (destruct a; reflexivity).
  assert (Htrim : trim ((aggregate_text a).2 +:+ ds +:+ String (byte_of 46) f)
                  = (aggregate_text a).2 +:+ ds +:+ String (byte_of 46) f).
  { destruct (decide (a = Aggregation.CountDistinct)) as [->|Ha].
    - replace ((aggregate_text Aggregation.CountDistinct).2 +:+ ds +:+ String (byte_of 46) f)
        with ("DISTINCT" +:+ (" " +:+ ds +:+ ".") +:+ f) by (by rewrite !sapp_assoc).
      by apply trim_words.
    - assert ((aggregate_text a).2 = EmptyString) as -> by (by destruct a).
      rewrite sapp_nil_l. by apply (trim_words ds (String (byte_of 46) EmptyString) f). }
  rewrite metric_expression_call, parse_call by done.
  assert (Hsplit : split_once "."%char (ds +:+ String (byte_of 46) f) = Some (ds, f)).
  { apply (split_once_app (byte_of 46)). by apply word_no_byte. }
  assert (Hdot : any_byte (is_char 46) f = false) by (apply any_byte_false; by apply word_no_dot).
  pose proof (parse_aggregation_text a) as Hagg.
  destruct (decide (a = Aggregation.CountDistinct)) as [->|Ha].
  - change ((aggregate_text Aggregation.CountDistinct).2) with "DISTINCT ".
    rewrite parse_distinct_argument by done. cbn [mbind option_bind].
    rewrite Hsplit. cbn [mbind option_bind]. rewrite Hdot, Hd, Hf. cbn [orb negb].
    rewrite bool_decide_eq_true_2 in Hagg |- * by done. rewrite Hagg. done.
  - assert ((aggregate_text a).2 = EmptyString) as -> by (by destruct a).
    rewrite sapp_nil_l, parse_plain_argument by done.
    rewrite bool_decide_eq_false_2 in Hagg |- * by done. cbn [negb andb].
    destruct (distinct_prefix ds); [done|]. cbn [mbind option_bind].
    rewrite Hsplit. cbn [mbind option_bind]. rewrite Hdot, Hd, Hf. cbn [orb negb].
    rewrite Hagg. done.
Qed.

Lemma parse_aggregation_distinct fn distinct a :
  parse_aggregation fn distinct = Some a ->
  distinct = bool_decide (a = Aggregation.CountDistinct).
Proof.
  unfold parse_aggregation. destruct distinct; repeat case_match; intros; simplify_eq;
    (symmetry; by apply bool_decide_eq_true_2) || (symmetry; by apply bool_decide_eq_false_2).
Qed.

(** What was read once is read again from the canonical text. *)
Lemma parsed_metric_reads text a ds f :
  parse_metric_expression text = Some (ParsedMetric.mk a ds f) ->
  parse_metric_expression (metric_expression a ds f) = Some (ParsedMetric.mk a ds f).
Proof.
  intros Hp. unfold parse_metric_expression in Hp.
  apply bind_Some in Hp as ([fn rest] & _ & Hp). apply bind_Some in Hp as (arg & _ & Hp).
  apply bind_Some in Hp as ([arg' distinct] & Hdist & Hp).
  apply bind_Some in Hp as ([ds' f'] & Hs & Hp).
  destruct (any_byte _ f' || _ || _) eqn:Hg; [done|].
  apply bind_Some in Hp as (a' & Ha & [= -> -> ->]).
  apply orb_false_iff in Hg as [[_ Hd%negb_false_iff]%orb_false_iff Hf%negb_false_iff].
  rewrite metric_expression_parses by done.
  apply parse_aggregation_distinct in Ha. rewrite <- Ha. destruct distinct; [done|].
  apply split_once_some in Hs as [-> _]. unfold parse_distinct in Hdist.
  pose proof (dotted_prefix ds f) as Hpre. cbn [negb andb]. rewrite <- Hpre.
  change (String "." f) with (String (byte_of 46) f) in Hdist.
  destruct (split_at 8 (trim arg)) as [[p r]|] eqn:Hsp.
  - destruct (eq_ignore_ascii_case p "distinct") eqn:He.
    + destruct r as [|c r]; [done|]. by destruct (is_ascii_whitespace c).
    + injection Hdist as Hx. rewrite Hx in Hsp.
      change (split_at 8 (ds +:+ String (byte_of 46) f) = Some (p, r)) in Hsp. by rewrite Hsp, He.
  - injection Hdist as Hx. rewrite Hx in Hsp.
    change (split_at 8 (ds +:+ String (byte_of 46) f) = None) in Hsp. by rewrite Hsp.
Qed.
