(* ===== verification/OsiLinks.v ===== *)
(** * What an OSI import accepts: relationships and metrics ([osi.rs])

    After the datasets, every relationship and every metric extends one model.
    The models reached are described from the datasets and the lists of what was
    accepted, in whatever order.

    The second part is about the snapshots that are assembled. *)

From S2P Require Import Prelude Ordered Text StrOps Json Lsq Lsm Semantic SemanticSpec Compiler.
From S2P Require Import CompilerSpec CompilerComplete CompilerTheorems Catalog Osi OsiSpec.

Lemma ensure_unique_ok kind seen names u :
  ensure_unique kind seen names = Ok u <->
  NoDup names /\ Forall (fun name => name ∉ seen) names.
Proof.
  destruct u. revert seen. induction names as [|name names IH]; intros seen; simpl.
  - split; [intros _; split; constructor|done].
  - rewrite guard_then, bool_decide_eq_false, IH, NoDup_cons, Forall_cons, !Forall_forall.
    setoid_rewrite elem_of_bs_insert. split.
    + intros (Hn & Hnd & Hall). split_and!; try done.
      * intros Hin. apply (Hall _ Hin). by left.
      * intros x Hx Hs. apply (Hall _ Hx). by right.
    + intros ((Hn & Hnd) & Hs & Hall). split_and!; try done. intros x Hx [->|Hin]; [done|].
      by apply (Hall _ Hx).
Qed.

Lemma ensure_unique_names_ok kind names u : ensure_unique_names kind names = Ok u <-> NoDup names.
Proof.
  unfold ensure_unique_names. rewrite ensure_unique_ok. split; [by intros []|].
  intros Hn. split; [done|]. apply Forall_forall. intros. apply not_elem_of_nil.
Qed.

(** ** Models with links *)

(** What belongs to the model [n]. *)
Definition own {A} (n : string) (l : list (string * A)) : list A :=
  map snd (filter (fun x => x.1 = n) l).

Lemma own_app {A} n (l k : list (string * A)) : own n (l ++ k) = own n l ++ own n k.
Proof. unfold own. by rewrite filter_app, map_app. Qed.

Lemma own_cons_eq {A} n (a : A) l : own n ((n, a) :: l) = a :: own n l.
Proof. unfold own. by rewrite filter_cons_True. Qed.

Lemma own_cons_ne {A} n n' (a : A) l : n' <> n -> own n ((n', a) :: l) = own n l.
Proof. intros Hne. unfold own. by rewrite filter_cons_False. Qed.

Lemma own_snoc_eq {A} n (a : A) l : own n (l ++ [(n, a)]) = own n l ++ [a].
Proof. by rewrite own_app, own_cons_eq. Qed.

Lemma own_snoc_ne {A} n n' (a : A) l : n' <> n -> own n (l ++ [(n', a)]) = own n l.
Proof. intros Hne. rewrite own_app, own_cons_ne by done. apply app_nil_r. Qed.

Lemma elem_of_own {A} n (a : A) l : a ∈ own n l <-> (n, a) ∈ l.
Proof.
  unfold own. rewrite list_elem_of_fmap. split.
  - intros ([n' a'] & -> & [Hn Hin]%list_elem_of_filter). simpl in Hn. by subst.
  - intros Hin. exists (n, a). by rewrite list_elem_of_filter.
Qed.

#[export] Instance own_perm {A} n : Proper ((≡ₚ) ==> (≡ₚ)) (@own A n).
Proof. intros l k Hp. unfold own. by rewrite Hp. Qed.

Section links.
Context (base : Imported).

(** The fields a relationship brings. *)
Definition projection_of (r : Relationship) : list Field :=
  match bt_get (Relationship.target_model r) base with
  | Some e => map (projected_field (Relationship.semantic_name r)) (ImportedModel.fields e)
  | None => []
  end.

Definition linked_fields (rels : list (string * Relationship)) (n : string) (m : Model)
    : list Field :=
  Model.fields m ++ concat (map projection_of (own n rels)).

Definition linked_model (rels : list (string * Relationship)) (mets : list (string * Metric))
    (n : string) (m : Model) : Model :=
  {| Model.semantic_name := Model.semantic_name m; Model.source := Model.source m;
     Model.timezone := Model.timezone m; Model.queryable := Model.queryable m;
     Model.writable := Model.writable m; Model.fields := linked_fields rels n m;
     Model.metrics := Model.metrics m ++ own n mets;
     Model.relationships := Model.relationships m ++ own n rels |}.

Definition linked_entry rels mets (n : string) (e : ImportedModel) : ImportedModel :=
  set_model (linked_model rels mets n (ImportedModel.model e)) e.

Definition linked rels mets : Imported := map (fun '(n, e) => (n, linked_entry rels mets n e)) base.

Lemma linked_get rels mets n : bt_get n (linked rels mets) = linked_entry rels mets n <$> bt_get n base.
Proof. apply (bt_get_map (linked_entry rels mets)). Qed.

Context (Hwf : bt_wf base).

Lemma linked_wf rels mets : bt_wf (linked rels mets).
Proof using Hwf. unfold bt_wf, linked. by rewrite (bt_keys_map (linked_entry rels mets)). Qed.

Lemma linked_insert n e rels mets rels' mets' :
  bt_get n base = Some e ->
  (forall k, k <> n -> own k rels' = own k rels) -> (forall k, k <> n -> own k mets' = own k mets) ->
  bt_insert n (linked_entry rels' mets' n e) (linked rels mets) = linked rels' mets'.
Proof using Hwf.
  intros He Hr Hm. rewrite (bt_insert_bound _ (linked_entry rels mets n e));
    [|apply linked_wf|by rewrite linked_get, He].
  unfold linked. rewrite map_map. apply map_ext_in. intros [k v] Hin. f_equal.
  case_decide as Hk.
  - subst k. apply list_elem_of_In, bt_elem_get in Hin; [|done].
    rewrite He in Hin. by injection Hin as ->.
  - unfold linked_entry, linked_model, linked_fields. by rewrite Hr, Hm by done.
Qed.

(** ** Relationships *)

Context `{YamlValue}.

Record link_ok (o : OsiRelationship) (r : Relationship) : Prop := {
  lk_portable : portable_identifier (Relationship.semantic_name r) = true;
  lk_plain : OsiRelationship.custom_extensions o = [];
  lk_name : OsiRelationship.name o = Relationship.semantic_name r;
  lk_from_columns : OsiRelationship.from_columns o = [Relationship.from_column r];
  lk_to_columns : OsiRelationship.to_columns o = [Relationship.to_column r];
  lk_to : OsiRelationship.to o = Relationship.target_model r;
  lk_cardinality : Relationship.cardinality r = Cardinality.ManyToOne;
  lk_join : Relationship.join_type r = JoinType.Left;
  lk_target : exists e n f, bt_get (Relationship.target_model r) base = Some e
    /\ Relationship.target r = Model.source (ImportedModel.model e)
    /\ List.find (with_column (Relationship.to_column r)) (ImportedModel.fields e) = Some (n, f)
    /\ ImportedField.entity_key f = true;
  lk_source : exists e nf, bt_get (OsiRelationship.from o) base = Some e
    /\ List.find (with_column (Relationship.from_column r)) (ImportedModel.fields e) = Some nf
    /\ existsb (backs (Relationship.from_column r) (Relationship.target r)
                  (Relationship.to_column r)) (ImportedModel.foreign_keys e) = true;
}.

Definition links_distinct (rels : list (string * Relationship)) : Prop :=
  forall n e, bt_get n base = Some e ->
  NoDup (map Field.semantic_name (linked_fields rels n (ImportedModel.model e))).

Lemma push_projected_ok path fields new fields' :
  NoDup (map Field.semantic_name fields) ->
  try_fold (push_projected path) fields new = Ok fields' <->
  fields' = fields ++ new /\ NoDup (map Field.semantic_name (fields ++ new)).
Proof.
  revert fields. induction new as [|f new IH]; intros fields Hnd; simpl.
  - rewrite app_nil_r. split; [by intros [= <-]|]. by intros [-> _].
  - unfold push_projected at 1. rewrite bind_ok. setoid_rewrite guard_then.
    assert (Hfresh : existsb (fun g => bool_decide (Field.semantic_name g = Field.semantic_name f))
                       fields = false <-> Field.semantic_name f ∉ map Field.semantic_name fields).
    { rewrite <- not_true_iff_false, existsb_exists, list_elem_of_fmap.
      setoid_rewrite bool_decide_eq_true. setoid_rewrite <- list_elem_of_In. naive_solver. }
    setoid_rewrite Hfresh. split.
    + intros (k & (Hf & [= <-]) & Hk). apply IH in Hk as [-> Hn].
      * by rewrite <- !app_assoc in *.
      * rewrite map_app. apply NoDup_app. split_and!; [done| |apply NoDup_singleton]. set_solver.
    + intros [-> Hn]. exists (fields ++ [f]).
      assert (Hf : Field.semantic_name f ∉ map Field.semantic_name fields).
      { rewrite map_app in Hn. apply NoDup_app in Hn as (_ & Hn & _). intros Hx.
        apply (Hn _ Hx). left. }
      split; [done|]. apply IH; [|by rewrite <- !app_assoc].
      rewrite map_app. apply NoDup_app. split_and!; [done| |apply NoDup_singleton]. set_solver.
Qed.

Lemma with_column_found c l n f :
  List.find (with_column c) l = Some (n, f) -> ImportedField.column f = c.
Proof. intros Hf. apply List.find_some in Hf as [_ Hf]. by apply bool_decide_eq_true in Hf. Qed.

Lemma named_free (rs : list Relationship) name :
  existsb (fun r => bool_decide (Relationship.semantic_name r = name)) rs = false <->
  name ∉ map Relationship.semantic_name rs.
Proof.
  rewrite <- not_true_iff_false, existsb_exists, list_elem_of_fmap.
  setoid_rewrite bool_decide_eq_true. setoid_rewrite <- list_elem_of_In. naive_solver.
Qed.

Lemma linked_model_push rels n r m :
  set_fields (linked_fields rels n m ++ projection_of r)
    (push_relationship r (linked_model rels [] n m)) = linked_model (rels ++ [(n, r)]) [] n m.
Proof.
  unfold set_fields, push_relationship, linked_model, linked_fields. simpl.
  rewrite own_snoc_eq, map_app, concat_app. simpl. by rewrite !app_nil_r, <- !app_assoc.
Qed.

Lemma import_relationship_ok rels w o state :
  links_distinct rels ->
  (forall e, bt_get (OsiRelationship.from o) base = Some e ->
     Model.relationships (ImportedModel.model e) = []) ->
  import_relationship (linked rels [], w) o = Ok state ->
  exists r w', link_ok o r /\ state = (linked (rels ++ [(OsiRelationship.from o, r)]) [], w')
    /\ links_distinct (rels ++ [(OsiRelationship.from o, r)]).
Proof using Hwf.
  intros Hd Hbare. unfold import_relationship. intros Hi.
  apply bind_ok in Hi as (? & Hp%validate_identifier_ok & Hi).
  apply bind_ok in Hi as (? & Hx%reject_extensions_ok & Hi).
  apply bind_ok in Hi as ([from to] & Hc & Hi).
  assert (OsiRelationship.from_columns o = [from] /\ OsiRelationship.to_columns o = [to])
    as [Hfrom Hto].
  { destruct (OsiRelationship.from_columns o) as [|? []], (OsiRelationship.to_columns o) as [|? []];
      by simplify_eq. }
  apply bind_ok in Hi as (te & Hte%ok_or_ok & Hi). rewrite linked_get in Hte.
  destruct (bt_get (OsiRelationship.to o) base) as [te'|] eqn:Hte'; [|done]. injection Hte as <-.
  apply bind_ok in Hi as (to_column & Htc & Hi).
  assert (Hkey : exists n f, List.find (with_column to) (ImportedModel.fields te') = Some (n, f)
                 /\ ImportedField.entity_key f = true /\ to_column = to).
  { simpl in Htc. destruct (List.find _ _) as [[n f]|] eqn:Hf; [|done].
    destruct (ImportedField.entity_key f) eqn:Hk; [|done]. injection Htc as <-. exists n, f.
    split_and!; [done..|]. by eapply with_column_found. }
  destruct Hkey as (tn & tf & Htf & Hk & ->). clear Htc.
  apply bind_ok in Hi as (fe & Hfe%ok_or_ok & Hi). rewrite linked_get in Hfe.
  destruct (bt_get (OsiRelationship.from o) base) as [fe'|] eqn:Hfe'; [|done]. injection Hfe as <-.
  apply bind_ok in Hi as (? & Hn%fail_if_ok%named_free & Hi).
  apply bind_ok in Hi as (from_column & Hfc%ok_or_ok & Hi).
  assert (Hff : exists nf, List.find (with_column from) (ImportedModel.fields fe') = Some nf
                /\ from_column = from).
  { simpl in Hfc. destruct (List.find _ _) as [[n f]|] eqn:Hf; [|done]. injection Hfc as <-.
    exists (n, f). split; [done|]. by eapply with_column_found. }
  destruct Hff as (nf & Hff & ->). clear Hfc.
  apply bind_ok in Hi as (? & Hfk%fail_if_ok%negb_false_iff & Hi).
  apply bind_ok in Hi as (fields & Hfs & [= <-]).
  set (r := {| Relationship.semantic_name := OsiRelationship.name o;
               Relationship.target_model := OsiRelationship.to o;
               Relationship.target := Model.source (ImportedModel.model te');
               Relationship.cardinality := Cardinality.ManyToOne;
               Relationship.join_type := JoinType.Left;
               Relationship.from_column := from; Relationship.to_column := to |}) in *.
  assert (Hpr : projection_of r = map (projected_field (OsiRelationship.name o))
                                    (ImportedModel.fields te')).
  { unfold projection_of. simpl. by rewrite Hte'. }
  cbn [linked_entry set_model ImportedModel.fields] in Hfs. rewrite <- Hpr in Hfs.
  apply push_projected_ok in Hfs as [-> Hnd]; [|by apply (Hd _ _ Hfe')].
  exists r. eexists. split_and!.
  - split; try done; [by exists te', tn, tf|by exists fe', nf].
  - f_equal. rewrite <- (linked_insert (OsiRelationship.from o) fe' rels []
                    (rels ++ [(OsiRelationship.from o, r)]) []); [|done| |done].
    + f_equal. unfold linked_entry. rewrite <- linked_model_push. done.
    + intros k Hne. by rewrite own_snoc_ne.
  - intros n e He. destruct (decide (n = OsiRelationship.from o)) as [->|Hne].
    + rewrite Hfe' in He. injection He as <-. unfold linked_fields.
      rewrite own_snoc_eq, (map_app projection_of), concat_app. cbn [map concat].
      rewrite app_nil_r, app_assoc. exact Hnd.
    + unfold linked_fields. rewrite own_snoc_ne by done. by apply Hd.
Qed.

Lemma import_relationship_complete rels w o r :
  link_ok o r -> links_distinct (rels ++ [(OsiRelationship.from o, r)]) ->
  (forall e, bt_get (OsiRelationship.from o) base = Some e ->
     Model.relationships (ImportedModel.model e) = []) ->
  Relationship.semantic_name r
    ∉ map Relationship.semantic_name (own (OsiRelationship.from o) rels) ->
  exists w', import_relationship (linked rels [], w) o
             = Ok (linked (rels ++ [(OsiRelationship.from o, r)]) [], w').
Proof using Hwf.
  intros [Hp Hx Hname Hfrom Hto Htm Hcard Hjoin (te & tn & tf & Hte & Htgt & Htf & Hk)
            (fe & nf & Hfe & Hff & Hfk)] Hd Hbare Hn.
  unfold import_relationship. rewrite Hname.
  rewrite (proj2 (validate_identifier_ok _ _ tt)) by done. cbn [mbind result_bind].
  rewrite (proj2 (reject_extensions_ok _ _ tt)) by done. cbn [mbind result_bind].
  rewrite Hfrom, Hto, Htm. cbn [mbind result_bind]. rewrite !linked_get, Hte, Hfe.
  cbn [option_fmap option_map fmap ok_or mbind result_bind linked_entry set_model
       ImportedModel.fields ImportedModel.foreign_keys ImportedModel.model linked_model
       Model.relationships Model.source].
  rewrite Htf, Hk. cbn [mbind result_bind]. rewrite (Hbare _ Hfe). cbn [app].
  rewrite (proj2 (named_free _ _)) by done. cbn [mbind result_bind fail_if].
  rewrite Hff. cbn [option_fmap option_map fmap ok_or mbind result_bind].
  destruct nf as [n f]. pose proof (with_column_found _ _ _ _ Hff) as Hfc.
  pose proof (with_column_found _ _ _ _ Htf) as Htc. simpl. rewrite Hfc, Htc, <- Htgt, Hfk.
  cbn [mbind result_bind fail_if negb].
  pose proof (Hd _ _ Hfe) as Hnd. unfold linked_fields in Hnd.
  rewrite own_snoc_eq, (map_app projection_of), concat_app in Hnd. cbn [map concat] in Hnd.
  rewrite app_nil_r, app_assoc in Hnd.
  assert (Hpr : projection_of r = map (projected_field (Relationship.semantic_name r))
                                    (ImportedModel.fields te)).
  { unfold projection_of. by rewrite Hte. }
  rewrite Hpr in Hnd. pose proof Hnd as Hnd'. rewrite map_app in Hnd'.
  apply NoDup_app in Hnd' as [Hnd' _].
  pose proof (proj2 (push_projected_ok ("/relationships/" +:+ Relationship.semantic_name r)
                       _ _ _ Hnd') (conj eq_refl Hnd)) as Hpush.
  unfold linked_fields. rewrite Hpush.
  cbn [mbind result_bind]. eexists. f_equal. f_equal.
  rewrite <- (linked_insert (OsiRelationship.from o) fe rels []
                (rels ++ [(OsiRelationship.from o, r)]) []); [|done| |done].
  - f_equal. unfold linked_entry. rewrite <- linked_model_push, Hpr.
    unfold set_model, set_fields, push_relationship, linked_model, linked_fields. simpl.
    rewrite (Hbare _ Hfe). by destruct r; simpl in *; subst.
  - intros k Hne. by rewrite own_snoc_ne.
Qed.

(** A model of the datasets alone. *)
Record bare (e : ImportedModel) : Prop := {
  br_relationships : Model.relationships (ImportedModel.model e) = [];
  br_metrics : Model.metrics (ImportedModel.model e) = [];
  br_distinct : NoDup (map Field.semantic_name (Model.fields (ImportedModel.model e)));
}.

Context (Hbare : forall n e, bt_get n base = Some e -> bare e).

Lemma links_distinct_prefix rels rels' : links_distinct (rels ++ rels') -> links_distinct rels.
Proof.
  intros Hd n e He. specialize (Hd n e He). unfold linked_fields in Hd.
  rewrite own_app, (map_app projection_of), concat_app, app_assoc, map_app in Hd.
  by apply NoDup_app in Hd as [? _].
Qed.

Lemma links_distinct_nil : links_distinct [].
Proof using Hbare. intros n e He. unfold linked_fields. simpl. rewrite app_nil_r. by eapply br_distinct, Hbare. Qed.

Definition attributed (os : list OsiRelationship) (rs : list Relationship)
    : list (string * Relationship) :=
  zip (map OsiRelationship.from os) rs.

Lemma import_relationships_ok os rels w state :
  links_distinct rels -> try_fold import_relationship (linked rels [], w) os = Ok state ->
  exists rs w', Forall2 link_ok os rs /\ state = (linked (rels ++ attributed os rs) [], w')
    /\ links_distinct (rels ++ attributed os rs).
Proof using Hwf Hbare.
  revert rels w. induction os as [|o os IH]; intros rels w Hd Hf; cbn [try_fold] in Hf.
  - injection Hf as <-. exists [], w. unfold attributed. simpl. by rewrite app_nil_r.
  - apply bind_ok in Hf as (st & Hst & Hf).
    apply import_relationship_ok in Hst as (r & w' & Hr & -> & Hd'); [|done|].
    + apply IH in Hf as (rs & w2 & Hrs & -> & Hd2); [|done]. exists (r :: rs), w2.
      unfold attributed in *. cbn [map zip zip_with].
      change (rels ++ (OsiRelationship.from o, r) :: zip (map OsiRelationship.from os) rs)
        with (rels ++ [(OsiRelationship.from o, r)] ++ zip (map OsiRelationship.from os) rs).
      rewrite app_assoc. split_and!; [by constructor|done..].
    + intros e He. by eapply br_relationships, Hbare.
Qed.

Lemma import_relationships_complete os rs rels w :
  Forall2 link_ok os rs -> links_distinct (rels ++ attributed os rs) ->
  NoDup (map Relationship.semantic_name (map snd rels ++ rs)) ->
  exists w', try_fold import_relationship (linked rels [], w) os
             = Ok (linked (rels ++ attributed os rs) [], w').
Proof using Hwf Hbare.
  intros Hrs. revert rels w. induction Hrs as [|o r os rs Hr _ IH]; intros rels w Hd Hnd.
  - exists w. unfold attributed. simpl. by rewrite app_nil_r.
  - unfold attributed in *. cbn [map zip zip_with] in *.
    change (rels ++ (OsiRelationship.from o, r) :: zip (map OsiRelationship.from os) rs)
      with (rels ++ [(OsiRelationship.from o, r)] ++ zip (map OsiRelationship.from os) rs) in *.
    rewrite app_assoc in Hd |- *. cbn [try_fold].
    destruct (import_relationship_complete rels w o r) as [w' Hi]; [done|..].
    + by eapply links_distinct_prefix.
    + intros e He. by eapply br_relationships, Hbare.
    + intros Hin. rewrite map_app in Hnd. apply NoDup_app in Hnd as (_ & Hnd & _).
      apply list_elem_of_fmap in Hin as (r' & Heq & Hin%elem_of_own).
      apply (Hnd (Relationship.semantic_name r)); [|left].
      rewrite Heq. apply list_elem_of_fmap_2, list_elem_of_fmap.
      by exists (OsiRelationship.from o, r').
    + rewrite Hi. cbn [mbind result_bind]. apply IH; [done|].
      rewrite !map_app, <- app_assoc in *. done.
Qed.

(** ** Metrics *)

Record measure_ok (o : OsiMetric) (dm : string * Metric) : Prop := {
  ms_portable : portable_identifier (Metric.semantic_name dm.2) = true;
  ms_plain : OsiMetric.custom_extensions o = [];
  ms_name : OsiMetric.name o = Metric.semantic_name dm.2;
  ms_expression : exists text, ansi_text (OsiMetric.expression o) text
    /\ parse_metric_expression text
       = Some (ParsedMetric.mk (Metric.aggregation dm.2) dm.1 (Metric.field dm.2));
  ms_field : exists e f, bt_get dm.1 base = Some e
    /\ bt_get (Metric.field dm.2) (ImportedModel.fields e) = Some f
    /\ (Metric.aggregation dm.2 = Aggregation.Count
        \/ Metric.aggregation dm.2 = Aggregation.CountDistinct -> ImportedField.entity_key f = true)
    /\ aggregate_supports_type (Metric.aggregation dm.2) (ImportedField.data_type f) = true
    /\ Metric.data_type dm.2
       = imported_metric_type (Metric.aggregation dm.2) (ImportedField.data_type f);
  ms_simple : Metric.filter dm.2 = None /\ Metric.additivity dm.2 = None
    /\ Metric.aggregation_anchor dm.2 = None /\ Metric.visible dm.2 = true;
}.

Lemma metric_named_free (ms : list Metric) name :
  existsb (fun m => bool_decide (Metric.semantic_name m = name)) ms = false <->
  name ∉ map Metric.semantic_name ms.
Proof.
  rewrite <- not_true_iff_false, existsb_exists, list_elem_of_fmap.
  setoid_rewrite bool_decide_eq_true. setoid_rewrite <- list_elem_of_In. naive_solver.
Qed.

Lemma count_guard (a : Aggregation) (key : bool) :
  (bool_decide (a = Aggregation.Count) || bool_decide (a = Aggregation.CountDistinct))
    && negb key = false <->
  (a = Aggregation.Count \/ a = Aggregation.CountDistinct -> key = true).
Proof. destruct a, key; simpl; naive_solver. Qed.

Lemma linked_model_measure rels mets n d m :
  push_metric d (linked_model rels mets n m) = linked_model rels (mets ++ [(n, d)]) n m.
Proof.
  unfold push_metric, linked_model. simpl. by rewrite own_snoc_eq, app_assoc.
Qed.

Lemma import_metric_ok rels mets w o state :
  import_metric (linked rels mets, w) o = Ok state ->
  exists dm w', measure_ok o dm /\ state = (linked rels (mets ++ [dm]), w').
Proof using Hwf.
  unfold import_metric. intros Hi. apply bind_ok in Hi as (? & Hp%validate_identifier_ok & Hi).
  apply bind_ok in Hi as (? & Hx%reject_extensions_ok & Hi).
  apply bind_ok in Hi as (text & Ht%ansi_expression_ok & Hi).
  apply bind_ok in Hi as ([agg ds field] & Hparse%ok_or_ok & Hi).
  apply bind_ok in Hi as (e & He%ok_or_ok & Hi). cbn [ParsedMetric.dataset] in He.
  rewrite linked_get in He. destruct (bt_get ds base) as [e'|] eqn:He'; [|done].
  injection He as <-. apply bind_ok in Hi as (? & Hn & Hi).
  apply bind_ok in Hi as (f & Hf%ok_or_ok & Hi).
  apply bind_ok in Hi as (? & Hc%fail_if_ok & Hi). rewrite count_guard in Hc.
  apply bind_ok in Hi as (? & Hs%fail_if_ok%negb_false_iff & [= <-]).
  set (d := {| Metric.semantic_name := OsiMetric.name o;
               Metric.data_type := imported_metric_type agg (ImportedField.data_type f);
               Metric.aggregation := agg; Metric.field := field; Metric.filter := None;
               Metric.additivity := None; Metric.aggregation_anchor := None;
               Metric.visible := true |}).
  exists (ds, d). eexists. split; [split; simpl; try done|].
  - by exists text.
  - by exists e', f.
  - f_equal. rewrite <- (linked_insert ds e' rels mets rels (mets ++ [(ds, d)])); [|done..|].
    + f_equal. unfold linked_entry. by rewrite <- linked_model_measure.
    + intros k Hne. by rewrite own_snoc_ne.
Qed.

Lemma import_metric_complete rels mets w o dm :
  measure_ok o dm -> Metric.semantic_name dm.2 ∉ map Metric.semantic_name (own dm.1 mets) ->
  exists w', import_metric (linked rels mets, w) o = Ok (linked rels (mets ++ [dm]), w').
Proof using Hwf Hbare.
  destruct dm as [ds d]. intros [Hp Hx Hname (text & Ht & Hparse) (e & f & He & Hf & Hc & Hs & Hty)
    (Hfil & Hadd & Hanc & Hvis)] Hn. cbn [fst snd] in *.
  unfold import_metric. rewrite Hname.
  rewrite (proj2 (validate_identifier_ok _ _ tt)) by done. cbn [mbind result_bind].
  rewrite (proj2 (reject_extensions_ok _ _ tt)) by done. cbn [mbind result_bind].
  rewrite (proj2 (ansi_expression_ok _ _ _) Ht). cbn [mbind result_bind].
  rewrite Hparse. cbn [mbind result_bind ok_or ParsedMetric.dataset ParsedMetric.field
                       ParsedMetric.aggregation].
  rewrite linked_get, He.
  cbn [option_fmap option_map fmap ok_or mbind result_bind linked_entry set_model
       ImportedModel.fields ImportedModel.model linked_model Model.metrics].
  rewrite (br_metrics _ (Hbare _ _ He)). cbn [app].
  rewrite (proj2 (metric_named_free _ _)) by done. cbn [mbind result_bind fail_if].
  rewrite Hf. cbn [mbind result_bind ok_or]. rewrite (proj2 (count_guard _ _) Hc).
  cbn [mbind result_bind fail_if]. rewrite Hs. cbn [mbind result_bind fail_if negb].
  eexists. f_equal. f_equal.
  rewrite <- (linked_insert ds e rels mets rels (mets ++ [(ds, d)])); [|done..|].
  - f_equal. unfold linked_entry. rewrite <- linked_model_measure.
    unfold push_metric, linked_model. simpl. rewrite (br_metrics _ (Hbare _ _ He)).
    by destruct d; simpl in *; subst.
  - intros k Hne. by rewrite own_snoc_ne.
Qed.

Lemma import_metrics_ok os rels mets w state :
  try_fold import_metric (linked rels mets, w) os = Ok state ->
  exists dms w', Forall2 measure_ok os dms /\ state = (linked rels (mets ++ dms), w').
Proof using Hwf.
  revert mets w. induction os as [|o os IH]; intros mets w Hf; cbn [try_fold] in Hf.
  - injection Hf as <-. exists [], w. by rewrite app_nil_r.
  - apply bind_ok in Hf as (st & (dm & w' & Hdm & ->)%import_metric_ok & Hf).
    apply IH in Hf as (dms & w2 & Hdms & ->). exists (dm :: dms), w2.
    rewrite <- app_assoc. by split; [constructor|].
Qed.

Lemma import_metrics_complete os dms rels mets w :
  Forall2 measure_ok os dms -> NoDup (map Metric.semantic_name (map snd (mets ++ dms))) ->
  exists w', try_fold import_metric (linked rels mets, w) os = Ok (linked rels (mets ++ dms), w').
Proof using Hwf Hbare.
  intros Hdms. revert mets w. induction Hdms as [|o dm os dms Hdm _ IH]; intros mets w Hnd.
  - exists w. by rewrite app_nil_r.
  - cbn [try_fold]. destruct (import_metric_complete rels mets w o dm) as [w' Hi]; [done|..].
    + intros Hin. rewrite !map_app in Hnd. apply NoDup_app in Hnd as (_ & Hnd & _).
      apply list_elem_of_fmap in Hin as (d & Heq & Hin%elem_of_own).
      apply (Hnd (Metric.semantic_name dm.2)); [|left].
      rewrite Heq. apply list_elem_of_fmap_2, list_elem_of_fmap. by exists (dm.1, d).
    + rewrite Hi. cbn [mbind result_bind]. destruct (IH (mets ++ [dm]) w') as [w2 Hw].
      * by rewrite <- app_assoc.
      * exists w2. by rewrite Hw, <- app_assoc.
Qed.
End links.

(** ** Semantic models *)

Section resolution.
Context `{YamlValue}.

(** The datasets, relationships and metrics of a semantic model, resolved. *)
Record resolved (catalog : CatalogSnapshot) (sm : OsiSemanticModel) (base : Imported)
    (rels : list (string * Relationship)) (mets : list (string * Metric)) : Prop := {
  rs_datasets : exists es,
    Forall2 (dataset_imported (Catalog.current_database catalog) (relation_index catalog))
      (OsiSemanticModel.datasets sm) es
    /\ base = bt_from_list (zip (map OsiDataset.name (OsiSemanticModel.datasets sm)) es);
  rs_names : NoDup (map OsiDataset.name (OsiSemanticModel.datasets sm));
  rs_relationships : exists rs, Forall2 (link_ok base) (OsiSemanticModel.relationships sm) rs
    /\ rels = attributed (OsiSemanticModel.relationships sm) rs;
  rs_relationship_names : NoDup (map OsiRelationship.name (OsiSemanticModel.relationships sm));
  rs_distinct : links_distinct base rels;
  rs_metrics : Forall2 (measure_ok base) (OsiSemanticModel.metrics sm) mets;
  rs_metric_names : NoDup (map OsiMetric.name (OsiSemanticModel.metrics sm));
}.

Lemma dataset_imported_bare database index d e : dataset_imported database index d e -> bare e.
Proof.
  intros [_ _ _ (schema & name & relation & fs & _ & Hb & _ & _ & ->)].
  split; try done. simpl. apply Hb.
Qed.

Lemma zip_elem {A B} (l : list A) (k : list B) x y :
  (x, y) ∈ zip l k -> exists i, l !! i = Some x /\ k !! i = Some y.
Proof.
  intros (i & Hi)%list_elem_of_lookup_1.
  apply lookup_zip_with_Some in Hi as (x' & y' & [= -> ->] & ? & ?). eauto.
Qed.

(** Every model comes from a dataset of its name. *)
Lemma resolved_entry catalog sm base rels mets n e :
  resolved catalog sm base rels mets -> bt_get n base = Some e ->
  exists d, d ∈ OsiSemanticModel.datasets sm /\ OsiDataset.name d = n
    /\ dataset_imported (Catalog.current_database catalog) (relation_index catalog) d e.
Proof.
  intros Hr He. destruct (rs_datasets _ _ _ _ _ Hr) as (es & Hes & ->).
  apply bt_from_list_get_elem, zip_elem in He as (i & Hn & He).
  apply list_lookup_fmap_Some in Hn as (d & -> & Hd).
  exists d. split_and!; [by eapply list_elem_of_lookup_2|done|].
  exact (Forall2_lookup_lr _ _ _ _ _ _ Hes Hd He).
Qed.

Lemma resolved_bare catalog sm base rels mets n e :
  resolved catalog sm base rels mets -> bt_get n base = Some e -> bare e.
Proof.
  intros Hr He. destruct (resolved_entry _ _ _ _ _ _ _ Hr He) as (d & _ & _ & Hd).
  by eapply dataset_imported_bare.
Qed.

Lemma resolved_wf catalog sm base rels mets : resolved catalog sm base rels mets -> bt_wf base.
Proof. intros Hr. destruct (rs_datasets _ _ _ _ _ Hr) as (es & _ & ->). apply bt_from_list_wf. Qed.

Lemma linked_nil base : (forall n e, bt_get n base = Some e -> bare e) -> bt_wf base ->
  linked base [] [] = base.
Proof.
  intros Hb Hwf. unfold linked. rewrite <- (map_id base) at 2. apply map_ext_in.
  intros [n e] Hin%list_elem_of_In%bt_elem_get; [|done]. apply Hb in Hin. f_equal.
  destruct e as [[] ? ?], Hin as [Hr Hm _]. simpl in *. subst.
  unfold linked_entry, linked_model, linked_fields. simpl. by rewrite app_nil_r.
Qed.

Lemma link_names base os rs :
  Forall2 (link_ok base) os rs -> map OsiRelationship.name os = map Relationship.semantic_name rs.
Proof. induction 1 as [|o r os rs Ho _ IH]; simpl; [done|]. f_equal; [apply Ho|done]. Qed.

Lemma measure_names base os dms :
  Forall2 (measure_ok base) os dms ->
  map OsiMetric.name os = map Metric.semantic_name (map snd dms).
Proof. induction 1 as [|o r os rs Ho _ IH]; simpl; [done|]. f_equal; [apply Ho|done]. Qed.

Lemma import_models_ok catalog sm w imported w' :
  import_models catalog sm w = Ok (imported, w') ->
  exists base rels mets, resolved catalog sm base rels mets /\ imported = linked base rels mets.
Proof.
  unfold import_models. intros Hi. apply bind_ok in Hi as ([base w1] & Hds & Hi).
  apply import_datasets_ok in Hds as (es & Hes & Hnd & _ & Hbase).
  fold (bt_from_list (zip (map OsiDataset.name (OsiSemanticModel.datasets sm)) es)) in Hbase.
  apply bind_ok in Hi as (? & Hrn%ensure_unique_names_ok & Hi).
  apply bind_ok in Hi as (? & Hmn%ensure_unique_names_ok & Hi).
  apply bind_ok in Hi as (st & Hrs & Hi).
  assert (Hwf : bt_wf base) by (rewrite Hbase; apply bt_from_list_wf).
  assert (Hbare : forall n e, bt_get n base = Some e -> bare e).
  { intros n e He. rewrite Hbase in He. apply bt_from_list_get_elem, zip_elem in He as (i & Hn & He).
    apply list_lookup_fmap_Some in Hn as (d & -> & Hd).
    eapply dataset_imported_bare. exact (Forall2_lookup_lr _ _ _ _ _ _ Hes Hd He). }
  rewrite <- (linked_nil base Hbare Hwf) in Hrs.
  apply import_relationships_ok in Hrs as (rs & w2 & Hlinks & -> & Hdist);
    [|done|done|by apply links_distinct_nil].
  apply import_metrics_ok in Hi as (dms & w3 & Hms & [= -> ->]); [|done].
  exists base, (attributed (OsiSemanticModel.relationships sm) rs), dms. split; [|done].
  split; try done; eauto.
Qed.

Lemma import_models_complete catalog sm w base rels mets :
  resolved catalog sm base rels mets ->
  exists w', import_models catalog sm w = Ok (linked base rels mets, w').
Proof.
  intros Hr. pose proof (resolved_wf _ _ _ _ _ Hr) as Hwf.
  pose proof (fun n e => resolved_bare _ _ _ _ _ n e Hr) as Hbare.
  destruct Hr as [(es & Hes & Hbase) Hnd (rs & Hlinks & Hrels) Hrn Hdist Hms Hmn].
  unfold import_models.
  destruct (import_datasets_complete _ _ _ _ [] w Hes Hnd) as [w1 Hds].
  { apply Forall_forall. intros d _. apply not_elem_of_nil. }
  rewrite Hds. cbn [mbind result_bind].
  fold (bt_from_list (zip (map OsiDataset.name (OsiSemanticModel.datasets sm)) es)).
  rewrite <- Hbase. rewrite (proj2 (ensure_unique_names_ok _ _ tt)) by done.
  cbn [mbind result_bind]. rewrite (proj2 (ensure_unique_names_ok _ _ tt)) by done.
  cbn [mbind result_bind].
  destruct (import_relationships_complete base Hwf Hbare _ _ [] w1 Hlinks) as [w2 Hrs].
  { simpl. by rewrite <- Hrels. }
  { simpl. by rewrite <- (link_names _ _ _ Hlinks). }
  rewrite (linked_nil base Hbare Hwf) in Hrs. rewrite Hrs. cbn [mbind result_bind].
  rewrite <- Hrels.
  destruct (import_metrics_complete base Hwf Hbare _ _ rels [] w2 Hms) as [w3 Hmets].
  { simpl. by rewrite <- (measure_names _ _ _ Hms). }
  by exists w3.
Qed.
End resolution.

(** * The snapshots of OSI imports ([osi.rs])

    The models an accepted document gives: distinct names, backed by the
    catalog, and serviceable to the compiler. *)

Definition models_of (imported : Imported) : list Model := map ImportedModel.model imported.*2.

Definition raw_snapshot (models : list Model) : SemanticSnapshot :=
  {| Snapshot.schema_version := "1"; Snapshot.revision_hash := EmptyString;
     Snapshot.models := models |}.

Section resolved.
Context `{YamlValue} (catalog : CatalogSnapshot) (sm : OsiSemanticModel) (base : Imported).
Context (rels : list (string * Relationship)) (mets : list (string * Metric)).
Context (Hres : resolved catalog sm base rels mets).

Lemma entry_shape n e : bt_get n base = Some e ->
  exists schema relation_name relation fs,
    e = dataset_entry n schema relation_name relation fs
    /\ portable_identifier n = true /\ portable_identifier schema = true
    /\ portable_identifier relation_name = true
    /\ relation_backed (relation_index catalog) schema relation_name relation fs.
Proof.
  intros He. destruct (resolved_entry _ _ _ _ _ _ _ Hres He) as (d & _ & <- & Hd).
  destruct (di_source _ _ _ _ Hd) as (schema & rn & relation & fs & Hs & Hb & _ & _ & ->).
  exists schema, rn, relation, fs. unfold parse_source in Hs.
  apply bind_ok in Hs as ([[database s] r] & _ & Hs).
  apply bind_ok in Hs as (? & Hp%fail_if_ok & Hs). apply bind_ok in Hs as (? & _ & [= -> ->]).
  apply orb_false_iff in Hp as [?%negb_false_iff ?%negb_false_iff].
  split_and!; try done. apply Hd.
Qed.

Lemma rel_linked n r : (n, r) ∈ rels ->
  exists o, o ∈ OsiSemanticModel.relationships sm /\ OsiRelationship.from o = n /\ link_ok base o r.
Proof.
  destruct (rs_relationships _ _ _ _ _ Hres) as (rs & Hrs & ->). unfold attributed.
  intros (i & Hn & Hi)%zip_elem. apply list_lookup_fmap_Some in Hn as (o & -> & Ho).
  exists o. split_and!; [by eapply list_elem_of_lookup_2|done|].
  exact (Forall2_lookup_lr _ _ _ _ _ _ Hrs Ho Hi).
Qed.

Lemma metric_measured dm : dm ∈ mets ->
  exists o, o ∈ OsiSemanticModel.metrics sm /\ measure_ok base o dm.
Proof.
  intros (i & Hi)%list_elem_of_lookup_1.
  destruct (Forall2_lookup_r _ _ _ _ _ (rs_metrics _ _ _ _ _ Hres) Hi) as (o & Ho & Hok).
  exists o. split; [by eapply list_elem_of_lookup_2|done].
Qed.

Lemma elem_of_models m : m ∈ models_of (linked base rels mets) <->
  exists n e, bt_get n base = Some e /\ m = linked_model base rels mets n (ImportedModel.model e).
Proof.
  pose proof (resolved_wf _ _ _ _ _ Hres) as Hwf. unfold models_of, linked.
  rewrite list_elem_of_fmap. split.
  - intros (e' & -> & Hin). apply list_elem_of_fmap in Hin as ([n e2] & -> & Hin).
    apply list_elem_of_fmap in Hin as ([n' e] & [= -> ->] & Hin). exists n', e.
    split; [by apply bt_elem_get|done].
  - intros (n & e & He & ->). exists (linked_entry base rels mets n e). split; [done|].
    apply list_elem_of_fmap. exists (n, linked_entry base rels mets n e). split; [done|].
    apply list_elem_of_fmap. exists (n, e). split; [done|by apply bt_get_elem].
Qed.

(** ** Distinct names *)

Lemma models_names : map Model.semantic_name (models_of (linked base rels mets)) = base.*1.
Proof.
  change (map Model.semantic_name (map ImportedModel.model
            (map snd (map (fun '(n, e) => (n, linked_entry base rels mets n e)) base)))
          = map fst base).
  rewrite !map_map. apply map_ext_in. intros [n e] Hin.
  apply list_elem_of_In, bt_elem_get in Hin; [|by eapply resolved_wf].
  apply entry_shape in Hin as (? & ? & ? & ? & -> & _). done.
Qed.

Lemma own_sublist {A} n (l : list (string * A)) : own n l `sublist_of` map snd l.
Proof. unfold own. apply (fmap_sublist snd), sublist_filter. Qed.

Lemma own_metrics_distinct n : NoDup (map Metric.semantic_name (own n mets)).
Proof.
  pose proof (rs_metric_names _ _ _ _ _ Hres) as Hn.
  rewrite (measure_names _ _ _ (rs_metrics _ _ _ _ _ Hres)) in Hn.
  eapply sublist_NoDup; [exact Hn|]. apply (fmap_sublist Metric.semantic_name), own_sublist.
Qed.

Lemma rel_names_distinct : NoDup (map Relationship.semantic_name (map snd rels)).
Proof.
  pose proof (rs_relationship_names _ _ _ _ _ Hres) as Hn.
  destruct (rs_relationships _ _ _ _ _ Hres) as (rs & Hrs & ->).
  rewrite (link_names _ _ _ Hrs) in Hn. unfold attributed.
  pose proof (Forall2_length _ _ _ Hrs) as Hl.
  change (map snd (zip (map OsiRelationship.from (OsiSemanticModel.relationships sm)) rs))
    with (zip (map OsiRelationship.from (OsiSemanticModel.relationships sm)) rs).*2.
  rewrite snd_zip; [done|]. rewrite length_map. lia.
Qed.

Lemma own_rels_distinct n : NoDup (map Relationship.semantic_name (own n rels)).
Proof.
  eapply sublist_NoDup; [exact rel_names_distinct|].
  apply (fmap_sublist Relationship.semantic_name), own_sublist.
Qed.

Lemma linked_model_distinct n e : bt_get n base = Some e ->
  model_distinct (linked_model base rels mets n (ImportedModel.model e)).
Proof.
  intros He. pose proof (resolved_bare _ _ _ _ _ _ _ Hres He) as [Hr Hm _].
  split; simpl.
  - by apply (rs_distinct _ _ _ _ _ Hres).
  - rewrite Hm. apply own_metrics_distinct.
  - rewrite Hr. apply own_rels_distinct.
  - apply entry_shape in He as (? & ? & ? & ? & -> & _). done.
Qed.

Lemma raw_distinct : snapshot_distinct (raw_snapshot (models_of (linked base rels mets))).
Proof.
  split; simpl.
  - rewrite models_names. apply bs_wf_nodup. by eapply resolved_wf.
  - apply Forall_forall. intros m (n & e & He & ->)%elem_of_models. by apply linked_model_distinct.
Qed.

(** ** Canonical order *)

Lemma sorted_names (ms : list Model) :
  StronglySorted klt (map Model.semantic_name ms) -> StronglySorted model_le ms.
Proof.
  induction ms as [|m ms IH]; intros Hs; [constructor|]. simpl in Hs.
  apply StronglySorted_inv in Hs as [Hs Hm]. constructor; [auto|].
  rewrite Forall_fmap in Hm. eapply Forall_impl; [exact Hm|]. intros m' Hlt.
  unfold model_le, model_keys. apply lex_le_cons. by left.
Qed.

Lemma models_sorted :
  sort_by model_le (models_of (linked base rels mets)) = models_of (linked base rels mets).
Proof.
  apply sort_by_id, sorted_names. rewrite models_names. by eapply resolved_wf.
Qed.

(** ** The fields of a model *)

Lemma entry_fields schema relation_name relation fs n :
  NoDup (map Field.semantic_name fs) ->
  forall name i, (name, i) ∈ ImportedModel.fields (dataset_entry n schema relation_name relation fs)
  <-> exists f, f ∈ fs /\ name = Field.semantic_name f /\ i = imported_of f.
Proof.
  intros Hnd name i. simpl. rewrite elem_of_bt_from_list by (by rewrite named_fields_keys).
  unfold named_fields. rewrite list_elem_of_fmap. naive_solver.
Qed.

(** A field is a column of the relation, or a field of the target of one of the
    model's relationships. *)
Lemma linked_field_cases n e f :
  bt_get n base = Some e -> f ∈ linked_fields base rels n (ImportedModel.model e) ->
  f ∈ Model.fields (ImportedModel.model e)
  \/ exists r te g, (n, r) ∈ rels /\ bt_get (Relationship.target_model r) base = Some te
      /\ g ∈ Model.fields (ImportedModel.model te)
      /\ f = projected_field (Relationship.semantic_name r) (Field.semantic_name g, imported_of g).
Proof.
  intros He. unfold linked_fields. rewrite elem_of_app. intros [Hf|Hf]; [by left|right].
  apply list_elem_of_In, in_concat in Hf as (l & Hl & Hf).
  apply list_elem_of_In, list_elem_of_fmap in Hl as (r & -> & Hr%elem_of_own).
  unfold projection_of in Hf.
  destruct (bt_get (Relationship.target_model r) base) as [te|] eqn:Hte; [|done].
  apply list_elem_of_In, list_elem_of_fmap in Hf as ([name i] & -> & Hi).
  pose proof Hte as (schema & rn & relation & fs & -> & _ & _ & _ & Hb)%entry_shape.
  apply entry_fields in Hi as (g & Hg & -> & ->); [|apply Hb].
  by exists r, (dataset_entry (Relationship.target_model r) schema rn relation fs), g.
Qed.

Lemma direct_field n e f :
  bt_get n base = Some e -> f ∈ Model.fields (ImportedModel.model e) ->
  exists schema relation_name relation fs,
    e = dataset_entry n schema relation_name relation fs
    /\ relation_backed (relation_index catalog) schema relation_name relation fs
    /\ column_backed (catalog_primary_key relation) (columns_of relation) f.
Proof.
  intros (schema & rn & relation & fs & -> & _ & _ & _ & Hb)%entry_shape Hf.
  exists schema, rn, relation, fs. split_and!; [done..|].
  pose proof (rb_fields _ _ _ _ _ Hb) as Hc. rewrite Forall_forall in Hc. by apply Hc.
Qed.

(** ** Serviceability *)

Context (snapshot : SemanticSnapshot).
Context (Hmodels : Snapshot.models snapshot
                   = map normalize_model (models_of (linked base rels mets))).
Context (Hversion : Snapshot.schema_version snapshot = "1").

Lemma elem_of_snapshot m : m ∈ Snapshot.models snapshot <->
  exists n e, bt_get n base = Some e
    /\ m = normalize_model (linked_model base rels mets n (ImportedModel.model e)).
Proof.
  rewrite Hmodels, list_elem_of_fmap. setoid_rewrite elem_of_models. naive_solver.
Qed.

Lemma linked_visible n e f :
  bt_get n base = Some e -> f ∈ linked_fields base rels n (ImportedModel.model e) ->
  Field.visible f = true
  /\ (Field.time_dimension f = true -> is_temporal (Field.data_type f) = true).
Proof.
  intros He [Hf|(r & te & g & _ & Hte & Hg & ->)]%(linked_field_cases _ _ _ He).
  - destruct (direct_field _ _ _ He Hf) as (? & ? & ? & ? & _ & _ & Hc).
    split; [apply Hc|]. intros [-> | ->]%(cb_time _ _ _ Hc); done.
  - destruct (direct_field _ _ _ Hte Hg) as (? & ? & ? & ? & _ & _ & Hc). simpl.
    split; [done|]. intros [-> | ->]%(cb_time _ _ _ Hc); done.
Qed.

Lemma linked_key n e c name i :
  bt_get n base = Some e ->
  List.find (with_column c) (ImportedModel.fields e) = Some (name, i) ->
  ImportedField.entity_key i = true ->
  exists f, f ∈ Model.fields (ImportedModel.model e) /\ Field.column f = c
    /\ Field.relationship f = None /\ Field.entity_key f = true.
Proof.
  intros He Hf Hk. pose proof (with_column_found _ _ _ _ Hf) as Hc.
  apply List.find_some in Hf as [Hin%list_elem_of_In _].
  pose proof He as (schema & rn & relation & fs & -> & _ & _ & _ & Hb)%entry_shape.
  apply entry_fields in Hin as (f & Hf & -> & ->); [|apply Hb]. exists f. simpl in *.
  destruct (direct_field _ _ f He Hf) as (? & ? & ? & ? & _ & _ & Hcb).
  split_and!; [done..|apply Hcb|done].
Qed.

Lemma linked_relationship_ok n e r :
  bt_get n base = Some e -> (n, r) ∈ rels ->
  relationship_ok snapshot
    (normalize_model (linked_model base rels mets n (ImportedModel.model e))) r.
Proof.
  intros He Hr. destruct (rel_linked _ _ Hr) as (o & _ & _ & Hok).
  destruct (lk_target _ _ _ Hok) as (te & tn & tf & Hte & Htgt & Hfind & Hkey).
  pose proof (linked_model_distinct _ _ He) as Hd.
  pose proof (resolved_bare _ _ _ _ _ _ _ Hres He) as [Hbr _ _].
  assert (Hin : r ∈ sort_by relationship_le (Model.relationships
                  (linked_model base rels mets n (ImportedModel.model e)))).
  { apply elem_of_sort_by. simpl. rewrite Hbr. by apply elem_of_own. }
  split; [done| |].
  - apply find_named; [|done]. simpl.
    change (map Relationship.semantic_name ?l) with (Relationship.semantic_name <$> l).
    rewrite sort_by_perm. apply Hd.
  - exists (normalize_model (linked_model base rels mets (Relationship.target_model r)
                               (ImportedModel.model te))).
    split_and!; [apply elem_of_snapshot; eauto|..].
    + apply entry_shape in Hte as (? & ? & ? & ? & -> & _). done.
    + done.
    + unfold join_safe. rewrite (lk_cardinality _ _ _ Hok).
      destruct (linked_key _ _ _ _ _ Hte Hfind Hkey) as (f & Hf & ? & ? & ?). exists f.
      split_and!; try done. simpl. apply elem_of_sort_by. unfold linked_fields.
      apply elem_of_app. by left.
Qed.

Lemma imported_metric_type_expected a t : imported_metric_type a t = expected_metric_type a t.
Proof. by destruct a, t. Qed.

Lemma linked_metric_ok n e d :
  bt_get n base = Some e -> (n, d) ∈ mets ->
  exists m, rm_metric m = d /\ rm_filter m = None
    /\ metric_ok snapshot (normalize_model (linked_model base rels mets n (ImportedModel.model e)))
         (MetricReference.mk (Metric.semantic_name d)) m.
Proof.
  intros He Hd. destruct (metric_measured _ Hd) as (o & _ & Hok).
  destruct (ms_field _ _ _ Hok) as (e' & i & He' & Hi & Hc & Hs & Ht). cbn [fst snd] in *.
  rewrite He in He'. injection He' as <-. apply bt_get_elem in Hi.
  pose proof He as (schema & rn & relation & fs & -> & _ & _ & _ & Hb)%entry_shape.
  apply entry_fields in Hi as (f & Hf & Hname & ->); [|apply Hb].
  destruct (direct_field _ _ f He Hf) as (? & ? & ? & ? & _ & _ & Hcb).
  destruct (ms_simple _ _ _ Hok) as (Hfil & Hadd & Hanc & Hvis). cbn [fst snd] in *.
  exists {| rm_metric := d; rm_field := f; rm_filter := None; rm_aggregation_anchor := None |}.
  split_and!; [done..|]. split; simpl; try done.
  - apply elem_of_sort_by. by apply elem_of_own.
  - apply elem_of_sort_by. unfold linked_fields. apply elem_of_app. by left.
  - apply Hcb.
  - rewrite Ht. apply imported_metric_type_expected.
  - by rewrite Hversion.
Qed.

Lemma linked_serviceable m : m ∈ Snapshot.models snapshot -> serviceable snapshot m.
Proof.
  intros (n & e & He & ->)%elem_of_snapshot.
  pose proof (resolved_bare _ _ _ _ _ _ _ Hres He) as [_ Hbm _]. split.
  - pose proof He as (? & ? & ? & ? & -> & _)%entry_shape. done.
  - apply Forall_forall. intros f Hf%elem_of_sort_by. by eapply linked_visible.
  - apply Forall_forall. intros f Hf%elem_of_sort_by. by eapply linked_visible.
  - intros d Hd%elem_of_sort_by. simpl in Hd. rewrite Hbm in Hd. apply elem_of_own in Hd.
    by apply linked_metric_ok.
  - intros f r Hf%elem_of_sort_by Hr.
    apply (linked_field_cases _ _ _ He) in Hf as [Hf|(rel & te & g & Hrel & Hte & Hg & ->)].
    + destruct (direct_field _ _ _ He Hf) as (? & ? & ? & ? & _ & _ & Hc).
      by rewrite (cb_direct _ _ _ Hc) in Hr.
    + injection Hr as <-. exists rel. split_and!; [done|by apply linked_relationship_ok|].
      destruct (rel_linked _ _ Hrel) as (o & _ & _ & Hok).
      by rewrite (lk_cardinality _ _ _ Hok).
Qed.
End resolved.
