(* ===== verification/OsiRoundTrip.v ===== *)
(** * Exporting what was imported ([osi.rs])

    The document an imported snapshot is written as is accepted again, and gives
    the snapshot back.

    The second part is about snapshots that were saved in between. *)

From S2P Require Import Prelude Ordered Text StrOps Json Lsq Lsm Semantic SemanticSpec Compiler.
From S2P Require Import CompilerComplete Catalog Osi OsiExport OsiSpec OsiLinks.

(** ** The document of a list of models *)

Section written.
Context `{YamlValue}.

Definition exported_field (f : Field) : OsiField :=
  {| OsiField.name := Field.semantic_name f;
     OsiField.expression := OsiExpression.ansi (Field.column f);
     OsiField.dimension := Some (OsiDimension.mk (Some (Field.time_dimension f)));
     OsiField.label := None; OsiField.description := None; OsiField.ai_context := None;
     OsiField.custom_extensions := [] |}.

Definition direct_fields (fs : list Field) : list Field :=
  filter (fun f => Field.relationship f = None) fs.

Definition key_columns (fs : list Field) : list string :=
  map Field.column (filter (fun f => Field.entity_key f = true) fs).

Definition exported_dataset (m : Model) : OsiDataset :=
  {| OsiDataset.name := Model.semantic_name m;
     OsiDataset.source := Relation.schema (Model.source m) +:+ "."
                          +:+ Relation.relation (Model.source m);
     OsiDataset.primary_key := bs_from_list (key_columns (direct_fields (Model.fields m)));
     OsiDataset.unique_keys := []; OsiDataset.description := None; OsiDataset.ai_context := None;
     OsiDataset.fields := map exported_field (direct_fields (Model.fields m));
     OsiDataset.custom_extensions := [] |}.

Definition exported_relationship (n : string) (r : Relationship) : OsiRelationship :=
  {| OsiRelationship.name := Relationship.semantic_name r; OsiRelationship.from := n;
     OsiRelationship.to := Relationship.target_model r;
     OsiRelationship.from_columns := [Relationship.from_column r];
     OsiRelationship.to_columns := [Relationship.to_column r];
     OsiRelationship.ai_context := None; OsiRelationship.custom_extensions := [] |}.

Definition exported_metric (n : string) (d : Metric) : OsiMetric :=
  {| OsiMetric.name := Metric.semantic_name d;
     OsiMetric.expression := OsiExpression.ansi
       (metric_expression (Metric.aggregation d) n (Metric.field d));
     OsiMetric.description := None; OsiMetric.ai_context := None;
     OsiMetric.custom_extensions := [] |}.

Definition exported_relationships (m : Model) : list OsiRelationship :=
  map (exported_relationship (Model.semantic_name m)) (Model.relationships m).

Definition exported_metrics (m : Model) : list OsiMetric :=
  map (exported_metric (Model.semantic_name m)) (Model.metrics m).

Definition exported_model (name : string) (ms : list Model) : OsiSemanticModel :=
  {| OsiSemanticModel.name := name; OsiSemanticModel.description := None;
     OsiSemanticModel.ai_context := None;
     OsiSemanticModel.datasets := map exported_dataset ms;
     OsiSemanticModel.relationships := concat (map exported_relationships ms);
     OsiSemanticModel.metrics := concat (map exported_metrics ms);
     OsiSemanticModel.custom_extensions := [] |}.

(** Models that a document can represent. *)
Record exportable (m : Model) : Prop := {
  ex_queryable : Model.queryable m = true;
  ex_writable : Model.writable m = None;
  ex_timezone : Model.timezone m = None;
  ex_fields : Forall (fun f => Field.visible f = true) (Model.fields m);
  ex_relationships : Forall (fun r => Relationship.cardinality r = Cardinality.ManyToOne
    /\ Relationship.join_type r = JoinType.Left) (Model.relationships m);
  ex_metrics : Forall (fun d => Metric.visible d = true /\ Metric.filter d = None
    /\ Metric.additivity d = None /\ Metric.aggregation_anchor d = None) (Model.metrics m);
}.

Lemma export_fields_ok path fs acc key :
  Forall (fun f => Field.visible f = true) fs ->
  try_fold (export_field path) (acc, key) fs
  = Ok (acc ++ map exported_field (direct_fields fs),
        foldl (fun s k => bs_insert k s) key (key_columns (direct_fields fs))).
Proof.
  intros Hv. revert acc key. induction Hv as [|f fs Hf _ IH]; intros acc key; simpl.
  - by rewrite app_nil_r.
  - rewrite Hf. cbn [fail_if negb mbind result_bind]. unfold direct_fields.
    rewrite filter_cons. destruct (Field.relationship f) as [r|] eqn:Hr; simpl.
    + apply IH.
    + rewrite IH. unfold key_columns, direct_fields. rewrite filter_cons, <- app_assoc.
      by destruct (Field.entity_key f).
Qed.

Lemma export_relationships_ok path m rs acc :
  Forall (fun r => Relationship.cardinality r = Cardinality.ManyToOne
    /\ Relationship.join_type r = JoinType.Left) rs ->
  try_fold (export_relationship path m) acc rs
  = Ok (acc ++ map (exported_relationship (Model.semantic_name m)) rs).
Proof.
  intros Hr. revert acc. induction Hr as [|r rs [Hc Hj] _ IH]; intros acc; cbn [try_fold map].
  - by rewrite app_nil_r.
  - assert (export_relationship path m acc r
            = Ok (acc ++ [exported_relationship (Model.semantic_name m) r])) as ->
      by (unfold export_relationship; by rewrite Hc, Hj).
    cbn [mbind result_bind]. by rewrite IH, <- app_assoc.
Qed.

Lemma export_metrics_ok path m ds acc :
  Forall (fun d => Metric.visible d = true /\ Metric.filter d = None
    /\ Metric.additivity d = None /\ Metric.aggregation_anchor d = None) ds ->
  try_fold (export_metric path m) acc ds
  = Ok (acc ++ map (exported_metric (Model.semantic_name m)) ds).
Proof.
  intros Hd. revert acc. induction Hd as [|d ds (Hv & Hf & Ha & Hn) _ IH]; intros acc;
    cbn [try_fold map].
  - by rewrite app_nil_r.
  - assert (export_metric path m acc d
            = Ok (acc ++ [exported_metric (Model.semantic_name m) d])) as ->
      by (unfold export_metric; by rewrite Hv, Hf, Ha, Hn).
    cbn [mbind result_bind]. by rewrite IH, <- app_assoc.
Qed.

Definition extend (exported : OsiSemanticModel) (ms : list Model) : OsiSemanticModel :=
  {| OsiSemanticModel.name := OsiSemanticModel.name exported;
     OsiSemanticModel.description := OsiSemanticModel.description exported;
     OsiSemanticModel.ai_context := OsiSemanticModel.ai_context exported;
     OsiSemanticModel.datasets := OsiSemanticModel.datasets exported ++ map exported_dataset ms;
     OsiSemanticModel.relationships :=
       OsiSemanticModel.relationships exported ++ concat (map exported_relationships ms);
     OsiSemanticModel.metrics :=
       OsiSemanticModel.metrics exported ++ concat (map exported_metrics ms);
     OsiSemanticModel.custom_extensions := OsiSemanticModel.custom_extensions exported |}.

Lemma export_models_ok ms exported :
  Forall exportable ms -> try_fold export_model exported ms = Ok (extend exported ms).
Proof.
  intros Hms. revert exported. induction Hms as [|m ms [Hq Hw Hz Hf Hr Hd] _ IH]; intros exported.
  - unfold extend. cbn [map concat try_fold]. rewrite !app_nil_r. by destruct exported.
  - assert (export_model exported m = Ok (extend exported [m])) as Hstep.
    { unfold export_model, export_dataset. rewrite Hq, Hw, Hz.
      cbn [negb orb is_some fail_if mbind result_bind].
      rewrite export_fields_ok by done. cbn [mbind result_bind].
      rewrite export_relationships_ok by done. cbn [mbind result_bind].
      rewrite export_metrics_ok by done. cbn [mbind result_bind].
      unfold extend. cbn [map concat]. by rewrite !app_nil_r. }
    cbn [try_fold]. rewrite Hstep. cbn [mbind result_bind]. rewrite IH. unfold extend. cbn.
    by rewrite <- !app_assoc.
Qed.

Lemma export_all_ok name ms :
  Forall exportable ms ->
  try_fold export_model (empty_semantic_model name) ms = Ok (exported_model name ms).
Proof. apply export_models_ok. Qed.
End written.

(** ** Regrouping *)

Lemma own_regroup {A} keys (g : string -> list A) (l : list (string * A)) :
  NoDup keys -> (forall x, x ∈ l -> x.1 ∈ keys) -> (forall n, n ∈ keys -> g n ≡ₚ own n l) ->
  concat (map (fun n => map (pair n) (g n)) keys) ≡ₚ l.
Proof.
  revert l. induction keys as [|k keys IH]; intros l Hnd Hl Hg; simpl.
  - destruct l as [|x l]; [done|]. specialize (Hl x). set_solver.
  - apply NoDup_cons in Hnd as [Hk Hnd].
    rewrite (Hg k) by (left).
    rewrite (IH (filter (fun x => x.1 <> k) l)); [|done|..].
    + assert (map (pair k) (own k l) = filter (fun x => x.1 = k) l) as ->.
      { unfold own. clear. induction l as [|[n a] l IH]; [done|]. rewrite filter_cons. simpl.
        case_decide as Hn; [|done]. simpl. by subst; f_equal. }
      clear. induction l as [|x l IH]; [done|]. rewrite !filter_cons.
      destruct (decide (x.1 = k)) as [Hx|Hx].
      * rewrite (decide_False (P := x.1 <> k)) by tauto. simpl. by rewrite IH.
      * rewrite (decide_True (P := x.1 <> k)) by done. by rewrite <- Permutation_middle, IH.
    + intros x [Hx Hin]%list_elem_of_filter. specialize (Hl _ Hin). set_solver.
    + intros n Hn. rewrite (Hg n) by (by right). unfold own.
      assert (n <> k) by (by intros ->). clear -H.
      induction l as [|x l IH]; [done|]. rewrite !filter_cons.
      destruct (decide (x.1 <> k)) as [Hx|Hx].
      * rewrite filter_cons. by case_decide; simpl; rewrite IH.
      * rewrite (decide_False (P := x.1 = n)); [done|]. intros Hn. apply Hx. congruence.
Qed.

Lemma bt_from_list_id {V} (l : list (string * V)) : bt_wf l -> bt_from_list l = l.
Proof.
  intros Hwf. apply bt_ext; auto using bt_from_list_wf. intros k v.
  apply elem_of_bt_from_list. by apply bs_wf_nodup.
Qed.

Lemma filter_none {A} (P : A -> Prop) `{HP : !forall x, Decision (P x)} l :
  Forall (fun x => ~ P x) l -> filter P l = [].
Proof. induction 1 as [|x l Hx _ IH]; [done|]. by rewrite filter_cons_False. Qed.

Lemma filter_all {A} (P : A -> Prop) `{HP : !forall x, Decision (P x)} l :
  Forall P l -> filter P l = l.
Proof. induction 1 as [|x l Hx _ IH]; [done|]. by rewrite filter_cons_True, IH. Qed.

Lemma concat_map_perm {A B} (f : A -> list B) l k :
  l ≡ₚ k -> concat (map f l) ≡ₚ concat (map f k).
Proof. intros Hp. rewrite <- !flat_map_concat_map. by apply Permutation_flat_map. Qed.

(** ** The written document, resolved *)

Section round_trip.
Context `{YamlValue} (catalog : CatalogSnapshot) (sm : OsiSemanticModel) (base : Imported).
Context (rels : list (string * Relationship)) (mets : list (string * Metric)).
Context (Hres : resolved catalog sm base rels mets).

Definition canonical_model (n : string) (e : ImportedModel) : Model :=
  normalize_model (linked_model base rels mets n (ImportedModel.model e)).

(** The columns of a model in canonical order. *)
Definition relisted (n : string) (e : ImportedModel) : list Field :=
  direct_fields (Model.fields (canonical_model n e)).

Definition reentry (n : string) (e : ImportedModel) : ImportedModel :=
  set_model (set_fields (relisted n e) (ImportedModel.model e)) e.

Definition rebase : Imported := map (fun '(n, e) => (n, reentry n e)) base.

Definition regrouped {A} (le : relation A) `{!RelDecision le} (l : list (string * A))
    : list (string * A) :=
  concat (map (fun n => map (pair n) (sort_by le (own n l))) base.*1).

Definition rels' := regrouped relationship_le rels.
Definition mets' := regrouped metric_le mets.

Lemma base_nodup : NoDup base.*1.
Proof using Hres. apply bs_wf_nodup. by eapply resolved_wf. Qed.

Lemma regrouped_perm {A} (le : relation A) `{!RelDecision le} (l : list (string * A)) :
  (forall x, x ∈ l -> x.1 ∈ base.*1) -> regrouped le l ≡ₚ l.
Proof using Hres.
  intros Hl. apply own_regroup; [exact base_nodup|done|]. intros n _. apply sort_by_perm.
Qed.

Lemma bound n e : bt_get n base = Some e -> n ∈ base.*1.
Proof. intros He. apply bt_get_is_some. by rewrite He. Qed.

Lemma rels'_perm : rels' ≡ₚ rels.
Proof using Hres.
  apply regrouped_perm. intros [n r] Hin.
  destruct (rel_linked _ _ _ _ _ Hres _ _ Hin) as (o & _ & <- & Hok).
  destruct (lk_source _ _ _ Hok) as (e & nf & He & _). by eapply bound.
Qed.

Lemma mets'_perm : mets' ≡ₚ mets.
Proof using Hres.
  apply regrouped_perm. intros [n d] Hin.
  destruct (metric_measured _ _ _ _ _ Hres _ Hin) as (o & _ & Hok).
  destruct (ms_field _ _ _ Hok) as (e & f & He & _). by eapply bound.
Qed.

Lemma rebase_get n : bt_get n rebase = reentry n <$> bt_get n base.
Proof. apply (bt_get_map reentry). Qed.

Lemma rebase_wf : bt_wf rebase.
Proof using Hres.
  unfold bt_wf, rebase. rewrite (bt_keys_map reentry). by eapply resolved_wf.
Qed.

(** *** Datasets *)

Lemma relisted_perm n e : bt_get n base = Some e ->
  relisted n e ≡ₚ Model.fields (ImportedModel.model e).
Proof using Hres.
  intros He. unfold relisted, direct_fields, canonical_model. simpl. rewrite sort_by_perm.
  unfold linked_fields. rewrite filter_app.
  assert (filter (fun f => Field.relationship f = None)
            (concat (map (projection_of base) (own n rels))) = []) as ->.
  { apply filter_none, Forall_forall. intros f Hf Hn.
    apply list_elem_of_In, in_concat in Hf as (l & Hl & Hf).
    apply list_elem_of_In, list_elem_of_fmap in Hl as (r & -> & _). unfold projection_of in Hf.
    destruct (bt_get (Relationship.target_model r) base) as [te|]; [|done].
    apply list_elem_of_In, list_elem_of_fmap in Hf as ([name i] & -> & _). done. }
  rewrite app_nil_r.
  assert (filter (fun f => Field.relationship f = None) (Model.fields (ImportedModel.model e))
          = Model.fields (ImportedModel.model e)) as ->; [|done].
  apply filter_all, Forall_forall. intros f Hf.
  destruct (direct_field _ _ _ _ _ Hres _ _ _ He Hf) as (? & ? & ? & ? & _ & _ & Hc). apply Hc.
Qed.

Lemma relation_backed_perm index schema name relation fs fs' :
  fs' ≡ₚ fs -> relation_backed index schema name relation fs ->
  relation_backed index schema name relation fs'.
Proof.
  intros Hp [Hr Hg Hl Hf Hd Hk]. split; try done.
  - by rewrite Hp.
  - change (NoDup (Field.semantic_name <$> fs')). by rewrite Hp.
  - eapply Forall_impl; [exact Hk|]. intros k Hin.
    change (k ∈ Field.column <$> fs'). by rewrite Hp.
Qed.

Lemma reentry_shape n schema name relation fs :
  relation_backed (relation_index catalog) schema name relation fs ->
  bt_get n base = Some (dataset_entry n schema name relation fs) ->
  reentry n (dataset_entry n schema name relation fs)
  = dataset_entry n schema name relation (relisted n (dataset_entry n schema name relation fs)).
Proof using Hres.
  intros Hb He. pose proof (relisted_perm _ _ He) as Hp. simpl in Hp.
  unfold reentry, set_model, set_fields, dataset_entry. simpl. f_equal.
  apply bt_from_list_nodup_ext.
  - rewrite named_fields_keys. apply Hb.
  - unfold named_fields. by apply (Permutation_map _), Permutation_sym.
Qed.

Lemma key_columns_eq key columns fs :
  Forall (column_backed key columns) fs -> length key <= 1 ->
  Forall (fun k => k ∈ map Field.column fs) key -> bs_from_list (key_columns fs) = key.
Proof.
  intros Hf Hl Hk. rewrite Forall_forall in Hf. rewrite Forall_forall in Hk. apply bs_ext; [apply bs_from_list_wf|..].
  - destruct key as [|k [|]]; simpl in Hl; [constructor|repeat constructor|lia].
  - intros k. rewrite elem_of_bs_from_list. unfold key_columns. rewrite list_elem_of_fmap. split.
    + intros (f & -> & [Hkey Hin]%list_elem_of_filter).
      rewrite (cb_key _ _ _ (Hf _ Hin)) in Hkey. by apply bool_decide_eq_true in Hkey.
    + intros Hin. specialize (Hk _ Hin). apply list_elem_of_fmap in Hk as (f & -> & Hfin).
      exists f. split; [done|]. apply list_elem_of_filter. split; [|done].
      rewrite (cb_key _ _ _ (Hf _ Hfin)). by apply bool_decide_eq_true.
Qed.

Lemma exported_fields_described key columns fs :
  Forall (column_backed key columns) fs -> Forall2 describes_field (map exported_field fs) fs.
Proof.
  induction 1 as [|f fs Hf _ IH]; simpl; constructor; [|done]. split; simpl; try done.
  exists (Field.column f). split; [done|]. apply trim_word, Hf.
Qed.

Lemma exported_dataset_imported n e : bt_get n base = Some e ->
  OsiDataset.name (exported_dataset (canonical_model n e)) = n
  /\ dataset_imported (Catalog.current_database catalog) (relation_index catalog)
       (exported_dataset (canonical_model n e)) (reentry n e).
Proof using Hres.
  intros He. pose proof (relisted_perm _ _ He) as Hp.
  pose proof (entry_shape _ _ _ _ _ Hres _ _ He)
    as (schema & name & relation & fs & -> & Hn & Hs & Hr & Hb).
  pose proof (relation_backed_perm _ _ _ _ _ _ Hp Hb) as Hb'.
  split; [done|]. split; simpl; try done.
  exists schema, name, relation, (relisted n (dataset_entry n schema name relation fs)).
  split_and!; try done.
  - by apply parse_source_text.
  - right. exact (key_columns_eq _ _ _ (rb_fields _ _ _ _ _ Hb') (rb_single_key _ _ _ _ _ Hb')
                    (rb_key _ _ _ _ _ Hb')).
  - exact (exported_fields_described _ _ _ (rb_fields _ _ _ _ _ Hb')).
  - by apply reentry_shape.
Qed.

(** *** Relationships and metrics *)

Lemma link_ok_rebase n r : (n, r) ∈ rels -> link_ok rebase (exported_relationship n r) r.
Proof using Hres.
  intros Hin. destruct (rel_linked _ _ _ _ _ Hres _ _ Hin) as (o & _ & <- & Hok).
  destruct Hok as [Hp _ _ _ _ _ Hc Hj (te & tn & tf & Hte & Htgt & Hfind & Hk)
                     (fe & nf & Hfe & Hff & Hfk)].
  split; try done.
  - exists (reentry (Relationship.target_model r) te), tn, tf.
    split_and!; [by rewrite rebase_get, Hte|done..].
  - exists (reentry (OsiRelationship.from o) fe), nf. split_and!; [|done..].
    simpl. by rewrite rebase_get, Hfe.
Qed.

Lemma measure_ok_rebase n d : (n, d) ∈ mets -> measure_ok rebase (exported_metric n d) (n, d).
Proof using Hres.
  intros Hin. destruct (metric_measured _ _ _ _ _ Hres _ Hin) as (o & _ & Hok).
  destruct Hok as [Hp _ _ (text & _ & Hparse) (e & f & He & Hf) Hs]. cbn [fst snd] in *.
  split; try done.
  - eexists. split; [done|]. by eapply parsed_metric_reads.
  - exists (reentry n e), f. cbn [fst snd]. by rewrite rebase_get, He.
Qed.

Lemma projection_rebase r : projection_of rebase r = projection_of base r.
Proof.
  unfold projection_of. rewrite rebase_get. by destruct (bt_get (Relationship.target_model r) base).
Qed.

Lemma linked_fields_rebase n e : bt_get n base = Some e ->
  linked_fields rebase rels' n (ImportedModel.model (reentry n e))
  ≡ₚ linked_fields base rels n (ImportedModel.model e).
Proof using Hres.
  intros He. unfold linked_fields. simpl. rewrite (relisted_perm _ _ He). apply Permutation_app_head.
  rewrite (map_ext _ _ projection_rebase). apply concat_map_perm. by rewrite rels'_perm.
Qed.

Lemma links_distinct_rebase : links_distinct rebase rels'.
Proof using Hres.
  intros n e' He. rewrite rebase_get in He. destruct (bt_get n base) as [e|] eqn:He'; [|done].
  injection He as <-. change (NoDup (Field.semantic_name <$>
    linked_fields rebase rels' n (ImportedModel.model (reentry n e)))).
  rewrite linked_fields_rebase by done. by apply (rs_distinct _ _ _ _ _ Hres).
Qed.

(** *** The whole document *)

Definition canonical_models : list Model := map (fun '(n, e) => canonical_model n e) base.

Lemma canonical_models_eq :
  canonical_models = map normalize_model (models_of (linked base rels mets)).
Proof.
  change (map (fun '(n, e) => canonical_model n e) base
          = map normalize_model (map ImportedModel.model
              (map snd (map (fun '(n, e) => (n, linked_entry base rels mets n e)) base)))).
  rewrite !map_map. apply map_ext. by intros [].
Qed.

Lemma base_elem n e : (n, e) ∈ base -> bt_get n base = Some e.
Proof using Hres. apply bt_elem_get. by eapply resolved_wf. Qed.

Lemma map_elem_ext {A B} (f g : A -> B) l : (forall x, x ∈ l -> f x = g x) -> map f l = map g l.
Proof. intros Hfg. apply map_ext_in. intros x Hx%list_elem_of_In. auto. Qed.

Lemma canonical_names : map Model.semantic_name canonical_models = base.*1.
Proof using Hres.
  change (map Model.semantic_name (map (fun '(n, e) => canonical_model n e) base) = map fst base).
  rewrite map_map. apply map_elem_ext. intros [n e] Hin%base_elem.
  by destruct (exported_dataset_imported _ _ Hin) as [? _].
Qed.

Lemma exported_groups {A B} (f : Model -> list A) (g : string -> A -> B) (le : relation A)
    `{!RelDecision le} (l : list (string * A)) :
  (forall n e, bt_get n base = Some e -> f (canonical_model n e) = sort_by le (own n l)) ->
  concat (map (fun m => map (g (Model.semantic_name m)) (f m)) canonical_models)
  = map (fun '(n, a) => g n a) (regrouped le l).
Proof using Hres.
  intros Hf. unfold regrouped. rewrite concat_map, map_map.
  change base.*1 with (map fst base). unfold canonical_models. rewrite !map_map. f_equal.
  apply map_elem_ext. intros [n e] Hin%base_elem. simpl. rewrite map_map.
  destruct (exported_dataset_imported _ _ Hin) as [Hn _]. simpl in Hn.
  rewrite Hf by done. unfold canonical_model. simpl. by rewrite Hn.
Qed.

Lemma exported_relationships_eq :
  concat (map exported_relationships canonical_models)
  = map (fun '(n, r) => exported_relationship n r) rels'.
Proof using Hres.
  apply (exported_groups Model.relationships exported_relationship). intros n e He.
  unfold canonical_model. simpl. by rewrite (br_relationships _ (resolved_bare _ _ _ _ _ _ _ Hres He)).
Qed.

Lemma exported_metrics_eq :
  concat (map exported_metrics canonical_models) = map (fun '(n, d) => exported_metric n d) mets'.
Proof using Hres.
  apply (exported_groups Model.metrics exported_metric). intros n e He.
  unfold canonical_model. simpl. by rewrite (br_metrics _ (resolved_bare _ _ _ _ _ _ _ Hres He)).
Qed.

Lemma Forall2_map_both {A B C} (P : B -> C -> Prop) (f : A -> B) (g : A -> C) l :
  (forall x, x ∈ l -> P (f x) (g x)) -> Forall2 P (map f l) (map g l).
Proof.
  induction l as [|x l IH]; intros HP; simpl; constructor; [apply HP; left|].
  apply IH. intros y Hy. apply HP. by right.
Qed.

Lemma zip_split {A B} (l : list (A * B)) : zip (map fst l) (map snd l) = l.
Proof. induction l as [|[a b] l IH]; simpl; [done|]. by f_equal. Qed.

Lemma exported_resolved name :
  resolved catalog (exported_model name canonical_models) rebase rels' mets'.
Proof using Hres.
  assert (Hnames : map OsiDataset.name (map exported_dataset canonical_models) = base.*1)
    by (rewrite map_map; exact canonical_names).
  split; simpl.
  - exists (map (fun '(n, e) => reentry n e) base). split.
    + unfold canonical_models. rewrite map_map. apply Forall2_map_both.
      intros [n e] Hin%base_elem. by destruct (exported_dataset_imported _ _ Hin).
    + rewrite Hnames. transitivity (bt_from_list rebase);
        [symmetry; apply bt_from_list_id, rebase_wf|]. f_equal.
      unfold rebase. rewrite <- (zip_split (map _ base)), !map_map. change base.*1 with (map fst base).
      f_equal; apply map_ext; by intros [].
  - rewrite Hnames. exact base_nodup.
  - exists (map snd rels'). rewrite exported_relationships_eq. split.
    + apply Forall2_map_both. intros [n r] Hin. apply link_ok_rebase. by rewrite <- rels'_perm.
    + unfold attributed. rewrite map_map. rewrite <- (zip_split rels') at 1. f_equal.
      apply map_ext. by intros [].
  - rewrite exported_relationships_eq, map_map.
    rewrite (map_ext _ (fun x => Relationship.semantic_name x.2)) by (by intros []).
    rewrite <- map_map. change (NoDup (Relationship.semantic_name <$> (snd <$> rels'))).
    rewrite rels'_perm. exact (rel_names_distinct _ _ _ _ _ Hres).
  - exact links_distinct_rebase.
  - rewrite exported_metrics_eq. rewrite <- (map_id mets') at 2. apply Forall2_map_both.
    intros [n d] Hin. apply measure_ok_rebase. by rewrite <- mets'_perm.
  - rewrite exported_metrics_eq, map_map.
    rewrite (map_ext _ (fun x => Metric.semantic_name x.2)) by (by intros []).
    rewrite <- map_map. change (NoDup (Metric.semantic_name <$> (snd <$> mets'))).
    rewrite mets'_perm. pose proof (rs_metric_names _ _ _ _ _ Hres) as Hn.
    by rewrite (measure_names _ _ _ (rs_metrics _ _ _ _ _ Hres)) in Hn.
Qed.

(** The models of both are the same up to order. *)
Lemma rebase_equiv :
  snapshot_equiv (raw_snapshot (models_of (linked base rels mets)))
                 (raw_snapshot (models_of (linked rebase rels' mets'))).
Proof using Hres.
  split; [done|]. eexists. split; [reflexivity|]. simpl.
  change (Forall2 model_equiv
    (map ImportedModel.model (map snd (map (fun '(n, e) => (n, linked_entry base rels mets n e)) base)))
    (map ImportedModel.model (map snd (map (fun '(n, e) => (n, linked_entry rebase rels' mets' n e))
       (map (fun '(n, e) => (n, reentry n e)) base))))).
  rewrite !map_map. apply Forall2_map_both. intros [n e] Hin%base_elem.
  split; simpl; try done.
  - pose proof Hin as (? & ? & ? & ? & -> & _)%(entry_shape _ _ _ _ _ Hres). constructor.
  - symmetry. by apply linked_fields_rebase.
  - by rewrite mets'_perm.
  - by rewrite rels'_perm.
Qed.

Lemma canonical_exportable : Forall exportable canonical_models.
Proof using Hres.
  apply Forall_forall. intros m Hm. apply list_elem_of_fmap in Hm as ([n e] & -> & Hin%base_elem).
  pose proof (resolved_bare _ _ _ _ _ _ _ Hres Hin) as [Hbr Hbm _].
  pose proof (entry_shape _ _ _ _ _ Hres _ _ Hin) as (schema & name & relation & fs & -> & _).
  split; simpl; try done; apply Forall_forall; intros x Hx%elem_of_sort_by.
  - by eapply linked_visible.
  - apply elem_of_own, (rel_linked _ _ _ _ _ Hres) in Hx as (o & _ & _ & Hok).
    split; apply Hok.
  - apply elem_of_own, (metric_measured _ _ _ _ _ Hres) in Hx as (o & _ & Hok).
    destruct (ms_simple _ _ _ Hok) as (? & ? & ? & ?). done.
Qed.
End round_trip.

(** * Imports, and snapshots that were saved ([osi.rs])

    [import] as a whole, and its inverse: a saved snapshot, which may not state
    nullability, is exported to a document that gives the import back. *)

(** ** Imports *)

Record import_of `{Crates, OsiYaml} (catalog : CatalogSnapshot) (sm : OsiSemanticModel)
    (base : Imported) (rels : list (string * Relationship)) (mets : list (string * Metric))
    (report : OsiImportReport) : Prop := {
  io_catalog : validated_normalized catalog = Ok (normalize catalog);
  io_name : portable_identifier (OsiSemanticModel.name sm) = true
    /\ OsiImportReport.semantic_model report = OsiSemanticModel.name sm;
  io_resolved : resolved (normalize catalog) sm base rels mets;
  io_snapshot : imported_snapshot (models_of (linked base rels mets))
    = Ok (OsiImportReport.snapshot report);
}.

Lemma import_osi_ok `{Crates, OsiYaml} input catalog selected report :
  import_osi input catalog selected = Ok report ->
  exists document sm base rels mets, document_from_slice input = Ok document
    /\ sm ∈ OsiDocument.semantic_model document
    /\ (forall name, selected = Some name -> OsiSemanticModel.name sm = name)
    /\ import_of catalog sm base rels mets report.
Proof.
  unfold import_osi. intros Hi. apply bind_ok in Hi as (document & Hd%map_err_ok & Hi).
  apply bind_ok in Hi as (? & _ & Hi). apply bind_ok in Hi as (? & _ & Hi).
  apply bind_ok in Hi as (sm & Hsel & Hi).
  apply bind_ok in Hi as (? & Hp%validate_identifier_ok & Hi). apply bind_ok in Hi as (? & _ & Hi).
  apply bind_ok in Hi as (c & Hc%map_err_ok & Hi).
  pose proof Hc as (_ & _ & ->)%validated_normalized_ok.
  apply bind_ok in Hi as ([imported w] & Him & Hi).
  apply bind_ok in Hi as (snapshot & Hs & [= <-]).
  apply import_models_ok in Him as (base & rels & mets & Hres & ->).
  exists document, sm, base, rels, mets. split_and!; [done|..|by split].
  - unfold select_semantic_model in Hsel. destruct selected as [name|].
    + apply ok_or_ok, List.find_some in Hsel as [Hin _]. by apply list_elem_of_In.
    + destruct (OsiDocument.semantic_model document) as [|m [|]]; simplify_eq. left.
  - intros name ->. simpl in Hsel. apply ok_or_ok, List.find_some in Hsel as [_ Hn].
    by apply bool_decide_eq_true in Hn.
Qed.

Lemma imported_snapshot_ok `{Crates} models snapshot :
  imported_snapshot models = Ok snapshot <->
  exists hash, calculate_revision_hash (normalized (raw_snapshot models)) = Ok hash
    /\ snapshot = {| Snapshot.schema_version := "1"; Snapshot.revision_hash := hash;
                     Snapshot.models := Snapshot.models (normalized (raw_snapshot models)) |}.
Proof.
  unfold imported_snapshot. rewrite bind_ok. setoid_rewrite map_err_ok. split.
  - intros (hash & Hh & [= <-]). by exists hash.
  - intros (hash & Hh & ->). by exists hash.
Qed.

(** Equal content gives the same snapshot. *)
Lemma imported_snapshot_equiv `{Crates} models models' :
  snapshot_distinct (raw_snapshot models) ->
  snapshot_equiv (raw_snapshot models) (raw_snapshot models') ->
  imported_snapshot models = imported_snapshot models'.
Proof.
  intros Hd He. pose proof (normalized_equiv _ _ Hd He) as Hn. unfold imported_snapshot.
  fold (raw_snapshot models) (raw_snapshot models').
  assert (normalized (raw_snapshot models) = normalized (raw_snapshot models')) as ->; [|done].
  unfold clear_revision_hash, normalized in *. simpl in *. by injection Hn as ->.
Qed.

Section imported.
Context `{Crates, OsiYaml} (catalog : CatalogSnapshot) (sm : OsiSemanticModel) (base : Imported).
Context (rels : list (string * Relationship)) (mets : list (string * Metric)).
Context (report : OsiImportReport) (Himp : import_of catalog sm base rels mets report).

Lemma import_version : Snapshot.schema_version (OsiImportReport.snapshot report) = "1".
Proof using Himp.
  pose proof (io_snapshot _ _ _ _ _ _ Himp) as Hs.
  apply imported_snapshot_ok in Hs as (hash & _ & ->). done.
Qed.

Lemma import_models_eq :
  Snapshot.models (OsiImportReport.snapshot report)
  = map normalize_model (models_of (linked base rels mets)).
Proof using Himp.
  pose proof (io_snapshot _ _ _ _ _ _ Himp) as Hs.
  apply imported_snapshot_ok in Hs as (hash & _ & ->). simpl.
  by rewrite (models_sorted _ _ _ _ _ (io_resolved _ _ _ _ _ _ Himp)).
Qed.

Lemma import_normalized :
  normalized (OsiImportReport.snapshot report) = OsiImportReport.snapshot report.
Proof using Himp.
  pose proof (io_snapshot _ _ _ _ _ _ Himp) as Hs.
  apply imported_snapshot_ok in Hs as (hash & _ & ->).
  pose proof (normalized_idemp (raw_snapshot (models_of (linked base rels mets)))) as Hi.
  unfold normalized in *. simpl in *. by injection Hi as ->.
Qed.

Lemma import_sealed :
  calculate_revision_hash (OsiImportReport.snapshot report)
  = Ok (Snapshot.revision_hash (OsiImportReport.snapshot report)).
Proof using Himp.
  pose proof import_normalized as Hn. pose proof (io_snapshot _ _ _ _ _ _ Himp) as Hs.
  apply imported_snapshot_ok in Hs as (hash & Hh & Hs).
  rewrite Hs at 2. simpl. rewrite <- Hh. rewrite Hs. reflexivity.
Qed.

Lemma import_distinct : snapshot_distinct (OsiImportReport.snapshot report).
Proof using Himp.
  pose proof (raw_distinct _ _ _ _ _ (io_resolved _ _ _ _ _ _ Himp)) as [Hn Hm].
  split; rewrite import_models_eq.
  - rewrite map_map. exact Hn.
  - simpl in Hm. apply Forall_fmap. eapply Forall_impl; [exact Hm|]. intros m [Hf Hd Hr Hw].
    split; simpl.
    + change (NoDup (Field.semantic_name <$> sort_by field_le (Model.fields m))).
      by rewrite sort_by_perm.
    + change (NoDup (Metric.semantic_name <$> sort_by metric_le (Model.metrics m))).
      by rewrite sort_by_perm.
    + change (NoDup (Relationship.semantic_name <$> sort_by relationship_le (Model.relationships m))).
      by rewrite sort_by_perm.
    + intros w. destruct (Model.writable m) as [w'|]; [|done]. intros [= <-].
      specialize (Hw w' eq_refl). unfold writable_distinct in *. simpl.
      change (NoDup (WritableField.field <$> sort_by writable_field_le (WritableModel.fields w'))).
      by rewrite sort_by_perm.
Qed.
End imported.

(** ** Saved snapshots *)

(** The saved model is the model, but for the nullability of omitted fields. *)
Record saved_model (omitted : list (string * string)) (saved m : Model) : Prop := {
  sd_fields : Forall2 (fun f' f => forget_nullable f' = forget_nullable f
    /\ (Field.nullable f' = Field.nullable f
        \/ (Model.semantic_name m, Field.semantic_name f) ∈ omitted))
    (Model.fields saved) (Model.fields m);
  sd_rest : set_fields (Model.fields m) saved = m;
}.

Record saved_as (omitted : list (string * string)) (saved s : SemanticSnapshot) : Prop := {
  sa_version : Snapshot.schema_version saved = Snapshot.schema_version s;
  sa_hash : Snapshot.revision_hash saved = Snapshot.revision_hash s;
  sa_models : Forall2 (saved_model omitted) (Snapshot.models saved) (Snapshot.models s);
}.

Lemma saved_refl omitted s : saved_as omitted s s.
Proof.
  split; [done..|]. induction (Snapshot.models s) as [|m ms IH]; constructor; [|done].
  split; [|by destruct m]. induction (Model.fields m); constructor; [by split; [|left]|done].
Qed.

Lemma saved_name omitted saved m : saved_model omitted saved m ->
  Model.semantic_name saved = Model.semantic_name m /\ model_keys saved = model_keys m.
Proof. intros Hs. rewrite <- (sd_rest _ _ _ Hs). done. Qed.

Lemma saved_field_names omitted saved m : saved_model omitted saved m ->
  map Field.semantic_name (Model.fields saved) = map Field.semantic_name (Model.fields m).
Proof.
  intros Hs. pose proof (sd_fields _ _ _ Hs) as Hf. clear Hs.
  induction Hf as [|f' f fs' fs [Heq _] _ IH]; simpl; [done|]. f_equal; [|done].
  by apply (f_equal Field.semantic_name) in Heq.
Qed.

Lemma saved_forget omitted saved m : saved_model omitted saved m ->
  forget_nullable_model saved = forget_nullable_model m.
Proof.
  intros Hs.
  assert (Hfs : map forget_nullable (Model.fields saved) = map forget_nullable (Model.fields m)).
  { pose proof (sd_fields _ _ _ Hs) as Hf. clear Hs.
    induction Hf as [|f' f fs' fs [Heq _] _ IH]; simpl; [done|]. by f_equal. }
  pose proof (sd_rest _ _ _ Hs) as Hr. unfold forget_nullable_model. rewrite Hfs.
  clear Hs. destruct saved, m. unfold set_fields in Hr. simpl in *.
  injection Hr as -> -> -> -> -> -> ->. done.
Qed.

(** Sorting by a key looks at nothing else. *)
Lemma sorted_by_key {A B K} `{!EqDecision K, !Ordered K} (key : A -> K) (key' : B -> K)
    (R : relation A) (S : relation B) `{!RelDecision R} (l : list A) (k : list B) :
  (forall x y, R x y <-> kle (key x) (key y)) -> (forall x y, S x y <-> kle (key' x) (key' y)) ->
  map key l = map key' k -> StronglySorted S k -> sort_by R l = l.
Proof.
  intros HR HS Heq Hs. apply sort_by_id. revert l Heq.
  induction Hs as [|y k _ IH Hy]; intros [|x l] Heq; try done; [constructor|].
  injection Heq as Hx Hl. constructor; [auto|]. clear IH. revert l Hl.
  induction Hy as [|z k Hz _ IH]; intros [|w l] Hl; try done.
  injection Hl as Hw Hl. constructor; [|auto]. apply HR. rewrite Hx, Hw. by apply HS.
Qed.

Lemma saved_model_canonical omitted saved m : saved_model omitted saved m ->
  normalize_model m = m -> normalize_model saved = saved.
Proof.
  intros Hs Hm. pose proof (sd_rest _ _ _ Hs) as Hr. unfold normalize_model.
  assert (sort_by field_le (Model.fields saved) = Model.fields saved) as ->.
  { apply (sorted_by_key Field.semantic_name Field.semantic_name field_le field_le
             (Model.fields saved) (Model.fields m)); [done|done|by eapply saved_field_names|].
    rewrite <- Hm. simpl. apply sort_by_sorted; apply _. }
  pose proof (f_equal Model.metrics Hm) as H1. pose proof (f_equal Model.relationships Hm) as H2.
  pose proof (f_equal Model.writable Hm) as H3. simpl in H1, H2, H3.
  rewrite <- Hr in H1, H2, H3. simpl in H1, H2, H3. rewrite H1, H2, H3. by destruct saved.
Qed.

Lemma map_same_inv {A} (f : A -> A) l x : map f l = l -> (forall y, f (f y) = f y) -> x ∈ l -> f x = x.
Proof.
  intros Hl Hf Hin. rewrite <- Hl in Hin. apply list_elem_of_fmap in Hin as (y & -> & _). apply Hf.
Qed.

Lemma saved_canonical omitted saved s :
  saved_as omitted saved s -> normalized s = s ->
  StronglySorted klt (map Model.semantic_name (Snapshot.models s)) ->
  Forall (fun m => normalize_model m = m) (Snapshot.models s) ->
  normalized saved = saved.
Proof.
  intros Hs _ Hsort Hcanon. pose proof (sa_models _ _ _ Hs) as Hms.
  assert (Hnames : map Model.semantic_name (Snapshot.models saved)
                   = map Model.semantic_name (Snapshot.models s)).
  { clear -Hms. induction Hms as [|m' m ms' ms Hm _ IH]; simpl; [done|].
    f_equal; [by apply (saved_name _ _ _ Hm)|done]. }
  unfold normalized. rewrite (sort_by_id model_le) by (apply sorted_names; by rewrite Hnames).
  assert (map normalize_model (Snapshot.models saved) = Snapshot.models saved) as ->;
    [|by destruct saved].
  clear -Hms Hcanon. induction Hms as [|m' m ms' ms Hm _ IH]; simpl; [done|].
  inversion_clear Hcanon. f_equal; [by eapply saved_model_canonical|auto].
Qed.

Lemma saved_hash `{Crates} omitted saved s :
  saved_as omitted saved s -> normalized saved = saved -> normalized s = s ->
  calculate_revision_hash saved = calculate_revision_hash s.
Proof.
  intros Hs H1 H2. unfold calculate_revision_hash. rewrite H1, H2.
  assert (Snapshot.to_json (clear_revision_hash saved) = Snapshot.to_json (clear_revision_hash s))
    as ->; [|done].
  unfold Snapshot.to_json. simpl. rewrite (sa_version _ _ _ Hs).
  assert (map Model.to_json (Snapshot.models saved) = map Model.to_json (Snapshot.models s)) as ->;
    [|done].
  pose proof (sa_models _ _ _ Hs) as Hms. clear -Hms.
  induction Hms as [|m' m ms' ms Hm _ IH]; simpl; [done|]. f_equal; [|done].
  by rewrite <- (model_json_forget m'), (saved_forget _ _ _ Hm), model_json_forget.
Qed.

(** ** Nullability from the reimported models *)

Lemma set_nullable_forget f' f :
  forget_nullable f' = forget_nullable f -> set_nullable (Field.nullable f) f' = f.
Proof.
  intros Hf. destruct f', f. unfold forget_nullable, set_nullable in *. simpl in *.
  by injection Hf as -> -> -> -> -> -> ->.
Qed.

Lemma forget_same f' f :
  forget_nullable f' = forget_nullable f -> Field.nullable f' = Field.nullable f -> f' = f.
Proof.
  intros Hf Hn. rewrite <- (set_nullable_forget _ _ Hf), <- Hn. by destruct f'.
Qed.

Lemma resolve_model_saved omitted saved m ms :
  NoDup (map Model.semantic_name ms) -> m ∈ ms -> NoDup (map Field.semantic_name (Model.fields m)) ->
  saved_model omitted saved m -> resolve_model omitted ms saved = Ok m.
Proof.
  intros Hnd Hin Hfn Hs. unfold resolve_model. rewrite (proj1 (saved_name _ _ _ Hs)).
  assert (Hfields : Forall2 (fun f' f => resolve_nullable omitted ms (Model.semantic_name m) f' = Ok f)
                      (Model.fields saved) (Model.fields m)).
  { pose proof (sd_fields _ _ _ Hs) as Hf. apply Forall2_same_length_lookup_2;
      [by eapply Forall2_length|].
    intros i f' f H1 H2. pose proof (Forall2_lookup_lr _ _ _ _ _ _ Hf H1 H2) as [Heq Hn].
    assert (Hname : Field.semantic_name f' = Field.semantic_name f)
      by (by apply (f_equal Field.semantic_name) in Heq).
    unfold resolve_nullable. rewrite Hname. case_bool_decide as Ho.
    - unfold reimported_nullable. rewrite (find_named Model.semantic_name ms m) by done.
      cbn [mbind option_bind]. rewrite (find_named Field.semantic_name _ f Hfn)
        by (by eapply list_elem_of_lookup_2). cbn. by rewrite set_nullable_forget.
    - f_equal. destruct Hn; [|done]. by apply forget_same. }
  rewrite (proj2 (try_map_ok _ _ _) Hfields). cbn [mbind result_bind].
  f_equal. apply Hs.
Qed.

Lemma resolve_models_saved omitted saved s :
  snapshot_distinct s -> saved_as omitted saved s ->
  try_map (resolve_model omitted (Snapshot.models s)) (Snapshot.models saved)
  = Ok (Snapshot.models s).
Proof.
  intros [Hn Hd] Hs. apply try_map_ok. pose proof (sa_models _ _ _ Hs) as Hms.
  apply Forall2_same_length_lookup_2; [by eapply Forall2_length|]. intros i m' m H1 H2.
  pose proof (Forall2_lookup_lr _ _ _ _ _ _ Hms H1 H2) as Hm.
  rewrite Forall_forall in Hd. assert (m ∈ Snapshot.models s) by (by eapply list_elem_of_lookup_2).
  apply resolve_model_saved; [done..| |done]. by apply (distinct_fields _ (Hd m H)).
Qed.

(** ** The document of a saved snapshot *)

(** Nullability is not written. *)
Section written.
Context `{YamlValue}.

Lemma exported_field_forget f' f :
  forget_nullable f' = forget_nullable f -> exported_field f' = exported_field f.
Proof.
  intros Hf. destruct f', f. unfold forget_nullable, exported_field in *. simpl in *.
  by injection Hf as -> -> -> -> -> -> ->.
Qed.

Lemma saved_direct_fields omitted saved m : saved_model omitted saved m ->
  map exported_field (direct_fields (Model.fields saved))
    = map exported_field (direct_fields (Model.fields m))
  /\ key_columns (direct_fields (Model.fields saved)) = key_columns (direct_fields (Model.fields m)).
Proof.
  intros Hs. pose proof (sd_fields _ _ _ Hs) as Hf. clear Hs. unfold direct_fields.
  induction Hf as [|f' f fs' fs [Heq _] _ [IH1 IH2]]; [done|]. rewrite !filter_cons.
  pose proof (f_equal Field.relationship Heq) as Hr. simpl in Hr. rewrite Hr.
  destruct (decide (Field.relationship f = None)); [|done]. unfold key_columns in *.
  rewrite !filter_cons. pose proof (f_equal Field.entity_key Heq) as Hk.
  pose proof (f_equal Field.column Heq) as Hc. simpl in Hk, Hc. rewrite Hk. simpl.
  rewrite (exported_field_forget _ _ Heq), IH1. split; [done|].
  destruct (decide (Field.entity_key f = true)); simpl; [|done]. by rewrite Hc, IH2.
Qed.

Lemma saved_exported omitted saved m : saved_model omitted saved m ->
  exported_dataset saved = exported_dataset m
  /\ exported_relationships saved = exported_relationships m
  /\ exported_metrics saved = exported_metrics m.
Proof.
  intros Hs. pose proof (sd_rest _ _ _ Hs) as Hr. destruct (saved_direct_fields _ _ _ Hs) as [H1 H2].
  unfold exported_dataset, exported_relationships, exported_metrics. rewrite H1, H2.
  destruct saved, m. unfold set_fields in Hr. simpl in *.
  injection Hr as -> -> -> -> -> -> ->. done.
Qed.

Lemma saved_exportable omitted saved m :
  saved_model omitted saved m -> exportable m -> exportable saved.
Proof.
  intros Hs [Hq Hw Hz Hf Hr Hd]. pose proof (sd_rest _ _ _ Hs) as Heq.
  pose proof (sd_fields _ _ _ Hs) as Hfs. destruct saved, m. unfold set_fields in Heq. simpl in *.
  injection Heq as -> -> -> -> -> -> ->. split; simpl; try done. clear -Hf Hfs.
  induction Hfs as [|f' f fs' fs [He _] _ IH]; [constructor|].
  apply Forall_cons in Hf as [Hv Hf]. constructor; [|auto].
  apply (f_equal Field.visible) in He. simpl in He. congruence.
Qed.

Lemma saved_exported_model omitted ms' ms name :
  Forall2 (saved_model omitted) ms' ms -> Forall exportable ms ->
  Forall exportable ms' /\ exported_model name ms' = exported_model name ms.
Proof.
  intros Hms. unfold exported_model. induction Hms as [|m' m ms' ms Hm _ IH]; intros Hex; [done|].
  inversion_clear Hex as [|?? Hm0 Hms0]. destruct (IH Hms0) as [He1 He2].
  destruct (saved_exported _ _ _ Hm) as (H1 & H2 & H3).
  split; [constructor; [by eapply saved_exportable|done]|].
  simpl. rewrite H1, H2, H3. by injection He2 as -> -> ->.
Qed.
End written.
