(* ===== verification/OsiFixtures.v ===== *)
(** * A catalog and an OSI document

    Two tables joined by a foreign key, the document that describes them, and a
    text for documents that is read back. *)

From S2P Require Import Prelude Ordered Text StrOps Json Lsq Lsm Semantic Catalog.
From S2P Require Import Fixtures Osi OsiExport OsiRoundTrip.
From stdpp Require Import countable.

(** ** A text for documents *)

#[local] Instance sample_yaml_value : YamlValue := {| YValue := unit |}.

Section encoding.

#[export] Instance dialect_countable : Countable OsiDialect.
Proof.
  refine (inj_countable'
    (fun d => match d with
              | OsiDialect.AnsiSql => 0 | OsiDialect.Snowflake => 1 | OsiDialect.Mdx => 2
              | OsiDialect.Tableau => 3 | OsiDialect.Databricks => 4 | OsiDialect.Maql => 5
              end)
    (fun n => match n with
              | 0 => OsiDialect.AnsiSql | 1 => OsiDialect.Snowflake | 2 => OsiDialect.Mdx
              | 3 => OsiDialect.Tableau | 4 => OsiDialect.Databricks | _ => OsiDialect.Maql
              end) _).
  by intros [].
Defined.

#[export] Instance extension_dec : EqDecision OsiExtension.
Proof. intros [v []] [v' []]. destruct (decide (v = v')); [left; congruence|right; congruence]. Defined.
#[export] Instance extension_countable : Countable OsiExtension.
Proof.
  refine (inj_countable' OsiExtension.vendor_name (fun v => OsiExtension.mk _ v tt) _).
  by intros [v []].
Defined.

#[export] Instance dialect_expression_dec : EqDecision OsiDialectExpression.
Proof. solve_decision. Defined.
#[export] Instance dialect_expression_countable : Countable OsiDialectExpression.
Proof.
  refine (inj_countable' (fun x => (OsiDialectExpression.dialect x, OsiDialectExpression.expression x))
            (fun '(d, e) => OsiDialectExpression.mk d e) _). by intros [].
Defined.

#[export] Instance expression_dec : EqDecision OsiExpression.
Proof. solve_decision. Defined.
#[export] Instance expression_countable : Countable OsiExpression.
Proof. refine (inj_countable' OsiExpression.dialects OsiExpression.mk _). by intros []. Defined.

#[export] Instance dimension_dec : EqDecision OsiDimension.
Proof. solve_decision. Defined.
#[export] Instance dimension_countable : Countable OsiDimension.
Proof. refine (inj_countable' OsiDimension.is_time OsiDimension.mk _). by intros []. Defined.

#[export] Instance yvalue_dec : EqDecision YValue := unit_eq_dec.
#[export] Instance yvalue_countable : Countable YValue := unit_countable.

#[export] Instance osi_field_dec : EqDecision OsiField.
Proof. solve_decision. Defined.
#[export] Instance osi_field_countable : Countable OsiField.
Proof.
  refine (inj_countable'
    (fun x => (OsiField.name x, OsiField.expression x, OsiField.dimension x, OsiField.label x,
               OsiField.description x, OsiField.ai_context x, OsiField.custom_extensions x))
    (fun '(a, b, c, d, e, f, g) => OsiField.mk _ a b c d e f g) _). by intros [].
Defined.

#[export] Instance osi_metric_dec : EqDecision OsiMetric.
Proof. solve_decision. Defined.
#[export] Instance osi_metric_countable : Countable OsiMetric.
Proof.
  refine (inj_countable'
    (fun x => (OsiMetric.name x, OsiMetric.expression x, OsiMetric.description x,
               OsiMetric.ai_context x, OsiMetric.custom_extensions x))
    (fun '(a, b, c, d, e) => OsiMetric.mk _ a b c d e) _). by intros [].
Defined.

#[export] Instance osi_relationship_dec : EqDecision OsiRelationship.
Proof. solve_decision. Defined.
#[export] Instance osi_relationship_countable : Countable OsiRelationship.
Proof.
  refine (inj_countable'
    (fun x => (OsiRelationship.name x, OsiRelationship.from x, OsiRelationship.to x,
               OsiRelationship.from_columns x, OsiRelationship.to_columns x,
               OsiRelationship.ai_context x, OsiRelationship.custom_extensions x))
    (fun '(a, b, c, d, e, f, g) => OsiRelationship.mk _ a b c d e f g) _). by intros [].
Defined.

#[export] Instance osi_dataset_dec : EqDecision OsiDataset.
Proof. solve_decision. Defined.
#[export] Instance osi_dataset_countable : Countable OsiDataset.
Proof.
  refine (inj_countable'
    (fun x => (OsiDataset.name x, OsiDataset.source x, OsiDataset.primary_key x,
               OsiDataset.unique_keys x, OsiDataset.description x, OsiDataset.ai_context x,
               OsiDataset.fields x, OsiDataset.custom_extensions x))
    (fun '(a, b, c, d, e, f, g, h) => OsiDataset.mk _ a b c d e f g h) _). by intros [].
Defined.

#[export] Instance osi_model_dec : EqDecision OsiSemanticModel.
Proof. solve_decision. Defined.
#[export] Instance osi_model_countable : Countable OsiSemanticModel.
Proof.
  refine (inj_countable'
    (fun x => (OsiSemanticModel.name x, OsiSemanticModel.description x,
               OsiSemanticModel.ai_context x, OsiSemanticModel.datasets x,
               OsiSemanticModel.relationships x, OsiSemanticModel.metrics x,
               OsiSemanticModel.custom_extensions x))
    (fun '(a, b, c, d, e, f, g) => OsiSemanticModel.mk _ a b c d e f g) _). by intros [].
Defined.

#[export] Instance osi_document_dec : EqDecision OsiDocument.
Proof. solve_decision. Defined.
#[export] Instance osi_document_countable : Countable OsiDocument.
Proof.
  refine (inj_countable' (fun x => (OsiDocument.semantic_model x, OsiDocument.custom_extensions x))
            (fun '(a, b) => OsiDocument.mk _ a b) _). by intros [].
Defined.
End encoding.

Fixpoint unbits (s : string) : positive :=
  match s with
  | String c rest =>
      if decide (c = "0"%char) then xO (unbits rest)
      else if decide (c = "1"%char) then xI (unbits rest) else xH
  | EmptyString => xH
  end.

Lemma unbits_bits p : unbits (bits p) = p.
Proof. induction p; simpl; by f_equal. Qed.

Definition written_document (text : string) : result string OsiDocument :=
  match decode (unbits text) with Some document => Ok document | None => Err "not YAML" end.

(** ** The catalog *)

Definition osi_column (name data_type : string) (ordinal : N) : CatalogColumn :=
  {| Column.name := name; Column.ordinal := ordinal; Column.data_type := data_type;
     Column.nullable := false; Column.comment := None; Column.select_grant := true |}.

Definition osi_relation (name : string) (columns : list CatalogColumn)
    (constraints : list CatalogConstraint) : CatalogRelation :=
  {| Rel.schema := "app"; Rel.name := name; Rel.kind := RelationKind.Table;
     Rel.owner := "app"; Rel.view := None; Rel.comment := None;
     Rel.grants := {| Grants.schema_usage := true; Grants.table_select := true;
                      Grants.any_column_select := true |};
     Rel.rls := {| Rls.enabled := true; Rls.forced := false |};
     Rel.columns := columns; Rel.constraints := constraints; Rel.policies := [] |}.

Definition osi_catalog_unsealed (fingerprint : string) : CatalogSnapshot :=
  {| Catalog.schema_version := "2"; Catalog.server_version_num := 170004;
     Catalog.current_database := "shop"; Catalog.current_role := "reader";
     Catalog.role_context := {| RoleContext.inherit := true; RoleContext.superuser := false;
                                RoleContext.bypass_rls := false;
                                RoleContext.effective_roles := ["reader"];
                                RoleContext.settable_roles := [] |};
     Catalog.role_graph_fingerprint := "sha256:02";
     Catalog.object_privilege_fingerprint := "sha256:03"; Catalog.functions := [];
     Catalog.relations :=
       [osi_relation "orders"
          [osi_column "id" "bigint" 1; osi_column "customer_id" "bigint" 2;
           osi_column "placed_on" "date" 3; osi_column "total" "numeric(18,2)" 4]
          [Constraint.PrimaryKey "orders_pkey" ["id"] true false false false true;
           Constraint.ForeignKey "orders_customer" ["customer_id"]
             (RelationReference.mk "app" "customers") ["id"] [] ForeignKeyMatch.Simple
             ForeignKeyAction.NoAction ForeignKeyAction.NoAction true false false false true];
        osi_relation "customers" [osi_column "id" "bigint" 1; osi_column "region" "text" 2]
          [Constraint.PrimaryKey "customers_pkey" ["id"] true false false false true]];
     Catalog.fingerprint := fingerprint |}.

Definition osi_catalog : CatalogSnapshot :=
  match calculate_fingerprint (normalize (osi_catalog_unsealed EmptyString)) with
  | Ok fingerprint => osi_catalog_unsealed fingerprint
  | Err _ => osi_catalog_unsealed EmptyString
  end.

(** ** The document *)

Definition osi_field (name column : string) (time : bool) : OsiField :=
  {| OsiField.name := name; OsiField.expression := OsiExpression.ansi (" " +:+ column +:+ " ");
     OsiField.dimension := Some (OsiDimension.mk (Some time)); OsiField.label := None;
     OsiField.description := None; OsiField.ai_context := None;
     OsiField.custom_extensions := [] |}.

Definition osi_dataset (name source : string) (fields : list OsiField) : OsiDataset :=
  {| OsiDataset.name := name; OsiDataset.source := source; OsiDataset.primary_key := [];
     OsiDataset.unique_keys := []; OsiDataset.description := Some "reviewed";
     OsiDataset.ai_context := None; OsiDataset.fields := fields;
     OsiDataset.custom_extensions := [] |}.

Definition sales_document : OsiDocument :=
  {| OsiDocument.semantic_model :=
       [{| OsiSemanticModel.name := "sales"; OsiSemanticModel.description := None;
           OsiSemanticModel.ai_context := None;
           OsiSemanticModel.datasets :=
             [osi_dataset "orders" "app.orders"
                [osi_field "order_id" "id" false; osi_field "day" "placed_on" true;
                 osi_field "customer_ref" "customer_id" false; osi_field "amount" "total" false];
              osi_dataset "customers" "shop.app.customers"
                [osi_field "customer_id" "id" false; osi_field "region" "region" false]];
           OsiSemanticModel.relationships :=
             [{| OsiRelationship.name := "customer"; OsiRelationship.from := "orders";
                 OsiRelationship.to := "customers";
                 OsiRelationship.from_columns := ["customer_id"];
                 OsiRelationship.to_columns := ["id"]; OsiRelationship.ai_context := None;
                 OsiRelationship.custom_extensions := [] |}];
           OsiSemanticModel.metrics :=
             [{| OsiMetric.name := "revenue";
                 OsiMetric.expression := OsiExpression.ansi " sum ( orders.amount ) ";
                 OsiMetric.description := None; OsiMetric.ai_context := None;
                 OsiMetric.custom_extensions := [] |};
              {| OsiMetric.name := "buyers";
                 OsiMetric.expression := OsiExpression.ansi "COUNT(distinct customers.customer_id)";
                 OsiMetric.description := None; OsiMetric.ai_context := None;
                 OsiMetric.custom_extensions := [] |}];
           OsiSemanticModel.custom_extensions := [] |}];
     OsiDocument.custom_extensions := [] |}.

#[export] Instance sample_osi_yaml : OsiYaml :=
  {| osi_value := sample_yaml_value;
     document_from_slice := fun text =>
       if bool_decide (text = "sales") then Ok sales_document else written_document text;
     document_to_string := fun document => Ok (bits (encode document)) |}.

Definition sales_report : OsiImportReport :=
  match import_osi "sales" osi_catalog None with
  | Ok report => report
  | Err _ => {| OsiImportReport.schema_version := EmptyString;
                OsiImportReport.source_format := EmptyString;
                OsiImportReport.source_version := EmptyString;
                OsiImportReport.source_hash := EmptyString;
                OsiImportReport.catalog_fingerprint := EmptyString;
                OsiImportReport.semantic_model := EmptyString;
                OsiImportReport.warnings := []; OsiImportReport.snapshot := commerce |}
  end.

Lemma sales_imported : import_osi "sales" osi_catalog None = Ok sales_report.
Proof. vm_compute. reflexivity. Qed.

Lemma bits_not_sales p : bits p <> "sales".
Proof. by destruct p. Qed.
