(* ===== verification/OsiTheorems.v ===== *)
(** * Correctness of OSI import and export *)

From stdpp Require Import countable.
From S2P Require Import Prelude Ordered Text StrOps Json Lsq Lsm Semantic SemanticSpec Compiler.
From S2P Require Import CompilerSpec CompilerSql CompilerComplete CompilerTheorems Catalog Osi.
From S2P Require Import OsiExport OsiSpec OsiLinks OsiRoundTrip Fixtures OsiFixtures.

(** ** Backing *)

(** The relation of the catalog behind a model, and what it grants. *)
Record backing (catalog : CatalogSnapshot) (m : Model) (relation : CatalogRelation) : Prop := {
  bk_relation : relation ∈ Catalog.relations catalog
    /\ Model.source m = Relation.mk (Rel.schema relation) (Rel.name relation);
  bk_granted : Grants.schema_usage (Rel.grants relation) = true
    /\ (Grants.table_select (Rel.grants relation) = true
        \/ Grants.any_column_select (Rel.grants relation) = true);
  bk_columns : forall f, f ∈ Model.fields m -> Field.relationship f = None ->
    exists c, c ∈ Rel.columns relation /\ Column.name c = Field.column f
      /\ Column.select_grant c = true /\ Field.nullable f = Column.nullable c
      /\ postgres_data_type (Column.data_type c) = Some (Field.data_type f)
      /\ (Field.entity_key f = true <-> catalog_primary_key relation = [Field.column f]);
  bk_foreign_keys : forall r, r ∈ Model.relationships m ->
    Relationship.cardinality r = Cardinality.ManyToOne /\ Relationship.join_type r = JoinType.Left
    /\ exists constraint, constraint ∈ Rel.constraints relation
       /\ usable_foreign_key constraint
          = Some (ImportedForeignKey.mk [Relationship.from_column r] (Relationship.target r)
                    [Relationship.to_column r]);
}.

(** A field reached through a relationship is a field of its target, whose key
    the relationship joins on. *)
Definition projects (catalog : CatalogSnapshot) (snapshot : SemanticSnapshot) (m : Model)
    (f : Field) (name : string) : Prop :=
  exists r target relation g, r ∈ Model.relationships m /\ Relationship.semantic_name r = name
    /\ target ∈ Snapshot.models snapshot
    /\ Model.semantic_name target = Relationship.target_model r
    /\ Model.source target = Relationship.target r
    /\ backing catalog target relation
    /\ catalog_primary_key relation = [Relationship.to_column r]
    /\ g ∈ Model.fields target /\ Field.relationship g = None
    /\ f = projected_field name (Field.semantic_name g, imported_of g).

Section backed.
Context `{Crates, OsiYaml} (catalog : CatalogSnapshot) (sm : OsiSemanticModel) (base : Imported).
Context (rels : list (string * Relationship)) (mets : list (string * Metric)).
Context (report : OsiImportReport) (Himp : import_of catalog sm base rels mets report).

Lemma index_relation schema name relation :
  bt_get (schema, name) (relation_index (normalize catalog)) = Some relation ->
  relation ∈ Catalog.relations (normalize catalog)
  /\ schema = Rel.schema relation /\ name = Rel.name relation.
Proof.
  intros Hr. apply bt_from_list_get_elem, list_elem_of_fmap in Hr as (r & [= -> -> ->] & Hin). done.
Qed.

Lemma columns_of_get relation name c :
  bt_get name (columns_of relation) = Some c -> c ∈ Rel.columns relation /\ Column.name c = name.
Proof.
  intros Hc. apply bt_from_list_get_elem, list_elem_of_fmap in Hc as (c' & [= -> ->] & Hin). done.
Qed.

Lemma single_key (key : list string) (c : string) : length key <= 1 -> c ∈ key <-> key = [c].
Proof. destruct key as [|k [|]]; simpl; intros; [|set_solver|lia]. split; [set_solver|done]. Qed.

Lemma entry_backing n e : bt_get n base = Some e ->
  exists relation, backing (normalize catalog) (canonical_model base rels mets n e) relation
    /\ ImportedModel.foreign_keys e = catalog_foreign_keys relation
    /\ length (catalog_primary_key relation) <= 1
    /\ Forall (column_backed (catalog_primary_key relation) (columns_of relation))
         (Model.fields (ImportedModel.model e)).
Proof using Himp.
  pose proof (io_resolved _ _ _ _ _ _ Himp) as Hres. intros He.
  pose proof (entry_shape _ _ _ _ _ Hres _ _ He)
    as (schema & name & relation & fs & Heq & _ & _ & _ & [Hr Hg Hl Hf _ _]).
  pose proof Hr as (Hin & -> & ->)%index_relation. exists relation. subst e.
  split_and!; try done. split; simpl; try done.
  - intros f Hf'%elem_of_sort_by Hd.
    apply (linked_field_cases _ _ _ _ _ Hres _ _ _ He) in Hf' as [Hf'|(? & ? & ? & _ & _ & _ & ->)];
      [|done].
    rewrite Forall_forall in Hf. destruct (Hf _ Hf') as [_ _ (c & Hc & Hs & Ht & Hn) _ Hk _ _].
    apply columns_of_get in Hc as [Hc1 Hc2]. exists c. split_and!; try done.
    rewrite Hk, bool_decide_eq_true. by apply single_key.
  - intros r Hr'%elem_of_sort_by%elem_of_own.
    destruct (rel_linked _ _ _ _ _ Hres _ _ Hr') as (o & _ & Hfrom & Hok).
    split_and!; [apply Hok..|]. destruct (lk_source _ _ _ Hok) as (e & nf & He' & _ & Hfk).
    rewrite Hfrom, He in He'. injection He' as <-. simpl in Hfk.
    apply existsb_exists in Hfk as ([cols tgt refs] & Hin'%list_elem_of_In & Hb).
    apply list_elem_of_omap in Hin' as (constraint & Hc & Huse). exists constraint.
    split; [done|]. rewrite Huse. unfold backs in Hb. simpl in Hb.
    rewrite !andb_true_iff, !bool_decide_eq_true in Hb. by destruct Hb as [[-> ->] ->].
Qed.

Lemma projected_backing n e f r :
  bt_get n base = Some e -> f ∈ Model.fields (canonical_model base rels mets n e) ->
  Field.relationship f = Some r ->
  projects (normalize catalog) (OsiImportReport.snapshot report)
    (canonical_model base rels mets n e) f r.
Proof using Himp.
  pose proof (io_resolved _ _ _ _ _ _ Himp) as Hres. intros He Hf%elem_of_sort_by Hrel.
  apply (linked_field_cases _ _ _ _ _ Hres _ _ _ He) in Hf
    as [Hf|(rel & te & g & Hin & Hte & Hg & ->)].
  { destruct (direct_field _ _ _ _ _ Hres _ _ _ He Hf) as (? & ? & ? & ? & _ & _ & Hc).
    by rewrite (cb_direct _ _ _ Hc) in Hrel. }
  injection Hrel as <-. destruct (rel_linked _ _ _ _ _ Hres _ _ Hin) as (o & _ & _ & Hok).
  destruct (lk_target _ _ _ Hok) as (te' & tn & tf & Hte' & Htgt & Hfind & Hkey).
  rewrite Hte in Hte'. injection Hte' as <-.
  destruct (entry_backing _ _ Hte) as (relation & Hb & _ & Hl & Hcols).
  destruct (linked_key _ _ _ _ _ Hres _ _ _ _ _ Hte Hfind Hkey) as (kf & Hkf & Hkc & Hkd & Hkk).
  exists rel, (canonical_model base rels mets (Relationship.target_model rel) te), relation, g.
  split_and!; try done.
  - simpl. apply elem_of_sort_by. rewrite (br_relationships _ (resolved_bare _ _ _ _ _ _ _ Hres He)).
    by apply elem_of_own.
  - rewrite (import_models_eq _ _ _ _ _ _ Himp), <- canonical_models_eq.
    apply list_elem_of_fmap. exists (Relationship.target_model rel, te).
    split; [done|by apply bt_get_elem].
  - pose proof (entry_shape _ _ _ _ _ Hres _ _ Hte) as (? & ? & ? & ? & -> & _). done.
  - rewrite Forall_forall in Hcols. pose proof (cb_key _ _ _ (Hcols _ Hkf)) as Hk.
    rewrite Hkk, Hkc in Hk. symmetry in Hk. apply bool_decide_eq_true in Hk. by apply single_key.
  - simpl. apply elem_of_sort_by, elem_of_app. by left.
  - rewrite Forall_forall in Hcols. apply (cb_direct _ _ _ (Hcols _ Hg)).
Qed.
End backed.

(** C19: an import asserts nothing the catalog does not.  When a document is
    imported, the catalog evidence was valid, and every model stands for a
    relation of it that the role may read: each field of its own is a column
    the role may select, with the column's type and nullability, and is an
    entity key exactly when it is the whole validated primary key; each
    relationship is an enforced, validated foreign key onto the primary key of
    the model it leads to; and every other field is a field of that model.  The
    snapshot is canonical and sealed. *)
Theorem imported_models_are_backed `{HC : Crates} `{HY : OsiYaml} (input : string)
    (catalog : CatalogSnapshot) (selected : option string) (report : OsiImportReport) :
  import_osi input catalog selected = Ok report ->
  let snapshot := OsiImportReport.snapshot report in
  validated_normalized catalog = Ok (normalize catalog)
  /\ normalized snapshot = snapshot
  /\ calculate_revision_hash snapshot = Ok (Snapshot.revision_hash snapshot)
  /\ forall m, m ∈ Snapshot.models snapshot ->
     (exists relation, backing (normalize catalog) m relation)
     /\ forall f r, f ∈ Model.fields m -> Field.relationship f = Some r ->
        projects (normalize catalog) snapshot m f r.
Proof.
  intros (document & sm & base & rels & mets & _ & _ & _ & Himp)%import_osi_ok snapshot.
  split_and!; [apply Himp|by eapply import_normalized|by eapply import_sealed|].
  intros m Hm. unfold snapshot in Hm.
  rewrite (import_models_eq _ _ _ _ _ _ Himp), <- canonical_models_eq in Hm.
  apply list_elem_of_fmap in Hm as ([n e] & -> & Hin).
  apply bt_elem_get in Hin; [|by eapply resolved_wf, Himp]. split.
  - destruct (entry_backing _ _ _ _ _ _ Himp _ _ Hin) as (relation & Hb & _). by exists relation.
  - intros f r. by apply projected_backing with (sm := sm).
Qed.

Lemma imported_models_are_backed_witness :
  (forall m, m ∈ Snapshot.models (OsiImportReport.snapshot sales_report) ->
     exists relation, backing (normalize osi_catalog) m relation)
  /\ map Model.semantic_name (Snapshot.models (OsiImportReport.snapshot sales_report))
     = ["customers"; "orders"]
  /\ map Field.semantic_name
       (concat (map Model.fields (Snapshot.models (OsiImportReport.snapshot sales_report))))
     = ["customer_id"; "region"; "amount"; "customer_customer_id"; "customer_ref";
        "customer_region"; "day"; "order_id"].
Proof.
  split; [|split; vm_compute; reflexivity].
  destruct (imported_models_are_backed _ _ _ _ sales_imported) as (_ & _ & _ & H).
  intros m Hm. exact (proj1 (H m Hm)).
Defined.

(** ** Queries over imported models *)

Lemma import_checked `{HC : Crates} `{HO : !CratesOk} `{OsiYaml} catalog sm base rels mets report :
  import_of catalog sm base rels mets report ->
  check_snapshot (OsiImportReport.snapshot report) = Ok tt.
Proof.
  intros Himp. unfold check_snapshot.
  rewrite (import_version _ _ _ _ _ _ Himp), (import_sealed _ _ _ _ _ _ Himp).
  pose proof (import_sealed _ _ _ _ _ _ Himp) as Hh. unfold calculate_revision_hash in Hh.
  apply bind_ok in Hh as (t & _ & [= Hh]). rewrite <- Hh, is_sha256_sha256. simpl.
  by rewrite bool_decide_eq_false_2 by naive_solver.
Qed.

(** What is imported can be queried.  Every query that names an imported
    model, its fields and metrics, with time grains only on its time dimensions
    and a filter with literals of the fields' types, is accepted by the
    compiler, joins included; it can fail only for the one thing an import
    cannot supply, the time zone of a [timestamptz] field. *)
Theorem imported_models_are_queryable `{HC : Crates} `{HO : !CratesOk} `{HY : OsiYaml}
    (input : string) (catalog : CatalogSnapshot) (selected : option string)
    (report : OsiImportReport) (model : Model) (options : CompilerOptions) (query : NormalizedLsq) :
  import_osi input catalog selected = Ok report ->
  model ∈ Snapshot.models (OsiImportReport.snapshot report) ->
  options_ok options -> (forall j, is_ok (json_to_string j) = true) ->
  asks (OsiImportReport.snapshot report) options model (NormalizedLsq.query query) ->
  match compile_lsq query (OsiImportReport.snapshot report) options with
  | Ok _ => True
  | Err e => timezone_error model e
  end.
Proof.
  intros (document & sm & base & rels & mets & _ & _ & _ & Himp)%import_osi_ok Hin Ho Hjson Hasks.
  pose proof (io_resolved _ _ _ _ _ _ Himp) as Hres.
  pose proof (linked_serviceable _ _ _ _ _ Hres _ (import_models_eq _ _ _ _ _ _ Himp)
                (import_version _ _ _ _ _ _ Himp) _ Hin) as Hserves.
  exact (asked_compiles _ _ _ Hserves _ Hasks query (import_distinct _ _ _ _ _ _ Himp)
           (import_checked _ _ _ _ _ _ Himp) Ho Hin eq_refl Hjson).
Qed.

Definition revenue_by_region : LogicalSemanticQuery :=
  {| Lsq.schema_version := "1"; Lsq.model := "orders";
     Lsq.dimensions := [Dimension.mk "customer_region" None;
                        Dimension.mk "day" (Some TimeGrain.Month)];
     Lsq.metrics := [MetricReference.mk "revenue"];
     Lsq.filters := None; Lsq.order_by := []; Lsq.limit := None |}.

Definition sales_orders : Model :=
  match List.find (fun m => bool_decide (Model.semantic_name m = "orders"))
          (Snapshot.models (OsiImportReport.snapshot sales_report)) with
  | Some m => m
  | None => normalize_model (linked_model [] [] [] EmptyString
              (ImportedModel.model (dataset_entry EmptyString EmptyString EmptyString
                 (osi_relation EmptyString [] []) [])))
  end.

Lemma imported_models_are_queryable_witness :
  match compile_lsq (normalized_sample revenue_by_region) (OsiImportReport.snapshot sales_report)
          default_options with
  | Ok _ => True
  | Err e => timezone_error sales_orders e
  end.
Proof.
  apply (imported_models_are_queryable "sales" osi_catalog None sales_report sales_orders).
  - exact sales_imported.
  - assert (H : bool_decide (sales_orders ∈ Snapshot.models (OsiImportReport.snapshot sales_report))
                = true) by (vm_compute; reflexivity). exact (bool_decide_eq_true_1 _ H).
  - split_and!; vm_compute; discriminate.
  - reflexivity.
  - assert (Hf : exists f1 f2 d, f1 ∈ Model.fields sales_orders /\ f2 ∈ Model.fields sales_orders
              /\ Field.semantic_name f1 = "customer_region" /\ Field.semantic_name f2 = "day"
              /\ Field.time_dimension f2 = true /\ d ∈ Model.metrics sales_orders
              /\ Metric.semantic_name d = "revenue").
    { assert (H : map Field.semantic_name (Model.fields sales_orders)
                  = ["amount"; "customer_customer_id"; "customer_ref"; "customer_region"; "day";
                     "order_id"]) by (vm_compute; reflexivity).
      assert (Ht : map Field.time_dimension (Model.fields sales_orders)
                   = [false; false; false; false; true; false]) by (vm_compute; reflexivity).
      assert (Hm : map Metric.semantic_name (Model.metrics sales_orders) = ["revenue"])
        by (vm_compute; reflexivity).
      destruct (Model.fields sales_orders) as [|f1 [|f2 [|f3 [|f4 [|f5 [|f6 [|]]]]]]];
        try discriminate H.
      destruct (Model.metrics sales_orders) as [|d [|]]; try discriminate Hm.
      injection H as H1 H2 H3 H4 H5 H6. injection Ht as T1 T2 T3 T4 T5 T6. injection Hm as M1.
      exists f4, f5, d. split_and!; try assumption; set_solver. }
    destruct Hf as (f1 & f2 & d & Hf1 & Hf2 & Hn1 & Hn2 & Ht & Hd & Hn).
    split; [vm_compute; reflexivity|vm_compute; discriminate|..].
    + constructor; [|constructor; [|constructor]].
      * exists f1. split_and!; [exact Hf1|exact Hn1|]. intros [x Hx]. discriminate Hx.
      * exists f2. split_and!; [exact Hf2|exact Hn2|]. intros _. exact Ht.
    + constructor; [|constructor]. exists d. split; [exact Hd|exact Hn].
    + exists None. split; [constructor|discriminate].
    + constructor.
Defined.

(** ** Round trips *)

(** serde_yaml_ng writes the documents the exporter builds, and reads what it
    wrote. *)
Class OsiYamlOk `{OsiYaml} : Prop := {
  exported_documents_read (name : string) (models : list Model) :
    let document := {| OsiDocument.semantic_model := [exported_model name models];
                       OsiDocument.custom_extensions := [] |} in
    exists text, document_to_string document = Ok text /\ document_from_slice text = Ok document;
}.

#[export] Instance sample_osi_yaml_ok : OsiYamlOk.
Proof.
  split. intros name models document. exists (bits (encode document)). split; [done|].
  simpl. rewrite bool_decide_eq_false_2 by apply bits_not_sales.
  unfold written_document. by rewrite unbits_bits, decode_encode.
Qed.

Lemma differs_refl {A} `{HA : !EqDecision A} (x : A) : bool_decide (x <> x) = false.
Proof. apply bool_decide_eq_false. intros Hx. by apply Hx. Qed.

Lemma import_exported `{HC : Crates} `{HO : OsiYaml} catalog sm base rels mets report name text :
  import_of catalog sm base rels mets report -> portable_identifier name = true ->
  document_from_slice text
    = Ok {| OsiDocument.semantic_model := [exported_model name (canonical_models base rels mets)];
            OsiDocument.custom_extensions := [] |} ->
  exists report', import_osi text catalog None = Ok report'
    /\ OsiImportReport.snapshot report' = OsiImportReport.snapshot report
    /\ OsiImportReport.semantic_model report' = name.
Proof.
  intros Himp Hname Htext. pose proof (io_resolved _ _ _ _ _ _ Himp) as Hres.
  unfold import_osi. rewrite Htext. cbn [map_err mbind result_bind].
  rewrite (proj2 (ensure_unique_names_ok _ _ tt)) by apply NoDup_singleton.
  cbn [reject_extensions OsiDocument.custom_extensions OsiDocument.semantic_model mbind result_bind
       select_semantic_model exported_model OsiSemanticModel.name
       OsiSemanticModel.custom_extensions].
  rewrite (proj2 (validate_identifier_ok _ _ tt)) by done. cbn [mbind result_bind].
  rewrite (io_catalog _ _ _ _ _ _ Himp). cbn [map_err mbind result_bind].
  set (model := exported_model name (canonical_models base rels mets)).
  destruct (import_models_complete _ _
              (warn_context ("/semantic_model/" +:+ name) (OsiSemanticModel.description model)
                 (OsiSemanticModel.ai_context model) []) _ _ _
              (exported_resolved _ _ _ _ _ Hres name)) as [w Hw].
  fold model in Hw. rewrite Hw.
  cbn [mbind result_bind].
  pose proof (io_snapshot _ _ _ _ _ _ Himp) as Hs.
  rewrite (imported_snapshot_equiv _ _ (raw_distinct _ _ _ _ _ Hres) (rebase_equiv _ _ _ _ _ Hres))
    in Hs.
  unfold models_of in Hs. rewrite Hs. cbn [mbind result_bind]. by eexists.
Qed.

Lemma resolve_model_ok omitted ms saved m :
  resolve_model omitted ms saved = Ok m -> saved_model omitted saved m.
Proof.
  unfold resolve_model. intros Hr. apply bind_ok in Hr as (fs & Hfs%try_map_ok & [= <-]).
  split; [|done]. simpl. eapply Forall2_impl; [exact Hfs|]. intros f' f Hf.
  unfold resolve_nullable in Hf. case_bool_decide as Ho.
  - apply bind_ok in Hf as (b & _ & [= <-]). simpl. split; [done|by right].
  - injection Hf as <-. split; [done|by left].
Qed.

Lemma export_ok `{HC : Crates} `{HO : OsiYaml} saved catalog name omitted yaml :
  export_with_catalog_nullability saved catalog name omitted = Ok yaml ->
  exists report, import_osi yaml catalog None = Ok report
    /\ saved_as omitted (normalized saved) (OsiImportReport.snapshot report).
Proof.
  unfold export_with_catalog_nullability. intros He.
  apply bind_ok in He as (? & _ & He). apply bind_ok in He as (? & _ & He).
  apply bind_ok in He as (? & _ & He). apply bind_ok in He as (? & _ & He).
  apply bind_ok in He as (exported & _ & He). apply bind_ok in He as (text & _ & He).
  apply bind_ok in He as (report & Hr%map_err_ok & He).
  apply bind_ok in He as (models & Hm%try_map_ok & He).
  apply bind_ok in He as (? & Hs%fail_if_ok & [= ->]).
  apply bool_decide_eq_false, dec_stable in Hs. exists report. split; [done|].
  rewrite <- Hs. split; try done. simpl. rewrite <- Hs in Hm. simpl in Hm.
  eapply Forall2_impl; [exact Hm|]. intros m' m. apply resolve_model_ok.
Qed.

(** Import and export as they compose: [saved] is what is exported. *)
Definition round_trips `{Crates, OsiYaml} (saved : SemanticSnapshot) (catalog : CatalogSnapshot)
    (name : string) (omitted : list (string * string)) (snapshot : SemanticSnapshot) : Prop :=
  exists yaml report,
    export_with_catalog_nullability saved catalog name omitted = Ok yaml
    /\ import_osi yaml catalog None = Ok report
    /\ OsiImportReport.snapshot report = snapshot
    /\ OsiImportReport.semantic_model report = name.

Lemma import_round_trips `{HC : Crates} `{HY : OsiYaml} `{HO : !OsiYamlOk}
    (input : string) (catalog : CatalogSnapshot) (selected : option string)
    (report : OsiImportReport) (name : string) (omitted : list (string * string))
    (saved : SemanticSnapshot) :
  import_osi input catalog selected = Ok report ->
  Snapshot.models (OsiImportReport.snapshot report) <> [] -> portable_identifier name = true ->
  saved_as omitted saved (OsiImportReport.snapshot report) ->
  round_trips saved catalog name omitted (OsiImportReport.snapshot report).
Proof.
  intros (document & sm & base & rels & mets & _ & _ & _ & Himp)%import_osi_ok Hne Hname Hsaved.
  pose proof (io_resolved _ _ _ _ _ _ Himp) as Hres.
  pose proof (import_models_eq _ _ _ _ _ _ Himp) as Hms. rewrite <- canonical_models_eq in Hms.
  pose proof (import_normalized _ _ _ _ _ _ Himp) as Hnorm.
  assert (Hcanon : normalized saved = saved).
  { apply (saved_canonical _ _ _ Hsaved Hnorm).
    - rewrite Hms, (canonical_names _ _ _ _ _ Hres). by eapply resolved_wf.
    - rewrite Hms, canonical_models_eq. apply Forall_fmap, Forall_true.
      intros m. apply normalize_model_idemp. }
  destruct (exported_documents_read name (canonical_models base rels mets)) as (text & Hwrite & Hread).
  destruct (import_exported _ _ _ _ _ _ name text Himp Hname Hread) as (report' & Hre & Hsnap & Hn).
  exists text, report'. split_and!; [|done..].
  unfold export_with_catalog_nullability.
  rewrite (sa_version _ _ _ Hsaved), (import_version _ _ _ _ _ _ Himp).
  rewrite differs_refl. cbn [fail_if mbind result_bind].
  rewrite (saved_hash _ _ _ Hsaved Hcanon Hnorm), (import_sealed _ _ _ _ _ _ Himp).
  cbn [map_err mbind result_bind]. rewrite (sa_hash _ _ _ Hsaved).
  rewrite differs_refl. cbn [fail_if mbind result_bind]. rewrite Hcanon.
  assert (Hsne : Snapshot.models saved <> []).
  { intros He. pose proof (sa_models _ _ _ Hsaved) as Hm. rewrite He in Hm.
    by apply Forall2_nil_inv_l in Hm. }
  rewrite bool_decide_eq_false_2 by done. cbn [fail_if mbind result_bind].
  destruct (saved_exported_model _ _ _ name (sa_models _ _ _ Hsaved)) as [Hexp Hdoc].
  { rewrite Hms. by apply (canonical_exportable (normalize catalog) sm). }
  rewrite (export_all_ok name _ Hexp), Hdoc, Hms. cbn [mbind result_bind]. rewrite Hwrite.
  cbn [map_err mbind result_bind]. rewrite Hre. cbn [map_err mbind result_bind].
  rewrite Hsnap, (resolve_models_saved _ _ _ (import_distinct _ _ _ _ _ _ Himp) Hsaved).
  cbn [mbind result_bind]. rewrite (sa_version _ _ _ Hsaved), (sa_hash _ _ _ Hsaved).
  by destruct (OsiImportReport.snapshot report); rewrite differs_refl.
Qed.

(** C22: an import survives export.  A snapshot that was imported, saved with or
    without the nullability of its fields, is exported under any portable name
    against the same catalog, and the document gives exactly that snapshot
    back.  And no export misrepresents its snapshot: whatever was exported
    successfully, imported again, is the canonical form of what was exported,
    with nullability taken from the catalog only where it was not stated. *)
Theorem imported_snapshots_round_trip `{HC : Crates} `{HY : OsiYaml} `{HO : !OsiYamlOk}
    (catalog : CatalogSnapshot) (name : string) (omitted : list (string * string))
    (saved : SemanticSnapshot) :
  (forall input selected report,
     import_osi input catalog selected = Ok report ->
     Snapshot.models (OsiImportReport.snapshot report) <> [] -> portable_identifier name = true ->
     saved_as omitted saved (OsiImportReport.snapshot report) ->
     round_trips saved catalog name omitted (OsiImportReport.snapshot report))
  /\ forall yaml, export_with_catalog_nullability saved catalog name omitted = Ok yaml ->
     exists report, import_osi yaml catalog None = Ok report
       /\ saved_as omitted (normalized saved) (OsiImportReport.snapshot report).
Proof. split; [intros input selected report; apply import_round_trips|intros yaml; apply export_ok]. Qed.

(** The saved text states no nullability: every field reads as nullable. *)
Definition forgotten (s : SemanticSnapshot) : SemanticSnapshot :=
  {| Snapshot.schema_version := Snapshot.schema_version s;
     Snapshot.revision_hash := Snapshot.revision_hash s;
     Snapshot.models := map forget_nullable_model (Snapshot.models s) |}.

Definition all_fields (s : SemanticSnapshot) : list (string * string) :=
  concat (map (fun m => map (fun f => (Model.semantic_name m, Field.semantic_name f))
                          (Model.fields m)) (Snapshot.models s)).

Lemma forgotten_saved s : saved_as (all_fields s) (forgotten s) s.
Proof.
  split; [done..|]. simpl. apply Forall2_fmap_l. apply Forall_Forall2_diag, Forall_forall.
  intros m Hm. split; [|by destruct m]. simpl. apply Forall2_fmap_l.
  apply Forall_Forall2_diag, Forall_forall. intros f Hf. split; [done|]. right.
  apply list_elem_of_In, in_concat. eexists. split.
  - apply list_elem_of_In, list_elem_of_fmap. by exists m.
  - apply list_elem_of_In, list_elem_of_fmap. by exists f.
Qed.

Lemma imported_snapshots_round_trip_witness :
  forgotten (OsiImportReport.snapshot sales_report) <> OsiImportReport.snapshot sales_report
  /\ round_trips (forgotten (OsiImportReport.snapshot sales_report)) osi_catalog "copy"
       (all_fields (OsiImportReport.snapshot sales_report)) (OsiImportReport.snapshot sales_report).
Proof.
  split; [vm_compute; discriminate|].
  apply (proj1 (imported_snapshots_round_trip osi_catalog "copy"
                  (all_fields (OsiImportReport.snapshot sales_report))
                  (forgotten (OsiImportReport.snapshot sales_report)))
           "sales" None sales_report sales_imported).
  - vm_compute. discriminate.
  - reflexivity.
  - apply forgotten_saved.
Defined.

(** C39: a metric expression is read back from its canonical text, with one
    exception.  For portable names, the text the exporter writes for an
    aggregate is read as that aggregate of that field, except that when the
    name of the dataset begins with [distinct], in any case, only
    [COUNT(DISTINCT ..)] is: every other metric over such a dataset is
    rejected.  Whatever expression was accepted, its canonical text is accepted
    with the same meaning. *)
Theorem metric_expressions_round_trip (a : Aggregation) (dataset field : string) :
  (portable_identifier dataset = true -> portable_identifier field = true ->
   parse_metric_expression (metric_expression a dataset field)
   = if negb (bool_decide (a = Aggregation.CountDistinct)) && distinct_prefix dataset then None
     else Some (ParsedMetric.mk a dataset field))
  /\ forall text, parse_metric_expression text = Some (ParsedMetric.mk a dataset field) ->
     parse_metric_expression (metric_expression a dataset field)
     = Some (ParsedMetric.mk a dataset field).
Proof.
  split; [by apply metric_expression_parses|]. intros text. by apply parsed_metric_reads.
Qed.

Lemma metric_expressions_round_trip_witness :
  parse_metric_expression (metric_expression Aggregation.Sum "orders" "total")
    = Some (ParsedMetric.mk Aggregation.Sum "orders" "total")
  /\ parse_metric_expression (metric_expression Aggregation.Sum "distinct_orders" "total") = None
  /\ metric_expression Aggregation.Sum "distinct_orders" "total" = "SUM(distinct_orders.total)".
Proof.
  split_and!; [| |reflexivity].
  - exact (proj1 (metric_expressions_round_trip Aggregation.Sum "orders" "total") eq_refl eq_refl).
  - exact (proj1 (metric_expressions_round_trip Aggregation.Sum "distinct_orders" "total")
             eq_refl eq_refl).
Defined.
