(* ===== verification/Benchmark.v ===== *)
(** * Benchmarks ([benchmark.rs])

    Repeated compilation of a query over a synthetic snapshot, and repeated
    guarded execution of a request, with the percentiles of their durations.
    [Instant::elapsed] is a call; [sort_unstable] of integers is a sort. *)

From Stdlib Require Import SpecFloat.
From S2P Require Import RateLimit.
From S2P Require Import Prelude Ordered Text Json Lsq Semantic Compiler Lsm Mutation Effects.
From S2P Require Import Database PublishedModel Executor.

Definition BENCHMARK_SCHEMA_VERSION : string := "1".

Module CompilerBenchmark.
Record CompilerBenchmark : Type := mk {
  schema_version : string;
  model_count : N;
  warmup_iterations : N;
  measured_iterations : N;
  threshold_ms : f64;
  p50_ms : f64;
  p95_ms : f64;
  max_ms : f64;
  passed : bool;
}.
End CompilerBenchmark.
Abbreviation CompilerBenchmark := CompilerBenchmark.CompilerBenchmark.

Module ExecutionBenchmark.
Record ExecutionBenchmark : Type := mk {
  schema_version : string;
  warmup_iterations : N;
  measured_iterations : N;
  threshold_ms : f64;
  p50_ms : f64;
  p95_ms : f64;
  max_ms : f64;
  result_hash : string;
  deterministic : bool;
  passed : bool;
}.
End ExecutionBenchmark.
Abbreviation ExecutionBenchmark := ExecutionBenchmark.ExecutionBenchmark.

Module BenchmarkError.
Inductive BenchmarkError : Type :=
| InvalidConfiguration
| ModelCountTooLarge
| NondeterministicExecutionResult
| SnapshotHash (message : string)
| Lsq (error : LsqError)
| Compile (error : CompileError)
| Execute (error : ExecuteError)
| Serialization (message : string).
End BenchmarkError.
Abbreviation BenchmarkError := BenchmarkError.BenchmarkError.

Abbreviation benched A := (io_result (Thrown BenchmarkError) A).

(** ** Percentiles *)

Definition saturating_mul (a b : N) : N := N.min (a * b) USIZE_MAX.

(** [a - 1] in a release build. *)
Definition wrapping_pred (a : N) : N := (a + USIZE_MAX) mod (USIZE_MAX + 1).

(** [None] is an index out of bounds. *)
Definition percentile (samples : list N) (p : N) : option N :=
  let length := N.of_nat (length samples) in
  let rank := (saturating_add (saturating_mul length p) 99 / 100)%N in
  samples !! N.to_nat (N.min (rank - 1) (wrapping_pred length)).

Definition nanos_to_milliseconds (nanos : N) : f64 :=
  f64_div (f64_of_int (Z.of_N nanos)) (f64_of_int 1000000).

(** Neither infinite, nor not a number, nor at most zero. *)
Definition usable_threshold (threshold_ms : f64) : bool :=
  is_finite threshold_ms && negb (SFleb threshold_ms (S754_zero false)).

(** The 50th and 95th percentile and the maximum, in milliseconds. *)
Definition summarize_samples (samples : list N) : option (f64 * f64 * f64) :=
  let samples := sort_by N.le samples in
  p50 ← percentile samples 50;
  p95 ← percentile samples 95;
  Some (nanos_to_milliseconds p50, nanos_to_milliseconds p95,
        nanos_to_milliseconds (default 0%N (last samples))).

(** ** The compiler *)

(** [{:05}]: at least five digits. *)
Definition five_digits (n : N) : string :=
  let digits := pretty n in
  String.concat "" (repeat "0" (5 - String.length digits)) +:+ digits.

Definition synthetic_model (index : N) : Model :=
  let name := "model_" +:+ five_digits index in
  {| Model.semantic_name := name;
     Model.source := {| Relation.schema := "preview"; Relation.relation := name |};
     Model.timezone := Some "UTC"; Model.queryable := true; Model.writable := None;
     Model.fields :=
       [{| Field.semantic_name := "id"; Field.data_type := DataType.Integer; Field.column := "id";
           Field.relationship := None; Field.time_dimension := false; Field.entity_key := true;
           Field.visible := true; Field.nullable := false |};
        {| Field.semantic_name := "created_at"; Field.data_type := DataType.TimestampTz;
           Field.column := "created_at"; Field.relationship := None; Field.time_dimension := true;
           Field.entity_key := false; Field.visible := true; Field.nullable := false |}];
     Model.metrics :=
       [{| Metric.semantic_name := "row_count"; Metric.data_type := DataType.Integer;
           Metric.aggregation := Aggregation.Count; Metric.field := "id"; Metric.filter := None;
           Metric.additivity := None; Metric.aggregation_anchor := None; Metric.visible := true |}];
     Model.relationships := [] |}.

Section benchmark.
Context `{Crates, LsqParser}.

Definition synthetic_snapshot (model_count : N) : result BenchmarkError SemanticSnapshot :=
  let models := map (fun index => synthetic_model (N.of_nat index)) (seq 0 (N.to_nat model_count)) in
  let snapshot revision_hash :=
    {| Snapshot.schema_version := "1"; Snapshot.revision_hash := revision_hash;
       Snapshot.models := models |} in
  hash ← map_err BenchmarkError.SnapshotHash (calculate_revision_hash (snapshot EmptyString));
  Ok (snapshot hash).

Definition quoted (s : string) : string := dq +:+ s +:+ dq.

(** A count over the last model. *)
Definition benchmark_query (model_count : N) : string :=
  "{" +:+ quoted "schema_version" +:+ ":" +:+ quoted "1" +:+ ","
  +:+ quoted "model" +:+ ":" +:+ quoted ("model_" +:+ five_digits (model_count - 1)) +:+ ","
  +:+ quoted "metrics" +:+ ":[{" +:+ quoted "metric" +:+ ":" +:+ quoted "row_count" +:+ "}],"
  +:+ quoted "limit" +:+ ":100}".

Definition compile_once (input : string) (snapshot : SemanticSnapshot)
    : result BenchmarkError unit :=
  normalized ← map_err BenchmarkError.Lsq (normalize_lsq lsq_from_slice input);
  map_err BenchmarkError.Compile (compile_lsq normalized snapshot default_options);;
  Ok tt.

(** [for _ in 0..n { body }] *)
Definition iterate (n : N) (body : benched unit) : benched unit :=
  each (fun _ => body) (seq 0 (N.to_nat n)).

(** The same with the duration of every turn. *)
Fixpoint measure (n : nat) (body : benched unit) : benched (list N) :=
  match n with
  | 0 => Ret (Ok [])
  | S n =>
      body ;;?
      elapsed ← call Elapsed;
      samples ←? measure n body;
      Ret (Ok (elapsed :: samples))
  end.

Definition raise {A} (m : result BenchmarkError A) : result (Thrown BenchmarkError) A :=
  map_err Thrown.Raised m.

Definition compiler_baseline (model_count warmup_iterations measured_iterations : N)
    (threshold_ms : f64) : benched CompilerBenchmark :=
  lift (raise (fail_if (bool_decide (model_count = 0%N) || bool_decide (warmup_iterations = 0%N)
                        || bool_decide (measured_iterations = 0%N)
                        || negb (usable_threshold threshold_ms))
                 BenchmarkError.InvalidConfiguration)) ;;?
  lift (raise (fail_if (bool_decide (10000 < model_count)%N) BenchmarkError.ModelCountTooLarge)) ;;?
  snapshot ←? lift (raise (synthetic_snapshot model_count));
  let query := benchmark_query model_count in
  iterate warmup_iterations (lift (raise (compile_once query snapshot))) ;;?
  samples ←? measure (N.to_nat measured_iterations) (lift (raise (compile_once query snapshot)));
  '(p50_ms, p95_ms, max_ms) ←? lift (ok_or (summarize_samples samples) Thrown.Panic);
  Ret (Ok {| CompilerBenchmark.schema_version := BENCHMARK_SCHEMA_VERSION;
             CompilerBenchmark.model_count := model_count;
             CompilerBenchmark.warmup_iterations := warmup_iterations;
             CompilerBenchmark.measured_iterations := measured_iterations;
             CompilerBenchmark.threshold_ms := threshold_ms;
             CompilerBenchmark.p50_ms := p50_ms;
             CompilerBenchmark.p95_ms := p95_ms;
             CompilerBenchmark.max_ms := max_ms;
             CompilerBenchmark.passed := SFltb p95_ms threshold_ms |}).

(** ** Guarded execution *)

(** The parts of a result that must not change, as [json!] builds them. *)
Definition stable_result (result : QueryResult) : json :=
  to_value (JObj
    [("schema_version", JStr (QueryResult.schema_version result));
     ("semantic_revision", JStr (QueryResult.semantic_revision result));
     ("columns", JArr (map (fun column =>
         JObj [("name", JStr (OutputColumn.name column));
               ("data_type", DataType.to_json (OutputColumn.data_type column))])
       (QueryResult.columns result)));
     ("rows", JArr (QueryResult.rows result));
     ("truncated", JBool (QueryResult.truncated result));
     ("lineage", lineage_to_json (QueryResult.lineage result));
     ("warnings", JArr (map JStr (QueryResult.warnings result)))]).

Definition stable_result_hash (result : QueryResult) : Prelude.result string string :=
  text ← json_to_string (stable_result result);
  Ok (sha256 text).

(** The expected hash after a result. *)
Definition require_stable_result (expected_hash : option string) (result : QueryResult)
    : Prelude.result BenchmarkError (option string) :=
  result_hash ← map_err BenchmarkError.Serialization (stable_result_hash result);
  match expected_hash with
  | Some expected =>
      if decide (expected = result_hash) then Ok (Some expected)
      else Err BenchmarkError.NondeterministicExecutionResult
  | None => Ok (Some result_hash)
  end.

Context `{ModelParsers, Driver}.

Section execution.
Context (input project : string) (config : ExecutorConfig) (context : ExecutionContext).

Definition execute_once : benched QueryResult :=
  attempt (fun error => Thrown.Raised (BenchmarkError.Execute error))
    (execute input project config context).

Fixpoint warm_up (n : nat) (expected_hash : option string) : benched (option string) :=
  match n with
  | 0 => Ret (Ok expected_hash)
  | S n =>
      result ←? execute_once;
      expected_hash ←? lift (raise (require_stable_result expected_hash result));
      warm_up n expected_hash
  end.

Fixpoint measure_executions (n : nat) (expected_hash : option string)
    : benched (list N * option string) :=
  match n with
  | 0 => Ret (Ok ([], expected_hash))
  | S n =>
      result ←? execute_once;
      elapsed ← call Elapsed;
      expected_hash ←? lift (raise (require_stable_result expected_hash result));
      '(samples, expected_hash) ←? measure_executions n expected_hash;
      Ret (Ok (elapsed :: samples, expected_hash))
  end.

Definition execution_baseline (warmup_iterations measured_iterations : N) (threshold_ms : f64)
    : benched ExecutionBenchmark :=
  lift (raise (fail_if (bool_decide (warmup_iterations = 0%N)
                        || bool_decide (measured_iterations = 0%N)
                        || negb (usable_threshold threshold_ms))
                 BenchmarkError.InvalidConfiguration)) ;;?
  expected_hash ←? warm_up (N.to_nat warmup_iterations) None;
  '(samples, expected_hash) ←? measure_executions (N.to_nat measured_iterations) expected_hash;
  '(p50_ms, p95_ms, max_ms) ←? lift (ok_or (summarize_samples samples) Thrown.Panic);
  Ret (Ok {| ExecutionBenchmark.schema_version := BENCHMARK_SCHEMA_VERSION;
             ExecutionBenchmark.warmup_iterations := warmup_iterations;
             ExecutionBenchmark.measured_iterations := measured_iterations;
             ExecutionBenchmark.threshold_ms := threshold_ms;
             ExecutionBenchmark.p50_ms := p50_ms;
             ExecutionBenchmark.p95_ms := p95_ms;
             ExecutionBenchmark.max_ms := max_ms;
             ExecutionBenchmark.result_hash := default EmptyString expected_hash;
             ExecutionBenchmark.deterministic := true;
             ExecutionBenchmark.passed := SFltb p95_ms threshold_ms |}).
End execution.
End benchmark.
