(* ===== verification/BenchmarkTheorems.v ===== *)
(** * Correctness of the benchmarks

    Percentiles are nearest ranks, a benchmark of the compiler with usable
    arguments always reports, and a benchmark of executions reports only when
    every execution returned the same result.  A reference reader of JSON says
    which query the text of the first one denotes. *)

From Stdlib Require Import SpecFloat.
From S2P Require Import Fixtures ExecutorFixtures RateLimit.
From S2P Require Import Prelude Ordered Text Json Lsq LsqSpec Semantic SemanticSpec Compiler.
From S2P Require Import CompilerSpec CompilerComplete CompilerTheorems Lsm Mutation Effects.
From S2P Require Import Database PublishedModel Executor Benchmark.

(** ** Percentiles *)

Abbreviation at_most v := (filter (fun x => x ≤ v)%N).
Abbreviation below v := (filter (fun x => x < v)%N).

(** The smallest of the samples that [p] per cent of them do not exceed. *)
Record nearest_rank (p : N) (samples : list N) (v : N) : Prop := {
  nr_sample : v ∈ samples;
  nr_reached : (p * N.of_nat (length samples) ≤ 100 * N.of_nat (length (at_most v samples)))%N;
  nr_first : (100 * N.of_nat (length (below v samples)) < p * N.of_nat (length samples))%N;
}.

#[export] Instance nearest_rank_perm p :
  Proper ((≡ₚ) ==> eq ==> iff) (nearest_rank p).
Proof.
  assert (Hone : forall l k, l ≡ₚ k -> forall v, nearest_rank p l v -> nearest_rank p k v).
  { intros l k Hp v [H1 H2 H3]. split; [by rewrite <- Hp|by rewrite <- Hp..]. }
  intros l k Hp v _ <-. split; by apply Hone.
Qed.

Lemma below_none v l : Forall (N.le v) l -> below v l = [].
Proof.
  induction 1 as [|x l Hx _ IH]; [done|]. rewrite filter_cons_False by lia. exact IH.
Qed.

Lemma sorted_around l i v :
  StronglySorted N.le l -> l !! i = Some v ->
  i < length (at_most v l) /\ length (below v l) <= i.
Proof.
  intros Hs. revert i. induction Hs as [|x l _ IH Hx]; intros [|i]; simpl; try done.
  - intros [= ->]. rewrite filter_cons_True by done. simpl. rewrite filter_cons_False by lia.
    rewrite below_none by done. simpl. lia.
  - intros Hi. destruct (IH i Hi) as [H1 H2].
    assert (x ≤ v)%N by (rewrite Forall_forall in Hx; eapply Hx, list_elem_of_lookup_2, Hi).
    rewrite filter_cons_True by done. rewrite filter_cons. case_decide; simpl; lia.
Qed.

Lemma ceiling_bounds a : (a ≤ 100 * ((a + 99) / 100) ∧ 100 * ((a + 99) / 100) ≤ a + 99)%N.
Proof.
  pose proof (N.div_mod (a + 99) 100 ltac:(done)) as Hd.
  pose proof (N.mod_lt (a + 99) 100 ltac:(done)) as Hm. revert Hd Hm.
  generalize ((a + 99) / 100)%N ((a + 99) mod 100)%N. lia.
Qed.

(** A percentile of sorted samples, while their number does not saturate. *)
Lemma percentile_ranks samples p :
  StronglySorted N.le samples -> samples <> [] -> (1 ≤ p ≤ 100)%N ->
  (N.of_nat (length samples) * 100 + 99 ≤ USIZE_MAX)%N ->
  exists v, percentile samples p = Some v /\ nearest_rank p samples v.
Proof.
  intros Hs Hne Hp Hfit. unfold percentile, saturating_mul, saturating_add, wrapping_pred.
  assert (0 < length samples) by (destruct samples; simpl; [done|lia]).
  set (n := N.of_nat (length samples)) in *. assert (0 < n)%N by lia.
  assert (n * p ≤ n * 100)%N by (apply N.mul_le_mono_l; lia).
  assert (n * 1 ≤ n * p)%N by (apply N.mul_le_mono_l; lia).
  rewrite (N.min_l (n * p)), (N.min_l (n * p + 99)) by lia.
  destruct (ceiling_bounds (n * p)) as [Hlow Hhigh].
  set (rank := ((n * p + 99) / 100)%N) in *.
  assert (Hrank : (1 ≤ rank ≤ n)%N) by lia.
  replace ((n + USIZE_MAX) mod (USIZE_MAX + 1))%N with (n - 1)%N.
  2: { replace (n + USIZE_MAX)%N with (n - 1 + 1 * (USIZE_MAX + 1))%N by lia.
       rewrite N.Div0.mod_add, N.mod_small; lia. }
  rewrite N.min_l by lia.
  destruct (lookup_lt_is_Some_2 samples (N.to_nat (rank - 1))) as [v Hv]; [lia|].
  exists v. split; [done|]. destruct (sorted_around _ _ _ Hs Hv) as [Hl Hb].
  split; [by eapply list_elem_of_lookup_2|fold n; lia..].
Qed.

(** The largest sample. *)
Definition maximal (samples : list N) (v : N) : Prop :=
  v ∈ samples /\ Forall (fun x => x ≤ v)%N samples.

Lemma last_maximal samples :
  StronglySorted N.le samples -> samples <> [] -> maximal samples (default 0%N (last samples)).
Proof.
  intros Hs Hne. destruct (last samples) as [v|] eqn:Hv; [|by apply last_None in Hv].
  pose proof (last_Some_elem_of _ _ Hv) as Hin. apply last_Some in Hv as [l ->]. split;
    [exact Hin|].
  apply Forall_app. split; [|by repeat constructor].
  apply Forall_forall. intros x Hx. eapply StronglySorted_app_1_elem_of; [exact Hs|done|by left].
Qed.

(** What is reported of the samples of a benchmark. *)
Definition summarises (samples : list N) (p50_ms p95_ms max_ms : f64) : Prop :=
  exists p50 p95 m,
    nearest_rank 50 samples p50 /\ nearest_rank 95 samples p95 /\ maximal samples m
    /\ p50_ms = nanos_to_milliseconds p50 /\ p95_ms = nanos_to_milliseconds p95
    /\ max_ms = nanos_to_milliseconds m.

Lemma summarize_samples_ok samples :
  samples <> [] -> (N.of_nat (length samples) * 100 + 99 ≤ USIZE_MAX)%N ->
  exists p50 p95 m, summarize_samples samples = Some (p50, p95, m) /\ summarises samples p50 p95 m.
Proof.
  intros Hne Hfit. unfold summarize_samples. cbv zeta.
  pose proof (sort_by_perm N.le samples) as Hp.
  pose proof (sort_by_sorted N.le samples) as Hs.
  assert (Hne' : sort_by N.le samples <> []) by (intros Hn; rewrite Hn in Hp;
    by apply Permutation_nil_l in Hp).
  rewrite <- (length_sort_by N.le samples) in Hfit.
  destruct (percentile_ranks _ 50 Hs Hne' ltac:(lia) Hfit) as (a & Ha & Hra).
  destruct (percentile_ranks _ 95 Hs Hne' ltac:(lia) Hfit) as (b & Hb & Hrb).
  pose proof (last_maximal _ Hs Hne') as [Hin Hmax]. revert Hin Hmax.
  generalize (default 0%N (last (sort_by N.le samples))). intros m Hin Hmax.
  rewrite Ha. cbn [mbind option_bind]. rewrite Hb. cbn [mbind option_bind].
  rewrite Hp in Hra, Hrb, Hin, Hmax. eexists _, _, _. split; [done|].
  by exists a, b, m.
Qed.

(** ** Reading the text of a query

    A reference reader: compact JSON of objects, arrays, whole numbers and strings
    without escapes, and the queries that such documents with a model, metrics and
    a limit denote.  It says nothing about other texts. *)

(** Characters that stand for themselves in a string. *)
Definition plain_char (c : ascii) : bool :=
  negb (bool_decide (c = dquote)) && negb (bool_decide (c = "\"%char))
  && (32 <=? N_of_ascii c)%N.

Fixpoint read_chars (s : string) : option (string * string) :=
  match s with
  | EmptyString => None
  | String c s =>
      if decide (c = dquote) then Some (EmptyString, s)
      else if plain_char c then '(t, rest) ← read_chars s; Some (String c t, rest)
      else None
  end.

Definition digit_value (c : ascii) : option Z :=
  let n := Z.of_N (N_of_ascii c) in
  if bool_decide (48 <= n <= 57)%Z then Some (n - 48)%Z else None.

Fixpoint read_digits (value : Z) (s : string) : Z * string :=
  match s with
  | String c s' =>
      match digit_value c with
      | Some d => read_digits (10 * value + d) s'
      | None => (value, s)
      end
  | EmptyString => (value, s)
  end.

Definition expect (c : ascii) (s : string) : option string :=
  match s with
  | String c' s => if decide (c' = c) then Some s else None
  | EmptyString => None
  end.

(** A number has no leading zero but zero itself. *)
Fixpoint read_value (fuel : nat) (s : string) : option (json * string) :=
  match fuel, s with
  | S fuel, String c s' =>
      if decide (c = dquote) then '(t, rest) ← read_chars s'; Some (JStr t, rest)
      else if decide (c = "{"%char) then
        '(fields, rest) ← read_fields fuel s'; Some (JObj fields, rest)
      else if decide (c = "["%char) then
        '(values, rest) ← read_values fuel s'; Some (JArr values, rest)
      else
        d ← digit_value c;
        if decide (d = 0)%Z then Some (JInt 0, s')
        else let '(n, rest) := read_digits d s' in Some (JInt n, rest)
  | _, _ => None
  end
with read_fields (fuel : nat) (s : string) : option (list (string * json) * string) :=
  match fuel with
  | 0 => None
  | S fuel =>
      s ← expect dquote s;
      '(name, s) ← read_chars s;
      s ← expect ":" s;
      '(v, s) ← read_value fuel s;
      match s with
      | String c s =>
          if decide (c = ","%char) then '(l, rest) ← read_fields fuel s; Some ((name, v) :: l, rest)
          else if decide (c = "}"%char) then Some ([(name, v)], s) else None
      | EmptyString => None
      end
  end
with read_values (fuel : nat) (s : string) : option (list json * string) :=
  match fuel with
  | 0 => None
  | S fuel =>
      '(v, s) ← read_value fuel s;
      match s with
      | String c s =>
          if decide (c = ","%char) then '(l, rest) ← read_values fuel s; Some (v :: l, rest)
          else if decide (c = "]"%char) then Some ([v], s) else None
      | EmptyString => None
      end
  end.

Definition metric_of_json (j : json) : option MetricReference :=
  match j with JObj [("metric", JStr name)] => Some (MetricReference.mk name) | _ => None end.

Definition query_of_json (j : json) : option LogicalSemanticQuery :=
  match j with
  | JObj [("schema_version", JStr version); ("model", JStr model); ("metrics", JArr metrics);
          ("limit", JInt limit)] =>
      metrics ← mapM metric_of_json metrics;
      if bool_decide (0 <= limit < 2 ^ 32)%Z then
        Some {| Lsq.schema_version := version; Lsq.model := model; Lsq.dimensions := [];
                Lsq.metrics := metrics; Lsq.filters := None; Lsq.order_by := [];
                Lsq.limit := Some (Z.to_N limit) |}
      else None
  | _ => None
  end.

(** Every step of the reader takes a character, so that its length is enough
    fuel. *)
Definition read_query (text : string) : option LogicalSemanticQuery :=
  match read_value (String.length text) text with
  | Some (j, EmptyString) => query_of_json j
  | _ => None
  end.

(** What the benchmark relies on: the crate reads the texts of the reference
    reader as it does. *)
Definition reads_queries `{LsqParser} : Prop :=
  forall text query, read_query text = Some query -> lsq_from_slice text = Ok query.

Lemma read_chars_plain s rest :
  forallb plain_char (bytes s) = true -> read_chars (s +:+ dq +:+ rest) = Some (s, rest).
Proof.
  induction s as [|c s IH]; [done|]. intros [Hc Hs]%andb_true_iff.
  change (read_chars (String c (s +:+ dq +:+ rest)) = Some (String c s, rest)).
  cbn [read_chars]. rewrite Hc, IH by done.
  destruct (decide (c = dquote)) as [->|]; [by vm_compute in Hc|done].
Qed.

Lemma read_text fuel s rest :
  forallb plain_char (bytes s) = true ->
  read_value (S fuel) (dq +:+ s +:+ dq +:+ rest) = Some (JStr s, rest).
Proof.
  intros Hs. change (dq +:+ s +:+ dq +:+ rest) with (String dquote (s +:+ dq +:+ rest)).
  cbn [read_value]. rewrite decide_True by done. by rewrite read_chars_plain.
Qed.

Lemma read_field fuel name value v rest fields rest' :
  forallb plain_char (bytes name) = true ->
  read_value fuel value = Some (v, "," +:+ rest) -> read_fields fuel rest = Some (fields, rest') ->
  read_fields (S fuel) (dq +:+ name +:+ dq +:+ ":" +:+ value) = Some ((name, v) :: fields, rest').
Proof.
  intros Hn Hv Hf.
  change (dq +:+ name +:+ dq +:+ ":" +:+ value)
    with (String dquote (name +:+ dq +:+ String ":" value)).
  cbn [read_fields expect]. rewrite decide_True by done. cbn [mbind option_bind].
  rewrite read_chars_plain by done. cbn [mbind option_bind expect]. rewrite decide_True by done.
  cbn [mbind option_bind]. rewrite Hv. change ("," +:+ rest) with (String "," rest).
  cbn [mbind option_bind]. rewrite decide_True by done.
  by rewrite Hf.
Qed.

Lemma pretty_go_plain x : forall s,
  forallb plain_char (bytes s) = true -> forallb plain_char (bytes (pretty_N_go x s)) = true.
Proof.
  induction x as [x IH] using (well_founded_induction N.lt_wf_0). intros s Hs.
  destruct (decide (x = 0)%N) as [->|Hx]; [by rewrite pretty_N_go_0|].
  rewrite pretty_N_go_step by lia. apply IH; [apply N.div_lt; lia|].
  apply andb_true_iff. split; [|done]. unfold pretty_N_char. by repeat case_match.
Qed.

Lemma five_digits_plain n : forallb plain_char (bytes (five_digits n)) = true.
Proof.
  unfold five_digits. rewrite bytes_app, forallb_app. apply andb_true_iff. split.
  - induction (5 - String.length (pretty n)) as [|[|k] IH]; [done|done|].
    exact IH.
  - unfold pretty, pretty_N. case_decide; [done|]. by apply pretty_go_plain.
Qed.

(** ** The synthetic snapshot *)

Lemma zeros_decimal n s : parse_decimal (String.concat "" (repeat "0" n) +:+ s) = parse_decimal s.
Proof.
  induction n as [|n IH]; [done|]. rewrite <- IH. simpl. destruct n; done.
Qed.

Lemma five_digits_inj : Inj (=) (=) five_digits.
Proof.
  intros n m Heq. apply (f_equal parse_decimal) in Heq. unfold five_digits in Heq.
  rewrite !zeros_decimal, !parse_decimal_pretty in Heq. by injection Heq.
Qed.

Definition synthetic_models (model_count : N) : list Model :=
  map (fun index => synthetic_model (N.of_nat index)) (seq 0 (N.to_nat model_count)).

Section synthetic.
Context `{HC : Crates} `{HO : !CratesOk} `{HL : LsqParser} (model_count : N).
Context (Hpos : (0 < model_count)%N).
Context (Hjson : forall j, is_ok (json_to_string j) = true).

(** The query of the benchmark, as its text is read. *)
Definition count_query : LogicalSemanticQuery :=
  {| Lsq.schema_version := "1"; Lsq.model := "model_" +:+ five_digits (model_count - 1);
     Lsq.dimensions := []; Lsq.metrics := [MetricReference.mk "row_count"];
     Lsq.filters := None; Lsq.order_by := []; Lsq.limit := Some 100%N |}.

(** Its text denotes it. *)
Lemma read_benchmark_query : read_query (benchmark_query model_count) = Some count_query.
Proof.
  set (name := "model_" +:+ five_digits (model_count - 1)).
  set (tail := quoted "metrics" +:+ ":[{" +:+ quoted "metric" +:+ ":" +:+ quoted "row_count"
               +:+ "}]," +:+ quoted "limit" +:+ ":100}").
  assert (Hlong : exists fuel, String.length (benchmark_query model_count) = 10 + fuel)
    by (by eexists).
  destruct Hlong as [fuel Hfuel]. unfold read_query. rewrite Hfuel.
  assert (Htail : read_fields (7 + fuel) tail
    = Some ([("metrics", JArr [JObj [("metric", JStr "row_count")]]); ("limit", JInt 100)],
            EmptyString)) by reflexivity.
  assert (Hname : forallb plain_char (bytes name) = true)
    by (unfold name; by rewrite bytes_app, forallb_app, five_digits_plain).
  assert (Hfields : read_fields (9 + fuel)
    (dq +:+ "schema_version" +:+ dq +:+ ":" +:+ (dq +:+ "1" +:+ dq +:+ ","
     +:+ (dq +:+ "model" +:+ dq +:+ ":" +:+ (dq +:+ name +:+ dq +:+ "," +:+ tail))))
    = Some ([("schema_version", JStr "1"); ("model", JStr name);
             ("metrics", JArr [JObj [("metric", JStr "row_count")]]); ("limit", JInt 100)],
            EmptyString)).
  { eapply read_field; [done|by apply read_text|]. by eapply read_field;
      [done|by apply read_text|exact Htail]. }
  replace (benchmark_query model_count) with (String "{" (dq +:+ "schema_version" +:+ dq +:+ ":"
    +:+ (dq +:+ "1" +:+ dq +:+ ","
     +:+ (dq +:+ "model" +:+ dq +:+ ":" +:+ (dq +:+ name +:+ dq +:+ "," +:+ tail)))))
    by (unfold benchmark_query, quoted; by rewrite !sapp_assoc).
  change (10 + fuel) with (S (9 + fuel)). cbn [read_value]. rewrite decide_False by done.
  rewrite decide_True by done. rewrite Hfields. reflexivity.
Qed.

Context (Hparse : reads_queries).

Lemma json_text j : exists t, json_to_string j = Ok t.
Proof. specialize (Hjson j). destruct (json_to_string j) as [t|]; [by exists t|done]. Qed.

(** The snapshot that is measured: its models, under their own hash. *)
Record synthetic (s : SemanticSnapshot) : Prop := {
  sy_version : Snapshot.schema_version s = "1";
  sy_models : Snapshot.models s = synthetic_models model_count;
  sy_sealed : calculate_revision_hash s = Ok (Snapshot.revision_hash s);
}.

Lemma synthetic_snapshot_ok :
  exists s, synthetic_snapshot model_count = Ok s /\ synthetic s.
Proof.
  unfold synthetic_snapshot, calculate_revision_hash. cbv zeta.
  match goal with |- context [json_to_string ?j] => destruct (json_text j) as [t Ht] end.
  rewrite Ht. eexists. split; [reflexivity|]. split; [done..|].
  unfold calculate_revision_hash.
  replace (json_to_string _) with (Ok t : result string string) by (symmetry; exact Ht). done.
Qed.

Section sealed.
Context (s : SemanticSnapshot) (Hs : synthetic s).

Lemma synthetic_checked : check_snapshot s = Ok tt.
Proof.
  unfold check_snapshot. rewrite (sy_version _ Hs), (sy_sealed _ Hs).
  pose proof (sy_sealed _ Hs) as Hh. unfold calculate_revision_hash in Hh.
  apply bind_ok in Hh as (t & _ & [= Hh]). rewrite <- Hh, is_sha256_sha256. simpl.
  by rewrite bool_decide_eq_false_2 by naive_solver.
Qed.

Lemma synthetic_distinct : snapshot_distinct s.
Proof.
  split; rewrite (sy_models _ Hs); unfold synthetic_models.
  - rewrite map_map. apply NoDup_fmap_2_strong; [|apply NoDup_seq].
    intros i j _ _ Hij. apply (inj (String.append "model_")), five_digits_inj in Hij. lia.
  - apply Forall_forall. intros m (i & -> & _)%list_elem_of_fmap.
    split; simpl; [|apply NoDup_singleton|constructor|done].
    apply NoDup_cons. split; [set_solver|apply NoDup_singleton].
Qed.

Definition last_model : Model := synthetic_model (model_count - 1).

Lemma last_model_in : last_model ∈ Snapshot.models s.
Proof.
  rewrite (sy_models _ Hs). apply list_elem_of_fmap.
  exists (N.to_nat (model_count - 1)). split; [by rewrite N2Nat.id|]. apply elem_of_seq. lia.
Qed.

Lemma last_model_serves : serviceable s last_model.
Proof.
  split; [done|by repeat constructor|by repeat constructor|..].
  - intros metric ->%list_elem_of_singleton.
    eexists {| rm_filter := None; rm_aggregation_anchor := None |}.
    split_and!; [done|done|]. split; simpl; [by left|done|done|by left|done..|].
    by rewrite (sy_version _ Hs).
  - intros f r Hf. repeat (apply elem_of_cons in Hf as [->|Hf]; [done|]).
    by apply not_elem_of_nil in Hf.
Qed.

Lemma count_query_asks : asks s default_options last_model count_query.
Proof.
  split; [done|done|constructor|..|constructor].
  - repeat constructor. eexists. split; [by left|done].
  - exists None. split; [constructor|done].
Qed.

Lemma compile_once_ok : compile_once (benchmark_query model_count) s = Ok tt.
Proof.
  unfold compile_once, normalize_lsq. rewrite (Hparse _ _ read_benchmark_query).
  cbn [map_err mbind result_bind].
  replace (validate_query count_query) with (Ok tt : result LsqError unit) by reflexivity.
  cbn [map_err mbind result_bind]. destruct (json_text (Lsq.to_json count_query)) as [t Ht].
  rewrite Ht. cbn [map_err mbind result_bind].
  pose proof (asked_compiles _ _ _ last_model_serves _ count_query_asks
    {| NormalizedLsq.query := count_query; NormalizedLsq.canonical_json := t;
       NormalizedLsq.hash := sha256 t |} synthetic_distinct synthetic_checked) as Hc.
  destruct (compile_lsq _ _ _) as [c|e]; [done|].
  destruct Hc as [Hz _]; [done|apply last_model_in|done|exact Hjson|]. by vm_compute in Hz.
Qed.
End sealed.
End synthetic.

(** ** Runs *)

Abbreviation elapsed_events samples := (map (fun d : N => Ev (Res := answer) Elapsed d) samples).

Lemma iterate_ok n : iterate n (lift (Ok tt)) = lift (Ok tt).
Proof. unfold iterate. generalize 0. induction (N.to_nat n) as [|k IH]; [done|]. intros i.
  apply (IH (S i)). Qed.

Lemma measure_runs n tr r :
  runs (measure n (lift (Ok tt))) tr r <->
  exists samples, length samples = n /\ tr = elapsed_events samples /\ r = Ok samples.
Proof.
  revert tr r. induction n as [|n IH]; intros tr r; simpl.
  - split; [intros [-> ->]; by exists []|]. intros ([|] & [=] & -> & ->). done.
  - split.
    + intros (d & tr' & -> & (tr1 & m & tr2 & -> & (samples & Hn & -> & ->)%IH & [->
      ->])%runs_bind).
      exists (d :: samples). rewrite app_nil_r. split_and!; [by f_equal/=|done..].
    + intros ([|d samples] & [= Hn] & -> & ->). exists d, (elapsed_events samples). split; [done|].
      apply runs_bind. exists (elapsed_events samples), (Ok samples), []. rewrite app_nil_r.
      split_and!; [done|apply IH; eauto|done].
Qed.

(** The report of a benchmark of the compiler. *)
Definition compiler_report (model_count warmup measured : N) (threshold_ms p50_ms p95_ms max_ms :
  f64)
    : CompilerBenchmark :=
  CompilerBenchmark.mk "1" model_count warmup measured threshold_ms p50_ms p95_ms max_ms
    (SFltb p95_ms threshold_ms).

Lemma compiler_baseline_eq `{HC : Crates, HO : !CratesOk, HL : LsqParser} model_count warmup
    measured threshold_ms :
  (0 < model_count ≤ 10000)%N -> (0 < warmup)%N -> (0 < measured)%N ->
  usable_threshold threshold_ms = true -> (forall j, is_ok (json_to_string j) = true) ->
  reads_queries ->
  compiler_baseline model_count warmup measured threshold_ms
  = (samples ←? measure (N.to_nat measured) (lift (Ok tt));
     '(p50_ms, p95_ms, max_ms) ←? lift (ok_or (summarize_samples samples) Thrown.Panic);
     Ret (Ok (compiler_report model_count warmup measured threshold_ms p50_ms p95_ms max_ms))).
Proof.
  intros Hn Hw Hm Ht Hjson Hparse. unfold compiler_baseline.
  rewrite !bool_decide_eq_false_2, Ht by lia. cbn [orb negb fail_if raise map_err].
  destruct (synthetic_snapshot_ok model_count Hjson) as (s & Hs & Hsyn).
  rewrite Hs. unfold raise. cbn [map_err lift try_bind mbind prog_bind prog_bind_].
  rewrite (compile_once_ok model_count) by (done || lia). cbn [map_err].
  rewrite (iterate_ok warmup). done.
Qed.

(** C34: a benchmark of the compiler with usable arguments always ends with a
    report, if the crates serialise every document and read queries as the
    reference reader does.  Whatever the clock says, no run fails: the query over the last of
    the synthetic models compiles in every turn; the clock is read once per
    measured turn; and the report has the arguments, the nearest ranks of the
    measured durations at 50 and 95 per cent and their maximum, and passes
    exactly when the rank at 95 per cent is below the threshold. *)
Theorem compiler_benchmarks_report `{HC : Crates, HO : !CratesOk, HL : LsqParser} model_count
    warmup measured threshold_ms :
  (0 < model_count ≤ 10000)%N -> (0 < warmup)%N -> (0 < measured)%N ->
  (measured * 100 + 99 ≤ USIZE_MAX)%N -> usable_threshold threshold_ms = true ->
  (forall j, is_ok (json_to_string j) = true) ->
  reads_queries ->
  (forall tr r, runs (compiler_baseline model_count warmup measured threshold_ms) tr r ->
     exists samples p50_ms p95_ms max_ms,
       tr = elapsed_events samples /\ N.of_nat (length samples) = measured
       /\ summarises samples p50_ms p95_ms max_ms
       /\ r = Ok (compiler_report model_count warmup measured threshold_ms p50_ms p95_ms max_ms))
  /\ forall samples, N.of_nat (length samples) = measured ->
     exists b, runs (compiler_baseline model_count warmup measured threshold_ms)
                 (elapsed_events samples) (Ok b).
Proof.
  intros Hn Hw Hm Hfit Ht Hjson Hparse. rewrite (compiler_baseline_eq _ _ _ _ Hn Hw Hm Ht Hjson
    Hparse).
  assert (Hsum : forall samples, N.of_nat (length samples) = measured ->
    exists p50 p95 m, summarize_samples samples = Some (p50, p95,
      m) /\ summarises samples p50 p95 m).
  { intros samples Hl. apply summarize_samples_ok; [by intros ->; simpl in Hl; lia|by rewrite Hl]. }
  split.
  - intros tr r (tr1 & m & tr2 & -> & (samples & Hl & -> & ->)%measure_runs & Hr)%runs_bind.
    destruct (Hsum samples) as (a & b & c & Hs & Hsm); [lia|]. rewrite Hs in Hr.
    destruct Hr as [-> ->]. rewrite app_nil_r. exists samples, a, b, c. split_and!;
      [done|lia|done..].
  - intros samples Hl. destruct (Hsum samples Hl) as (a & b & c & Hs & _). eexists.
    apply runs_bind. exists (elapsed_events samples), (Ok samples), []. rewrite app_nil_r.
    split_and!; [done|apply measure_runs; exists samples; split_and!; [lia|done..]|].
    cbv iota. rewrite Hs. by split.
Qed.

Definition reference_parser : LsqParser := {|
  lsq_from_slice text :=
    match read_query text with Some query => Ok query | None => Err "not a query" end
|}.

Lemma reference_reads : reads_queries (H := reference_parser).
Proof. intros text query Hr. simpl. by rewrite Hr. Qed.

Lemma compiler_benchmarks_report_witness : exists b,
  runs (compiler_baseline (H0 := reference_parser) 2 1 2 (f64_of_int 50))
    (elapsed_events [2000000; 1000000]%N) (Ok b).
Proof.
  refine (proj2 (compiler_benchmarks_report (HL := reference_parser) 2 1 2 (f64_of_int 50)
    _ _ _ _ _ _ _) _ _); solve [lia|exact reference_reads|by vm_compute|reflexivity].
Defined.

(** ** Executions *)

Section executions.
Context `{HC : Crates, HL : LsqParser, HM : ModelParsers, HD : Driver}.
Context (input project : string) (config : ExecutorConfig) (context : ExecutionContext).

(** A run of the executor that returned a result with the given hash. *)
Definition executed (hash : option string) (t : list (event answer)) (q : QueryResult) : Prop :=
  runs (execute input project config context) t (Ok q)
  /\ exists h, stable_result_hash q = Ok h /\ hash = Some h.

Lemma execute_once_runs tr q :
  runs (execute_once input project config context) tr (Ok q) ->
  runs (execute input project config context) tr (Ok q).
Proof. apply runs_attempt. Qed.

Lemma require_stable_ok expected q hash :
  require_stable_result expected q = Ok hash ->
  exists h, stable_result_hash q = Ok h /\ hash = Some h /\ (is_Some expected -> expected = hash).
Proof.
  unfold require_stable_result. intros Hr. apply bind_ok in Hr as (h & Hh & Hr).
  apply map_err_ok in Hh. exists h. split; [done|].
  destruct expected as [e|]; [case_decide; [|done]|]; injection Hr as <-; by subst.
Qed.

Lemma warm_up_runs n : forall expected tr hash,
  runs (warm_up input project config context n expected) tr (Ok hash) ->
  (is_Some expected -> expected = hash)
  /\ exists ts qs, tr = concat ts /\ length ts = n /\ Forall2 (executed hash) ts qs.
Proof.
  induction n as [|n IH]; intros expected tr hash; simpl.
  - intros [-> [= ->]]. split; [done|]. exists [], []. by repeat constructor.
  - intros (t & q & tr2 & -> & Ht%execute_once_runs & (h1 & Hr & Hw)%runs_try_lift)%runs_try.
    apply map_err_ok, require_stable_ok in Hr as (h & Hh & -> & He).
    apply IH in Hw as (Hk & ts & qs & -> & Hn & Hq). specialize (Hk ltac:(done)) as <-.
    split; [done|]. exists (t :: ts), (q :: qs). split_and!; [done|by f_equal/=|].
    constructor; [|done]. split; [done|]. by exists h.
Qed.

Lemma measure_executions_runs n : forall expected tr samples hash,
  runs (measure_executions input project config context n expected) tr (Ok (samples, hash)) ->
  (is_Some expected -> expected = hash)
  /\ exists ts qs, tr = concat (zip_with (fun t (d : N) => t ++ [Ev (Res := answer) Elapsed d]) ts
    samples)
     /\ length ts = n /\ length samples = n /\ Forall2 (executed hash) ts qs.
Proof.
  induction n as [|n IH]; intros expected tr samples hash; simpl.
  - intros [-> [= -> ->]]. split; [done|]. exists [], []. by repeat constructor.
  - intros (t & q & tr2 & -> & Ht%execute_once_runs & (d & tr3 & -> & Hrest))%runs_try.
    apply runs_try_lift in Hrest as (h1 & Hr & (tr4 & [ss h2]
      & tr5 & -> & Hw & [-> [= -> ->]])%runs_try).
    apply map_err_ok, require_stable_ok in Hr as (h & Hh & -> & He).
    apply IH in Hw as (Hk & ts & qs & -> & Hn & Hs & Hq). specialize (Hk ltac:(done)) as <-.
    split; [done|]. exists (t :: ts), (q :: qs). rewrite app_nil_r.
    split_and!; [simpl; by rewrite <- app_assoc|by f_equal/=|by f_equal/=|].
    constructor; [|done]. split; [done|]. by exists h.
Qed.

(** The runs of the executor, and the readings of the clock after the measured
    ones. *)
Definition timed (ts : list (list (event answer))) (samples : list N) : list (event answer) :=
  concat (zip_with (fun t (d : N) => t ++ [Ev (Res := answer) Elapsed d]) ts samples).

Lemma execution_baseline_runs warmup measured threshold_ms tr b :
  runs (execution_baseline input project config context warmup measured threshold_ms) tr (Ok b) ->
  (0 < warmup)%N /\ (0 < measured)%N /\ usable_threshold threshold_ms = true
  /\ exists ts ms qs samples p50_ms p95_ms max_ms,
       tr = concat ts ++ timed ms samples
       /\ N.of_nat (length ts) = warmup /\ N.of_nat (length ms) = measured
       /\ length samples = length ms
       /\ Forall2 (executed (Some (ExecutionBenchmark.result_hash b))) (ts ++ ms) qs
       /\ summarize_samples samples = Some (p50_ms, p95_ms, max_ms)
       /\ b = ExecutionBenchmark.mk "1" warmup measured threshold_ms p50_ms p95_ms max_ms
                (ExecutionBenchmark.result_hash b) true (SFltb p95_ms threshold_ms).
Proof.
  intros (u & Hc & (tr1 & h1 & tr2 & -> & Hw & (tr3 & [samples h2]
    & tr4 & -> & Hm & Hr)%runs_try)%runs_try)%runs_try_lift.
  apply map_err_ok, fail_if_ok in Hc. rewrite !orb_false_iff, !bool_decide_eq_false,
    negb_false_iff in Hc.
  destruct Hc as [[Hw0 Hm0] Ht]. apply runs_try_lift in Hr as ([[p50 p95] mx]
    & Hs%ok_or_ok & -> & [= ->]).
  apply warm_up_runs in Hw as (_ & ts & qs & -> & Hts & Hq1).
  apply measure_executions_runs in Hm as (Hk & ms & qs' & -> & Hms & Hsl & Hq2).
  assert (Hh : exists h, h1 = Some h).
  { inversion Hq1 as [E|t q ts' qs1 (_ & h & _ & Hh1)]; [subst ts; simpl in Hts; lia|by exists h]. }
  destruct Hh as [h ->]. specialize (Hk ltac:(done)) as <-. rewrite app_nil_r.
  split_and!; [lia..|done|]. exists ts, ms, (qs ++ qs'), samples, p50, p95, mx.
  split_and!; [done|lia|lia|lia|by apply Forall2_app|done..].
Qed.
End executions.

(** A benchmark of executions reports only stable results.  If it reports,
    its arguments were usable, every warm-up and every measured turn ran the
    executor to a result, all these results have the reported hash, the clock was
    read once per measured turn, and the report has the nearest ranks and the
    maximum of the measured durations and passes exactly when the rank at 95 per
    cent is below the threshold. *)
Theorem execution_benchmarks_are_stable
    `{HC : Crates, HL : LsqParser, HM : ModelParsers, HD : Driver} input project config context
    warmup measured threshold_ms tr b :
  runs (execution_baseline input project config context warmup measured threshold_ms) tr (Ok b) ->
  (measured * 100 + 99 ≤ USIZE_MAX)%N ->
  exists ts ms qs samples p50_ms p95_ms max_ms,
    tr = concat ts ++ timed ms samples
    /\ N.of_nat (length ts) = warmup /\ N.of_nat (length ms) = measured
    /\ length samples = length ms
    /\ Forall2 (executed input project config context
                  (Some (ExecutionBenchmark.result_hash b))) (ts ++ ms) qs
    /\ summarises samples p50_ms p95_ms max_ms
    /\ b = ExecutionBenchmark.mk "1" warmup measured threshold_ms p50_ms p95_ms max_ms
             (ExecutionBenchmark.result_hash b) true (SFltb p95_ms threshold_ms).
Proof.
  intros (_ & Hpos & _ & ts & ms & qs & samples & a & c & d & Htr & Hts & Hms & Hl & Hq & Hs & Hb)
    %execution_baseline_runs Hfit.
  destruct (summarize_samples_ok samples) as (a' & c' & d' & Hs' & Hsum);
    [by intros ->; simpl in Hl; lia|by rewrite Hl, Hms|].
  rewrite Hs in Hs'. injection Hs' as <- <- <-. exists ts, ms, qs, samples, a, c, d. done.
Qed.

Definition sample_benchmark
    : list (event answer) * Prelude.result (Thrown BenchmarkError) ExecutionBenchmark :=
  ExecutorFixtures.run one_sale fresh_claim
    (execution_baseline "request" "shop" analyst_config someone 1 2 (f64_of_int 50)).

Definition sample_benchmark_report : ExecutionBenchmark :=
  match sample_benchmark.2 with
  | Ok b => b
  | Err _ => ExecutionBenchmark.mk "" 0 0 S754_nan S754_nan S754_nan S754_nan "" false false
  end.

Lemma sample_benchmark_runs :
  runs (execution_baseline "request" "shop" analyst_config someone 1 2 (f64_of_int 50))
    sample_benchmark.1 (Ok sample_benchmark_report).
Proof.
  assert (Ok sample_benchmark_report = sample_benchmark.2) as -> by (vm_compute; reflexivity).
  apply run_runs.
Qed.

Lemma execution_benchmarks_are_stable_witness :
  ExecutionBenchmark.passed sample_benchmark_report = true
  /\ exists ts ms qs, N.of_nat (length ts) = 1%N /\ N.of_nat (length ms) = 2%N
     /\ Forall2 (executed "request" "shop" analyst_config someone
                   (Some (ExecutionBenchmark.result_hash sample_benchmark_report))) (ts ++ ms) qs.
Proof.
  split; [vm_compute; reflexivity|].
  destruct (execution_benchmarks_are_stable "request" "shop" analyst_config someone 1 2
              (f64_of_int 50) _ _ sample_benchmark_runs ltac:(by vm_compute))
    as (ts & ms & qs & _ & _ & _ & _ & _ & Hts & Hms & _ & Hq & _).
  exists ts, ms, qs. exact (conj Hts (conj Hms Hq)).
Defined.
