(* ===== verification/Reports.v ===== *)
(** * Reports, diagnosis and contracts ([report.rs], [doctor.rs], [contract.rs])

    Operational reports are read from the audit database, the doctor runs the
    version commands of container runtimes, and the contract manifest lists
    versions.  The calls of the command line are declared here: those of the
    server, files, programs, standard output, and the HTTP runtime. *)

From S2P Require Import RateLimit PublishedModel Executor MutationExecutor Prelude Ordered Text.
From S2P Require Import StrOps Json Lsq Semantic Compiler Lsm Mutation Effects Database Catalog.
From S2P Require Import CatalogDiff Authority Mcp McpParams McpPublic McpStdio Http HttpServer.
From S2P Require Import Authoring Osi OsiExport Benchmark.

(** ** Calls of a process *)

(** [std::process::Output]. *)
Module Output.
Record Output : Type := mk { success : bool; stdout : string; stderr : string }.
End Output.
Abbreviation Output := Output.Output.

(** What ends the wait for a server: the server itself, or a signal. *)
Inductive Serving : Type :=
| ServerEnded (r : result string unit)
| ShutdownSignal.

(** A request to the MCP endpoint that a server handled: its headers, the calls of
    its handler as far as it came, and for every task that was spawned for it, in
    order, the calls of that task on the database. *)
Module Handled.
Record Handled : Type := mk {
  headers : HeaderMap;
  calls : list (event HttpRes);
  work : list (list (event answer));
}.
End Handled.
Abbreviation Handled := Handled.Handled.

Inductive CommandOp `{AuthCrates} : Type :=
| Server (op : StdioOp)
(** [fs::read] *)
| ReadFile (path : string)
(** [Command::new(program).args(arguments).output()] *)
| RunProgram (program : string) (arguments : list string)
(** [print!] and [eprintln!] *)
| Print (text : string)
| Eprint (text : string)
(** the multi-threaded runtime *)
| BuildRuntime
| TcpBind (bind : SocketAddr)
(** the handlers of the server and their tasks, until the process ends *)
| AxumServe (setup : Setup)
(** the server after the signal, for at most the given time *)
| Drain (timeout : Duration)
| ShutdownTimeout (timeout : Duration)
(** [fs::metadata] and [fs::read] of a configured file *)
| ReadConfigured (path : string).

Definition CommandRes `{AuthCrates} (op : CommandOp) : Type :=
  match op with
  | Server op => StdioRes op
  | ReadFile _ => result io_error string
  | RunProgram _ _ => result io_error Output
  | Print _ | Eprint _ => result io_error unit
  | BuildRuntime | TcpBind _ => result string unit
  | AxumServe _ => list Handled * Serving
  | Drain _ => option (result string unit)
  | ShutdownTimeout _ => unit
  | ReadConfigured _ => option file_entry
  end.

Abbreviation command := (prog CommandRes).

(** A program of the server, run by a command. *)
Fixpoint on_server `{AuthCrates} {A} (p : stdio A) : command A :=
  match p with
  | Ret a => Ret a
  | Call op k => Call (Server op) (fun r => on_server (k r))
  end.

(** A program of the database, run by a command. *)
Definition query_database `{AuthCrates} {A} (p : io A) : command A := on_server (on_database p).

(** The preparation of a server, run by a command. *)
Fixpoint on_setup `{AuthCrates} {A} (p : prog SetupRes A) : command A :=
  match p with
  | Ret a => Ret a
  | Call (LookUp path) k => Call (ReadConfigured path) (fun r => on_setup (k r))
  | Call (Prepare op) k => Call (Server (Db op)) (fun r => on_setup (k r))
  end.

(** ** Operational reports *)

Definition MAX_WINDOW_HOURS : N := 24 * 365.

Module ReportError.
Inductive ReportError : Type :=
| InvalidWindow
| InvalidEnvironmentVariableName (variable : string)
| MissingEnvironmentVariable (variable : string)
| InvalidEnvironmentVariable (variable : string)
| AuditConnect (variable : string)
| ReportUnavailable
| InvalidReport.
End ReportError.
Abbreviation ReportError := ReportError.ReportError.

Section report.
Context `{Driver} (var : environment).

Definition required_environment (variable : string) : result ReportError string :=
  map_err (fun error => match error with
           | NotPresent => ReportError.MissingEnvironmentVariable variable
           | NotUnicode => ReportError.InvalidEnvironmentVariable variable
           end) (var variable).

Definition check_report_variable (variable : string) : result ReportError unit :=
  fail_if (negb (valid_environment_variable_name variable))
    (ReportError.InvalidEnvironmentVariableName variable).

Definition I32_MAX : N := 2147483647.

(** A column that is [NULL] is not a [Value]. *)
Definition report (audit_database_url_variable audit_password_variable : string)
    (window_hours : N) (function : string) : io_result ReportError json :=
  lift (fail_if (negb (bool_decide (1 ≤ window_hours ≤ MAX_WINDOW_HOURS)%N))
          ReportError.InvalidWindow) ;;?
  lift (try_each check_report_variable [audit_database_url_variable; audit_password_variable]) ;;?
  conninfo ←? lift (required_environment audit_database_url_variable);
  password ←? lift (required_environment audit_password_variable);
  attempt (fun _ => ReportError.AuditConnect audit_database_url_variable)
    (connect Audit conninfo (Some password)) ;;?
  lift (fail_if (bool_decide (I32_MAX < window_hours)%N) ReportError.InvalidWindow) ;;?
  row ←? attempt (fun _ => ReportError.ReportUnavailable)
           (call (QueryOne Audit (OPERATIONAL_REPORT function window_hours)));
  lift (ok_or row ReportError.InvalidReport).

Definition beta (audit_database_url_variable audit_password_variable : string) (window_hours : N)
    : io_result ReportError json :=
  report audit_database_url_variable audit_password_variable window_hours
    "semantic.beta_operational_report".

Definition operations (audit_database_url_variable audit_password_variable : string)
    (window_hours : N) : io_result ReportError json :=
  report audit_database_url_variable audit_password_variable window_hours
    "semantic.m10_operational_report".
End report.

(** ** The doctor *)

Definition DOCTOR_SCHEMA_VERSION : string := "1".

(** [std::env::consts]. *)
Class Platform := { OS : string; ARCH : string }.

Module RuntimeReport.
Record RuntimeReport : Type := mk {
  available : bool;
  engine_version : option string;
  compose_version : option string;
}.
End RuntimeReport.
Abbreviation RuntimeReport := RuntimeReport.RuntimeReport.

Module DoctorReport.
Record DoctorReport : Type := mk {
  schema_version : string;
  postgresem_version : string;
  operating_system : string;
  architecture : string;
  apple_container : RuntimeReport;
  docker : RuntimeReport;
  usable_container_runtime : bool;
}.
End DoctorReport.
Abbreviation DoctorReport := DoctorReport.DoctorReport.

Inductive DoctorError : Type := NoContainerRuntime.

Definition runtime_report (engine_version compose_version : option string) : RuntimeReport :=
  RuntimeReport.mk (bool_decide (is_Some engine_version) && bool_decide (is_Some compose_version))
    engine_version compose_version.

(** [String::from_utf8_lossy]: every maximal part of an ill-formed sequence is
    replaced by U+FFFD.  The length of that part is the number of bytes that
    could begin a character. *)
Definition REPLACEMENT : string :=
  String (ascii_of_nat 239) (String (ascii_of_nat 191) (String (ascii_of_nat 189) EmptyString)).

(** Whether [second] may follow the first byte of a character of several bytes. *)
Definition may_follow (first second : ascii) : bool :=
  let f := code first in
  if bool_decide (f = 224)%N then in_range 160 191 second
  else if bool_decide (f = 237)%N then in_range 128 159 second
  else if bool_decide (f = 240)%N then in_range 144 191 second
  else if bool_decide (f = 244)%N then in_range 128 143 second
  else in_range 128 191 second.

Definition ill_formed_width (s : string) : nat :=
  match s with
  | String first (String second (String third _)) =>
      if in_range 224 239 first && may_follow first second then 2
      else if in_range 240 244 first && may_follow first second then
             if in_range 128 191 third then 3 else 2
      else 1
  | String first (String second EmptyString) =>
      if in_range 224 244 first && may_follow first second then 2 else 1
  | _ => 1
  end.

(** [skip]: bytes of the character or part being copied or replaced. *)
Fixpoint lossy_from (skip : nat) (copy : bool) (s : string) : string :=
  match s with
  | EmptyString => EmptyString
  | String c rest =>
      match skip with
      | S skip => if copy then String c (lossy_from skip copy rest) else lossy_from skip copy rest
      | 0 =>
          match utf8_width s with
          | Some n => String c (lossy_from (pred n) true rest)
          | None => REPLACEMENT +:+ lossy_from (pred (ill_formed_width s)) false rest
          end
      end
  end.

Definition from_utf8_lossy (s : string) : string := lossy_from 0 true s.

Definition output_text (output : Output) : option string :=
  let bytes := if decide (Output.stdout output = EmptyString) then Output.stderr output
               else Output.stdout output in
  let text := trim (from_utf8_lossy bytes) in
  if decide (text = EmptyString) then None else Some text.

Definition command_version `{AuthCrates} (program : string) (arguments : list string)
    : command (option string) :=
  output ← call (RunProgram program arguments);
  Ret match output with
      | Ok output => if Output.success output then output_text output else None
      | Err _ => None
      end.

Definition inspect `{AuthCrates, Schemas, Platform} : command DoctorReport :=
  container_version ← command_version "container" ["--version"];
  container_compose_version ← command_version "container-compose" ["--version"];
  let apple_container := runtime_report container_version container_compose_version in
  docker_version ← command_version "docker" ["--version"];
  docker_compose_version ← command_version "docker" ["compose"; "version"];
  let docker := runtime_report docker_version docker_compose_version in
  Ret {| DoctorReport.schema_version := DOCTOR_SCHEMA_VERSION;
         DoctorReport.postgresem_version := CARGO_PKG_VERSION;
         DoctorReport.operating_system := OS;
         DoctorReport.architecture := ARCH;
         DoctorReport.apple_container := apple_container;
         DoctorReport.docker := docker;
         DoctorReport.usable_container_runtime :=
           RuntimeReport.available apple_container || RuntimeReport.available docker |}.

Definition require_runtime (report : DoctorReport) : result DoctorError unit :=
  fail_if (negb (DoctorReport.usable_container_runtime report)) NoContainerRuntime.

(** ** The contract manifest *)

Definition SUPPORTED_SNAPSHOT_SCHEMA_VERSIONS : list string := ["1"; "2"].

Definition ERROR_TAXONOMY_VERSION : string := "1".
Definition FIRST_MIGRATION : string := "0001_semantic_schema".
Definition CURRENT_MIGRATION : string := "0011_mutation_reconcile_writer_role".

Module MigrationRange.
Record MigrationRange : Type := mk { first : string; current : string }.
End MigrationRange.
Abbreviation MigrationRange := MigrationRange.MigrationRange.

Module Contracts.
Record Contracts : Type := mk {
  lsq : list string;
  lsm : list string;
  semantic_snapshot_load : list string;
  semantic_snapshot_author : string;
  compiler_semantics : string;
  mutation_compiler_semantics : string;
  catalog_snapshot : string;
  catalog_diff : string;
  authoring_scaffold : string;
  osi_import : string;
  osi_export : string;
  benchmark : string;
  mcp_tool_schema : string;
  error_taxonomy : string;
  database_migrations : MigrationRange;
}.
End Contracts.
Abbreviation Contracts := Contracts.Contracts.

Module Protocols.
Record Protocols : Type := mk { mcp_stdio : string; mcp_http : string }.
End Protocols.
Abbreviation Protocols := Protocols.Protocols.

Module ManifestTools.
Record McpTools : Type := mk { query : list string; mutation : list string }.
End ManifestTools.
Abbreviation ManifestTools := ManifestTools.McpTools.

Module DeprecatedSurface.
Record DeprecatedSurface : Type := mk {
  surface : string;
  replacement : string;
  removal_before : option string;
}.
End DeprecatedSurface.
Abbreviation DeprecatedSurface := DeprecatedSurface.DeprecatedSurface.

Module ContractManifest.
Record ContractManifest : Type := mk {
  schema_version : string;
  release : string;
  contract_status : string;
  contracts : Contracts;
  protocols : Protocols;
  cli_commands : list string;
  mcp_tools : ManifestTools;
  deprecated : list DeprecatedSurface;
  deferred : list string;
}.
End ContractManifest.
Abbreviation ContractManifest := ContractManifest.ContractManifest.

Definition manifest `{Schemas} : ContractManifest :=
  {| ContractManifest.schema_version := "1";
     ContractManifest.release := CARGO_PKG_VERSION;
     ContractManifest.contract_status := "stable";
     ContractManifest.contracts :=
       {| Contracts.lsq := [LSQ_SCHEMA_VERSION];
          Contracts.lsm := [LSM_SCHEMA_VERSION];
          Contracts.semantic_snapshot_load := SUPPORTED_SNAPSHOT_SCHEMA_VERSIONS;
          Contracts.semantic_snapshot_author := "2";
          Contracts.compiler_semantics := COMPILER_SEMANTIC_VERSION;
          Contracts.mutation_compiler_semantics := MUTATION_COMPILER_SEMANTIC_VERSION;
          Contracts.catalog_snapshot := CATALOG_SNAPSHOT_SCHEMA_VERSION;
          Contracts.catalog_diff := CATALOG_DIFF_SCHEMA_VERSION;
          Contracts.authoring_scaffold := AUTHORING_SCHEMA_VERSION;
          Contracts.osi_import := IMPORT_SCHEMA_VERSION;
          Contracts.osi_export := EXPORT_SCHEMA_VERSION;
          Contracts.benchmark := BENCHMARK_SCHEMA_VERSION;
          Contracts.mcp_tool_schema := TOOL_SCHEMA_VERSION;
          Contracts.error_taxonomy := ERROR_TAXONOMY_VERSION;
          Contracts.database_migrations := MigrationRange.mk FIRST_MIGRATION CURRENT_MIGRATION |};
     ContractManifest.protocols := Protocols.mk MCP_PROTOCOL_VERSION MODERN_PROTOCOL_VERSION;
     ContractManifest.cli_commands :=
       ["benchmark"; "catalog"; "contract"; "doctor"; "mcp"; "model"; "mutation"; "query";
        "report"; "snapshot"];
     ContractManifest.mcp_tools :=
       ManifestTools.mk
         ["describe_semantic_model"; "explain_semantic_query"; "list_semantic_models";
          "query_semantic_model"; "validate_semantic_query"]
         ["mutate_semantic_model"; "reconcile_semantic_mutation"; "validate_semantic_mutation"];
     ContractManifest.deprecated :=
       [DeprecatedSurface.mk "report beta" "report operations" (Some "2.0.0")];
     ContractManifest.deferred :=
       ["automatic_materialized_view_routing"; "connection_pooling"; "distributed_rate_limits";
        "down_migrations"; "dynamic_oidc_or_jwks_discovery"; "general_update_delete";
        "pre_aggregation"] |}.
