(* ===== verification/CatalogScan.v ===== *)
(** * Scanning a PostgreSQL catalog ([catalog.rs])

    [scan] reads the catalog in one read-only transaction, statement by
    statement, and records what the rows say: expressions and definitions as
    digests, columns, constraints and policies with the relation they belong to,
    grants with their function.  Reading a column that is NULL into a type
    without NULL unwinds, as [Row::get] does. *)

From S2P Require Import Prelude Ordered Text StrOps Json Lsq Semantic Effects Database Catalog.

Abbreviation scanned A := (result (Thrown CatalogError) A).
Abbreviation scan_result A := (io_result (Thrown CatalogError) A).

(** [Row::get] of a column that may be NULL. *)
Definition required {A} (value : option A) : scanned A := ok_or value Thrown.Panic.

Definition raised {A} (m : result CatalogError A) : scanned A := map_err Thrown.Raised m.

Definition query_error (operation : string) (source : db_error) : CatalogError :=
  CatalogError.Query operation source.

(** [client.query(..).map_err(|source| query_error(operation, source))?]. *)
Definition query_all (operation : string) (s : statement) : scan_result (list (row_of s)) :=
  attempt (fun source => Thrown.Raised (query_error operation source)) (call (Query Source s)).

Definition query_one (operation : string) (s : statement) : scan_result (row_of s) :=
  attempt (fun source => Thrown.Raised (query_error operation source)) (call (QueryOne Source s)).

(** ** Texts of the catalog *)

Definition parse_relation_kind (value : string) : result CatalogError RelationKind :=
  if decide (value = "table") then Ok RelationKind.Table
  else if decide (value = "partitioned_table") then Ok RelationKind.PartitionedTable
  else if decide (value = "view") then Ok RelationKind.View
  else if decide (value = "materialized_view") then Ok RelationKind.MaterializedView
  else if decide (value = "foreign_table") then Ok RelationKind.ForeignTable
  else Err (CatalogError.UnsupportedValue "relation kind" value).

Definition parse_function_kind (value : string) : result CatalogError CatalogFunctionKind :=
  if decide (value = "function") then Ok FunctionKind.Function_
  else if decide (value = "window_function") then Ok FunctionKind.WindowFunction
  else if decide (value = "aggregate") then Ok FunctionKind.Aggregate
  else Err (CatalogError.UnsupportedValue "function kind" value).

Definition parse_foreign_key_match (value : string) : result CatalogError ForeignKeyMatch :=
  if decide (value = "full") then Ok ForeignKeyMatch.Full
  else if decide (value = "partial") then Ok ForeignKeyMatch.Partial
  else if decide (value = "simple") then Ok ForeignKeyMatch.Simple
  else Err (CatalogError.UnsupportedValue "foreign key match type" value).

Definition parse_foreign_key_action (value : string) : result CatalogError ForeignKeyAction :=
  if decide (value = "no_action") then Ok ForeignKeyAction.NoAction
  else if decide (value = "restrict") then Ok ForeignKeyAction.Restrict
  else if decide (value = "cascade") then Ok ForeignKeyAction.Cascade
  else if decide (value = "set_null") then Ok ForeignKeyAction.SetNull
  else if decide (value = "set_default") then Ok ForeignKeyAction.SetDefault
  else Err (CatalogError.UnsupportedValue "foreign key action" value).

Definition parse_policy_command (value : string) : result CatalogError PolicyCommand :=
  if decide (value = "all") then Ok PolicyCommand.All
  else if decide (value = "select") then Ok PolicyCommand.Select
  else if decide (value = "insert") then Ok PolicyCommand.Insert
  else if decide (value = "update") then Ok PolicyCommand.Update
  else if decide (value = "delete") then Ok PolicyCommand.Delete
  else Err (CatalogError.UnsupportedValue "policy command" value).

(** [u32::try_from] of an [i32]. *)
Definition unsigned (value : Z) (error : Z -> CatalogError) : result CatalogError N :=
  if decide (value < 0)%Z then Err (error value) else Ok (Z.to_N value).

(** ** Entries of a map of lists *)

Section entries.
Context {K V : Type} `{!EqDecision K, !Ordered K}.

(** [map.entry(key).or_default().push(value)]. *)
Definition push_entry (key : K) (value : V) (m : list (K * list V)) : list (K * list V) :=
  bt_insert key (default [] (bt_get key m) ++ [value]) m.

(** [map.remove(&key).unwrap_or_default()], with the map that remains. *)
Definition take_entry (key : K) (m : list (K * list V)) : list V * list (K * list V) :=
  (default [] (bt_get key m), filter (fun entry => entry.1 <> key) m).
End entries.

Section scan.
Context `{Crates}.

Definition hash_expression (expression : string) : string := sha256 expression.

(** ** Roles *)

Definition role_context (row : RoleContextRow.t) : CatalogRoleContext :=
  {| RoleContext.inherit := RoleContextRow.inherit row;
     RoleContext.superuser := RoleContextRow.superuser row;
     RoleContext.bypass_rls := RoleContextRow.bypass_rls row;
     RoleContext.effective_roles := RoleContextRow.effective_roles row;
     RoleContext.settable_roles := RoleContextRow.settable_roles row |}.

(** [RoleGraphEvidence] as it is serialised. *)
Definition role_graph_evidence (row : RoleGraphRow.t) : json :=
  JObj [("member", JStr (RoleGraphRow.member_role row));
        ("inherit", JBool (RoleGraphRow.inherit row));
        ("superuser", JBool (RoleGraphRow.superuser row));
        ("bypass_rls", JBool (RoleGraphRow.bypass_rls row));
        ("granted_role", nullable_json JStr (RoleGraphRow.granted_role row));
        ("grantor_role", nullable_json JStr (RoleGraphRow.grantor_role row));
        ("admin_option", nullable_json JBool (RoleGraphRow.admin_option row));
        ("inherit_option", nullable_json JBool (RoleGraphRow.inherit_option row));
        ("set_option", nullable_json JBool (RoleGraphRow.set_option row))].

(** [ObjectPrivilegeEvidence] as it is serialised. *)
Definition object_privilege_evidence (row : ObjectPrivilegeRow.t) : json :=
  JObj [("object_kind", JStr (ObjectPrivilegeRow.object_kind row));
        ("schema", JStr (ObjectPrivilegeRow.schema_name row));
        ("name", JStr (ObjectPrivilegeRow.object_name row));
        ("identity_arguments", JStr (ObjectPrivilegeRow.identity_arguments row));
        ("owner", JStr (ObjectPrivilegeRow.owner row));
        ("grantor", nullable_json JStr (ObjectPrivilegeRow.grantor row));
        ("grantee", nullable_json JStr (ObjectPrivilegeRow.grantee row));
        ("privilege", nullable_json JStr (ObjectPrivilegeRow.privilege_type row));
        ("grantable", nullable_json JBool (ObjectPrivilegeRow.is_grantable row))].

Definition evidence_digest (evidence : list json) : scanned string :=
  canonical ← raised (map_err CatalogError.Serialization (json_to_string (JArr evidence)));
  Ok (sha256 canonical).

Definition scan_role_graph_fingerprint : scan_result string :=
  rows ←? query_all "role graph" ROLE_GRAPH_SQL;
  lift (evidence_digest (map role_graph_evidence rows)).

Definition scan_object_privilege_fingerprint : scan_result string :=
  rows ←? query_all "object privileges" OBJECT_PRIVILEGES_SQL;
  lift (evidence_digest (map object_privilege_evidence rows)).

(** ** Functions *)

Definition grant_from_row (row : FunctionGrantRow.t) : scanned CatalogFunctionGrant :=
  grantee ← required (FunctionGrantRow.grantee row);
  Ok {| FunctionGrant.grantor := FunctionGrantRow.grantor row;
        FunctionGrant.grantee := grantee;
        FunctionGrant.grantable := FunctionGrantRow.is_grantable row |}.

Definition add_grant (grants : list (Z * list CatalogFunctionGrant)) (row : FunctionGrantRow.t)
    : scanned (list (Z * list CatalogFunctionGrant)) :=
  grant ← grant_from_row row;
  Ok (push_entry (FunctionGrantRow.function_oid row) grant grants).

Definition scan_function_grants : scan_result (list (Z * list CatalogFunctionGrant)) :=
  rows ←? query_all "function grants" FUNCTION_GRANTS_SQL;
  lift (try_fold add_grant [] rows).

Definition function_from_row (grants : list (Z * list CatalogFunctionGrant)) (row : FunctionRow.t)
    : scanned (CatalogFunction * list (Z * list CatalogFunctionGrant)) :=
  kind ← raised (parse_function_kind (FunctionRow.function_kind row));
  definition ← required (FunctionRow.function_definition row);
  let '(own, grants) := take_entry (FunctionRow.function_oid row) grants in
  Ok ({| Func.schema := FunctionRow.schema_name row;
         Func.name := FunctionRow.function_name row;
         Func.identity_arguments := FunctionRow.identity_arguments row;
         Func.kind := kind;
         Func.definition_hash := hash_expression definition;
         Func.owner := FunctionRow.function_owner row;
         Func.owner_authorization :=
           if FunctionRow.security_definer row then Some (role_context (FunctionRow.owner row))
           else None;
         Func.grants := own |}, grants).

Definition scan_functions : scan_result (list CatalogFunction) :=
  grants ←? scan_function_grants;
  rows ←? query_all "functions" FUNCTIONS_SQL;
  lift (fst <$> try_map_st function_from_row grants rows).

(** ** Relations *)

(** The schema and the name of a relation. *)
Abbreviation relation_name := (string * string)%type.

Definition column_from_row (row : ColumnRow.t) : scanned CatalogColumn :=
  ordinal ← raised (unsigned (ColumnRow.ordinal row) CatalogError.InvalidColumnOrdinal);
  Ok {| Column.name := ColumnRow.column_name row;
        Column.ordinal := ordinal;
        Column.data_type := ColumnRow.data_type row;
        Column.nullable := ColumnRow.nullable row;
        Column.comment := ColumnRow.column_comment row;
        Column.select_grant := ColumnRow.column_select row |}.

Definition column_owner (row : ColumnRow.t) : relation_name :=
  (ColumnRow.schema_name row, ColumnRow.relation_name row).

Definition add_column_entry (columns : list (relation_name * list CatalogColumn))
    (row : ColumnRow.t) : scanned (list (relation_name * list CatalogColumn)) :=
  column ← column_from_row row;
  Ok (push_entry (column_owner row) column columns).

Definition scan_columns : scan_result (list (relation_name * list CatalogColumn)) :=
  rows ←? query_all "columns" COLUMNS_SQL;
  lift (try_fold add_column_entry [] rows).

Definition check_constraint (name : string) (columns : list string) (expression : string)
    (no_inherit enforced validated : bool) : CatalogConstraint :=
  Constraint.Check_ name columns (hash_expression expression) no_inherit enforced validated.

Definition constraint_from_row (row : ConstraintRow.t) : scanned CatalogConstraint :=
  let kind := ConstraintRow.constraint_kind row in
  let name := ConstraintRow.constraint_name row in
  let columns := ConstraintRow.columns row in
  let validated := ConstraintRow.validated row in
  let deferrable := ConstraintRow.deferrable row in
  let initially_deferred := ConstraintRow.initially_deferred row in
  let enforced := ConstraintRow.enforced row in
  let period := ConstraintRow.period row in
  if decide (kind = "primary_key") then
    Ok (Constraint.PrimaryKey name columns enforced period deferrable initially_deferred validated)
  else if decide (kind = "unique") then
    Ok (Constraint.Unique name columns (ConstraintRow.nulls_not_distinct row) enforced period
          deferrable initially_deferred validated)
  else if decide (kind = "foreign_key") then
    schema ← ok_or (ConstraintRow.referenced_schema row)
               (Thrown.Raised CatalogError.MissingReferencedRelation);
    relation ← ok_or (ConstraintRow.referenced_relation row)
                 (Thrown.Raised CatalogError.MissingReferencedRelation);
    match_text ← required (ConstraintRow.match_type row);
    match_type ← raised (parse_foreign_key_match match_text);
    update_text ← required (ConstraintRow.on_update row);
    on_update ← raised (parse_foreign_key_action update_text);
    delete_text ← required (ConstraintRow.on_delete row);
    on_delete ← raised (parse_foreign_key_action delete_text);
    Ok (Constraint.ForeignKey name columns
          {| RelationReference.schema := schema; RelationReference.name := relation |}
          (ConstraintRow.referenced_columns row) (ConstraintRow.delete_set_columns row)
          match_type on_update on_delete enforced period deferrable initially_deferred validated)
  else if decide (kind = "check") then
    expression ← ok_or (ConstraintRow.check_expression row)
                   (Thrown.Raised CatalogError.MissingCheckExpression);
    Ok (check_constraint name columns expression (ConstraintRow.no_inherit row) enforced validated)
  else Err (Thrown.Raised (CatalogError.UnsupportedValue "constraint kind" kind)).

Definition constraint_owner (row : ConstraintRow.t) : relation_name :=
  (ConstraintRow.schema_name row, ConstraintRow.relation_name row).

Definition add_constraint_entry (constraints : list (relation_name * list CatalogConstraint))
    (row : ConstraintRow.t) : scanned (list (relation_name * list CatalogConstraint)) :=
  constraint ← constraint_from_row row;
  Ok (push_entry (constraint_owner row) constraint constraints).

Definition scan_constraints : scan_result (list (relation_name * list CatalogConstraint)) :=
  rows ←? query_all "constraints" CONSTRAINTS_SQL;
  lift (try_fold add_constraint_entry [] rows).

Definition policy (name : string) (command : PolicyCommand) (permissive : bool)
    (roles : list string) (using_expression with_check_expression : option string)
    : RowLevelSecurityPolicy :=
  {| Policy.name := name; Policy.command := command; Policy.permissive := permissive;
     Policy.roles := sort_by kle roles;
     Policy.using_expression_hash := hash_expression <$> using_expression;
     Policy.with_check_expression_hash := hash_expression <$> with_check_expression |}.

Definition policy_from_row (row : PolicyRow.t) : scanned RowLevelSecurityPolicy :=
  let roles := sort_by kle (PolicyRow.roles row) in
  command ← raised (parse_policy_command (PolicyRow.command row));
  Ok (policy (PolicyRow.policy_name row) command (PolicyRow.permissive row) roles
        (PolicyRow.using_expression row) (PolicyRow.with_check_expression row)).

Definition policy_owner (row : PolicyRow.t) : relation_name :=
  (PolicyRow.schema_name row, PolicyRow.relation_name row).

Definition add_policy_entry (policies : list (relation_name * list RowLevelSecurityPolicy))
    (row : PolicyRow.t) : scanned (list (relation_name * list RowLevelSecurityPolicy)) :=
  policy ← policy_from_row row;
  Ok (push_entry (policy_owner row) policy policies).

Definition scan_policies : scan_result (list (relation_name * list RowLevelSecurityPolicy)) :=
  rows ←? query_all "RLS policies" POLICIES_SQL;
  lift (try_fold add_policy_entry [] rows).

Definition view_from_row (row : RelationRow.t) : option CatalogView :=
  (fun definition =>
     {| View.definition_hash := hash_expression definition;
        View.security_invoker := default false (RelationRow.view_security_invoker row);
        View.security_barrier := default false (RelationRow.view_security_barrier row);
        View.owner_authorization :=
          match RelationRow.view_security_invoker row with
          | Some false => Some (role_context (RelationRow.owner row))
          | _ => None
          end |}) <$> RelationRow.view_definition row.

(** What was read of the parts of relations and is not yet taken. *)
Record Parts : Type := mkParts {
  part_columns : list (relation_name * list CatalogColumn);
  part_constraints : list (relation_name * list CatalogConstraint);
  part_policies : list (relation_name * list RowLevelSecurityPolicy);
}.

Definition relation_from_row (parts : Parts) (row : RelationRow.t)
    : scanned (CatalogRelation * Parts) :=
  let key := (RelationRow.schema_name row, RelationRow.relation_name row) in
  let '(columns, columns') := take_entry key (part_columns parts) in
  let '(constraints, constraints') := take_entry key (part_constraints parts) in
  let '(policies, policies') := take_entry key (part_policies parts) in
  kind ← raised (parse_relation_kind (RelationRow.relation_kind row));
  Ok ({| Rel.schema := RelationRow.schema_name row;
         Rel.name := RelationRow.relation_name row;
         Rel.kind := kind;
         Rel.owner := RelationRow.relation_owner row;
         Rel.view := view_from_row row;
         Rel.comment := RelationRow.relation_comment row;
         Rel.grants := {| Grants.schema_usage := RelationRow.schema_usage row;
                          Grants.table_select := RelationRow.table_select row;
                          Grants.any_column_select := RelationRow.any_column_select row |};
         Rel.rls := {| Rls.enabled := RelationRow.rls_enabled row;
                       Rls.forced := RelationRow.rls_forced row |};
         Rel.columns := columns; Rel.constraints := constraints; Rel.policies := policies |},
      mkParts columns' constraints' policies').

Definition scan_relations : scan_result (list CatalogRelation) :=
  columns ←? scan_columns;
  constraints ←? scan_constraints;
  policies ←? scan_policies;
  rows ←? query_all "relations" RELATIONS_SQL;
  lift (fst <$> try_map_st relation_from_row (mkParts columns constraints policies) rows).

(** ** The scan *)

Definition set_fingerprint (fingerprint : string) (s : CatalogSnapshot) : CatalogSnapshot :=
  {| Catalog.schema_version := Catalog.schema_version s;
     Catalog.server_version_num := Catalog.server_version_num s;
     Catalog.current_database := Catalog.current_database s;
     Catalog.current_role := Catalog.current_role s;
     Catalog.role_context := Catalog.role_context s;
     Catalog.role_graph_fingerprint := Catalog.role_graph_fingerprint s;
     Catalog.object_privilege_fingerprint := Catalog.object_privilege_fingerprint s;
     Catalog.functions := Catalog.functions s;
     Catalog.relations := Catalog.relations s;
     Catalog.fingerprint := fingerprint |}.

(** [snapshot.normalize()] and its fingerprint. *)
Definition seal_catalog (snapshot : CatalogSnapshot) : result CatalogError CatalogSnapshot :=
  let snapshot := normalize snapshot in
  fingerprint ← calculate_fingerprint snapshot;
  Ok (set_fingerprint fingerprint snapshot).

Definition CATALOG_SETTINGS : string :=
  "SET LOCAL search_path = pg_catalog; SET LOCAL quote_all_identifiers = off".

(** Everything between the start of the transaction and its commit. *)
Definition read_catalog : scan_result CatalogSnapshot :=
  attempt (fun source => Thrown.Raised (query_error "search path" source))
    (call (BatchExecute Source CATALOG_SETTINGS)) ;;?
  metadata ←? query_one "metadata" METADATA_SQL;
  server_version_num ←? lift (raised (unsigned (MetadataRow.server_version_num metadata)
                                        CatalogError.InvalidServerVersion));
  role ←? query_one "role context" ROLE_CONTEXT_SQL;
  role_graph_fingerprint ←? scan_role_graph_fingerprint;
  object_privilege_fingerprint ←? scan_object_privilege_fingerprint;
  functions ←? scan_functions;
  relations ←? scan_relations;
  lift (raised (seal_catalog
    {| Catalog.schema_version := CATALOG_SNAPSHOT_SCHEMA_VERSION;
       Catalog.server_version_num := server_version_num;
       Catalog.current_database := MetadataRow.current_database metadata;
       Catalog.current_role := MetadataRow.current_role metadata;
       Catalog.role_context := role_context role;
       Catalog.role_graph_fingerprint := role_graph_fingerprint;
       Catalog.object_privilege_fingerprint := object_privilege_fingerprint;
       Catalog.functions := functions;
       Catalog.relations := relations;
       Catalog.fingerprint := EmptyString |})).

Definition scan : scan_result CatalogSnapshot :=
  attempt (fun source => Thrown.Raised (CatalogError.StartTransaction source))
    (call (Begin Source (Some RepeatableRead) true)) ;;?
  snapshot ←? or_rollback Source read_catalog;
  attempt (fun source => Thrown.Raised (CatalogError.Commit source)) (call (Commit Source)) ;;?
  Ret (Ok snapshot).

Definition scan_from_env `{Driver} (env : environment) (variable : string)
    : scan_result CatalogSnapshot :=
  database_url ←? lift (map_err (fun error =>
      Thrown.Raised match error with
                    | NotPresent => CatalogError.MissingConnectionUrl variable
                    | NotUnicode => CatalogError.InvalidConnectionUrl variable
                    end) (env variable));
  attempt (fun source => Thrown.Raised (CatalogError.Connect variable source))
    (connect Source database_url None) ;;?
  scan.
End scan.
