(* ===== verification/CatalogScanTheorems.v ===== *)
(** * What a scan of the catalog records ([catalog.rs])

    The rows a scan reads, what each of them stores, and that a scan is one
    read-only transaction whose result is exactly what its rows store. *)

From S2P Require Import Prelude Ordered Text StrOps Json Lsq Semantic Effects Database Catalog.
From S2P Require Import CatalogScan CatalogDiff Fixtures ExecutorFixtures.

(** Runs a step of fallible code whose result is known. *)
Ltac bind_with H := rewrite H; cbn [mbind result_bind].

(** ** Maps of lists *)

Section groups.
Context {E R V K : Type} `{!EqDecision K, !Ordered K} (owner : R -> K) (parse : R -> result E V).

(** The values of the rows that belong to [k]. *)
Definition belonging (k : K) (rows : list R) (values : list V) : list V :=
  map snd (filter (fun entry => owner entry.1 = k) (zip rows values)).

Lemma group_get k rows values m :
  default [] (bt_get k (foldl (fun m '(row, v) => push_entry (owner row) v m) m (zip rows values)))
  = default [] (bt_get k m) ++ belonging k rows values.
Proof.
  unfold belonging. revert m. induction (zip rows values) as [|[row v] l IH]; intros m; simpl.
  - by rewrite app_nil_r.
  - rewrite IH, filter_cons. unfold push_entry. simpl. case_decide as Hk.
    + subst k. rewrite bt_get_insert_eq. simpl. by rewrite <- app_assoc.
    + by rewrite bt_get_insert_ne by done.
Qed.

Lemma group_ok rows m m' :
  try_fold (fun m row => v ← parse row; Ok (push_entry (owner row) v m)) m rows = Ok m'
  <-> exists values, Forall2 (fun row v => parse row = Ok v) rows values
        /\ m' = foldl (fun m '(row, v) => push_entry (owner row) v m) m (zip rows values).
Proof.
  revert m. induction rows as [|row rows IH]; intros m; simpl; split.
  - intros [= ->]. by exists [].
  - by intros (? & ->%Forall2_nil_inv_l & ->).
  - intros (m1 & (v & Hv & [= <-])%bind_ok & (values & Hvs & ->)%IH)%bind_ok.
    exists (v :: values). by split; [constructor|].
  - intros (? & (v & values & Hv & Hvs & ->)%Forall2_cons_inv_l & ->). rewrite Hv. simpl.
    apply IH. eauto.
Qed.
End groups.

(** Rows that take what belongs to them, each once. *)
Section taking.
Context {E R A S K Y : Type} `{!EqDecision K} (key : R -> K) (view : K -> S -> Y)
  (remove : K -> S -> S) (make : R -> Y -> result E A) (f : S -> R -> result E (A * S)).
Context (Hf : forall s row, f s row = (a ← make row (view (key row) s); Ok (a, remove (key row) s)))
  (Hview : forall s k k', k <> k' -> view k' (remove k s) = view k' s).

Lemma taking_ok rows s l :
  NoDup (map key rows) ->
  fst <$> try_map_st f s rows = Ok l
  <-> Forall2 (fun row a => make row (view (key row) s) = Ok a) rows l.
Proof using Hf Hview.
  revert s l. induction rows as [|row rows IH]; intros s l Hnd; cbn [try_map_st map] in *.
  { split; [by intros [= <-]|]. by intros ->%Forall2_nil_inv_l. }
  apply NoDup_cons in Hnd as [Hrow Hnd]. rewrite Hf.
  assert (Hrest : forall k,
    Forall2 (fun row' a => make row' (view (key row') (remove (key row) s)) = Ok a) rows k
    <-> Forall2 (fun row' a => make row' (view (key row') s) = Ok a) rows k).
  { intros k. clear -Hrow Hview.
    split; (intros HF; induction HF as [|row' a rows k Ha HF IH]; constructor;
            [|apply IH; set_solver]); [rewrite <- Ha|rewrite <- Ha]; f_equal;
    [symmetry|]; apply Hview; set_solver. }
  destruct (make row (view (key row) s)) as [a|e] eqn:Ha; simpl.
  - specialize (IH (remove (key row) s)). split.
    + destruct (try_map_st f (remove (key row) s) rows) as [[k s']|e] eqn:Hk; [|done].
      intros [= <-]. constructor; [done|]. by apply Hrest, IH.
    + intros (a' & k & Ha' & Hk & ->)%Forall2_cons_inv_l.
      apply Hrest, IH in Hk; [|done].
      destruct (try_map_st f (remove (key row) s) rows) as [[k' s']|e]; [|done].
      simpl in *. congruence.
  - split; [done|]. intros (a & k & Ha' & _)%Forall2_cons_inv_l. congruence.
Qed.
End taking.

(** ** What rows store *)

Section stored.
Context `{Crates}.

Definition grant_stored (row : FunctionGrantRow.t) (g : CatalogFunctionGrant) : Prop :=
  FunctionGrantRow.grantee row = Some (FunctionGrant.grantee g)
  /\ FunctionGrantRow.grantor row = FunctionGrant.grantor g
  /\ FunctionGrantRow.is_grantable row = FunctionGrant.grantable g.

(** A function runs with the authority of its owner if it says so; its
    definition is recorded by its digest. *)
Definition function_stored (own : list CatalogFunctionGrant) (row : FunctionRow.t)
    (f : CatalogFunction) : Prop :=
  JStr (FunctionRow.function_kind row) = FunctionKind.to_json (Func.kind f)
  /\ (exists definition, FunctionRow.function_definition row = Some definition
        /\ Func.definition_hash f = sha256 definition)
  /\ Func.schema f = FunctionRow.schema_name row
  /\ Func.name f = FunctionRow.function_name row
  /\ Func.identity_arguments f = FunctionRow.identity_arguments row
  /\ Func.owner f = FunctionRow.function_owner row
  /\ Func.owner_authorization f
     = (if FunctionRow.security_definer row then Some (role_context (FunctionRow.owner row))
        else None)
  /\ Func.grants f = own.

Definition column_stored (row : ColumnRow.t) (c : CatalogColumn) : Prop :=
  Z.of_N (Column.ordinal c) = ColumnRow.ordinal row
  /\ Column.name c = ColumnRow.column_name row
  /\ Column.data_type c = ColumnRow.data_type row
  /\ Column.nullable c = ColumnRow.nullable row
  /\ Column.comment c = ColumnRow.column_comment row
  /\ Column.select_grant c = ColumnRow.column_select row.

Definition foreign_key_stored (row : ConstraintRow.t) (c : CatalogConstraint) : Prop :=
  exists schema relation match_type on_update on_delete match_text update_text delete_text,
    ConstraintRow.referenced_schema row = Some schema
    /\ ConstraintRow.referenced_relation row = Some relation
    /\ ConstraintRow.match_type row = Some match_text
    /\ JStr match_text = ForeignKeyMatch.to_json match_type
    /\ ConstraintRow.on_update row = Some update_text
    /\ JStr update_text = ForeignKeyAction.to_json on_update
    /\ ConstraintRow.on_delete row = Some delete_text
    /\ JStr delete_text = ForeignKeyAction.to_json on_delete
    /\ c = Constraint.ForeignKey (ConstraintRow.constraint_name row) (ConstraintRow.columns row)
             (RelationReference.mk schema relation) (ConstraintRow.referenced_columns row)
             (ConstraintRow.delete_set_columns row) match_type on_update on_delete
             (ConstraintRow.enforced row) (ConstraintRow.period row)
             (ConstraintRow.deferrable row) (ConstraintRow.initially_deferred row)
             (ConstraintRow.validated row).

(** The expression of a check is recorded by its digest. *)
Definition constraint_stored (row : ConstraintRow.t) (c : CatalogConstraint) : Prop :=
  let kind := ConstraintRow.constraint_kind row in
  (kind = "primary_key"
   /\ c = Constraint.PrimaryKey (ConstraintRow.constraint_name row) (ConstraintRow.columns row)
            (ConstraintRow.enforced row) (ConstraintRow.period row)
            (ConstraintRow.deferrable row) (ConstraintRow.initially_deferred row)
            (ConstraintRow.validated row))
  \/ (kind = "unique"
      /\ c = Constraint.Unique (ConstraintRow.constraint_name row) (ConstraintRow.columns row)
               (ConstraintRow.nulls_not_distinct row) (ConstraintRow.enforced row)
               (ConstraintRow.period row) (ConstraintRow.deferrable row)
               (ConstraintRow.initially_deferred row) (ConstraintRow.validated row))
  \/ (kind = "foreign_key" /\ foreign_key_stored row c)
  \/ (kind = "check"
      /\ exists expression, ConstraintRow.check_expression row = Some expression
         /\ c = Constraint.Check_ (ConstraintRow.constraint_name row) (ConstraintRow.columns row)
                  (sha256 expression) (ConstraintRow.no_inherit row)
                  (ConstraintRow.enforced row) (ConstraintRow.validated row)).

(** The expressions of a policy are recorded by their digests, its roles in
    order. *)
Definition policy_stored (row : PolicyRow.t) (p : RowLevelSecurityPolicy) : Prop :=
  JStr (PolicyRow.command row) = PolicyCommand.to_json (Policy.command p)
  /\ Policy.name p = PolicyRow.policy_name row
  /\ Policy.permissive p = PolicyRow.permissive row
  /\ Policy.roles p = sort_by kle (PolicyRow.roles row)
  /\ Policy.using_expression_hash p = sha256 <$> PolicyRow.using_expression row
  /\ Policy.with_check_expression_hash p = sha256 <$> PolicyRow.with_check_expression row.

(** A view runs with the authority of its owner when it is known not to run
    with that of the caller. *)
Definition view_stored (row : RelationRow.t) (v : option CatalogView) : Prop :=
  match RelationRow.view_definition row, v with
  | None, None => True
  | Some definition, Some v =>
      View.definition_hash v = sha256 definition
      /\ View.security_invoker v = default false (RelationRow.view_security_invoker row)
      /\ View.security_barrier v = default false (RelationRow.view_security_barrier row)
      /\ View.owner_authorization v
         = (if decide (RelationRow.view_security_invoker row = Some false)
            then Some (role_context (RelationRow.owner row)) else None)
  | _, _ => False
  end.

Definition relation_owner (row : RelationRow.t) : string * string :=
  (RelationRow.schema_name row, RelationRow.relation_name row).

Definition relation_stored (columns : list CatalogColumn) (constraints : list CatalogConstraint)
    (policies : list RowLevelSecurityPolicy) (row : RelationRow.t) (r : CatalogRelation) : Prop :=
  JStr (RelationRow.relation_kind row) = RelationKind.to_json (Rel.kind r)
  /\ (Rel.schema r, Rel.name r) = relation_owner row
  /\ Rel.owner r = RelationRow.relation_owner row
  /\ view_stored row (Rel.view r)
  /\ Rel.comment r = RelationRow.relation_comment row
  /\ Rel.grants r = Grants.mk (RelationRow.schema_usage row) (RelationRow.table_select row)
                      (RelationRow.any_column_select row)
  /\ Rel.rls r = Rls.mk (RelationRow.rls_enabled row) (RelationRow.rls_forced row)
  /\ Rel.columns r = columns /\ Rel.constraints r = constraints /\ Rel.policies r = policies.

(** ** The rows of a scan *)

Record CatalogRows : Type := mkRows {
  metadata_row : MetadataRow.t;
  context_row : RoleContextRow.t;
  role_graph_rows : list RoleGraphRow.t;
  privilege_rows : list ObjectPrivilegeRow.t;
  grant_rows : list FunctionGrantRow.t;
  function_rows : list FunctionRow.t;
  column_rows : list ColumnRow.t;
  constraint_rows : list ConstraintRow.t;
  policy_rows : list PolicyRow.t;
  relation_rows : list RelationRow.t;
}.

(** One transaction: settings, ten statements, the commit. *)
Definition transcript (rows : CatalogRows) : list (event answer) :=
  [Ev (Begin Source (Some RepeatableRead) true) (Ok tt);
   Ev (BatchExecute Source CATALOG_SETTINGS) (Ok tt);
   Ev (QueryOne Source METADATA_SQL) (Ok (metadata_row rows));
   Ev (QueryOne Source ROLE_CONTEXT_SQL) (Ok (context_row rows));
   Ev (Query Source ROLE_GRAPH_SQL) (Ok (role_graph_rows rows));
   Ev (Query Source OBJECT_PRIVILEGES_SQL) (Ok (privilege_rows rows));
   Ev (Query Source FUNCTION_GRANTS_SQL) (Ok (grant_rows rows));
   Ev (Query Source FUNCTIONS_SQL) (Ok (function_rows rows));
   Ev (Query Source COLUMNS_SQL) (Ok (column_rows rows));
   Ev (Query Source CONSTRAINTS_SQL) (Ok (constraint_rows rows));
   Ev (Query Source POLICIES_SQL) (Ok (policy_rows rows));
   Ev (Query Source RELATIONS_SQL) (Ok (relation_rows rows));
   Ev (Commit Source) (Ok tt)].

(** PostgreSQL's own keys: the object identifier of a function, the schema and
    the name of a relation. *)
Definition rows_distinct (rows : CatalogRows) : Prop :=
  NoDup (map FunctionRow.function_oid (function_rows rows))
  /\ NoDup (map relation_owner (relation_rows rows)).

(** The catalog the rows describe, before it is put in canonical order. *)
Definition described (rows : CatalogRows) (s : CatalogSnapshot) : Prop :=
  exists grants columns constraints policies,
    Forall2 grant_stored (grant_rows rows) grants
    /\ Forall2 column_stored (column_rows rows) columns
    /\ Forall2 constraint_stored (constraint_rows rows) constraints
    /\ Forall2 policy_stored (policy_rows rows) policies
    /\ Forall2 (fun row f =>
         function_stored (belonging FunctionGrantRow.function_oid (FunctionRow.function_oid row)
                            (grant_rows rows) grants) row f)
         (function_rows rows) (Catalog.functions s)
    /\ Forall2 (fun row r =>
         let own {R V} (owner : R -> string * string) := @belonging R V _ _ owner (relation_owner row) in
         relation_stored (own column_owner (column_rows rows) columns)
           (own constraint_owner (constraint_rows rows) constraints)
           (own policy_owner (policy_rows rows) policies) row r)
         (relation_rows rows) (Catalog.relations s)
    /\ evidence_digest (map role_graph_evidence (role_graph_rows rows))
       = Ok (Catalog.role_graph_fingerprint s)
    /\ evidence_digest (map object_privilege_evidence (privilege_rows rows))
       = Ok (Catalog.object_privilege_fingerprint s)
    /\ Z.of_N (Catalog.server_version_num s) = MetadataRow.server_version_num (metadata_row rows)
    /\ Catalog.current_database s = MetadataRow.current_database (metadata_row rows)
    /\ Catalog.current_role s = MetadataRow.current_role (metadata_row rows)
    /\ Catalog.role_context s = role_context (context_row rows)
    /\ Catalog.schema_version s = CATALOG_SNAPSHOT_SCHEMA_VERSION
    /\ Catalog.fingerprint s = EmptyString.
End stored.

(** ** Reading a row *)

(** A text is parsed as the value that is serialised as that text. *)
Ltac parse_text k :=
  split; [intros Hp; repeat (case_decide; [by simplify_eq/=|]); discriminate Hp
         |destruct k; by intros [= ->]].

Lemma parse_relation_kind_ok value k :
  raised (parse_relation_kind value) = Ok k <-> JStr value = RelationKind.to_json k.
Proof. unfold parse_relation_kind. parse_text k. Qed.

Lemma parse_function_kind_ok value k :
  raised (parse_function_kind value) = Ok k <-> JStr value = FunctionKind.to_json k.
Proof. unfold parse_function_kind. parse_text k. Qed.

Lemma parse_foreign_key_match_ok value k :
  raised (parse_foreign_key_match value) = Ok k <-> JStr value = ForeignKeyMatch.to_json k.
Proof. unfold parse_foreign_key_match. parse_text k. Qed.

Lemma parse_foreign_key_action_ok value k :
  raised (parse_foreign_key_action value) = Ok k <-> JStr value = ForeignKeyAction.to_json k.
Proof. unfold parse_foreign_key_action. parse_text k. Qed.

Lemma parse_policy_command_ok value k :
  raised (parse_policy_command value) = Ok k <-> JStr value = PolicyCommand.to_json k.
Proof. unfold parse_policy_command. parse_text k. Qed.

Lemma unsigned_ok value error n : raised (unsigned value error) = Ok n <-> Z.of_N n = value.
Proof.
  unfold unsigned. case_decide; simpl; split.
  - done.
  - lia.
  - intros [= <-]. lia.
  - intros <-. by rewrite N2Z.id.
Qed.

Lemma required_ok {A} (o : option A) a : required o = Ok a <-> o = Some a.
Proof. destruct o; simpl; naive_solver. Qed.

Section rows.
Context `{HC : Crates}.

Lemma grant_from_row_ok row g : grant_from_row row = Ok g <-> grant_stored row g.
Proof.
  unfold grant_from_row, grant_stored. destruct g as [gr ge b]. simpl. split.
  - intros (x & Hx%required_ok & [= <- <- <-])%bind_ok. done.
  - intros (Hx & -> & ->). by rewrite Hx.
Qed.

Lemma column_from_row_ok row c : column_from_row row = Ok c <-> column_stored row c.
Proof.
  unfold column_from_row, column_stored. destruct c. simpl. split.
  - intros (n & Hn%unsigned_ok & [= <- <- <- <- <- <-])%bind_ok. done.
  - intros (Hn & -> & -> & -> & -> & ->).
    apply (unsigned_ok _ CatalogError.InvalidColumnOrdinal) in Hn. by rewrite Hn.
Qed.

Lemma policy_from_row_ok row p : policy_from_row row = Ok p <-> policy_stored row p.
Proof.
  unfold policy_from_row, policy_stored, policy. destruct p.
  cbn zeta. cbn [Policy.name Policy.command Policy.permissive Policy.roles
    Policy.using_expression_hash Policy.with_check_expression_hash].
  rewrite sort_by_idemp by apply _. split.
  - intros (c & Hc%parse_policy_command_ok & [= <- <- <- <- <- <-])%bind_ok. done.
  - intros (Hc%parse_policy_command_ok & -> & -> & -> & -> & ->). by rewrite Hc.
Qed.

Lemma foreign_key_from_row_ok row c :
  ConstraintRow.constraint_kind row = "foreign_key" ->
  constraint_from_row row = Ok c <-> foreign_key_stored row c.
Proof.
  intros Hk. unfold constraint_from_row, foreign_key_stored. rewrite Hk.
  rewrite decide_False, decide_False, decide_True by done. split.
  - intros (schema & Hs%ok_or_ok & (relation & Hr%ok_or_ok & (mt & Hmt%required_ok
      & (m & Hm%parse_foreign_key_match_ok & (ut & Hut%required_ok
      & (u & Hu%parse_foreign_key_action_ok & (dt & Hdt%required_ok
      & (d & Hd%parse_foreign_key_action_ok & [= <-])%bind_ok)%bind_ok)%bind_ok)%bind_ok)%bind_ok
      )%bind_ok)%bind_ok)%bind_ok.
    exists schema, relation, m, u, d, mt, ut, dt. done.
  - intros (schema & relation & m & u & d & mt & ut & dt & Hs & Hr & Hmt
      & Hm%parse_foreign_key_match_ok & Hut & Hu%parse_foreign_key_action_ok & Hdt
      & Hd%parse_foreign_key_action_ok & ->).
    rewrite Hs, Hr, Hmt, Hut, Hdt. cbn. rewrite Hm. cbn. rewrite Hu. cbn. by rewrite Hd.
Qed.

Lemma constraint_from_row_ok row c : constraint_from_row row = Ok c <-> constraint_stored row c.
Proof.
  unfold constraint_stored.
  destruct (decide (ConstraintRow.constraint_kind row = "foreign_key")) as [Hf|Hf].
  { rewrite foreign_key_from_row_ok, Hf by done. naive_solver. }
  unfold constraint_from_row. split.
  - case_decide; [intros [= <-]; auto|]. case_decide; [intros [= <-]; auto|].
    rewrite decide_False by done. case_decide as Hk; [|done].
    intros (e & He%ok_or_ok & [= <-])%bind_ok. right; right; right. eauto.
  - intros [[Hk ->]|[[Hk ->]|[[Hk _]|(Hk & e & He & ->)]]]; [..|done|]; rewrite Hk; try done.
    simpl. by rewrite He.
Qed.

Definition make_function (row : FunctionRow.t) (own : list CatalogFunctionGrant)
    : scanned CatalogFunction := fst <$> function_from_row [(FunctionRow.function_oid row, own)] row.

Lemma function_from_row_eq grants row :
  function_from_row grants row
  = (f ← make_function row (default [] (bt_get (FunctionRow.function_oid row) grants));
     Ok (f, filter (fun entry => entry.1 <> FunctionRow.function_oid row) grants)).
Proof.
  unfold make_function, function_from_row, take_entry.
  destruct (raised _) as [k|e]; [|done]. cbn. destruct (required _) as [d|e]; [|done]. cbn.
  by rewrite decide_True.
Qed.

Lemma make_function_ok row own f : make_function row own = Ok f <-> function_stored own row f.
Proof.
  unfold make_function, function_from_row, function_stored, take_entry, hash_expression.
  destruct f as [sch nm ia k dh ow oa gr]. cbn. rewrite decide_True by done. split.
  - destruct (raised _) as [k'|e] eqn:Hk; [|done]. apply parse_function_kind_ok in Hk. cbn.
    destruct (FunctionRow.function_definition row) as [d|]; [|done]. cbn.
    intros [= <- <- <- <- <- <- <- <-]. eauto 20.
  - intros (Hk%parse_function_kind_ok & (d & Hd & ->) & -> & -> & -> & -> & -> & ->).
    rewrite Hk. cbn. by rewrite Hd.
Qed.

Lemma view_from_row_ok row v : view_from_row row = v <-> view_stored row v.
Proof.
  unfold view_from_row, view_stored, hash_expression.
  destruct (RelationRow.view_definition row) as [d|], v as [[h i b o]|]; cbn; try naive_solver.
  destruct (RelationRow.view_security_invoker row) as [[]|]; cbn; naive_solver.
Qed.

(** What a relation takes: its columns, its constraints, its policies. *)
Definition parts_at (key : string * string) (parts : Parts)
    : list CatalogColumn * list CatalogConstraint * list RowLevelSecurityPolicy :=
  (default [] (bt_get key (part_columns parts)), default [] (bt_get key (part_constraints parts)),
   default [] (bt_get key (part_policies parts))).

Definition parts_without (key : string * string) (parts : Parts) : Parts :=
  mkParts (filter (fun entry => entry.1 <> key) (part_columns parts))
    (filter (fun entry => entry.1 <> key) (part_constraints parts))
    (filter (fun entry => entry.1 <> key) (part_policies parts)).

Definition make_relation (row : RelationRow.t)
    (own : list CatalogColumn * list CatalogConstraint * list RowLevelSecurityPolicy)
    : scanned CatalogRelation :=
  let key := relation_owner row in
  fst <$> relation_from_row (mkParts [(key, own.1.1)] [(key, own.1.2)] [(key, own.2)]) row.

Lemma relation_from_row_eq parts row :
  relation_from_row parts row
  = (r ← make_relation row (parts_at (relation_owner row) parts);
     Ok (r, parts_without (relation_owner row) parts)).
Proof.
  unfold make_relation, relation_from_row, take_entry, relation_owner. cbn.
  rewrite !decide_True by done. by destruct (raised _) as [k|e].
Qed.

Lemma make_relation_ok row columns constraints policies r :
  make_relation row (columns, constraints, policies) = Ok r
  <-> relation_stored columns constraints policies row r.
Proof.
  unfold make_relation, relation_from_row, relation_stored, take_entry, relation_owner.
  rewrite <- view_from_row_ok. destruct r as [sch nm k ow v c g rls cs ks ps]. cbn.
  rewrite !decide_True by done. split.
  - destruct (raised _) as [k'|e] eqn:Hk; [|done]. apply parse_relation_kind_ok in Hk. cbn.
    intros [= <- <- <- <- <- <- <- <- <- <- <-]. done.
  - intros (Hk%parse_relation_kind_ok & [= -> ->] & -> & -> & -> & -> & -> & -> & -> & ->).
    by rewrite Hk.
Qed.

Lemma bt_get_without {K V} `{!EqDecision K} (k k' : K) (m : list (K * V)) :
  k <> k' -> bt_get k' (filter (fun entry => entry.1 <> k) m) = bt_get k' m.
Proof.
  intros Hk. induction m as [|[k2 v] m IH]; [done|]. rewrite filter_cons. cbn.
  repeat case_decide; cbn; subst; try done; by rewrite ?decide_True, ?decide_False by done.
Qed.

(** ** Reading the rows of a scan *)

Definition grouped {R V K} `{!EqDecision K, !Ordered K} (owner : R -> K) (rows : list R)
    (values : list V) : list (K * list V) :=
  foldl (fun m '(row, v) => push_entry (owner row) v m) [] (zip rows values).

Lemma grouped_get {R V K} `{!EqDecision K, !Ordered K} (owner : R -> K) k rows (values : list V) :
  default [] (bt_get k (grouped owner rows values)) = belonging owner k rows values.
Proof. exact (group_get owner k rows values []). Qed.

Lemma grouped_ok {R V K} `{!EqDecision K, !Ordered K} (owner : R -> K) (parse : R -> scanned V)
    (stored : R -> V -> Prop) rows m :
  (forall row v, parse row = Ok v <-> stored row v) ->
  try_fold (fun m row => v ← parse row; Ok (push_entry (owner row) v m)) [] rows = Ok m
  <-> exists values, Forall2 stored rows values /\ m = grouped owner rows values.
Proof.
  intros Hparse. rewrite group_ok.
  split; intros (values & HF & Hm); exists values; (split; [|done]);
    (eapply Forall2_impl; [exact HF|]); intros; by apply Hparse.
Qed.

Lemma functions_ok grants rows l :
  NoDup (map FunctionRow.function_oid rows) ->
  fst <$> try_map_st function_from_row grants rows = Ok l
  <-> Forall2 (fun row f =>
        function_stored (default [] (bt_get (FunctionRow.function_oid row) grants)) row f) rows l.
Proof.
  intros Hnd.
  rewrite (taking_ok FunctionRow.function_oid (fun k m => default [] (bt_get k m))
             (fun k => filter (fun entry => entry.1 <> k)) make_function).
  - split; (intros HF; eapply Forall2_impl; [exact HF|]); intros; by apply make_function_ok.
  - intros. apply function_from_row_eq.
  - intros m k k' Hk. by rewrite bt_get_without.
  - done.
Qed.

Lemma relations_ok parts rows l :
  NoDup (map relation_owner rows) ->
  fst <$> try_map_st relation_from_row parts rows = Ok l
  <-> Forall2 (fun row r =>
        let '(columns, constraints, policies) := parts_at (relation_owner row) parts in
        relation_stored columns constraints policies row r) rows l.
Proof.
  intros Hnd.
  rewrite (taking_ok relation_owner parts_at parts_without make_relation).
  - split; (intros HF; eapply Forall2_impl; [exact HF|]); intros; by apply make_relation_ok.
  - intros. apply relation_from_row_eq.
  - intros m k k' Hk. unfold parts_at, parts_without. cbn. by rewrite !bt_get_without.
  - done.
Qed.

(** Everything a scan computes from its rows, in its order. *)
Definition read_rows (rows : CatalogRows) : scanned CatalogSnapshot :=
  server_version_num ← raised (unsigned (MetadataRow.server_version_num (metadata_row rows))
                                 CatalogError.InvalidServerVersion);
  role_graph_fingerprint ← evidence_digest (map role_graph_evidence (role_graph_rows rows));
  object_privilege_fingerprint ←
    evidence_digest (map object_privilege_evidence (privilege_rows rows));
  grants ← try_fold add_grant [] (grant_rows rows);
  functions ← fst <$> try_map_st function_from_row grants (function_rows rows);
  columns ← try_fold add_column_entry [] (column_rows rows);
  constraints ← try_fold add_constraint_entry [] (constraint_rows rows);
  policies ← try_fold add_policy_entry [] (policy_rows rows);
  relations ← fst <$> try_map_st relation_from_row (mkParts columns constraints policies)
                        (relation_rows rows);
  Ok {| Catalog.schema_version := CATALOG_SNAPSHOT_SCHEMA_VERSION;
        Catalog.server_version_num := server_version_num;
        Catalog.current_database := MetadataRow.current_database (metadata_row rows);
        Catalog.current_role := MetadataRow.current_role (metadata_row rows);
        Catalog.role_context := role_context (context_row rows);
        Catalog.role_graph_fingerprint := role_graph_fingerprint;
        Catalog.object_privilege_fingerprint := object_privilege_fingerprint;
        Catalog.functions := functions;
        Catalog.relations := relations;
        Catalog.fingerprint := EmptyString |}.

Lemma read_rows_described rows s :
  rows_distinct rows -> read_rows rows = Ok s -> described rows s.
Proof.
  intros [Hof Hor]. unfold read_rows. intros Hs.
  apply bind_ok in Hs as (num & Hnum%unsigned_ok & Hs).
  apply bind_ok in Hs as (rg & Hrg & Hs). apply bind_ok in Hs as (op & Hop & Hs).
  apply bind_ok in Hs as (gm & Hgm & Hs). apply bind_ok in Hs as (funs & Hfuns & Hs).
  apply bind_ok in Hs as (cm & Hcm & Hs). apply bind_ok in Hs as (km & Hkm & Hs).
  apply bind_ok in Hs as (pm & Hpm & Hs). apply bind_ok in Hs as (rels & Hrels & [= <-]).
  apply (grouped_ok _ _ _ _ _ grant_from_row_ok) in Hgm as (grants & Hgrants & ->).
  apply (grouped_ok _ _ _ _ _ column_from_row_ok) in Hcm as (columns & Hcolumns & ->).
  apply (grouped_ok _ _ _ _ _ constraint_from_row_ok) in Hkm as (constraints & Hconstraints & ->).
  apply (grouped_ok _ _ _ _ _ policy_from_row_ok) in Hpm as (policies & Hpolicies & ->).
  apply functions_ok in Hfuns; [|done]. apply relations_ok in Hrels; [|done].
  exists grants, columns, constraints, policies. cbn.
  split_and!; try done.
  - eapply Forall2_impl; [exact Hfuns|]. intros row f. cbn beta. by rewrite grouped_get.
  - eapply Forall2_impl; [exact Hrels|]. intros row r. unfold parts_at. cbn.
    by rewrite !grouped_get.
Qed.

Lemma described_read_rows rows s :
  rows_distinct rows -> described rows s -> read_rows rows = Ok s.
Proof.
  intros [Hof Hor] (grants & columns & constraints & policies & Hgrants & Hcolumns & Hconstraints
    & Hpolicies & Hfuns & Hrels & Hrg & Hop & Hnum & Hdb & Hrole & Hctx & Hversion & Hfp).
  assert (Hgm : try_fold add_grant [] (grant_rows rows)
                = Ok (grouped FunctionGrantRow.function_oid (grant_rows rows) grants))
    by (apply (grouped_ok _ _ _ _ _ grant_from_row_ok); eauto).
  assert (Hcm : try_fold add_column_entry [] (column_rows rows)
                = Ok (grouped column_owner (column_rows rows) columns))
    by (apply (grouped_ok _ _ _ _ _ column_from_row_ok); eauto).
  assert (Hkm : try_fold add_constraint_entry [] (constraint_rows rows)
                = Ok (grouped constraint_owner (constraint_rows rows) constraints))
    by (apply (grouped_ok _ _ _ _ _ constraint_from_row_ok); eauto).
  assert (Hpm : try_fold add_policy_entry [] (policy_rows rows)
                = Ok (grouped policy_owner (policy_rows rows) policies))
    by (apply (grouped_ok _ _ _ _ _ policy_from_row_ok); eauto).
  apply (unsigned_ok _ CatalogError.InvalidServerVersion) in Hnum.
  unfold read_rows. bind_with Hnum. bind_with Hrg. bind_with Hop. bind_with Hgm.
  rewrite (proj2 (functions_ok _ _ (Catalog.functions s) Hof)).
  2: { eapply Forall2_impl; [exact Hfuns|]. intros row f. cbn beta. by rewrite grouped_get. }
  cbn [mbind result_bind]. bind_with Hcm. bind_with Hkm. bind_with Hpm.
  rewrite (proj2 (relations_ok _ _ (Catalog.relations s) Hor)).
  2: { eapply Forall2_impl; [exact Hrels|]. intros row r. unfold parts_at. cbn.
       by rewrite !grouped_get. }
  destruct s. cbn in *. by subst.
Qed.

(** ** The transaction *)

(** The part of a run that follows an answered statement. *)
Lemma runs_query_all {B} operation s (k : list (row_of s) -> scan_result B) tr b :
  runs (try_bind (query_all operation s) k) tr (Ok b)
  <-> exists rows tr', tr = Ev (Query Source s) (Ok rows) :: tr' /\ runs (k rows) tr' (Ok b).
Proof.
  split.
  - intros ([rows|e] & tr' & -> & Hr); [by exists rows, tr'|]. by destruct Hr as [_ [=]].
  - intros (rows & tr' & -> & Hr). by exists (Ok rows), tr'.
Qed.

Lemma runs_query_one {B} operation s (k : row_of s -> scan_result B) tr b :
  runs (try_bind (query_one operation s) k) tr (Ok b)
  <-> exists row tr', tr = Ev (QueryOne Source s) (Ok row) :: tr' /\ runs (k row) tr' (Ok b).
Proof.
  split.
  - intros ([rows|e] & tr' & -> & Hr); [by exists rows, tr'|]. by destruct Hr as [_ [=]].
  - intros (rows & tr' & -> & Hr). by exists (Ok rows), tr'.
Qed.

Lemma runs_lifted {E A B} (m : result E A) (k : A -> io_result E B) tr b :
  runs (try_bind (lift m) k) tr (Ok b) <-> exists a, m = Ok a /\ runs (k a) tr (Ok b).
Proof.
  split; [apply runs_try_lift|]. intros (a & -> & Hr). exact Hr.
Qed.

Lemma runs_try_iff {E A B} (p : io_result E A) (k : A -> io_result E B) tr b :
  runs (try_bind p k) tr (Ok b)
  <-> exists tr1 a tr2, tr = tr1 ++ tr2 /\ runs p tr1 (Ok a) /\ runs (k a) tr2 (Ok b).
Proof.
  split; [apply runs_try|]. intros (tr1 & a & tr2 & -> & H1 & H2).
  apply runs_bind. by exists tr1, (Ok a), tr2.
Qed.

(** A statement whose rows are read by a function. *)
Lemma runs_reading {A} operation s (read : list (row_of s) -> scanned A) tr a :
  runs (rows ←? query_all operation s; lift (read rows)) tr (Ok a)
  <-> exists rows, tr = [Ev (Query Source s) (Ok rows)] /\ read rows = Ok a.
Proof.
  rewrite runs_query_all. split.
  - intros (rows & tr' & -> & -> & Ha). by exists rows.
  - intros (rows & -> & Ha). exists rows, []. done.
Qed.

Lemma scan_functions_runs tr l :
  runs scan_functions tr (Ok l)
  <-> exists grant_rows rows grants,
        tr = [Ev (Query Source FUNCTION_GRANTS_SQL) (Ok grant_rows);
              Ev (Query Source FUNCTIONS_SQL) (Ok rows)]
        /\ try_fold add_grant [] grant_rows = Ok grants
        /\ fst <$> try_map_st function_from_row grants rows = Ok l.
Proof.
  unfold scan_functions, scan_function_grants. rewrite runs_try_iff. split.
  - intros (tr1 & grants & tr2 & -> & (gr & -> & Hg)%runs_reading & (rows & -> & Hl)%runs_reading).
    by exists gr, rows, grants.
  - intros (gr & rows & grants & -> & Hg & Hl).
    exists [Ev (Query Source FUNCTION_GRANTS_SQL) (Ok gr)], grants,
      [Ev (Query Source FUNCTIONS_SQL) (Ok rows)].
    split; [done|]. split; apply runs_reading; eauto.
Qed.

Lemma scan_relations_runs tr l :
  runs scan_relations tr (Ok l)
  <-> exists column_rows constraint_rows policy_rows rows columns constraints policies,
        tr = [Ev (Query Source COLUMNS_SQL) (Ok column_rows);
              Ev (Query Source CONSTRAINTS_SQL) (Ok constraint_rows);
              Ev (Query Source POLICIES_SQL) (Ok policy_rows);
              Ev (Query Source RELATIONS_SQL) (Ok rows)]
        /\ try_fold add_column_entry [] column_rows = Ok columns
        /\ try_fold add_constraint_entry [] constraint_rows = Ok constraints
        /\ try_fold add_policy_entry [] policy_rows = Ok policies
        /\ fst <$> try_map_st relation_from_row (mkParts columns constraints policies) rows = Ok l.
Proof.
  unfold scan_relations, scan_columns, scan_constraints, scan_policies. split.
  - intros (tr1 & cm & tr2 & -> & (cr & -> & Hc)%runs_reading & H)%runs_try.
    apply runs_try in H as (tr3 & km & tr4 & -> & (kr & -> & Hk)%runs_reading & H).
    apply runs_try in H as (tr5 & pm & tr6 & -> & (pr & -> & Hp)%runs_reading & H).
    apply runs_reading in H as (rows & -> & Hl).
    by exists cr, kr, pr, rows, cm, km, pm.
  - intros (cr & kr & pr & rows & cm & km & pm & -> & Hc & Hk & Hp & Hl).
    apply runs_try_iff. exists [Ev (Query Source COLUMNS_SQL) (Ok cr)], cm.
    eexists. split; [done|]. split; [apply runs_reading; eauto|].
    apply runs_try_iff. exists [Ev (Query Source CONSTRAINTS_SQL) (Ok kr)], km.
    eexists. split; [done|]. split; [apply runs_reading; eauto|].
    apply runs_try_iff. exists [Ev (Query Source POLICIES_SQL) (Ok pr)], pm.
    eexists. split; [done|]. split; apply runs_reading; eauto.
Qed.

Lemma scan_transcript tr s :
  runs scan tr (Ok s) ->
  exists rows raw, tr = transcript rows /\ read_rows rows = Ok raw /\ seal_catalog raw = Ok s.
Proof.
  unfold scan, read_catalog, scan_role_graph_fingerprint, scan_object_privilege_fingerprint.
  intros (tr0 & [] & tr' & -> & (? & ? & -> & -> & <-)%runs_attempt & H)%runs_try.
  apply runs_try in H as (tr1 & snapshot & tr2 & -> & H & Hcommit).
  apply runs_try in Hcommit as (? & [] & ? & -> & (? & ? & -> & -> & <-)%runs_attempt & [-> [= <-]]).
  apply runs_bind in H as (tr3 & [raw|t] & tr4 & -> & H & Hend);
    [|by destruct Hend as (? & ? & _ & _ & [=])].
  destruct Hend as [-> [= <-]]. rewrite app_nil_r.
  apply runs_try in H as (? & [] & tr5 & -> & (? & ? & -> & -> & <-)%runs_attempt & H).
  apply runs_query_one in H as (metadata & tr6 & -> & H).
  apply runs_lifted in H as (num & Hnum & H).
  apply runs_query_one in H as (role & tr7 & -> & H).
  apply runs_try in H as (tr8 & rg & tr9 & -> & (rgr & -> & Hrg)%runs_reading & H).
  apply runs_try in H as (tr10 & op & tr11 & -> & (opr & -> & Hop)%runs_reading & H).
  apply runs_try in H as (tr12 & funs & tr13 & -> & (gr & fr & gm & -> & Hg & Hf)%scan_functions_runs & H).
  apply runs_try in H as (tr14 & rels & tr15 & ->
    & (cr & kr & pr & rr & cm & km & pm & -> & Hc & Hk & Hp & Hr)%scan_relations_runs & H).
  destruct H as [-> Hs].
  eexists (mkRows metadata role rgr opr gr fr cr kr pr rr), _. split; [done|].
  unfold read_rows. cbn [metadata_row context_row role_graph_rows privilege_rows grant_rows
    function_rows column_rows constraint_rows policy_rows relation_rows].
  bind_with Hnum. bind_with Hrg. bind_with Hop. bind_with Hg. bind_with Hf.
  bind_with Hc. bind_with Hk. bind_with Hp. rewrite Hr. split; [done|].
  symmetry in Hs. by apply map_err_ok in Hs.
Qed.

Lemma transcript_scan rows raw s :
  read_rows rows = Ok raw -> seal_catalog raw = Ok s -> runs scan (transcript rows) (Ok s).
Proof.
  unfold read_rows. intros Hraw Hs.
  apply bind_ok in Hraw as (num & Hnum & Hraw). apply bind_ok in Hraw as (rg & Hrg & Hraw).
  apply bind_ok in Hraw as (op & Hop & Hraw). apply bind_ok in Hraw as (gm & Hg & Hraw).
  apply bind_ok in Hraw as (funs & Hf & Hraw). apply bind_ok in Hraw as (cm & Hc & Hraw).
  apply bind_ok in Hraw as (km & Hk & Hraw). apply bind_ok in Hraw as (pm & Hp & Hraw).
  apply bind_ok in Hraw as (rels & Hr & [= <-]).
  assert (Hread : runs read_catalog (removelast (tail (transcript rows))) (Ok s)).
  { unfold read_catalog, scan_role_graph_fingerprint, scan_object_privilege_fingerprint.
    exists (Ok tt). eexists. split; [done|].
    apply runs_query_one. eexists _, _. split; [done|].
    apply runs_lifted. exists num. split; [done|].
    apply runs_query_one. eexists _, _. split; [done|].
    apply runs_try_iff. eexists [_], rg, _. split; [done|]. split; [apply runs_reading; eauto|].
    apply runs_try_iff. eexists [_], op, _. split; [done|]. split; [apply runs_reading; eauto|].
    apply runs_try_iff. eexists [_; _], funs, _. split; [done|].
    split; [apply scan_functions_runs; eauto 10|].
    apply runs_try_iff. eexists [_; _; _; _], rels, []. split; [done|].
    split; [apply scan_relations_runs; do 7 eexists; eauto 10|].
    split; [done|]. by rewrite Hs. }
  exists (Ok tt). eexists. split; [done|]. apply runs_try_iff.
  exists (removelast (tail (transcript rows))), s, [Ev (Commit Source) (Ok tt)].
  split; [done|]. split.
  - apply runs_bind. exists (removelast (tail (transcript rows))), (Ok s), [].
    by rewrite app_nil_r.
  - exists (Ok tt), []. done.
Qed.

(** ** Sealed catalogs *)

Lemma seal_catalog_ok raw s :
  seal_catalog raw = Ok s -> normalize s = s /\ Catalog.schema_version s = Catalog.schema_version raw
    /\ calculate_fingerprint s = Ok (Catalog.fingerprint s).
Proof.
  unfold seal_catalog. cbn zeta. intros (fp & Hfp & [= <-])%bind_ok. split_and!; [|done|].
  - transitivity (set_fingerprint fp (normalize (normalize raw))); [done|].
    by rewrite normalize_idemp.
  - exact Hfp.
Qed.

(** ** Every run *)

(** The calls inside the transaction. *)
Definition catalog_read (op : operation) : Prop :=
  match op with
  | BatchExecute Source sql => sql = CATALOG_SETTINGS
  | QueryOne Source s => s = METADATA_SQL \/ s = ROLE_CONTEXT_SQL
  | Query Source s =>
      s ∈ [ROLE_GRAPH_SQL; OBJECT_PRIVILEGES_SQL; FUNCTION_GRANTS_SQL; FUNCTIONS_SQL; COLUMNS_SQL;
           CONSTRAINTS_SQL; POLICIES_SQL; RELATIONS_SQL]
  | _ => False
  end.

Lemma read_catalog_reads :
  quiet (M := unit) (fun _ op => catalog_read op) (fun _ _ _ => tt) read_catalog tt.
Proof.
  unfold read_catalog, scan_role_graph_fingerprint, scan_object_privilege_fingerprint,
    scan_functions, scan_function_grants, scan_relations, scan_columns, scan_constraints,
    scan_policies, query_one, query_all.
  quiet; cbn; try done; auto; set_solver.
Qed.

(** The transaction ends with a commit whose answer is the outcome, or the
    scan fails and the transaction is rolled back. *)
Definition scan_ends (e : event answer) (r : scanned CatalogSnapshot) : Prop :=
  (e = Ev (Commit Source) (Ok tt) /\ is_ok r = true)
  \/ (exists source, e = Ev (Commit Source) (Err source)
        /\ r = Err (Thrown.Raised (CatalogError.Commit source)))
  \/ (e = Ev (Rollback Source) tt /\ is_ok r = false).

Lemma scan_runs tr r :
  runs scan tr r ->
  (exists source, tr = [Ev (Begin Source (Some RepeatableRead) true) (Err source)]
     /\ r = Err (Thrown.Raised (CatalogError.StartTransaction source)))
  \/ exists reads e,
       tr = Ev (Begin Source (Some RepeatableRead) true) (Ok tt) :: reads ++ [e]
       /\ Forall (fun e => catalog_read (ev_op e)) reads /\ scan_ends e r.
Proof.
  intros (tr0 & b & tr1 & -> & Hb & H)%runs_bind.
  apply runs_bind in Hb as (? & [[]|source] & ? & -> & (? & ? & -> & -> & <-) & [-> ->]).
  2: { destruct H as [-> ->]. left. by exists source. }
  right. apply runs_bind in H as (tr2 & x & tr3 & -> & H & Hend).
  apply runs_bind in H as (reads & y & tr4 & -> & Hread & Hy).
  pose proof (quiet_runs _ _ _ _ read_catalog_reads Hread) as HF.
  destruct y as [s|t].
  - destruct Hy as [-> ->].
    apply runs_bind in Hend as (? & c & ? & -> & Hc & Hend).
    apply runs_bind in Hc as (? & [[]|source] & ? & -> & (? & ? & -> & -> & <-) & [-> ->]).
    + destruct Hend as [-> ->]. exists reads, (Ev (Commit Source) (Ok tt)).
      rewrite !app_nil_r. split; [done|]. split; [done|]. by left.
    + destruct Hend as [-> ->]. exists reads, (Ev (Commit Source) (Err source)).
      rewrite !app_nil_r. split; [done|]. split; [done|]. right; left. by exists source.
  - destruct Hy as ([] & ? & -> & -> & ->). destruct Hend as [-> ->].
    exists reads, (Ev (Rollback Source) tt). rewrite !app_nil_r.
    split; [done|]. split; [done|]. right; right. done.
Qed.
End rows.

(** ** Texts and digests *)

Section digests.
Context `{HC : Crates}.
#[local] Opaque sha256.

(** Rows with the texts of definitions and expressions replaced by their
    digests. *)
Definition digest_function (row : FunctionRow.t) : FunctionRow.t :=
  FunctionRow.mk (FunctionRow.function_oid row) (FunctionRow.schema_name row)
    (FunctionRow.function_name row) (FunctionRow.identity_arguments row)
    (sha256 <$> FunctionRow.function_definition row) (FunctionRow.function_kind row)
    (FunctionRow.security_definer row) (FunctionRow.function_owner row) (FunctionRow.owner row).

Definition digest_constraint (row : ConstraintRow.t) : ConstraintRow.t :=
  ConstraintRow.mk (ConstraintRow.schema_name row) (ConstraintRow.relation_name row)
    (ConstraintRow.constraint_name row) (ConstraintRow.constraint_kind row)
    (ConstraintRow.columns row) (ConstraintRow.referenced_schema row)
    (ConstraintRow.referenced_relation row) (ConstraintRow.referenced_columns row)
    (ConstraintRow.delete_set_columns row) (sha256 <$> ConstraintRow.check_expression row)
    (ConstraintRow.validated row) (ConstraintRow.no_inherit row) (ConstraintRow.deferrable row)
    (ConstraintRow.initially_deferred row) (ConstraintRow.nulls_not_distinct row)
    (ConstraintRow.enforced row) (ConstraintRow.period row) (ConstraintRow.match_type row)
    (ConstraintRow.on_update row) (ConstraintRow.on_delete row).

Definition digest_policy (row : PolicyRow.t) : PolicyRow.t :=
  PolicyRow.mk (PolicyRow.schema_name row) (PolicyRow.relation_name row)
    (PolicyRow.policy_name row) (PolicyRow.command row) (PolicyRow.permissive row)
    (PolicyRow.roles row) (sha256 <$> PolicyRow.using_expression row)
    (sha256 <$> PolicyRow.with_check_expression row).

Definition digest_relation (row : RelationRow.t) : RelationRow.t :=
  RelationRow.mk (RelationRow.schema_name row) (RelationRow.relation_name row)
    (RelationRow.relation_kind row) (RelationRow.relation_owner row) (RelationRow.owner row)
    (sha256 <$> RelationRow.view_definition row) (RelationRow.view_security_invoker row)
    (RelationRow.view_security_barrier row) (RelationRow.relation_comment row)
    (RelationRow.rls_enabled row) (RelationRow.rls_forced row) (RelationRow.schema_usage row)
    (RelationRow.table_select row) (RelationRow.any_column_select row).

Definition digests (rows : CatalogRows) : CatalogRows :=
  mkRows (metadata_row rows) (context_row rows) (role_graph_rows rows) (privilege_rows rows)
    (grant_rows rows) (map digest_function (function_rows rows)) (column_rows rows)
    (map digest_constraint (constraint_rows rows)) (map digest_policy (policy_rows rows))
    (map digest_relation (relation_rows rows)).

(** The functions that read a row see no more of it than its digests. *)
Lemma function_from_digest row row' grants :
  digest_function row = digest_function row' ->
  function_from_row grants row = function_from_row grants row'.
Proof.
  destruct row, row'. unfold digest_function, function_from_row, hash_expression. cbn.
  intros [= -> -> -> -> Hd -> -> -> ->].
  destruct (raised _); [|done]. cbn.
  destruct function_definition as [d|], function_definition0 as [d'|]; try done.
  assert (Hd' : sha256 d = sha256 d') by (cbn in Hd; congruence). cbn. by rewrite Hd'.
Qed.

Lemma constraint_from_digest row row' :
  digest_constraint row = digest_constraint row' -> constraint_from_row row = constraint_from_row row'.
Proof.
  destruct row, row'. unfold digest_constraint. cbn.
  intros [= -> -> -> -> -> -> -> -> -> Hd -> -> -> -> -> -> -> -> -> ->].
  unfold constraint_from_row, check_constraint, hash_expression. cbn.
  destruct check_expression as [d|], check_expression0 as [d'|]; try done.
  assert (Hd' : sha256 d = sha256 d') by (cbn in Hd; congruence). by repeat case_decide; cbn; rewrite ?Hd'.
Qed.

Lemma policy_from_digest row row' :
  digest_policy row = digest_policy row' -> policy_from_row row = policy_from_row row'.
Proof.
  destruct row, row'. unfold digest_policy, policy_from_row, policy, hash_expression. cbn.
  intros [= -> -> -> -> -> -> Hu Hw]. destruct (raised _); [|done].
  cbn [mbind result_bind]. do 2 f_equal; done.
Qed.

Lemma relation_from_digest row row' parts :
  digest_relation row = digest_relation row' ->
  relation_from_row parts row = relation_from_row parts row'.
Proof.
  destruct row, row'. unfold digest_relation. cbn.
  intros [= -> -> -> -> -> Hd -> -> -> -> -> -> -> ->].
  unfold relation_from_row, view_from_row, hash_expression. cbn.
  destruct (raised _); [|done]. cbn.
  destruct view_definition as [d|], view_definition0 as [d'|]; try done.
  assert (Hd' : sha256 d = sha256 d') by (cbn in Hd; congruence). cbn. by rewrite Hd'.
Qed.

(** Loops that see no more of their elements than an image. *)
Lemma try_fold_image {E A I S} (image : A -> I) (f : S -> A -> result E S) l l' s :
  (forall s a a', image a = image a' -> f s a = f s a') ->
  map image l = map image l' -> try_fold f s l = try_fold f s l'.
Proof.
  intros Hf. revert l' s. induction l as [|a l IH]; intros [|a' l'] s; try done.
  cbn [map try_fold]. intros [= Ha Hl]. rewrite (Hf s a a' Ha).
  destruct (f s a') as [s'|e]; [|done]. by apply IH.
Qed.

Lemma try_map_st_image {E A B I S} (image : A -> I) (f : S -> A -> result E (B * S)) l l' s :
  (forall s a a', image a = image a' -> f s a = f s a') ->
  map image l = map image l' -> try_map_st f s l = try_map_st f s l'.
Proof.
  intros Hf. revert l' s. induction l as [|a l IH]; intros [|a' l'] s; try done.
  cbn [map try_map_st]. intros [= Ha Hl]. rewrite (Hf s a a' Ha).
  destruct (f s a') as [[b s']|e]; [|done]. cbn [mbind result_bind]. by rewrite (IH l').
Qed.

Lemma bind_same {E A B} (m : result E A) (f g : A -> result E B) :
  (forall a, f a = g a) -> m ≫= f = m ≫= g.
Proof. intros Hfg. destruct m; [apply Hfg|done]. Qed.

Lemma read_rows_digests rows rows' : digests rows = digests rows' -> read_rows rows = read_rows rows'.
Proof.
  destruct rows as [md cx rg op gr fr cr kr pr rr], rows' as [md' cx' rg' op' gr' fr' cr' kr' pr' rr'].
  unfold digests. cbn.
  intros [= -> -> -> -> -> Hf -> Hk Hp Hr]. unfold read_rows. cbn [metadata_row context_row
    role_graph_rows privilege_rows grant_rows function_rows column_rows constraint_rows policy_rows
    relation_rows].
  assert (Hk' : try_fold add_constraint_entry [] kr = try_fold add_constraint_entry [] kr').
  { apply (try_fold_image digest_constraint); [|done]. intros m row row' Hrow.
    unfold add_constraint_entry, constraint_owner. rewrite (constraint_from_digest row row' Hrow).
    by injection Hrow as -> ->. }
  assert (Hp' : try_fold add_policy_entry [] pr = try_fold add_policy_entry [] pr').
  { apply (try_fold_image digest_policy); [|done]. intros m row row' Hrow.
    unfold add_policy_entry, policy_owner. rewrite (policy_from_digest row row' Hrow).
    by injection Hrow as -> ->. }
  rewrite Hk', Hp'. do 4 (apply bind_same; intros ?).
  rewrite (try_map_st_image digest_function _ fr fr') by (first [done|intros; by apply function_from_digest]).
  do 4 (apply bind_same; intros ?).
  by rewrite (try_map_st_image digest_relation _ rr rr')
    by (first [done|intros; by apply relation_from_digest]).
Qed.
End digests.

Lemma scan_from_env_valid `{HC : Crates, HD : Driver} env variable tr s :
  runs (scan_from_env env variable) tr (Ok s) -> validated_normalized s = Ok s.
Proof.
  intros (url & _ & H)%runs_try_lift.
  apply runs_try in H as (tr1 & [] & tr2 & -> & _ & (rows & raw & -> & Hraw & Hs)%scan_transcript).
  assert (Hv : Catalog.schema_version raw = CATALOG_SNAPSHOT_SCHEMA_VERSION).
  { unfold read_rows in Hraw. by repeat apply bind_ok in Hraw as (? & _ & Hraw); injection Hraw as <-. }
  apply seal_catalog_ok in Hs as (Hn & Hversion & Hf). unfold validated_normalized.
  rewrite Hversion, Hv, bool_decide_eq_false_2 by auto. cbn [fail_if mbind result_bind].
  rewrite Hn, Hf. cbn [mbind result_bind]. by rewrite bool_decide_eq_false_2 by auto.
Qed.

(** ** A catalog to scan *)

Definition app_role : RoleContextRow.t := RoleContextRow.mk true false false ["app"] ["app"].

Definition items_column (name : string) (ordinal : Z) (data_type : string) : ColumnRow.t :=
  ColumnRow.mk "public" "items" name ordinal data_type false None true.

Definition items_check (expression : string) : ConstraintRow.t :=
  ConstraintRow.mk "public" "items" "positive" "check" ["price"] None None [] []
    (Some expression) true false false false false true false None None None.

(** A table with two columns, a key, a check and a policy, and a function with
    a grant; the text of the check is a parameter. *)
Definition items_rows (expression : string) : CatalogRows :=
  mkRows (MetadataRow.mk 170004 "shop" "reader")
    (RoleContextRow.mk true false false ["reader"; "app"; "reader"] ["app"])
    [RoleGraphRow.mk "reader" true false false (Some "app") (Some "admin") (Some false) (Some true)
       (Some true)]
    [ObjectPrivilegeRow.mk "relation" "public" "items" "" "app" (Some "app") (Some "reader")
       (Some "SELECT") (Some false)]
    [FunctionGrantRow.mk 16384 "app" (Some "reader") false]
    [FunctionRow.mk 16384 "public" "total" "bigint" (Some "SELECT 1") "function" true "app" app_role]
    [items_column "id" 1 "bigint"; items_column "price" 2 "numeric(10,2)"]
    [items_check expression;
     ConstraintRow.mk "public" "items" "items_pkey" "primary_key" ["id"] None None [] [] None
       true false false false false true false None None None]
    [PolicyRow.mk "public" "items" "own_rows" "select" true ["reader"; "app"]
       (Some "owner = current_user") None]
    [RelationRow.mk "public" "items" "table" "app" app_role None None None None true false true true
       true].

Lemma items_scanned : exists s, runs scan (transcript (items_rows "price > 0")) (Ok s).
Proof. eexists. eapply transcript_scan; vm_compute; reflexivity. Qed.

Lemma items_scanned_from_env :
  exists tr s, runs (scan_from_env (fun _ => Ok "host=db") "DATABASE_URL") tr (Ok s).
Proof.
  destruct items_scanned as [s Hs]. exists ([Ev TlsConnectorNew (Ok tt); Ev (Connect Source
    (Config.mk "host=db" None Require (Some (from_secs 10)) (Some (from_secs 10)) true (from_secs 10)
       (Some (from_secs 3)) (Some 3%N))) (Ok tt)] ++ transcript (items_rows "price > 0")), s.
  apply runs_lifted. eexists. split; [done|]. apply runs_try_iff. eexists _, tt, _.
  split; [done|]. split; [|exact Hs].
  exists (Ok tt). eexists. split; [done|]. exists (Ok tt), []. done.
Qed.

(** ** Theorems *)

(** A scan is one read-only transaction at one snapshot of the database, and
    ends it.  In every run, successful or not, the only calls between the start
    of the transaction and its end are the fixed settings and the fixed
    statements; a scan that succeeds has committed, one whose commit fails says
    so, and every other failure, unwinding included, rolls back. *)
Theorem scans_are_read_only `{HC : Crates} tr r :
  runs scan tr r ->
  (exists source, tr = [Ev (Begin Source (Some RepeatableRead) true) (Err source)]
     /\ r = Err (Thrown.Raised (CatalogError.StartTransaction source)))
  \/ exists reads e,
       tr = Ev (Begin Source (Some RepeatableRead) true) (Ok tt) :: reads ++ [e]
       /\ Forall (fun e => catalog_read (ev_op e)) reads /\ scan_ends e r.
Proof. apply scan_runs. Qed.

Lemma scans_are_read_only_witness :
  exists tr r reads e, runs scan tr r
    /\ tr = Ev (Begin Source (Some RepeatableRead) true) (Ok tt) :: reads ++ [e] /\ scan_ends e r.
Proof.
  destruct items_scanned as [s Hs]. exists (transcript (items_rows "price > 0")), (Ok s).
  destruct (scans_are_read_only _ _ Hs) as [(source & Htr & _)|(reads & e & Htr & _ & He)].
  - apply (f_equal length) in Htr. discriminate Htr.
  - exists reads, e. done.
Defined.

(** C13: a scan records exactly what its rows store.  A scan that succeeds has run
    every statement once, in a fixed order, and, when functions and relations are
    told apart by their keys, its snapshot is the sealed canonical form of the
    catalog the rows describe: every relation with exactly its columns,
    constraints and policies, every function with exactly its grants.
    Conversely, rows that describe a catalog are scanned as that catalog. *)
Theorem scan_records_exactly `{HC : Crates} :
  (forall tr s, runs scan tr (Ok s) ->
     exists rows, tr = transcript rows
       /\ (rows_distinct rows -> exists raw, described rows raw /\ seal_catalog raw = Ok s))
  /\ forall rows raw s,
       rows_distinct rows -> described rows raw -> seal_catalog raw = Ok s ->
       runs scan (transcript rows) (Ok s).
Proof.
  split.
  - intros tr s (rows & raw & -> & Hraw & Hs)%scan_transcript. exists rows. split; [done|].
    intros Hd. exists raw. split; [by apply read_rows_described|done].
  - intros rows raw s Hd Hraw%described_read_rows; [|done]. by apply transcript_scan.
Qed.

(** C14: a snapshot reveals nothing of definitions and expressions but their
    digests.  If a scan yields a snapshot, then scanning a database whose rows
    differ only in the texts of functions, views, checks and policies, with the
    same digests, yields the same snapshot. *)
Theorem scans_reveal_only_digests `{HC : Crates} tr s :
  runs scan tr (Ok s) ->
  exists rows, tr = transcript rows
    /\ forall rows', digests rows' = digests rows -> runs scan (transcript rows') (Ok s).
Proof.
  intros (rows & raw & -> & Hraw & Hs)%scan_transcript. exists rows. split; [done|].
  intros rows' Hd%read_rows_digests. apply (transcript_scan rows' raw); congruence.
Qed.

Lemma scans_reveal_only_digests_witness :
  exists rows s, transcript (items_rows "price > 0") = transcript rows
    /\ runs scan (transcript rows) (Ok s).
Proof.
  destruct items_scanned as [s Hs].
  destruct (scans_reveal_only_digests _ _ Hs) as (rows & Htr & Hsame). exists rows, s.
  split; [exact Htr|]. apply Hsame. reflexivity.
Defined.

(** What was scanned is accepted as evidence.  The snapshot passes, unchanged,
    the validation that scaffolding, importing and comparing start with, and
    two scans of one database by one role can always be compared. *)
Theorem scanned_catalogs_are_accepted `{HC : Crates, HD : Driver} env variable tr s :
  runs (scan_from_env env variable) tr (Ok s) ->
  validated_normalized s = Ok s
  /\ forall env' variable' tr' s', runs (scan_from_env env' variable') tr' (Ok s') ->
       Catalog.current_database s' = Catalog.current_database s ->
       Catalog.current_role s' = Catalog.current_role s -> is_ok (diff_catalogs s s') = true.
Proof.
  intros Hs%scan_from_env_valid. split; [done|].
  intros env' variable' tr' s' Hs'%scan_from_env_valid Hdb Hrole.
  unfold diff_catalogs. rewrite Hs, Hs'. cbn [map_err mbind result_bind].
  rewrite Hdb, Hrole, !bool_decide_eq_false_2 by auto. done.
Qed.

Lemma scanned_catalogs_are_accepted_witness : exists s : CatalogSnapshot, validated_normalized s = Ok s.
Proof.
  destruct items_scanned_from_env as (tr & s & Hs). exists s.
  exact (proj1 (scanned_catalogs_are_accepted _ _ _ _ Hs)).
Defined.
