(* ===== verification/Commands.v ===== *)
(** * The command line ([main.rs])

    One definition per subcommand, as programs over the calls of a process; [run]
    dispatches on the parsed arguments and [main] turns the outcome into an exit
    code.  The parser of arguments is clap's; the value parser it is given is
    modelled.  Paths are their texts; the environment and the bytes of standard
    input are arguments. *)

From S2P Require Import RateLimit PublishedModel Executor MutationExecutor Prelude Ordered Text.
From S2P Require Import StrOps Json Lsq Semantic Compiler Lsm Mutation Diff Effects Database.
From S2P Require Import Catalog CatalogDiff CatalogScan Authority Mcp McpParams McpPublic.
From S2P Require Import McpTools McpStdio Http HttpServer Authoring Osi OsiExport Benchmark Reports.

(** ** Arguments *)

Module BenchmarkCommands.
Inductive BenchmarkCommands : Type :=
| Compiler (models warmup iterations : N) (threshold_ms : f64)
| Execution (path project database_url_env audit_database_url_env db_role_env : string)
    (warmup iterations : N) (threshold_ms : f64).
End BenchmarkCommands.
Abbreviation BenchmarkCommands := BenchmarkCommands.BenchmarkCommands.

Module CatalogCommands.
Inductive CatalogCommands : Type :=
| Scan (database_url_env : string)
| Diff (from to : string) (fail_on_breaking : bool).
End CatalogCommands.
Abbreviation CatalogCommands := CatalogCommands.CatalogCommands.

Module ContractCommands.
Inductive ContractCommands : Type := Show_.
End ContractCommands.
Abbreviation ContractCommands := ContractCommands.ContractCommands.

Module ModelExportFormat.
Inductive ModelExportFormat : Type := Snapshot | Osi.
#[global] Instance eq_dec : EqDecision ModelExportFormat.
Proof. solve_decision. Defined.
End ModelExportFormat.
Abbreviation ModelExportFormat := ModelExportFormat.ModelExportFormat.

Module ModelImportCommands.
Inductive ModelImportCommands : Type :=
| Osi (from catalog : string) (semantic_model : option string) (snapshot_only : bool).
End ModelImportCommands.
Abbreviation ModelImportCommands := ModelImportCommands.ModelImportCommands.

Module ModelCommands.
Inductive ModelCommands : Type :=
| Diff (from to : string) (fail_on_breaking : bool)
| Export_ (project database_url_env : string) (format : ModelExportFormat)
    (catalog from : option string)
| Import_ (command : ModelImportCommands)
| Scaffold (request catalog : string) (snapshot_only : bool).
End ModelCommands.
Abbreviation ModelCommands := ModelCommands.ModelCommands.

Module MutationCommands.
Inductive MutationCommands : Type :=
| Validate (path snapshot : string)
| Execute (path project database_url_env audit_database_url_env db_role_env : string)
| Reconcile (project idempotency_key_env database_url_env audit_database_url_env
    db_role_env : string).
End MutationCommands.
Abbreviation MutationCommands := MutationCommands.MutationCommands.

Module McpCommands.
Inductive McpCommands : Type := Serve | ServeHttp.
End McpCommands.
Abbreviation McpCommands := McpCommands.McpCommands.

Module QueryCommands.
Inductive QueryCommands : Type :=
| Validate (path : string)
| Compile (path snapshot : string)
| Execute (path project database_url_env audit_database_url_env db_role_env : string).
End QueryCommands.
Abbreviation QueryCommands := QueryCommands.QueryCommands.

Module ReportCommands.
Inductive ReportCommands : Type :=
| Beta (audit_database_url_env audit_password_env : string) (window_hours : N)
| Operations (audit_database_url_env audit_password_env : string) (window_hours : N).
End ReportCommands.
Abbreviation ReportCommands := ReportCommands.ReportCommands.

Module SnapshotCommands.
Inductive SnapshotCommands : Type := Hash_ (path : string).
End SnapshotCommands.
Abbreviation SnapshotCommands := SnapshotCommands.SnapshotCommands.

Module Commands.
Inductive Commands : Type :=
| Benchmark (command : BenchmarkCommands)
| Catalog (command : CatalogCommands)
| Contract (command : ContractCommands)
| Doctor (json : bool)
| Model (command : ModelCommands)
| Mutation (command : MutationCommands)
| Mcp (command : McpCommands)
| Query (command : QueryCommands)
| Report (command : ReportCommands)
| Snapshot (command : SnapshotCommands).
End Commands.
Abbreviation Commands := Commands.Commands.

(** The value parser of the arguments that name an environment variable. *)
Definition parse_environment_variable_name (value : string) : result string string :=
  if valid_environment_variable_name value then Ok value
  else Err "must be an environment variable name".

(** ** Errors and documents *)

(** What is boxed as [dyn Error]. *)
Module CommandError.
Inductive CommandError : Type :=
| Io (source : io_error)
| InvalidInput (message : string)
| Json (source : string)
| Message (message : string)
(** ["{} p95 {:.3} ms exceeded {:.3} ms threshold"] *)
| ThresholdExceeded (what : string) (p95_ms threshold_ms : f64)
| Var (source : VarError)
| Lsq (source : LsqError)
| Compile (source : CompileError)
| Lsm (source : LsmError)
| MutationCompile (source : MutationCompileError)
| SnapshotHash (source : string)
| ModelDiff (source : DiffError)
| Scan (source : CatalogError)
| CatalogDiff (source : CatalogDiffError)
| Scaffold (source : ScaffoldError)
| OsiImport (source : OsiImportError)
| OsiExport (source : OsiExportError)
| Published (source : PublishedModelError)
| Execute (source : ExecuteError)
| MutationExecute (source : MutationExecuteError)
| Benchmark (source : BenchmarkError)
| Report (source : ReportError)
| Doctor (source : DoctorError)
| McpServer (source : McpServerError)
| HttpServer (source : HttpServerError).
End CommandError.
Abbreviation CommandError := CommandError.CommandError.

(** The values that commands print as JSON. *)
Module Document.
Inductive Document : Type :=
| Manifest (value : ContractManifest)
| Report (value : json)
| CompilerBenchmark (value : CompilerBenchmark)
| ExecutionBenchmark (value : ExecutionBenchmark)
| ModelDiff (value : SemanticDiff)
| Snapshot (value : SemanticSnapshot)
| Scaffold (value : ScaffoldReport)
| QueryResult (value : QueryResult)
| Json (value : Value)
| Import_ (value : OsiImportReport)
| Catalog (value : CatalogSnapshot)
| CatalogDiff (value : CatalogDiff)
| Compiled (value : CompiledQuery)
| Doctor (value : DoctorReport).
End Document.
Abbreviation Document := Document.Document.

(** serde_json's readers of files and its indented writer, and [Display] of
    errors. *)
Class CommandCrates := {
  snapshot_from_slice : string -> result string SemanticSnapshot;
  catalog_from_slice : string -> result string CatalogSnapshot;
  json_from_slice : string -> result string Value;
  to_string_pretty : Document -> result string string;
  error_text : CommandError -> string;
}.

Section commands.
Context `{Crates, ModelParsers, Driver, LsqParser, LsmParser, JsonText, Schemas, AuthCrates}.
Context `{AuthoringParser, OsiYaml, Platform, CommandCrates}.
Context (var : environment) (stdin : Reader).
(** What the preparation of the HTTP server reads: addresses and directories. *)
Context (parse_socket_addr : string -> option SocketAddr) (parent : string -> string).

Abbreviation outcome A := (command (result (Thrown CommandError) A)).

(** The [?] of each kind of step. *)
Definition checked {E A} (convert : E -> CommandError) (m : result E A) : outcome A :=
  lift (map_err (fun error => Thrown.Raised (convert error)) m).

Definition read (path : string) : outcome string :=
  attempt (fun error => Thrown.Raised (CommandError.Io error)) (call (ReadFile path)).

Definition on_connection {E A} (convert : E -> CommandError) (p : io_result E A) : outcome A :=
  attempt (fun error => Thrown.Raised (convert error)) (query_database p).

Definition on_connection_thrown {E A} (convert : E -> CommandError) (p : io_result (Thrown E) A)
    : outcome A :=
  attempt (Thrown.map_raised convert) (query_database p).

Definition read_snapshot (path : string) : outcome SemanticSnapshot :=
  text ←? read path;
  checked CommandError.Json (snapshot_from_slice text).

Definition read_catalog (path : string) : outcome CatalogSnapshot :=
  text ←? read path;
  checked CommandError.Json (catalog_from_slice text).

(** [print!] panics when standard output cannot be written. *)
Definition print (text : string) : outcome unit :=
  attempt (fun _ => Thrown.Panic) (call (Print text)).

Definition println (text : string) : outcome unit := print (text +:+ nl).

Definition print_document (document : Document) : outcome unit :=
  text ←? checked CommandError.Json (to_string_pretty document);
  println text.

Definition fail_when (condition : bool) (error : CommandError) : outcome unit :=
  lift (fail_if condition (Thrown.Raised error)).

(** ** Contracts, reports and benchmarks *)

Definition show_contract : outcome unit := print_document (Document.Manifest manifest).

Definition beta_report (audit_database_url_env audit_password_env : string) (window_hours : N)
    : outcome unit :=
  result ←? on_connection CommandError.Report
              (beta var audit_database_url_env audit_password_env window_hours);
  print_document (Document.Report result).

Definition operations_report (audit_database_url_env audit_password_env : string)
    (window_hours : N) : outcome unit :=
  result ←? on_connection CommandError.Report
              (operations var audit_database_url_env audit_password_env window_hours);
  print_document (Document.Report result).

Definition benchmark_compiler (models warmup iterations : N) (threshold_ms : f64) : outcome unit :=
  result ←? on_connection_thrown CommandError.Benchmark
              (compiler_baseline models warmup iterations threshold_ms);
  print_document (Document.CompilerBenchmark result) ;;?
  fail_when (negb (CompilerBenchmark.passed result))
    (CommandError.ThresholdExceeded "compiler" (CompilerBenchmark.p95_ms result)
       (CompilerBenchmark.threshold_ms result)).

Definition query_configuration (database_url_env audit_database_url_env db_role_env
    profile : string) : outcome (ExecutorConfig * ExecutionContext) :=
  config ←? checked CommandError.Execute
    (Executor.from_environment var database_url_env audit_database_url_env db_role_env);
  context ←? checked CommandError.Execute
    (Executor.new ("database-role:" +:+ ExecutorConfig.database_role config) profile);
  Ret (Ok (config, context)).

Definition benchmark_execution (path project database_url_env audit_database_url_env
    db_role_env : string) (warmup iterations : N) (threshold_ms : f64) : outcome unit :=
  '(config, context) ←? query_configuration database_url_env audit_database_url_env db_role_env
                          "benchmark";
  input ←? read path;
  result ←? on_connection_thrown CommandError.Benchmark
              (execution_baseline input project config context warmup iterations threshold_ms);
  print_document (Document.ExecutionBenchmark result) ;;?
  fail_when (negb (ExecutionBenchmark.passed result))
    (CommandError.ThresholdExceeded "guarded execution" (ExecutionBenchmark.p95_ms result)
       (ExecutionBenchmark.threshold_ms result)).

(** ** Models *)

Definition diff_models (from to : string) (fail_on_breaking : bool) : outcome unit :=
  before ←? read_snapshot from;
  after ←? read_snapshot to;
  diff ←? checked CommandError.ModelDiff (diff_snapshots before after);
  print_document (Document.ModelDiff diff) ;;?
  fail_when (fail_on_breaking && SemanticDiff.has_breaking_changes diff)
    (CommandError.Message "semantic model diff contains breaking changes").

Definition scaffold_model (request catalog : string) (snapshot_only : bool) : outcome unit :=
  catalog ←? read_catalog catalog;
  request ←? read request;
  result ←? checked CommandError.Scaffold (scaffold request catalog);
  print_document (if snapshot_only then Document.Snapshot (ScaffoldReport.snapshot result)
                  else Document.Scaffold result).

Definition export_catalog (format : ModelExportFormat) (catalog_path : option string)
    : outcome (option CatalogSnapshot) :=
  match format, catalog_path with
  | ModelExportFormat.Snapshot, None => Ret (Ok None)
  | ModelExportFormat.Osi, Some path => catalog ←? read_catalog path; Ret (Ok (Some catalog))
  | _, _ =>
      checked CommandError.InvalidInput
        (Err "--catalog is required for --format osi and is not accepted for snapshot export")
  end.

Definition export_model (database_url_env project : string) (format : ModelExportFormat)
    (catalog_path from : option string) : outcome unit :=
  fail_when (bool_decide (is_Some from) && bool_decide (format <> ModelExportFormat.Osi))
    (CommandError.InvalidInput "--from is only accepted for --format osi") ;;?
  catalog ←? export_catalog format catalog_path;
  output ←?
    match from, catalog with
    | Some path, Some catalog =>
        input ←? read path;
        checked CommandError.OsiExport
          (export_json snapshot_from_slice json_from_slice input catalog project)
    | _, _ =>
        snapshot ←? on_connection CommandError.Published
                      (load_from_env var database_url_env project);
        match catalog with
        | Some catalog => checked CommandError.OsiExport (export snapshot catalog project)
        | None =>
            text ←? checked CommandError.Json (to_string_pretty (Document.Snapshot snapshot));
            Ret (Ok (text +:+ nl))
        end
    end;
  print output.

Definition import_osi (from catalog_path : string) (semantic_model : option string)
    (snapshot_only : bool) : outcome unit :=
  catalog ←? read_catalog catalog_path;
  input ←? read from;
  report ←? checked CommandError.OsiImport (Osi.import_osi input catalog semantic_model);
  print_document (if snapshot_only then Document.Snapshot (OsiImportReport.snapshot report)
                  else Document.Import_ report).

(** ** Catalogs and snapshots *)

Definition scan_catalog (database_url_env : string) : outcome unit :=
  snapshot ←? on_connection_thrown CommandError.Scan (scan_from_env var database_url_env);
  print_document (Document.Catalog snapshot).

Definition diff_catalogs (from to : string) (fail_on_breaking : bool) : outcome unit :=
  before ←? read_catalog from;
  after ←? read_catalog to;
  diff ←? checked CommandError.CatalogDiff (CatalogDiff.diff_catalogs before after);
  print_document (Document.CatalogDiff diff) ;;?
  fail_when (fail_on_breaking && CatalogDiff.has_breaking_changes diff)
    (CommandError.Message "catalog diff contains breaking changes").

Definition hash_snapshot (path : string) : outcome unit :=
  snapshot ←? read_snapshot path;
  hash ←? checked CommandError.SnapshotHash (calculate_revision_hash snapshot);
  println hash.

(** ** Queries *)

Definition validate_query (path : string) : outcome unit :=
  input ←? read path;
  normalized ←? checked CommandError.Lsq (normalize_lsq lsq_from_slice input);
  println (NormalizedLsq.canonical_json normalized) ;;?
  println (NormalizedLsq.hash normalized).

Definition compile_query (path snapshot_path : string) : outcome unit :=
  input ←? read path;
  snapshot ←? read_snapshot snapshot_path;
  normalized ←? checked CommandError.Lsq (normalize_lsq lsq_from_slice input);
  compiled ←? checked CommandError.Compile (compile_lsq normalized snapshot default_options);
  print_document (Document.Compiled compiled).

Definition execute_query (path project database_url_env audit_database_url_env
    db_role_env : string) : outcome unit :=
  '(config, context) ←? query_configuration database_url_env audit_database_url_env db_role_env
                          "cli";
  input ←? read path;
  result ←? on_connection CommandError.Execute (Executor.execute input project config context);
  print_document (Document.QueryResult result).

(** ** Mutations *)

Definition lineage_value (lineage : MutationLineage) : Value :=
  json_object
    [("model", Value_String (MutationLineage.model lineage));
     ("fields", strings (MutationLineage.fields lineage));
     ("returning_fields", strings (MutationLineage.returning_fields lineage))].

(** The serialised columns: [data_type], unlike the schema the server shows. *)
Definition columns_value (columns : list OutputColumn) : Value :=
  Value_Array (map (fun column =>
    json_object [("name", Value_String (OutputColumn.name column));
                 ("data_type", value_of_json (DataType.to_json (OutputColumn.data_type column)))])
    columns).

(** Every writable model. *)
Definition local_capabilities (snapshot : SemanticSnapshot) : MutationCapabilities :=
  {| MutationCapabilities.profile := "local-validation";
     MutationCapabilities.writable_models :=
       bs_from_list (map Model.semantic_name
         (List.filter (fun model => bool_decide (is_Some (Model.writable model)))
            (Snapshot.models snapshot))) |}.

Definition raise_fault (fault : Fault) : Thrown CommandError :=
  match fault with
  | Mutation.Raised error => Thrown.Raised (CommandError.MutationCompile error)
  | Mutation.Panicked => Thrown.Panic
  end.

Definition validate_mutation (path snapshot_path : string) : outcome unit :=
  input ←? read path;
  normalized ←? checked CommandError.Lsm (normalize_lsm lsm_parse lsm_from_value input);
  snapshot ←? read_snapshot snapshot_path;
  compiled ←? lift (map_err raise_fault
    (compile_lsm normalized snapshot (local_capabilities snapshot) default_mutation_options));
  print_document (Document.Json (json_object
    [("schema_version", Value_String (Lsm.schema_version (NormalizedLsm.mutation normalized)));
     ("valid", Value_Bool true);
     ("normalized_lsm_hash", Value_String (NormalizedLsm.hash normalized));
     ("semantic_revision", Value_String (Snapshot.revision_hash snapshot));
     ("operation", value_of_json (MutationOperation.to_json (CompiledMutation.operation compiled)));
     ("model", Value_String (CompiledMutation.model compiled));
     ("expected_rows", value_of_N (N.of_nat (CompiledMutation.expected_rows compiled)));
     ("returning_schema", columns_value (CompiledMutation.returning_schema compiled));
     ("lineage", lineage_value (CompiledMutation.lineage compiled))])).

Definition mutation_execution_context (config : MutationExecutorConfig)
    : outcome ExecutionContext :=
  authority_id ←?
    match var "POSTGRESEM_MUTATION_AUTHORITY_ID" with
    | Ok authority_id => Ret (Ok authority_id)
    | Err NotPresent => Ret (Ok "cli:local-mutation")
    | Err NotUnicode =>
        checked CommandError.InvalidInput
          (Err "POSTGRESEM_MUTATION_AUTHORITY_ID is not valid Unicode")
    end;
  checked CommandError.Execute
    (new_with_authority ("database-role:" +:+ MutationExecutorConfig.database_role config) "cli"
       authority_id).

Definition execute_mutation (path project database_url_env audit_database_url_env
    db_role_env : string) : outcome unit :=
  config ←? checked CommandError.MutationExecute
    (MutationExecutor.from_environment var database_url_env audit_database_url_env db_role_env);
  context ←? mutation_execution_context config;
  input ←? read path;
  result ←? on_connection CommandError.MutationExecute
              (MutationExecutor.execute project config context input);
  print_document (Document.Json (json_object
    [("schema_version", Value_String (MutationResult.schema_version result));
     ("mutation_id", Value_String (MutationResult.mutation_id result));
     ("semantic_revision", Value_String (MutationResult.semantic_revision result));
     ("operation", value_of_json (MutationOperation.to_json (MutationResult.operation result)));
     ("model", Value_String (MutationResult.model result));
     ("columns", columns_value (MutationResult.columns result));
     ("rows", Value_Array (map value_of_json (MutationResult.rows result)));
     ("affected_rows", value_of_N (MutationResult.affected_rows result));
     ("replayed", Value_Bool (MutationResult.replayed result));
     ("lineage", lineage_value (MutationResult.lineage result));
     ("warnings", strings (MutationResult.warnings result))])).

Definition reconcile_mutation (project idempotency_key_env database_url_env
    audit_database_url_env db_role_env : string) : outcome unit :=
  config ←? checked CommandError.MutationExecute
    (MutationExecutor.from_environment var database_url_env audit_database_url_env db_role_env);
  idempotency_key ←? checked CommandError.Var (var idempotency_key_env);
  context ←? mutation_execution_context config;
  state ←? on_connection CommandError.MutationExecute
             (reconcile project config context idempotency_key);
  print_document (Document.Json (json_object
    [("schema_version", Value_String "1");
     ("idempotency_key_hash", Value_String (sha256 idempotency_key));
     ("state", nullable_value value_of_json state)])).

(** ** The doctor *)

Definition print_runtime (name : string) (runtime : RuntimeReport) : outcome unit :=
  let state := if RuntimeReport.available runtime then "available" else "unavailable" in
  println (name +:+ ": " +:+ state) ;;?
  match RuntimeReport.engine_version runtime with
  | Some version => println ("  engine: " +:+ version)
  | None => Ret (Ok tt)
  end ;;?
  match RuntimeReport.compose_version runtime with
  | Some version => println ("  compose: " +:+ version)
  | None => Ret (Ok tt)
  end.

Definition doctor (json : bool) : outcome unit :=
  report ← inspect;
  (if json then print_document (Document.Doctor report)
   else
     println ("postgresem " +:+ DoctorReport.postgresem_version report) ;;?
     println ("platform: " +:+ DoctorReport.operating_system report +:+ "/"
              +:+ DoctorReport.architecture report) ;;?
     print_runtime "Apple Container" (DoctorReport.apple_container report) ;;?
     print_runtime "Docker" (DoctorReport.docker report)) ;;?
  checked CommandError.Doctor (require_runtime report).

(** ** Servers *)

(** The loop has fuel for all its input, so that it never runs out of it. *)
Definition serve_stdio : outcome unit :=
  served ← on_server (McpStdio.serve var stdin);
  Ret match served with
      | Returned r => map_err (fun error => Thrown.Raised (CommandError.McpServer error)) r
      | Unwound | OutOfFuel => Err Thrown.Panic
      end.

Definition GRACEFUL_DRAIN_TIMEOUT : Duration := from_secs 5.
Definition BLOCKING_SHUTDOWN_TIMEOUT : Duration := from_secs 5.

Definition listener_error {A} (r : result string A) : result HttpServerError A :=
  map_err (fun _ => HttpServerError.Listener) r.

(** What the task of a request does on the database, with the callback that
    registers its connection if it has a stream. *)
Definition dispatch_job (job : Job) : rpc Value :=
  let params := Value_Object (Job.params job) in
  if Job.streaming job
  then dispatch_modern_with_cancel (Job.server job) (Job.method job) params
  else dispatch_modern (Job.server job) (Job.method job) params.

(** The server runs until it ends, or until a signal and then for the time it
    needs to drain, at most the timeout. *)
Definition serve_async (setup : Setup) : command (result HttpServerError unit) :=
  attempt (fun _ => HttpServerError.Listener) (call (TcpBind (Setup.bind setup))) ;;?
  serving ← call (AxumServe setup);
  match serving.2 with
  | ServerEnded r => Ret (listener_error r)
  | ShutdownSignal =>
      drained ← call (Drain GRACEFUL_DRAIN_TIMEOUT);
      Ret (match drained with Some r => listener_error r | None => Ok tt end)
  end.

Definition serve_http : command (result HttpServerError unit) :=
  setup ←? on_setup (prepare_server var parse_socket_addr parent);
  attempt (fun _ => HttpServerError.Runtime) (call BuildRuntime) ;;?
  result ← serve_async setup;
  call (ShutdownTimeout BLOCKING_SHUTDOWN_TIMEOUT) ≫= fun _ =>
  Ret result.

(** ** Dispatch *)

Definition run (command : Commands) : outcome unit :=
  match command with
  | Commands.Benchmark (BenchmarkCommands.Compiler models warmup iterations threshold_ms) =>
      benchmark_compiler models warmup iterations threshold_ms
  | Commands.Benchmark (BenchmarkCommands.Execution path project database_url_env
      audit_database_url_env db_role_env warmup iterations threshold_ms) =>
      benchmark_execution path project database_url_env audit_database_url_env db_role_env
        warmup iterations threshold_ms
  | Commands.Catalog (CatalogCommands.Scan database_url_env) => scan_catalog database_url_env
  | Commands.Catalog (CatalogCommands.Diff from to fail_on_breaking) =>
      diff_catalogs from to fail_on_breaking
  | Commands.Contract ContractCommands.Show_ => show_contract
  | Commands.Doctor json => doctor json
  | Commands.Model (ModelCommands.Diff from to fail_on_breaking) =>
      diff_models from to fail_on_breaking
  | Commands.Model (ModelCommands.Export_ project database_url_env format catalog from) =>
      export_model database_url_env project format catalog from
  | Commands.Model (ModelCommands.Import_ (ModelImportCommands.Osi from catalog semantic_model
      snapshot_only)) => import_osi from catalog semantic_model snapshot_only
  | Commands.Model (ModelCommands.Scaffold request catalog snapshot_only) =>
      scaffold_model request catalog snapshot_only
  | Commands.Mutation (MutationCommands.Validate path snapshot) => validate_mutation path snapshot
  | Commands.Mutation (MutationCommands.Execute path project database_url_env
      audit_database_url_env db_role_env) =>
      execute_mutation path project database_url_env audit_database_url_env db_role_env
  | Commands.Mutation (MutationCommands.Reconcile project idempotency_key_env database_url_env
      audit_database_url_env db_role_env) =>
      reconcile_mutation project idempotency_key_env database_url_env audit_database_url_env
        db_role_env
  | Commands.Mcp McpCommands.Serve => serve_stdio
  | Commands.Mcp McpCommands.ServeHttp =>
      attempt (fun error => Thrown.Raised (CommandError.HttpServer error)) serve_http
  | Commands.Query (QueryCommands.Validate path) => validate_query path
  | Commands.Query (QueryCommands.Compile path snapshot) => compile_query path snapshot
  | Commands.Query (QueryCommands.Execute path project database_url_env audit_database_url_env
      db_role_env) =>
      execute_query path project database_url_env audit_database_url_env db_role_env
  | Commands.Report (ReportCommands.Beta audit_database_url_env audit_password_env window_hours) =>
      beta_report audit_database_url_env audit_password_env window_hours
  | Commands.Report (ReportCommands.Operations audit_database_url_env audit_password_env
      window_hours) => operations_report audit_database_url_env audit_password_env window_hours
  | Commands.Snapshot (SnapshotCommands.Hash_ path) => hash_snapshot path
  end.

(** [ExitCode], or a process that unwinds out of [main]. *)
Inductive Exit : Type := SUCCESS | FAILURE | ABORTED.

Definition main (command : Commands) : Reports.command Exit :=
  outcome ← run command;
  match outcome with
  | Ok _ => Ret SUCCESS
  | Err Thrown.Panic => Ret ABORTED
  | Err (Thrown.Raised error) =>
      printed ← call (Eprint ("error: " +:+ error_text error +:+ nl));
      Ret match printed with Ok _ => FAILURE | Err _ => ABORTED end
  end.
End commands.
