(* ===== verification/CommandTheorems.v ===== *)
(** * Correctness of the command line

    What each command may touch, that every statement it executes is guarded,
    those that the HTTP server executes for its requests included,
    what decides its exit code, that what it exports can be imported, and that the
    contract manifest is true. *)

From Stdlib Require Import SpecFloat.
From S2P Require Import McpFixtures HttpSpec HttpTheorems Fixtures ExecutorFixtures AuthTheorems.
From S2P Require Import OsiFixtures.
From S2P Require Import AuthoringTheorems CatalogDiffSpec ExecutorSpec MutationExecutorSpec.
From S2P Require Import MutationTheorems PublishedModelSpec.
From S2P Require Import RateLimit PublishedModel Executor MutationExecutor Prelude Ordered Text.
From S2P Require Import StrOps Json Lsq Semantic Compiler Lsm Mutation Diff Effects Database.
From S2P Require Import Catalog CatalogDiff CatalogScan CatalogScanTheorems Authority Mcp McpParams.
From S2P Require Import McpPublic McpTools McpStdio McpSpec McpRuns Http HttpServer Authoring Osi.
From S2P Require Import OsiExport OsiSpec OsiRoundTrip OsiTheorems Benchmark BenchmarkTheorems.
From S2P Require Import Reports Commands.

(** ** Calls of a command *)

Abbreviation only P p := (quiet (M := unit) (fun _ op => P op) (fun _ _ _ => tt) p tt).

Lemma only_mono {Op} {Res : Op -> Type} (P Q : Op -> Prop) {A} (p : prog Res A) :
  (forall op, P op -> Q op) -> only P p -> only Q p.
Proof.
  intros HPQ. unfold quiet. induction p as [a|op k IH]; simpl; [done|].
  intros [Hop Hk]. split; [by apply HPQ|]. intros r. by apply IH.
Qed.

Section calls.
Context `{HA : AuthCrates}.

Lemma on_server_only (P : CommandOp -> Prop) {A} (p : stdio A) :
  only (fun op => P (Server op)) p -> only P (on_server p).
Proof.
  unfold quiet. induction p as [a|op k IH]; simpl; [done|].
  intros [Hop Hk]. split; [done|]. intros r. by apply IH.
Qed.

Lemma on_database_only (P : StdioOp -> Prop) {A} (p : io A) :
  only (fun op => P (Db op)) p -> only P (on_database p).
Proof.
  unfold quiet. induction p as [a|op k IH]; simpl; [done|].
  intros [Hop Hk]. split; [done|]. intros r. by apply IH.
Qed.

Lemma query_database_only (P : CommandOp -> Prop) {A} (p : io A) :
  only (fun op => P (Server (Db op))) p -> only P (query_database p).
Proof. intros Hp. by apply on_server_only, on_database_only. Qed.

Lemma on_setup_only (P : CommandOp -> Prop) {A} (p : prog SetupRes A) :
  only (fun op => match op with
                  | LookUp path => P (ReadConfigured path)
                  | Prepare op => P (Server (Db op))
                  end) p ->
  only P (on_setup p).
Proof.
  unfold quiet. induction p as [a|[path|op] k IH]; simpl; [done| |];
    (intros [Hop Hk]; split; [done|]; intros r; by apply IH).
Qed.

Lemma only_true {Op} {Res : Op -> Type} (P : Op -> Prop) {A} (p : prog Res A) :
  (forall op, P op) -> only P p.
Proof. intros HP. unfold quiet. induction p as [a|op k IH]; simpl; auto. Qed.
End calls.

(** ** What a command may touch *)

(** The files an invocation names. *)
Definition named_files (command : Commands) : list string :=
  match command with
  | Commands.Benchmark (BenchmarkCommands.Execution path _ _ _ _ _ _ _)
  | Commands.Query (QueryCommands.Validate path)
  | Commands.Query (QueryCommands.Execute path _ _ _ _)
  | Commands.Mutation (MutationCommands.Execute path _ _ _ _)
  | Commands.Snapshot (SnapshotCommands.Hash_ path) => [path]
  | Commands.Catalog (CatalogCommands.Diff from to _)
  | Commands.Model (ModelCommands.Diff from to _) => [from; to]
  | Commands.Model (ModelCommands.Export_ _ _ _ catalog from) =>
      option_list catalog ++ option_list from
  | Commands.Model (ModelCommands.Import_ (ModelImportCommands.Osi from catalog _ _)) =>
      [from; catalog]
  | Commands.Model (ModelCommands.Scaffold request catalog _) => [request; catalog]
  | Commands.Mutation (MutationCommands.Validate path snapshot)
  | Commands.Query (QueryCommands.Compile path snapshot) => [path; snapshot]
  | _ => []
  end.

(** The commands that work without a database. *)
Definition offline (command : Commands) : bool :=
  match command with
  | Commands.Benchmark (BenchmarkCommands.Compiler _ _ _ _)
  | Commands.Catalog (CatalogCommands.Diff _ _ _)
  | Commands.Contract _ | Commands.Doctor _
  | Commands.Model (ModelCommands.Diff _ _ _)
  | Commands.Model (ModelCommands.Export_ _ _ _ _ (Some _))
  | Commands.Model (ModelCommands.Import_ _) | Commands.Model (ModelCommands.Scaffold _ _ _)
  | Commands.Mutation (MutationCommands.Validate _ _)
  | Commands.Query (QueryCommands.Validate _) | Commands.Query (QueryCommands.Compile _ _)
  | Commands.Snapshot _ => true
  | _ => false
  end.

Definition version_commands : list (string * list string) :=
  [("container", ["--version"]); ("container-compose", ["--version"]); ("docker", ["--version"]);
   ("docker", ["compose"; "version"])].

(** Files are the named ones, or configured for the HTTP server; programs are run
    by the doctor only, servers by the commands that serve; without a database only
    the clock is asked. *)
Definition permitted `{AuthCrates} (command : Commands) (op : CommandOp) : Prop :=
  match op with
  | ReadFile path => path ∈ named_files command
  | RunProgram program arguments =>
      (exists json, command = Commands.Doctor json) /\ (program, arguments) ∈ version_commands
  | Print _ => forall c, command <> Commands.Mcp c
  | Eprint _ => True
  | Server (Db op) => offline command = true -> op = Elapsed
  | Server _ => command = Commands.Mcp McpCommands.Serve
  | BuildRuntime | TcpBind _ | AxumServe _ | Drain _ | ShutdownTimeout _ | ReadConfigured _ =>
      command = Commands.Mcp McpCommands.ServeHttp
  end.

Section touch.
Context `{HC : Crates, HM : ModelParsers, HD : Driver, HL : LsqParser, HLm : LsmParser}.
Context `{HJ : JsonText, HS : Schemas, HA : AuthCrates, HAP : AuthoringParser}.
Context `{HY : OsiYaml, HP : Platform, HCC : CommandCrates}.
Context (var : environment) (stdin : Reader).
Context (parse_socket_addr : string -> option SocketAddr) (parent : string -> string).

Abbreviation run := (Commands.run var stdin parse_socket_addr parent).
Abbreviation main := (Commands.main var stdin parse_socket_addr parent).

Section command.
Context (command : Commands).
Abbreviation stays p := (only (permitted command) p).

Lemma read_stays path : path ∈ named_files command -> stays (read path).
Proof. intros Hp. unfold read. by quiet. Qed.

Lemma read_snapshot_stays path : path ∈ named_files command -> stays (read_snapshot path).
Proof. intros Hp. unfold read_snapshot. by apply quiet_try; [apply read_stays|]. Qed.

Lemma read_catalog_stays path :
  path ∈ named_files command -> stays (Commands.read_catalog path).
Proof. intros Hp. unfold Commands.read_catalog. by apply quiet_try; [apply read_stays|]. Qed.

Lemma print_stays text : (forall c, command <> Commands.Mcp c) -> stays (print text).
Proof. intros Hc. unfold print. by quiet. Qed.

Lemma println_stays text : (forall c, command <> Commands.Mcp c) -> stays (println text).
Proof. apply print_stays. Qed.

Lemma print_document_stays document :
  (forall c, command <> Commands.Mcp c) -> stays (print_document document).
Proof. intros Hc. unfold print_document. by apply quiet_try; [|intros ?; apply println_stays]. Qed.

Lemma online_stays {A} (p : io A) : offline command = false -> stays (query_database p).
Proof. intros Ho. apply query_database_only, only_true. intros op. simpl. by rewrite Ho. Qed.

Lemma on_connection_stays {E A} (convert : E -> CommandError) (p : io_result E A) :
  offline command = false -> stays (on_connection convert p).
Proof. intros Ho. by apply quiet_attempt, online_stays. Qed.

Lemma on_connection_thrown_stays {E A} (convert : E -> CommandError) (p : io_result (Thrown E) A) :
  offline command = false -> stays (on_connection_thrown convert p).
Proof. intros Ho. by apply quiet_attempt, online_stays. Qed.

Lemma checked_stays {E A} (convert : E -> CommandError) (m : result E A) : stays (checked convert
  m).
Proof. done. Qed.

Lemma fail_when_stays condition error : stays (fail_when condition error).
Proof. done. Qed.
End command.

#[local] Hint Resolve read_stays read_snapshot_stays read_catalog_stays print_stays println_stays
  print_document_stays on_connection_stays on_connection_thrown_stays checked_stays
  fail_when_stays : quiet.
#[local] Hint Extern 1 (_ ∈ _) => set_solver : quiet.
#[local] Hint Extern 1 (forall _, _ <> _) => discriminate : quiet.

Lemma iterate_only (P : operation -> Prop) n body : only P body -> only P (iterate n body).
Proof. intros Hb. unfold iterate. by quiet. Qed.

Lemma measure_only (P : operation -> Prop) n body :
  P Elapsed -> only P body -> only P (measure n body).
Proof. intros HE Hb. induction n as [|n IH]; cbn [measure]; [done|]. by quiet. Qed.

Lemma compiler_baseline_clock models warmup iterations threshold_ms :
  only (fun op => op = Elapsed) (compiler_baseline models warmup iterations threshold_ms).
Proof.
  unfold compiler_baseline. cbv zeta. quiet; by apply iterate_only || apply measure_only.
Qed.

Lemma benchmark_compiler_stays models warmup iterations threshold_ms :
  let command := Commands.Benchmark (BenchmarkCommands.Compiler models warmup iterations
    threshold_ms) in
  only (permitted command) (benchmark_compiler models warmup iterations threshold_ms).
Proof.
  intros command. unfold benchmark_compiler, on_connection_thrown. quiet.
  apply query_database_only. eapply only_mono; [|apply compiler_baseline_clock]. by intros op ->.
Qed.

Lemma doctor_stays json : only (permitted (Commands.Doctor json)) (doctor json).
Proof.
  unfold doctor, inspect, command_version, print_runtime. quiet; simpl; try done;
    (split; [by exists json|set_solver]).
Qed.

(** A value that is wrapped before it is used. *)
Lemma quiet_wrapped {Op} {Res : Op -> Type} {M E A B C} allowed (observe : M -> forall op,
  Res op -> M)
    (p : prog Res (result E A)) (wrap : A -> B) (k : B -> prog Res (result E C)) m :
  quiet allowed observe p m -> (forall a, quiet allowed observe (k (wrap a)) m) ->
  quiet allowed observe (try_bind (try_bind p (fun a => Ret (Ok (wrap a)))) k) m.
Proof.
  intros Hp Hk. apply monitored_bind, monitored_bind. eapply monitored_mono; [exact Hp|].
  intros m' [a|e] ->; [apply Hk|done].
Qed.

Lemma export_model_stays project database_url_env format catalog from :
  only (permitted (Commands.Model (ModelCommands.Export_ project database_url_env format catalog
    from)))
    (export_model var database_url_env project format catalog from).
Proof.
  unfold export_model, export_catalog. destruct from as [from|]; [|by quiet].
  apply quiet_try_lift. intros u Hu%fail_if_ok. destruct format; [done|].
  destruct catalog as [catalog|]; [|by apply quiet_try_lift].
  apply quiet_wrapped; [apply read_catalog_stays; set_solver|intros c]. by quiet.
Qed.

(** Every command only makes calls it is permitted. *)
Lemma run_stays command : only (permitted command) (run command).
Proof.
  destruct command as [[]|[]|[]| |[| |[]|]|[]|[]|[]|[]|[]]; cbn [Commands.run].
  - apply benchmark_compiler_stays.
  - unfold benchmark_execution, query_configuration. by quiet.
  - unfold scan_catalog. by quiet.
  - unfold diff_catalogs. by quiet.
  - unfold show_contract. by quiet.
  - apply doctor_stays.
  - unfold diff_models. by quiet.
  - apply export_model_stays.
  - unfold Commands.import_osi. by quiet.
  - unfold Commands.scaffold_model. by quiet.
  - unfold Commands.validate_mutation. by quiet.
  - unfold execute_mutation, mutation_execution_context. by quiet.
  - unfold reconcile_mutation, mutation_execution_context. by quiet.
  - unfold serve_stdio. quiet. apply on_server_only, only_true. by intros [].
  - unfold serve_http, serve_async. quiet; try done.
    apply on_setup_only, only_true. by intros [].
  - unfold Commands.validate_query. by quiet.
  - unfold compile_query. by quiet.
  - unfold execute_query, query_configuration. by quiet.
  - unfold beta_report. by quiet.
  - unfold operations_report. by quiet.
  - unfold hash_snapshot. by quiet.
Qed.

Lemma main_runs command tr e :
  runs (main command) tr e ->
  exists tr1 r tr2, tr = tr1 ++ tr2 /\ runs (run command) tr1 r
    /\ match r with
       | Ok _ => tr2 = [] /\ e = SUCCESS
       | Err Thrown.Panic => tr2 = [] /\ e = ABORTED
       | Err (Thrown.Raised error) => exists printed : result io_error unit,
           tr2 = [Ev (Eprint ("error: " +:+ error_text error +:+ nl)) printed]
           /\ e = if is_ok printed then FAILURE else ABORTED
       end.
Proof.
  intros (tr1 & r & tr2 & -> & H1 & H2)%runs_bind. exists tr1, r, tr2. split; [done|]. split;
    [done|].
  destruct r as [[]|[error|]]; [done| |done].
  apply runs_bind in H2 as (? & printed & ? & -> & (? & ? & -> & -> & <-) & [-> ->]).
  exists printed. split; [done|]. by destruct printed.
Qed.
End touch.

(** *** Calls on the database *)

(** What an event of a command did on the database: a call, or the work of the
    tasks of a server, task by task. *)
Definition event_database `{AuthCrates} (e : event CommandRes) : list (event answer) :=
  match e with
  | Ev (Server (Db op)) r => [Ev op r]
  | Ev (AxumServe _) r => concat (map (fun handled => concat (Handled.work handled)) r.1)
  | _ => []
  end.

Definition database `{AuthCrates} (tr : list (event CommandRes)) : list (event answer) :=
  concat (map event_database tr).

Lemma database_app `{HA : AuthCrates} tr tr' : database (tr ++ tr') = database tr ++ database tr'.
Proof. unfold database. by rewrite map_app, concat_app. Qed.

(** *** Files that configure the HTTP server *)

(** The file that the variable of the authority document names, and the two files
    that this document names, as it was read in the run. *)
Definition configured_file `{AuthCrates} (var : environment) (parent : string -> string)
    (tr : list (event CommandRes)) (path : string) : Prop :=
  exists authority_path, var AUTHORITY_FILE_ENV = Ok authority_path
    /\ (path = authority_path
        \/ exists entry raw document,
             Ev (Res := CommandRes) (ReadConfigured authority_path) entry ∈ tr
             /\ read_bounded entry MAX_AUTHORITY_FILE_BYTES "authority document" = Ok raw
             /\ authority_from_slice raw = Some document
             /\ path ∈ [resolve_path (parent authority_path) (AuthorityDocument.jwks_path document);
                        resolve_path (parent authority_path)
                          (AuthorityDocument.principal_hmac_key_path document)]).

Section configured.
Context `{HD : Driver, HA : AuthCrates}.
Context (var : environment) (parse_socket_addr : string -> option SocketAddr).
Context (parent : string -> string).

(** The files that loading, a preparation or a command looks up, with what was there. *)
Definition lookups (tr : list (event FileRes)) : list (string * option file_entry) :=
  map (fun e : event FileRes => (ev_op e, ev_res e : option file_entry)) tr.

Definition looked_up (tr : list (event SetupRes)) : list (string * option file_entry) :=
  omap (fun e : event SetupRes =>
          match e with Ev (LookUp path) r => Some (path, r : option file_entry) | _ => None end) tr.

Definition configured_reads (tr : list (event CommandRes)) : list (string * option file_entry) :=
  omap (fun e : event CommandRes =>
          match e with
          | Ev (ReadConfigured path) r => Some (path, r : option file_entry)
          | _ => None
          end) tr.

Lemma configured_read_in tr path entry :
  (path, entry) ∈ configured_reads tr <->
  Ev (Res := CommandRes) (ReadConfigured path) entry ∈ tr.
Proof.
  unfold configured_reads. rewrite list_elem_of_omap. split.
  - intros ([op r] & Hin & He). destruct op; try done. by simplify_eq.
  - intros Hin. by exists (Ev (ReadConfigured path) entry).
Qed.

Lemma on_setup_events {A} (p : prog SetupRes A) tr a :
  runs (on_setup p) tr a ->
  exists tr', runs p tr' a /\ configured_reads tr = looked_up tr'
    /\ database tr = setup_database tr'.
Proof.
  revert tr. induction p as [b|[path|op] k IH]; intros tr; simpl.
  - intros [-> ->]. by exists [].
  - intros (r & tr' & -> & (tr'' & Hr & Hl & Hd)%IH). exists (Ev (LookUp path) r :: tr'').
    split; [by exists r, tr''|]. unfold database in *. simpl. by rewrite Hl, Hd.
  - intros (r & tr' & -> & (tr'' & Hr & Hl & Hd)%IH). exists (Ev (Prepare op) r :: tr'').
    split; [by exists r, tr''|]. unfold database in *. simpl. by rewrite Hl, Hd.
Qed.

Lemma on_files_lookups {A} (p : prog FileRes A) tr a :
  runs (on_files p) tr a -> exists tr', runs p tr' a /\ looked_up tr = lookups tr'.
Proof.
  revert tr. induction p as [b|path k IH]; intros tr; simpl; [intros [-> ->]; by exists []|].
  intros (r & tr' & -> & (tr'' & Hr & Hl)%IH). exists (Ev path r :: tr'').
  split; [by exists r, tr''|]. simpl. by rewrite Hl.
Qed.

Lemma on_roles_lookups {A} (p : io A) tr a : runs (on_roles p) tr a -> looked_up tr = [].
Proof.
  revert tr. induction p as [b|op k IH]; intros tr; simpl; [by intros [-> ->]|].
  intros (r & tr' & -> & Hr%IH). done.
Qed.

(** A preparation looks up what loading the authority looks up. *)
Lemma prepare_lookups tr r :
  runs (prepare_server var parse_socket_addr parent) tr r ->
  looked_up tr = []
  \/ exists path tr' r', var AUTHORITY_FILE_ENV = Ok path
       /\ runs (load_path parent path) tr' r' /\ looked_up tr = lookups tr'.
Proof.
  unfold prepare_server, HttpServer.required_environment.
  destruct (var AUTHORITY_FILE_ENV) as [path|e]; [|intros [-> _]; by left].
  cbn [map_err lift try_bind mbind prog_bind prog_bind_].
  intros (tr1 & m & tr2 & -> & Hl & Hr)%runs_bind. right.
  apply runs_bind in Hl as (tr3 & m' & tr4 & -> & (tr' & Hl & Hf)%on_files_lookups & [-> ->]).
  exists path, tr', m'. split_and!; [done..|]. rewrite app_nil_r. unfold looked_up in *.
  rewrite omap_app, Hf.
  destruct m' as [authority|e]; [apply on_roles_lookups in Hr|destruct Hr as [-> _]].
  - unfold looked_up in Hr. by rewrite Hr, app_nil_r.
  - by rewrite app_nil_r.
Qed.

Lemma load_document_lookups base entry tr r :
  runs (load_document base entry) tr r ->
  Forall (fun e => exists raw document,
    read_bounded entry MAX_AUTHORITY_FILE_BYTES "authority document" = Ok raw
    /\ authority_from_slice raw = Some document
    /\ ev_op e ∈ [resolve_path base (AuthorityDocument.jwks_path document);
                  resolve_path base (AuthorityDocument.principal_hmac_key_path document)]) tr.
Proof.
  unfold load_document.
  destruct (read_bounded entry _ _) as [raw|e] eqn:Hraw; [|intros [-> _]; constructor].
  cbn [lift try_bind mbind prog_bind prog_bind_].
  destruct (authority_from_slice raw) as [document|] eqn:Hd; [|intros [-> _]; constructor].
  cbn [ok_or]. destruct (validate_document document) as [[]|e]; [|intros [-> _]; constructor].
  intros (jwks & tr' & -> & Hr). constructor; [exists raw, document; set_solver|].
  cbn [mbind prog_bind prog_bind_] in Hr.
  destruct (read_bounded jwks _ _) as [jwks_bytes|e]; [|destruct Hr as [-> _]; constructor].
  destruct Hr as (hmac & tr'' & -> & Hr). constructor; [exists raw, document; set_solver|].
  cbn [mbind prog_bind prog_bind_] in Hr.
  destruct (read_bounded hmac _ _) as [hmac_bytes|e]; destruct Hr as [-> _]; constructor.
Qed.

Lemma prepared_files tr r path entry :
  runs (on_setup (prepare_server var parse_socket_addr parent)) tr r ->
  Ev (Res := CommandRes) (ReadConfigured path) entry ∈ tr -> configured_file var parent tr path.
Proof.
  intros (tr' & Hp & Hl & _)%on_setup_events Hin%configured_read_in. rewrite Hl in Hin.
  apply prepare_lookups in Hp as [Hn|(authority_path & tr2 & r2 & Hv & Hr & He)];
    [rewrite Hn in Hin; by apply not_elem_of_nil in Hin|].
  exists authority_path. split; [done|]. destruct Hr as (file & tr3 & -> & Hr).
  rewrite He in Hin. simpl in Hin. apply elem_of_cons in Hin as [Hin|Hin]; [left; by simplify_eq|].
  right. apply list_elem_of_fmap in Hin as (e & Hpe & Hin). apply load_document_lookups in Hr.
  rewrite Forall_forall in Hr. destruct (Hr _ Hin) as (raw & document & Hraw & Hd & Hpath).
  exists file, raw, document. split_and!; [|done|done|by simplify_eq].
  apply configured_read_in. rewrite Hl, He. by left.
Qed.
End configured.

Section read_files.
Context `{HC : Crates, HM : ModelParsers, HD : Driver, HL : LsqParser, HLm : LsmParser}.
Context `{HJ : JsonText, HS : Schemas, HA : AuthCrates, HAP : AuthoringParser}.
Context `{HY : OsiYaml, HP : Platform, HCC : CommandCrates}.
Context (var : environment) (stdin : Reader).
Context (parse_socket_addr : string -> option SocketAddr) (parent : string -> string).

Abbreviation run := (Commands.run var stdin parse_socket_addr parent).

Lemma configured_file_app tr tr' path :
  configured_file var parent tr path -> configured_file var parent (tr ++ tr') path.
Proof. unfold configured_file. setoid_rewrite elem_of_app. naive_solver. Qed.

(** Serving, once the server is prepared. *)
Lemma serve_http_runs tr r :
  runs (serve_http var parse_socket_addr parent) tr r ->
  exists tr1 m tr2, tr = tr1 ++ tr2
    /\ runs (on_setup (prepare_server var parse_socket_addr parent)) tr1 m
    /\ match m with
       | Ok setup => exists r',
           runs (attempt (fun _ => HttpServerError.Runtime) (call BuildRuntime) ;;?
                 result ← serve_async setup;
                 call (ShutdownTimeout BLOCKING_SHUTDOWN_TIMEOUT) ≫= fun _ => Ret result) tr2 r'
       | Err _ => tr2 = []
       end.
Proof.
  intros (tr1 & m & tr2 & -> & Hp & Hr)%runs_bind. exists tr1, m, tr2. split_and!; [done..|].
  destruct m as [setup|e]; [by exists r|]. by destruct Hr as [-> _].
Qed.

Lemma read_configured_files command tr r path entry :
  runs (run command) tr r -> Ev (Res := CommandRes) (ReadConfigured path) entry ∈ tr ->
  configured_file var parent tr path.
Proof.
  intros Hr Hin. pose proof (quiet_runs _ _ _ _ (run_stays _ _ _ _ command) Hr) as Hs.
  rewrite Forall_forall in Hs. apply Hs in Hin as Hc. simpl in Hc. subst command. clear Hs.
  apply runs_bind in Hr as (tr0 & m0 & tr0' & -> & Hr & [-> _]). rewrite app_nil_r in *.
  apply serve_http_runs in Hr as (tr1 & m & tr2 & -> & Hp & Hr).
  apply configured_file_app. apply elem_of_app in Hin as [Hin|Hin]; [by eapply prepared_files|].
  destruct m as [setup|e]; [|subst; by apply not_elem_of_nil in Hin]. destruct Hr as [r' Hr].
  assert (Hq : Forall (fun ev => forall path, ev_op ev <> ReadConfigured path) tr2).
  { refine (quiet_runs (fun op => forall path, op <> ReadConfigured path) _ _ _ _ Hr).
    unfold serve_async. by quiet. }
  rewrite Forall_forall in Hq. by destruct (Hq _ Hin path).
Qed.
End read_files.

(** C25: a command touches only what its arguments name.  Whatever it reads and
    whatever is answered, it reads the files it names and no others; the HTTP
    server reads the authority document that its variable names and the two files
    which that document, as it was read, names; only the doctor starts programs,
    the four version commands; only the two serving commands make the calls of a
    server; and the commands that need no database (comparing, validating,
    compiling, hashing, scaffolding, importing, exporting a file, the contract and
    the benchmark of the compiler) connect to none: they only ever ask the
    clock. *)
Theorem commands_touch_only_what_they_name
    `{HC : Crates, HM : ModelParsers, HD : Driver, HL : LsqParser, HLm : LsmParser}
    `{HJ : JsonText, HS : Schemas, HA : AuthCrates, HAP : AuthoringParser}
    `{HY : OsiYaml, HP : Platform, HCC : CommandCrates} var stdin parse_socket_addr parent
    command tr e :
  runs (Commands.main var stdin parse_socket_addr parent command) tr e ->
  Forall (fun ev => permitted command (ev_op ev)) tr
  /\ forall path entry, Ev (Res := CommandRes) (ReadConfigured path) entry ∈ tr ->
       configured_file var parent tr path.
Proof.
  intros (tr1 & r & tr2 & -> & H1 & H2)%main_runs.
  assert (H3 : Forall (fun ev => exists text, ev_op ev = Eprint text) tr2).
  { destruct r as [[]|[error|]]; [by destruct H2 as [-> _]| |by destruct H2 as [-> _]].
    destruct H2 as (printed & -> & _). repeat constructor. simpl. eauto. }
  split.
  - apply Forall_app. split; [exact (quiet_runs _ _ _ _ (run_stays _ _ _ _ _) H1)|].
    eapply Forall_impl; [exact H3|]. by intros [op a] [text ->].
  - intros path entry [Hin|Hin]%elem_of_app.
    + by eapply configured_file_app, read_configured_files.
    + rewrite Forall_forall in H3. by destruct (H3 _ Hin).
Qed.

(** ** What a command executes *)

(** The calls on the database in a trace of a server. *)
Definition stdio_database (tr : list (event StdioRes)) : list (event answer) :=
  omap (fun e : event StdioRes =>
          match e with Ev (Db op) r => Some (Ev op r) | _ => None end) tr.

(** A trace cut into parts of one kind. *)
Definition composed {E} (P : list E -> Prop) (tr : list E) : Prop :=
  exists parts, tr = concat parts /\ Forall P parts.

Section composed.
Context {E : Type} (P : list E -> Prop).

Lemma composed_nil : composed P [].
Proof. by exists []. Qed.

Lemma composed_one tr : P tr -> composed P tr.
Proof. intros Hp. exists [tr]. simpl. rewrite app_nil_r. auto. Qed.

Lemma composed_app tr tr' : composed P tr -> composed P tr' -> composed P (tr ++ tr').
Proof.
  intros (ps & -> & Hp) (ps' & -> & Hp'). exists (ps ++ ps'). split; [by rewrite concat_app|].
  by apply Forall_app.
Qed.
End composed.

Lemma composed_mono {E} (P Q : list E -> Prop) tr :
  (forall part, P part -> Q part) -> composed P tr -> composed Q tr.
Proof. intros HPQ (ps & -> & Hp). exists ps. split; [done|]. by eapply Forall_impl. Qed.

(** Calls that neither write nor execute a generated statement. *)
Definition reading_call (op : operation) : Prop :=
  metadata_call op \/ catalog_read op
  \/ match op with
     | QueryOne _ (SET_CONFIG _ _ _) | QueryOpt Source (ROLE_SQL _) => True
     | _ => False
     end.

Definition reading (part : list (event answer)) : Prop :=
  Forall (fun e => reading_call (ev_op e)) part.

#[export] Instance reading_calm :
  Calm (M := unit) (fun _ op => reading_call op) (fun _ _ _ => tt).
Proof.
  split; [|by intros []]. intros m op Hop. left. exact (calm_allowed (Calm := metadata_calm) m op
    Hop).
Qed.

Lemma stdio_database_app tr tr' :
  stdio_database (tr ++ tr') = stdio_database tr ++ stdio_database tr'.
Proof. apply omap_app. Qed.

Lemma on_database_events {A} (p : io A) tr a :
  runs (on_database p) tr a -> runs p (stdio_database tr) a.
Proof.
  revert tr. induction p as [b|op k IH]; intros tr; simpl; [by intros [-> ->]|].
  intros (r & tr' & -> & Hr%IH). by exists r, (stdio_database tr').
Qed.

Section events.
Context `{HA : AuthCrates}.

Lemma on_server_events {A} (p : stdio A) tr a :
  runs (on_server p) tr a -> exists tr', runs p tr' a /\ database tr = stdio_database tr'.
Proof.
  revert tr. induction p as [b|op k IH]; intros tr; simpl; [intros [-> ->]; by exists []|].
  intros (r & tr' & -> & (tr'' & Hr & Hd)%IH). exists (Ev op r :: tr''). split; [by exists r,
    tr''|].
  unfold database in *. simpl. rewrite Hd. by destruct op.
Qed.

Lemma query_database_events {A} (p : io A) tr a :
  runs (query_database p) tr a -> runs p (database tr) a.
Proof. intros (tr' & Hr%on_database_events & ->)%on_server_events. exact Hr. Qed.
End events.

(** Programs whose database calls fall into parts of one kind. *)
Section parts.
Context (P : list (event answer) -> Prop).

Definition served_in {A} (p : stdio A) : Prop :=
  forall tr a, runs p tr a -> composed P (stdio_database tr).

Lemma served_ret {A} (a : A) : served_in (Ret a).
Proof. intros tr b [-> _]. apply composed_nil. Qed.

Lemma served_bind {A B} (p : stdio A) (f : A -> stdio B) :
  served_in p -> (forall a, served_in (f a)) -> served_in (p ≫= f).
Proof.
  intros Hp Hf tr b (tr1 & a & tr2 & -> & H1%Hp & H2%Hf)%runs_bind.
  rewrite stdio_database_app. by apply composed_app.
Qed.

Lemma served_try {E A B} (p : stdio (result E A)) (f : A -> stdio (result E B)) :
  served_in p -> (forall a, served_in (f a)) -> served_in (try_bind p f).
Proof. intros Hp Hf. apply served_bind; [done|]. intros [a|e]; [apply Hf|apply served_ret]. Qed.

Lemma served_output op : (forall op', op <> Db op') -> served_in (call (Res := StdioRes) op).
Proof.
  intros Hop tr a (r & tr' & -> & [-> ->]). destruct op; try apply composed_nil.
    by destruct (Hop op).
Qed.

Lemma served_attempt {D E A} (err : D -> E) (p : stdio (result D A)) :
  served_in p -> served_in (attempt err p).
Proof. intros Hp. apply served_bind; [done|]. intros r. apply served_ret. Qed.

Lemma served_database {A} (p : io A) :
  (forall tr a, runs p tr a -> P tr) -> served_in (on_database p).
Proof. intros Hp tr a Hr%on_database_events. apply composed_one. by eapply Hp. Qed.
End parts.

Section serving.
Context `{HC : Crates, HM : ModelParsers, HD : Driver, HL : LsqParser, HLm : LsmParser}.
Context `{HJ : JsonText, HS : Schemas} (config : McpConfig).

(** A part of a session: the calls of one request, or reading. *)
Definition session_part (part : list (event answer)) : Prop :=
  reading part \/ exists method params, conforms config method params part.

Abbreviation serves_in p := (served_in session_part p).

Lemma log_request_serves method tool status code :
  serves_in (log_request method tool status code).
Proof.
  apply served_bind; [|intros d; apply served_bind; [by apply (served_output _ (Eprintln _))|intros r;
    apply served_ret]].
  apply served_database. intros tr a (r & tr' & -> & [-> _]). left. repeat constructor.
Qed.

Lemma logged_serves {A} method tool status code (a : A) :
  serves_in (then_return (log_request method tool status code) a).
Proof. apply served_bind; [apply log_request_serves|]. intros logged. apply served_ret. Qed.

Lemma answer_request_serves id method params : serves_in (answer_request config id method params).
Proof.
  unfold answer_request. cbv zeta. apply served_bind.
  - apply served_database. intros tr r Hr. right. exists method, params.
    apply dispatched_conforms. left. by exists r.
  - intros [v|[error|]]; [|apply logged_serves|apply served_ret].
    destruct id; [destruct (tool_result_status v)|]; apply logged_serves.
Qed.

Lemma handle_line_serves line : serves_in (handle_line config line).
Proof.
  unfold handle_line, reject_request.
  repeat (case_match || case_decide); first [apply logged_serves|apply answer_request_serves].
Qed.

Lemma then_write_serves message rest : serves_in rest -> serves_in (then_write message rest).
Proof.
  intros Hr. apply served_bind; [|intros [[]|]; [done|apply served_ret]]. unfold write_message.
  apply served_try; [|intros []; apply served_try; [|intros []]]; apply served_attempt.
  - by apply (served_output _ (ToWriter _)).
  - by apply (served_output _ (WriteAll _)).
  - by apply (served_output _ Flush).
Qed.

Lemma serve_io_serves fuel : forall reader, serves_in (serve_io config fuel reader).
Proof.
  induction fuel as [|fuel IH]; intros reader; cbn [serve_io]; [apply served_ret|].
  destruct (read_bounded_line _ _) as [[[[|line|]|e] reader']|]; try apply served_ret.
  - case_match; [apply IH|]. apply served_bind; [apply handle_line_serves|].
    intros [[response|]|]; [by apply then_write_serves|apply IH|apply served_ret].
  - apply served_bind; [apply log_request_serves|].
    intros []; [by apply then_write_serves|apply served_ret].
Qed.
End serving.

(** *** Parts of a command *)

Definition report_function (command : ReportCommands) : string :=
  match command with
  | ReportCommands.Beta _ _ _ => "semantic.beta_operational_report"
  | ReportCommands.Operations _ _ _ => "semantic.m10_operational_report"
  end.

Definition report_window (command : ReportCommands) : N :=
  match command with
  | ReportCommands.Beta _ _ hours | ReportCommands.Operations _ _ hours => hours
  end.

(** *** Requests of the HTTP server *)

(** The jobs that a handler spawned, in order. *)
Definition spawned_jobs (calls : list (event HttpRes)) : list Job :=
  omap (fun e => match ev_op e with Spawn job => Some job | _ => None end) calls.

Section requests.
Context `{HC : Crates, HM : ModelParsers, HD : Driver, HL : LsqParser, HLm : LsmParser}.
Context `{HS : Schemas, HA : AuthCrates, HH : HttpCrates}.

(** What the HTTP library and the runtime do: every request to the endpoint is
    given to its handler and every spawned task is run, each as far as it comes
    before the process ends. *)
Definition handles (state : HttpState) (handled : Handled) : Prop :=
  (exists rest response,
     runs (handle_mcp state (Handled.headers handled)) (Handled.calls handled ++ rest) response)
  /\ Forall2 (fun job work => exists rest r, runs (dispatch_job job) (work ++ rest) r)
       (spawned_jobs (Handled.calls handled)) (Handled.work handled).

Definition axum_serves (tr : list (event CommandRes)) : Prop :=
  Forall (fun e : event CommandRes =>
    match e with
    | Ev (AxumServe setup) answered => Forall (handles (Setup.state setup)) answered.1
    | _ => True
    end) tr.

(** The work of a task that an authenticated request spawned: the calls of the
    method it asks for, over the configuration of its principal. *)
Definition authenticated_work (state : HttpState) (handled : Handled)
    (part : list (event answer)) : Prop :=
  exists before job u after,
    Handled.calls handled = before ++ Ev (Res := HttpRes) (Spawn job) u :: after
    /\ authenticated_before state (Handled.headers handled) before job
    /\ conforms (Job.server job) (Job.method job) (Value_Object (Job.params job)) part.

Lemma conforms_prefix config method params part rest :
  conforms config method params (part ++ rest) -> conforms config method params part.
Proof.
  intros [Hm|[(a & i & ? & ? & Ha)|(a & i & mu & ? & ? & ? & Ha)]].
  - left. by apply Forall_app in Hm as [Hm _].
  - right; left. apply accepts_app in Ha as [Ha _]. by exists a, i.
  - right; right. apply accepts_app in Ha as [Ha _]. by exists a, i, mu.
Qed.

Lemma dispatch_job_conforms job tr r :
  runs (dispatch_job job) tr r ->
  conforms (Job.server job) (Job.method job) (Value_Object (Job.params job)) tr.
Proof.
  intros Hr. apply dispatched_conforms. unfold dispatch_job in Hr.
  destruct (Job.streaming job); eauto.
Qed.

Lemma spawned_job calls job :
  job ∈ spawned_jobs calls ->
  exists before u after, calls = before ++ Ev (Res := HttpRes) (Spawn job) u :: after.
Proof.
  intros ([op u] & Hin & He)%list_elem_of_omap. destruct op; try done.
  simpl in He. simplify_eq.
  apply list_elem_of_split in Hin as (before & after & ->). by exists before, u, after.
Qed.

Lemma handled_work state handled part :
  handles state handled -> part ∈ Handled.work handled -> authenticated_work state handled part.
Proof.
  intros [(rest & response & Hr) Hw] [i Hi]%list_elem_of_lookup.
  destruct (Forall2_lookup_r _ _ _ _ _ Hw Hi) as (job & Hj & rest' & r & Hd).
  apply list_elem_of_lookup_2, spawned_job in Hj as (before & u & after & Hc).
  exists before, job, u, after. split_and!; [done| |].
  - rewrite Hc, <- app_assoc in Hr. by eapply spawned_authenticated.
  - by eapply conforms_prefix, dispatch_job_conforms.
Qed.
End requests.

Section guarded.
Context `{HC : Crates, HM : ModelParsers, HD : Driver, HL : LsqParser, HLm : LsmParser}.
Context `{HS : Schemas, HA : AuthCrates, HAP : AuthoringParser}.
Context `{HY : OsiYaml, HP : Platform, HCC : CommandCrates, HH : HttpCrates}.
Context (var : environment) (stdin : Reader).
Context (parse_socket_addr : string -> option SocketAddr) (parent : string -> string).

Abbreviation run := (Commands.run var stdin parse_socket_addr parent).

(** The file was read, with this content. *)
Definition was_read (path input : string) (tr : list (event CommandRes)) : Prop :=
  Ev (Res := CommandRes) (ReadFile path) (Ok input) ∈ tr.

(** A part of what a command does on the database, beside reading: the protocol
    of the query executor or of the mutation executor, over the configuration
    that the named variables give and the content of the named file; the calls of
    one request of a session; the work of a task of an authenticated request, on a
    server whose roles were checked before it served; or the statement of a
    report. *)
Definition guarded_part (command : Commands) (tr : list (event CommandRes))
    (part : list (event answer)) : Prop :=
  match command with
  | Commands.Query (QueryCommands.Execute path _ url audit_url role)
  | Commands.Benchmark (BenchmarkCommands.Execution path _ url audit_url role _ _ _) =>
      exists config input,
        Executor.from_environment var url audit_url role = Ok config /\ was_read path input tr
        /\ accepts (ExecutorSpec.allowed input config) ExecutorSpec.observe ExecutorSpec.idle part
  | Commands.Mutation (MutationCommands.Execute path project url audit_url role) =>
      exists config context input,
        MutationExecutor.from_environment var url audit_url role = Ok config
        /\ was_read path input tr
        /\ accepts (MutationExecutorSpec.allowed input project config context)
             MutationExecutorSpec.observe MutationExecutorSpec.idle part
  | Commands.Mcp McpCommands.Serve =>
      exists config method params,
        McpStdio.from_environment var = Ok config /\ conforms config method params part
  | Commands.Mcp McpCommands.ServeHttp =>
      exists before setup answered after handled,
        tr = before ++ Ev (Res := CommandRes) (AxumServe setup) answered :: after
        /\ ready setup (database before)
        /\ handled ∈ answered.1
        /\ authenticated_work (Setup.state setup) handled part
  | Commands.Report command =>
      (1 ≤ report_window command ≤ MAX_WINDOW_HOURS)%N
      /\ exists r, part = [Ev (QueryOne Audit (OPERATIONAL_REPORT (report_function command)
                                                 (report_window command))) r]
  | _ => False
  end.

Definition allowed_part (command : Commands) (tr : list (event CommandRes))
    (part : list (event answer)) : Prop :=
  reading part \/ guarded_part command tr part.

(** Programs that leave the database alone, and programs that only read it. *)
Definition not_database (op : CommandOp) : Prop :=
  match op with Server _ | AxumServe _ => False | _ => True end.
Definition reads_database (op : CommandOp) : Prop :=
  match op with Server (Db op) => reading_call op | AxumServe _ => False | _ => True end.

Lemma silent_runs {A} (p : command A) tr a : only not_database p -> runs p tr a -> database tr = [].
Proof.
  intros Hp Hr. pose proof (quiet_runs _ _ _ _ Hp Hr) as Hf. clear Hp Hr.
  induction Hf as [|[op r] tr Hop _ IH]; [done|]. by destruct op as [[]| | | | | | | | | |].
Qed.

Lemma reading_runs {A} (p : command A) tr a :
  only reads_database p -> runs p tr a -> reading (database tr).
Proof.
  intros Hp Hr. pose proof (quiet_runs _ _ _ _ Hp Hr) as Hf. clear Hp Hr.
  induction Hf as [|[op r] tr Hop _ IH]; [constructor|].
  destruct op as [[]| | | | | | | | | |]; try done. by constructor.
Qed.

Lemma offline_reads command tr r :
  offline command = true -> runs (run command) tr r -> reading (database tr).
Proof.
  intros Ho. apply reading_runs. eapply only_mono; [|apply run_stays].
  intros [[op| | | |]| | | | | | | | | |]; simpl; try (by intros ->); try done.
  intros ->; [|done]. left. done.
Qed.

Lemma read_silent path : only not_database (read path).
Proof. unfold read. by quiet. Qed.
Lemma read_catalog_silent path : only not_database (Commands.read_catalog path).
Proof. unfold Commands.read_catalog, read. by quiet. Qed.
Lemma print_silent text : only not_database (print text).
Proof. unfold print. by quiet. Qed.
Lemma print_document_silent document : only not_database (print_document document).
Proof. unfold print_document, println, print. by quiet. Qed.

Lemma silent_reads {A} (p : command A) : only not_database p -> only reads_database p.
Proof. apply only_mono. by intros [[]| | | | | | | | | |]. Qed.

Lemma connection_reads {E A} (convert : E -> CommandError) (p : io_result E A) :
  only reading_call p -> only reads_database (on_connection convert p).
Proof. intros Hp. by apply quiet_attempt, query_database_only. Qed.

Lemma connection_thrown_reads {E A} (convert : E -> CommandError) (p : io_result (Thrown E) A) :
  only reading_call p -> only reads_database (on_connection_thrown convert p).
Proof. intros Hp. by apply quiet_attempt, query_database_only. Qed.

Lemma reading_or_rollback {E A} c (body : io_result E A) :
  reading_call (Rollback c) -> only reading_call body -> only reading_call (or_rollback c body).
Proof. intros Hc Hb. unfold or_rollback. by quiet. Qed.

Lemma scan_reads variable : only reading_call (scan_from_env var variable).
Proof.
  unfold scan_from_env, scan. quiet; try done; try (by left).
  apply reading_or_rollback; [by left|]. eapply only_mono; [|apply read_catalog_reads].
  intros op Hop. by right; left.
Qed.

Lemma load_reads variable project : only reading_call (load_from_env var variable project).
Proof.
  unfold load_from_env, load_published_from_env, PublishedModel.load_published. quiet.
  eapply only_mono; [|apply load_published_internal_reads]. intros op Hop. by left.
Qed.

Lemma reconcile_reads project config context key :
  only reading_call (reconcile project config context key).
Proof. unfold reconcile, MutationExecutor.connect_audit. quiet; try done. by left. Qed.

Lemma preflight_query_reads base role : only reading_call (preflight_query base role).
Proof.
  unfold preflight_query, Executor.preflight_role, connect_runtime. quiet; try done; try (by left).
  apply reading_or_rollback; [by left|]. unfold Executor.fix_search_path, Executor.verify_role.
  quiet; try done; by right; right.
Qed.

Lemma preflight_mutation_reads base role : only reading_call (preflight_mutation base role).
Proof.
  unfold preflight_mutation, MutationExecutor.preflight_role, connect_mutation.
  quiet; try done; try (by left).
  apply reading_or_rollback; [by left|].
  unfold MutationExecutor.fix_search_path, MutationExecutor.verify_role.
  quiet; try done; by right; right.
Qed.

#[local] Hint Resolve scan_reads load_reads reconcile_reads preflight_query_reads
  preflight_mutation_reads : quiet.

Lemma on_files_reads (P : SetupOp -> Prop) {A} (p : prog FileRes A) :
  (forall path, P (LookUp path)) -> only P (on_files p).
Proof. intros Hl. unfold quiet. induction p as [a|path k IH]; simpl; auto. Qed.

Lemma on_roles_reads (P : SetupOp -> Prop) {A} (p : io A) :
  only (fun op => P (Prepare op)) p -> only P (on_roles p).
Proof.
  unfold quiet. induction p as [a|op k IH]; simpl; [done|].
  intros [Hop Hk]. split; [done|]. intros r. by apply IH.
Qed.

Lemma prepare_reads : only reads_database (on_setup (prepare_server var parse_socket_addr parent)).
Proof.
  apply on_setup_only. unfold prepare_server. apply quiet_try_lift. intros path _.
  apply quiet_try; [by apply quiet_attempt, on_files_reads|intros authority].
  apply on_roles_reads. unfold prepare_with. by quiet.
Qed.

#[local] Hint Resolve read_silent read_catalog_silent print_silent print_document_silent
  silent_reads
  connection_reads connection_thrown_reads prepare_reads query_database_only : quiet.

(** The commands that only read. *)
Definition only_reads (command : Commands) : bool :=
  match command with
  | Commands.Catalog (CatalogCommands.Scan _)
  | Commands.Model (ModelCommands.Export_ _ _ _ _ _)
  | Commands.Mutation (MutationCommands.Reconcile _ _ _ _ _) => true
  | _ => offline command
  end.

Lemma reading_command command tr r :
  only_reads command = true -> runs (run command) tr r -> reading (database tr).
Proof.
  destruct (offline command) eqn:Ho; [intros _; by apply offline_reads|].
  destruct command as [[]|[]|[]| |[| |[]|]|[]|[]|[]|[]|[]]; simpl; try done; intros _.
  - apply reading_runs. unfold scan_catalog. by quiet.
  - apply reading_runs. unfold export_model, export_catalog. by quiet.
  - apply reading_runs. unfold reconcile_mutation, mutation_execution_context. by quiet.
Qed.

(** *** Executors *)

Lemma uncancelled_query_accepted input project config context tr r :
  runs (Executor.execute input project config context) tr r ->
  accepts (ExecutorSpec.allowed input config) ExecutorSpec.observe ExecutorSpec.idle tr.
Proof.
  intros (tr' & Hr & ->)%uncancelled_runs. apply accepts_uncancelled;
    [apply query_callback_unmoved|].
  exact (proj1 (monitored_runs _ _ _ _ _ _ _ (execute_settles _ _ _ _) Hr)).
Qed.

Lemma uncancelled_mutation_accepted input project config context tr r :
  runs (MutationExecutor.execute project config context input) tr r ->
  accepts (MutationExecutorSpec.allowed input project config context)
    MutationExecutorSpec.observe MutationExecutorSpec.idle tr.
Proof.
  intros (tr' & Hr & ->)%uncancelled_runs.
  apply accepts_uncancelled; [apply mutation_callback_unmoved|].
  exact (proj1 (monitored_runs _ _ _ _ _ _ _ (execute_concludes _ _ _ _) Hr)).
Qed.

(** The steps of a command that configures, reads a file, and works on the
    database, whichever of them fails. *)
Lemma runs_checked {E A B} (convert : E -> CommandError) (m : result E A) (f : A -> command (result
  (Thrown CommandError) B)) tr r :
  runs (try_bind (checked convert m) f) tr r -> tr = [] \/ exists a, m = Ok a /\ runs (f a) tr r.
Proof. destruct m as [a|e]; simpl; [intros Hr; right; by exists a|]. intros [-> _]. by left. Qed.

Lemma runs_read {B} path (f : string -> command (result (Thrown CommandError) B)) tr r :
  runs (try_bind (read path) f) tr r ->
  database tr = []
  \/ exists input tr', tr = Ev (ReadFile path) (Ok input) :: tr' /\ runs (f input) tr' r.
Proof.
  intros (tr1 & m & tr2 & -> & Hm & Hr)%runs_bind.
  apply runs_bind in Hm as (? & [input|e] & ? & -> & (? & ? & -> & -> & <-) & [-> ->]).
  - right. by exists input, tr2.
  - left. by destruct Hr as [-> _].
Qed.

Lemma query_configuration_runs {B} url audit_url role profile
    (f : ExecutorConfig * ExecutionContext -> command (result (Thrown CommandError) B)) tr r :
  runs (try_bind (query_configuration var url audit_url role profile) f) tr r ->
  tr = [] \/ exists config context,
    Executor.from_environment var url audit_url role = Ok config /\ runs (f (config, context)) tr r.
Proof.
  unfold query_configuration.
  destruct (Executor.from_environment var url audit_url role) as [config|e];
    [|intros [-> _]; by left].
  unfold checked, lift. cbn [map_err try_bind mbind prog_bind prog_bind_].
  destruct (Executor.new ("database-role:" +:+ ExecutorConfig.database_role config) profile)
    as [context|e]; [|intros [-> _]; by left].
  intros Hr. right. by exists config, context.
Qed.

(** A step on the database, then steps that leave it alone. *)
Lemma runs_on_database {A C} (convert : C -> Thrown CommandError) (p : io (result C A))
    {B} (f : A -> command (result (Thrown CommandError) B)) tr r :
  (forall a, only not_database (f a)) ->
  runs (try_bind (attempt convert (query_database p)) f) tr r ->
  exists m, runs p (database tr) m.
Proof.
  intros Hf (tr1 & m & tr2 & -> & Hm & Hr)%runs_bind.
  apply runs_bind in Hm as (tr3 & m' & tr4 & -> & Hm%query_database_events & [-> ->]).
  rewrite app_nil_r, database_app. exists m'.
  assert (database tr2 = []) as ->; [|by rewrite app_nil_r].
  destruct m' as [a|e]; [exact (silent_runs _ _ _ (Hf a) Hr)|]. by destruct Hr as [-> _].
Qed.

Lemma reading_nil : reading [].
Proof. constructor. Qed.

Lemma composed_reading command tr part : reading part -> composed (allowed_part command tr) part.
Proof. intros Hr. apply composed_one. by left. Qed.

Lemma composed_empty command tr part : part = [] -> composed (allowed_part command tr) part.
Proof. intros ->. apply composed_nil. Qed.

Lemma execute_query_parts path project url audit_url role tr r :
  runs (execute_query var path project url audit_url role) tr r ->
  composed (allowed_part (Commands.Query (QueryCommands.Execute path project url audit_url role))
    tr)
    (database tr).
Proof.
  intros [->|(config & context & He & Hr)]%query_configuration_runs; [by apply composed_empty|].
  apply runs_read in Hr as [Hd|(input & tr' & -> & Hr)]; [by apply composed_empty|].
  apply runs_on_database in Hr as (m & Hm%uncancelled_query_accepted); [|intros a; by quiet].
  apply composed_one. right. exists config, input. split_and!; [done|by left|exact Hm].
Qed.

Lemma mutation_context_runs {B} config (f : ExecutionContext -> command (result (Thrown
  CommandError) B)) tr r :
  runs (try_bind (mutation_execution_context var config) f) tr r ->
  tr = [] \/ exists context, runs (f context) tr r.
Proof.
  unfold mutation_execution_context, checked, lift.
  destruct (var "POSTGRESEM_MUTATION_AUTHORITY_ID") as [id|[]];
    cbn [map_err try_bind mbind prog_bind prog_bind_]; try (intros [-> _]; by left).
  all: destruct (new_with_authority _ _ _) as [context|e]; [|intros [-> _]; by left].
  all: intros Hr; right; by exists context.
Qed.

Lemma execute_mutation_parts path project url audit_url role tr r :
  runs (execute_mutation var path project url audit_url role) tr r ->
  composed (allowed_part (Commands.Mutation (MutationCommands.Execute path project url audit_url
    role)) tr)
    (database tr).
Proof.
  intros [->|(config & He & Hr)]%runs_checked; [by apply composed_empty|].
  apply mutation_context_runs in Hr as [->|(context & Hr)]; [by apply composed_empty|].
  apply runs_read in Hr as [Hd|(input & tr' & -> & Hr)]; [by apply composed_empty|].
  apply runs_on_database in Hr as (m & Hm%uncancelled_mutation_accepted); [|intros a; by quiet].
  apply composed_one. right. exists config, context, input. split_and!; [done|by left|exact Hm].
Qed.

Lemma serve_parts tr r :
  runs (serve_stdio var stdin) tr r ->
  composed (allowed_part (Commands.Mcp McpCommands.Serve) tr) (database tr).
Proof.
  intros (tr1 & served & tr2 & -> & (tr' & Hs & Hd)%on_server_events & [-> _])%runs_bind.
  rewrite app_nil_r, Hd. unfold serve in Hs.
  destruct (McpStdio.from_environment var) as [config|e] eqn:Hc.
  - eapply composed_mono; [|exact (serve_io_serves config _ _ _ _ Hs)].
    intros part [Hp|(method & params & Hp)]; [by left|]. right. by exists config, method, params.
  - destruct Hs as [-> _]. apply composed_nil.
Qed.

(** *** Benchmarks and reports *)

Section baseline.
Context (input project : string) (config : ExecutorConfig) (context : ExecutionContext).

Definition baseline_part (part : list (event answer)) : Prop :=
  reading part
  \/ accepts (ExecutorSpec.allowed input config) ExecutorSpec.observe ExecutorSpec.idle part.

Definition consists {A} (p : io A) : Prop :=
  forall tr a, runs p tr a -> composed baseline_part tr.

Lemma consists_ret {A} (a : A) : consists (Ret a).
Proof. intros tr b [-> _]. apply composed_nil. Qed.

Lemma consists_try {E A B} (p : io_result E A) (f : A -> io_result E B) :
  consists p -> (forall a, consists (f a)) -> consists (try_bind p f).
Proof.
  intros Hp Hf tr b (tr1 & [a|e] & tr2 & -> & H1%Hp & H2)%runs_bind;
    (apply composed_app; [done|]); [by eapply Hf|]. destruct H2 as [-> _]. apply composed_nil.
Qed.

Lemma consists_elapsed {B} (f : Duration -> io B) :
  (forall d, consists (f d)) -> consists (call Elapsed ≫= f).
Proof.
  intros Hf tr b (d & tr' & -> & Hr%Hf).
  apply (composed_app _ [_]); [|done]. apply composed_one. left. repeat constructor.
Qed.

Lemma execute_once_consists : consists (execute_once input project config context).
Proof.
  intros tr r (tr1 & m & tr2 & -> & Hm%uncancelled_query_accepted & [-> _])%runs_bind.
  rewrite app_nil_r. apply composed_one. by right.
Qed.

Lemma warm_up_consists n : forall expected,
  consists (warm_up input project config context n expected).
Proof.
  induction n as [|n IH]; intros expected; cbn [warm_up]; [apply consists_ret|].
  apply consists_try; [apply execute_once_consists|intros q].
  apply consists_try; [apply consists_ret|done].
Qed.

Lemma measure_executions_consists n : forall expected,
  consists (measure_executions input project config context n expected).
Proof.
  induction n as [|n IH]; intros expected; cbn [measure_executions]; [apply consists_ret|].
  apply consists_try; [apply execute_once_consists|intros q]. apply consists_elapsed. intros d.
  apply consists_try; [apply consists_ret|intros h].
  apply consists_try; [done|intros []]. apply consists_ret.
Qed.

Lemma baseline_consists warmup measured threshold_ms :
  consists (execution_baseline input project config context warmup measured threshold_ms).
Proof.
  unfold execution_baseline. apply consists_try; [apply consists_ret|intros _].
  apply consists_try; [apply warm_up_consists|intros h].
  apply consists_try; [apply measure_executions_consists|intros [samples h']].
  apply consists_try; [apply consists_ret|intros [[] ?]]. apply consists_ret.
Qed.
End baseline.

Lemma benchmark_execution_parts path project url audit_url role warmup measured threshold_ms tr r :
  runs (benchmark_execution var path project url audit_url role warmup measured threshold_ms) tr r
    ->
  composed (allowed_part (Commands.Benchmark (BenchmarkCommands.Execution path project url audit_url
              role warmup measured threshold_ms)) tr) (database tr).
Proof.
  intros [->|(config & context & He & Hr)]%query_configuration_runs; [by apply composed_empty|].
  apply runs_read in Hr as [Hd|(input & tr' & -> & Hr)]; [by apply composed_empty|].
  apply runs_on_database in Hr as (m & Hm%baseline_consists); [|intros a; by quiet].
  eapply composed_mono; [|exact Hm]. intros part [Hp|Hp]; [by left|]. right.
  exists config, input. split_and!; [done|by left|done].
Qed.

Lemma report_parts command url password hours function tr r :
  runs (report var url password hours function) tr r ->
  report_function command = function -> report_window command = hours ->
  composed (allowed_part (Commands.Report command) []) tr.
Proof.
  intros Hr Hf Hw. unfold report in Hr.
  destruct (fail_if _ ReportError.InvalidWindow) as [[]|e] eqn:Hwin; [|destruct Hr as [-> _];
    apply composed_nil].
  apply fail_if_ok in Hwin. rewrite negb_false_iff, bool_decide_eq_true in Hwin.
  destruct (try_each _ _) as [[]|e]; [|destruct Hr as [-> _]; apply composed_nil].
  destruct (required_environment var url) as [conninfo|e]; [|destruct Hr as [-> _];
    apply composed_nil].
  destruct (required_environment var password) as [secret|e]; [|destruct Hr as [-> _];
    apply composed_nil].
  cbn [lift try_bind mbind prog_bind prog_bind_] in Hr.
  apply runs_bind in Hr as (tr1 & m & tr2 & -> & Hc & Hr).
  apply composed_app.
  { apply composed_reading. apply runs_bind in Hc as (tr3 & m' & tr4 & -> & Hc & [-> _]).
    rewrite app_nil_r.
    exact (quiet_runs reading_call _ _ _ (connect_quiet Audit conninfo (Some secret) tt) Hc). }
  destruct m as [[]|e]; [|destruct Hr as [-> _]; apply composed_nil].
  destruct (fail_if _ _) as [[]|e]; [|destruct Hr as [-> _]; apply composed_nil].
  destruct Hr as (row & tr' & -> & Hr). apply (composed_app _ [_]).
  - apply composed_one. right. subst. split; [done|by exists row].
  - destruct row as [[j|]|e]; destruct Hr as [-> _]; apply composed_nil.
Qed.

Lemma report_command_parts command url password hours function
    (f : json -> Reports.command (result (Thrown CommandError) unit)) tr r :
  report_function command = function -> report_window command = hours ->
  (forall j, only not_database (f j)) ->
  runs (try_bind (on_connection CommandError.Report (report var url password hours function)) f) tr
    r ->
  composed (allowed_part (Commands.Report command) tr) (database tr).
Proof.
  intros Hf Hw Hs (m & Hm)%runs_on_database; [|done].
  eapply composed_mono; [|exact (report_parts _ _ _ _ _ _ _ Hm Hf Hw)].
  intros part [Hp|Hp]; [by left|by right].
Qed.

(** *** The HTTP server *)

Lemma composed_concat {E} (P : list E -> Prop) parts :
  Forall (composed P) parts -> composed P (concat parts).
Proof.
  intros Hp. induction Hp as [|part parts Hpart _ IH]; [apply composed_nil|].
  by apply composed_app.
Qed.

(** Once prepared, a server makes no call on the database itself, and serves at
    most once. *)
Lemma serving_runs setup tr r :
  runs (attempt (fun _ => HttpServerError.Runtime) (call BuildRuntime) ;;?
        result ← serve_async setup;
        call (ShutdownTimeout BLOCKING_SHUTDOWN_TIMEOUT) ≫= fun _ => Ret result) tr r ->
  database tr = []
  \/ exists tr1 answered tr2, tr = tr1 ++ Ev (Res := CommandRes) (AxumServe setup) answered :: tr2
       /\ database tr1 = [] /\ database tr2 = [].
Proof.
  simpl. intros ([[]|e] & tr1 & -> & Hr); [|destruct Hr as [-> _]; by left].
  destruct Hr as ([[]|e] & tr2 & -> & Hr); [|destruct Hr as (u & tr3 & -> & [-> _]); by left].
  destruct Hr as ([handled ended] & tr3 & -> & Hr). right.
  exists [Ev (Res := CommandRes) BuildRuntime (Ok tt);
          Ev (Res := CommandRes) (TcpBind (Setup.bind setup)) (Ok tt)], (handled, ended), tr3.
  split_and!; [done..|]. destruct ended as [ended|].
  - by destruct Hr as (u & tr4 & -> & [-> _]).
  - by destruct Hr as (drained & tr4 & -> & (u & tr5 & -> & [-> _])).
Qed.

Lemma serve_http_parts tr r :
  runs (serve_http var parse_socket_addr parent) tr r -> axum_serves tr ->
  composed (allowed_part (Commands.Mcp McpCommands.ServeHttp) tr) (database tr).
Proof.
  intros (tr1 & m & tr2 & -> & Hp & Hr)%serve_http_runs Hax. rewrite database_app.
  apply composed_app; [apply composed_reading; exact (reading_runs _ _ _ prepare_reads Hp)|].
  destruct m as [setup|e]; [|subst; apply composed_nil]. destruct Hr as [r' Hr].
  apply serving_runs in Hr as [->|(tr3 & answered & tr4 & -> & H3 & H4)]; [apply composed_nil|].
  rewrite database_app, H3. unfold database in H4 |- *. simpl. rewrite H4, app_nil_r.
  apply composed_concat, Forall_map, Forall_forall. intros handled Hin.
  apply composed_concat, Forall_forall. intros part Hpart. apply composed_one. right.
  exists (tr1 ++ tr3), setup, answered, tr4, handled. split_and!; [by rewrite <- app_assoc| |done|].
  - apply on_setup_events in Hp as (tr' & Hp & _ & Hd).
    rewrite database_app, H3, app_nil_r, Hd. by eapply prepared_ready.
  - eapply handled_work; [|exact Hpart].
    apply Forall_app in Hax as [_ [_ Hax]%Forall_app]. apply Forall_cons in Hax as [Hax _].
    rewrite Forall_forall in Hax. by apply Hax.
Qed.

Lemma guarded_part_app command tr tr' part :
  guarded_part command tr part -> guarded_part command (tr ++ tr') part.
Proof.
  assert (Hr : forall path input, was_read path input tr -> was_read path input (tr ++ tr'))
    by (intros path input Hin; apply elem_of_app; by left).
  destruct command as [[]|[]|[]| |[| |[]|]|[]|[]|[]|[]|[]]; simpl; try naive_solver.
  intros (before & setup & answered & after & handled & -> & H1 & H2 & H3).
  exists before, setup, answered, (after ++ tr'), handled. by rewrite <- app_assoc.
Qed.

Lemma run_parts command tr r :
  runs (run command) tr r -> axum_serves tr -> composed (allowed_part command tr) (database tr).
Proof.
  intros Hr Hax. destruct (only_reads command) eqn:Ho.
  { apply composed_reading. by eapply reading_command. }
  destruct command as [[]|[]|[]| |[| |[]|]|[]|[]|[]|[]|[]]; try done; cbn [Commands.run] in Hr.
  - by eapply benchmark_execution_parts.
  - by eapply execute_mutation_parts.
  - by eapply serve_parts.
  - apply runs_bind in Hr as (tr' & m & tr'' & -> & Hr & [-> _]). rewrite app_nil_r in *.
    by eapply serve_http_parts.
  - by eapply execute_query_parts.
  - eapply report_command_parts; [..|exact Hr]; [done|done|intros j; apply print_document_silent].
  - eapply report_command_parts; [..|exact Hr]; [done|done|intros j; apply print_document_silent].
Qed.
End guarded.

(** C6: every command executes only guarded statements.  What a command does on
    the database falls into parts that only read (without a writing transaction
    and without generated text) and parts that follow the protocol of an
    executor: that of queries for [query execute] and [benchmark execution], that
    of mutations for [mutation execute], over the configuration of the named
    variables and the content of the named file; the calls of one request each
    for [mcp serve]; for [mcp serve-http] the work of one task each, spawned for a
    request that was authenticated and admitted, over the configuration of its
    principal, on a server that had checked every role before; and the one
    statement of a report, over a window of an hour to a year.  All other commands
    only read.  It is assumed of the HTTP library and the runtime that requests
    are given to the handler and spawned tasks are run. *)
Theorem commands_execute_guarded_statements
    `{HC : Crates, HM : ModelParsers, HD : Driver, HL : LsqParser, HLm : LsmParser}
    `{HS : Schemas, HA : AuthCrates, HAP : AuthoringParser}
    `{HY : OsiYaml, HP : Platform, HCC : CommandCrates, HH : HttpCrates}
    var stdin parse_socket_addr parent command tr e :
  runs (Commands.main var stdin parse_socket_addr parent command) tr e -> axum_serves tr ->
  exists parts, database tr = concat parts /\ Forall (allowed_part var command tr) parts.
Proof.
  intros (tr1 & r & tr2 & -> & H1 & H2)%main_runs Hax.
  assert (database tr2 = []) as Hd.
  { destruct r as [[]|[error|]]; [by destruct H2 as [-> _]| |by destruct H2 as [-> _]].
    by destruct H2 as (printed & -> & _). }
  apply run_parts in H1; [|by apply Forall_app in Hax as [Hax _]].
  rewrite database_app, Hd, app_nil_r. eapply composed_mono; [|exact H1].
  intros part [Hp|Hp]; [by left|right; by apply guarded_part_app].
Qed.

(** ** Exit codes *)

Section files.
Context `{HC : Crates, HM : ModelParsers, HD : Driver, HL : LsqParser, HLm : LsmParser}.
Context `{HJ : JsonText, HS : Schemas, HA : AuthCrates, HAP : AuthoringParser}.
Context `{HY : OsiYaml, HP : Platform, HCC : CommandCrates}.
(** The content of the files, which does not change during the run. *)
Context (files : string -> result io_error string).

(** Files are read as they are, and the standard streams can be written. *)
Definition steady (tr : list (event CommandRes)) : Prop :=
  Forall (fun e : event CommandRes =>
    match e with
    | Ev (ReadFile path) r => r = files path
    | Ev (Print _) r | Ev (Eprint _) r => r = Ok tt
    | _ => True
    end) tr.

(** What was printed. *)
Definition printed (tr : list (event CommandRes)) : list string :=
  omap (fun e => match ev_op e with Print text => Some text | _ => None end) tr.

Lemma printed_app tr tr' : printed (tr ++ tr') = printed tr ++ printed tr'.
Proof. apply omap_app. Qed.

Abbreviation outcome A := (command (result (Thrown CommandError) A)).

(** In a steady run [p] prints [texts] and returns [r]. *)
Definition yields {A} (p : outcome A) (texts : list string) (r : result CommandError A) : Prop :=
  forall tr m, runs p tr m -> steady tr -> printed tr = texts /\ m = map_err Thrown.Raised r.

Lemma yields_ret {A} (a : A) : yields (Ret (Ok a)) [] (Ok a).
Proof. by intros tr m [-> ->] _. Qed.

Lemma yields_checked {E A} (convert : E -> CommandError) (m : result E A) :
  yields (checked convert m) [] (map_err convert m).
Proof. intros tr r [-> ->] _. by destruct m. Qed.

Lemma yields_fail_when condition error :
  yields (fail_when condition error) [] (fail_if condition error).
Proof. intros tr r [-> ->] _. by destruct condition. Qed.

Lemma yields_try {A B} (p : outcome A) (f : A -> outcome B) texts texts' a r :
  yields p texts (Ok a) -> yields (f a) texts' r -> yields (try_bind p f) (texts ++ texts') r.
Proof.
  intros Hp Hf tr m (tr1 & m1 & tr2 & -> & H1 & H2)%runs_bind [Hs1 Hs2]%Forall_app.
  destruct (Hp _ _ H1 Hs1) as [<- ->]. destruct (Hf _ _ H2 Hs2) as [<- ->].
  by rewrite printed_app.
Qed.

Lemma yields_try_err {A B} (p : outcome A) (f : A -> outcome B) texts error :
  yields p texts (Err error) -> yields (try_bind p f) texts (Err error).
Proof.
  intros Hp tr m (tr1 & m1 & tr2 & -> & H1 & H2)%runs_bind [Hs1 Hs2]%Forall_app.
  destruct (Hp _ _ H1 Hs1) as [<- ->]. destruct H2 as [-> ->]. by rewrite app_nil_r.
Qed.

Lemma yields_read path : yields (read path) [] (map_err CommandError.Io (files path)).
Proof.
  intros tr m (tr1 & r & tr2 & -> & (? & ? & -> & -> & <-) & [-> ->])%runs_bind Hs.
  apply Forall_cons in Hs as [-> _]. split; [done|]. by destruct (files path).
Qed.

Lemma yields_print text : yields (print text) [text] (Ok tt).
Proof.
  intros tr m (tr1 & r & tr2 & -> & (? & ? & -> & -> & <-) & [-> ->])%runs_bind Hs.
  apply Forall_cons in Hs as [Hr _]. simpl in Hr. subst. done.
Qed.

(** Reading and printing as functions of the files. *)
Definition file_snapshot (path : string) : result CommandError SemanticSnapshot :=
  text ← map_err CommandError.Io (files path);
  map_err CommandError.Json (snapshot_from_slice text).

Definition file_catalog (path : string) : result CommandError CatalogSnapshot :=
  text ← map_err CommandError.Io (files path);
  map_err CommandError.Json (catalog_from_slice text).

Lemma yields_read_snapshot path : yields (read_snapshot path) [] (file_snapshot path).
Proof.
  unfold read_snapshot, file_snapshot. pose proof (yields_read path) as Hr.
  destruct (files path) as [text|e]; simpl in *; [|by apply yields_try_err].
  apply (yields_try _ _ [] [] text); [done|apply yields_checked].
Qed.

Lemma yields_read_catalog path : yields (Commands.read_catalog path) [] (file_catalog path).
Proof.
  unfold Commands.read_catalog, file_catalog. pose proof (yields_read path) as Hr.
  destruct (files path) as [text|e]; simpl in *; [|by apply yields_try_err].
  apply (yields_try _ _ [] [] text); [done|apply yields_checked].
Qed.

Lemma yields_print_document document text :
  to_string_pretty document = Ok text -> yields (print_document document) [text +:+ nl] (Ok tt).
Proof.
  intros Ht. unfold print_document. rewrite Ht.
  apply (yields_try _ _ [] [_] text); [apply yields_ret|apply yields_print].
Qed.

Lemma yields_print_document_err document error :
  to_string_pretty document = Err error ->
  yields (print_document document) [] (Err (CommandError.Json error)).
Proof. intros Ht. unfold print_document. rewrite Ht. by intros tr m [-> ->] _. Qed.

(** *** Comparisons *)

Lemma yields_then {A B} (p : outcome A) (f : A -> outcome B) (m : result CommandError A) texts r :
  yields p [] m ->
  match m with
  | Ok a => yields (f a) texts r
  | Err error => texts = [] /\ r = Err error
  end ->
  yields (try_bind p f) texts r.
Proof.
  intros Hp. destruct m as [a|e]; [by apply (yields_try _ _ [] texts)|].
  intros [-> ->]. by apply yields_try_err.
Qed.

(** What comparing two files prints and returns. *)
Definition comparison {A B} (pure : string -> result CommandError A)
    (compare : A -> A -> result CommandError B) (document : B -> Document) (bad : B -> bool)
    (message : CommandError) (from to : string) : list string * result CommandError unit :=
  match before ← pure from; after ← pure to; compare before after with
  | Ok diff =>
      match to_string_pretty (document diff) with
      | Ok text => ([text +:+ nl], fail_if (bad diff) message)
      | Err error => ([], Err (CommandError.Json error))
      end
  | Err error => ([], Err error)
  end.

Lemma yields_comparison {A B E} (load : string -> outcome A) (pure : string -> result CommandError
  A)
    (convert : E -> CommandError) (compare : A -> A -> result E B) (document : B -> Document)
    (bad : B -> bool) (message : CommandError) from to :
  (forall path, yields (load path) [] (pure path)) ->
  let c := comparison pure (fun a b => map_err convert (compare a b)) document bad message from to
    in
  yields (before ←? load from; after ←? load to;
          diff ←? checked convert (compare before after);
          print_document (document diff) ;;? fail_when (bad diff) message) c.1 c.2.
Proof.
  intros Hl c. subst c. unfold comparison.
  eapply yields_then; [apply Hl|]. destruct (pure from) as [a|e]; [|done].
  eapply yields_then; [apply Hl|]. cbn [mbind result_bind]. destruct (pure to) as [b|e]; [|done].
  eapply yields_then; [apply yields_checked|]. cbn [mbind result_bind].
  destruct (compare a b) as [diff|e]; [|done]. cbn [map_err].
  destruct (to_string_pretty (document diff)) as [text|error] eqn:Ht.
  - apply (yields_try _ _ [_] [] tt); [by apply yields_print_document|apply yields_fail_when].
  - by apply yields_try_err, yields_print_document_err.
Qed.

(** The exit code of a steady run. *)
Lemma main_yields var stdin parse_socket_addr parent command texts r tr e :
  yields (Commands.run var stdin parse_socket_addr parent command) texts r ->
  runs (Commands.main var stdin parse_socket_addr parent command) tr e -> steady tr ->
  printed tr = texts /\ e = if is_ok r then SUCCESS else FAILURE.
Proof.
  intros Hy (tr1 & m & tr2 & -> & H1 & H2)%main_runs [Hs1 Hs2]%Forall_app.
  destruct (Hy _ _ H1 Hs1) as [<- ->]. rewrite printed_app. destruct r as [[]|error].
  - destruct H2 as [-> ->]. by rewrite app_nil_r.
  - destruct H2 as (p & -> & ->). apply Forall_cons in Hs2 as [Hp _]. simpl in Hp. subst p.
    by rewrite app_nil_r.
Qed.
End files.

(** What a comparison found and printed. *)
Definition compared `{AuthCrates} {A B} (pure : string -> result CommandError A)
    (compare : A -> A -> result CommandError B) `{CommandCrates} (document : B -> Document)
    (from to : string) (tr : list (event CommandRes)) (diff : B) : Prop :=
  exists before after text,
    pure from = Ok before /\ pure to = Ok after /\ compare before after = Ok diff
    /\ to_string_pretty (document diff) = Ok text /\ printed tr = [text +:+ nl].

Lemma comparison_exit `{HA : AuthCrates, HCC : CommandCrates} {A B}
    (pure : string -> result CommandError A) (compare : A -> A -> result CommandError B)
    (document : B -> Document) (bad : B -> bool) (message : CommandError) (good : B -> Prop)
    from to tr e :
  (forall before after diff, compare before after = Ok diff -> bad diff = false <-> good diff) ->
  let c := comparison pure compare document bad message from to in
  printed tr = c.1 /\ e = (if is_ok c.2 then SUCCESS else FAILURE) ->
  e <> ABORTED
  /\ (e = SUCCESS <-> exists diff, compared pure compare document from to tr diff /\ good diff).
Proof.
  intros Hgood c [Hp ->]. split; [by destruct (is_ok c.2)|]. unfold compared. split.
  - intros Hok. assert (Hc : is_ok c.2 = true) by (by destruct (is_ok c.2)). clear Hok.
    subst c. unfold comparison in *. destruct (pure from) as [a|] eqn:Ha; [|done].
    destruct (pure to) as [b|] eqn:Hb; [|done]. cbn [mbind result_bind] in *.
    destruct (compare a b) as [d|] eqn:Hd; [|done].
    destruct (to_string_pretty (document d)) as [t|] eqn:Ht; [|done].
    exists d. split; [by exists a, b, t|]. apply (Hgood _ _ _ Hd). simpl in Hc. by destruct (bad d).
  - intros (d & (a & b & t & Ha & Hb & Hd & Ht & _) & Hbad%(Hgood _ _ _ Hd)). subst c.
    unfold comparison. rewrite Ha, Hb. cbn [mbind result_bind]. rewrite Hd, Ht. simpl.
      by rewrite Hbad.
Qed.

Lemma semantic_gate before after diff :
  diff_snapshots before after = Ok diff ->
  SemanticDiff.has_breaking_changes diff = false <->
  Forall (fun c => Change.compatibility c <> Compatibility.Breaking) (SemanticDiff.changes diff).
Proof.
  intros Hd. assert (exists b a cs, diff = Diff.summarize b a cs) as (b & a & cs & ->).
  { unfold diff_snapshots in Hd. unbind. eauto. }
  unfold SemanticDiff.has_breaking_changes. simpl. clear Hd.
  assert (Hlen : length (List.filter is_breaking cs) = 0 <->
    Forall (fun c => Change.compatibility c <> Compatibility.Breaking) cs).
  { induction cs as [|c cs IH]; [by split; [constructor|]|]. rewrite Forall_cons, <- IH. simpl.
    unfold is_breaking at 1. case_bool_decide; simpl; [|tauto]. split; [lia|]. by intros [? _]. }
  rewrite <- Hlen, bool_decide_eq_false. case_decide; split; done.
Qed.

Lemma catalog_gate `{HC : Crates} before after diff :
  CatalogDiff.diff_catalogs before after = Ok diff ->
  CatalogDiff.has_breaking_changes diff = false <->
  Forall (fun c => CatalogChange.compatibility c <> CatalogCompatibility.Breaking)
    (CatalogDiff.changes diff).
Proof.
  intros (_ & _ & _ & _ & _ & _ & _ & Hs & _)%diff_catalogs_ok.
  unfold CatalogDiff.has_breaking_changes. rewrite Hs, bool_decide_eq_false. simpl.
  rewrite count_positive, Forall_forall. naive_solver.
Qed.

Lemma gated (gate breaking : bool) (P : Prop) :
  (breaking = false <-> P) -> (gate && breaking = false <-> (gate = true -> P)).
Proof. intros <-. destruct gate; simpl; naive_solver. Qed.

(** C24: the gate of a comparison decides the exit code.  Over files that can be
    read, [model diff] and [catalog diff] exit successfully exactly when both
    files hold documents that can be compared, the difference was printed, and,
    if the gate is asked for, no change of it is breaking; they fail otherwise,
    and never abort. *)
Theorem breaking_changes_close_the_gate
    `{HC : Crates, HM : ModelParsers, HD : Driver, HL : LsqParser, HLm : LsmParser}
    `{HJ : JsonText, HS : Schemas, HA : AuthCrates, HAP : AuthoringParser}
    `{HY : OsiYaml, HP : Platform, HCC : CommandCrates} var stdin parse_socket_addr parent
    files from to gate tr e :
  steady files tr ->
  (runs (Commands.main var stdin parse_socket_addr parent
           (Commands.Model (ModelCommands.Diff from to gate))) tr e ->
   e <> ABORTED
   /\ (e = SUCCESS <-> exists diff,
         compared (file_snapshot files)
           (fun before after => map_err CommandError.ModelDiff (diff_snapshots before after))
           Document.ModelDiff from to tr diff
         /\ (gate = true -> Forall (fun c => Change.compatibility c <> Compatibility.Breaking)
                              (SemanticDiff.changes diff))))
  /\ (runs (Commands.main var stdin parse_socket_addr parent
              (Commands.Catalog (CatalogCommands.Diff from to gate))) tr e ->
      e <> ABORTED
      /\ (e = SUCCESS <-> exists diff,
            compared (file_catalog files)
              (fun before after =>
                 map_err CommandError.CatalogDiff (CatalogDiff.diff_catalogs before after))
              Document.CatalogDiff from to tr diff
            /\ (gate = true ->
                Forall (fun c => CatalogChange.compatibility c <> CatalogCompatibility.Breaking)
                  (CatalogDiff.changes diff)))).
Proof.
  intros Hs. split; intros Hr; (eapply comparison_exit; [|eapply main_yields;
    [|exact Hr|exact Hs]]).
  2: { apply yields_comparison, yields_read_snapshot. }
  3: { apply yields_comparison, yields_read_catalog. }
  - intros before after diff Hd%map_err_ok%semantic_gate. by apply gated.
  - intros before after diff Hd%map_err_ok%catalog_gate. by apply gated.
Qed.

(** ** Exports *)

Section exports.
Context `{HC : Crates, HM : ModelParsers, HD : Driver, HL : LsqParser, HLm : LsmParser}.
Context `{HJ : JsonText, HS : Schemas, HA : AuthCrates, HAP : AuthoringParser}.
Context `{HY : OsiYaml, HP : Platform, HCC : CommandCrates} (var : environment).
Context (files : string -> result io_error string).

(** The text that exporting a file prints. *)
Definition exported (project catalog from : string) : result CommandError string :=
  catalog ← file_catalog files catalog;
  input ← map_err CommandError.Io (files from);
  map_err CommandError.OsiExport
    (export_json snapshot_from_slice json_from_slice input catalog project).

Lemma yields_wrapped {A B C} (p : command (result (Thrown CommandError) A)) (wrap : A -> B)
    (k : B -> command (result (Thrown CommandError) C)) m texts r :
  yields files p [] m ->
  match m with
  | Ok a => yields files (k (wrap a)) texts r
  | Err error => texts = [] /\ r = Err error
  end ->
  yields files (try_bind (try_bind p (fun a => Ret (Ok (wrap a)))) k) texts r.
Proof.
  intros Hp Hk. apply (yields_then _ _ _ (wrap <$> m)).
  - eapply yields_then; [exact Hp|]. destruct m as [a|e]; [apply yields_ret|done].
  - by destruct m.
Qed.

Lemma yields_export database_url_env project catalog from :
  let o := exported project catalog from in
  yields files (export_model var database_url_env project ModelExportFormat.Osi (Some catalog) (Some
    from))
    (match o with Ok text => [text] | Err _ => [] end)
    (match o with Ok _ => Ok tt | Err error => Err error end).
Proof.
  intros o. unfold export_model, export_catalog, exported in *. subst o.
  apply (yields_try _ _ _ [] _ tt); [apply yields_ret|].
  eapply yields_wrapped; [apply yields_read_catalog|].
  destruct (file_catalog files catalog) as [c|e]; [|done]. cbn [mbind result_bind].
  eapply yields_then.
  - eapply (yields_then _ _ _ _ [] (map_err CommandError.Io (files from) ≫= fun input =>
      map_err CommandError.OsiExport
        (export_json snapshot_from_slice json_from_slice input c project))); [apply yields_read|].
    destruct (files from) as [input|e]; [apply yields_checked|done].
  - destruct (_ ≫= _) as [text|e]; [apply yields_print|done].
Qed.

Lemma yields_import from catalog report text t c :
  files from = Ok text -> file_catalog files catalog = Ok c ->
  Osi.import_osi text c None = Ok report ->
  to_string_pretty (Document.Snapshot (OsiImportReport.snapshot report)) = Ok t ->
  yields files (Commands.import_osi from catalog None true) [t +:+ nl] (Ok tt).
Proof.
  intros Hf Hc Hi Ht. unfold Commands.import_osi.
  eapply yields_then; [apply yields_read_catalog|]. rewrite Hc.
  eapply yields_then; [apply yields_read|]. rewrite Hf. cbn [map_err].
  eapply yields_then; [apply yields_checked|]. rewrite Hi. cbn [map_err].
  by apply yields_print_document.
Qed.

(** An exported text imports as the file that was exported. *)
Lemma exported_imports project catalog from text :
  exported project catalog from = Ok text ->
  exists c input saved document report,
    file_catalog files catalog = Ok c /\ files from = Ok input
    /\ snapshot_from_slice input = Ok saved /\ json_from_slice input = Ok document
    /\ Osi.import_osi text c None = Ok report
    /\ saved_as (omitted_nullability document saved) (normalized saved)
         (OsiImportReport.snapshot report).
Proof.
  unfold exported. intros (c & Hc & (input & Hi%map_err_ok & He%map_err_ok)%bind_ok)%bind_ok.
  unfold export_json in He.
  apply bind_ok in He as (saved & Hs%map_err_ok & He).
  apply bind_ok in He as (document & Hd%map_err_ok & (report & Hr & Hsa)%export_ok).
  by exists c, input, saved, document, report.
Qed.
End exports.

(** C23: what is exported can be imported.  If [model export --format osi] succeeds
    on a file, it prints one document; saved, and imported with the same catalog
    by [model import osi --snapshot-only], by whatever process, that document
    yields the exported snapshot in canonical order, with the nullability of
    fields that the file does not state taken from the catalog. *)
Theorem exported_documents_import_back
    `{HC : Crates, HM : ModelParsers, HD : Driver, HL : LsqParser, HLm : LsmParser}
    `{HJ : JsonText, HS : Schemas, HA : AuthCrates, HAP : AuthoringParser}
    `{HY : OsiYaml, HP : Platform, HCC : CommandCrates} var stdin parse_socket_addr parent
    files project database_url_env catalog from tr :
  runs (Commands.main var stdin parse_socket_addr parent
          (Commands.Model (ModelCommands.Export_ project database_url_env ModelExportFormat.Osi
             (Some catalog) (Some from)))) tr SUCCESS ->
  steady files tr ->
  exists text input saved document snapshot,
    printed tr = [text] /\ files from = Ok input
    /\ snapshot_from_slice input = Ok saved /\ json_from_slice input = Ok document
    /\ saved_as (omitted_nullability document saved) (normalized saved) snapshot
    /\ forall var' stdin' files' saved_text saved_catalog tr' e t,
         files' saved_text = Ok text -> files' saved_catalog = files catalog ->
         to_string_pretty (Document.Snapshot snapshot) = Ok t ->
         runs (Commands.main var' stdin' parse_socket_addr parent
                 (Commands.Model (ModelCommands.Import_ (ModelImportCommands.Osi saved_text
                    saved_catalog None true)))) tr' e ->
         steady files' tr' -> e = SUCCESS /\ printed tr' = [t +:+ nl].
Proof.
  intros Hr Hs.
  assert (Hy := main_yields files var stdin parse_socket_addr parent _ _ _ tr SUCCESS
    (yields_export var files database_url_env project catalog from : yields files (Commands.run
       var stdin parse_socket_addr parent (Commands.Model (ModelCommands.Export_ project
         database_url_env ModelExportFormat.Osi (Some catalog) (Some from)))) _ _) Hr Hs).
  destruct Hy as [Hp He].
  destruct (exported files project catalog from) as [text|error] eqn:Hx; [|done].
  apply exported_imports in Hx as (c & input & saved & document & report & Hc & Hf & Hsaved & Hd &
    Hi & Hsa).
  exists text, input, saved, document, (OsiImportReport.snapshot report). split_and!; [done..|].
  intros var' stdin' files' doc cat tr' e t Hdoc Hcat Ht Hr' Hs'.
  assert (Hc' : file_catalog files' cat = Ok c) by (unfold file_catalog; by rewrite Hcat).
  assert (Hy := main_yields files' var' stdin' parse_socket_addr parent _ _ _ tr' e
    (yields_import files' doc cat report text t c Hdoc Hc' Hi Ht : yields files' (Commands.run
       var' stdin' parse_socket_addr parent (Commands.Model (ModelCommands.Import_
         (ModelImportCommands.Osi doc cat None true)))) _ _) Hr' Hs').
  by destruct Hy as [Hp' ->].
Qed.

(** ** The contract *)

(** The name clap gives a command: that of its variant in lower case. *)
Definition command_name (command : Commands) : string :=
  match command with
  | Commands.Benchmark _ => "benchmark"
  | Commands.Catalog _ => "catalog"
  | Commands.Contract _ => "contract"
  | Commands.Doctor _ => "doctor"
  | Commands.Model _ => "model"
  | Commands.Mutation _ => "mutation"
  | Commands.Mcp _ => "mcp"
  | Commands.Query _ => "query"
  | Commands.Report _ => "report"
  | Commands.Snapshot _ => "snapshot"
  end.

(** A command of every name. *)
Definition named_command (name : string) : Commands :=
  let commands :=
    [Commands.Benchmark (BenchmarkCommands.Compiler 1 1 1 (S754_zero false));
     Commands.Catalog (CatalogCommands.Scan EmptyString);
     Commands.Contract ContractCommands.Show_; Commands.Doctor true;
     Commands.Model (ModelCommands.Diff EmptyString EmptyString false);
     Commands.Mutation (MutationCommands.Validate EmptyString EmptyString);
     Commands.Mcp McpCommands.Serve; Commands.Query (QueryCommands.Validate EmptyString);
     Commands.Report (ReportCommands.Beta EmptyString EmptyString 1);
     Commands.Snapshot (SnapshotCommands.Hash_ EmptyString)] in
  default (Commands.Doctor true)
    (List.find (fun command => bool_decide (command_name command = name)) commands).

Definition tool_name (definition : Value) : option string := value_get "name" definition ≫= as_str.

(** A call that reaches a tool with its arguments. *)
Definition reaches_tool `{HJ : JsonText} (p : rpc Value) (arguments : Value) : Prop :=
  exists (P : Type) (decode : FromValue P) (body : P -> tool Value), p = run_tool body arguments.

Lemma call_tool_known `{HC : Crates, HM : ModelParsers, HD : Driver, HL : LsqParser}
    `{HLm : LsmParser, HJ : JsonText} config request :
  if decide (ToolCallParams.name request ∈ tool_names)
  then reaches_tool (call_tool_with_cancel config request) (ToolCallParams.arguments request)
  else call_tool_with_cancel config request = raising (Err RpcFailure.tool_not_found).
Proof.
  unfold call_tool_with_cancel. cbv zeta.
  case_decide as Hn; [|repeat (rewrite decide_False by (intros He; apply Hn; rewrite He;
    set_solver)); done].
  case_decide; [by exists ListModelsParams, _, (list_semantic_models config)|].
  case_decide; [by exists DescribeModelParams, _, (describe_semantic_model config)|].
  case_decide; [by exists QueryToolParams, _, (validate_semantic_query config)|].
  case_decide; [by exists QueryToolParams, _, (query_semantic_model_with_cancel config)|].
  case_decide; [by exists QueryToolParams, _, (explain_semantic_query config)|].
  case_decide; [by exists MutationToolParams, _, (validate_semantic_mutation config)|].
  case_decide; [by exists MutationToolParams, _, (mutate_semantic_model_with_cancel config)|].
  case_decide; [by exists ReconcileMutationParams, _, (reconcile_semantic_mutation config)|].
  exfalso. unfold tool_names in Hn. repeat (apply elem_of_cons in Hn as [?|Hn]; [done|]).
  by apply not_elem_of_nil in Hn.
Qed.

(** C30: the contract manifest is true of the program.  The tools it lists are
    exactly those a server describes to its clients, the mutation tools only if
    it is configured for mutations; a call reaches a tool exactly when the
    manifest lists its name, and is refused otherwise; and its commands are
    exactly the commands of the command line. *)
Theorem manifest_is_true
    `{HC : Crates, HM : ModelParsers, HD : Driver, HL : LsqParser, HLm : LsmParser}
    `{HJ : JsonText, HS : Schemas} (config : McpConfig) :
  let query := ManifestTools.query (ContractManifest.mcp_tools manifest) in
  let mutation := ManifestTools.mutation (ContractManifest.mcp_tools manifest) in
  omap tool_name (tool_definitions (mutation_enabled config))
    ≡ₚ query ++ (if mutation_enabled config then mutation else [])
  /\ (forall request,
        if decide (ToolCallParams.name request ∈ query ++ mutation)
        then reaches_tool (call_tool_with_cancel config request) (ToolCallParams.arguments request)
        else call_tool_with_cancel config request = raising (Err RpcFailure.tool_not_found))
  /\ NoDup (ContractManifest.cli_commands manifest)
  /\ forall name, name ∈ ContractManifest.cli_commands manifest
       <-> exists command, command_name command = name.
Proof.
  intros query mutation.
  assert (Hperm : forall l k : list string, bool_decide (NoDup l /\ NoDup k /\ Forall (.∈ k) l
                                                /\ Forall (.∈ l) k) = true -> l ≡ₚ k).
  { intros l k (Hl & Hk & H1 & H2)%bool_decide_eq_true. rewrite Forall_forall in H1, H2.
    apply NoDup_Permutation; [done..|]. intros x. split; auto. }
  assert (Hp : tool_names ≡ₚ query ++ mutation) by by apply Hperm.
  split_and!.
  - destruct (mutation_enabled config); [etransitivity; [|exact Hp]; reflexivity|]. by apply Hperm.
  - intros request. pose proof (call_tool_known config request) as Hc.
    destruct (decide (_ ∈ tool_names)) as [Hin|Hout]; rewrite Hp in *;
      [by rewrite decide_True|by rewrite decide_False].
  - by apply (bool_decide_unpack (NoDup (ContractManifest.cli_commands manifest))).
  - intros name. split; [|intros [[] <-]; cbn; set_solver]. intros Hin.
    exists (named_command name).
    revert name Hin. apply Forall_forall. by repeat constructor.
Qed.

(** ** Invocations *)

#[local] Instance sample_platform : Platform := {| OS := "linux"; ARCH := "x86_64" |}.

Definition empty_snapshot : SemanticSnapshot :=
  {| Snapshot.schema_version := "2"; Snapshot.revision_hash := EmptyString; Snapshot.models := []
    |}.

#[local] Instance sample_command_crates : CommandCrates := {|
  snapshot_from_slice text :=
    Ok (if decide (text = "sales") then OsiImportReport.snapshot sales_report else empty_snapshot);
  catalog_from_slice _ := Ok osi_catalog;
  json_from_slice _ := Ok (Value_Object []);
  to_string_pretty _ := Ok "document";
  error_text _ := "failed";
|}.

Definition cli_var (name : string) : result VarError string :=
  if decide (name = "DATABASE_URL") then Ok "postgresql://runtime"
  else if decide (name = "AUDIT_URL") then Ok "postgresql://audit"
  else if decide (name = "DB_ROLE") then Ok "analyst" else Err NotPresent.

(** Every file has its name as content. *)
Definition cli_files (path : string) : result io_error string := Ok path.

Definition cli_respond (op : CommandOp) : CommandRes op :=
  match op with
  | Server (Db op) => ExecutorFixtures.respond one_sale fresh_claim op
  | Server (Eprintln _) => Ok tt
  | Server (ToWriter _) => Ok tt
  | Server (WriteAll _) => Ok tt
  | Server Flush => Ok tt
  | ReadFile path => cli_files path
  | RunProgram _ _ => Ok (Output.mk true "version 1" EmptyString)
  | Print _ => Ok tt
  | Eprint _ => Ok tt
  | BuildRuntime => Ok tt
  | TcpBind _ => Ok tt
  | AxumServe _ => ([], ShutdownSignal)
  | Drain _ => None
  | ShutdownTimeout _ => tt
  | ReadConfigured _ => None
  end.

Definition invoke (command : Commands) : list (event CommandRes) * Exit :=
  execute_with (fun (_ : unit) op => (cli_respond op, tt)) tt
    (Commands.main cli_var (Reader.mk [] []) (fun _ => None) (fun _ => EmptyString) command).

Lemma invoke_runs command :
  runs (Commands.main cli_var (Reader.mk [] []) (fun _ => None) (fun _ => EmptyString)
          command) (invoke command).1 (invoke command).2.
Proof. apply execute_with_runs. Qed.

Lemma invoke_steady {A} (p : command A) :
  steady cli_files (execute_with (fun (_ : unit) op => (cli_respond op, tt)) tt p).1.
Proof.
  unfold steady. induction p as [a|op k IH]; simpl; [constructor|].
  specialize (IH (cli_respond op)).
  destruct (execute_with _ tt (k (cli_respond op))) as [tr a]. constructor; [|exact IH].
  by destruct op as [[]| | | | | | | | | |].
Qed.

Definition sales_query : Commands :=
  Commands.Query (QueryCommands.Execute "query.json" "shop" "DATABASE_URL" "AUDIT_URL" "DB_ROLE").
Definition sales_removed : Commands := Commands.Model (ModelCommands.Diff "sales" "empty" true).
Definition sales_export : Commands :=
  Commands.Model (ModelCommands.Export_ "copy" "DATABASE_URL" ModelExportFormat.Osi
    (Some "catalog.json") (Some "sales")).

(** The sample gateway: it serves one request, and is then told to stop. *)
Definition gateway_handled (state : HttpState) : Handled :=
  let calls := (execute_with (fun (s : unit) op => (sample_answer op, s)) tt
                  (handle_mcp state sample_headers)).1 in
  Handled.mk sample_headers calls
    (map (fun job => (ExecutorFixtures.run one_sale fresh_claim (dispatch_job job)).1)
       (spawned_jobs calls)).

Definition gateway_respond (op : CommandOp) : CommandRes op :=
  match op with
  | AxumServe setup => ([gateway_handled (Setup.state setup)], ShutdownSignal)
  | ReadConfigured path => sample_gateway_files path
  | op => cli_respond op
  end.

Definition gateway : list (event CommandRes) * Exit :=
  execute_with (fun (_ : unit) op => (gateway_respond op, tt)) tt
    (Commands.main sample_var (Reader.mk [] []) sample_parse_addr (fun _ => "conf")
       (Commands.Mcp McpCommands.ServeHttp)).

Lemma gateway_runs :
  runs (Commands.main sample_var (Reader.mk [] []) sample_parse_addr (fun _ => "conf")
          (Commands.Mcp McpCommands.ServeHttp)) gateway.1 gateway.2.
Proof. apply execute_with_runs. Qed.

Lemma gateway_handles state : handles state (gateway_handled state).
Proof.
  split.
  - eexists [], _. rewrite app_nil_r. apply execute_with_runs.
  - unfold gateway_handled. simpl. induction (spawned_jobs _) as [|job jobs IH]; constructor; [|done].
    eexists [], _. rewrite app_nil_r. apply ExecutorFixtures.run_runs.
Qed.

Lemma gateway_axum {A} (p : command A) :
  axum_serves (execute_with (fun (_ : unit) op => (gateway_respond op, tt)) tt p).1.
Proof.
  unfold axum_serves. induction p as [a|op k IH]; simpl; [constructor|].
  specialize (IH (gateway_respond op)).
  destruct (execute_with _ tt (k (gateway_respond op))) as [tr a]. constructor; [|exact IH].
  destruct op; try done. constructor; [apply gateway_handles|constructor].
Qed.

Lemma commands_touch_only_what_they_name_witness :
  gateway.2 = SUCCESS
  /\ configured_file sample_var (fun _ => "conf") gateway.1 "conf/jwks.json".
Proof.
  split; [vm_compute; reflexivity|].
  assert (Hin : (Ev (Res := CommandRes) (ReadConfigured "conf/jwks.json")
                   (sample_gateway_files "conf/jwks.json")) ∈ gateway.1).
  { apply configured_read_in. replace (configured_reads gateway.1) with
      (map (fun path => (path, sample_gateway_files path))
         ["conf/authority.json"; "conf/jwks.json"; "/etc/pseudonym.key"]) by (vm_compute; reflexivity).
    by right; left. }
  exact (proj2 (commands_touch_only_what_they_name _ _ _ _ _ _ _ gateway_runs) _ _ Hin).
Defined.

(** The gateway works on the database for the request it serves. *)
Lemma commands_execute_guarded_statements_witness :
  gateway.2 = SUCCESS
  /\ existsb (fun e => match ev_op e with QueryRaw _ _ _ => true | _ => false end)
       (database gateway.1) = true
  /\ exists parts, database gateway.1 = concat parts
     /\ Forall (allowed_part sample_var (Commands.Mcp McpCommands.ServeHttp) gateway.1) parts.
Proof.
  split; [vm_compute; reflexivity|]. split; [vm_compute; reflexivity|].
  exact (commands_execute_guarded_statements _ _ _ _ _ _ _ gateway_runs (gateway_axum _)).
Defined.

Lemma breaking_changes_close_the_gate_witness :
  (invoke sales_removed).2 = FAILURE
  /\ ~ exists diff,
       compared (file_snapshot cli_files)
         (fun before after => map_err CommandError.ModelDiff (diff_snapshots before after))
         Document.ModelDiff "sales" "empty" (invoke sales_removed).1 diff
       /\ (true = true -> Forall (fun c => Change.compatibility c <> Compatibility.Breaking)
                            (SemanticDiff.changes diff)).
Proof.
  assert (Hf : (invoke sales_removed).2 = FAILURE) by (vm_compute; reflexivity).
  split; [exact Hf|]. intros Hd.
  apply (proj1 (breaking_changes_close_the_gate _ _ _ _ cli_files "sales" "empty" true _ _
                  (invoke_steady _)) (invoke_runs sales_removed)) in Hd.
  rewrite Hf in Hd. discriminate Hd.
Defined.

Lemma sales_exported : exists text, exported cli_files "copy" "catalog.json" "sales" = Ok text.
Proof.
  set (saved := OsiImportReport.snapshot sales_report).
  destruct (import_round_trips "sales" osi_catalog None sales_report "copy"
              (omitted_nullability (Value_Object []) saved) saved sales_imported)
    as (yaml & _ & Hy & _); [vm_compute; discriminate|done|apply saved_refl|].
  exists yaml. unfold exported, file_catalog, export_json, cli_files.
  cbn [map_err mbind result_bind catalog_from_slice snapshot_from_slice json_from_slice
       sample_command_crates].
  rewrite decide_True by done. fold saved. by rewrite Hy.
Qed.

Lemma sales_export_succeeds : (invoke sales_export).2 = SUCCESS.
Proof.
  destruct sales_exported as [text Ht].
  pose proof (yields_export cli_var cli_files "DATABASE_URL" "copy" "catalog.json" "sales") as Hy.
  rewrite Ht in Hy.
  exact (proj2 (main_yields cli_files _ _ _ _ sales_export _ _ _ _ Hy (invoke_runs sales_export)
                  (invoke_steady _))).
Qed.

Lemma exported_documents_import_back_witness : exists text input saved document snapshot,
  printed (invoke sales_export).1 = [text] /\ cli_files "sales" = Ok input
  /\ snapshot_from_slice input = Ok saved
  /\ saved_as (omitted_nullability document saved) (normalized saved) snapshot.
Proof.
  pose proof (invoke_runs sales_export) as Hr. rewrite sales_export_succeeds in Hr.
  destruct (exported_documents_import_back _ _ _ _ cli_files _ _ _ _ _ Hr (invoke_steady _))
    as (text & input & saved & document & snapshot & H1 & H2 & H3 & _ & H4 & _).
  exists text, input, saved, document, snapshot. split_and!; assumption.
Defined.
